(* ===== verification/_CoqProject ===== *)
-Q . S2P
Prelude.v
SSLConn.v
StreamTransport.v
SSLWrapper.v
SSLProto.v
SSLClient.v
StartTLS.v
SSLServer.v
SSLUnix.v
SSLExample.v
SSLStable.v
SSLProps.v
SSLNative.v
SSLPlain.v
SSLHandshake.v
Server.v
LoopCore.v
Connect.v
SubprocessPipes.v
Subprocess.v
Runner.v
IpAddress.v
DnsName.v
Eyeballs.v
Resolver.v
Lru.v
DnsCache.v
DnsFront.v
DnsQuery.v
DnsBooks.v
DnsProps.v
BTree.v
IoTasks.v
Watchers.v
UnixSignals.v
Datagram.v
RingBuffer.v
EventLoop.v
Future.v
Task.v
PyStrings.v
Linter.v
CveMonitor.v
Build.v
Bench.v
