(* ===== verification/Prelude.v ===== *)
(** * Talyn: a verification library for the talyn event loop

    Talyn is an [asyncio] event loop on io_uring: a native core in Zig
    (src/src) under a Python layer (src/talyn).  The Python layer is where TLS,
    servers, executors, exception handling and subprocesses live; this library
    models it method by method, on top of models of the native parts it stands
    on - the stream transport, the ready queues and their iteration, futures and
    tasks, the name resolver - and of the Python tools kept beside it (build script,
    benchmarks, linter, CVE monitor), and proves what makes each correct.

    ** How programs are modelled

    A Python method is a function in [PyM S A] (this file): it threads the state
    of the object and of its surroundings and ends with a value or an
    exception.  A raised exception keeps the state reached so far, [try] clauses
    are partial handlers, and [except C] follows the class hierarchy of
    [exn].  Attributes are record fields ([self f <- v] rebinds one).  What the
    code calls and does not define is a parameter: the TLS engine and the raw
    transport are type classes with their documented laws ([SSLConn]), user
    callbacks are arbitrary scripts that may call back into the object and raise.
    Zig code is modelled by functions on a record of the structure, with an
    [option] or a Boolean for its error unions; where it links nodes by pointers
    ([Lru]) the store is explicit.  Integers keep their width where it matters
    (ring indices, wire fields, TTLs).

    Loops over state are bounded by fuel that is computed from the state, and the
    termination theorems show it is enough; [Diverges] is the outcome of
    a loop that ran out, which no handler catches.  In [Task] the fuel bounds
    the steps a coroutine takes before it suspends, which are not the
    program's; what is said holds for any.  The one bound the code does not
    determine, the rounds of the ciphertext loop of [_flush_write_buffer], is a
    parameter ([cipher_fuel]); two rounds are shown to be enough when the pause
    upcall writes nothing.  Nested callbacks are modelled to any finite
    depth; beyond it Python raises [RecursionError] and so does the model.

    ** The files

    - [Prelude]: exceptions, the monad and its program logic ([triple], [keeps],
      [never]), record update, the tactics and the hint database [keeps].
    - [SSLConn]: the state of one TLS connection (engine, the two BIOs, wrapper,
      waiter, raw transport and a history of what was emitted, sent and
      called); the interfaces [SSLEngine] and [RawTransport] with their laws; the
      ciphertext invariant.
    - [StreamTransport]: the native transport (src/src/transports): write queue,
      flow control, reading, teardown, as a step relation over calls and
      completions; it is shown to be an instance of [RawTransport].  A read that
      succeeds is two events, as in loop/runner.zig: its data goes to the protocol
      with the completion batch ([harvest], [dispatch_record]), its callback runs
      later; only a read the batch had no room for is handed over by its callback.
    - [SSLWrapper]: [_SSLTransportWrapper] of talyn/loop.py.
    - [SSLProto], [SSLClient], [StartTLS], [SSLServer], [SSLUnix]: the five protocol
      classes that loop.py defines inside [_create_ssl_connection], [start_tls],
      [_create_ssl_server], [_create_ssl_unix_connection] and
      [_create_ssl_unix_server]; their shared bodies and the closed system of
      stimuli and user actions are in [SSLProto].  [StartTLS] has the whole
      coroutine, with the bytes it moves before the switch.
    - [SSLExample]: concrete engines and transports for the examples.
    - [SSLStable], [SSLProps], [SSLPlain], [SSLHandshake]: the theorems on TLS.
    - [SSLNative]: the five classes over the native transport, with the upcalls of
      its completions made in their middle.
    - [Server]: talyn/server.py with the native detach calls and [accept_callback]
      (transports/streamserver), whose protocol factory and [connection_made] may
      call the server.
    - [LoopCore]: the methods of [Loop] on exceptions, running, executors and
      closing.
    - [Connect]: routing and argument forwarding of [create_connection],
      [create_server] and the unix variants, with the native keyword parser.
    - [Eyeballs]: the order of a host's addresses (interleave.zig) and the machine
      that races the attempts (connect.zig) behind [create_connection].
    - [SubprocessPipes], [Subprocess]: the pipe transports, [subprocess_exec] and
      its wrappers.
    - [Runner]: talyn/runner.py, the kernel guard of [install], [PseudoSocket].
    - [IpAddress], [DnsName], [Resolver]: the address parser
      (utils/address.zig), the DNS wire format and resolv.conf
      (loop/dns/parsers.zig, resolv/parse.zig), and the life of a query
      (resolv/response.zig, resolv/types.zig, cache.zig) as a step relation over
      the completions of its datagrams.
    - [DnsCache], [DnsFront], [DnsQuery], [DnsBooks], [DnsProps]: the resolver as a
      whole.  [DnsCache] is the interface of the record cache, with [Lru] as instance;
      [DnsFront] the lookups, the start of a query and the end (loop/dns/main.zig,
      resolv/queue.zig, cache.zig); [DnsQuery] and [DnsBooks] the invariants of one
      query and of the caches that point to queries; [DnsProps] the theorems.
    - [IoTasks], [Watchers]: the slots of the operations in flight
      (loop/scheduling/io/main.zig), and on any pool of such slots the descriptor
      watchers of [add_reader] and its siblings (loop/python/io/watchers.zig).
    - [UnixSignals]: the signal handlers (loop/unix_signals.zig), on the B-tree, any
      such pool and any kernel with the laws of the signal system calls.
    - [Datagram]: the datagram transport (transports/datagram) on any such pool, with
      protocols that behave in any way when they are called.
    - [Lru]: utils/lru.zig on an explicit store of nodes.
    - [BTree]: utils/btree.zig, a node and the path to it instead of parent pointers.
    - [RingBuffer], [EventLoop]: the ready queue of callback_manager.zig, and the
      iteration of loop/runner.zig on two of them: polling, the completion batch,
      the hooks and the callbacks.
    - [Future]: future/*.zig with its inline callback queue, and the
      constructors of talyn/future.py and talyn/task.py.
    - [Task]: task/callbacks.zig and task/cancel.zig, the step machine of tasks
      and their cancellation, on a heap of the futures of [Future]; coroutines are
      programs over an arbitrary type of continuations.
    - [PyStrings], [Linter], [CveMonitor], [Build], [Bench]: Python string
      operations, then tools/linter/rules/python_rules.py,
      scripts/monitor_io_uring_cves.py, setup.py and benchmark.py.

    ** What the theorems show

    - Ciphertext (C1, C2, C33): under every engine, application and sequence of
      events, and as long as the raw transport is not dead, what the engine
      produced is what the transport took followed by what waits in the BIO, or,
      once [connection_lost] dropped the BIO, begins with what the transport took;
      on a refused write the client class keeps it and the other four lose it.
    - Plaintext and the handshake (C4, C5, C32;
      [flush_terminates], [write_appends_plaintext], [close_settles],
      [read_loop_drains], [close_after_connection_lost]): buffered plaintext is
      neither lost nor reordered by a flush in which no upcall writes, the loops terminate, closing
      settles, the application hears nothing before the handshake, a failed
      handshake cleans up, closing a lost connection raises.
    - TLS over the native transport (C3): the composed system refines
      the transport, and until the transport drops writes the ciphertext is, in
      order, the wire, the write queue and the BIO.
    - Native transport (C6, C26; [native_connection_lost_once]): first
      in, first out; [connection_lost] at
      most once; closing drains.
    - Native loop (C12, C13; [iteration_runs_ready],
      [poll_delivers]): the growing ring is a queue; callbacks run in the order they
      were scheduled, an iteration runs exactly what was ready when it began, and a
      poll delivers each completion once.
    - Future (C14): settled once, each callback run once and in order.
    - Task (C15, C30; [armed_send_throws]): a task that is not done has exactly one
      wake-up under way, whatever is awaited, settled and cancelled in whatever
      order, if no coroutine yields a future without awaiting it; a request to cancel
      is never lost and returns when the chain of
      waiting tasks ends.
    - Resolver (C9 to C11;
      [lookup_answers_once], [lookup_terminates], [accepted_answers_question]): no record
      or query is used after it was freed and closing frees them all; every caller that
      waits is answered exactly once, after finitely many completions; what a lookup
      returns was read for a query of its name while that had no result, in an answer
      with the identifier and the question of a datagram built for that server.
    - Names and addresses (C27 to C29, C31;
      [parseIp4_print_roundtrip], [candidates_fit_slot], [reverse_name_valid],
      [resolv_configuration_usable]): queries read back as written, parsing
      untrusted names stays in bounds and ends, printed addresses parse back.
    - Watchers (C22, C23): under every sequence of events no freed watcher is
      used and closing frees them all; the callbacks called are those registered.
      This and the two groups that follow assume of the pool of blocking tasks that
      an operation which could not be queued leaves nothing in flight
      ([TaskPoolLaws]), and, with the signals, that the nodes of the trees can be
      allocated: [failed_submission_stays_queued], [failed_submission_leaves_poll],
      [failed_insertion_leaves_watcher] and [insertion_after_failure] show what the
      code does otherwise.
    - Signals (C17 to C19;
      [signals_follow_registrations]): no freed handle is used; no signal is thrown
      away while its handler is installed or removed, and closing puts the first
      actions back; a signal with a handler is read, and its handler is made ready if
      no other read completes in between.
    - Datagrams (C20, C21;
      [datagram_protocol_calls]): no freed transport or buffer is used; datagrams reach
      the protocol in order, which hears of the loss of the connection once.
    - Blocking tasks ([tasks_in_flight_exact]): ids are never given twice and a completion
      finds its own callback.
    - LRU cache (C40): the linked structure behaves as a list of entries with the
      most recent first.
    - B-tree (C39): under any sequence of operations the tree answers as
      the ordered map of its pairs and stays well-formed.
    - Server (C24, C25; [close_clients_reaches_all]): the connection count is exact,
      [wait_closed] is not forgotten and does not return while a connection attached
      to the open server lives, every client is reached.
    - Loop (C34, C35; [call_exception_handler_reports_once],
      [do_shutdown_settles_once], [default_executor_reused],
      [shutdown_asyncgens_reports], [close_while_running_loses_executor]):
      what handlers and protocols raise is contained - what a [__repr__] or a changed
      message raises while the report is formatted is not - and reported once,
      [run_until_complete] ends as its future does, the executor is reused and its
      shutdown settled.
    - Subprocesses (C36, C37;
      [read_pipe_delivers_all], [patient_drain_delivers], [exec_uses_sample],
      [get_pipe_transport_stable], [exit_wakes_waiters], [close_discards_buffer]):
      pipes deliver their stream in order and completely, failures leave no child,
      waiters are woken.
    - Opening (C7, C8, C16; [interleave_weaves],
      [create_connection_forwards], [create_ssl_connection_forwards],
      [create_server_forwards], [ssl_flags_rejected]): no address is lost; under
      every order of completions the attempts end, free what they hold and leave
      the future with what happened - if interleaving the addresses does not
      overflow, the caller holds the future and memory suffices
      ([interleave_panics_in_debug], [dropped_future_faults]); arguments arrive.
      Running and installing:
      [with_runner_closes], [install_guard], [pseudo_socket_no_leak].
    - Tools (C38; [table_compares_same_size], [cross_build_suffix],
      [bench_command_plan], [analyze_cve_exact], [benchmark_measures_all]): the linter
      reports exactly the nodes the rules it has describe; a table compares measurements
      of the same size; a cross build never mixes two machines; the bench command
      follows its plan; no vulnerability is dismissed without a matching word.

    Beside the properties, lemmas exhibit defects of the code on concrete runs:
    [write_overtakes_buffer], [shutdown_not_retried], [not_serving_wakes_early],
    [late_connection_outlives_wait], [data_after_close], [data_after_abort],
    [batch_contains_exception], [protocol_repr_escapes], [changed_message_escapes],
    [bare_yield_never_wakes],
    [shutdown_asyncgens_arity], [pause_in_callback_undone], [drain_race_loses],
    [clean_loss_pauses], [pre_pipes_hold_protocols], [stdin_gets_reader],
    [accepted_socket_is_client], [ssl_false_fails], [install_accepts_6],
    [poll_wait_loses], [restart_reorders], [truncation_aborts_other_servers],
    [teardown_hands_over_twice], [short_a_record_reads_on],
    [parseIp_trailing_separator], [promotion_keeps_inline],
    [self_cancel_skips_awaited_task], [fatal_after_await_is_reported],
    [cycle_cancel_never_ends], [silent_handlers_missed],
    [native_target_is_cross], [interleave_panics_in_debug],
    [cancelled_connect_goes_on], [bad_argument_leaks], [socket_failure_ends_round],
    [dropped_future_faults], [teardown_order_leaks], [no_delay_still_races],
    [failed_insertion_stays], [insertion_after_failure],
    [removal_cancels_another_operation], [failed_insertion_leaves_watcher],
    [failed_submission_leaves_poll], [readded_signal_is_muted],
    [two_reads_lose_a_signal], [closed_removal_faults], [failed_addition_swallows],
    [addition_cancels_another_operation], [uncatchable_signal_accepted],
    [paused_with_nothing_to_send], [deaf_after_exception], [empty_datagram_dropped],
    [late_close_cancels_another], [unfiled_literal_forgotten],
    [null_callback_files_nothing], [zero_ttl_answer_lost], [lookup_joins_reverse_query].

    ** What is not modelled

    the preparation of io_uring submissions, timers and the watchdog of the native
    loop; the reading of resolv.conf from its file, the probe for IPv6 and the hash of the
    resolver; the addresses and options of a datagram endpoint; the low-level socket
    operations; contexts, the registries of current tasks, futures of other libraries and
    other loops in [Task]; the garbage collector's hooks; the content of TLS records (the
    engine is abstract); the step of the native [create_connection] from its arguments
    to the addresses, and the listening sockets but for the callback of an accept;
    [EventLoopPolicy], two methods that
    return an object.  Where two components are both modelled, most are composed through
    an interface (the raw transport under TLS, the pool of blocking tasks, the record
    cache); tasks are not composed with the iteration of the native loop, nor the
    callers of the resolver with it. *)

From stdpp Require Import base list strings gmap.
From Stdlib Require Import Strings.Byte.

Declare Scope py_scope.
Delimit Scope py_scope with py.

(** ** Bytes, as Python's [bytes] and [bytearray] contents *)

Notation bytes := (list Byte.byte).

(** ** Python exceptions

    The classes the modelled code raises, catches or lets pass, with the
    inheritance the [except] clauses depend on. *)

Inductive exn : Type :=
| SSLWantReadError
| SSLWantWriteError
| SSLEOFError
| SSLSyscallError
| SSLError (tag : nat)
| OSError (tag : nat)
| BlockingIOError
| BrokenPipeError
| ConnectionResetError
| ConnectionAbortedError
| TimeoutError
| RuntimeError (msg : string)
| NotImplementedError
| RecursionError
| TypeError (msg : string)
| ValueError (msg : string)
| AttributeError
| KeyError
| InvalidStateError
| OtherException (tag : nat)
| CancelledError
| OtherBaseException (tag : nat)
| Diverges.

#[export] Instance exn_eq_dec : EqDecision exn.
Proof. solve_decision. Defined.

(** [Diverges] is not a Python exception: it is the outcome of a loop model
    whose fuel ran out, and no handler below catches it. *)

(** [isinstance(e, Exception)]: everything but [CancelledError] and the other
    direct subclasses of [BaseException]. *)
Definition is_Exception (e : exn) : bool :=
  match e with
  | CancelledError | OtherBaseException _ | Diverges => false
  | _ => true
  end.

Definition is_BaseException (e : exn) : bool :=
  match e with Diverges => false | _ => true end.

(** [SSLWantReadError], [SSLWantWriteError], [SSLEOFError] and
    [SSLSyscallError] are subclasses of [SSLError], itself an [OSError]. *)
Definition is_SSLError (e : exn) : bool :=
  match e with
  | SSLWantReadError | SSLWantWriteError | SSLEOFError | SSLSyscallError
  | SSLError _ => true
  | _ => false
  end.

Definition is_OSError (e : exn) : bool :=
  match e with
  | OSError _ | BlockingIOError | BrokenPipeError | ConnectionResetError
  | ConnectionAbortedError | TimeoutError => true
  | _ => is_SSLError e
  end.

Definition is_TypeError (e : exn) : bool :=
  match e with TypeError _ => true | _ => false end.

(** Python's [sub in s] on strings. *)
Fixpoint str_in (sub s : string) : bool :=
  String.prefix sub s
  || match s with
     | EmptyString => false
     | String _ s' => str_in sub s'
     end.

(** [str(e)], where the code inspects it. *)
Definition exn_str (e : exn) : string :=
  match e with
  | RuntimeError m | TypeError m | ValueError m => m
  | _ => EmptyString
  end.

(** ** A state-and-exception monad

    A raised exception keeps the state reached so far: Python does not roll
    back the mutations a failing method made. *)

Inductive outcome (A : Type) : Type :=
| Ret (a : A)
| Raise (e : exn).
Arguments Ret {A} a.
Arguments Raise {A} e.

Definition PyM (S A : Type) : Type := S -> outcome A * S.

Section Monad.
Context {S : Type}.

Definition ret {A} (a : A) : PyM S A := fun s => (Ret a, s).
Definition raise {A} (e : exn) : PyM S A := fun s => (Raise e, s).

Definition bind {A B} (m : PyM S A) (k : A -> PyM S B) : PyM S B :=
  fun s => match m s with
           | (Ret a, s') => k a s'
           | (Raise e, s') => (Raise e, s')
           end.

Definition gets {A} (f : S -> A) : PyM S A := fun s => (Ret (f s), s).
Definition modify (f : S -> S) : PyM S unit := fun s => (Ret tt, f s).

(** [try: m except ...: handler else: k].  The handler is a partial map from
    exceptions: [None] lets the exception pass.  [k] is not protected. *)
Definition try_else {A B} (m : PyM S A) (handler : exn -> option (PyM S B))
    (k : A -> PyM S B) : PyM S B :=
  fun s => match m s with
           | (Ret a, s') => k a s'
           | (Raise e, s') =>
               match handler e with
               | Some h => h s'
               | None => (Raise e, s')
               end
           end.

Definition try_except {A} (m : PyM S A) (handler : exn -> option (PyM S A))
    : PyM S A :=
  try_else m handler ret.

(** [try: m finally: f]: an exception of [f] replaces the outcome of [m]. *)
Definition try_finally {A} (m : PyM S A) (f : PyM S unit) : PyM S A :=
  fun s => match m s with
           | (o, s') =>
               match f s' with
               | (Ret _, s'') => (o, s'')
               | (Raise e, s'') => (Raise e, s'')
               end
           end.

Definition when (b : bool) (m : PyM S unit) : PyM S unit :=
  if b then m else ret tt.

(** [for x in l: body]. *)
Fixpoint for_each {A} (l : list A) (body : A -> PyM S unit) : PyM S unit :=
  match l with
  | [] => ret tt
  | x :: l' => bind (body x) (fun _ => for_each l' body)
  end.

(** [while True: body], where [body] returns [true] to go round again. *)
Fixpoint loop (fuel : nat) (body : PyM S bool) : PyM S unit :=
  match fuel with
  | 0 => raise Diverges
  | Datatypes.S n => bind body (fun again => if again then loop n body else ret tt)
  end.
End Monad.

(** An [except C] clause, as a partial handler. *)
Definition except {S A} (c : exn -> bool) (h : exn -> PyM S A)
    : exn -> option (PyM S A) :=
  fun e => if c e then Some (h e) else None.

(** The handlers of one [try], tried in order. *)
Definition orelse {S A} (h1 h2 : exn -> option (PyM S A))
    : exn -> option (PyM S A) :=
  fun e => match h1 e with Some h => Some h | None => h2 e end.

Notation "x <- m ;; k" := (bind m (fun x => k))
  (at level 100, m at next level, right associativity) : py_scope.
Notation "m ;;; k" := (bind m (fun _ => k))
  (at level 100, right associativity) : py_scope.
Open Scope py_scope.

(** ** Program logic

    [triple P m Q]: from a state satisfying [P], [m] ends (every [PyM] is
    total) with an outcome and a state satisfying [Q].  [keeps I m]: [I] is
    preserved whatever the outcome, the shape of every class invariant. *)

Definition triple {S A} (P : S -> Prop) (m : PyM S A)
    (Q : outcome A -> S -> Prop) : Prop :=
  forall s, P s -> Q (m s).1 (m s).2.

Definition keeps {S A} (I : S -> Prop) (m : PyM S A) : Prop :=
  forall s, I s -> I (m s).2.

(** [never bad m]: no outcome of [m] is an exception satisfying [bad]. *)
Definition never {S A} (bad : exn -> Prop) (m : PyM S A) : Prop :=
  forall s e, (m s).1 = Raise e -> ~ bad e.

Section TripleRules.
Context {S : Type}.
Implicit Types (P I : S -> Prop).

Lemma triple_conseq {A} P P' (m : PyM S A) Q Q' :
  triple P' m Q' -> (forall s, P s -> P' s) ->
  (forall o s, Q' o s -> Q o s) -> triple P m Q.
Proof. intros H HP HQ s Hs. apply HQ, H, HP, Hs. Qed.

Lemma triple_bind {A B} P (m : PyM S A) (k : A -> PyM S B) R Q :
  triple P m (fun o s => match o with
                         | Ret a => R a s
                         | Raise e => Q (Raise e) s
                         end) ->
  (forall a, triple (R a) (k a) Q) ->
  triple P (bind m k) Q.
Proof.
  intros Hm Hk s Hs. specialize (Hm s Hs). unfold bind.
  destruct (m s) as [[a|e] s']; cbn in *; [apply Hk, Hm | exact Hm].
Qed.

Lemma keeps_ret {A} I (a : A) : keeps I (ret a).
Proof. intros s Hs. exact Hs. Qed.

Lemma keeps_raise {A} I e : keeps I (raise (A:=A) e).
Proof. intros s Hs. exact Hs. Qed.

Lemma keeps_gets {A} I (f : S -> A) : keeps I (gets f).
Proof. intros s Hs. exact Hs. Qed.

Lemma keeps_modify I f : (forall s, I s -> I (f s)) -> keeps I (modify f).
Proof. intros H s Hs. exact (H s Hs). Qed.

Lemma keeps_bind {A B} I (m : PyM S A) (k : A -> PyM S B) :
  keeps I m -> (forall a, keeps I (k a)) -> keeps I (bind m k).
Proof.
  intros Hm Hk s Hs. specialize (Hm s Hs). unfold bind.
  destruct (m s) as [[a|e] s']; cbn in *; [apply Hk, Hm | exact Hm].
Qed.

Lemma keeps_when I b m : (b = true -> keeps I m) -> keeps I (when b m).
Proof. destruct b; cbn; intros H; [auto | apply keeps_ret]. Qed.

Lemma keeps_if {A} I (b : bool) (m1 m2 : PyM S A) :
  (b = true -> keeps I m1) -> (b = false -> keeps I m2) ->
  keeps I (if b then m1 else m2).
Proof. destruct b; auto. Qed.

Lemma keeps_try_else {A B} I (m : PyM S A) h (k : A -> PyM S B) :
  keeps I m -> (forall e m', h e = Some m' -> keeps I m') ->
  (forall a, keeps I (k a)) -> keeps I (try_else m h k).
Proof.
  intros Hm Hh Hk s Hs. specialize (Hm s Hs). unfold try_else.
  destruct (m s) as [[a|e] s']; cbn in *; [apply Hk, Hm|].
  destruct (h e) as [m'|] eqn:E; [exact (Hh e m' E s' Hm) | exact Hm].
Qed.

Lemma keeps_try_except {A} I (m : PyM S A) h :
  keeps I m -> (forall e m', h e = Some m' -> keeps I m') ->
  keeps I (try_except m h).
Proof. intros. apply keeps_try_else; auto using keeps_ret. Qed.

Lemma keeps_try_finally {A} I (m : PyM S A) f :
  keeps I m -> keeps I f -> keeps I (try_finally m f).
Proof.
  intros Hm Hf s Hs. specialize (Hm s Hs). unfold try_finally.
  destruct (m s) as [o s']; cbn in *. specialize (Hf s' Hm).
  destruct (f s') as [[u|e] s'']; exact Hf.
Qed.

Lemma keeps_for_each {A} I (l : list A) body :
  (forall x, keeps I (body x)) -> keeps I (for_each l body).
Proof.
  intros H. induction l as [|x l IH]; cbn; [apply keeps_ret|].
  apply keeps_bind; auto.
Qed.

Lemma keeps_loop I n (body : PyM S bool) :
  keeps I body -> keeps I (loop n body).
Proof.
  intros H. induction n as [|n IH]; cbn; [apply keeps_raise|].
  apply keeps_bind; [exact H|]. intros []; [exact IH | apply keeps_ret].
Qed.

Lemma keeps_and {A} I J (m : PyM S A) :
  keeps I m -> keeps J m -> keeps (fun s => I s /\ J s) m.
Proof. intros HI HJ s [Hi Hj]. split; auto. Qed.
End TripleRules.

Lemma except_Some {S A} c (h : exn -> PyM S A) e m :
  except c h e = Some m -> c e = true /\ m = h e.
Proof. unfold except. destruct (c e); [intros [= <-]; auto | discriminate]. Qed.

Lemma orelse_Some {S A} (h1 h2 : exn -> option (PyM S A)) e m :
  orelse h1 h2 e = Some m ->
  h1 e = Some m \/ (h1 e = None /\ h2 e = Some m).
Proof. unfold orelse. destruct (h1 e); [intros [= ->]|]; auto. Qed.

Create HintDb keeps.
#[export] Hint Resolve keeps_ret keeps_raise keeps_gets : keeps.
(** An attribute the invariant does not read. *)
#[export] Hint Extern 2 (keeps _ (modify _)) =>
  apply keeps_modify; let H := fresh in intros ? H; exact H : keeps.

(** One structural step of a [keeps] goal. *)
Ltac keeps_step :=
  lazymatch goal with
  | |- keeps _ (bind _ _) => apply keeps_bind; [|intros ?]
  | |- keeps _ (when _ _) => apply keeps_when; intros ?
  | |- keeps _ (try_except _ _) =>
      apply keeps_try_except; [|intros ? ? ?]
  | |- keeps _ (try_else _ _ _) =>
      apply keeps_try_else; [|intros ? ? ?|intros ?]
  | |- keeps _ (try_finally _ _) => apply keeps_try_finally
  | |- keeps _ (for_each _ _) => apply keeps_for_each; intros ?
  | |- keeps _ (loop _ _) => apply keeps_loop
  | |- keeps _ (if ?b then _ else _) => destruct b eqn:?
  | |- keeps _ (match ?x with _ => _ end) => destruct x eqn:?
  | |- keeps _ (let _ := _ in _) => cbn zeta
  end.

(** Handlers are opened on the way: [except]/[orelse] equations in the context
    are turned into the clause that runs. *)
Ltac handler_cases :=
  repeat match goal with
  | H : orelse _ _ _ = Some _ |- _ =>
      apply orelse_Some in H as [H|[_ H]]
  | H : except _ _ _ = Some _ |- _ =>
      apply except_Some in H as [? ->]
  | H : (fun _ => None) _ = Some _ |- _ => discriminate H
  | H : None = Some _ |- _ => discriminate H
  end.

Ltac keeps_tac :=
  repeat (first [ solve [eauto with keeps]
                | progress handler_cases
                | keeps_step ]).

(** ** Record update

    [r <| f := v |>] is the object [r] with attribute [f] rebound to [v].  A
    record opts in with an [Eta] instance that lists its fields. *)

Class Eta (R : Type) : Type := eta : R -> R.

Class Setter {R T : Type} (proj : R -> T) : Type :=
  set_field : (T -> T) -> R -> R.

Ltac solve_setter :=
  lazymatch goal with
  | |- @Setter ?R ?T ?proj =>
      let e := constr:(_ : Eta R) in
      let f := fresh "f" in
      let r := fresh "r" in
      intros f r;
      let body := eval hnf in (e r) in
      let p := eval pattern (proj r) in body in
      lazymatch p with
      | ?g _ => let res := eval cbv beta in (g (f (proj r))) in exact res
      end
  end.

#[export] Hint Extern 1 (Setter _) => solve_setter : typeclass_instances.

Notation "r <| p := v |>" := (set_field (proj:=p) (fun _ => v) r)
  (at level 12, left associativity, p at next level, v at level 200) : py_scope.

(** [self.attr = v] *)
Notation "'self' p '<-' v" := (modify (set_field (proj:=p) (fun _ => v)))
  (at level 90, p at level 9, v at level 99) : py_scope.
