(* ===== verification/SSLConn.v ===== *)
(** * One TLS connection of talyn: the objects around [_SSLTransportWrapper]

    The state of one TLS connection (the protocol object, its transport wrapper,
    the two memory BIOs, the handshake waiter and what they leave on the event
    loop), the interfaces of the two objects the connection is plugged into (the
    [ssl.SSLObject] and the raw transport) and the primitive steps on them.
    [SSLWrapper] models [_SSLTransportWrapper] on top of it, and [SSLClient],
    [StartTLS], [SSLServer] and [SSLUnix] the protocol classes of [loop.py]. *)

From stdpp Require Import base list strings gmap.
From Stdlib Require Import Strings.Byte QArith.
From S2P Require Import Prelude.

Close Scope Q_scope.

(** ** The TLS engine: [ssl.SSLObject]

    A third-party object.  A call sees the unread bytes of the incoming BIO and
    returns an outcome, the engine's next state, what it left unread and the
    ciphertext it appended to the outgoing BIO. *)

Record eng_out (E A : Type) : Type := EngOut {
  eo_res : outcome A;
  eo_eng : E;
  eo_incoming : bytes;
  eo_emit : bytes
}.
Arguments EngOut {E A}.
Arguments eo_res {E A}.
Arguments eo_eng {E A}.
Arguments eo_incoming {E A}.
Arguments eo_emit {E A}.

Class SSLEngine : Type := {
  eng : Type;
  eng_write : bytes -> bytes -> eng -> eng_out eng nat;
  eng_read : N -> bytes -> eng -> eng_out eng bytes;
  eng_handshake : bytes -> eng -> eng_out eng unit;
  eng_unwrap : bytes -> eng -> eng_out eng unit;
  (** a bound on the reads the engine can still serve without new input *)
  eng_pending : bytes -> eng -> nat
}.

(** What the code relies on: [write] never claims more than it was given, a
    [read] that returned data leaves fewer to serve, and no call diverges. *)
Class SSLEngineLaws (EI : SSLEngine) : Prop := {
  eng_write_le : forall d inc e n,
    eo_res (eng_write d inc e) = Ret n -> (n <= length d)%nat;
  eng_read_pending : forall n inc e d,
    eo_res (eng_read n inc e) = Ret d -> d <> [] ->
    (eng_pending (eo_incoming (eng_read n inc e)) (eo_eng (eng_read n inc e))
     < eng_pending inc e)%nat;
  eng_write_total : forall d inc e, eo_res (eng_write d inc e) <> Raise Diverges;
  eng_read_total : forall n inc e, eo_res (eng_read n inc e) <> Raise Diverges;
  eng_handshake_total : forall inc e, eo_res (eng_handshake inc e) <> Raise Diverges;
  eng_unwrap_total : forall inc e, eo_res (eng_unwrap inc e) <> Raise Diverges
}.

(** ** The raw transport the TLS layer writes its ciphertext to *)

Inductive pyval : Type :=
| VNone
| VBool (b : bool)
| VInt (z : Z)
| VPair (a b : Z)
| VObj (name : string).

Inductive raw_op : Type :=
| RWrite (d : bytes)
| RClose
| RAbort
| RWriteEof
| RCanWriteEof
| RIsClosing
| RGetWriteBufferSize
| RGetWriteBufferLimits
| RSetWriteBufferLimits (high low : option Z)
| RPauseReading
| RResumeReading
| RIsReading
| RSetProtocol
| RGetExtraInfo (name : string) (default : pyval).

(** Flow-control upcalls the transport makes before the call returns. *)
Inductive raw_cb : Type := CbPauseWriting | CbResumeWriting.

Record raw_out (R : Type) : Type := RawOut {
  ro_res : outcome pyval;
  ro_cbs : list raw_cb;
  ro_raw : R
}.
Arguments RawOut {R}.
Arguments ro_res {R}.
Arguments ro_cbs {R}.
Arguments ro_raw {R}.

Class RawTransport : Type := {
  raw : Type;
  raw_call : raw_op -> raw -> raw_out raw;
  (** torn down: nothing written reaches the peer any more *)
  raw_dead : raw -> bool
}.

Definition paused_message : string := "Writing operations are paused".

Definition is_RuntimeError (e : exn) : bool :=
  match e with RuntimeError _ | RecursionError | NotImplementedError => true | _ => false end.

(** [except RuntimeError as e: if "Writing operations are paused" in str(e)] *)
Definition is_paused_error (e : exn) : bool :=
  is_RuntimeError e && str_in paused_message (exn_str e).

(** The contract the TLS layer writes against: on a live transport, a write
    that raises is a write refused because writing is paused, and nothing of it
    was taken; a transport that is dead stays dead. *)
Class RawTransportLaws (RI : RawTransport) : Prop := {
  raw_write_refusal : forall d r e, raw_dead r = false ->
    ro_res (raw_call (RWrite d) r) = Raise e -> is_paused_error e = true;
  raw_dead_stays : forall op r,
    raw_dead r = true -> raw_dead (ro_raw (raw_call op r)) = true;
  raw_total : forall op r, ro_res (raw_call op r) <> Raise Diverges;
  raw_write_only_pauses : forall d r c,
    c ∈ ro_cbs (raw_call (RWrite d) r) -> c = CbPauseWriting
}.

(** The stronger contract of a transport that takes every write while alive. *)
Class RawReliable (RI : RawTransport) : Prop := {
  raw_write_accepts : forall d r, raw_dead r = false ->
    exists v, ro_res (raw_call (RWrite d) r) = Ret v
}.

(** ** What the connection says to the outside *)

Inductive app_event : Type :=
| AConnectionMade
| ADataReceived (d : bytes)
| AEofReceived
| AConnectionLost (e : option exn)
| APauseWriting
| AResumeWriting.

Inductive event : Type :=
| EvEmit (d : bytes)              (* the engine appended [d] to [_outgoing] *)
| EvConsumed (d : bytes)          (* the engine took plaintext [d] *)
| EvEngineRaised (e : exn)        (* a call on [_sslobj] raised *)
| EvRaw (op : raw_op)             (* a raw transport call that returned *)
| EvApp (a : app_event)           (* a call on the application protocol *)
| EvCallLater (delay : Q)         (* [loop.call_later(delay, _force_close)] *)
| EvTimerCancel
| EvLog (msg : string).           (* [logger.exception] *)

Inductive waiter_st : Type := WPending | WResult | WException (e : exn) | WCancelled.

Definition waiter_done (w : waiter_st) : bool :=
  match w with WPending => false | _ => true end.

(** ** The state of one connection *)

Section State.
Context {EI : SSLEngine} {RI : RawTransport}.

Record conn : Type := Conn {
  (* the protocol object: SP, SSP or _SP *)
  c_buf : bytes;
  c_hs : bool;
  c_running : bool;
  c_paused : bool;
  c_wants_read : bool;
  c_wants_write : bool;
  c_sslobj : option eng;
  c_incoming : option bytes;
  c_outgoing : option bytes;
  c_has_raw : bool;
  c_has_ap : bool;
  c_has_wrapper : bool;
  (* the _SSLTransportWrapper *)
  w_closing : bool;
  w_timer : option Q;
  w_buffer : list bytes;
  (* the objects around them *)
  c_raw : raw;
  c_waiter : waiter_st;
  c_hs_timer : option Q;
  c_loop_closed : bool;
  c_soon : list exn;
  c_log : list event
}.

#[export] Instance conn_eta : Eta conn := fun c =>
  Conn (c_buf c) (c_hs c) (c_running c) (c_paused c)
    (c_wants_read c) (c_wants_write c) (c_sslobj c) (c_incoming c)
    (c_outgoing c) (c_has_raw c) (c_has_ap c) (c_has_wrapper c)
    (w_closing c) (w_timer c) (w_buffer c) (c_raw c)
    (c_waiter c) (c_hs_timer c) (c_loop_closed c) (c_soon c)
    (c_log c).

Abbreviation M := (PyM conn).

Definition log (e : event) : M unit :=
  modify (fun c => c <| c_log := c_log c ++ [e] |>).

(** A method call on [self._sslobj]; [None] has no methods. *)
Definition engine {A} (op : bytes -> eng -> eng_out eng A) : M A := fun c =>
  match c_sslobj c with
  | None =>
      (Raise AttributeError,
       c <| c_log := c_log c ++ [EvEngineRaised AttributeError] |>)
  | Some e =>
      let r := op (default [] (c_incoming c)) e in
      let ev := match eo_res r with Ret _ => [] | Raise x => [EvEngineRaised x] end in
      (eo_res r,
       c <| c_sslobj := Some (eo_eng r) |>
         <| c_incoming := (fun _ => eo_incoming r) <$> c_incoming c |>
         <| c_outgoing := (fun o => o ++ eo_emit r) <$> c_outgoing c |>
         <| c_log := c_log c ++ EvEmit (eo_emit r) :: ev |>)
  end.

(** [self._sslobj.write(view)] *)
Definition sslobj_write (d : bytes) : M nat :=
  n <- engine (eng_write d) ;;
  log (EvConsumed (take n d)) ;;;
  ret n.

(** [MemoryBIO.read()]: everything buffered. *)
Definition outgoing_read : M bytes := fun c =>
  match c_outgoing c with
  | None => (Raise AttributeError, c)
  | Some o => (Ret o, c <| c_outgoing := Some [] |>)
  end.

(** [MemoryBIO.write(d)]: append. *)
Definition outgoing_write (d : bytes) : M unit := fun c =>
  match c_outgoing c with
  | None => (Raise AttributeError, c)
  | Some o => (Ret tt, c <| c_outgoing := Some (o ++ d) |>)
  end.

Definition incoming_write (d : bytes) : M unit := fun c =>
  match c_incoming c with
  | None => (Raise AttributeError, c)
  | Some i => (Ret tt, c <| c_incoming := Some (i ++ d) |>)
  end.

(** A method call on the raw transport ([_raw_t], unset before
    [connection_made]); the flow-control upcalls run before it returns. *)
Definition raw_t (up : raw_cb -> M unit) (op : raw_op) : M pyval := fun c =>
  if c_has_raw c then
    let r := raw_call op (c_raw c) in
    match ro_res r with
    | Raise e => (Raise e, c <| c_raw := ro_raw r |>)
    | Ret v =>
        (for_each (ro_cbs r) up ;;; ret v)
          (c <| c_raw := ro_raw r |> <| c_log := c_log c ++ [EvRaw op] |>)
    end
  else (Raise AttributeError, c).

Definition raw_t_ up op : M unit := raw_t up op ;;; ret tt.

(** What the log says was produced, sent, submitted to the engine. *)
Definition emitted (l : list event) : bytes :=
  concat (omap (fun e => match e with EvEmit d => Some d | _ => None end) l).
Definition sent (l : list event) : bytes :=
  concat (omap (fun e => match e with EvRaw (RWrite d) => Some d | _ => None end) l).
Definition consumed (l : list event) : bytes :=
  concat (omap (fun e => match e with EvConsumed d => Some d | _ => None end) l).
Definition app_calls (l : list event) : list app_event :=
  omap (fun e => match e with EvApp a => Some a | _ => None end) l.
Definition raw_closed (l : list event) : bool :=
  existsb (fun e => match e with EvRaw RClose => true | _ => false end) l.
End State.
Arguments conn {EI RI}.
#[global] Arguments emitted l : simpl never.
#[global] Arguments sent l : simpl never.
#[global] Arguments consumed l : simpl never.
#[global] Arguments app_calls l : simpl never.

Abbreviation M := (PyM conn).

(** ** Ciphertext accounting

    [stream_ok]: what the engine produced is what was handed to the raw
    transport followed by what still waits in [_outgoing]: no byte is lost,
    duplicated or overtaken.  Once [_outgoing] is dropped ([connection_lost])
    the sent bytes are still a prefix of the produced ones.  [ordered] claims it
    as long as the raw transport is alive. *)

Section Accounting.
Context {EI : SSLEngine} {RI : RawTransport}.

Definition stream_ok (c : conn) : Prop :=
  match c_outgoing c with
  | Some o => emitted (c_log c) = sent (c_log c) ++ o
  | None => sent (c_log c) `prefix_of` emitted (c_log c)
  end.

Definition ordered (c : conn) : Prop :=
  raw_dead (c_raw c) = false -> stream_ok c.

(** The invariant of a connection whose transport is attached. *)
Definition ready (c : conn) : Prop := ordered c /\ c_has_raw c = true.

(** [d] was read from the BIO and is not handed over yet. *)
Definition in_hand (d : bytes) (c : conn) : Prop :=
  c_has_raw c = true /\
  (raw_dead (c_raw c) = false ->
   c_outgoing c = Some [] /\ emitted (c_log c) = sent (c_log c) ++ d).

Lemma emitted_app l1 l2 : emitted (l1 ++ l2) = emitted l1 ++ emitted l2.
Proof. unfold emitted. by rewrite omap_app, concat_app. Qed.
Lemma sent_app l1 l2 : sent (l1 ++ l2) = sent l1 ++ sent l2.
Proof. unfold sent. by rewrite omap_app, concat_app. Qed.
Lemma consumed_app l1 l2 : consumed (l1 ++ l2) = consumed l1 ++ consumed l2.
Proof. unfold consumed. by rewrite omap_app, concat_app. Qed.
Lemma app_calls_app l1 l2 : app_calls (l1 ++ l2) = app_calls l1 ++ app_calls l2.
Proof. apply omap_app. Qed.

Lemma emitted_cons e l :
  emitted (e :: l) = match e with EvEmit d => d | _ => [] end ++ emitted l.
Proof. by destruct e. Qed.
Lemma sent_cons e l :
  sent (e :: l) = match e with EvRaw (RWrite d) => d | _ => [] end ++ sent l.
Proof. by destruct e as [| | |[]| | | |]. Qed.
Lemma consumed_cons e l :
  consumed (e :: l) = match e with EvConsumed d => d | _ => [] end ++ consumed l.
Proof. by destruct e. Qed.
Lemma emitted_nil : emitted [] = []. Proof. reflexivity. Qed.
Lemma sent_nil : sent [] = []. Proof. reflexivity. Qed.
Lemma consumed_nil : consumed [] = []. Proof. reflexivity. Qed.

Hint Rewrite emitted_app sent_app consumed_app emitted_cons sent_cons
  consumed_cons emitted_nil sent_nil consumed_nil : streams.
Hint Rewrite (@app_nil_r Byte.byte) : streams.

Lemma keeps_ready_engine {A} (op : bytes -> eng -> eng_out eng A) :
  keeps ready (engine op).
Proof.
  intros c [Hc Hr]. unfold engine, ready, ordered, stream_ok in *.
  destruct (c_sslobj c) as [e|]; cbn; (split; [intros Hd; specialize (Hc Hd)|exact Hr]);
    autorewrite with streams; [|exact Hc].
  assert (Hev : forall r : outcome A,
    let ev := match r with Ret _ => [] | Raise x => [EvEngineRaised x] end in
    emitted ev = [] /\ sent ev = []) by (by intros []).
  destruct (Hev (eo_res (op (default [] (c_incoming c)) e))) as [-> ->].
  rewrite !app_nil_r. destruct (c_outgoing c) as [o|]; cbn.
  - by rewrite Hc, app_assoc.
  - by apply prefix_app_r.
Qed.

Lemma outgoing_read_spec :
  triple ready outgoing_read
    (fun o c => match o with Ret d => in_hand d c | Raise _ => ready c end).
Proof.
  intros c [Hc Hr]. unfold outgoing_read, in_hand, ready, ordered, stream_ok in *.
  destruct (c_outgoing c) as [o|] eqn:E; cbn; [auto | by rewrite E].
Qed.

Lemma outgoing_write_back d :
  triple (in_hand d) (outgoing_write d) (fun _ c => ready c).
Proof.
  intros c (Hr & H). unfold outgoing_write, ready, ordered, stream_ok.
  destruct (c_outgoing c) as [o|] eqn:E; cbn; (split; [|exact Hr]);
    intros Hd; destruct (H Hd) as [Ho He]; [|discriminate].
  injection Ho as ->. by rewrite He.
Qed.

(** Events that are neither ciphertext produced nor ciphertext sent. *)
Definition cipher_silent (e : event) : bool :=
  match e with EvEmit _ | EvRaw (RWrite _) => false | _ => true end.

Lemma keeps_ready_log e : cipher_silent e = true -> keeps ready (log e).
Proof.
  intros He c [Hc Hr]. split; [intros Hd; specialize (Hc Hd)|exact Hr].
  unfold stream_ok, log in *. cbn. autorewrite with streams.
  by destruct e as [| | |[]| | | |]; autorewrite with streams.
Qed.

Lemma in_hand_nil c : in_hand [] c -> ready c.
Proof.
  intros (Hr & H). split; [|exact Hr]. intros Hd. destruct (H Hd) as [Ho He].
  unfold stream_ok. by rewrite Ho, He, app_nil_r.
Qed.

Section RawCalls.
Context {RL : RawTransportLaws RI}.
Variable up : raw_cb -> M unit.
Hypothesis up_ready : forall b, keeps ready (up b).
Hypothesis up_not_paused :
  never (fun e => is_paused_error e = true) (up CbPauseWriting).

Lemma pause_upcalls l : (forall b, b ∈ l -> b = CbPauseWriting) ->
  forall c, ready c ->
  ready (for_each l up c).2 /\
  (forall e, (for_each l up c).1 = Raise e -> is_paused_error e = false).
Proof.
  induction l as [|b l IH]; intros Hl c Hc; cbn; [by split|].
  assert (b = CbPauseWriting) as -> by (apply Hl; left).
  unfold bind. pose proof (up_ready CbPauseWriting c Hc) as Hu.
  pose proof (up_not_paused c) as Hp.
  destruct (up CbPauseWriting c) as [[u|e] c']; cbn in *.
  - apply IH; [intros; apply Hl; by right | exact Hu].
  - split; [exact Hu|]. intros e' [= <-].
    specialize (Hp e eq_refl). by destruct (is_paused_error e).
Qed.

(** The state right after the transport took [d]. *)
Lemma ready_taken d c : in_hand d c ->
  ready (c <| c_raw := ro_raw (raw_call (RWrite d) (c_raw c)) |>
           <| c_log := c_log c ++ [EvRaw (RWrite d)] |>).
Proof.
  intros (Hr & H). split; [|exact Hr]. intros Hd.
  assert (Hl : raw_dead (c_raw c) = false).
  { destruct (raw_dead (c_raw c)) eqn:E; [|reflexivity].
    apply (raw_dead_stays (RWrite d)) in E. cbn in Hd. congruence. }
  destruct (H Hl) as [Ho He]. unfold stream_ok. cbn. rewrite Ho.
  autorewrite with streams. exact He.
Qed.

(** Handing [d] over: taken, or refused with the paused error and still in
    hand; any other exception comes from an upcall, after [d] was taken, or
    from a dead transport. *)
Lemma raw_write_spec d :
  triple (in_hand d) (raw_t up (RWrite d))
    (fun o c => match o with
                | Ret _ => ready c
                | Raise e => if is_paused_error e then in_hand d c else ready c
                end).
Proof.
  intros c Hc. pose proof (ready_taken d c Hc) as H1. destruct Hc as (Hr & H).
  unfold raw_t. rewrite Hr.
  destruct (ro_res (raw_call (RWrite d) (c_raw c))) as [v|e] eqn:E.
  2:{ cbn. destruct (raw_dead (c_raw c)) eqn:Ed.
      - pose proof (raw_dead_stays (RWrite d) _ Ed) as Hs.
        destruct (is_paused_error e); (split; [|]); try exact Hr; cbn;
          intros Hd; cbn in Hd; congruence.
      - rewrite (raw_write_refusal _ _ _ Ed E). split; [exact Hr|].
        intros _. exact (H eq_refl). }
  destruct (pause_upcalls (ro_cbs (raw_call (RWrite d) (c_raw c)))
              (fun b => raw_write_only_pauses d (c_raw c) b) _ H1) as [H2 H3].
  unfold bind. destruct (for_each _ up _) as [[u|e] c2]; cbn in *; [exact H2|].
  by rewrite (H3 e eq_refl).
Qed.

(** On a transport that takes every write while alive, nothing stays in
    hand. *)
Lemma raw_write_reliable {RR : RawReliable RI} d :
  triple (in_hand d) (raw_t up (RWrite d)) (fun _ c => ready c).
Proof.
  intros c Hc. pose proof (ready_taken d c Hc) as H1. destruct Hc as (Hr & H).
  unfold raw_t. rewrite Hr.
  destruct (ro_res (raw_call (RWrite d) (c_raw c))) as [v|e] eqn:E.
  - destruct (pause_upcalls (ro_cbs (raw_call (RWrite d) (c_raw c)))
              (fun b => raw_write_only_pauses d (c_raw c) b) _ H1) as [H2 _].
    unfold bind. by destruct (for_each _ up _) as [[u|e] c2].
  - destruct (raw_dead (c_raw c)) eqn:Ed.
    + pose proof (raw_dead_stays (RWrite d) _ Ed) as Hs.
      split; [|exact Hr]. intros Hd. cbn in Hd. congruence.
    + destruct (raw_write_accepts d _ Ed) as [v Hv]. congruence.
Qed.

Lemma keeps_ready_raw op :
  (forall d, op <> RWrite d) -> keeps ready (raw_t up op).
Proof.
  intros Hop c [Hc Hr]. unfold raw_t. rewrite Hr.
  assert (Hl : raw_dead (ro_raw (raw_call op (c_raw c))) = false -> stream_ok c).
  { intros Hd. apply Hc. destruct (raw_dead (c_raw c)) eqn:E; [|reflexivity].
    apply (raw_dead_stays op) in E. congruence. }
  destruct (ro_res _) as [v|e]; [|by split].
  apply (keeps_bind ready);
    [apply keeps_for_each; intros; apply up_ready | intros; apply keeps_ret |].
  split; [|exact Hr]. intros Hd. specialize (Hl Hd).
  unfold stream_ok in *. cbn. autorewrite with streams.
  destruct op; autorewrite with streams; try exact Hl. by destruct (Hop d).
Qed.
End RawCalls.
End Accounting.

#[export] Hint Rewrite emitted_app sent_app consumed_app emitted_cons sent_cons
  consumed_cons emitted_nil sent_nil consumed_nil : streams.
#[export] Hint Rewrite (@app_nil_r Byte.byte) : streams.
#[export] Hint Resolve keeps_ready_engine : keeps.
#[export] Hint Extern 2 (keeps ready (log _)) =>
  apply keeps_ready_log; reflexivity : keeps.
