(* ===== verification/StreamTransport.v ===== *)
(** * The native stream transport (src/src/transports)

    The transport the Python layer writes to: [WriteTransport] (a queue of
    buffers drained by one write operation in flight at a time), [ReadTransport]
    (at most one read in flight) and [StreamTransportObject] (flow control and
    teardown).  The kernel is the environment: it completes the operations.  The data
    of a read that succeeds is harvested by the poll and handed over with the
    completion batch of loop/runner.zig, before the callback of the read runs.
    [native_transport] is the [RawTransport] the TLS layer runs on. *)

From stdpp Require Import base list strings gmap.
From Stdlib Require Import Strings.Byte.
From S2P Require Import Prelude SSLConn.

Module StreamTransport.

Record stream : Type := Stream {
  (* WriteTransport *)
  wt_pending : list bytes;
  wt_index : nat;
  wt_offset : nat;
  wt_size : nat;
  wt_total : nat;
  wt_in_flight : bool;
  wt_closing : bool;
  wt_closed : bool;
  wt_eof_pending : bool;
  (* ReadTransport: [rt_op] is [blocking_task_id != 0] *)
  rt_op : bool;
  rt_cancelling : bool;
  rt_closing : bool;
  rt_closed : bool;
  (* [connection_lost_callback] is set *)
  rt_callback : bool;
  (* reads the poll has harvested: the record in the loop's batch (generation
     and data), and the callbacks in the ready queue that carry the flag
     [batch_dispatched] *)
  rt_batch : option (nat * bytes);
  rt_ready : nat;
  (* StreamTransportObject; [st_generation] is [dispatch_generation] *)
  st_generation : nat;
  st_is_writing : bool;
  st_is_reading : bool;
  st_high : Z;
  st_low : Z;
  st_closing : bool;
  st_closed : bool;
  st_fd_open : bool;
  st_pending_lost : option (option exn);
  st_notified : bool;
  (* what left the object: bytes appended, bytes the kernel took, FINs,
     [connection_lost] notifications *)
  st_accepted : bytes;
  st_wire : bytes;
  st_fin : bool;
  st_lost : list (option exn)
}.

#[export] Instance stream_eta : Eta stream := fun s =>
  Stream (wt_pending s) (wt_index s) (wt_offset s) (wt_size s) (wt_total s)
    (wt_in_flight s) (wt_closing s) (wt_closed s) (wt_eof_pending s) (rt_op s) (rt_cancelling s)
    (rt_closing s) (rt_closed s) (rt_callback s) (rt_batch s) (rt_ready s)
    (st_generation s) (st_is_writing s) (st_is_reading s) (st_high s)
    (st_low s) (st_closing s) (st_closed s) (st_fd_open s) (st_pending_lost s)
    (st_notified s) (st_accepted s) (st_wire s) (st_fin s) (st_lost s).

(** [stream_init_configuration]: the first read is already armed. *)
Definition new_stream : stream :=
  Stream [] 0 0 0 0 false false false false true false false false
    true None 0 0 true true 65536%Z 32768%Z false false true None false [] [] false [].

(** [schedule_connection_lost_once] (the protocol is set). *)
Definition schedule_connection_lost_once (s : stream) : stream :=
  if st_notified s then s
  else s <| st_notified := true |>
         <| st_lost := st_lost s ++ [default None (st_pending_lost s)] |>
         <| st_pending_lost := None |>.

Definition cancel_and_close_fd (s : stream) : stream := s <| st_fd_open := false |>.

Definition maybe_close_fd (s : stream) : stream :=
  if rt_closed s && wt_closed s then
    schedule_connection_lost_once (cancel_and_close_fd
      (s <| st_generation := S (st_generation s) |> <| st_closed := true |>))
  else s.

(** ** [WriteTransport] *)

Definition wt_close (s : stream) : stream :=
  if wt_closing s || wt_closed s then s
  else
    let s1 := s <| wt_closing := true |> in
    if negb (wt_in_flight s) && (wt_size s =? 0)%nat
    then maybe_close_fd (s1 <| wt_closed := true |>)
    else s1.

Definition wt_force_close (s : stream) : stream :=
  if wt_closed s then s
  else maybe_close_fd (s <| wt_closed := true |> <| wt_closing := true |>).

(** [append_new_buffer_to_write]; [None] is [error.TransportClosed]. *)
Definition append_new_buffer_to_write (d : bytes) (s : stream) : option stream :=
  if wt_closed s then None
  else match d with
       | [] => Some s
       | _ => Some (s <| wt_pending := wt_pending s ++ [d] |>
                      <| wt_size := (wt_size s + length d)%nat |>
                      <| st_accepted := st_accepted s ++ d |>)
       end.

(** The zero-length skipping loop of [submit_next_chunk]. *)
Fixpoint skip_empty (pending : list bytes) (index offset : nat) : nat * nat :=
  match pending with
  | [] => (index, offset)
  | b :: rest =>
      if (0 <? length b - offset)%nat then (index, offset)
      else skip_empty rest (S index) 0
  end.

(** [submit_next_chunk]; [false] is [error.WriteBufferIndexOverflow]. *)
Definition submit_next_chunk (s : stream) : bool * stream :=
  if wt_in_flight s then (true, s)
  else if (length (wt_pending s) <=? wt_index s)%nat then
    ((wt_size s =? 0)%nat, s)
  else
    let '(i, o) := skip_empty (drop (wt_index s) (wt_pending s)) (wt_index s) (wt_offset s) in
    let s1 := s <| wt_index := i |> <| wt_offset := o |> in
    if (length (wt_pending s) <=? i)%nat then (true, s1)
    else (true, s1 <| wt_in_flight := true |>).

(** The prepare hook. *)
Definition flush_buffered_writes (s : stream) : stream :=
  if negb (wt_closed s) && negb (wt_in_flight s) && (0 <? wt_size s)%nat
  then (submit_next_chunk s).2 else s.

(** What the operation in flight was given. *)
Definition chunk (s : stream) : bytes :=
  drop (wt_offset s) (nth (wt_index s) (wt_pending s) []).

Definition queue_eof (s : stream) : stream :=
  if (0 <? wt_size s)%nat || wt_in_flight s
  then wt_close (s <| wt_eof_pending := true |>)
  else wt_close (s <| st_fin := true |>).

(** ** [ReadTransport] *)

Definition rt_close (s : stream) : stream :=
  if rt_closing s || rt_closed s then s
  else if negb (rt_op s) then
    maybe_close_fd (s <| rt_closed := true |> <| rt_closing := true |>)
  else s <| rt_cancelling := true |> <| rt_closing := true |> <| rt_callback := false |>.

Definition rt_force_close (s : stream) : stream :=
  if rt_closed s then s
  else s <| rt_closed := true |> <| rt_closing := true |> <| rt_callback := false |>
         <| rt_cancelling := rt_cancelling s || rt_op s |>.

(** ** Teardown *)

Definition close_transports (exc : option exn) (s : stream) : stream :=
  let closed_already := st_closed s in
  let s1 := if negb closed_already && match st_pending_lost s with None => true | _ => false end
            then s <| st_pending_lost := Some exc |> else s in
  let s2 := wt_close (rt_close s1) in
  let s3 := s2 <| st_is_reading := false |> <| st_closing := true |> in
  if closed_already then s3 else maybe_close_fd s3.

Definition transport_close (s : stream) : stream :=
  if st_closing s || st_closed s then s
  else
    let s1 := s <| st_closing := true |> in
    if rt_closed s && wt_closed s then
      schedule_connection_lost_once (cancel_and_close_fd (s1 <| st_closed := true |>))
    else close_transports None s1.

Definition transport_abort (s : stream) : stream :=
  if st_closed s then s
  else
    let s1 := s <| st_generation := S (st_generation s) |> <| st_closed := true |>
                <| st_pending_lost := None |> in
    let s2 := wt_force_close (rt_force_close s1) in
    cancel_and_close_fd (s2 <| st_is_reading := false |> <| st_is_writing := false |>).

(** ** Writing *)

Definition transport_write (d : bytes) (s : stream) : raw_out stream :=
  if wt_closing s && negb (wt_eof_pending s) then RawOut (Ret VNone) [] s
  else match append_new_buffer_to_write d s with
       | None => RawOut (Raise (RuntimeError "TransportClosed")) [] s
       | Some s1 =>
           if (st_high s1 <? Z.of_nat (wt_size s1))%Z && st_is_writing s1
           then RawOut (Ret VNone) [CbPauseWriting] (s1 <| st_is_writing := false |>)
           else RawOut (Ret VNone) [] s1
       end.

Definition transport_write_eof (s : stream) : raw_out stream :=
  if wt_closing s && negb (wt_eof_pending s)
  then RawOut (Raise (RuntimeError "Transport is closed")) [] s
  else RawOut (Ret VNone) [] (queue_eof s).

Definition i64_max : Z := 2 ^ 63 - 1.
Definition i64_min : Z := - 2 ^ 63.
Definition in_i64 (z : Z) : bool := (i64_min <=? z)%Z && (z <=? i64_max)%Z.

(** [l *| 4]: saturating. *)
Definition sat_mul4 (l : Z) : Z := Z.max i64_min (Z.min i64_max (l * 4)).

(** The limits the two arguments stand for; truncating division. *)
Definition resolve_limits (high low : option Z) : Z * Z :=
  let h := match high with
           | Some h => h
           | None => match low with Some l => sat_mul4 l | None => 65536%Z end
           end in
  (h, match low with Some l => l | None => Z.quot h 4 end).

Definition transport_set_write_buffer_limits (high low : option Z) (s : stream)
    : raw_out stream :=
  if forallb (from_option in_i64 true) [high; low] then
    let '(h, l) := resolve_limits high low in
    if (l <=? h)%Z && (0 <=? l)%Z then
      let s1 := s <| st_high := h |> <| st_low := l |> in
      let '(cb1, s2) :=
        if st_is_writing s1 && (h <? Z.of_nat (wt_size s1))%Z
        then ([CbPauseWriting], s1 <| st_is_writing := false |>) else ([], s1) in
      let '(cb2, s3) :=
        if negb (st_is_writing s2) && (Z.of_nat (wt_size s2) <=? l)%Z
        then ([CbResumeWriting], s2 <| st_is_writing := true |>) else ([], s2) in
      RawOut (Ret VNone) (cb1 ++ cb2) s3
    else RawOut (Raise (ValueError "high must be >= low and low must be >= 0")) [] s
  else RawOut (Raise (OtherException 0)) [] s.

(** ** Reading *)

Definition transport_pause_reading (s : stream) : raw_out stream :=
  if st_closed s then RawOut (Raise (RuntimeError "Transport is closed")) [] s
  else if negb (st_is_reading s) then RawOut (Ret VNone) [] s
  else RawOut (Ret VNone) []
         (s <| rt_cancelling := rt_cancelling s || rt_op s |> <| st_is_reading := false |>).

(** [queue_read_operation], the protocol's [get_buffer] included ([Ret]). *)
Definition queue_read_operation (s : stream) : stream :=
  if negb (st_is_reading s) || rt_closing s || rt_op s then s
  else s <| rt_op := true |>.

Definition transport_resume_reading (s : stream) : raw_out stream :=
  if st_closed s then RawOut (Raise (RuntimeError "Transport is closed")) [] s
  else RawOut (Ret VNone) [] (queue_read_operation (s <| st_is_reading := true |>)).

(** ** Completions, as the kernel reports them *)

Inductive completion : Type :=
| CWritten (n : nat)     (* [res > 0]: [n] bytes taken, at most the chunk *)
| CWriteCanceled         (* [-ECANCELED] *)
| CWriteError (e : exn). (* any other error *)

(** What an upcall into the protocol does to the transport, and how it ends.
    The pause upcall is the last thing a call does, so the calls made inside a
    nested upcall follow flatly. *)
Definition upcall : Type := list raw_op * outcome unit.

(** The accounting of a positive result. *)
Definition advance (n : nat) (s : stream) : stream :=
  let s1 := s <| wt_size := (wt_size s - Nat.min n (wt_size s))%nat |>
              <| wt_total := (wt_total s + n)%nat |>
              <| st_wire := st_wire s ++ take n (chunk s) |> in
  if (n <? length (chunk s))%nat then s1 <| wt_offset := (wt_offset s + n)%nat |>
  else s1 <| wt_index := S (wt_index s) |> <| wt_offset := 0 |>.

(** The full-drain branch of [write_operation_completed], up to the callback. *)
Definition drained (s : stream) : stream :=
  let s1 := s <| wt_pending := [] |> <| wt_index := 0 |> <| wt_offset := 0 |> in
  let s2 := if wt_eof_pending s
            then s1 <| wt_eof_pending := false |> <| st_fin := true |> else s1 in
  if wt_closing s then maybe_close_fd (s2 <| wt_closed := true |>) else s2.

Definition write_error (e : exn) (s : stream) : stream :=
  if wt_closing s then maybe_close_fd (s <| wt_closed := true |>)
  else maybe_close_fd (close_transports (Some e) s
                         <| wt_closing := true |> <| wt_closed := true |>).

(** ** The interface to the Python layer *)

Section Native.
(** [getpeername] and [getsockname] of the socket, [None] when they raise *)
Variable socket_name : string -> option pyval.

Definition transport_get_extra_info (name : string) (dflt : pyval) : outcome pyval :=
  if String.eqb name "socket" then Ret (VObj "PseudoSocket")
  else if String.eqb name "peername" || String.eqb name "sockname" then
    match socket_name name with Some v => Ret v | None => Raise (OSError 0) end
  else Ret dflt.

Definition transport_call (op : raw_op) (s : stream) : raw_out stream :=
  match op with
  | RWrite d => transport_write d s
  | RClose => RawOut (Ret VNone) [] (transport_close s)
  | RAbort => RawOut (Ret VNone) [] (transport_abort s)
  | RWriteEof => transport_write_eof s
  | RCanWriteEof => RawOut (Ret (VBool true)) [] s
  | RIsClosing => RawOut (Ret (VBool (st_closing s || st_closed s))) [] s
  | RGetWriteBufferSize => RawOut (Ret (VInt (Z.of_nat (wt_size s)))) [] s
  | RGetWriteBufferLimits => RawOut (Ret (VPair (st_low s) (st_high s))) [] s
  | RSetWriteBufferLimits h l => transport_set_write_buffer_limits h l s
  | RPauseReading => transport_pause_reading s
  | RResumeReading => transport_resume_reading s
  | RIsReading => RawOut (Ret (VBool (st_is_reading s))) [] s
  | RSetProtocol => RawOut (Ret VNone) [] s
  | RGetExtraInfo name d => RawOut (transport_get_extra_info name d) [] s
  end.

(** Dead: the write side is closed, so nothing appended is sent. *)
#[export] Instance native_transport : RawTransport := {|
  raw := stream; raw_call := transport_call; raw_dead := wt_closed |}.

(** ** Completions *)

Definition calls (ops : list raw_op) (s : stream) : stream :=
  foldl (fun s op => ro_raw (transport_call op s)) s ops.

(** [invoke_write_completed] on [Write.write_operation_completed]; [false] when
    the protocol's [resume_writing] raised and the transport closed itself
    (through [connection_lost_callback], which closing has cleared). *)
Definition invoke_write_completed (total : nat) (u : upcall) (s : stream)
    : bool * stream :=
  if (total =? 0)%nat || st_closing s || st_closed s then (true, maybe_close_fd s)
  else if negb (st_is_writing s) && (Z.of_nat (wt_size s) <=? st_low s)%Z then
    let s1 := calls u.1 (s <| st_is_writing := true |>) in
    match u.2 with
    | Ret _ => (true, maybe_close_fd s1)
    | Raise e =>
        let s2 := maybe_close_fd s1 in
        let s3 := if wt_closing s2 then s2 else close_transports (Some e) s2 in
        (false, maybe_close_fd (s3 <| wt_closing := true |> <| wt_closed := true |>))
    end
  else (true, maybe_close_fd s).

Definition after_completion (u : upcall) (s : stream) : stream :=
  if negb (wt_closed s) && (0 <? wt_size s)%nat then
    let '(ok, s1) := invoke_write_completed (wt_total s) u s in
    if ok && negb (wt_closed s1) && (0 <? wt_size s1)%nat
    then (submit_next_chunk s1).2 else s1
  else if wt_closed s then s
  else
    let s1 := drained s in
    (invoke_write_completed (wt_total s1) u (s1 <| wt_total := 0 |>)).2.

Definition write_operation_completed (c : completion) (u : upcall) (s : stream)
    : stream :=
  let s0 := s <| wt_in_flight := false |> in
  match c with
  | CWritten n => after_completion u (advance n s0)
  | CWriteCanceled => after_completion u s0
  | CWriteError e => write_error e s0
  end.

(** The runner's poll ([fetch_completed_tasks]) on a read that brought [d]: a
    record goes into the batch, the operation is over before any Python code runs,
    and the flagged callback goes into the ready queue. *)
Definition harvest (d : bytes) (s : stream) : stream :=
  s <| rt_batch := Some (st_generation s, d) |>
    <| rt_op := false |> <| rt_cancelling := false |> <| rt_ready := S (rt_ready s) |>.

(** [dispatch_completion_batch] on that record: a stale one is skipped; an
    exception of the protocol goes to the loop's exception handler. *)
Definition dispatch_record (u : upcall) (s : stream) : stream :=
  match rt_batch s with
  | None => s
  | Some (g, _) =>
      let s0 := s <| rt_batch := None |> in
      if g =? st_generation s then calls u.1 s0 else s0
  end.

Inductive read_result : Type :=
| RData                  (* [res > 0] *)
| REof                   (* [res = 0] *)
| RCanceled
| RError (e : exn).

(** [Read.read_operation_completed]; [keep_open] is what [eof_received]
    returned.  [batched]: the data went to the protocol in the batch. *)
Definition read_completed_callback (batched : bool) (r : read_result) (keep_open : bool)
    (u : upcall) (s : stream) : outcome unit * stream :=
  if rt_closing s || rt_closed s || st_closing s || st_closed s then
    (Ret tt, maybe_close_fd (s <| rt_closed := true |>))
  else match r with
       | RCanceled => (Ret tt, maybe_close_fd (queue_read_operation s))
       | RError _ => (Ret tt, maybe_close_fd s)
       | REof =>
           let s1 := calls u.1 s in
           match u.2 with
           | Raise e => (Raise e, maybe_close_fd s1)
           | Ret _ =>
               (Ret tt, maybe_close_fd
                          (if keep_open then s1 else close_transports None s1))
           end
       | RData =>
           if batched then (Ret tt, maybe_close_fd (queue_read_operation s))
           else
             let s1 := calls u.1 s in
             match u.2 with
             | Raise e => (Raise e, maybe_close_fd s1)
             | Ret _ => (Ret tt, maybe_close_fd (queue_read_operation s1))
             end
       end.

(** [ReadTransport.read_operation_completed]. *)
Definition read_operation_completed (batched : bool) (r : read_result) (keep_open : bool)
    (u : upcall) (s : stream) : stream :=
  let '(o, s1) := read_completed_callback batched r keep_open u
                    (if batched then s
                     else s <| rt_op := false |> <| rt_cancelling := false |>) in
  match o with
  | Raise e =>
      (if rt_callback s1 then close_transports (Some e) s1 else s1)
        <| rt_closing := true |> <| rt_closed := true |>
  | Ret _ =>
      if rt_closing s1 then maybe_close_fd (s1 <| rt_closed := true |>)
      else match r with
           | RError e =>
               close_transports (Some e) (s1 <| rt_closing := true |> <| rt_closed := true |>)
           | _ => s1
           end
  end.

(** One step of the transport's life: a call, the prepare hook, or a
    completion the kernel may report in this state.  A read that brought data is
    harvested by the poll, handed over with the batch - which an interrupt of
    another protocol's upcall empties - and ends with its callback; it runs in one
    go ([step_read]) only when the batch is full. *)
Inductive native_step : stream -> stream -> Prop :=
| step_call op s : native_step s (ro_raw (transport_call op s))
| step_prepare s : native_step s (flush_buffered_writes s)
| step_written n u s :
    wt_in_flight s = true -> (0 < n <= length (chunk s))%nat ->
    native_step s (write_operation_completed (CWritten n) u s)
| step_write_failed c u s :
    wt_in_flight s = true -> (forall n, c <> CWritten n) ->
    native_step s (write_operation_completed c u s)
| step_read r keep u s :
    rt_op s = true -> native_step s (read_operation_completed false r keep u s)
| step_harvest d s :
    rt_op s = true -> rt_batch s = None -> native_step s (harvest d s)
| step_dispatch u s : native_step s (dispatch_record u s)
| step_batch_reset s : native_step s (s <| rt_batch := None |>)
| step_batched_read n s :
    rt_ready s = S n -> rt_batch s = None ->
    native_step s (read_operation_completed true RData false ([], Ret tt) (s <| rt_ready := n |>)).
End Native.

(** ** The interface holds *)

Section Laws.
Variable socket_name : string -> option pyval.
Let NT := native_transport socket_name.
#[local] Existing Instance NT.

Lemma maybe_close_fd_closed s : wt_closed (maybe_close_fd s) = wt_closed s.
Proof. unfold maybe_close_fd, schedule_connection_lost_once. by repeat case_match. Qed.

Lemma rt_close_wt s : wt_closed (rt_close s) = wt_closed s.
Proof. unfold rt_close. repeat case_match; by rewrite ?maybe_close_fd_closed. Qed.

Lemma wt_close_stays s : wt_closed s = true -> wt_closed (wt_close s) = true.
Proof. intros H. unfold wt_close. by rewrite H, orb_true_r. Qed.

Lemma close_transports_stays e s :
  wt_closed s = true -> wt_closed (close_transports e s) = true.
Proof.
  intros H. unfold close_transports.
  repeat case_match; rewrite ?maybe_close_fd_closed; apply wt_close_stays;
    by rewrite rt_close_wt.
Qed.

Lemma limits_wt_closed h l s :
  wt_closed (ro_raw (transport_set_write_buffer_limits h l s)) = wt_closed s.
Proof.
  unfold transport_set_write_buffer_limits. destruct (forallb _ _); [|done].
  destruct (resolve_limits h l) as [h' l']. destruct (_ && _); [|done].
  destruct (_ && (h' <? _)%Z); destruct (_ && (_ <=? l')%Z); reflexivity.
Qed.

Lemma rt_force_close_wt s : wt_closed (rt_force_close s) = wt_closed s.
Proof. unfold rt_force_close. by destruct (rt_closed s). Qed.

Lemma wt_force_close_stays s : wt_closed s = true -> wt_force_close s = s.
Proof. intros H. unfold wt_force_close. by rewrite H. Qed.

Lemma abort_wt_closed s :
  wt_closed s = true -> wt_closed (transport_abort s) = true.
Proof.
  intros H. unfold transport_abort. destruct (st_closed s); [done|].
  rewrite wt_force_close_stays by (by rewrite rt_force_close_wt).
  change (wt_closed (rt_force_close
    (s <| st_generation := S (st_generation s) |> <| st_closed := true |>
       <| st_pending_lost := None |>)) = true).
  by rewrite rt_force_close_wt.
Qed.

Lemma close_wt_closed s :
  wt_closed s = true -> wt_closed (transport_close s) = true.
Proof.
  intros H. unfold transport_close, schedule_connection_lost_once.
  destruct (_ || _); [done|]. destruct (_ && _); cbn.
  - by destruct (st_notified s).
  - by apply close_transports_stays.
Qed.

Lemma transport_call_stays op s :
  wt_closed s = true -> wt_closed (ro_raw (transport_call socket_name op s)) = true.
Proof.
  intros H. destruct op; cbn; auto using abort_wt_closed, close_wt_closed.
  - unfold transport_write, append_new_buffer_to_write. rewrite H. by destruct (_ && _).
  - unfold transport_write_eof, queue_eof. destruct (_ && _); [done|].
    destruct (_ || _); by apply wt_close_stays.
  - by rewrite limits_wt_closed.
  - unfold transport_pause_reading. by destruct (st_closed s), (st_is_reading s).
  - unfold transport_resume_reading, queue_read_operation. destruct (st_closed s); [done|].
    cbn. by destruct (_ || _).
Qed.

#[export] Instance native_laws : RawTransportLaws NT.
Proof.
  split.
  - intros d r e Hd. cbn in *. unfold transport_write, append_new_buffer_to_write.
    rewrite Hd. repeat case_match; cbn; congruence.
  - apply transport_call_stays.
  - intros op r. destruct op; cbn; try discriminate;
      unfold transport_write, transport_write_eof, transport_set_write_buffer_limits,
        transport_pause_reading, transport_resume_reading, transport_get_extra_info;
      repeat case_match; cbn; congruence.
  - intros d r c. cbn. unfold transport_write.
    repeat case_match; cbn; intros Hc; set_solver.
Qed.

#[export] Instance native_reliable : RawReliable NT.
Proof.
  split. intros d r Hd. cbn in *. unfold transport_write, append_new_buffer_to_write.
  rewrite Hd. repeat case_match; simplify_eq; by eexists.
Qed.
End Laws.

(** ** The write queue

    [queue]: the part of the state the accounting reads.  Teardown, reading and
    flow control leave it alone. *)

Definition queue (s : stream) :=
  (wt_pending s, wt_index s, wt_offset s, wt_size s, wt_in_flight s,
   st_accepted s, st_wire s).

(** What the queue still holds. *)
Definition rest_of (pending : list bytes) (index offset : nat) : bytes :=
  drop offset (nth index pending []) ++ concat (drop (S index) pending).

Definition rest (s : stream) : bytes := rest_of (wt_pending s) (wt_index s) (wt_offset s).

Definition queue_ok (s : stream) : Prop :=
  Forall (fun d => d <> []) (wt_pending s) /\
  (wt_index s <= length (wt_pending s))%nat /\
  (wt_index s < length (wt_pending s) ->
   wt_offset s < length (nth (wt_index s) (wt_pending s) []))%nat /\
  (wt_index s = length (wt_pending s) -> wt_offset s = 0)%nat /\
  (wt_in_flight s = true -> wt_index s < length (wt_pending s))%nat /\
  wt_size s = length (rest s) /\
  st_accepted s = st_wire s ++ rest s.

Lemma queue_ok_frame s s' : queue s' = queue s -> queue_ok s -> queue_ok s'.
Proof. unfold queue, queue_ok, rest. intros [= -> -> -> -> -> -> ->]. auto. Qed.

Lemma queue_maybe_close_fd s : queue (maybe_close_fd s) = queue s.
Proof.
  unfold maybe_close_fd, schedule_connection_lost_once.
  destruct (_ && _); [|done]. by destruct (st_notified _).
Qed.

Lemma queue_rt_close s : queue (rt_close s) = queue s.
Proof.
  unfold rt_close. destruct (_ || _); [done|]. destruct (rt_op s); [done|].
  exact (queue_maybe_close_fd _).
Qed.

Lemma queue_wt_close s : queue (wt_close s) = queue s.
Proof.
  unfold wt_close. destruct (_ || _); [done|]. destruct (_ && _); [|done].
  exact (queue_maybe_close_fd _).
Qed.

Lemma queue_close_transports e s : queue (close_transports e s) = queue s.
Proof.
  assert (H : forall t, queue (wt_close (rt_close t)) = queue t)
    by (intros t; by rewrite queue_wt_close, queue_rt_close).
  unfold close_transports.
  set (s1 := if _ : bool then _ else s).
  assert (H1 : queue s1 = queue s) by (unfold s1; by destruct (_ && _)).
  destruct (st_closed s); [exact (eq_trans (H s1) H1)|].
  etransitivity; [apply queue_maybe_close_fd|]. exact (eq_trans (H s1) H1).
Qed.

Lemma queue_transport_close s : queue (transport_close s) = queue s.
Proof.
  unfold transport_close, schedule_connection_lost_once.
  destruct (_ || _); [done|]. destruct (_ && _).
  - cbn. by destruct (st_notified s).
  - exact (queue_close_transports _ _).
Qed.

Lemma queue_transport_abort s : queue (transport_abort s) = queue s.
Proof.
  unfold transport_abort. destruct (st_closed s); [done|].
  assert (H : forall t, queue (wt_force_close (rt_force_close t)) = queue t).
  { intros t. unfold wt_force_close.
    assert (Ht : queue (rt_force_close t) = queue t)
      by (unfold rt_force_close; by destruct (rt_closed t)).
    destruct (wt_closed _); [exact Ht|].
    etransitivity; [apply queue_maybe_close_fd | exact Ht]. }
  exact (H _).
Qed.

Lemma queue_write_eof s : queue (ro_raw (transport_write_eof s)) = queue s.
Proof.
  unfold transport_write_eof, queue_eof. destruct (_ && _); [done|].
  destruct (_ || _); exact (queue_wt_close _).
Qed.

Lemma queue_limits h l s :
  queue (ro_raw (transport_set_write_buffer_limits h l s)) = queue s.
Proof.
  unfold transport_set_write_buffer_limits. destruct (forallb _ _); [|done].
  destruct (resolve_limits h l) as [h' l']. destruct (_ && _); [|done].
  destruct (_ && (h' <? _)%Z); destruct (_ && (_ <=? l')%Z); reflexivity.
Qed.

Lemma rest_of_app p q i o :
  (i <= length p)%nat -> (i = length p -> o = 0%nat) ->
  rest_of (p ++ q) i o = rest_of p i o ++ concat q.
Proof.
  intros Hi Ho. unfold rest_of.
  destruct (decide (i < length p)%nat) as [Hl|Hl].
  - rewrite app_nth1 by done. rewrite drop_app_le by lia.
    by rewrite concat_app, app_assoc.
  - assert (i = length p) as -> by lia. rewrite (Ho eq_refl), !drop_0.
    rewrite app_nth2 by lia. replace (length p - length p)%nat with 0%nat by lia.
    rewrite (nth_overflow p), (drop_ge p), drop_app_ge by lia.
    replace (S (length p) - length p)%nat with 1%nat by lia. by destruct q.
Qed.

(** Nonempty buffers are never skipped. *)
Lemma skip_empty_id p i o :
  match p with [] => True | b :: _ => (o < length b)%nat end ->
  skip_empty p i o = (i, o).
Proof.
  destruct p as [|b p]; [done|]. intros H.
  change (skip_empty (b :: p) i o) with
    (if (0 <? length b - o)%nat then (i, o) else skip_empty p (S i) 0).
  by rewrite (proj2 (Nat.ltb_lt 0 (length b - o))) by lia.
Qed.

Lemma queue_ok_write d s : queue_ok s -> queue_ok (ro_raw (transport_write d s)).
Proof.
  intros H. unfold transport_write. destruct (_ && _); [done|].
  unfold append_new_buffer_to_write. destruct (wt_closed s); [done|].
  destruct d as [|b d]; [destruct (_ && _); exact H|].
  set (s1 := s <| wt_pending := _ |> <| wt_size := _ |> <| st_accepted := _ |>).
  assert (H1 : queue_ok s1).
  2:{ destruct (_ && _); [exact (queue_ok_frame s1 _ eq_refl H1) | exact H1]. }
  destruct H as (Hne & Hi & Ho & Hz & Hf & Hs & Ha).
  assert (Hr : rest s1 = rest s ++ b :: d).
  { change (rest s1) with
      (rest_of (wt_pending s ++ [b :: d]) (wt_index s) (wt_offset s)).
    rewrite rest_of_app; [by cbn; rewrite app_nil_r|done|done]. }
  unfold queue_ok. rewrite Hr. unfold s1. cbn. rewrite !length_app. cbn.
  repeat split.
  - apply Forall_app. split; [done|]. by repeat constructor.
  - lia.
  - intros _. destruct (decide (wt_index s < length (wt_pending s))%nat) as [Hl|Hl].
    + rewrite app_nth1 by done. auto.
    + rewrite app_nth2, Hz by lia.
      replace (wt_index s - length (wt_pending s))%nat with 0%nat by lia. cbn. lia.
  - lia.
  - intros Hf'. specialize (Hf Hf'). lia.
  - lia.
  - by rewrite Ha, app_assoc.
Qed.

Lemma nth_nonempty p i :
  Forall (fun d : bytes => d <> []) p -> (i < length p)%nat ->
  (0 < length (nth i p []))%nat.
Proof.
  intros Hne Hi. pose proof (proj1 (Forall_nth _ [] p) Hne i Hi) as H.
  destruct (nth i p []); [done|cbn; lia].
Qed.

Lemma drop_nth (p : list bytes) i :
  (i < length p)%nat -> drop i p = nth i p [] :: drop (S i) p.
Proof. intros H. apply drop_S. by destruct (nth_lookup_or_length p i []); [|lia]. Qed.

Lemma rest_of_0 p i : rest_of p i 0 = concat (drop i p).
Proof.
  unfold rest_of. rewrite drop_0. destruct (decide (i < length p)%nat) as [H|H].
  - by rewrite (drop_nth p i H).
  - by rewrite nth_overflow, !drop_ge by lia.
Qed.

Lemma skip_empty_ok s : queue_ok s ->
  skip_empty (drop (wt_index s) (wt_pending s)) (wt_index s) (wt_offset s)
  = (wt_index s, wt_offset s).
Proof.
  intros (Hne & Hi & Ho & _). apply skip_empty_id.
  destruct (decide (wt_index s < length (wt_pending s))%nat) as [H|H].
  - rewrite drop_nth by done. auto.
  - by rewrite drop_ge by lia.
Qed.

Lemma queue_ok_submit s : queue_ok s -> queue_ok (submit_next_chunk s).2.
Proof.
  intros H. unfold submit_next_chunk. destruct (wt_in_flight s); [done|].
  destruct (_ <=? _)%nat eqn:E; [done|]. rewrite (skip_empty_ok s H), E.
  apply Nat.leb_gt in E. destruct H as (Hne & Hi & Ho & Hz & Hf & Hs & Ha).
  unfold queue_ok, rest in *. cbn in *. repeat split; auto.
Qed.

(** The chunk in flight is the head of what the queue holds. *)
Lemma rest_chunk s : rest s = chunk s ++ concat (drop (S (wt_index s)) (wt_pending s)).
Proof. reflexivity. Qed.

Lemma queue_ok_advance n s :
  queue_ok s -> (wt_index s < length (wt_pending s))%nat ->
  (0 < n <= length (chunk s))%nat -> queue_ok (advance n (s <| wt_in_flight := false |>)).
Proof.
  intros (Hne & Hi & Ho & Hz & Hf & Hs & Ha) Hl Hn.
  assert (Hsz : (n <= wt_size s)%nat)
    by (rewrite Hs, rest_chunk, length_app; lia).
  specialize (Ho Hl).
  unfold advance. change (chunk (s <| wt_in_flight := false |>)) with (chunk s).
  assert (Hacc : forall tl, rest s = take n (chunk s) ++ tl ->
    (wt_size s - n `min` wt_size s)%nat = length tl /\
    st_accepted s = (st_wire s ++ take n (chunk s)) ++ tl).
  { intros tl Htl. rewrite Nat.min_l by done. split.
    - rewrite Hs, Htl, length_app, length_take. lia.
    - by rewrite Ha, Htl, app_assoc. }
  destruct (n <? length (chunk s))%nat eqn:En;
    [apply Nat.ltb_lt in En | apply Nat.ltb_ge in En];
    unfold queue_ok, rest, rest_of, chunk in *; cbn in *; rewrite length_drop in *.
  - repeat split; try done; try lia; apply Hacc; rewrite app_assoc; f_equal;
      by rewrite <- drop_drop, take_drop.
  - repeat split; try done; try lia.
    + intros Hl'. by apply nth_nonempty.
    + apply Hacc. rewrite take_ge by (rewrite length_drop; lia). f_equal.
      symmetry. apply rest_of_0.
    + apply Hacc. rewrite take_ge by (rewrite length_drop; lia). f_equal.
      symmetry. apply rest_of_0.
Qed.

(** A state whose queue is that of a good state is good. *)
Ltac queue_frame H :=
  cbn [fst snd]; refine (queue_ok_frame _ _ _ H);
  repeat first
    [ rewrite queue_maybe_close_fd | rewrite queue_close_transports
    | match goal with
      | |- queue (set_field _ ?t) = ?r => change (queue t = r)
      end ];
  reflexivity.

Lemma queue_ok_drained s :
  queue_ok s -> wt_in_flight s = false -> wt_size s = 0%nat -> queue_ok (drained s).
Proof.
  intros (Hne & Hi & Ho & Hz & Hf & Hs & Ha) Hfl H0.
  assert (Hr : rest s = []) by (apply length_zero_iff_nil; congruence).
  rewrite Hr, app_nil_r in Ha.
  assert (Hq : queue (drained s) = ([], 0%nat, 0%nat, wt_size s, wt_in_flight s,
                                     st_accepted s, st_wire s)).
  { unfold drained. destruct (wt_closing s), (wt_eof_pending s);
      first [reflexivity | etransitivity; [apply queue_maybe_close_fd | reflexivity]]. }
  revert Hq. generalize (drained s). intros s' [= H1 H2 H3 H4 H5 H6 H7].
  unfold queue_ok, rest, rest_of. rewrite H1, H2, H3, H4, H5, H6, H7, H0, Hfl, Ha, app_nil_r.
  cbn. repeat split; auto; try lia. by rewrite app_nil_r.
Qed.

Section Steps.
Variable socket_name : string -> option pyval.

Lemma queue_ok_call op s :
  queue_ok s -> queue_ok (ro_raw (transport_call socket_name op s)).
Proof.
  intros H. destruct op; cbn [transport_call ro_raw]; try exact H.
  - by apply queue_ok_write.
  - exact (queue_ok_frame _ _ (queue_transport_close s) H).
  - exact (queue_ok_frame _ _ (queue_transport_abort s) H).
  - exact (queue_ok_frame _ _ (queue_write_eof s) H).
  - exact (queue_ok_frame _ _ (queue_limits _ _ s) H).
  - unfold transport_pause_reading. destruct (st_closed s), (st_is_reading s); exact H.
  - unfold transport_resume_reading, queue_read_operation.
    destruct (st_closed s); [exact H|]. cbn. destruct (_ || _); exact H.
Qed.

Lemma queue_ok_calls ops s : queue_ok s -> queue_ok (calls socket_name ops s).
Proof.
  revert s. induction ops as [|op ops IH]; intros s H; [exact H|].
  apply IH. by apply queue_ok_call.
Qed.

Lemma queue_ok_invoke t u s :
  queue_ok s -> queue_ok (invoke_write_completed socket_name t u s).2.
Proof.
  intros H. unfold invoke_write_completed.
  destruct (_ || st_closed s); [queue_frame H|].
  destruct (_ && _); [|queue_frame H].
  assert (H1 : queue_ok (calls socket_name u.1 (s <| st_is_writing := true |>)))
    by (apply queue_ok_calls; exact H).
  revert H1. generalize (calls socket_name u.1 (s <| st_is_writing := true |>)).
  intros s1 H1. destruct u.2 as [[]|e]; [queue_frame H1|].
  cbn zeta. destruct (wt_closing _); queue_frame H1.
Qed.

Lemma queue_ok_after_completion u s :
  queue_ok s -> wt_in_flight s = false ->
  queue_ok (after_completion socket_name u s).
Proof.
  intros H Hf. unfold after_completion.
  destruct (negb (wt_closed s) && _) eqn:E.
  - pose proof (queue_ok_invoke (wt_total s) u s H) as H1.
    destruct (invoke_write_completed _ _ _ _) as [ok s1].
    destruct (ok && _ && _); [by apply queue_ok_submit | exact H1].
  - destruct (wt_closed s); [exact H|].
    apply queue_ok_invoke. refine (queue_ok_frame (drained s) _ eq_refl _).
    apply queue_ok_drained; [done..|]. apply Nat.ltb_ge in E. lia.
Qed.

Lemma queue_ok_written n u s :
  queue_ok s -> wt_in_flight s = true -> (0 < n <= length (chunk s))%nat ->
  queue_ok (write_operation_completed socket_name (CWritten n) u s).
Proof.
  intros H Hf Hn. apply queue_ok_after_completion.
  - apply queue_ok_advance; [exact H| |exact Hn]. by apply H.
  - unfold advance. by destruct (_ <? _)%nat.
Qed.

Lemma queue_ok_landed s : queue_ok s -> queue_ok (s <| wt_in_flight := false |>).
Proof. intros (Hne & Hi & Ho & Hz & Hf & Hs & Ha). repeat split; auto. discriminate. Qed.

Lemma queue_ok_read_callback b r keep u s :
  queue_ok s -> queue_ok (read_completed_callback socket_name b r keep u s).2.
Proof.
  intros H. unfold read_completed_callback.
  assert (Hc : queue_ok (calls socket_name u.1 s)) by by apply queue_ok_calls.
  assert (Hq : forall t, queue_ok t -> queue_ok (maybe_close_fd (queue_read_operation t))).
  { intros t Ht. unfold queue_read_operation. destruct (_ || _); queue_frame Ht. }
  destruct (_ || st_closed s); [queue_frame H|].
  destruct r; [destruct b; [by apply Hq|]; destruct u.2
              | destruct u.2 | |].
  - by apply Hq.
  - queue_frame Hc.
  - destruct keep; queue_frame Hc.
  - queue_frame Hc.
  - by apply Hq.
  - queue_frame H.
Qed.

Lemma queue_ok_read b r keep u s :
  queue_ok s -> queue_ok (read_operation_completed socket_name b r keep u s).
Proof.
  intros H. unfold read_operation_completed.
  set (s0 := if b : bool then s else s <| rt_op := false |> <| rt_cancelling := false |>).
  assert (H0 : queue_ok s0) by (unfold s0; destruct b; exact H).
  pose proof (queue_ok_read_callback b r keep u s0 H0) as H1.
  destruct (read_completed_callback _ _ _ _ _ _) as [[[]|e] s1]; cbn in H1.
  - destruct (rt_closing s1); [queue_frame H1|]. destruct r; queue_frame H1.
  - destruct (rt_callback s1); queue_frame H1.
Qed.

Lemma queue_ok_dispatch u s : queue_ok s -> queue_ok (dispatch_record socket_name u s).
Proof.
  intros H. unfold dispatch_record. destruct (rt_batch s) as [[g d]|]; [|exact H].
  cbn zeta. destruct (_ =? _)%nat; [apply queue_ok_calls|]; exact H.
Qed.

Lemma queue_ok_step s s' : native_step socket_name s s' -> queue_ok s -> queue_ok s'.
Proof.
  intros [op|  |n u ? Hf Hn|c u ? Hf Hc|r keep u ? Hr|d ? Hr Hb|u ?|?|n ? Hr Hb] H.
  - by apply queue_ok_call.
  - unfold flush_buffered_writes.
    destruct (_ && (0 <? _)%nat); [by apply queue_ok_submit | exact H].
  - by apply queue_ok_written.
  - pose proof (queue_ok_landed _ H) as H0. destruct c as [n| |e].
    + by destruct (Hc n).
    + by apply queue_ok_after_completion.
    + unfold write_operation_completed, write_error.
      destruct (wt_closing _); queue_frame H0.
  - by apply queue_ok_read.
  - exact H.
  - by apply queue_ok_dispatch.
  - exact H.
  - by apply queue_ok_read.
Qed.

Lemma queue_ok_reachable s s' :
  rtc (native_step socket_name) s s' -> queue_ok s -> queue_ok s'.
Proof. induction 1; eauto using queue_ok_step. Qed.

Lemma queue_ok_new : queue_ok new_stream.
Proof. repeat split; cbn; try lia; constructor. Qed.
End Steps.

(** ** [connection_lost] is scheduled at most once *)

Definition lost_ok (s : stream) : Prop :=
  (st_notified s = false /\ st_lost s = []) \/
  (st_notified s = true /\ (exists e, st_lost s = [e]) /\
   rt_closed s = true /\ wt_closed s = true).

(** What [lost_ok] reads, with both [closed] flags only ever raised. *)
Definition raised (s s' : stream) : Prop :=
  st_notified s' = st_notified s /\ st_lost s' = st_lost s /\
  (rt_closed s = true -> rt_closed s' = true) /\
  (wt_closed s = true -> wt_closed s' = true).

Lemma lost_ok_raised s s' : raised s s' -> lost_ok s -> lost_ok s'.
Proof.
  intros (H1 & H2 & H3 & H4) [[Hn Hl]|(Hn & [e He] & Hr & Hw)]; [left|right].
  - by rewrite H1, H2.
  - rewrite H1, H2, He. split; [done|]. split; [by eexists|]. auto.
Qed.

Lemma lost_ok_schedule s :
  rt_closed s = true -> wt_closed s = true -> lost_ok s ->
  lost_ok (schedule_connection_lost_once s).
Proof.
  intros Hr Hw [[Hn Hl]|H]; unfold schedule_connection_lost_once.
  - rewrite Hn. right. cbn. rewrite Hl. cbn. eauto 6.
  - destruct H as (Hn & H). rewrite Hn. right. auto.
Qed.

Lemma lost_ok_maybe_close_fd s : lost_ok s -> lost_ok (maybe_close_fd s).
Proof.
  intros H. unfold maybe_close_fd. destruct (rt_closed s && wt_closed s) eqn:E; [|done].
  apply andb_prop in E as [Hr Hw]. apply lost_ok_schedule; [done..|].
  refine (lost_ok_raised s _ _ H). by repeat split.
Qed.

(** Unfold one layer of a step down to the state before it. *)
Ltac lost_step :=
  repeat first
    [ match goal with H : lost_ok ?s |- lost_ok ?s => exact H end
    | lazymatch goal with
      | |- lost_ok (maybe_close_fd _) => apply lost_ok_maybe_close_fd
      | |- lost_ok (set_field _ ?t) =>
          apply (lost_ok_raised t); [generalize t; intros; by repeat split|]
      end ].

Lemma lost_ok_rt_close s : lost_ok s -> lost_ok (rt_close s).
Proof. intros H. unfold rt_close. destruct (_ || _), (rt_op s); cbn [negb]; lost_step. Qed.

Lemma lost_ok_wt_close s : lost_ok s -> lost_ok (wt_close s).
Proof.
  intros H. unfold wt_close. destruct (_ || _); [done|]. destruct (_ && _); lost_step.
Qed.

Lemma lost_ok_wt_force_close s : lost_ok s -> lost_ok (wt_force_close s).
Proof. intros H. unfold wt_force_close. destruct (wt_closed s); lost_step. Qed.

Lemma lost_ok_rt_force_close s : lost_ok s -> lost_ok (rt_force_close s).
Proof. intros H. unfold rt_force_close. destruct (rt_closed s); lost_step. Qed.

Lemma lost_ok_close_transports e s : lost_ok s -> lost_ok (close_transports e s).
Proof.
  intros H. unfold close_transports.
  set (s1 := if _ : bool then _ else s).
  assert (H1 : lost_ok s1) by (unfold s1; destruct (_ && _); lost_step).
  pose proof (lost_ok_wt_close _ (lost_ok_rt_close _ H1)) as H2.
  destruct (st_closed s); lost_step.
Qed.

Lemma lost_ok_submit s : lost_ok s -> lost_ok (submit_next_chunk s).2.
Proof.
  intros H. unfold submit_next_chunk. destruct (wt_in_flight s); [done|].
  destruct (_ <=? _)%nat; [done|]. destruct (skip_empty _ _ _) as [i o].
  destruct (_ <=? _)%nat; cbn [snd]; lost_step.
Qed.

Lemma lost_ok_drained s : lost_ok s -> lost_ok (drained s).
Proof.
  intros H. unfold drained.
  destruct (wt_closing s), (wt_eof_pending s); lost_step.
Qed.

Lemma lost_ok_write_error e s : lost_ok s -> lost_ok (write_error e s).
Proof.
  intros H. unfold write_error. pose proof (lost_ok_close_transports (Some e) s H).
  destruct (wt_closing s); lost_step.
Qed.

Section LostSteps.
Variable socket_name : string -> option pyval.

Lemma lost_ok_call op s :
  lost_ok s -> lost_ok (ro_raw (transport_call socket_name op s)).
Proof.
  intros H. destruct op; cbn [transport_call ro_raw]; try exact H.
  - unfold transport_write, append_new_buffer_to_write. destruct (_ && _); [done|].
    destruct (wt_closed s); [done|]. destruct d, (_ && _); cbn [ro_raw]; lost_step.
  - unfold transport_close. destruct (_ || _); [done|].
    destruct (rt_closed s && wt_closed s) eqn:E.
    + apply andb_prop in E as [Hr Hw]. apply lost_ok_schedule; [done..|].
      unfold cancel_and_close_fd. lost_step.
    + apply lost_ok_close_transports. lost_step.
  - unfold transport_abort, cancel_and_close_fd. destruct (st_closed s); [done|].
    lost_step. apply lost_ok_wt_force_close, lost_ok_rt_force_close. lost_step.
  - unfold transport_write_eof, queue_eof. destruct (_ && _); [done|].
    destruct (_ || _); cbn [ro_raw]; apply lost_ok_wt_close; lost_step.
  - unfold transport_set_write_buffer_limits. destruct (forallb _ _); [|done].
    destruct (resolve_limits _ _) as [h' l']. destruct (_ && _); [|done].
    destruct (_ && (h' <? _)%Z); destruct (_ && (_ <=? l')%Z); cbn [ro_raw]; lost_step.
  - unfold transport_pause_reading.
    destruct (st_closed s), (st_is_reading s); cbn [negb ro_raw]; lost_step.
  - unfold transport_resume_reading, queue_read_operation. destruct (st_closed s); [done|].
    destruct (_ || _); cbn [ro_raw]; lost_step.
Qed.

Lemma lost_ok_calls ops s : lost_ok s -> lost_ok (calls socket_name ops s).
Proof.
  revert s. induction ops as [|op ops IH]; intros s H; [exact H|].
  apply IH. by apply lost_ok_call.
Qed.

Lemma lost_ok_invoke t u s :
  lost_ok s -> lost_ok (invoke_write_completed socket_name t u s).2.
Proof.
  intros H. unfold invoke_write_completed.
  destruct (_ || st_closed s); [cbn [snd]; lost_step|].
  destruct (_ && _); [|cbn [snd]; lost_step].
  assert (H1 : lost_ok (calls socket_name u.1 (s <| st_is_writing := true |>)))
    by (apply lost_ok_calls; lost_step).
  destruct u.2 as [[]|e]; cbn [snd]; [lost_step|].
  apply lost_ok_maybe_close_fd in H1.
  pose proof (lost_ok_close_transports (Some e) _ H1).
  destruct (wt_closing _); lost_step.
Qed.

Lemma lost_ok_after_completion u s :
  lost_ok s -> lost_ok (after_completion socket_name u s).
Proof.
  intros H. unfold after_completion. destruct (negb _ && _).
  - pose proof (lost_ok_invoke (wt_total s) u s H) as H1.
    destruct (invoke_write_completed _ _ _ _) as [ok s1].
    destruct (ok && _ && _); [by apply lost_ok_submit | exact H1].
  - destruct (wt_closed s); [exact H|]. apply lost_ok_invoke.
    pose proof (lost_ok_drained s H). lost_step.
Qed.

Lemma lost_ok_write c u s :
  lost_ok s -> lost_ok (write_operation_completed socket_name c u s).
Proof.
  intros H. unfold write_operation_completed. destruct c.
  - apply lost_ok_after_completion. unfold advance. destruct (_ <? _)%nat; lost_step.
  - apply lost_ok_after_completion. lost_step.
  - apply lost_ok_write_error. lost_step.
Qed.

Lemma lost_ok_read b r keep u s :
  lost_ok s -> lost_ok (read_operation_completed socket_name b r keep u s).
Proof.
  intros H. unfold read_operation_completed.
  set (s0 := if b : bool then s else s <| rt_op := false |> <| rt_cancelling := false |>).
  assert (H0 : lost_ok s0) by (unfold s0; destruct b; lost_step). clearbody s0.
  pose proof (lost_ok_calls u.1 s0 H0) as Hc.
  assert (Hq : forall t, lost_ok t -> lost_ok (queue_read_operation t)).
  { intros t Ht. unfold queue_read_operation. destruct (_ || _); lost_step. }
  assert (H1 : lost_ok (read_completed_callback socket_name b r keep u s0).2).
  { unfold read_completed_callback.
    destruct (_ || st_closed s0); [cbn [snd]; lost_step|].
    destruct b, r; try destruct u.2; try destruct keep; cbn [snd];
      lost_step; auto using lost_ok_close_transports. }
  destruct (read_completed_callback _ _ _ _ _ _) as [[[]|e] s1]; cbn in H1.
  - destruct (rt_closing s1); [lost_step|]. destruct r; try exact H1.
    apply lost_ok_close_transports. lost_step.
  - pose proof (lost_ok_close_transports (Some e) _ H1). destruct (rt_callback s1); lost_step.
Qed.

Lemma lost_ok_dispatch u s : lost_ok s -> lost_ok (dispatch_record socket_name u s).
Proof.
  intros H. unfold dispatch_record. destruct (rt_batch s) as [[g d]|]; [|exact H].
  cbn zeta. destruct (_ =? _)%nat; [apply lost_ok_calls|]; lost_step.
Qed.

Lemma lost_ok_reachable s s' :
  rtc (native_step socket_name) s s' -> lost_ok s -> lost_ok s'.
Proof.
  induction 1 as [|s1 s2 s3 Hs _ IH]; [done|]. intros H. apply IH.
  destruct Hs; auto using lost_ok_call, lost_ok_write, lost_ok_read, lost_ok_dispatch;
    try (apply lost_ok_read); try (unfold harvest; lost_step).
  unfold flush_buffered_writes. destruct (_ && (0 <? _)%nat); auto using lost_ok_submit.
Qed.
End LostSteps.

(** ** Draining *)

Section Drain.
Variable socket_name : string -> option pyval.

(** One round of a loop whose kernel takes whole chunks. *)
Definition drain_round (s : stream) : stream :=
  let s1 := flush_buffered_writes s in
  if wt_in_flight s1
  then write_operation_completed socket_name (CWritten (length (chunk s1))) ([], Ret tt) s1
  else s1.

Fixpoint drain (n : nat) (s : stream) : stream :=
  match n with 0 => s | S k => drain k (drain_round s) end.

(** A transport that is closing with bytes still queued. *)
Definition closing_with_data (s : stream) : Prop :=
  queue_ok s /\ st_closing s = true /\ wt_closing s = true /\
  wt_closed s = false /\ (0 < wt_size s)%nat.

Lemma rest_nonempty_index s :
  queue_ok s -> (0 < wt_size s)%nat -> (wt_index s < length (wt_pending s))%nat.
Proof.
  intros (_ & Hi & _ & Hz & _ & Hs & _) H0.
  destruct (decide (wt_index s < length (wt_pending s))%nat); [done|].
  assert (Hr : rest s = []).
  { unfold rest. rewrite Hz by lia. rewrite rest_of_0, drop_ge by lia. done. }
  rewrite Hr in Hs. cbn in Hs. lia.
Qed.

(** The prepare hook puts the head of the queue in flight. *)
Lemma flush_in_flight s : closing_with_data s ->
  exists s1, flush_buffered_writes s = s1 /\ closing_with_data s1 /\
  wt_in_flight s1 = true /\ wt_pending s1 = wt_pending s /\
  wt_index s1 = wt_index s /\ st_accepted s1 = st_accepted s.
Proof.
  intros (Hq & Hc & Hw & Hd & H0). eexists. split; [reflexivity|].
  unfold flush_buffered_writes. rewrite Hd. cbn [negb andb].
  destruct (wt_in_flight s) eqn:Ef; cbn [negb andb]; [unfold closing_with_data; tauto|].
  rewrite (proj2 (Nat.ltb_lt _ _) H0).
  pose proof (queue_ok_submit s Hq) as Hq'. pose proof (rest_nonempty_index s Hq H0) as Hl.
  revert Hq'. unfold submit_next_chunk. rewrite Ef, (skip_empty_ok s Hq).
  apply Nat.leb_gt in Hl. rewrite Hl. cbn [snd]. intros Hq'.
  split; [split; [exact Hq'|]|]; by repeat split.
Qed.

(** A full chunk moves on to the next buffer. *)
Lemma advance_full s :
  queue (advance (length (chunk s)) s) =
  (wt_pending s, S (wt_index s), 0%nat, (wt_size s - length (chunk s) `min` wt_size s)%nat,
   wt_in_flight s, st_accepted s, st_wire s ++ chunk s).
Proof.
  unfold advance. rewrite Nat.ltb_irrefl. unfold queue. cbn. by rewrite firstn_all.
Qed.

Lemma chunk_nonempty s : queue_ok s -> (wt_index s < length (wt_pending s))%nat ->
  (0 < length (chunk s))%nat.
Proof.
  intros (_ & _ & Ho & _) Hl. specialize (Ho Hl). unfold chunk.
  rewrite length_drop. lia.
Qed.

Lemma invoke_closing t u s : st_closing s = true ->
  invoke_write_completed socket_name t u s = (true, maybe_close_fd s).
Proof. intros H. unfold invoke_write_completed. by rewrite H, orb_true_r. Qed.

Lemma maybe_close_fd_open s : wt_closed s = false -> maybe_close_fd s = s.
Proof. intros H. unfold maybe_close_fd. by rewrite H, andb_false_r. Qed.

Lemma drain_round_closing s : closing_with_data s ->
  let s' := drain_round s in
  st_accepted s' = st_accepted s /\
  ((wt_closed s' = true /\ st_wire s' = st_accepted s /\ wt_in_flight s' = false) \/
   (closing_with_data s' /\ length (wt_pending s') = length (wt_pending s) /\
    wt_index s' = S (wt_index s))).
Proof.
  intros H. destruct (flush_in_flight s H) as (s1 & E & H1 & Hf & Hp & Hi & Ha).
  unfold drain_round. rewrite E, Hf. cbn zeta. rewrite <- Hp, <- Hi, <- Ha. clear E Hp Hi Ha H s.
  destruct H1 as (Hq & Hc & Hw & Hd & H0).
  pose proof (rest_nonempty_index s1 Hq H0) as Hl.
  pose proof (chunk_nonempty s1 Hq Hl) as Hn.
  pose proof (queue_ok_advance _ s1 Hq Hl (conj Hn (le_n _))) as Hq2.
  pose proof (advance_full (s1 <| wt_in_flight := false |>)) as Hqu.
  change (chunk (s1 <| wt_in_flight := false |>)) with (chunk s1) in Hqu.
  unfold write_operation_completed.
  set (s2 := advance (length (chunk s1)) (s1 <| wt_in_flight := false |>)) in *.
  assert (Hsame : st_closing s2 = true /\ wt_closing s2 = true /\ wt_closed s2 = false)
    by (unfold s2, advance; destruct (_ <? _)%nat; by repeat split).
  clearbody s2. destruct Hsame as (Hc2 & Hw2 & Hd2).
  injection Hqu as Qp Qi Qo Qs Qf Qa Qw. cbn in *.
  unfold after_completion. rewrite Hd2. cbn [negb andb].
  destruct (0 <? wt_size s2)%nat eqn:E2.
  - apply Nat.ltb_lt in E2. rewrite (invoke_closing _ _ s2 Hc2), (maybe_close_fd_open s2 Hd2).
    rewrite Hd2, (proj2 (Nat.ltb_lt _ _) E2). cbn [negb andb].
    pose proof (queue_ok_submit s2 Hq2) as Hq3.
    pose proof (rest_nonempty_index s2 Hq2 E2) as Hl2. revert Hq3.
    unfold submit_next_chunk. rewrite Qf, (skip_empty_ok s2 Hq2).
    apply Nat.leb_gt in Hl2. rewrite Hl2. cbn [snd]. intros Hq3.
    split; [exact Qa|]. right. split; [split; [exact Hq3|by repeat split]|].
    change (length (wt_pending s2) = length (wt_pending s1) /\
            wt_index s2 = S (wt_index s1)).
    by rewrite Qp, Qi.
  - apply Nat.ltb_ge in E2. assert (E0 : wt_size s2 = 0%nat) by lia.
    assert (Hr : st_wire s2 = st_accepted s2).
    { destruct Hq2 as (_ & _ & _ & _ & _ & Hs & Ha). rewrite E0 in Hs.
      symmetry in Hs. apply length_zero_iff_nil in Hs. by rewrite Ha, Hs, app_nil_r. }
    assert (Hdr : queue (drained s2) = ([], 0%nat, 0%nat, wt_size s2, wt_in_flight s2,
        st_accepted s2, st_wire s2) /\ wt_closed (drained s2) = true
        /\ st_closing (drained s2) = true).
    { unfold drained. rewrite Hw2.
      destruct (wt_eof_pending s2); rewrite queue_maybe_close_fd, maybe_close_fd_closed;
        unfold maybe_close_fd, schedule_connection_lost_once;
        destruct (_ && _); try destruct (st_notified _); by repeat split. }
    destruct Hdr as (Dq & Dd & Dc). injection Dq as _ _ _ _ Df Da Dw.
    rewrite invoke_closing by exact Dc. cbn [snd].
    assert (Hm : forall t, queue (maybe_close_fd t) = queue t) by apply queue_maybe_close_fd.
    specialize (Hm (drained s2 <| wt_total := 0%nat |>)). injection Hm as _ _ _ _ Mf Ma Mw.
    rewrite Mf, Ma, Mw, maybe_close_fd_closed. cbn. rewrite Df, Da, Dw, Dd, Hr, Qa. auto.
Qed.

Lemma drain_closed n s :
  wt_closed s = true -> wt_in_flight s = false -> drain n s = s.
Proof.
  intros Hc Hf. induction n as [|n IH]; [done|]. cbn.
  assert (E : drain_round s = s).
  { unfold drain_round, flush_buffered_writes. rewrite Hc. cbn [negb andb].
    by rewrite Hf. }
  by rewrite E.
Qed.

Lemma drain_closing n s : closing_with_data s ->
  (length (wt_pending s) - wt_index s <= n)%nat ->
  wt_closed (drain n s) = true /\ st_wire (drain n s) = st_accepted s.
Proof.
  revert s. induction n as [|n IH]; intros s H Hn.
  - destruct H as (Hq & _ & _ & _ & Hs). pose proof (rest_nonempty_index s Hq Hs). lia.
  - destruct (drain_round_closing s H) as [Ha [(Hc & Hw & Hf)|(H' & Hl & Hi)]]; cbn.
    + by rewrite drain_closed.
    + rewrite <- Ha. apply IH; [exact H'|]. lia.
Qed.

(** [close()] on an open transport with queued bytes only marks it. *)
Lemma close_with_data s :
  queue_ok s -> st_closing s = false -> st_closed s = false ->
  wt_closing s = false -> wt_closed s = false -> (0 < wt_size s)%nat ->
  closing_with_data (transport_close s).
Proof.
  intros Hq Hc Hd Hw Hwd H0.
  pose proof (queue_transport_close s) as Hqu.
  split; [exact (queue_ok_frame _ _ Hqu Hq)|].
  injection Hqu as _ _ _ Hs _ _ _. rewrite Hs. revert Hs. clear Hq.
  unfold transport_close. rewrite Hc, Hd, Hwd, andb_false_r. cbn [orb].
  unfold close_transports.
  change (st_closed (s <| st_closing := true |>)) with (st_closed s). rewrite Hd.
  set (s1 := if _ : bool then _ else _).
  assert (H1 : wt_closing s1 = false /\ wt_closed s1 = false /\ wt_size s1 = wt_size s)
    by (unfold s1; destruct (_ && _); by repeat split).
  clearbody s1. destruct H1 as (E1 & E2 & E3).
  assert (H2 : wt_closing (rt_close s1) = false /\ wt_closed (rt_close s1) = false /\
               wt_size (rt_close s1) = wt_size s).
  { unfold rt_close. destruct (_ || _); [done|]. destruct (rt_op s1); [done|].
    cbn [negb]. rewrite maybe_close_fd_open; done. }
  destruct H2 as (F1 & F2 & F3). unfold wt_close at 1 2 3 4. rewrite F1, F2. cbn [orb].
  assert (F4 : (wt_size (rt_close s1) =? 0)%nat = false)
    by (apply Nat.eqb_neq; lia).
  rewrite F4, andb_false_r. rewrite maybe_close_fd_open by exact F2.
  intros _. by repeat split.
Qed.
End Drain.

(** ** Properties *)

(** C6: whatever calls are made on the transport, from outside or inside its
    upcalls, and however the kernel completes its operations, the bytes the
    kernel took followed by the bytes still queued are exactly the bytes
    [write()] accepted, in order, and [get_write_buffer_size] is the length of
    what is queued: nothing is lost, duplicated or reordered. *)
Theorem native_write_fifo (socket_name : string -> option pyval) (s : stream) :
  rtc (native_step socket_name) new_stream s ->
  st_accepted s = st_wire s ++ rest s /\
  ro_res (transport_call socket_name RGetWriteBufferSize s)
    = Ret (VInt (Z.of_nat (length (rest s)))).
Proof.
  intros H. destruct (queue_ok_reachable _ _ _ H queue_ok_new)
    as (_ & _ & _ & _ & _ & Hs & Ha). cbn. by rewrite Hs.
Qed.

Lemma native_write_fifo_witness :
  let s := write_operation_completed (fun _ => None) (CWritten 1) ([], Ret tt)
             (flush_buffered_writes (ro_raw (transport_write [x00; x01] new_stream))) in
  st_wire s = [x00] /\ st_accepted s = st_wire s ++ rest s.
Proof.
  split; [reflexivity|].
  refine (proj1 (native_write_fifo (fun _ => None) _ _)).
  eapply rtc_l; [exact (step_call (fun _ => None) (RWrite [x00; x01]) _)|].
  eapply rtc_l; [exact (step_prepare (fun _ => None) _)|].
  eapply rtc_l; [apply (step_written (fun _ => None) 1 ([], Ret tt));
                 [reflexivity | vm_compute; lia]|].
  apply rtc_refl.
Defined.

(** On every history of calls, completions and errors, the protocol's
    [connection_lost] is scheduled at most once, and only when both directions
    of the transport are closed. *)
Theorem native_connection_lost_once (socket_name : string -> option pyval) (s : stream) :
  rtc (native_step socket_name) new_stream s ->
  (length (st_lost s) <= 1)%nat /\
  (st_lost s <> [] -> rt_closed s = true /\ wt_closed s = true).
Proof.
  intros H. assert (H0 : lost_ok s).
  { apply (lost_ok_reachable _ _ _ H). left. by split. }
  destruct H0 as [[_ ->]|(_ & [e ->] & Hr & Hw)]; cbn; split; [lia|done|lia|done].
Qed.

Lemma native_connection_lost_once_witness :
  let s := ro_raw (transport_call (fun _ => None) RAbort new_stream) in
  st_lost s = [None] /\ (length (st_lost s) <= 1)%nat.
Proof.
  split; [reflexivity|].
  refine (proj1 (native_connection_lost_once (fun _ => None) _ _)).
  eapply rtc_l; [exact (step_call (fun _ => None) RAbort _)|]. apply rtc_refl.
Defined.

(** C26: [close()] flushes.  From any reachable open state with queued bytes,
    closing and letting the kernel take one queued buffer per round sends every
    accepted byte and only then closes the write side; as many rounds as there
    are buffers are enough. *)
Theorem native_close_drains (socket_name : string -> option pyval) (s : stream) :
  rtc (native_step socket_name) new_stream s ->
  st_closing s = false -> st_closed s = false ->
  wt_closing s = false -> wt_closed s = false -> (0 < wt_size s)%nat ->
  let s' := drain socket_name (length (wt_pending s)) (transport_close s) in
  st_wire s' = st_accepted s /\ wt_closed s' = true.
Proof.
  intros H Hc Hd Hw Hwd H0.
  pose proof (queue_ok_reachable _ _ _ H queue_ok_new) as Hq.
  pose proof (close_with_data s Hq Hc Hd Hw Hwd H0) as Hcl.
  pose proof (queue_transport_close s) as Hqu. injection Hqu as Hp _ _ _ _ Ha _.
  destruct (drain_closing socket_name (length (wt_pending s)) _ Hcl) as [H1 H2].
  { rewrite Hp. lia. }
  cbn zeta. by rewrite H2, Ha.
Qed.

Lemma native_close_drains_witness :
  let s := ro_raw (transport_write [x02] (ro_raw (transport_write [x00; x01] new_stream))) in
  let s' := drain (fun _ => None) 2 (transport_close s) in
  (0 < wt_size s)%nat /\ st_wire s' = st_accepted s /\ wt_closed s' = true.
Proof.
  split; [vm_compute; lia|].
  refine (native_close_drains (fun _ => None)
    (ro_raw (transport_write [x02] (ro_raw (transport_write [x00; x01] new_stream))))
    _ eq_refl eq_refl eq_refl eq_refl _); [|vm_compute; lia].
  eapply rtc_l; [exact (step_call (fun _ => None) (RWrite [x00; x01]) _)|].
  eapply rtc_l; [exact (step_call (fun _ => None) (RWrite [x02]) _)|]. apply rtc_refl.
Defined.
(** A read that completes with data although the transport was closed, or even
    aborted, meanwhile: the record takes the generation of its harvest, so it is
    current and the data goes to the protocol, after [close()] and after
    [connection_lost] was scheduled. *)
Lemma data_after_close :
  let s := harvest [x41] (transport_close new_stream) in
  st_closing s = true /\ rt_batch s = Some (st_generation s, [x41]).
Proof. vm_compute. auto. Qed.

Lemma data_after_abort :
  let s := harvest [x41] (transport_abort new_stream) in
  st_lost s = [None] /\ st_closed s = true /\ rt_batch s = Some (st_generation s, [x41]).
Proof. vm_compute. auto. Qed.

(** A protocol that raises in the batch keeps its connection; the same exception
    out of a read that was not batched closes it. *)
Lemma batch_contains_exception e :
  st_closing (dispatch_record (fun _ => None) ([], Raise e) (harvest [x41] new_stream)) = false
  /\ st_closing (read_operation_completed (fun _ => None) false RData false ([], Raise e) new_stream)
     = true.
Proof. vm_compute. auto. Qed.
End StreamTransport.
