(* ===== verification/SSLWrapper.v ===== *)
(** * [_SSLTransportWrapper] (talyn/loop.py, lines 36-248)

    One [Definition] per method.  The wrapper reaches two things it does not
    own: the protocol's [_f] (which pushes ciphertext to the raw transport) and
    the flow-control upcalls the raw transport makes while it is called.  Both
    are section variables here; the protocol files instantiate them. *)

From stdpp Require Import base list strings gmap.
From Stdlib Require Import Strings.Byte QArith.
From S2P Require Import Prelude SSLConn.

Close Scope Q_scope.

(** What a protocol object lends its wrapper: its [_f] method, the flow-control
    upcalls of the raw transport (its [pause_writing] and [resume_writing]), the
    wrapper's constructor arguments, and the number of rounds granted to the
    one loop whose length the code does not bound (the ciphertext loop of
    [_flush_write_buffer]: a round empties the BIO, so another one finds data
    only if a pause upcall produced some). *)
Class SSPInterface {EI : SSLEngine} {RI : RawTransport} : Type := {
  ssp_f : M unit;
  up : raw_cb -> M unit;
  shutdown_timeout : option Q;
  has_loop : bool;
  cipher_fuel : nat
}.

Module SSLTransportWrapper.
Section Methods.
Context {EI : SSLEngine} {RI : RawTransport} {PI : SSPInterface}.

Definition logger_exception (msg : string) : M unit := log (EvLog msg).

Definition buffer_append (d : bytes) : M unit :=
  modify (fun c => c <| w_buffer := w_buffer c ++ [d] |>).

Definition buffer_appendleft (d : bytes) : M unit :=
  modify (fun c => c <| w_buffer := d :: w_buffer c |>).

(** [self._loop is not None and not self._loop.is_closed()] *)
Definition loop_usable : M bool :=
  gets (fun c => has_loop && negb (c_loop_closed c)).

(** [self._loop.call_soon(self._fatal_error, exc)] *)
Definition schedule_fatal (e : exn) : M unit :=
  ok <- loop_usable ;;
  when ok (modify (fun c => c <| c_soon := c_soon c ++ [e] |>)).

Definition write (data : bytes) : M unit :=
  paused <- gets c_paused ;;
  if (paused : bool) then buffer_append data
  else
    again <-
      try_else (sslobj_write data)
        (orelse (except (fun e => bool_decide (e = SSLWantReadError)) (fun _ =>
           self c_wants_read <- true ;;;
           buffer_append data ;;;
           ret true))
        (orelse (except (fun e => bool_decide (e = SSLWantWriteError)) (fun _ =>
           self c_wants_write <- true ;;;
           buffer_append data ;;;
           ret true))
        (except is_SSLError (fun e =>
           ssp_f ;;;
           schedule_fatal e ;;;
           ret false))))
        (fun written =>
           when (written <? length data)%nat (buffer_append (drop written data)) ;;;
           ret true) ;;
    when again ssp_f.

(** How one round of [while self._write_buffer] ends. *)
Inductive flush_ctl : Type := FAgain | FBreak | FReturn.

Definition flush_plain_step (data : bytes) : M flush_ctl :=
  try_else (sslobj_write data)
    (orelse (except (fun e => bool_decide (e = SSLWantReadError)) (fun _ =>
       self c_wants_read <- true ;;;
       buffer_appendleft data ;;;
       ret FBreak))
    (orelse (except (fun e => bool_decide (e = SSLWantWriteError)) (fun _ =>
       self c_wants_write <- true ;;;
       buffer_appendleft data ;;;
       ret FBreak))
    (except is_SSLError (fun e =>
       ssp_f ;;;
       schedule_fatal e ;;;
       ret FReturn))))
    (fun written =>
       if (written <? length data)%nat then
         buffer_appendleft (drop written data) ;;;
         ret (if (written =? 0)%nat then FBreak else FAgain)
       else ret FAgain).

(** The first loop; [false] when the method returns from inside it. *)
Fixpoint flush_plain (fuel : nat) : M bool :=
  match fuel with
  | 0 => raise Diverges
  | S n =>
      buf <- gets w_buffer ;;
      match buf with
      | [] => ret true
      | data :: rest =>
          self w_buffer <- rest ;;;
          ctl <- flush_plain_step data ;;
          match ctl with
          | FAgain => flush_plain n
          | FBreak => ret true
          | FReturn => ret false
          end
      end
  end.

(** A round either drops a chunk or shortens the first one. *)
Definition buffer_weight (buf : list bytes) : nat :=
  sum_list_with (fun d => S (length d)) buf.

(** One round of the second loop; [true] to go round again. *)
Definition flush_cipher_step : M bool :=
  d <- outgoing_read ;;
  match d with
  | [] => ret false
  | _ :: _ =>
      try_except (raw_t up (RWrite d) ;;; ret true)
        (except is_RuntimeError (fun e =>
           if str_in paused_message (exn_str e)
           then outgoing_write d ;;; ret false
           else raise e))
  end.

Definition _flush_write_buffer : M unit :=
  buf <- gets w_buffer ;;
  go <- flush_plain (S (buffer_weight buf)) ;;
  if (go : bool) then
    out <- gets c_outgoing ;;
    match out with
    | None => ret tt
    | Some _ => loop cipher_fuel flush_cipher_step
    end
  else ret tt.

Definition _fatal_error (exc : exn) : M unit := raise exc.

Definition _force_close : M unit :=
  t <- gets w_timer ;;
  match t with
  | Some _ => log EvTimerCancel ;;; self w_timer <- None
  | None => ret tt
  end ;;;
  raw_t_ up RClose.

(** [self._ssl_shutdown_timeout or 30.0] *)
Definition shutdown_delay : Q :=
  match shutdown_timeout with
  | Some t => if Qeq_bool t 0 then 30 # 1 else t
  | None => 30 # 1
  end.

(** The two [except SSLWant*Error] bodies of [_start_shutdown]. *)
Definition shutdown_wants : M unit :=
  ssp_f ;;;
  t <- gets w_timer ;;
  ok <- loop_usable ;;
  if match t with None => ok | Some _ => false end then
    log (EvCallLater shutdown_delay) ;;;
    self w_timer <- Some shutdown_delay
  else _force_close.

Definition _start_shutdown : M unit :=
  _flush_write_buffer ;;;
  buf <- gets w_buffer ;;
  match buf with
  | _ :: _ => ret tt
  | [] =>
      go <-
        try_else (engine eng_unwrap)
          (orelse (except (fun e => bool_decide (e = SSLWantReadError))
                     (fun _ => shutdown_wants ;;; ret false))
          (orelse (except (fun e => bool_decide (e = SSLWantWriteError))
                     (fun _ => shutdown_wants ;;; ret false))
          (except is_Exception (fun _ =>
             logger_exception "Unhandled exception in event loop callback" ;;;
             ret true))))
          (fun _ => ret true) ;;
      if (go : bool) then ssp_f ;;; _force_close else ret tt
  end.

Definition close : M unit :=
  closing <- gets w_closing ;;
  if (closing : bool) then ret tt
  else self w_closing <- true ;;; _start_shutdown.

Definition get_extra_info (name : string) (dflt : pyval) : M pyval :=
  if String.eqb name "sslcontext" then
    o <- gets c_sslobj ;;
    match o with
    | Some _ => ret (VObj "sslcontext")
    | None => raise AttributeError
    end
  else if String.eqb name "ssl_object" then
    o <- gets c_sslobj ;;
    ret (match o with Some _ => VObj "ssl_object" | None => VNone end)
  else raw_t up (RGetExtraInfo name dflt).

Definition is_closing : M pyval := raw_t up RIsClosing.
Definition can_write_eof : M pyval := raw_t up RCanWriteEof.
Definition write_eof : M unit := raw_t_ up RWriteEof.
Definition abort : M unit := raw_t_ up RAbort.
Definition get_write_buffer_size : M pyval := raw_t up RGetWriteBufferSize.
Definition get_write_buffer_limits : M pyval := raw_t up RGetWriteBufferLimits.
Definition set_write_buffer_limits (high low : option Z) : M unit :=
  raw_t_ up (RSetWriteBufferLimits high low).
Definition pause_reading : M unit := raw_t_ up RPauseReading.
Definition resume_reading : M unit := raw_t_ up RResumeReading.
Definition is_reading : M pyval := raw_t up RIsReading.
Definition set_protocol : M unit := raw_t_ up RSetProtocol.
End Methods.

(** ** The wrapper keeps the ciphertext stream intact

    Given a protocol whose [_f] and upcalls keep it, every method of the wrapper
    does, whatever the engine answers and however the raw transport refuses. *)

Class SSPReady {EI : SSLEngine} {RI : RawTransport} (PI : SSPInterface) : Prop := {
  ssp_f_ready : keeps ready ssp_f;
  up_ready : forall b, keeps ready (up b);
  up_not_paused : never (fun e => is_paused_error e = true) (up CbPauseWriting)
}.

Section Ready.
Context {EI : SSLEngine} {RI : RawTransport} {RL : RawTransportLaws RI}.
Context {PI : SSPInterface} {PO : SSPReady PI}.

#[local] Hint Resolve ssp_f_ready up_ready : keeps.
#[local] Hint Unfold flush_plain_step sslobj_write buffer_append
  buffer_appendleft schedule_fatal loop_usable logger_exception : wrapper.

Lemma keeps_ready_raw_ op :
  (forall d, op <> RWrite d) -> keeps ready (raw_t_ up op).
Proof.
  intros H. apply keeps_bind; [|intros; apply keeps_ret].
  apply keeps_ready_raw; [exact up_ready | exact H].
Qed.
#[local] Hint Resolve keeps_ready_raw_ : keeps.
#[local] Hint Extern 1 (forall d, _ <> RWrite d) => discriminate : keeps.

Lemma keeps_ready_write d : keeps ready (write d).
Proof. unfold write. autounfold with wrapper. keeps_tac. Qed.

Lemma keeps_ready_flush_plain n : keeps ready (flush_plain n).
Proof.
  induction n as [|n IH]; cbn; [apply keeps_raise|].
  autounfold with wrapper. keeps_tac.
Qed.

(** One round of the ciphertext loop takes what it read or puts it back. *)
Lemma keeps_ready_flush_cipher_step : keeps ready flush_cipher_step.
Proof.
  intros c Hc. unfold flush_cipher_step. unfold bind at 1.
  pose proof (outgoing_read_spec c Hc) as Hr.
  destruct (outgoing_read c) as [[d|e] c1]; cbn in *; [|exact Hr].
  destruct d as [|b d]; [by apply in_hand_nil|].
  pose proof (raw_write_spec up up_ready up_not_paused (b :: d) c1 Hr) as Hw.
  unfold try_except, try_else, except, is_paused_error in *. unfold bind at 1.
  destruct (raw_t up _ c1) as [[v|e] c2]; cbn in *; [exact Hw|].
  destruct (is_RuntimeError e); cbn in *; [|exact Hw].
  destruct (str_in _ _); [|exact Hw].
  unfold bind. pose proof (outgoing_write_back _ c2 Hw) as Hb.
  by destruct (outgoing_write _ c2) as [[]].
Qed.
#[local] Hint Resolve keeps_ready_flush_plain keeps_ready_flush_cipher_step : keeps.

Lemma keeps_ready_flush : keeps ready _flush_write_buffer.
Proof. unfold _flush_write_buffer. keeps_tac. Qed.

Lemma keeps_ready_force_close : keeps ready _force_close.
Proof. unfold _force_close. keeps_tac. Qed.
#[local] Hint Resolve keeps_ready_flush keeps_ready_force_close : keeps.

Lemma keeps_ready_start_shutdown : keeps ready _start_shutdown.
Proof.
  unfold _start_shutdown, shutdown_wants. autounfold with wrapper. keeps_tac.
Qed.
#[local] Hint Resolve keeps_ready_start_shutdown : keeps.

Lemma keeps_ready_close : keeps ready close.
Proof. unfold close. keeps_tac. Qed.
End Ready.

#[export] Hint Resolve ssp_f_ready up_ready keeps_ready_raw_ keeps_ready_write
  keeps_ready_flush keeps_ready_force_close keeps_ready_start_shutdown
  keeps_ready_close : keeps.
#[export] Hint Extern 1 (forall d, _ <> RWrite d) => discriminate : keeps.
#[export] Hint Extern 0 (SSPReady _) => typeclasses eauto : keeps.
#[export] Hint Extern 0 (RawTransportLaws _) => typeclasses eauto : keeps.
End SSLTransportWrapper.
