(* ===== verification/SSLProto.v ===== *)
(** * The protocol side of a TLS connection: shared bodies and the closed system

    [loop.py] declares five protocol classes ([_SP] of [start_tls], [SP] of
    [_create_ssl_connection], [SSP] of [_create_ssl_server], [SP] of
    [_create_ssl_unix_connection], [SSP] of [_create_ssl_unix_server]).  This
    file holds the method bodies they write identically, the record of methods a
    class presents ([ssl_proto]), and the closed system: a class, an application
    protocol given by a script, and the stimuli of the event loop.

    Application callbacks may call the wrapper again, and the raw transport may
    call [pause_writing] while it is written to, so a method's model takes the
    two kinds of upcalls as arguments ([app], [cb]); [upcalls] ties the knot to
    a nesting depth [n], at which Python raises [RecursionError]. *)

From stdpp Require Import base list strings gmap.
From Stdlib Require Import Strings.Byte QArith.
From S2P Require Import Prelude SSLConn SSLWrapper.

Close Scope Q_scope.
Import SSLTransportWrapper.

(** [seq[:n]]: a negative [n] counts from the end. *)
Definition slice_to (n : Z) {A} (l : list A) : list A :=
  if (n <? 0)%Z then take (Z.to_nat (Z.of_nat (length l) + n)) l
  else take (Z.to_nat n) l.

Definition buffer_size : N := 65536.

Record ssl_proto {EI : SSLEngine} {RI : RawTransport} : Type := SSLProto {
  sp_iface : SSPInterface;
  sp_buffer_updated : Z -> M unit;
  sp_connection_made : M unit;
  sp_connection_lost : option exn -> M unit;
  sp_eof_received : M bool;
  sp_pause_writing : M unit;
  sp_resume_writing : M unit
}.

(** The state of a protocol object after its [__init__]; the classes differ in
    what is already in the incoming BIO and in whether [_ap] is set. *)
Definition new_conn {EI : SSLEngine} {RI : RawTransport}
    (has_ap : bool) (early : bytes) (e : eng) (r : raw) : conn := {|
  c_buf := repeat x00 (N.to_nat buffer_size);
  c_hs := false; c_running := true; c_paused := false;
  c_wants_read := false; c_wants_write := false;
  c_sslobj := Some e; c_incoming := Some early; c_outgoing := Some [];
  c_has_raw := false; c_has_ap := has_ap; c_has_wrapper := false;
  w_closing := false; w_timer := None; w_buffer := [];
  c_raw := r; c_waiter := WPending; c_hs_timer := None;
  c_loop_closed := false; c_soon := []; c_log := [] |}.

Section Bodies.
Context {EI : SSLEngine} {RI : RawTransport}.

(** a call on [self._ap] *)
Variable app : app_event -> M bool.
(** [hasattr(self._ap, "pause_writing")] and ["resume_writing"] *)
Variable ap_has_pause ap_has_resume : bool.

Definition call_app (e : app_event) : M bool := log (EvApp e) ;;; app e.
Definition call_app_ (e : app_event) : M unit := call_app e ;;; ret tt.

(** [try: ... except Exception: logger.exception(msg)] *)
Definition guarded (msg : string) (m : M unit) : M unit :=
  try_except m (except is_Exception (fun _ => logger_exception msg)).

Definition cb_message : string := "Unhandled exception in event loop callback".

Definition get_buffer_body (n : Z) : M bytes := gets (fun c => slice_to n (c_buf c)).

(** [self._incoming.write(self._buf[:n])] *)
Definition feed (n : Z) : M unit :=
  d <- gets (fun c => slice_to n (c_buf c)) ;; incoming_write d.

(** [hasattr(self, "_wrapper") and self._wrapper._closing] *)
Definition wrapper_closing : M bool :=
  gets (fun c => c_has_wrapper c && w_closing c).

(** [self._raw_t = t; self._wrapper = _SSLTransportWrapper(self, t, ...)] *)
Definition attach : M unit :=
  self c_has_raw <- true ;;;
  self c_has_wrapper <- true ;;;
  self w_closing <- false ;;;
  self w_timer <- None ;;;
  self w_buffer <- [].

Definition pause_writing_body : M unit :=
  self c_paused <- true ;;;
  has_ap <- gets c_has_ap ;;
  when (has_ap && ap_has_pause) (guarded cb_message (call_app_ APauseWriting)).

Definition resume_app : M unit :=
  self c_paused <- false ;;;
  has_ap <- gets c_has_ap ;;
  when (has_ap && ap_has_resume) (guarded cb_message (call_app_ AResumeWriting)).

(** [if not waiter.done(): waiter.set_...] *)
Definition resolve_waiter (w : waiter_st) : M unit :=
  cur <- gets c_waiter ;;
  when (negb (waiter_done cur)) (self c_waiter <- w).

(** [self._raw_t.write(d)] on everything in [_outgoing], if anything. *)
Definition push_outgoing (cb : raw_cb -> M unit) : M unit :=
  d <- outgoing_read ;;
  match d with
  | [] => ret tt
  | _ :: _ => raw_t_ cb (RWrite d)
  end.

(** The read loop of [_r]: the chunks, and whether the peer closed.  The
    rounds are bounded by what the engine can still serve. *)
Fixpoint read_chunks (fuel : nat) (chunks : list bytes) : M (list bytes * bool) :=
  match fuel with
  | 0 => raise Diverges
  | S n =>
      try_else (engine (eng_read buffer_size))
        (orelse (except (fun e => bool_decide (e = SSLWantReadError))
                   (fun _ => ret (chunks, false)))
                (except is_SSLError (fun _ => ret (chunks, true))))
        (fun d => match d with
                  | [] => ret (chunks, true)
                  | _ :: _ => read_chunks n (chunks ++ [d])
                  end)
  end.

Definition read_fuel (c : conn) : nat :=
  match c_sslobj c with
  | None => 1
  | Some e => S (eng_pending (default [] (c_incoming c)) e)
  end.

(** [transport.close()] in the coroutine that created the transport. *)
Definition transport_call (cb : raw_cb -> M unit) (op : raw_op) : M unit := fun c =>
  let r := raw_call op (c_raw c) in
  match ro_res r with
  | Raise e => (Raise e, c <| c_raw := ro_raw r |>)
  | Ret _ => for_each (ro_cbs r) cb
               (c <| c_raw := ro_raw r |> <| c_log := c_log c ++ [EvRaw op] |>)
  end.
End Bodies.

(** ** The closed system *)

Inductive user_action : Type :=
| UWrite (d : bytes)
| UClose
| UAbort
| UWriteEof
| UPauseReading
| UResumeReading
| USetLimits (high low : option Z).

Section System.
Context {EI : SSLEngine} {RI : RawTransport}.

Definition run_action (p : ssl_proto) (a : user_action) : M unit :=
  let PI := sp_iface p in
  has_transport <- gets c_has_wrapper ;;
  when has_transport
    match a with
    | UWrite d => write d
    | UClose => close
    | UAbort => abort
    | UWriteEof => write_eof
    | UPauseReading => pause_reading
    | UResumeReading => resume_reading
    | USetLimits hi lo => set_write_buffer_limits hi lo
    end.

(** A protocol class, given its upcalls. *)
Variable variant : (app_event -> M bool) -> (raw_cb -> M unit) -> ssl_proto.

(** The application: after any history, what it does to its transport when it
    is called, and how the call ends. *)
Variable script : list event -> app_event -> list user_action * outcome bool.

Definition run_script (p : ssl_proto) (e : app_event) : M bool := fun c =>
  let '(acts, o) := script (c_log c) e in
  (for_each acts (run_action p) ;;;
   match o with Ret b => ret b | Raise x => raise x end) c.

Fixpoint upcalls (n : nat) : (app_event -> M bool) * (raw_cb -> M unit) :=
  match n with
  | 0 => (fun _ => raise RecursionError, fun _ => raise RecursionError)
  | S k =>
      let p := variant (upcalls k).1 (upcalls k).2 in
      (run_script p,
       fun b => match b with
                | CbPauseWriting => sp_pause_writing p
                | CbResumeWriting => sp_resume_writing p
                end)
  end.

Definition proto_at (n : nat) : ssl_proto := variant (upcalls n).1 (upcalls n).2.

(** What the event loop and the user may do to a connection. *)
Inductive stimulus : Type :=
| SMade
| SRecv (d : bytes)
| SEof
| SLost (e : option exn)
| SPause
| SResume
| SUser (a : user_action)
| STimer
| SSoon
| SWaiterCancel
| SLoopClose
| SRaw (r : raw).

(** [readinto] of the native transport: bytes into the buffer, then
    [buffer_updated]. *)
Definition recv (p : ssl_proto) (d : bytes) : M unit :=
  modify (fun c => c <| c_buf := d ++ drop (length d) (c_buf c) |>) ;;;
  sp_buffer_updated p (Z.of_nat (length d)).

Definition stimulate (p : ssl_proto) (s : stimulus) : M unit :=
  let PI := sp_iface p in
  match s with
  | SMade => sp_connection_made p
  | SRecv d => recv p d
  | SEof => sp_eof_received p ;;; ret tt
  | SLost e => sp_connection_lost p e
  | SPause => sp_pause_writing p
  | SResume => sp_resume_writing p
  | SUser a => run_action p a
  | STimer =>
      t <- gets w_timer ;;
      match t with Some _ => _force_close | None => ret tt end
  | SSoon =>
      q <- gets c_soon ;;
      match q with
      | [] => ret tt
      | e :: q' => self c_soon <- q' ;;; _fatal_error e
      end
  | SWaiterCancel => resolve_waiter WCancelled
  | SLoopClose => self c_loop_closed <- true
  | SRaw r =>
      dead <- gets (fun c => raw_dead (c_raw c)) ;;
      when (negb dead || raw_dead r) (self c_raw <- r)
  end.

Definition is_made (s : stimulus) : bool :=
  match s with SMade => true | _ => false end.

(** [connection_made] comes first, and once.  A callback's exception goes to
    the loop's exception handler; the state it left stays. *)
Definition step (n : nat) (s : stimulus) (c : conn) : conn :=
  if xorb (c_has_raw c) (is_made s) then (stimulate (proto_at n) s c).2 else c.

Definition run (n : nat) (l : list stimulus) (c : conn) : conn :=
  foldl (fun c s => step n s c) c l.
End System.

(** ** Ciphertext order, for every protocol class

    A class is [ProtoReady] when its methods keep [ready]; a variant that is
    [ProtoReady] whenever its upcalls are well behaved keeps the ciphertext
    stream ordered under every application script, nesting depth and sequence of
    stimuli. *)

Class ProtoReady {EI : SSLEngine} {RI : RawTransport} (p : ssl_proto) : Prop := {
  pr_iface : SSPReady (sp_iface p);
  pr_made : forall c, ordered c -> ready (sp_connection_made p c).2;
  pr_updated : forall n, keeps ready (sp_buffer_updated p n);
  pr_lost : forall e, keeps ready (sp_connection_lost p e);
  pr_eof : keeps ready (sp_eof_received p);
  pr_pause : keeps ready (sp_pause_writing p);
  pr_pause_not_paused :
    never (fun e => is_paused_error e = true) (sp_pause_writing p);
  pr_resume : keeps ready (sp_resume_writing p)
}.

(** A handler of the app's exceptions leaves only non-[Exception]s. *)
Lemma guarded_never {EI : SSLEngine} {RI : RawTransport} msg (m : M unit) :
  never (fun e => is_Exception e = true) (guarded msg m).
Proof.
  intros c e. unfold guarded, try_except, try_else, except.
  destruct (m c) as [[u|x] c']; cbn; [discriminate|].
  destruct (is_Exception x) eqn:E; cbn; [discriminate|].
  intros [= <-]. by rewrite E.
Qed.

Lemma paused_is_Exception e : is_paused_error e = true -> is_Exception e = true.
Proof. by destruct e. Qed.

Section BodiesReady.
Context {EI : SSLEngine} {RI : RawTransport} {RL : RawTransportLaws RI}.
Variable app : app_event -> M bool.
Variable cb : raw_cb -> M unit.
Hypothesis app_ready : forall e, keeps ready (app e).
Hypothesis cb_ready : forall b, keeps ready (cb b).
Hypothesis cb_not_paused :
  never (fun e => is_paused_error e = true) (cb CbPauseWriting).
#[local] Hint Resolve app_ready cb_ready : keeps.

Lemma keeps_ready_call_app e : keeps ready (call_app app e).
Proof. unfold call_app. keeps_tac. Qed.
#[local] Hint Resolve keeps_ready_call_app : keeps.

Lemma keeps_ready_call_app_ e : keeps ready (call_app_ app e).
Proof. unfold call_app_. keeps_tac. Qed.

Lemma keeps_ready_guarded msg m : keeps ready m -> keeps ready (guarded msg m).
Proof. intros. unfold guarded, logger_exception. keeps_tac. Qed.
#[local] Hint Resolve keeps_ready_call_app_ keeps_ready_guarded : keeps.

Lemma keeps_ready_pause_body b : keeps ready (pause_writing_body app b).
Proof. unfold pause_writing_body. keeps_tac. Qed.

Lemma keeps_ready_resume_app b : keeps ready (resume_app app b).
Proof. unfold resume_app. keeps_tac. Qed.

Lemma pause_body_not_paused b :
  never (fun e => is_paused_error e = true) (pause_writing_body app b).
Proof.
  intros c e. unfold pause_writing_body, bind, modify, gets, when.
  destruct (c_has_ap _ && b); [|discriminate]. intros H Hp.
  by apply (guarded_never _ _ _ _ H), paused_is_Exception.
Qed.

Lemma keeps_ready_feed n : keeps ready (feed n).
Proof.
  unfold feed. keeps_tac. intros c H. unfold incoming_write.
  by destruct (c_incoming c).
Qed.

Lemma keeps_ready_waiter w : keeps ready (resolve_waiter w).
Proof. unfold resolve_waiter. keeps_tac. Qed.

Lemma keeps_ready_read_chunks n l : keeps ready (read_chunks n l).
Proof. revert l. induction n as [|n IH]; intros l; cbn; keeps_tac. Qed.

Lemma ready_attach c : ordered c -> ready (attach c).2.
Proof. intros H. split; [exact H | reflexivity]. Qed.

(** Without a paused-error handler, nothing is lost to a transport that takes
    every write. *)
Lemma keeps_ready_push_outgoing {RR : RawReliable RI} : keeps ready (push_outgoing cb).
Proof.
  intros c Hc. unfold push_outgoing, bind.
  pose proof (outgoing_read_spec c Hc) as Hr.
  destruct (outgoing_read c) as [[d|e] c1]; cbn in *; [|exact Hr].
  destruct d as [|b d]; [by apply in_hand_nil|].
  unfold raw_t_, bind.
  pose proof (raw_write_reliable cb cb_ready cb_not_paused (b :: d) c1 Hr) as Hw.
  by destruct (raw_t cb _ c1) as [[v|e] c2].
Qed.
End BodiesReady.

#[export] Hint Resolve keeps_ready_call_app keeps_ready_call_app_
  keeps_ready_guarded keeps_ready_pause_body keeps_ready_resume_app
  keeps_ready_feed keeps_ready_waiter keeps_ready_read_chunks : keeps.

Section SystemReady.
Context {EI : SSLEngine} {RI : RawTransport} {RL : RawTransportLaws RI}.
Variable variant : (app_event -> M bool) -> (raw_cb -> M unit) -> ssl_proto.
Variable script : list event -> app_event -> list user_action * outcome bool.
Hypothesis variant_ready : forall app cb,
  (forall e, keeps ready (app e)) -> (forall b, keeps ready (cb b)) ->
  never (fun e => is_paused_error e = true) (cb CbPauseWriting) ->
  ProtoReady (variant app cb).

Lemma keeps_ready_run_action p a : SSPReady (sp_iface p) ->
  keeps ready (run_action p a).
Proof.
  intros HP. unfold run_action, abort, write_eof, pause_reading, resume_reading,
    set_write_buffer_limits. keeps_tac.
Qed.

Lemma keeps_ready_run_script p e : SSPReady (sp_iface p) ->
  keeps ready (run_script script p e).
Proof.
  intros HP c Hc. unfold run_script. destruct (script (c_log c) e) as [acts o].
  revert c Hc. change (keeps ready (for_each acts (run_action p) ;;;
    match o with Ret b => ret b | Raise x => raise x end)).
  keeps_tac. by apply keeps_ready_run_action.
Qed.

Lemma upcalls_ready n :
  (forall e, keeps ready ((upcalls variant script n).1 e)) /\
  (forall b, keeps ready ((upcalls variant script n).2 b)) /\
  never (fun e => is_paused_error e = true) ((upcalls variant script n).2 CbPauseWriting).
Proof.
  induction n as [|n (IH1 & IH2 & IH3)]; cbn.
  - split; [|split]; [intros; apply keeps_raise .. |].
    by intros c e [= <-].
  - pose proof (variant_ready _ _ IH1 IH2 IH3) as HP. split; [|split].
    + intros e. apply keeps_ready_run_script, HP.
    + intros []; [apply HP | apply HP].
    + apply HP.
Qed.

Lemma proto_at_ready n : ProtoReady (proto_at variant script n).
Proof. destruct (upcalls_ready n) as (H1 & H2 & H3). by apply variant_ready. Qed.

Lemma keeps_ready_raw_moved r :
  keeps ready (dead <- gets (fun c => raw_dead (c_raw c)) ;;
               when (negb dead || raw_dead r) (self c_raw <- r)).
Proof.
  intros c [Hc Hr]. unfold bind, gets, when.
  destruct (raw_dead (c_raw c)) eqn:E; cbn.
  - destruct (raw_dead r) eqn:E'; cbn; [|by split].
    split; [|exact Hr]. intros Hd. cbn in Hd. congruence.
  - split; [|exact Hr]. intros _. exact (Hc E).
Qed.

Lemma step_ordered n s c : ordered c -> ordered (step variant script n s c).
Proof.
  intros Hc. unfold step. destruct (xorb (c_has_raw c) (is_made s)) eqn:E; [|exact Hc].
  pose proof (proto_at_ready n) as HP. pose proof pr_iface as HI.
  destruct (is_made s) eqn:Em.
  { destruct s; try discriminate. by apply HP. }
  rewrite xorb_false_r in E.
  assert (K : keeps ready (stimulate (proto_at variant script n) s)).
  2:{ exact (proj1 (K c (conj Hc E))). }
  destruct s; try discriminate; unfold stimulate, recv, _fatal_error;
    try (by apply HP); try apply keeps_ready_raw_moved;
    keeps_tac; try (by apply HP); try by apply keeps_ready_run_action.
Qed.

Lemma run_ordered n l c : ordered c -> ordered (run variant script n l c).
Proof.
  revert c. induction l as [|s l IH]; intros c Hc; [exact Hc|].
  apply IH. by apply step_ordered.
Qed.
End SystemReady.
