(* ===== verification/SSLClient.v ===== *)
(** * [Loop._create_ssl_connection]: the client protocol [SP] (loop.py 844-1099)

    The class [SP] of the coroutine, method by method, and the coroutine's own
    part: what it does once the raw transport exists, until it returns. *)

From stdpp Require Import base list strings gmap.
From Stdlib Require Import Strings.Byte QArith.
From S2P Require Import Prelude SSLConn SSLWrapper SSLProto.

Close Scope Q_scope.
Import SSLTransportWrapper.

Module SP.
Section Methods.
Context {EI : SSLEngine} {RI : RawTransport}.
Variables (ap_has_pause ap_has_resume : bool).
Variables (ssl_shutdown_timeout : option Q) (rounds : nat).
Variable app : app_event -> M bool.
Variable cb : raw_cb -> M unit.

(** [SP.__init__], with the engine and the application protocol made by the
    coroutine before the transport exists. *)
Definition init (e : eng) (r : raw) : conn := new_conn true [] e r.

Definition _f : M unit :=
  d <- outgoing_read ;;
  match d with
  | [] => ret tt
  | _ :: _ =>
      try_except (raw_t_ cb (RWrite d))
        (except is_RuntimeError (fun e =>
           if str_in paused_message (exn_str e) then outgoing_write d
           else raise e))
  end.

#[local] Instance iface : SSPInterface := {|
  ssp_f := _f; up := cb; shutdown_timeout := ssl_shutdown_timeout;
  has_loop := true; cipher_fuel := rounds |}.

Definition get_buffer (n : Z) : M bytes := get_buffer_body n.

Definition _h : M unit :=
  try_else (engine eng_handshake)
    (orelse (except (fun e => bool_decide (e = SSLWantReadError)) (fun _ => _f))
    (orelse (except (fun e => bool_decide (e = SSLWantWriteError)) (fun _ => _f))
            (except is_Exception (fun exc => resolve_waiter (WException exc)))))
    (fun _ =>
       self c_hs <- true ;;;
       resolve_waiter WResult ;;;
       _f ;;;
       call_app_ app AConnectionMade).

Definition _r : M unit :=
  fuel <- gets read_fuel ;;
  res <- read_chunks fuel [] ;;
  when (negb (bool_decide (res.1 = []))) (call_app_ app (ADataReceived (concat res.1))) ;;;
  when res.2
    (guarded "Unhandled exception in app_protocol.eof_received"
       (call_app_ app AEofReceived) ;;;
     hw <- gets c_has_wrapper ;;
     when hw _start_shutdown).

Definition buffer_updated (n : Z) : M unit :=
  feed n ;;;
  closing <- wrapper_closing ;;
  if (closing : bool) then _start_shutdown
  else hs <- gets c_hs ;; if (hs : bool) then _r else _h.

Definition connection_made : M unit := attach ;;; _h.

Definition connection_lost (e : option exn) : M unit :=
  guarded cb_message (call_app_ app (AConnectionLost e)) ;;;
  self c_sslobj <- None ;;;
  self c_incoming <- None ;;;
  self c_outgoing <- None.

Definition eof_received : M bool :=
  try_except (call_app app AEofReceived)
    (except is_Exception (fun _ => ret false)).

Definition pause_writing : M unit := pause_writing_body app ap_has_pause.

Definition resume_writing : M unit :=
  resume_app app ap_has_resume ;;;
  hw <- gets c_has_wrapper ;;
  when hw _flush_write_buffer ;;;
  _f.

Definition proto : ssl_proto := {|
  sp_iface := iface;
  sp_buffer_updated := buffer_updated;
  sp_connection_made := connection_made;
  sp_connection_lost := connection_lost;
  sp_eof_received := eof_received;
  sp_pause_writing := pause_writing;
  sp_resume_writing := resume_writing |}.
End Methods.

(** ** The coroutine after the transport exists *)

Section Coroutine.
Context {EI : SSLEngine} {RI : RawTransport}.
Variable cb : raw_cb -> M unit.

(** [on_timeout], scheduled with [call_later(ssl_handshake_timeout, ...)]. *)
Definition on_timeout : M unit :=
  w <- gets c_waiter ;;
  when (negb (waiter_done w))
    (self c_waiter <- WException ConnectionAbortedError ;;;
     transport_call cb RClose).

(** Arming the timer before [await waiter]. *)
Definition arm_timeout (ssl_handshake_timeout : option Q) : M unit :=
  match ssl_handshake_timeout with
  | Some t => self c_hs_timer <- Some t
  | None => ret tt
  end.

(** [await waiter] and what follows it, once the waiter is resolved ([Ret])
    or the await raised ([Raise]); [true] stands for the wrapper, [false] for
    the raw transport ([wrapper_holder[0] or transport]). *)
Definition after_await (ssl_handshake_timeout : option Q) (o : outcome unit)
    : M bool :=
  match ssl_handshake_timeout with
  | Some _ =>
      try_finally
        (try_except (match o with Ret u => ret u | Raise e => raise e end)
           (except is_BaseException (fun e =>
              self c_hs_timer <- None ;;;
              transport_call cb RClose ;;;
              raise e)))
        (self c_hs_timer <- None)
  | None =>
      try_except (match o with Ret u => ret u | Raise e => raise e end)
        (except is_BaseException (fun e =>
           transport_call cb RClose ;;;
           raise e))
  end ;;;
  gets c_has_wrapper.
End Coroutine.
End SP.

(** ** [SP] keeps the ciphertext stream, even over a transport that refuses *)

Section SPReady.
Context {EI : SSLEngine} {RI : RawTransport} {RL : RawTransportLaws RI}.
Variables (ap_has_pause ap_has_resume : bool).
Variables (ssl_shutdown_timeout : option Q) (rounds : nat).
Variable app : app_event -> M bool.
Variable cb : raw_cb -> M unit.
Hypothesis app_ready : forall e, keeps ready (app e).
Hypothesis cb_ready : forall b, keeps ready (cb b).
Hypothesis cb_not_paused :
  never (fun e => is_paused_error e = true) (cb CbPauseWriting).
#[local] Hint Resolve app_ready cb_ready : keeps.

Lemma keeps_ready_sp_f : keeps ready (SP._f cb).
Proof.
  intros c Hc. unfold SP._f, bind.
  pose proof (outgoing_read_spec c Hc) as Hr.
  destruct (outgoing_read c) as [[d|e] c1]; cbn in *; [|exact Hr].
  destruct d as [|b d]; [by apply in_hand_nil|].
  pose proof (raw_write_spec cb cb_ready cb_not_paused (b :: d) c1 Hr) as Hw.
  unfold try_except, try_else, except, raw_t_, bind, is_paused_error in *.
  destruct (raw_t cb _ c1) as [[v|e] c2]; cbn in *; [exact Hw|].
  destruct (is_RuntimeError e); cbn in *; [|exact Hw].
  destruct (str_in _ _); [|exact Hw].
  exact (outgoing_write_back _ c2 Hw).
Qed.
#[local] Hint Resolve keeps_ready_sp_f : keeps.

#[local] Instance sp_iface_ready :
  SSPReady (SP.iface ssl_shutdown_timeout rounds cb).
Proof. split; [apply keeps_ready_sp_f | exact cb_ready | exact cb_not_paused]. Qed.

Lemma keeps_ready_sp_h : keeps ready (SP._h app cb).
Proof. unfold SP._h. keeps_tac. Qed.
#[local] Hint Resolve keeps_ready_sp_h : keeps.

Lemma keeps_ready_sp_drop : keeps ready
  (self c_sslobj <- None ;;; self c_incoming <- None ;;; self c_outgoing <- None).
Proof.
  intros c [Hc Hr]. split; [|exact Hr]. intros Hd. specialize (Hc Hd).
  unfold stream_ok in *. cbn. destruct (c_outgoing c); [|exact Hc].
  rewrite Hc. by eexists.
Qed.
#[local] Hint Resolve keeps_ready_sp_drop : keeps.

Lemma sp_ready : ProtoReady
  (SP.proto ap_has_pause ap_has_resume ssl_shutdown_timeout rounds app cb).
Proof.
  split; cbn [sp_iface sp_buffer_updated sp_connection_made sp_connection_lost
              sp_eof_received sp_pause_writing sp_resume_writing SP.proto].
  - exact sp_iface_ready.
  - intros c Hc. apply keeps_ready_sp_h, ready_attach, Hc.
  - intros n. unfold SP.buffer_updated, SP._r, wrapper_closing. keeps_tac.
  - intros e. unfold SP.connection_lost. keeps_tac.
  - unfold SP.eof_received. keeps_tac.
  - apply keeps_ready_pause_body; exact app_ready.
  - apply pause_body_not_paused.
  - unfold SP.resume_writing. keeps_tac.
Qed.
End SPReady.
