(* ===== verification/StartTLS.v ===== *)
(** * [Loop.start_tls]: the protocol [_SP] (loop.py 640-842) *)

From stdpp Require Import base list strings gmap.
From Stdlib Require Import Strings.Byte QArith.
From S2P Require Import Prelude SSLConn SSLWrapper SSLProto.

Close Scope Q_scope.
Import SSLTransportWrapper.

Module StartTLS.
Section Methods.
Context {EI : SSLEngine} {RI : RawTransport}.
Variables (ap_has_pause ap_has_resume : bool).
Variables (ssl_shutdown_timeout : option Q) (rounds : nat).
Variable app : app_event -> M bool.
Variable cb : raw_cb -> M unit.

(** [_SP.__init__]; [early] is what [start_tls] drained from the stream
    reader's and the raw transport's buffers into the incoming BIO. *)
Definition init (e : eng) (r : raw) (early : bytes) : conn := new_conn true early e r.

(** What is moved into the incoming BIO before the protocol switch: the
    [StreamReader] buffer of a [StreamReaderProtocol], then the transport's
    own read buffer, when they hold anything. *)
Definition drain_early (stream_reader raw_buffer : option bytes) : bytes :=
  default [] stream_reader ++ default [] raw_buffer.

Definition _f : M unit := push_outgoing cb.

#[local] Instance iface : SSPInterface := {|
  ssp_f := _f; up := cb; shutdown_timeout := ssl_shutdown_timeout;
  has_loop := true; cipher_fuel := rounds |}.

Definition get_buffer (n : Z) : M bytes := get_buffer_body n.

Definition _h : M unit :=
  try_else (engine eng_handshake)
    (orelse (except (fun e => bool_decide (e = SSLWantReadError)) (fun _ => _f))
    (orelse (except (fun e => bool_decide (e = SSLWantWriteError)) (fun _ => _f))
            (except is_Exception (fun exc =>
               self c_running <- false ;;;
               resolve_waiter (WException exc) ;;;
               raw_t_ cb RClose))))
    (fun _ =>
       self c_hs <- true ;;;
       resolve_waiter WResult ;;;
       _f).

(** The read loop runs [while self._running]; nothing in it changes the flag. *)
Definition _r : M unit :=
  running <- gets c_running ;;
  if (running : bool) then
    fuel <- gets read_fuel ;;
    res <- read_chunks fuel [] ;;
    when (negb (bool_decide (res.1 = [])))
      (guarded cb_message (call_app_ app (ADataReceived (concat res.1))))
  else ret tt.

Definition buffer_updated (n : Z) : M unit :=
  try_except
    (feed n ;;;
     closing <- wrapper_closing ;;
     if (closing : bool) then _start_shutdown
     else hs <- gets c_hs ;; if (hs : bool) then _r else _h)
    (except is_Exception (fun _ =>
       logger_exception "Unhandled exception in SSL pipe buffer_updated" ;;;
       self c_running <- false ;;;
       raw_t_ cb RClose)).

Definition connection_made : M unit := attach ;;; _h.

(** [e or ConnectionResetError()] *)
Definition connection_lost (e : option exn) : M unit :=
  self c_running <- false ;;;
  guarded cb_message (call_app_ app (AConnectionLost e)) ;;;
  resolve_waiter (WException (default ConnectionResetError e)).

Definition eof_received : M bool :=
  try_except (call_app app AEofReceived)
    (except is_Exception (fun _ =>
       logger_exception "Unhandled exception in SSL pipe eof_received" ;;;
       ret false)).

Definition pause_writing : M unit := pause_writing_body app ap_has_pause.

Definition resume_writing : M unit :=
  resume_app app ap_has_resume ;;;
  hw <- gets c_has_wrapper ;;
  when hw _flush_write_buffer ;;;
  _f.

Definition proto : ssl_proto := {|
  sp_iface := iface;
  sp_buffer_updated := buffer_updated;
  sp_connection_made := connection_made;
  sp_connection_lost := connection_lost;
  sp_eof_received := eof_received;
  sp_pause_writing := pause_writing;
  sp_resume_writing := resume_writing |}.
End Methods.

(** *** The coroutine up to its [await] *)

Section Setup.

(** What it asks of the context, the transport and the loop. *)
Inductive setup_call : Type :=
| WrapBio (server_side : bool) (server_hostname : option string)
| PauseReading
| SetProtocol                       (* transport.set_protocol(ssl_protocol) *)
| CallSoonConnectionMade            (* call_soon(ssl_protocol.connection_made, transport) *)
| CallSoonResumeReading.            (* call_soon(transport.resume_reading) *)

(** The buffers the switch looks at - the stream reader's of a
    [StreamReaderProtocol], the transport's [_buffer] and [buffer] when it has
    them -, the incoming BIO, the calls made and the errors logged. *)
Record setup : Type := MkSetup {
  su_reader : option bytes;
  su__buffer : option bytes;
  su_buffer : option bytes;
  su_incoming : bytes;
  su_calls : list setup_call;
  su_logged : nat }.

#[export] Instance setup_eta : Eta setup := fun s =>
  MkSetup (su_reader s) (su__buffer s) (su_buffer s) (su_incoming s) (su_calls s) (su_logged s).

(** The exception a call ends with, and one of [bytes(raw_buffer)]. *)
Variable call_fails : setup_call -> option exn.
Variable copy_fails : option exn.

Definition setup_do (k : setup_call) : PyM setup unit :=
  modify (fun s => s <| su_calls := su_calls s ++ [k] |>) ;;;
  match call_fails k with Some e => raise e | None => ret tt end.

Definition incoming_feed (d : bytes) : PyM setup unit :=
  modify (fun s => s <| su_incoming := su_incoming s ++ d |>).

Definition nonempty (b : option bytes) : bool :=
  match b with Some (_ :: _) => true | _ => false end.

Definition drain_reader : PyM setup unit :=
  b <- gets su_reader ;;
  match b with
  | Some (x :: d) =>
      incoming_feed (x :: d) ;;;
      modify (fun s => s <| su_reader := Some [] |>)
  | _ => ret tt
  end.

(** [getattr(transport, "_buffer", None) or getattr(transport, "buffer", None)],
    moved when it holds anything. *)
Definition drain_raw : PyM setup unit :=
  b1 <- gets su__buffer ;;
  b2 <- gets su_buffer ;;
  let d := default [] (if nonempty b1 then b1 else b2) in
  when (negb (bool_decide (d = [])))
    (try_except
      (match copy_fails with Some e => raise e | None => ret tt end ;;;
       modify (fun s => if nonempty b1 then s <| su__buffer := Some [] |>
                        else s <| su_buffer := Some [] |>) ;;;
       incoming_feed d)
      (except is_Exception (fun _ => modify (fun s => s <| su_logged := S (su_logged s) |>)))).

Definition start_tls_setup (is_SSLContext server_side : bool) (server_hostname : option string)
    : PyM setup unit :=
  if negb is_SSLContext
  then raise (TypeError "sslcontext is expected to be an instance of ssl.SSLContext")
  else
    setup_do (WrapBio server_side server_hostname) ;;;
    drain_reader ;;;
    drain_raw ;;;
    setup_do PauseReading ;;;
    setup_do SetProtocol ;;;
    setup_do CallSoonConnectionMade ;;;
    setup_do CallSoonResumeReading.

(** The bytes read before the switch. *)
Definition early_bytes (s : setup) : bytes :=
  drain_early (su_reader s) (if nonempty (su__buffer s) then su__buffer s else su_buffer s).
End Setup.

Section Coroutine.
Context {EI : SSLEngine} {RI : RawTransport}.
Variable cb : raw_cb -> M unit.

(** [ssl_handshake_timeout or 60] *)
Definition handshake_timeout (t : option Q) : Q :=
  match t with
  | Some q => if Qeq_bool q 0 then 60 # 1 else q
  | None => 60 # 1
  end.

(** [await asyncio.wait_for(waiter, ...)] ended with [o]. *)
Definition after_await (o : outcome unit) : M bool :=
  try_except (match o with Ret u => ret u | Raise e => raise e end)
    (except is_BaseException (fun e =>
       transport_call cb RClose ;;;
       raise e)) ;;;
  gets c_has_wrapper.
End Coroutine.

(** When nothing fails, the bytes read before the switch are in the incoming
    BIO in the order they arrived - the stream reader's first -, none of them
    stays where the old protocol could see it, reading is paused before the
    protocol is replaced, and [connection_made] is scheduled before reading
    resumes.  A wrong context is refused before anything is touched. *)
Lemma start_tls_setup_moves server_side hostname s :
  start_tls_setup (fun _ => None) None true server_side hostname s
  = (Ret tt,
     s <| su_incoming := su_incoming s ++ early_bytes s |>
       <| su_reader := match su_reader s with Some _ => Some [] | None => None end |>
       <| su__buffer := if nonempty (su__buffer s) then Some [] else su__buffer s |>
       <| su_buffer := if nonempty (su__buffer s) then su_buffer s
                       else match su_buffer s with Some _ => Some [] | None => None end |>
       <| su_calls := su_calls s ++ [WrapBio server_side hostname; PauseReading; SetProtocol;
                                     CallSoonConnectionMade; CallSoonResumeReading] |>).
Proof.
  destruct s as [[[|r1 r]|] [[|b1 b]|] [[|c1 c]|] inc calls lg]; unfold early_bytes, drain_early;
    cbn; rewrite ?app_nil_r, <- ?app_assoc; reflexivity.
Qed.

Lemma start_tls_setup_refuses server_side hostname call_fails copy_fails s :
  start_tls_setup call_fails copy_fails false server_side hostname s
  = (Raise (TypeError "sslcontext is expected to be an instance of ssl.SSLContext"), s).
Proof. reflexivity. Qed.
End StartTLS.

(** ** [_SP] keeps the ciphertext stream over a transport that takes every write

    Its [_f] has no handler for the paused error. *)

Section StartTLSReady.
Context {EI : SSLEngine} {RI : RawTransport} {RL : RawTransportLaws RI} {RR : RawReliable RI}.
Variables (ap_has_pause ap_has_resume : bool).
Variables (ssl_shutdown_timeout : option Q) (rounds : nat).
Variable app : app_event -> M bool.
Variable cb : raw_cb -> M unit.
Hypothesis app_ready : forall e, keeps ready (app e).
Hypothesis cb_ready : forall b, keeps ready (cb b).
Hypothesis cb_not_paused :
  never (fun e => is_paused_error e = true) (cb CbPauseWriting).
#[local] Hint Resolve app_ready cb_ready : keeps.

Lemma keeps_ready_tls_f : keeps ready (StartTLS._f cb).
Proof. by apply keeps_ready_push_outgoing. Qed.
#[local] Hint Resolve keeps_ready_tls_f : keeps.

#[local] Instance tls_iface_ready :
  SSPReady (StartTLS.iface ssl_shutdown_timeout rounds cb).
Proof. split; [apply keeps_ready_tls_f | exact cb_ready | exact cb_not_paused]. Qed.

Lemma keeps_ready_tls_close : keeps ready (raw_t_ cb RClose).
Proof.
  apply keeps_bind; [|intros; apply keeps_ret].
  apply keeps_ready_raw; [exact cb_ready | discriminate].
Qed.
#[local] Hint Resolve keeps_ready_tls_close : keeps.

Lemma keeps_ready_tls_h : keeps ready (StartTLS._h cb).
Proof. unfold StartTLS._h. keeps_tac. Qed.
#[local] Hint Resolve keeps_ready_tls_h : keeps.

Lemma tls_ready : ProtoReady
  (StartTLS.proto ap_has_pause ap_has_resume ssl_shutdown_timeout rounds app cb).
Proof.
  split; cbn [sp_iface sp_buffer_updated sp_connection_made sp_connection_lost
              sp_eof_received sp_pause_writing sp_resume_writing StartTLS.proto].
  - exact tls_iface_ready.
  - intros c Hc. apply keeps_ready_tls_h, ready_attach, Hc.
  - intros n. unfold StartTLS.buffer_updated, StartTLS._r, wrapper_closing,
      logger_exception. keeps_tac.
  - intros e. unfold StartTLS.connection_lost. keeps_tac.
  - unfold StartTLS.eof_received, logger_exception. keeps_tac.
  - apply keeps_ready_pause_body; exact app_ready.
  - apply pause_body_not_paused.
  - unfold StartTLS.resume_writing. keeps_tac.
Qed.
End StartTLSReady.
