(* ===== verification/SSLServer.v ===== *)
(** * [Loop._create_ssl_server]: the protocol [SSP] (loop.py 1161-1306)

    One [SSP] object serves one accepted connection: the native server calls the
    class as its protocol factory. *)

From stdpp Require Import base list strings gmap.
From Stdlib Require Import Strings.Byte QArith.
From S2P Require Import Prelude SSLConn SSLWrapper SSLProto.

Close Scope Q_scope.
Import SSLTransportWrapper.

Module SSP.
Section Methods.
Context {EI : SSLEngine} {RI : RawTransport}.
Variables (ap_has_pause ap_has_resume : bool).
Variables (ssl_shutdown_timeout : option Q) (rounds : nat).
(** how the user's [protocol_factory()] ends *)
Variable protocol_factory : outcome unit.
Variable app : app_event -> M bool.
Variable cb : raw_cb -> M unit.

Definition init (e : eng) (r : raw) : conn := new_conn false [] e r.

(** a call on [self._ap], an attribute only [connection_made] sets *)
Definition call_ap (e : app_event) : M unit :=
  has_ap <- gets c_has_ap ;;
  if (has_ap : bool) then call_app_ app e else raise AttributeError.

Definition _f : M unit := push_outgoing cb.

#[local] Instance iface : SSPInterface := {|
  ssp_f := _f; up := cb; shutdown_timeout := ssl_shutdown_timeout;
  has_loop := true; cipher_fuel := rounds |}.

Definition get_buffer (n : Z) : M bytes := get_buffer_body n.

Definition _h : M unit :=
  try_else (engine eng_handshake)
    (orelse (except (fun e => bool_decide (e = SSLWantReadError)) (fun _ => _f))
    (orelse (except (fun e => bool_decide (e = SSLWantWriteError)) (fun _ => _f))
            (except is_Exception (fun _ =>
               logger_exception
                 "Unhandled exception during SSL handshake in SSLProtocolSource" ;;;
               raw_t_ cb RClose))))
    (fun _ =>
       self c_hs <- true ;;;
       _f ;;;
       call_ap AConnectionMade).

Definition _r : M unit :=
  fuel <- gets read_fuel ;;
  res <- read_chunks fuel [] ;;
  when (negb (bool_decide (res.1 = []))) (call_ap (ADataReceived (concat res.1))) ;;;
  when res.2
    (guarded "Unhandled exception in app_protocol.eof_received"
       (call_ap AEofReceived) ;;;
     hw <- gets c_has_wrapper ;;
     when hw _start_shutdown).

Definition buffer_updated (n : Z) : M unit :=
  feed n ;;;
  closing <- wrapper_closing ;;
  if (closing : bool) then _start_shutdown
  else hs <- gets c_hs ;; if (hs : bool) then _r else _h.

Definition connection_made : M unit :=
  self c_has_raw <- true ;;;
  (match protocol_factory with Ret u => ret u | Raise e => raise e end) ;;;
  self c_has_ap <- true ;;;
  attach ;;;
  _h.

Definition connection_lost (e : option exn) : M unit := call_ap (AConnectionLost e).

Definition eof_received : M bool := call_ap AEofReceived ;;; ret false.

Definition pause_writing : M unit := pause_writing_body app ap_has_pause.

Definition resume_writing : M unit :=
  resume_app app ap_has_resume ;;;
  hw <- gets c_has_wrapper ;;
  when hw _flush_write_buffer ;;;
  _f.

Definition proto : ssl_proto := {|
  sp_iface := iface;
  sp_buffer_updated := buffer_updated;
  sp_connection_made := connection_made;
  sp_connection_lost := connection_lost;
  sp_eof_received := eof_received;
  sp_pause_writing := pause_writing;
  sp_resume_writing := resume_writing |}.
End Methods.
End SSP.

(** ** [SSP] keeps the ciphertext stream over a transport that takes every write *)

Section SSPServerReady.
Context {EI : SSLEngine} {RI : RawTransport} {RL : RawTransportLaws RI} {RR : RawReliable RI}.
Variables (ap_has_pause ap_has_resume : bool).
Variables (ssl_shutdown_timeout : option Q) (rounds : nat).
Variable protocol_factory : outcome unit.
Variable app : app_event -> M bool.
Variable cb : raw_cb -> M unit.
Hypothesis app_ready : forall e, keeps ready (app e).
Hypothesis cb_ready : forall b, keeps ready (cb b).
Hypothesis cb_not_paused :
  never (fun e => is_paused_error e = true) (cb CbPauseWriting).
#[local] Hint Resolve app_ready cb_ready : keeps.

Lemma keeps_ready_ssp_f : keeps ready (SSP._f cb).
Proof. by apply keeps_ready_push_outgoing. Qed.
#[local] Hint Resolve keeps_ready_ssp_f : keeps.

#[local] Instance ssp_iface_ready :
  SSPReady (SSP.iface ssl_shutdown_timeout rounds cb).
Proof. split; [apply keeps_ready_ssp_f | exact cb_ready | exact cb_not_paused]. Qed.

Lemma keeps_ready_ssp_close : keeps ready (raw_t_ cb RClose).
Proof.
  apply keeps_bind; [|intros; apply keeps_ret].
  apply keeps_ready_raw; [exact cb_ready | discriminate].
Qed.
#[local] Hint Resolve keeps_ready_ssp_close : keeps.

Lemma keeps_ready_ssp_call e : keeps ready (SSP.call_ap app e).
Proof. unfold SSP.call_ap. keeps_tac. Qed.
#[local] Hint Resolve keeps_ready_ssp_call : keeps.

Lemma keeps_ready_ssp_h : keeps ready (SSP._h app cb).
Proof. unfold SSP._h, logger_exception. keeps_tac. Qed.
#[local] Hint Resolve keeps_ready_ssp_h : keeps.

Lemma ssp_made_ready c : ordered c ->
  ready (SSP.connection_made protocol_factory app cb c).2.
Proof.
  intros Hc. unfold SSP.connection_made.
  assert (H1 : ready (c <| c_has_raw := true |>)) by (by split).
  unfold bind at 1, modify at 1. revert H1. generalize (c <| c_has_raw := true |>).
  assert (keeps ready attach) by (unfold attach; keeps_tac; by intros ? []).
  change (keeps ready
    ((match protocol_factory with Ret u => ret u | Raise e => raise e end) ;;;
     self c_has_ap <- true ;;; attach ;;; SSP._h app cb)).
  keeps_tac.
Qed.

Lemma ssp_ready : ProtoReady
  (SSP.proto ap_has_pause ap_has_resume ssl_shutdown_timeout rounds
     protocol_factory app cb).
Proof.
  split; cbn [sp_iface sp_buffer_updated sp_connection_made sp_connection_lost
              sp_eof_received sp_pause_writing sp_resume_writing SSP.proto].
  - exact ssp_iface_ready.
  - apply ssp_made_ready.
  - intros n. unfold SSP.buffer_updated, SSP._r, wrapper_closing. keeps_tac.
  - intros e. unfold SSP.connection_lost. keeps_tac.
  - unfold SSP.eof_received. keeps_tac.
  - apply keeps_ready_pause_body; exact app_ready.
  - apply pause_body_not_paused.
  - unfold SSP.resume_writing. keeps_tac.
Qed.
End SSPServerReady.
