(* ===== verification/SSLUnix.v ===== *)
(** * TLS over unix sockets: [_create_ssl_unix_connection] and
    [_create_ssl_unix_server] (loop.py 1369-1544 and 1575-1675) *)

From stdpp Require Import base list strings gmap.
From Stdlib Require Import Strings.Byte QArith.
From S2P Require Import Prelude SSLConn SSLWrapper SSLProto.

Close Scope Q_scope.
Import SSLTransportWrapper.

(** ** The client class [SP]: as over TCP, except that [_f] does not catch the
    paused error *)

Module UnixSP.
Section Methods.
Context {EI : SSLEngine} {RI : RawTransport}.
Variables (ap_has_pause ap_has_resume : bool).
Variables (ssl_shutdown_timeout : option Q) (rounds : nat).
Variable app : app_event -> M bool.
Variable cb : raw_cb -> M unit.

Definition init (e : eng) (r : raw) : conn := new_conn true [] e r.

Definition _f : M unit := push_outgoing cb.

#[local] Instance iface : SSPInterface := {|
  ssp_f := _f; up := cb; shutdown_timeout := ssl_shutdown_timeout;
  has_loop := true; cipher_fuel := rounds |}.

Definition get_buffer (n : Z) : M bytes := get_buffer_body n.

Definition _h : M unit :=
  try_else (engine eng_handshake)
    (orelse (except (fun e => bool_decide (e = SSLWantReadError)) (fun _ => _f))
    (orelse (except (fun e => bool_decide (e = SSLWantWriteError)) (fun _ => _f))
            (except is_Exception (fun exc => resolve_waiter (WException exc)))))
    (fun _ =>
       self c_hs <- true ;;;
       resolve_waiter WResult ;;;
       _f ;;;
       call_app_ app AConnectionMade).

Definition _r : M unit :=
  fuel <- gets read_fuel ;;
  res <- read_chunks fuel [] ;;
  when (negb (bool_decide (res.1 = []))) (call_app_ app (ADataReceived (concat res.1))) ;;;
  when res.2
    (guarded "Unhandled exception in app_protocol.eof_received"
       (call_app_ app AEofReceived) ;;;
     hw <- gets c_has_wrapper ;;
     when hw _start_shutdown).

Definition buffer_updated (n : Z) : M unit :=
  feed n ;;;
  closing <- wrapper_closing ;;
  if (closing : bool) then _start_shutdown
  else hs <- gets c_hs ;; if (hs : bool) then _r else _h.

Definition connection_made : M unit := attach ;;; _h.

Definition connection_lost (e : option exn) : M unit :=
  guarded cb_message (call_app_ app (AConnectionLost e)) ;;;
  self c_sslobj <- None ;;;
  self c_incoming <- None ;;;
  self c_outgoing <- None.

Definition eof_received : M bool :=
  try_except (call_app app AEofReceived)
    (except is_Exception (fun _ => ret false)).

Definition pause_writing : M unit := pause_writing_body app ap_has_pause.

Definition resume_writing : M unit :=
  resume_app app ap_has_resume ;;;
  hw <- gets c_has_wrapper ;;
  when hw _flush_write_buffer ;;;
  _f.

Definition proto : ssl_proto := {|
  sp_iface := iface;
  sp_buffer_updated := buffer_updated;
  sp_connection_made := connection_made;
  sp_connection_lost := connection_lost;
  sp_eof_received := eof_received;
  sp_pause_writing := pause_writing;
  sp_resume_writing := resume_writing |}.
End Methods.

Section Coroutine.
Context {EI : SSLEngine} {RI : RawTransport}.
Variable cb : raw_cb -> M unit.

(** [ssl_handshake_timeout or 60] *)
Definition handshake_timeout (t : option Q) : Q :=
  match t with
  | Some q => if Qeq_bool q 0 then 60 # 1 else q
  | None => 60 # 1
  end.

(** [await asyncio.wait_for(waiter, ...)] ended with [o]. *)
Definition after_await (o : outcome unit) : M bool :=
  try_except (match o with Ret u => ret u | Raise e => raise e end)
    (except is_BaseException (fun e =>
       transport_call cb RClose ;;;
       raise e)) ;;;
  gets c_has_wrapper.
End Coroutine.
End UnixSP.

(** ** The server class [SSP]: no flow-control methods of its own (it inherits
    the empty ones of [asyncio.BaseProtocol]), no shutdown retry on incoming
    data, and a read loop that hands over each chunk as it comes *)

Module UnixSSP.
Section Methods.
Context {EI : SSLEngine} {RI : RawTransport}.
Variables (ssl_shutdown_timeout : option Q) (rounds : nat).
Variable protocol_factory : outcome unit.
Variable app : app_event -> M bool.
Variable cb : raw_cb -> M unit.

Definition init (e : eng) (r : raw) : conn := new_conn false [] e r.

Definition call_ap (e : app_event) : M unit :=
  has_ap <- gets c_has_ap ;;
  if (has_ap : bool) then call_app_ app e else raise AttributeError.

Definition _f : M unit := push_outgoing cb.

#[local] Instance iface : SSPInterface := {|
  ssp_f := _f; up := cb; shutdown_timeout := ssl_shutdown_timeout;
  has_loop := true; cipher_fuel := rounds |}.

Definition get_buffer (n : Z) : M bytes := get_buffer_body n.

Definition _h : M unit :=
  try_else (engine eng_handshake)
    (orelse (except (fun e => bool_decide (e = SSLWantReadError)) (fun _ => _f))
    (orelse (except (fun e => bool_decide (e = SSLWantWriteError)) (fun _ => _f))
            (except is_Exception (fun _ =>
               logger_exception
                 "Unhandled exception during SSL handshake in SSLProtocolTransport" ;;;
               raw_t_ cb RClose))))
    (fun _ =>
       self c_hs <- true ;;;
       _f ;;;
       call_ap AConnectionMade).

(** [self._ap.data_received(d)] runs inside the loop, so a round may also
    change what the engine can serve; the rounds are granted by [rounds]. *)
Definition _r_step : M bool :=
  try_else (engine (eng_read buffer_size))
    (except is_SSLError (fun _ => ret false))
    (fun d => match d with
              | [] => ret false
              | _ :: _ => call_ap (ADataReceived d) ;;; ret true
              end).

Definition _r : M unit :=
  fuel <- gets read_fuel ;;
  loop (fuel + rounds) _r_step.

Definition buffer_updated (n : Z) : M unit :=
  feed n ;;;
  hs <- gets c_hs ;; if (hs : bool) then _r else _h.

Definition connection_made : M unit :=
  self c_has_raw <- true ;;;
  (match protocol_factory with Ret u => ret u | Raise e => raise e end) ;;;
  self c_has_ap <- true ;;;
  attach ;;;
  _h.

Definition connection_lost (e : option exn) : M unit := call_ap (AConnectionLost e).

Definition eof_received : M bool := call_ap AEofReceived ;;; ret false.

Definition proto : ssl_proto := {|
  sp_iface := iface;
  sp_buffer_updated := buffer_updated;
  sp_connection_made := connection_made;
  sp_connection_lost := connection_lost;
  sp_eof_received := eof_received;
  sp_pause_writing := ret tt;
  sp_resume_writing := ret tt |}.
End Methods.
End UnixSSP.

(** ** Both keep the ciphertext stream over a transport that takes every write *)

Section UnixReady.
Context {EI : SSLEngine} {RI : RawTransport} {RL : RawTransportLaws RI} {RR : RawReliable RI}.
Variables (ap_has_pause ap_has_resume : bool).
Variables (ssl_shutdown_timeout : option Q) (rounds : nat).
Variable protocol_factory : outcome unit.
Variable app : app_event -> M bool.
Variable cb : raw_cb -> M unit.
Hypothesis app_ready : forall e, keeps ready (app e).
Hypothesis cb_ready : forall b, keeps ready (cb b).
Hypothesis cb_not_paused :
  never (fun e => is_paused_error e = true) (cb CbPauseWriting).
#[local] Hint Resolve app_ready cb_ready : keeps.

Lemma keeps_ready_unix_f : keeps ready (push_outgoing cb).
Proof. by apply keeps_ready_push_outgoing. Qed.
#[local] Hint Resolve keeps_ready_unix_f : keeps.

#[local] Instance unix_sp_iface_ready :
  SSPReady (UnixSP.iface ssl_shutdown_timeout rounds cb).
Proof. split; [apply keeps_ready_unix_f | exact cb_ready | exact cb_not_paused]. Qed.

#[local] Instance unix_ssp_iface_ready :
  SSPReady (UnixSSP.iface ssl_shutdown_timeout rounds cb).
Proof. split; [apply keeps_ready_unix_f | exact cb_ready | exact cb_not_paused]. Qed.

Lemma keeps_ready_unix_sp_h : keeps ready (UnixSP._h app cb).
Proof. unfold UnixSP._h, UnixSP._f. keeps_tac. Qed.
#[local] Hint Resolve keeps_ready_unix_sp_h : keeps.

Lemma keeps_ready_unix_drop : keeps ready
  (self c_sslobj <- None ;;; self c_incoming <- None ;;; self c_outgoing <- None).
Proof.
  intros c [Hc Hr]. split; [|exact Hr]. intros Hd. specialize (Hc Hd).
  unfold stream_ok in *. cbn. destruct (c_outgoing c); [|exact Hc].
  rewrite Hc. by eexists.
Qed.
#[local] Hint Resolve keeps_ready_unix_drop : keeps.

Lemma unix_sp_ready : ProtoReady
  (UnixSP.proto ap_has_pause ap_has_resume ssl_shutdown_timeout rounds app cb).
Proof.
  split; cbn [sp_iface sp_buffer_updated sp_connection_made sp_connection_lost
              sp_eof_received sp_pause_writing sp_resume_writing UnixSP.proto].
  - exact unix_sp_iface_ready.
  - intros c Hc. apply keeps_ready_unix_sp_h, ready_attach, Hc.
  - intros n. unfold UnixSP.buffer_updated, UnixSP._r, wrapper_closing. keeps_tac.
  - intros e. unfold UnixSP.connection_lost. keeps_tac.
  - unfold UnixSP.eof_received. keeps_tac.
  - apply keeps_ready_pause_body; exact app_ready.
  - apply pause_body_not_paused.
  - unfold UnixSP.resume_writing, UnixSP._f. keeps_tac.
Qed.

Lemma keeps_ready_unix_close : keeps ready (raw_t_ cb RClose).
Proof.
  apply keeps_bind; [|intros; apply keeps_ret].
  apply keeps_ready_raw; [exact cb_ready | discriminate].
Qed.
#[local] Hint Resolve keeps_ready_unix_close : keeps.

Lemma keeps_ready_unix_ssp_call e : keeps ready (UnixSSP.call_ap app e).
Proof. unfold UnixSSP.call_ap. keeps_tac. Qed.
#[local] Hint Resolve keeps_ready_unix_ssp_call : keeps.

Lemma keeps_ready_unix_ssp_h : keeps ready (UnixSSP._h app cb).
Proof. unfold UnixSSP._h, UnixSSP._f, logger_exception. keeps_tac. Qed.
#[local] Hint Resolve keeps_ready_unix_ssp_h : keeps.

Lemma unix_ssp_made_ready c : ordered c ->
  ready (UnixSSP.connection_made protocol_factory app cb c).2.
Proof.
  intros Hc. unfold UnixSSP.connection_made.
  assert (H1 : ready (c <| c_has_raw := true |>)) by (by split).
  unfold bind at 1, modify at 1. revert H1. generalize (c <| c_has_raw := true |>).
  assert (keeps ready attach) by (unfold attach; keeps_tac; by intros ? []).
  change (keeps ready
    ((match protocol_factory with Ret u => ret u | Raise e => raise e end) ;;;
     self c_has_ap <- true ;;; attach ;;; UnixSSP._h app cb)).
  keeps_tac.
Qed.

Lemma unix_ssp_ready : ProtoReady
  (UnixSSP.proto ssl_shutdown_timeout rounds protocol_factory app cb).
Proof.
  split; cbn [sp_iface sp_buffer_updated sp_connection_made sp_connection_lost
              sp_eof_received sp_pause_writing sp_resume_writing UnixSSP.proto].
  - exact unix_ssp_iface_ready.
  - apply unix_ssp_made_ready.
  - intros n. unfold UnixSSP.buffer_updated, UnixSSP._r, UnixSSP._r_step. keeps_tac.
  - intros e. unfold UnixSSP.connection_lost. keeps_tac.
  - unfold UnixSSP.eof_received. keeps_tac.
  - apply keeps_ret.
  - by intros c e.
  - apply keeps_ret.
Qed.
End UnixReady.
