(* ===== verification/SSLExample.v ===== *)
(** * Concrete parameters for the TLS layer

    An engine whose answers are scripted, and a transport that refuses writes
    while it is paused: the instances the TLS theorems are evaluated on.  The
    other transport they are evaluated on is [StreamTransport.native_transport]. *)

From stdpp Require Import base list strings gmap.
From Stdlib Require Import Strings.Byte.
From S2P Require Import Prelude SSLConn StreamTransport SSLWrapper SSLProto SSLClient.

(** ** A null cipher with scripted answers *)

Inductive eng_act : Type := Accept (n : nat) | WantRead | WantWrite | Fatal.

Record null_eng : Type := NullEng { ne_writes : list eng_act; ne_unwraps : list eng_act }.

Definition act_error (a : eng_act) : option exn :=
  match a with
  | Accept _ => None
  | WantRead => Some SSLWantReadError
  | WantWrite => Some SSLWantWriteError
  | Fatal => Some (SSLError 0)
  end.

Definition null_write (d inc : bytes) (e : null_eng) : eng_out null_eng nat :=
  match ne_writes e with
  | [] => EngOut (Ret (length d)) e inc d
  | a :: w =>
      let e' := NullEng w (ne_unwraps e) in
      match a with
      | Accept n => EngOut (Ret (Nat.min n (length d))) e' inc (take n d)
      | _ => EngOut (Raise (default (SSLError 0) (act_error a))) e' inc []
      end
  end.

Definition null_read (n : N) (inc : bytes) (e : null_eng) : eng_out null_eng bytes :=
  match inc with
  | [] => EngOut (Raise SSLWantReadError) e inc []
  | _ => EngOut (Ret (take (Nat.max 1 (N.to_nat n)) inc)) e (drop (Nat.max 1 (N.to_nat n)) inc) []
  end.

Definition null_handshake (inc : bytes) (e : null_eng) : eng_out null_eng unit :=
  EngOut (Ret tt) e inc [x16].

Definition null_unwrap (inc : bytes) (e : null_eng) : eng_out null_eng unit :=
  match ne_unwraps e with
  | [] => EngOut (Ret tt) e inc [x15]
  | a :: w =>
      EngOut (match act_error a with None => Ret tt | Some x => Raise x end)
        (NullEng (ne_writes e) w) inc [x15]
  end.

#[export] Instance null_engine : SSLEngine := {|
  eng := null_eng;
  eng_write := null_write;
  eng_read := null_read;
  eng_handshake := null_handshake;
  eng_unwrap := null_unwrap;
  eng_pending := fun inc _ => length inc |}.

#[export] Instance null_engine_laws : SSLEngineLaws null_engine.
Proof.
  split.
  - intros d inc e n. cbn. unfold null_write. destruct (ne_writes e) as [|[] w]; cbn;
      intros [= <-]; lia.
  - intros n inc e d. cbn. unfold null_read. destruct inc as [|b inc]; cbn [eo_res eo_incoming eo_eng]; [discriminate|].
    intros _ _. rewrite length_drop. cbn [length]. lia.
  - intros d inc e. cbn. unfold null_write. by destruct (ne_writes e) as [|[] w].
  - intros n inc e. cbn. unfold null_read. by destruct inc.
  - by intros inc e.
  - intros inc e. cbn. unfold null_unwrap. by destruct (ne_unwraps e) as [|[] w].
Qed.

(** ** A transport that refuses writes while paused *)

Definition refusing_call (op : raw_op) (paused : bool) : raw_out bool :=
  match op with
  | RWrite _ =>
      if paused then RawOut (Raise (RuntimeError paused_message)) [] paused
      else RawOut (Ret VNone) [] paused
  | _ => RawOut (Ret VNone) [] paused
  end.

Definition refusing_transport : RawTransport := {|
  raw := bool; raw_call := refusing_call; raw_dead := fun _ => false |}.

#[export] Instance refusing_laws : RawTransportLaws refusing_transport.
Proof.
  split.
  - intros d [] e _; cbn; [|discriminate]. intros [= <-]. reflexivity.
  - discriminate.
  - intros [] []; discriminate.
  - intros d [] c; cbn; set_solver.
Qed.

(** ** A connection on the native transport *)

Definition native : RawTransport := StreamTransport.native_transport (fun _ => None).
#[export] Instance native_is_lawful : RawTransportLaws native :=
  StreamTransport.native_laws _.
#[export] Instance native_is_reliable : RawReliable native :=
  StreamTransport.native_reliable _.

(** An application that only notes the pause. *)
Definition quiet_cb (b : raw_cb) : PyM (conn (EI:=null_engine) (RI:=native)) unit :=
  match b with
  | CbPauseWriting => self c_paused <- true
  | CbResumeWriting => self c_paused <- false
  end.

Definition demo_iface : SSPInterface (EI:=null_engine) (RI:=native) :=
  SP.iface None 2 quiet_cb.

(** An attached connection whose engine answers [acts] to its writes. *)
Definition demo_conn (acts : list eng_act) : conn (EI:=null_engine) (RI:=native) :=
  (attach (SP.init (EI:=null_engine) (RI:=native) (NullEng acts [])
             StreamTransport.new_stream)).2.
