(* ===== verification/SSLStable.v ===== *)
(** * Invariants of the observable history of a TLS connection

    The wrapper and the flow-control upcalls only append to the history and
    never run the handshake.  [Stable] is the interface of an invariant that
    cannot tell more than that; every wrapper method, every upcall of the closed
    system and the methods of [SP] that do not touch the handshake keep it. *)

From stdpp Require Import base list strings gmap.
From Stdlib Require Import Strings.Byte QArith.
From S2P Require Import Prelude SSLConn SSLWrapper SSLProto SSLClient.

Close Scope Q_scope.
Import SSLTransportWrapper.

(** The two upcalls only the handshake and the read loop make. *)
Definition is_made_or_data (a : app_event) : bool :=
  match a with AConnectionMade | ADataReceived _ => true | _ => false end.

Definition quiet (e : event) : bool :=
  match e with EvApp a => negb (is_made_or_data a) | _ => true end.

Section Stable.
Context {EI : SSLEngine} {RI : RawTransport}.

Class Stable (I : conn -> Prop) : Prop := {
  stable_frame : forall c c',
    c_log c' = c_log c -> c_hs c' = c_hs c -> c_has_raw c' = c_has_raw c ->
    I c -> I c';
  stable_log : forall e c,
    quiet e = true -> I c -> I (c <| c_log := c_log c ++ [e] |>)
}.

Section Primitives.
Context {I : conn -> Prop} {SI : Stable I}.

Lemma stable_append l c c' :
  forallb quiet l = true -> c_log c' = c_log c ++ l -> c_hs c' = c_hs c ->
  c_has_raw c' = c_has_raw c -> I c -> I c'.
Proof.
  revert c c'. induction l as [|e l IH]; intros c c' Hq Hl Hh Hr Hc.
  - rewrite app_nil_r in Hl. exact (stable_frame c c' Hl Hh Hr Hc).
  - apply andb_prop in Hq as [He Hq].
    apply (IH (c <| c_log := c_log c ++ [e] |>) c' Hq); [|exact Hh|exact Hr|].
    + rewrite Hl. exact (app_assoc _ [e] l).
    + by apply stable_log.
Qed.

Lemma keeps_stable_log e : quiet e = true -> keeps I (log e).
Proof. intros He c Hc. by apply (stable_log e c He). Qed.

Lemma keeps_stable_frame f :
  (forall c, c_log (f c) = c_log c /\ c_hs (f c) = c_hs c /\
             c_has_raw (f c) = c_has_raw c) -> keeps I (modify f).
Proof.
  intros Hf c Hc. destruct (Hf c) as (Hl & Hh & Hr).
  exact (stable_frame c (f c) Hl Hh Hr Hc).
Qed.

Lemma keeps_stable_engine {A} (op : bytes -> eng -> eng_out eng A) :
  keeps I (engine op).
Proof.
  intros c Hc. unfold engine. destruct (c_sslobj c) as [e|].
  - cbn. destruct (eo_res (op (default [] (c_incoming c)) e));
      (eapply (stable_append _ c); [|reflexivity|reflexivity|reflexivity|exact Hc]); reflexivity.
  - eapply (stable_append _ c); [|reflexivity|reflexivity|reflexivity|exact Hc]. reflexivity.
Qed.

Lemma keeps_stable_outgoing_read : keeps I outgoing_read.
Proof.
  intros c Hc. unfold outgoing_read. destruct (c_outgoing c); [|exact Hc].
  by apply (stable_frame (I:=I) c).
Qed.

Lemma keeps_stable_outgoing_write d : keeps I (outgoing_write d).
Proof.
  intros c Hc. unfold outgoing_write. destruct (c_outgoing c); [|exact Hc].
  by apply (stable_frame (I:=I) c).
Qed.

Lemma keeps_stable_incoming_write d : keeps I (incoming_write d).
Proof.
  intros c Hc. unfold incoming_write. destruct (c_incoming c); [|exact Hc].
  by apply (stable_frame (I:=I) c).
Qed.

Lemma keeps_stable_raw up op : (forall b, keeps I (up b)) -> keeps I (raw_t up op).
Proof.
  intros Hu c Hc. unfold raw_t. destruct (c_has_raw c); [|exact Hc].
  destruct (ro_res _) as [v|e]; [|by apply (stable_frame (I:=I) c)].
  apply keeps_bind; [by apply keeps_for_each | intros; apply keeps_ret |].
  eapply (stable_append _ c); [|reflexivity|reflexivity|reflexivity|exact Hc]. reflexivity.
Qed.

Lemma keeps_stable_raw_ up op : (forall b, keeps I (up b)) -> keeps I (raw_t_ up op).
Proof.
  intros Hu. apply keeps_bind; [by apply keeps_stable_raw | intros; apply keeps_ret].
Qed.
End Primitives.
End Stable.

Create HintDb stable.
#[export] Hint Resolve keeps_stable_engine keeps_stable_outgoing_read
  keeps_stable_outgoing_write keeps_stable_incoming_write keeps_stable_raw
  keeps_stable_raw_ : stable.
#[export] Hint Resolve keeps_ret keeps_raise keeps_gets : stable.
#[export] Hint Extern 2 (keeps _ (modify _)) =>
  apply keeps_stable_frame; intros ?; repeat split : stable.
#[export] Hint Extern 2 (keeps _ (log _)) =>
  apply keeps_stable_log; reflexivity : stable.
#[export] Hint Extern 0 (Stable _) => typeclasses eauto : stable.

Ltac stable_tac :=
  repeat (first [ solve [eauto with stable]
                | progress handler_cases
                | keeps_step ]).

(** ** The wrapper *)

Section Wrapper.
Context {EI : SSLEngine} {RI : RawTransport} {PI : SSPInterface}.
Context {I : conn -> Prop} {SI : Stable I}.
Hypothesis f_keeps : keeps I ssp_f.
Hypothesis up_keeps : forall b, keeps I (up b).
#[local] Hint Resolve f_keeps up_keeps : stable.

Lemma keeps_stable_sslobj_write d : keeps I (sslobj_write d).
Proof. unfold sslobj_write. stable_tac. Qed.
#[local] Hint Resolve keeps_stable_sslobj_write : stable.

Lemma keeps_stable_write d : keeps I (write d).
Proof. unfold write, buffer_append, schedule_fatal, loop_usable. stable_tac. Qed.

Lemma keeps_stable_flush_plain n : keeps I (flush_plain n).
Proof.
  induction n as [|n IH]; cbn; [apply keeps_raise|].
  unfold flush_plain_step, buffer_appendleft, schedule_fatal, loop_usable. stable_tac.
Qed.
#[local] Hint Resolve keeps_stable_flush_plain : stable.

Lemma keeps_stable_flush : keeps I _flush_write_buffer.
Proof. unfold _flush_write_buffer, flush_cipher_step. stable_tac. Qed.
#[local] Hint Resolve keeps_stable_flush : stable.

Lemma keeps_stable_force_close : keeps I _force_close.
Proof. unfold _force_close. stable_tac. Qed.
#[local] Hint Resolve keeps_stable_force_close : stable.

Lemma keeps_stable_start_shutdown : keeps I _start_shutdown.
Proof.
  unfold _start_shutdown, shutdown_wants, loop_usable, logger_exception. stable_tac.
Qed.
#[local] Hint Resolve keeps_stable_start_shutdown : stable.

Lemma keeps_stable_close : keeps I close.
Proof. unfold close. stable_tac. Qed.
End Wrapper.

#[export] Hint Resolve keeps_stable_write keeps_stable_flush keeps_stable_force_close
  keeps_stable_start_shutdown keeps_stable_close : stable.

(** ** The closed system *)

(** A class whose own steps keep [I] given upcalls that do. *)
Class ProtoKeeps {EI : SSLEngine} {RI : RawTransport} (I : conn -> Prop)
    (p : ssl_proto) : Prop := {
  pk_f : keeps I (@ssp_f _ _ (sp_iface p));
  pk_up : forall b, keeps I (@up _ _ (sp_iface p) b);
  pk_pause : keeps I (sp_pause_writing p);
  pk_resume : keeps I (sp_resume_writing p)
}.

Section System.
Context {EI : SSLEngine} {RI : RawTransport}.
Context {I : conn -> Prop} {SI : Stable I}.

Lemma keeps_stable_action p a : ProtoKeeps I p -> keeps I (run_action p a).
Proof.
  intros [Hf Hu _ _]. unfold run_action, abort, write_eof, pause_reading,
    resume_reading, set_write_buffer_limits.
  apply keeps_bind; [apply keeps_gets|]. intros []; [|apply keeps_ret].
  apply keeps_when. intros _. destruct a; auto with stable.
Qed.

Variable variant : (app_event -> M bool) -> (raw_cb -> M unit) -> ssl_proto.
Variable script : list event -> app_event -> list user_action * outcome bool.
Hypothesis variant_keeps : forall app cb,
  (forall e, keeps I (app e)) -> (forall b, keeps I (cb b)) ->
  ProtoKeeps I (variant app cb).

Lemma keeps_stable_script p e : ProtoKeeps I p -> keeps I (run_script script p e).
Proof.
  intros HP c Hc. unfold run_script. destruct (script (c_log c) e) as [acts o].
  revert c Hc. change (keeps I (for_each acts (run_action p) ;;;
    match o with Ret b => ret b | Raise x => raise x end)).
  apply keeps_bind; [apply keeps_for_each; intros; by apply keeps_stable_action|].
  intros []. destruct o; [apply keeps_ret | apply keeps_raise].
Qed.

Lemma upcalls_keep n :
  (forall e, keeps I ((upcalls variant script n).1 e)) /\
  (forall b, keeps I ((upcalls variant script n).2 b)).
Proof.
  induction n as [|n [IH1 IH2]]; cbn.
  - split; intros; apply keeps_raise.
  - pose proof (variant_keeps _ _ IH1 IH2) as HP. split.
    + intros e. by apply keeps_stable_script.
    + intros []; apply HP.
Qed.

Lemma proto_at_keeps n : ProtoKeeps I (proto_at variant script n).
Proof. destruct (upcalls_keep n). by apply variant_keeps. Qed.
End System.

(** ** [SP] *)

Section Client.
Context {EI : SSLEngine} {RI : RawTransport}.
Context {I : conn -> Prop} {SI : Stable I}.
Variables (ap_has_pause ap_has_resume : bool).
Variables (ssl_shutdown_timeout : option Q) (rounds : nat).
Variable app : app_event -> M bool.
Variable cb : raw_cb -> M unit.
Hypothesis app_keeps : forall e, keeps I (app e).
Hypothesis cb_keeps : forall b, keeps I (cb b).
#[local] Hint Resolve app_keeps cb_keeps : stable.

Lemma keeps_stable_call_app e :
  is_made_or_data e = false -> keeps I (call_app app e).
Proof.
  intros He. unfold call_app. apply keeps_bind; [|auto].
  apply keeps_stable_log. cbn. by rewrite He.
Qed.

Lemma keeps_stable_call_app_ e :
  is_made_or_data e = false -> keeps I (call_app_ app e).
Proof.
  intros He. unfold call_app_. apply keeps_bind; [by apply keeps_stable_call_app|].
  intros; apply keeps_ret.
Qed.
#[local] Hint Extern 2 (keeps _ (call_app_ _ _)) =>
  apply keeps_stable_call_app_; reflexivity : stable.

Lemma keeps_stable_guarded msg m : keeps I m -> keeps I (guarded msg m).
Proof. intros. unfold guarded, logger_exception. stable_tac. Qed.
#[local] Hint Resolve keeps_stable_guarded : stable.

Lemma keeps_stable_sp_f : keeps I (SP._f cb).
Proof. unfold SP._f. stable_tac. Qed.
#[local] Hint Resolve keeps_stable_sp_f : stable.

Lemma sp_keeps :
  ProtoKeeps I (SP.proto ap_has_pause ap_has_resume ssl_shutdown_timeout rounds app cb).
Proof.
  split; cbn [sp_iface sp_pause_writing sp_resume_writing SP.proto ssp_f up SP.iface].
  - exact keeps_stable_sp_f.
  - exact cb_keeps.
  - unfold SP.pause_writing, pause_writing_body. stable_tac.
  - assert (Hfl : keeps I (@_flush_write_buffer _ _
      (SP.iface ssl_shutdown_timeout rounds cb))).
    { apply keeps_stable_flush; [exact keeps_stable_sp_f | exact cb_keeps]. }
    unfold SP.resume_writing, resume_app. stable_tac.
Qed.
End Client.
