(* ===== verification/SSLProps.v ===== *)
(** * Ciphertext order

    Ciphertext order for the five protocol classes, under every application, raw
    transport and sequence of events. *)

From stdpp Require Import base list strings gmap.
From Stdlib Require Import Strings.Byte QArith.
From S2P Require Import Prelude SSLConn StreamTransport SSLWrapper SSLProto SSLClient StartTLS SSLServer SSLUnix SSLStable SSLExample.

Close Scope Q_scope.
Import SSLTransportWrapper.

(** An application that writes when it is told to pause. *)
Definition chatty (l : list event) (e : app_event) : list user_action * outcome bool :=
  match e with
  | APauseWriting => ([UWrite [x0a]], Ret true)
  | AConnectionMade => ([UWrite [x01; x02]], Ret true)
  | _ => ([], Ret false)
  end.

(** ** Ciphertext order *)

Section CiphertextOrder.
Context {EI : SSLEngine} {RI : RawTransport} {RL : RawTransportLaws RI}.
Variables (ap_has_pause ap_has_resume : bool).
Variables (ssl_shutdown_timeout : option Q) (rounds : nat).
Variable script : list event -> app_event -> list user_action * outcome bool.

Lemma ordered_new has_ap early e r : ordered (new_conn has_ap early e r).
Proof. intros _. reflexivity. Qed.

(** C1: the client protocol of [_create_ssl_connection] sends the ciphertext
    in order.  For every engine, every transport that refuses a live write only
    because writing is paused ([RawTransportLaws]), every application (calling
    back into the transport to any depth) and every sequence of event-loop
    stimuli: as long as the raw transport is not dead, the ciphertext the
    engine produced is exactly the ciphertext the transport took followed by
    what waits in [_outgoing], for as long as the connection has an
    [_outgoing].  Once [connection_lost] dropped it, what the transport took is
    a prefix of what the engine produced: nothing is duplicated or reordered,
    but what was still waiting after a refused write is lost.  Of a raw
    transport that is dead (aborted, or closed under the connection) nothing is
    stated. *)
Theorem sp_ciphertext_in_order n l e r :
  let c := run (SP.proto ap_has_pause ap_has_resume ssl_shutdown_timeout rounds)
             script n l (SP.init e r) in
  raw_dead (c_raw c) = false ->
  match c_outgoing c with
  | Some o => emitted (c_log c) = sent (c_log c) ++ o
  | None => sent (c_log c) `prefix_of` emitted (c_log c)
  end.
Proof.
  cbn zeta. apply run_ordered; [|apply ordered_new].
  intros app cb H1 H2 H3. by apply sp_ready.
Qed.

(** The four other classes, told apart by their name. *)
Inductive tls_class : Type := CStartTLS | CServer | CUnixClient | CUnixServer.

Definition tls_proto (k : tls_class) (protocol_factory : outcome unit)
    : (app_event -> M bool) -> (raw_cb -> M unit) -> ssl_proto :=
  match k with
  | CStartTLS => StartTLS.proto ap_has_pause ap_has_resume ssl_shutdown_timeout rounds
  | CServer => SSP.proto ap_has_pause ap_has_resume ssl_shutdown_timeout rounds
                 protocol_factory
  | CUnixClient => UnixSP.proto ap_has_pause ap_has_resume ssl_shutdown_timeout rounds
  | CUnixServer => UnixSSP.proto ssl_shutdown_timeout rounds protocol_factory
  end.

Definition tls_init (k : tls_class) (early : bytes) (e : eng) (r : raw) : conn :=
  match k with
  | CStartTLS => StartTLS.init e r early
  | CServer => SSP.init e r
  | CUnixClient => UnixSP.init e r
  | CUnixServer => UnixSSP.init e r
  end.

(** C2: the classes of [start_tls], [_create_ssl_server],
    [_create_ssl_unix_connection] and [_create_ssl_unix_server] send the
    ciphertext in order over a transport that takes every write while it is
    alive ([RawReliable], besides [RawTransportLaws]; these classes lose a
    refused write), whether the user's protocol factory returns or raises.  As
    long as the raw transport is not dead, the ciphertext the engine produced is
    exactly what the transport took followed by what waits in [_outgoing], for
    as long as the connection has an [_outgoing]; once [connection_lost] dropped
    it, what the transport took is a prefix of what the engine produced.  Of a
    raw transport that is dead nothing is stated. *)
Theorem tls_ciphertext_in_order {RR : RawReliable RI} k factory early n l e r :
  let c := run (tls_proto k factory) script n l (tls_init k early e r) in
  raw_dead (c_raw c) = false ->
  match c_outgoing c with
  | Some o => emitted (c_log c) = sent (c_log c) ++ o
  | None => sent (c_log c) `prefix_of` emitted (c_log c)
  end.
Proof.
  cbn zeta. apply run_ordered; [|destruct k; apply ordered_new].
  intros app cb H1 H2 H3. destruct k;
    [by apply tls_ready | by apply ssp_ready | by apply unix_sp_ready
    | by apply unix_ssp_ready].
Qed.
End CiphertextOrder.

Definition refused_stimuli : list (stimulus (RI:=refusing_transport)) :=
  [SMade; SUser (UWrite [x05]); SRaw (RI:=refusing_transport) true; SUser (UWrite [x06])].

Definition refused_run : conn :=
  run (EI:=null_engine) (RI:=refusing_transport) (SP.proto true true None 2) chatty 3
    refused_stimuli
    (SP.init (EI:=null_engine) (RI:=refusing_transport) (NullEng [] []) false).

Lemma sp_ciphertext_in_order_witness :
  sent (c_log refused_run) = [x16; x01; x02; x05] /\
  match c_outgoing refused_run with
  | Some o => emitted (c_log refused_run) = sent (c_log refused_run) ++ o
  | None => sent (c_log refused_run) `prefix_of` emitted (c_log refused_run)
  end.
Proof.
  split; [vm_compute; reflexivity|].
  unfold refused_run.
  apply (sp_ciphertext_in_order (EI:=null_engine) (RI:=refusing_transport)
           true true None 2 chatty 3 refused_stimuli (NullEng [] []) false).
  vm_compute. reflexivity.
Defined.

Definition server_stimuli : list (stimulus (RI:=native)) :=
  [SMade; SUser (UWrite [x05])].

Definition server_run : conn :=
  run (EI:=null_engine) (RI:=native)
    (tls_proto true true None 2 CServer (Ret tt)) chatty 3
    server_stimuli
    (tls_init CServer [] (EI:=null_engine) (RI:=native) (NullEng [] [])
       StreamTransport.new_stream).

Lemma tls_ciphertext_in_order_witness :
  sent (c_log server_run) = [x16; x01; x02; x05] /\
  match c_outgoing server_run with
  | Some o => emitted (c_log server_run) = sent (c_log server_run) ++ o
  | None => sent (c_log server_run) `prefix_of` emitted (c_log server_run)
  end.
Proof.
  split; [vm_compute; reflexivity|].
  unfold server_run.
  apply (tls_ciphertext_in_order (EI:=null_engine) (RI:=native)
           true true None 2 chatty CServer (Ret tt) [] 3 server_stimuli (NullEng [] [])
           StreamTransport.new_stream).
  vm_compute. reflexivity.
Defined.
