(* ===== verification/SSLNative.v ===== *)
(** * TLS over the native transport, end to end

    The five TLS classes of loop.py composed with the stream transport of
    src/src/transports: a call of a protocol method moves the transport, a
    completion of the kernel moves the transport and runs the upcalls into the
    protocol ([resume_writing], [buffer_updated], [eof_received]) in its middle, the
    batch dispatch of loop/runner.zig hands over the data of a harvested read,
    and [connection_lost] runs when the transport has scheduled it.  The ciphertext
    is followed from the engine through the BIO and the write queue to the wire. *)

From stdpp Require Import base list strings gmap.
From Stdlib Require Import Strings.Byte QArith.
From S2P Require Import Prelude SSLConn StreamTransport SSLWrapper SSLProto SSLClient StartTLS SSLServer SSLUnix SSLProps.
From S2P Require SSLExample.

Close Scope Q_scope.
Import SSLTransportWrapper StreamTransport.

(** ** Invariants of the transport and the history

    [Traced] is the interface of an invariant that reads the transport and the
    history only, and bears events that are no transport calls, and transport
    calls. *)

Definition is_raw (e : event) : bool := match e with EvRaw _ => true | _ => false end.

Section Traced.
Context {EI : SSLEngine} {RI : RawTransport}.

Class Traced (I : conn -> Prop) : Prop := {
  traced_frame : forall c c', c_log c' = c_log c -> c_raw c' = c_raw c -> I c -> I c';
  traced_log : forall e c, is_raw e = false -> I c -> I (c <| c_log := c_log c ++ [e] |>);
  traced_raw : forall op c, I c ->
    match ro_res (raw_call op (c_raw c)) with
    | Raise _ => I (c <| c_raw := ro_raw (raw_call op (c_raw c)) |>)
    | Ret _ => I (c <| c_raw := ro_raw (raw_call op (c_raw c)) |>
                    <| c_log := c_log c ++ [EvRaw op] |>)
    end
}.

Section Primitives.
Context {I : conn -> Prop} {TI : Traced I}.

Lemma traced_append l : forall c c',
  forallb (fun e => negb (is_raw e)) l = true -> c_log c' = c_log c ++ l ->
  c_raw c' = c_raw c -> I c -> I c'.
Proof.
  induction l as [|e l IH]; intros c c' Hq Hl Hr Hc.
  - rewrite app_nil_r in Hl. exact (traced_frame c c' Hl Hr Hc).
  - apply andb_prop in Hq as [He Hq]. apply negb_true_iff in He.
    apply (IH (c <| c_log := c_log c ++ [e] |>) c' Hq); [|exact Hr|by apply traced_log].
    rewrite Hl. exact (app_assoc _ [e] l).
Qed.

Lemma keeps_traced_log e : is_raw e = false -> keeps I (log e).
Proof. intros He c Hc. by apply (traced_log e c He). Qed.

Lemma keeps_traced_frame f :
  (forall c, c_log (f c) = c_log c /\ c_raw (f c) = c_raw c) -> keeps I (modify f).
Proof. intros Hf c Hc. destruct (Hf c) as [Hl Hr]. exact (traced_frame c (f c) Hl Hr Hc). Qed.

Lemma keeps_traced_engine {A} (op : bytes -> eng -> eng_out eng A) : keeps I (engine op).
Proof.
  intros c Hc. unfold engine. destruct (c_sslobj c) as [e|].
  - cbn. destruct (eo_res (op (default [] (c_incoming c)) e));
      (eapply (traced_append _ c); [|reflexivity|reflexivity|exact Hc]); reflexivity.
  - eapply (traced_append _ c); [|reflexivity|reflexivity|exact Hc]. reflexivity.
Qed.

Lemma keeps_traced_outgoing_read : keeps I outgoing_read.
Proof.
  intros c Hc. unfold outgoing_read. destruct (c_outgoing c); [|exact Hc].
  by apply (traced_frame (I:=I) c).
Qed.

Lemma keeps_traced_outgoing_write d : keeps I (outgoing_write d).
Proof.
  intros c Hc. unfold outgoing_write. destruct (c_outgoing c); [|exact Hc].
  by apply (traced_frame (I:=I) c).
Qed.

Lemma keeps_traced_incoming_write d : keeps I (incoming_write d).
Proof.
  intros c Hc. unfold incoming_write. destruct (c_incoming c); [|exact Hc].
  by apply (traced_frame (I:=I) c).
Qed.

Lemma keeps_traced_raw up op : (forall b, keeps I (up b)) -> keeps I (raw_t up op).
Proof.
  intros Hu c Hc. unfold raw_t. destruct (c_has_raw c); [|exact Hc].
  pose proof (traced_raw (I:=I) op c Hc) as H.
  destruct (ro_res _) as [v|e]; [|exact H].
  apply keeps_bind; [by apply keeps_for_each | intros; apply keeps_ret | exact H].
Qed.

Lemma keeps_traced_raw_ up op : (forall b, keeps I (up b)) -> keeps I (raw_t_ up op).
Proof.
  intros Hu. apply keeps_bind; [by apply keeps_traced_raw | intros; apply keeps_ret].
Qed.
End Primitives.
End Traced.

Create HintDb traced.
#[export] Hint Resolve keeps_traced_engine keeps_traced_outgoing_read
  keeps_traced_outgoing_write keeps_traced_incoming_write keeps_traced_raw
  keeps_traced_raw_ : traced.
#[export] Hint Resolve keeps_ret keeps_raise keeps_gets : traced.
#[export] Hint Extern 2 (keeps _ (modify _)) =>
  apply keeps_traced_frame; intros ?; split; reflexivity : traced.
#[export] Hint Extern 2 (keeps _ (log _)) =>
  apply keeps_traced_log; reflexivity : traced.
#[export] Hint Extern 0 (Traced _) => typeclasses eauto : traced.

Ltac traced_tac :=
  repeat (first [ solve [eauto with traced]
                | progress handler_cases
                | keeps_step ]).

(** ** The methods of the wrapper and of the classes *)

Section Wrapper.
Context {EI : SSLEngine} {RI : RawTransport} {PI : SSPInterface}.
Context {I : conn -> Prop} {TI : Traced I}.
Hypothesis f_keeps : keeps I ssp_f.
Hypothesis up_keeps : forall b, keeps I (up b).
#[local] Hint Resolve f_keeps up_keeps : traced.

Lemma keeps_traced_sslobj_write d : keeps I (sslobj_write d).
Proof. unfold sslobj_write. traced_tac. Qed.
#[local] Hint Resolve keeps_traced_sslobj_write : traced.

Lemma keeps_traced_write d : keeps I (write d).
Proof. unfold write, buffer_append, schedule_fatal, loop_usable. traced_tac. Qed.

Lemma keeps_traced_flush_plain n : keeps I (flush_plain n).
Proof.
  induction n as [|n IH]; cbn; [apply keeps_raise|].
  unfold flush_plain_step, buffer_appendleft, schedule_fatal, loop_usable. traced_tac.
Qed.
#[local] Hint Resolve keeps_traced_flush_plain : traced.

Lemma keeps_traced_flush : keeps I _flush_write_buffer.
Proof. unfold _flush_write_buffer, flush_cipher_step. traced_tac. Qed.
#[local] Hint Resolve keeps_traced_flush : traced.

Lemma keeps_traced_force_close : keeps I _force_close.
Proof. unfold _force_close. traced_tac. Qed.
#[local] Hint Resolve keeps_traced_force_close : traced.

Lemma keeps_traced_start_shutdown : keeps I _start_shutdown.
Proof. unfold _start_shutdown, shutdown_wants, loop_usable, logger_exception. traced_tac. Qed.
#[local] Hint Resolve keeps_traced_start_shutdown : traced.

Lemma keeps_traced_close : keeps I close.
Proof. unfold close. traced_tac. Qed.
End Wrapper.

#[export] Hint Resolve keeps_traced_write keeps_traced_flush keeps_traced_force_close
  keeps_traced_start_shutdown keeps_traced_close : traced.

(** A class whose methods keep [I] given upcalls that do. *)
Class ProtoTraced {EI : SSLEngine} {RI : RawTransport} (I : conn -> Prop)
    (p : ssl_proto) : Prop := {
  pt_f : keeps I (@ssp_f _ _ (sp_iface p));
  pt_up : forall b, keeps I (@up _ _ (sp_iface p) b);
  pt_made : keeps I (sp_connection_made p);
  pt_updated : forall n, keeps I (sp_buffer_updated p n);
  pt_lost : forall e, keeps I (sp_connection_lost p e);
  pt_eof : keeps I (sp_eof_received p);
  pt_pause : keeps I (sp_pause_writing p);
  pt_resume : keeps I (sp_resume_writing p)
}.

Section Classes.
Context {EI : SSLEngine} {RI : RawTransport}.
Context {I : conn -> Prop} {TI : Traced I}.
Variables (ap_has_pause ap_has_resume : bool).
Variables (ssl_shutdown_timeout : option Q) (rounds : nat).
Variable app : app_event -> M bool.
Variable cb : raw_cb -> M unit.
Hypothesis app_keeps : forall e, keeps I (app e).
Hypothesis cb_keeps : forall b, keeps I (cb b).
#[local] Hint Resolve app_keeps cb_keeps : traced.

Lemma keeps_traced_call_app e : keeps I (call_app app e).
Proof. unfold call_app. traced_tac. Qed.
#[local] Hint Resolve keeps_traced_call_app : traced.

Lemma keeps_traced_call_app_ e : keeps I (call_app_ app e).
Proof. unfold call_app_. traced_tac. Qed.
#[local] Hint Resolve keeps_traced_call_app_ : traced.

Lemma keeps_traced_guarded msg m : keeps I m -> keeps I (guarded msg m).
Proof. intros. unfold guarded, logger_exception. traced_tac. Qed.
#[local] Hint Resolve keeps_traced_guarded : traced.

Lemma keeps_traced_waiter w : keeps I (resolve_waiter w).
Proof. unfold resolve_waiter. traced_tac. Qed.
#[local] Hint Resolve keeps_traced_waiter : traced.

Lemma keeps_traced_push : keeps I (push_outgoing cb).
Proof. unfold push_outgoing. traced_tac. Qed.
#[local] Hint Resolve keeps_traced_push : traced.

Lemma keeps_traced_chunks n : forall l, keeps I (read_chunks n l).
Proof. induction n as [|n IH]; intros l; cbn; traced_tac. Qed.
#[local] Hint Resolve keeps_traced_chunks : traced.

Lemma keeps_traced_feed n : keeps I (feed n).
Proof. unfold feed. traced_tac. Qed.
#[local] Hint Resolve keeps_traced_feed : traced.

Lemma keeps_traced_attach : keeps I attach.
Proof. unfold attach. traced_tac. Qed.
#[local] Hint Resolve keeps_traced_attach : traced.

Lemma sp_traced :
  ProtoTraced I (SP.proto ap_has_pause ap_has_resume ssl_shutdown_timeout rounds app cb).
Proof.
  assert (Hf : keeps I (SP._f cb)) by (unfold SP._f; traced_tac).
  split; cbn [sp_iface sp_buffer_updated sp_connection_made sp_connection_lost
              sp_eof_received sp_pause_writing sp_resume_writing SP.proto ssp_f up SP.iface];
    intros; unfold SP.connection_made, SP.buffer_updated, SP.connection_lost, SP.eof_received,
      SP.pause_writing, SP.resume_writing, SP._h, SP._r, resume_app, pause_writing_body,
      wrapper_closing; traced_tac.
Qed.

Lemma start_tls_traced :
  ProtoTraced I (StartTLS.proto ap_has_pause ap_has_resume ssl_shutdown_timeout rounds app cb).
Proof.
  assert (Hf : keeps I (StartTLS._f cb)) by (unfold StartTLS._f; traced_tac).
  split; cbn [sp_iface sp_buffer_updated sp_connection_made sp_connection_lost
              sp_eof_received sp_pause_writing sp_resume_writing StartTLS.proto ssp_f up
              StartTLS.iface];
    intros; unfold StartTLS.connection_made, StartTLS.buffer_updated, StartTLS.connection_lost,
      StartTLS.eof_received, StartTLS.pause_writing, StartTLS.resume_writing, StartTLS._h,
      StartTLS._r, resume_app, pause_writing_body, wrapper_closing, logger_exception; traced_tac.
Qed.

Lemma ssp_traced factory :
  ProtoTraced I (SSP.proto ap_has_pause ap_has_resume ssl_shutdown_timeout rounds factory app cb).
Proof.
  assert (Hf : keeps I (SSP._f cb)) by (unfold SSP._f; traced_tac).
  assert (Hc : forall e, keeps I (SSP.call_ap app e)) by (intros; unfold SSP.call_ap; traced_tac).
  split; cbn [sp_iface sp_buffer_updated sp_connection_made sp_connection_lost
              sp_eof_received sp_pause_writing sp_resume_writing SSP.proto ssp_f up SSP.iface];
    intros; unfold SSP.connection_made, SSP.buffer_updated, SSP.connection_lost, SSP.eof_received,
      SSP.pause_writing, SSP.resume_writing, SSP._h, SSP._r, resume_app,
      pause_writing_body, wrapper_closing, logger_exception; traced_tac.
Qed.

Lemma unix_sp_traced :
  ProtoTraced I (UnixSP.proto ap_has_pause ap_has_resume ssl_shutdown_timeout rounds app cb).
Proof.
  assert (Hf : keeps I (UnixSP._f cb)) by (unfold UnixSP._f; traced_tac).
  split; cbn [sp_iface sp_buffer_updated sp_connection_made sp_connection_lost
              sp_eof_received sp_pause_writing sp_resume_writing UnixSP.proto ssp_f up UnixSP.iface];
    intros; unfold UnixSP.connection_made, UnixSP.buffer_updated, UnixSP.connection_lost,
      UnixSP.eof_received, UnixSP.pause_writing, UnixSP.resume_writing, UnixSP._h, UnixSP._r,
      resume_app, pause_writing_body, wrapper_closing; traced_tac.
Qed.

Lemma unix_ssp_traced factory :
  ProtoTraced I (UnixSSP.proto ssl_shutdown_timeout rounds factory app cb).
Proof.
  assert (Hf : keeps I (UnixSSP._f cb)) by (unfold UnixSSP._f; traced_tac).
  split; cbn [sp_iface sp_buffer_updated sp_connection_made sp_connection_lost
              sp_eof_received sp_pause_writing sp_resume_writing UnixSSP.proto ssp_f up
              UnixSSP.iface];
    intros; unfold UnixSSP.connection_made, UnixSSP.buffer_updated, UnixSSP.connection_lost,
      UnixSSP.eof_received, UnixSSP._h, UnixSSP._r, UnixSSP._r_step, UnixSSP.call_ap,
      logger_exception; traced_tac.
Qed.
End Classes.

(** ** The closed system *)

Section System.
Context {EI : SSLEngine} {RI : RawTransport}.
Context {I : conn -> Prop} {TI : Traced I}.

Lemma keeps_traced_action p a : ProtoTraced I p -> keeps I (run_action p a).
Proof.
  intros [Hf Hu _ _ _ _ _ _]. unfold run_action, abort, write_eof, pause_reading,
    resume_reading, set_write_buffer_limits.
  apply keeps_bind; [apply keeps_gets|]. intros []; [|apply keeps_ret].
  apply keeps_when. intros _. destruct a; auto with traced.
Qed.

Variable variant : (app_event -> M bool) -> (raw_cb -> M unit) -> ssl_proto.
Variable script : list event -> app_event -> list user_action * outcome bool.
Hypothesis variant_traced : forall app cb,
  (forall e, keeps I (app e)) -> (forall b, keeps I (cb b)) -> ProtoTraced I (variant app cb).

Lemma keeps_traced_script p e : ProtoTraced I p -> keeps I (run_script script p e).
Proof.
  intros HP c Hc. unfold run_script. destruct (script (c_log c) e) as [acts o].
  revert c Hc. change (keeps I (for_each acts (run_action p) ;;;
    match o with Ret b => ret b | Raise x => raise x end)).
  apply keeps_bind; [apply keeps_for_each; intros; by apply keeps_traced_action|].
  intros []. destruct o; [apply keeps_ret | apply keeps_raise].
Qed.

Lemma upcalls_traced n :
  (forall e, keeps I ((upcalls variant script n).1 e)) /\
  (forall b, keeps I ((upcalls variant script n).2 b)).
Proof.
  induction n as [|n [IH1 IH2]]; cbn; [split; intros; apply keeps_raise|].
  pose proof (variant_traced _ _ IH1 IH2) as HP. split.
  - intros e. by apply keeps_traced_script.
  - intros []; apply HP.
Qed.

Lemma proto_at_traced n : ProtoTraced I (proto_at variant script n).
Proof. destruct (upcalls_traced n). by apply variant_traced. Qed.

Definition is_sraw (s : stimulus) : bool := match s with SRaw _ => true | _ => false end.

Lemma keeps_traced_stimulate n s :
  is_sraw s = false -> keeps I (stimulate (proto_at variant script n) s).
Proof.
  intros Hs. pose proof (proto_at_traced n) as HP. destruct s; try discriminate;
    cbn [stimulate]; unfold recv, _fatal_error; try apply HP.
  - apply keeps_bind; [auto with traced | intros; apply HP].
  - apply keeps_bind; [apply HP | intros; apply keeps_ret].
  - by apply keeps_traced_action.
  - apply keeps_bind; [apply keeps_gets|]. intros [t|]; [|apply keeps_ret].
    apply keeps_traced_force_close. apply HP.
  - traced_tac.
  - unfold resolve_waiter. traced_tac.
  - traced_tac.
Qed.

Lemma step_traced n s c :
  is_sraw s = false -> I c -> I (step variant script n s c).
Proof.
  intros Hs Hc. unfold step. destruct (xorb _ _); [|exact Hc]. by apply keeps_traced_stimulate.
Qed.
End System.

(** ** What the transport says of a completion

    The moments of the transport's life that are not calls of the protocol. *)

Definition raw_ops (l : list event) : list raw_op :=
  omap (fun e => match e with EvRaw op => Some op | _ => None end) l.

(** A write is silently dropped from here on. *)
Definition dropping (s : stream) : bool := wt_closing s && negb (wt_eof_pending s).

(** Nothing more was accepted, and what is closed stays closed. *)
Record later (s t : stream) : Prop := {
  lt_accepted : st_accepted t = st_accepted s;
  lt_dropping : dropping s = true -> dropping t = true;
  lt_closed : wt_closed s = true -> wt_closed t = true }.

Lemma later_refl s : later s s.
Proof. by split. Qed.

Lemma later_trans s t u : later s t -> later t u -> later s u.
Proof. intros [A1 A2 A3] [B1 B2 B3]. split; [congruence | auto | auto]. Qed.

Lemma later_field s t :
  st_accepted t = st_accepted s -> wt_closing t = wt_closing s ->
  wt_eof_pending t = wt_eof_pending s -> wt_closed t = wt_closed s -> later s t.
Proof. intros H1 H2 H3 H4. split; unfold dropping; rewrite ?H1, ?H2, ?H3, ?H4; auto. Qed.

(** A field of the state that [later] does not read. *)
Ltac later_field := apply later_field; reflexivity.

Lemma later_maybe_close_fd s : later s (maybe_close_fd s).
Proof.
  unfold maybe_close_fd, schedule_connection_lost_once. destruct (_ && _); [|apply later_refl].
  destruct (st_notified _); later_field.
Qed.

Lemma later_shut s : later s (s <| wt_closing := true |> <| wt_closed := true |>).
Proof. split; unfold dropping; [reflexivity | by intros [_ H]%andb_prop | reflexivity]. Qed.

Lemma later_wt_closed s : later s (s <| wt_closed := true |>).
Proof. by split. Qed.

Lemma later_wt_close s : later s (wt_close s).
Proof.
  unfold wt_close. destruct (wt_closing s || wt_closed s) eqn:E; [apply later_refl|].
  apply orb_false_iff in E as [E1 E2].
  assert (H : later s (s <| wt_closing := true |>)).
  { split; [reflexivity| |by cbn]. unfold dropping. rewrite E1. discriminate. }
  destruct (_ && _); [|exact H].
  refine (later_trans _ _ _ (later_trans _ _ _ H (later_wt_closed _)) (later_maybe_close_fd _)).
Qed.

Lemma later_rt_close s : later s (rt_close s).
Proof.
  unfold rt_close. destruct (_ || _); [apply later_refl|]. destruct (rt_op s); cbn [negb]; [later_field|].
  refine (later_trans _ _ _ _ (later_maybe_close_fd _)). later_field.
Qed.

Lemma later_close_transports e s : later s (close_transports e s).
Proof.
  unfold close_transports. set (s1 := if _ : bool then _ else s).
  assert (H1 : later s s1) by (unfold s1; destruct (_ && _); [later_field | apply later_refl]).
  clearbody s1. set (s2 := wt_close (rt_close s1)).
  assert (H2 : later s s2)
    by exact (later_trans _ _ _ H1 (later_trans _ _ _ (later_rt_close _) (later_wt_close _))).
  assert (H3 : later s (s2 <| st_is_reading := false |> <| st_closing := true |>))
    by (apply (later_trans _ s2); [exact H2 | later_field]).
  destruct (st_closed s); [exact H3 | exact (later_trans _ _ _ H3 (later_maybe_close_fd _))].
Qed.

Lemma later_submit s : later s (submit_next_chunk s).2.
Proof.
  unfold submit_next_chunk. destruct (wt_in_flight s); [apply later_refl|].
  destruct (_ <=? _)%nat; [apply later_refl|]. destruct (skip_empty _ _ _) as [i o].
  destruct (_ <=? _)%nat; later_field.
Qed.

Lemma later_flush s : later s (flush_buffered_writes s).
Proof. unfold flush_buffered_writes. destruct (_ && (0 <? _)%nat); [apply later_submit | apply later_refl]. Qed.

Lemma later_advance n s : later s (advance n s).
Proof. unfold advance. destruct (_ <? _)%nat; later_field. Qed.

Lemma later_drained s : later s (drained s).
Proof.
  unfold drained.
  assert (H : forall t, later s t -> later s (if wt_closing s then maybe_close_fd (t <| wt_closed := true |>) else t)).
  { intros t Ht. destruct (wt_closing s); [|exact Ht].
    exact (later_trans _ _ _ (later_trans _ _ _ Ht (later_wt_closed _)) (later_maybe_close_fd _)). }
  apply H. destruct (wt_eof_pending s) eqn:E; [|later_field].
  split; [reflexivity| |by cbn]. unfold dropping. rewrite E, andb_false_r. discriminate.
Qed.

Lemma later_read_again s : later s (queue_read_operation s).
Proof. unfold queue_read_operation. destruct (_ || _); [apply later_refl | later_field]. Qed.

(** The state in which a completed write runs [resume_writing]. *)
Definition writable (total : nat) (s : stream) : option stream :=
  if (total =? 0)%nat || st_closing s || st_closed s then None
  else if negb (st_is_writing s) && (Z.of_nat (wt_size s) <=? st_low s)%Z
  then Some (s <| st_is_writing := true |>) else None.

Definition resume_after (s : stream) : option stream :=
  if negb (wt_closed s) && (0 <? wt_size s)%nat then writable (wt_total s) s
  else if wt_closed s then None
  else writable (wt_total (drained s)) (drained s <| wt_total := 0%nat |>).

Definition resume_state (k : completion) (s : stream) : option stream :=
  let s0 := s <| wt_in_flight := false |> in
  match k with
  | CWritten n => resume_after (advance n s0)
  | CWriteCanceled => resume_after s0
  | CWriteError _ => None
  end.

(** The state in which a completed read that was not batched runs
    [buffer_updated] or [eof_received]. *)
Definition delivery_state (r : read_result) (s : stream) : option stream :=
  if rt_closing s || rt_closed s || st_closing s || st_closed s then None
  else match r with
       | RData | REof => Some (s <| rt_op := false |> <| rt_cancelling := false |>)
       | _ => None
       end.

Section Completions.
Variable socket_name : string -> option pyval.

(** Without an upcall a completion is a step of the transport alone; with one it
    runs the calls of the upcall in the state named above, and then goes on. *)
Definition splits (s : stream) (mid : option stream) (f : upcall -> stream) : Prop :=
  match mid with
  | None => (forall u, f u = f ([], Ret tt)) /\ later s (f ([], Ret tt))
  | Some s1 => later s s1 /\ forall u, later (calls socket_name u.1 s1) (f u)
  end.

Lemma splits_writable s total :
  splits s (writable total s) (fun u => (invoke_write_completed socket_name total u s).2).
Proof.
  unfold splits, writable, invoke_write_completed.
  destruct (_ || st_closed s); [split; [reflexivity | apply later_maybe_close_fd]|].
  destruct (_ && _); [|split; [reflexivity | apply later_maybe_close_fd]].
  split; [later_field|]. intros u. generalize (calls socket_name u.1 (s <| st_is_writing := true |>)).
  intros t. destruct u.2 as [[]|e]; [apply later_maybe_close_fd|]. cbn [snd]. cbv zeta.
  refine (later_trans _ _ _ (later_maybe_close_fd t) _).
  refine (later_trans _ _ _ _ (later_maybe_close_fd _)).
  refine (later_trans _ _ _ _ (later_shut _)).
  destruct (wt_closing _); [apply later_refl | apply later_close_transports].
Qed.

Lemma splits_before s t mid f : later s t -> splits t mid f -> splits s mid f.
Proof.
  intros H Ht. unfold splits in *. destruct mid; destruct Ht as [H1 H2].
  - split; [exact (later_trans _ _ _ H H1) | exact H2].
  - split; [exact H1 | exact (later_trans _ _ _ H H2)].
Qed.

Lemma splits_after s :
  splits s (resume_after s) (fun u => after_completion socket_name u s).
Proof.
  unfold resume_after, after_completion. destruct (negb (wt_closed s) && _).
  - pose proof (splits_writable s (wt_total s)) as H. revert H. unfold splits.
    assert (Hg : forall b t, later t (if b && negb (wt_closed t) && (0 <? wt_size t)%nat
                                      then (submit_next_chunk t).2 else t)).
    { intros b t. destruct (_ && _ && _); [apply later_submit | apply later_refl]. }
    destruct (writable (wt_total s) s) as [s1|] eqn:E.
    + intros [H1 H2]. split; [exact H1|]. intros u. specialize (H2 u).
      destruct (invoke_write_completed _ _ u s) as [b t]. exact (later_trans _ _ _ H2 (Hg b t)).
    + intros [H1 H2]. assert (Hi : forall u, invoke_write_completed socket_name (wt_total s) u s
        = (true, maybe_close_fd s)).
      { intros u. revert E. unfold writable, invoke_write_completed.
        destruct (_ || st_closed s); [done|]. by destruct (_ && _). }
      split; [intros u; by rewrite !Hi|]. rewrite Hi in *. exact (later_trans _ _ _ H2 (Hg _ _)).
  - destruct (wt_closed s); [split; [reflexivity | apply later_refl]|].
    apply (splits_before s (drained s <| wt_total := 0%nat |>)); [|apply splits_writable].
    apply (later_trans _ (drained s)); [apply later_drained | later_field].
Qed.

Lemma splits_write k s :
  splits s (resume_state k s) (fun u => write_operation_completed socket_name k u s).
Proof.
  unfold resume_state, write_operation_completed.
  assert (H0 : later s (s <| wt_in_flight := false |>)) by later_field.
  destruct k as [n| |e].
  - refine (splits_before _ _ _ _ (later_trans _ _ _ H0 (later_advance n _)) (splits_after _)).
  - exact (splits_before _ _ _ _ H0 (splits_after _)).
  - split; [reflexivity|]. refine (later_trans _ _ _ H0 _). unfold write_error.
    generalize (s <| wt_in_flight := false |>). intros t. destruct (wt_closing t).
    + exact (later_trans _ _ _ (later_wt_closed t) (later_maybe_close_fd _)).
    + refine (later_trans _ _ _ (later_close_transports (Some e) t) _).
      exact (later_trans _ _ _ (later_shut _) (later_maybe_close_fd _)).
Qed.

Lemma later_read_end r s :
  later s (if rt_closing s then maybe_close_fd (s <| rt_closed := true |>)
           else match r with
                | RError e =>
                    close_transports (Some e) (s <| rt_closing := true |> <| rt_closed := true |>)
                | _ => s
                end).
Proof.
  destruct (rt_closing s).
  - refine (later_trans _ _ _ _ (later_maybe_close_fd _)). later_field.
  - destruct r; try apply later_refl. refine (later_trans _ _ _ _ (later_close_transports _ _)). later_field.
Qed.

Lemma splits_read r keep s :
  splits s (delivery_state r s) (fun u => read_operation_completed socket_name false r (keep u) u s).
Proof.
  unfold delivery_state, read_operation_completed, read_completed_callback.
  set (s0 := s <| rt_op := false |> <| rt_cancelling := false |>).
  assert (H0 : later s s0) by (unfold s0; later_field).
  change (rt_closing s0) with (rt_closing s). change (rt_closed s0) with (rt_closed s).
  change (st_closing s0) with (st_closing s). change (st_closed s0) with (st_closed s).
  assert (Hq : forall t, later t (maybe_close_fd (queue_read_operation t)))
    by (intros t; exact (later_trans _ _ _ (later_read_again t) (later_maybe_close_fd _))).
  destruct (_ || st_closed s).
  { split; [reflexivity|]. refine (later_trans _ _ _ H0 _).
    refine (later_trans _ _ _ _ (later_read_end r _)).
    refine (later_trans _ _ _ _ (later_maybe_close_fd _)). later_field. }
  assert (Hr : forall (o : outcome unit) t, later t
     match o with
     | Raise e => (if rt_callback t then close_transports (Some e) t else t)
                    <| rt_closing := true |> <| rt_closed := true |>
     | Ret _ => if rt_closing t then maybe_close_fd (t <| rt_closed := true |>)
                else match r with
                     | RError e => close_transports (Some e) (t <| rt_closing := true |> <| rt_closed := true |>)
                     | _ => t
                     end
     end).
  { intros [o|e] t; [apply later_read_end|].
    destruct (rt_callback t); [|later_field].
    refine (later_trans _ _ _ (later_close_transports (Some e) t) _). later_field. }
  destruct r; cbn [splits].
  - split; [exact H0|]. intros u. destruct u.2 as [[]|e].
    + exact (later_trans _ _ _ (Hq _) (Hr (Ret tt) _)).
    + exact (later_trans _ _ _ (later_maybe_close_fd _) (Hr (Raise e) _)).
  - split; [exact H0|]. intros u. destruct u.2 as [[]|e].
    + refine (later_trans _ _ _ _ (Hr (Ret tt) _)).
      refine (later_trans _ _ _ _ (later_maybe_close_fd _)).
      destruct (keep u); [apply later_refl | apply later_close_transports].
    + exact (later_trans _ _ _ (later_maybe_close_fd _) (Hr (Raise e) _)).
  - split; [reflexivity|]. exact (later_trans _ _ _ H0 (later_trans _ _ _ (Hq _) (Hr (Ret tt) _))).
  - split; [reflexivity|].
    exact (later_trans _ _ _ H0 (later_trans _ _ _ (later_maybe_close_fd _) (Hr (Ret tt) _))).
Qed.
End Completions.

(** ** What the calls of the protocol do to the transport *)

Definition writes (ops : list raw_op) : bytes :=
  concat (omap (fun op => match op with RWrite d => Some d | _ => None end) ops).

Lemma sent_writes l : sent l = writes (raw_ops l).
Proof.
  unfold sent, writes, raw_ops. f_equal. induction l as [|e l IH]; [reflexivity|].
  destruct e as [| | |[]| | | |]; cbn; rewrite ?IH; reflexivity.
Qed.

Lemma raw_ops_app l1 l2 : raw_ops (l1 ++ l2) = raw_ops l1 ++ raw_ops l2.
Proof. apply omap_app. Qed.

Lemma writes_app a b : writes (a ++ b) = writes a ++ writes b.
Proof. unfold writes. by rewrite omap_app, concat_app. Qed.

Lemma writes_cons op ops :
  writes (op :: ops) = match op with RWrite d => d | _ => [] end ++ writes ops.
Proof. by destruct op. Qed.

Section Calls.
Variable socket_name : string -> option pyval.
Let NT := native_transport socket_name.
#[local] Existing Instance NT.

(** Every call returned. *)
Fixpoint returned (ops : list raw_op) (s : stream) : Prop :=
  match ops with
  | [] => True
  | op :: ops' =>
      (exists v, ro_res (transport_call socket_name op s) = Ret v)
      /\ returned ops' (ro_raw (transport_call socket_name op s))
  end.

Lemma calls_app a b s : calls socket_name (a ++ b) s = calls socket_name b (calls socket_name a s).
Proof. unfold calls. apply foldl_app. Qed.

Lemma returned_app a b s :
  returned (a ++ b) s <-> returned a s /\ returned b (calls socket_name a s).
Proof.
  revert s. induction a as [|op a IH]; intros s; cbn; [tauto|]. rewrite IH. tauto.
Qed.

(** A call that raises changes nothing. *)
Lemma raise_same op s e :
  ro_res (transport_call socket_name op s) = Raise e -> ro_raw (transport_call socket_name op s) = s.
Proof.
  destruct op; cbn; try discriminate;
    unfold transport_write, transport_write_eof, transport_set_write_buffer_limits,
      transport_pause_reading, transport_resume_reading, append_new_buffer_to_write;
    repeat case_match; cbn; congruence.
Qed.

Lemma later_write_eof s : later s (ro_raw (transport_write_eof s)).
Proof.
  unfold transport_write_eof. destruct (wt_closing s && negb (wt_eof_pending s)) eqn:E; [apply later_refl|].
  unfold queue_eof. destruct (_ || _).
  - refine (later_trans _ _ _ _ (later_wt_close _)). split; [reflexivity| |by cbn].
    unfold dropping at 1. rewrite E. discriminate.
  - refine (later_trans _ _ _ _ (later_wt_close _)). later_field.
Qed.

Lemma later_limits h l s : later s (ro_raw (transport_set_write_buffer_limits h l s)).
Proof.
  unfold transport_set_write_buffer_limits. destruct (forallb _ _); [|apply later_refl].
  destruct (resolve_limits h l) as [h' l']. destruct (_ && _); [|apply later_refl].
  destruct (_ && (h' <? _)%Z); destruct (_ && (_ <=? l')%Z); later_field.
Qed.

Lemma later_close s : later s (transport_close s).
Proof.
  unfold transport_close, schedule_connection_lost_once, cancel_and_close_fd.
  destruct (_ || _); [apply later_refl|]. destruct (_ && _).
  - cbn. destruct (st_notified s); later_field.
  - refine (later_trans _ _ _ _ (later_close_transports _ _)). later_field.
Qed.

Lemma later_abort s : later s (transport_abort s).
Proof.
  unfold transport_abort, cancel_and_close_fd. destruct (st_closed s); [apply later_refl|].
  assert (Hr : forall t, later t (rt_force_close t))
    by (intros t; unfold rt_force_close; destruct (rt_closed t); [apply later_refl | later_field]).
  assert (Hw : forall t, later t (wt_force_close t)).
  { intros t. unfold wt_force_close. destruct (wt_closed t); [apply later_refl|].
    refine (later_trans _ _ _ _ (later_maybe_close_fd _)).
    split; unfold dropping; [reflexivity | by intros [_ H]%andb_prop | reflexivity]. }
  set (t := wt_force_close _). apply (later_trans _ t); [|later_field].
  refine (later_trans _ _ _ (later_trans _ _ _ _ (Hr _)) (Hw _)). later_field.
Qed.

(** Only a write adds to what was accepted. *)
Lemma later_call op s :
  match op with RWrite _ => False | _ => True end ->
  later s (ro_raw (transport_call socket_name op s)).
Proof.
  destruct op; cbn; intros H; try apply later_refl; try (by destruct H).
  - apply later_close.
  - apply later_abort.
  - apply later_write_eof.
  - apply later_limits.
  - unfold transport_pause_reading. destruct (st_closed s), (st_is_reading s); (apply later_refl || later_field).
  - unfold transport_resume_reading. destruct (st_closed s); [apply later_refl|].
    refine (later_trans _ _ _ _ (later_read_again _)). later_field.
Qed.

Lemma write_accepted d s v :
  ro_res (transport_write d s) = Ret v ->
  let t := ro_raw (transport_write d s) in
  dropping t = dropping s /\ st_accepted t = st_accepted s ++ (if dropping s then [] else d).
Proof.
  unfold transport_write, append_new_buffer_to_write. fold (dropping s). cbn zeta.
  destruct (dropping s) eqn:E; cbn; [by rewrite E, app_nil_r|].
  destruct (wt_closed s); [discriminate|].
  destruct d as [|b d]; destruct (_ && _); cbn; intros _; rewrite ?app_nil_r; (split; [exact E | reflexivity]).
Qed.

(** What the calls add: all they wrote, unless the transport began to drop. *)
Lemma calls_accepted ops : forall s,
  returned ops s ->
  let t := calls socket_name ops s in
  (dropping s = true -> dropping t = true)
  /\ exists d, st_accepted t = st_accepted s ++ d /\ d `prefix_of` writes ops
     /\ (dropping t = false -> d = writes ops) /\ (dropping s = true -> d = []).
Proof.
  induction ops as [|op ops IH]; intros s Hr; cbn zeta.
  - split; [auto|]. exists []. rewrite app_nil_r. repeat split; auto.
  - destruct Hr as [[v Hv] Hr]. change (calls socket_name (op :: ops) s)
      with (calls socket_name ops (ro_raw (transport_call socket_name op s))).
    destruct (IH _ Hr) as (I1 & d & I2 & I3 & I4 & I5). rewrite writes_cons.
    assert (Hop : (dropping s = true -> dropping (ro_raw (transport_call socket_name op s)) = true)
      /\ exists d1, st_accepted (ro_raw (transport_call socket_name op s)) = st_accepted s ++ d1
         /\ d1 `prefix_of` match op with RWrite d => d | _ => [] end
         /\ (dropping (ro_raw (transport_call socket_name op s)) = false ->
             d1 = match op with RWrite d => d | _ => [] end)
         /\ (dropping s = true -> d1 = [])).
    { destruct op as [w| | | | | | | | | | | | |];
        [|match goal with |- context [transport_call socket_name ?o s] =>
              destruct (later_call o s I) as [L1 L2 _] end;
          split; [exact L2|]; exists []; rewrite app_nil_r;
          split; [exact L1|]; split; [reflexivity|]; split; reflexivity ..].
      cbn in Hv |- *. destruct (write_accepted w s v Hv) as [W1 W2]. rewrite W1, W2.
      split; [auto|]. destruct (dropping s).
      - exists []. split; [reflexivity|]. split; [apply prefix_nil|]. split; [discriminate | reflexivity].
      - exists w. split; [reflexivity|]. split; [reflexivity|]. split; [reflexivity | discriminate]. }
    destruct Hop as (H1 & d1 & H2 & H3 & H4 & H5). split; [auto|]. exists (d1 ++ d).
    split; [by rewrite I2, H2, app_assoc|].
    destruct (dropping (ro_raw (transport_call socket_name op s))) eqn:E.
    + rewrite (I5 eq_refl), app_nil_r. split; [by apply prefix_app_r|]. split; [|exact H5].
      intros Ht. rewrite I1 in Ht by reflexivity. discriminate.
    + rewrite (H4 eq_refl). split; [by apply prefix_app|].
      split; [intros Ht; by rewrite I4|]. intros Hs. specialize (H1 Hs). discriminate.
Qed.
End Calls.

(** ** The composed system *)

Section Native.
Context {EI : SSLEngine}.
Variable socket_name : string -> option pyval.
#[local] Instance native_raw : RawTransport := native_transport socket_name.

(** Since the state [c0] only the protocol moved the transport. *)
Definition tracks (l0 : list event) (s0 : stream) (c : conn) : Prop :=
  exists l, c_log c = l0 ++ l /\ c_raw c = calls socket_name (raw_ops l) s0
    /\ returned socket_name (raw_ops l) s0.

#[export] Instance tracks_traced l0 s0 : Traced (tracks l0 s0).
Proof.
  split.
  - intros c c' Hl Hr (l & H1 & H2 & H3). exists l. by rewrite Hl, Hr.
  - intros e c He (l & H1 & H2 & H3). exists (l ++ [e]).
    assert (Ho : raw_ops [e] = []) by (by destruct e).
    rewrite raw_ops_app, Ho, app_nil_r. split; [|by split].
    change (c_log c ++ [e] = l0 ++ l ++ [e]). by rewrite H1, app_assoc.
  - intros op c (l & H1 & H2 & H3).
    destruct (ro_res (raw_call op (c_raw c))) as [v|e] eqn:E.
    + exists (l ++ [EvRaw op]). rewrite raw_ops_app, calls_app, returned_app. cbn.
      rewrite <- H2. split; [by rewrite H1, app_assoc|]. split; [reflexivity|].
      split; [exact H3|]. split; [by exists v | exact I].
    + exists l. cbn. rewrite (raise_same socket_name op (c_raw c) e E). auto.
Qed.

Variable variant : (app_event -> M bool) -> (raw_cb -> M unit) -> ssl_proto.
Variable script : list event -> app_event -> list user_action * outcome bool.
Variable n : nat.

#[local] Abbreviation p := (proto_at variant script n).

(** The calls of an upcall that took the connection from [c] to [c']. *)
Definition upcall_of {A} (c : conn) (r : outcome A * conn) : upcall :=
  (raw_ops (drop (length (c_log c)) (c_log r.2)),
   match r.1 with Ret _ => Ret tt | Raise e => Raise e end).

(** A completed write, with [resume_writing] in its middle. *)
Definition write_completed (k : completion) (c : conn) : conn :=
  match resume_state k (c_raw c) with
  | None => c <| c_raw := write_operation_completed socket_name k ([], Ret tt) (c_raw c) |>
  | Some s1 =>
      let r := sp_resume_writing p (c <| c_raw := s1 |>) in
      r.2 <| c_raw := write_operation_completed socket_name k (upcall_of c r) (c_raw c) |>
  end.

(** The batch record, given to [buffer_updated] if the transport was not torn
    down meanwhile.  An exception goes to the loop's exception handler. *)
Definition dispatched (c : conn) : conn :=
  match rt_batch (c_raw c) with
  | None => c
  | Some (g, d) =>
      let s0 := c_raw c <| rt_batch := None |> in
      if g =? st_generation s0 then (recv p d (c <| c_raw := s0 |>)).2
      else c <| c_raw := s0 |>
  end.

(** The callback of a read whose data went out with the batch. *)
Definition batched_read_completed (k : nat) (c : conn) : conn :=
  c <| c_raw := read_operation_completed socket_name true RData false ([], Ret tt)
                  (c_raw c <| rt_ready := k |>) |>.

(** A completed read that was not batched - the end of the stream, an error, or
    [d] when the batch is full -, with [buffer_updated] or [eof_received] in its
    middle. *)
Definition read_completed (r : read_result) (d : bytes) (c : conn) : conn :=
  match delivery_state r (c_raw c) with
  | None => c <| c_raw := read_operation_completed socket_name false r false ([], Ret tt) (c_raw c) |>
  | Some s1 =>
      match r with
      | REof =>
          let x := sp_eof_received p (c <| c_raw := s1 |>) in
          let keep := match x.1 with Ret b => b | Raise _ => false end in
          x.2 <| c_raw := read_operation_completed socket_name false r keep (upcall_of c x) (c_raw c) |>
      | _ =>
          let x := recv p d (c <| c_raw := s1 |>) in
          x.2 <| c_raw := read_operation_completed socket_name false r false (upcall_of c x) (c_raw c) |>
      end
  end.

(** What does not come from the transport. *)
Definition external (s : stimulus) : bool :=
  match s with
  | SMade | SUser _ | STimer | SSoon | SWaiterCancel | SLoopClose => true
  | _ => false
  end.

Inductive net_step : conn -> conn -> Prop :=
| net_external s c : external s = true -> net_step c (step variant script n s c)
| net_lost e c : e ∈ st_lost (c_raw c) -> net_step c (step variant script n (SLost e) c)
| net_prepare c : net_step c (c <| c_raw := flush_buffered_writes (c_raw c) |>)
| net_written k c :
    c_has_raw c = true -> wt_in_flight (c_raw c) = true ->
    (0 < k <= length (chunk (c_raw c)))%nat -> net_step c (write_completed (CWritten k) c)
| net_write_failed k c :
    c_has_raw c = true -> wt_in_flight (c_raw c) = true -> (forall m, k <> CWritten m) ->
    net_step c (write_completed k c)
| net_read r d c :
    c_has_raw c = true -> rt_op (c_raw c) = true -> net_step c (read_completed r d c)
| net_harvest d c :
    rt_op (c_raw c) = true -> rt_batch (c_raw c) = None ->
    net_step c (c <| c_raw := harvest d (c_raw c) |>)
| net_dispatch c : c_has_raw c = true -> net_step c (dispatched c)
| net_batch_reset c : net_step c (c <| c_raw := c_raw c <| rt_batch := None |> |>)
| net_batched_read k c :
    rt_ready (c_raw c) = S k -> rt_batch (c_raw c) = None ->
    net_step c (batched_read_completed k c).

Hypothesis variant_ready : forall app cb,
  (forall e, keeps ready (app e)) -> (forall b, keeps ready (cb b)) ->
  never (fun e => is_paused_error e = true) (cb CbPauseWriting) ->
  ProtoReady (variant app cb).
Hypothesis variant_traced : forall I (TI : Traced I) app cb,
  (forall e, keeps I (app e)) -> (forall b, keeps I (cb b)) -> ProtoTraced I (variant app cb).

(** *** The invariant *)

(** What was accepted against what the protocol sent. *)
Definition accounted (c : conn) : Prop :=
  st_accepted (c_raw c) `prefix_of` sent (c_log c)
  /\ (dropping (c_raw c) = false -> st_accepted (c_raw c) = sent (c_log c)).

Record net_ok (c : conn) : Prop := {
  nk_ordered : ordered c;
  nk_native : rtc (native_step socket_name) new_stream (c_raw c);
  nk_accounted : accounted c }.

Lemma accounted_later c s : accounted c -> later (c_raw c) s -> accounted (c <| c_raw := s |>).
Proof.
  intros [H1 H2] [L1 L2 _]. unfold accounted. cbn. rewrite L1. split; [exact H1|].
  intros Hd. apply H2. destruct (dropping (c_raw c)); [|reflexivity]. rewrite L2 in Hd by reflexivity. discriminate.
Qed.

Lemma ordered_later c s : ordered c -> later (c_raw c) s -> ordered (c <| c_raw := s |>).
Proof.
  intros H [_ _ L3] Hd. apply H. cbn in *. destruct (wt_closed (c_raw c)); [|reflexivity].
  rewrite L3 in Hd by reflexivity. discriminate.
Qed.

Lemma accounted_tracks c c' :
  accounted c -> tracks (c_log c) (c_raw c) c' -> accounted c'.
Proof.
  intros [H1 H2] (l & El & Er & Hr). unfold accounted. rewrite El, Er, sent_app, (sent_writes l).
  destruct (calls_accepted socket_name (raw_ops l) (c_raw c) Hr) as (K1 & d & K2 & K3 & K4 & K5).
  rewrite K2. destruct (dropping (c_raw c)) eqn:E.
  - rewrite (K5 eq_refl), app_nil_r. split; [by apply prefix_app_r|].
    intros Hd. rewrite K1 in Hd by reflexivity. discriminate.
  - rewrite (H2 eq_refl). split; [by apply prefix_app|]. intros Hd. by rewrite K4.
Qed.

Lemma native_calls ops s : rtc (native_step socket_name) s (calls socket_name ops s).
Proof.
  revert s. induction ops as [|op ops IH]; intros s; [apply rtc_refl|].
  eapply rtc_l; [exact (step_call socket_name op s) | apply IH].
Qed.

Lemma tracks_start c : tracks (c_log c) (c_raw c) c.
Proof. exists []. rewrite app_nil_r. by repeat split. Qed.

(** A step of the protocol. *)
Lemma net_stimulus s c : is_sraw s = false -> net_ok c -> net_ok (step variant script n s c).
Proof.
  intros Hs [H1 H2 H3].
  assert (Ht : tracks (c_log c) (c_raw c) (step variant script n s c)).
  { apply (step_traced (I:=tracks (c_log c) (c_raw c))); [|exact Hs | apply tracks_start].
    intros app cb Ha Hb. exact (variant_traced _ (tracks_traced _ _) app cb Ha Hb). }
  split.
  - apply step_ordered; [exact variant_ready | exact H1].
  - destruct Ht as (l & _ & -> & _). exact (transitivity H2 (native_calls _ _)).
  - exact (accounted_tracks _ _ H3 Ht).
Qed.

(** An upcall in the middle of a completion: [m] is the method, [f] the
    completion. *)
Lemma net_upcall {A} (m : M A) mid (f : upcall -> stream) c s1 :
  keeps ready m -> (forall I (TI : Traced I), keeps I m) ->
  splits socket_name (c_raw c) mid f -> mid = Some s1 -> c_has_raw c = true ->
  (forall u, native_step socket_name (c_raw c) (f u)) -> net_ok c ->
  let r := m (c <| c_raw := s1 |>) in net_ok (r.2 <| c_raw := f (upcall_of c r) |>).
Proof.
  intros Hk Ht Hs -> Hr Hn [H1 H2 H3] r. destruct Hs as [L1 L2].
  match goal with r := m ?x |- _ => set (c0 := x) in * end.
  assert (Htr : tracks (c_log c) s1 r.2)
    by (apply (Ht _ (tracks_traced _ _)); exact (tracks_start c0)).
  pose proof Htr as (l & El & Er & _).
  assert (Hl : later (c_raw r.2) (f (upcall_of c r))).
  { rewrite Er. specialize (L2 (upcall_of c r)). revert L2. unfold upcall_of at 1.
    by rewrite El, drop_app_length. }
  split.
  - apply ordered_later; [|exact Hl]. apply (Hk c0).
    split; [exact (ordered_later c s1 H1 L1) | exact Hr].
  - exact (rtc_r _ _ _ H2 (Hn _)).
  - apply accounted_later; [|exact Hl].
    apply (accounted_tracks c0); [exact (accounted_later c s1 H3 L1) | exact Htr].
Qed.

(** A completion without an upcall. *)
Lemma net_quiet c s :
  later (c_raw c) s -> native_step socket_name (c_raw c) s -> net_ok c -> net_ok (c <| c_raw := s |>).
Proof.
  intros Hl Hn [H1 H2 H3].
  split; [by apply ordered_later | exact (rtc_r _ _ _ H2 Hn) | by apply accounted_later].
Qed.

Lemma p_ready : ProtoReady p.
Proof. by apply proto_at_ready. Qed.

Lemma p_traced I (TI : Traced I) : ProtoTraced I p.
Proof. apply proto_at_traced. exact (variant_traced I TI). Qed.

Lemma net_write_completed k c :
  c_has_raw c = true ->
  (forall u, native_step socket_name (c_raw c) (write_operation_completed socket_name k u (c_raw c))) ->
  net_ok c -> net_ok (write_completed k c).
Proof.
  intros Hr Hn H. pose proof (splits_write socket_name k (c_raw c)) as Hs. unfold write_completed.
  destruct (resume_state k (c_raw c)) as [s1|] eqn:E.
  - apply (net_upcall (sp_resume_writing p) (Some s1)
             (fun u => write_operation_completed socket_name k u (c_raw c))); auto.
    + apply p_ready.
    + intros I TI. by apply p_traced.
  - destruct Hs as [_ Hl]. by apply net_quiet.
Qed.

Lemma recv_ready d : keeps ready (recv p d).
Proof. unfold recv. apply keeps_bind; [auto with keeps | intros; apply p_ready]. Qed.

Lemma recv_traced d I (TI : Traced I) : keeps I (recv p d).
Proof. unfold recv. apply keeps_bind; [auto with traced | intros; by apply p_traced]. Qed.

Lemma net_dispatched c : c_has_raw c = true -> net_ok c -> net_ok (dispatched c).
Proof.
  intros Hr H. unfold dispatched. destruct (rt_batch (c_raw c)) as [[g d]|] eqn:E; [|exact H].
  set (s0 := c_raw c <| rt_batch := None |>).
  assert (Hl : later (c_raw c) s0) by later_field.
  pose proof (fun u => step_dispatch socket_name u (c_raw c)) as Hn. unfold dispatch_record in Hn.
  rewrite E in Hn. cbv zeta in Hn. change (c_raw c <| rt_batch := None |>) with s0 in Hn.
  change (st_generation s0) with (st_generation (c_raw c)).
  destruct (g =? st_generation (c_raw c)).
  - pose proof H as [H1 H2 H3]. match goal with |- net_ok (recv p d ?x).2 => set (c0 := x) end.
    assert (Ht : tracks (c_log c) s0 (recv p d c0).2)
      by (apply (recv_traced d _ (tracks_traced _ _)); exact (tracks_start c0)).
    split.
    + apply (recv_ready d c0). split; [exact (ordered_later c s0 H1 Hl) | exact Hr].
    + pose proof Ht as (l & _ & -> & _). exact (rtc_r _ _ _ H2 (Hn (raw_ops l, Ret tt))).
    + exact (accounted_tracks c0 _ (accounted_later c s0 H3 Hl) Ht).
  - by apply net_quiet; [exact Hl | exact (Hn ([], Ret tt)) |].
Qed.

Lemma later_batched_read s :
  later s (read_operation_completed socket_name true RData false ([], Ret tt) s).
Proof.
  unfold read_operation_completed, read_completed_callback.
  destruct (_ || st_closed s); refine (later_trans _ _ _ _ (later_read_end RData _));
    refine (later_trans _ _ _ _ (later_maybe_close_fd _)); [later_field | apply later_read_again].
Qed.

Lemma net_read_completed r d c :
  c_has_raw c = true -> rt_op (c_raw c) = true -> net_ok c -> net_ok (read_completed r d c).
Proof.
  intros Hr Ho H. unfold read_completed.
  pose proof (fun keep => splits_read socket_name r keep (c_raw c)) as Hs.
  assert (Hn : forall keep u, native_step socket_name (c_raw c)
                 (read_operation_completed socket_name false r keep u (c_raw c)))
    by (intros keep u; by apply step_read).
  destruct (delivery_state r (c_raw c)) as [s1|] eqn:E.
  2:{ apply net_quiet; [exact (proj2 (Hs (fun _ => false))) | apply Hn | exact H]. }
  destruct r;
    try (apply (net_upcall (recv p d) (Some s1)
           (fun u => read_operation_completed socket_name false _ false u (c_raw c)));
         [exact (recv_ready d) | exact (recv_traced d) | exact (Hs (fun _ => false)) | reflexivity | exact Hr | apply Hn | exact H]).
  match goal with |- context [read_operation_completed _ _ _ ?k] => set (keep := k) end.
  apply (net_upcall (sp_eof_received p) (Some s1)
           (fun u => read_operation_completed socket_name false REof keep u (c_raw c)));
    [apply p_ready | intros I TI; by apply p_traced | exact (Hs (fun _ => keep)) | reflexivity
    | exact Hr | apply Hn | exact H].
Qed.

Lemma net_step_ok c c' : net_step c c' -> net_ok c -> net_ok c'.
Proof.
  intros Hst H.
  destruct Hst as [s c Hs|e c He|c|k c Hr Hf Hk|k c Hr Hf Hk|r d c Hr Ho|d c Ho Hb|c Hr|c|k c Ho Hb].
  - apply net_stimulus; [by destruct s | exact H].
  - by apply net_stimulus.
  - apply net_quiet; [apply later_flush | apply step_prepare | exact H].
  - apply net_write_completed; [exact Hr | intros u; by apply step_written | exact H].
  - apply net_write_completed; [exact Hr | intros u; by apply step_write_failed | exact H].
  - by apply net_read_completed.
  - apply net_quiet; [later_field | by apply step_harvest | exact H].
  - by apply net_dispatched.
  - apply net_quiet; [later_field | apply step_batch_reset | exact H].
  - apply net_quiet; [|by apply step_batched_read | exact H].
    refine (later_trans _ _ _ _ (later_batched_read _)). later_field.
Qed.

Lemma net_reachable_ok c c' : rtc net_step c c' -> net_ok c -> net_ok c'.
Proof. induction 1; eauto using net_step_ok. Qed.

Lemma net_ok_new has_ap early e : net_ok (new_conn has_ap early e new_stream).
Proof.
  split; [intros _; reflexivity | apply rtc_refl |]. split; [exists []; reflexivity | reflexivity].
Qed.
End Native.

(** ** The five classes *)

Inductive endpoint : Type := EClient | EClass (k : tls_class).

Section Endpoints.
Context {EI : SSLEngine}.
Variable socket_name : string -> option pyval.
#[local] Hint Extern 0 RawTransport => exact (native_raw socket_name) : typeclass_instances.
Variables (ap_has_pause ap_has_resume : bool).
Variables (ssl_shutdown_timeout : option Q) (rounds : nat).

Definition endpoint_proto (k : endpoint) (factory : outcome unit)
    : (app_event -> M bool) -> (raw_cb -> M unit) -> ssl_proto :=
  match k with
  | EClient => SP.proto ap_has_pause ap_has_resume ssl_shutdown_timeout rounds
  | EClass k => tls_proto ap_has_pause ap_has_resume ssl_shutdown_timeout rounds k factory
  end.

Definition endpoint_init (k : endpoint) (early : bytes) (e : eng) : conn :=
  match k with
  | EClient => SP.init e new_stream
  | EClass k => tls_init k early e new_stream
  end.

#[local] Instance native_raw_laws : RawTransportLaws (native_raw socket_name) := native_laws socket_name.
#[local] Instance native_raw_reliable : RawReliable (native_raw socket_name) := native_reliable socket_name.

Lemma endpoint_ready k factory app cb :
  (forall e, keeps ready (app e)) -> (forall b, keeps ready (cb b)) ->
  never (fun e => is_paused_error e = true) (cb CbPauseWriting) ->
  ProtoReady (endpoint_proto k factory app cb).
Proof.
  intros H1 H2 H3. destruct k as [|[]]; cbn [endpoint_proto tls_proto];
    [by apply sp_ready | by apply tls_ready | by apply ssp_ready | by apply unix_sp_ready
    | by apply unix_ssp_ready].
Qed.

Lemma endpoint_traced k factory I (TI : Traced I) app cb :
  (forall e, keeps I (app e)) -> (forall b, keeps I (cb b)) ->
  ProtoTraced I (endpoint_proto k factory app cb).
Proof.
  intros H1 H2. destruct k as [|[]]; cbn [endpoint_proto tls_proto];
    [by apply sp_traced | by apply start_tls_traced | by apply ssp_traced | by apply unix_sp_traced
    | by apply unix_ssp_traced].
Qed.

Lemma endpoint_init_ok k early e : net_ok socket_name (endpoint_init k early e).
Proof. destruct k as [|[]]; apply net_ok_new. Qed.

(** C3: TLS over the native transport.  Each of the five protocol classes is run
    on the stream transport of the native core, with the upcalls of the transport
    ([resume_writing], the read upcalls, [connection_lost]) made where the native
    code makes them: the data of a read that was harvested from the ring is
    handed over by the batch dispatch of the runner, which does not look at the
    state of the transport and contains an exception of the upcall, before the
    read's own callback runs; a read the harvest left alone is handed over by
    its callback.  Engine, application and the order of calls, completions and
    errors are arbitrary.  The transport under the class only does what it does
    alone; as long as its write side is open the wire has a prefix of the
    ciphertext the engine produced; and as long as its write side is open and
    the transport has not started to drop writes, that ciphertext is, in order,
    what the kernel took, what the write queue holds and what waits in the BIO,
    or, once [connection_lost] dropped the BIO, it begins with the first two. *)
Theorem tls_end_to_end script n k factory early e c :
  rtc (net_step socket_name (endpoint_proto k factory) script n) (endpoint_init k early e) c ->
  let s := c_raw c in
  rtc (native_step socket_name) new_stream s
  /\ (wt_closed s = false -> st_wire s `prefix_of` emitted (c_log c))
  /\ (wt_closed s = false -> dropping s = false ->
      match c_outgoing c with
      | Some o => emitted (c_log c) = st_wire s ++ rest s ++ o
      | None => st_wire s ++ rest s `prefix_of` emitted (c_log c)
      end).
Proof.
  intros Hrun s.
  destruct (net_reachable_ok socket_name _ _ _ (endpoint_ready k factory) (endpoint_traced k factory)
              _ _ Hrun (endpoint_init_ok k early e)) as [Ho Hn [Ha1 Ha2]].
  pose proof (queue_ok_reachable _ _ _ Hn queue_ok_new) as (_ & _ & _ & _ & _ & _ & Hq).
  fold s in Hn, Ha1, Ha2, Hq. split; [exact Hn|].
  assert (Hs : wt_closed s = false -> stream_ok c) by exact Ho.
  unfold stream_ok in Hs. rewrite Hq in Ha1, Ha2. split.
  - intros Hc. specialize (Hs Hc). transitivity (sent (c_log c)).
    + transitivity (st_wire s ++ rest s); [by apply prefix_app_r | exact Ha1].
    + destruct (c_outgoing c) as [o|]; [rewrite Hs; by apply prefix_app_r | exact Hs].
  - intros Hc Hd. specialize (Hs Hc). rewrite <- (Ha2 Hd) in Hs.
    destruct (c_outgoing c) as [o|]; [by rewrite app_assoc | exact Hs].
Qed.
End Endpoints.

(** ** A server whose writing is paused and resumed *)

Import SSLExample.

Definition demo_variant := endpoint_proto (EI:=null_engine) (fun _ => None) true true None 2 (EClass CServer) (Ret tt).

Definition demo_step (s : stimulus (RI:=native)) c :=
  step (EI:=null_engine) (RI:=native) demo_variant chatty 3 s c.

Definition demo_0 := endpoint_init (EI:=null_engine) (fun _ => None) (EClass CServer) [] (NullEng [] []).
Definition demo_1 := demo_step SMade demo_0.

(** A read of one byte: harvested, dispatched with the batch, ended. *)
Definition demo_harvested : conn (EI:=null_engine) (RI:=native) :=
  set_field (proj := c_raw (EI:=null_engine) (RI:=native))
    (fun _ => harvest [x41] (c_raw demo_1)) demo_1.
Definition demo_read :=
  batched_read_completed (EI:=null_engine) (fun _ => None) 0
    (dispatched (EI:=null_engine) (fun _ => None) demo_variant chatty 3 demo_harvested).

Definition demo_2 := demo_step (SUser (USetLimits (Some 1%Z) (Some 0%Z))) demo_read.
Definition demo_paused := demo_step (SUser (UWrite [x06])) demo_2.

Definition demo_prepared : conn (EI:=null_engine) (RI:=native) :=
  set_field (proj := c_raw (EI:=null_engine) (RI:=native))
    (fun _ => flush_buffered_writes (c_raw demo_paused)) demo_paused.

Definition demo_write k c :=
  write_completed (EI:=null_engine) (fun _ => None) demo_variant chatty 3 (CWritten k) c.

Definition demo_sent := demo_write 1 demo_prepared.
Definition demo_resumed := demo_write 2 demo_sent.

Abbreviation demo_net_step :=
  (net_step (EI:=null_engine) (fun _ => None) demo_variant chatty 3).

Lemma demo_run : rtc demo_net_step demo_0 demo_resumed.
Proof.
  apply (rtc_l _ _ demo_1); [exact (net_external _ _ _ _ SMade demo_0 eq_refl)|].
  apply (rtc_l _ _ demo_harvested).
  { refine (net_harvest _ _ _ _ [x41] demo_1 _ _); vm_compute; reflexivity. }
  eapply rtc_l; [refine (net_dispatch _ _ _ _ demo_harvested _); vm_compute; reflexivity|].
  apply (rtc_l _ _ demo_read).
  { refine (net_batched_read _ _ _ _ 0 _ _ _); vm_compute; reflexivity. }
  apply (rtc_l _ _ demo_2); [exact (net_external _ _ _ _ (SUser (USetLimits _ _)) demo_read eq_refl)|].
  apply (rtc_l _ _ demo_paused); [exact (net_external _ _ _ _ (SUser (UWrite [x06])) demo_2 eq_refl)|].
  apply (rtc_l _ _ demo_prepared); [exact (net_prepare _ _ _ _ demo_paused)|].
  apply (rtc_l _ _ demo_sent).
  { refine (net_written _ _ _ _ 1 demo_prepared _ _ _); [vm_compute; reflexivity..|].
    split; apply Nat.leb_le; vm_compute; reflexivity. }
  apply (rtc_l _ _ demo_resumed); [|apply rtc_refl].
  refine (net_written _ _ _ _ 2 demo_sent _ _ _); [vm_compute; reflexivity..|].
  split; apply Nat.leb_le; vm_compute; reflexivity.
Qed.

Lemma tls_end_to_end_witness :
  st_wire (c_raw demo_resumed) = [x16; x01; x02] /\ rest (c_raw demo_resumed) = [x0a; x06]
  /\ c_outgoing demo_resumed = Some []
  /\ emitted (c_log demo_resumed) = st_wire (c_raw demo_resumed) ++ rest (c_raw demo_resumed) ++ [].
Proof.
  split; [vm_compute; reflexivity|]. split; [vm_compute; reflexivity|].
  assert (Ho : c_outgoing demo_resumed = Some []) by (vm_compute; reflexivity). split; [exact Ho|].
  destruct (tls_end_to_end (EI:=null_engine) (fun _ => None) true true None 2 chatty 3
              (EClass CServer) (Ret tt) [] (NullEng [] []) demo_resumed demo_run) as (_ & _ & H).
  rewrite Ho in H. apply H; vm_compute; reflexivity.
Defined.
