(* ===== verification/SSLPlain.v ===== *)
(** * Plaintext order, shutdown and termination of the wrapper *)

From stdpp Require Import base list strings gmap.
From Stdlib Require Import Strings.Byte QArith.
From S2P Require Import Prelude SSLConn StreamTransport SSLWrapper SSLProto SSLClient StartTLS SSLServer SSLUnix SSLStable SSLExample.

Close Scope Q_scope.
Import SSLTransportWrapper.

(** ** Plaintext *)

Definition wants (e : exn) : bool :=
  match e with SSLWantReadError | SSLWantWriteError => true | _ => false end.

(** The engine failed for good on this connection. *)
Definition engine_failed (l : list event) : Prop :=
  exists e, EvEngineRaised e ∈ l /\ wants e = false.

Section Plain.
Context {EI : SSLEngine} {RI : RawTransport}.

(** What the engine took, then what the wrapper buffers. *)
Definition plain (c : conn) : bytes := consumed (c_log c) ++ concat (w_buffer c).

(** Unless the engine failed, the plaintext accounted for is [p]. *)
Definition kept (p : bytes) (c : conn) : Prop :=
  engine_failed (c_log c) \/ plain c = p.

Lemma failed_app l e : engine_failed l -> engine_failed (l ++ [e]).
Proof. intros (x & Hx & Hw). exists x. split; [set_solver | exact Hw]. Qed.

(** Events and writes that touch neither the buffer nor what was consumed. *)
Lemma kept_frame p c c' l :
  c_log c' = c_log c ++ l -> consumed l = [] -> w_buffer c' = w_buffer c ->
  kept p c -> kept p c'.
Proof.
  intros Hl Hc Hb [(x & Hx & Hw)|Hp].
  - left. exists x. rewrite Hl. split; [set_solver | exact Hw].
  - right. unfold plain in *. by rewrite Hl, consumed_app, Hc, app_nil_r, Hb.
Qed.

(** The engine's answer to [write]: it takes a prefix, wants something, or
    fails. *)
Lemma sslobj_write_spec d c :
  let r := sslobj_write d c in
  w_buffer r.2 = w_buffer c /\ c_paused r.2 = c_paused c /\
  (exists l, c_log r.2 = c_log c ++ l) /\
  match r.1 with
  | Ret n => consumed (c_log r.2) = consumed (c_log c) ++ take n d
  | Raise e => consumed (c_log r.2) = consumed (c_log c) /\
               (wants e = false -> engine_failed (c_log r.2))
  end.
Proof.
  unfold sslobj_write, bind, engine. destruct (c_sslobj c) as [e|]; cbn.
  - destruct (eo_res (eng_write d (default [] (c_incoming c)) e)) as [n|x]; cbn;
      (split; [done|split; [done|split; [rewrite <- ?app_assoc; by eexists|]]]);
      autorewrite with streams; [done|].
    split; [done|]. intros Hx. exists x. split; [set_solver | exact Hx].
  - split; [done|split; [done|split; [by eexists|]]].
    autorewrite with streams. split; [done|].
    intros _. exists AttributeError. split; [set_solver | done].
Qed.
End Plain.

Section PlainWrapper.
Context {EI : SSLEngine} {RI : RawTransport} {PI : SSPInterface}.
(** The flow-control upcalls of the application write nothing. *)
Hypothesis f_kept : forall p, keeps (kept p) ssp_f.
Hypothesis up_kept : forall p b, keeps (kept p) (up b).

Lemma keeps_kept_schedule p e : keeps (kept p) (schedule_fatal e).
Proof. unfold schedule_fatal, loop_usable. keeps_tac. Qed.

Lemma keeps_kept_raw p op : keeps (kept p) (raw_t up op).
Proof.
  intros c Hc. unfold raw_t. destruct (c_has_raw c); [|exact Hc].
  destruct (ro_res _) as [v|e]; [|exact Hc].
  apply keeps_bind; [by apply keeps_for_each | intros; apply keeps_ret |].
  by apply (kept_frame p c _ [EvRaw op]).
Qed.

(** A [write] made while the wrapper buffers nothing (or writing is paused)
    goes to the end of the plaintext stream: what the engine took followed by
    what the wrapper buffers grows by exactly the data, however much of it the
    engine takes and whether it wants to read or to write first, unless the
    engine failed. *)
Theorem write_appends_plaintext d c :
  c_paused c = true \/ w_buffer c = [] ->
  engine_failed (c_log (write d c).2) \/ plain (write d c).2 = plain c ++ d.
Proof.
  intros Hpre. change (kept (plain c ++ d) (write d c).2).
  unfold write. unfold bind at 1, gets at 1. destruct (c_paused c) eqn:Ep.
  { right. unfold plain, buffer_append. cbn. by rewrite concat_app, app_assoc; cbn; rewrite app_nil_r. }
  destruct Hpre as [?|Hb]; [discriminate|].
  destruct (sslobj_write_spec d c) as (Hwb & _ & [l Hl] & Hr).
  unfold bind, try_else, when.
  destruct (sslobj_write d c) as [[n|e] c1]; cbn [fst snd] in *.
  - rewrite Hb in Hwb. destruct (n <? length d)%nat eqn:En; cbn; apply f_kept; right;
      unfold plain; rewrite Hb; cbn; rewrite Hwb, Hr; cbn; rewrite ?app_nil_r.
    + by rewrite <- app_assoc, take_drop.
    + apply Nat.ltb_ge in En. by rewrite take_ge.
  - destruct Hr as [Hc Hf]. unfold orelse, except.
    assert (Hbuf : wants e = true -> kept (plain c ++ d) (c1 <| w_buffer := w_buffer c1 ++ [d] |>)).
    { intros _. right. unfold plain. cbn. rewrite Hwb, Hc, Hb. cbn.
      by rewrite !app_nil_r. }
    case_bool_decide; [subst e; apply f_kept; by apply Hbuf|].
    case_bool_decide; [subst e; apply f_kept; by apply Hbuf|].
    assert (Hw : wants e = false) by (destruct e; done).
    specialize (Hf Hw).
    assert (H1 : kept (plain c ++ d) c1) by by left.
    destruct (is_SSLError e); [|exact H1]. unfold bind.
    pose proof (f_kept _ c1 H1) as H2. destruct (ssp_f c1) as [[[]|e'] c2]; [|exact H2].
    pose proof (keeps_kept_schedule _ e c2 H2) as H3.
    by destruct (schedule_fatal e c2) as [[[]|e'] c3].
Qed.

(** ** The flush *)

(** A round of the first loop keeps the order: the chunk is taken, or what is
    left of it goes back in front. *)
Lemma flush_step_kept p d c :
  kept p (c <| w_buffer := d :: w_buffer c |>) -> kept p (flush_plain_step d c).2.
Proof.
  intros Hk. unfold flush_plain_step, try_else.
  destruct (sslobj_write_spec d c) as (Hwb & _ & [l Hl] & Hr).
  destruct (sslobj_write d c) as [[n|e] c1]; cbn [fst snd] in *.
  - destruct Hk as [(x & Hx & Hw)|Hp].
    + assert (Hf : engine_failed (c_log c1))
        by (exists x; cbn in Hx; rewrite Hl; split; [set_solver | exact Hw]).
      destruct (n <? length d)%nat; by left.
    + right. unfold plain in *. cbn in Hp.
      destruct (n <? length d)%nat eqn:En; cbn; rewrite Hwb, Hr, <- Hp; cbn.
      * by rewrite <- app_assoc, (app_assoc (take n d)), take_drop.
      * apply Nat.ltb_ge in En. by rewrite take_ge, app_assoc.
  - destruct Hr as [Hc Hf]. unfold orelse, except.
    assert (Hbuf : kept p (c1 <| w_buffer := d :: w_buffer c1 |>)).
    { destruct Hk as [(x & Hx & Hw)|Hp].
      - left. exists x. cbn in *. rewrite Hl. split; [set_solver | exact Hw].
      - right. unfold plain in *. cbn in *. by rewrite Hwb, Hc. }
    case_bool_decide; [exact Hbuf|]. case_bool_decide; [exact Hbuf|].
    assert (Hw : wants e = false) by (destruct e; done).
    assert (H1 : kept p c1) by (left; auto).
    destruct (is_SSLError e); [|exact H1]. unfold bind.
    pose proof (f_kept _ c1 H1) as H2. destruct (ssp_f c1) as [[[]|e'] c2]; [|exact H2].
    pose proof (keeps_kept_schedule _ e c2 H2) as H3.
    by destruct (schedule_fatal e c2) as [[[]|e'] c3].
Qed.

(** One unfolding of the first loop. *)
Lemma flush_plain_cons n c d rest :
  w_buffer c = d :: rest ->
  flush_plain (S n) c =
  match flush_plain_step d (c <| w_buffer := rest |>) with
  | (Ret FAgain, c1) => flush_plain n c1
  | (Ret FBreak, c1) => (Ret true, c1)
  | (Ret FReturn, c1) => (Ret false, c1)
  | (Raise e, c1) => (Raise e, c1)
  end.
Proof.
  intros Hb. cbn [flush_plain]. unfold bind at 1, gets at 1. rewrite Hb.
  unfold bind, modify. by destruct (flush_plain_step d _) as [[[| |]|e] c1].
Qed.

Lemma flush_plain_kept p n : keeps (kept p) (flush_plain n).
Proof.
  induction n as [|n IH]; intros c Hk; [exact Hk|].
  destruct (w_buffer c) as [|d rest] eqn:Eb.
  - cbn. unfold bind, gets. by rewrite Eb.
  - rewrite (flush_plain_cons n c d rest Eb).
    assert (H0 : kept p (c <| w_buffer := rest |> <| w_buffer := d :: rest |>)).
    { destruct Hk as [Hf|Hp]; [left; exact Hf|right]. unfold plain in *.
      by rewrite Eb in Hp. }
    pose proof (flush_step_kept p d _ H0) as Hs.
    destruct (flush_plain_step d _) as [[[| |]|e] c1]; cbn in *; auto.
Qed.

Lemma keeps_kept_cipher_step p : keeps (kept p) flush_cipher_step.
Proof.
  unfold flush_cipher_step. apply keeps_bind.
  { intros c Hc. unfold outgoing_read. by destruct (c_outgoing c). }
  intros [|b d]; [apply keeps_ret|]. apply keeps_try_except.
  - apply keeps_bind; [apply keeps_kept_raw | intros; apply keeps_ret].
  - intros e m' Hm. handler_cases. apply keeps_if; intros _; [|apply keeps_raise].
    apply keeps_bind; [|intros; apply keeps_ret].
    intros c Hc. unfold outgoing_write. by destruct (c_outgoing c).
Qed.

(** C4: [_flush_write_buffer] feeds the buffered plaintext to the engine in
    order and loses none of it, provided the upcalls made while it runs write
    none: if neither the upcall of [_f] ([f_kept]) nor the application's
    [pause_writing] and [resume_writing] ([up_kept]) change the plaintext, then
    whatever the engine answers, either the engine failed or what it took
    followed by what is still buffered is unchanged. *)
Theorem flush_keeps_plaintext c :
  engine_failed (c_log (_flush_write_buffer c).2) \/
  plain (_flush_write_buffer c).2 = plain c.
Proof.
  change (kept (plain c) (_flush_write_buffer c).2).
  assert (Hk : kept (plain c) c) by by right. revert Hk.
  generalize (plain c) as p. intros p. revert c.
  change (keeps (kept p) _flush_write_buffer).
  unfold _flush_write_buffer. apply keeps_bind; [apply keeps_gets|]. intros buf.
  apply keeps_bind; [apply flush_plain_kept|]. intros []; [|apply keeps_ret].
  apply keeps_bind; [apply keeps_gets|]. intros []; [|apply keeps_ret].
  apply keeps_loop, keeps_kept_cipher_step.
Qed.
End PlainWrapper.

(** The upcalls of an application without [pause_writing] satisfy the
    hypothesis of both theorems. *)
Section Instances.
Context {EI : SSLEngine} {RI : RawTransport}.
Variable cb : raw_cb -> M unit.
Hypothesis cb_kept : forall p b, keeps (kept p) (cb b).

Lemma sp_f_kept p : keeps (kept p) (SP._f cb).
Proof.
  unfold SP._f. apply keeps_bind.
  { intros c Hc. unfold outgoing_read. by destruct (c_outgoing c). }
  intros [|b d]; [apply keeps_ret|]. apply keeps_try_except.
  - apply keeps_bind; [|intros; apply keeps_ret].
    apply (keeps_kept_raw (PI:=SP.iface None 2 cb)). exact cb_kept.
  - intros e m' Hm. handler_cases. apply keeps_if; intros _; [|apply keeps_raise].
    intros c Hc. unfold outgoing_write. by destruct (c_outgoing c).
Qed.
End Instances.

(** ** Termination of the flush *)

Section Termination.
Context {EI : SSLEngine} {EL : SSLEngineLaws EI}.
Context {RI : RawTransport} {RL : RawTransportLaws RI} {PI : SSPInterface}.
Hypothesis f_ends : forall c, (ssp_f c).1 <> Raise Diverges.
(** The pause upcall produces no ciphertext. *)
Hypothesis up_silent : forall c,
  (up CbPauseWriting c).1 <> Raise Diverges /\
  (c_outgoing c = Some [] -> c_outgoing (up CbPauseWriting c).2 = Some []).

Lemma sslobj_write_le d c n : (sslobj_write d c).1 = Ret n -> (n <= length d)%nat.
Proof.
  unfold sslobj_write, bind, engine. destruct (c_sslobj c) as [e|]; [|discriminate]. cbn.
  destruct (eo_res (eng_write d (default [] (c_incoming c)) e)) as [k|x] eqn:E;
    [|discriminate].
  intros [= <-]. exact (eng_write_le _ _ _ _ E).
Qed.

Lemma sslobj_write_ends d c : (sslobj_write d c).1 <> Raise Diverges.
Proof.
  unfold sslobj_write, bind, engine. destruct (c_sslobj c) as [e|]; [|discriminate]. cbn.
  destruct (eo_res (eng_write d (default [] (c_incoming c)) e)) as [k|x] eqn:E;
    [discriminate|].
  intros [= ->]. by apply (eng_write_total d (default [] (c_incoming c)) e).
Qed.

Lemma schedule_fatal_ends e c : (schedule_fatal e c).1 = Ret tt.
Proof. unfold schedule_fatal, loop_usable, bind, gets, when. by destruct (_ && _). Qed.

(** A round that goes on has made the buffer lighter. *)
Lemma flush_step_progress d c :
  (flush_plain_step d c).1 <> Raise Diverges /\
  ((flush_plain_step d c).1 = Ret FAgain ->
   (buffer_weight (w_buffer (flush_plain_step d c).2)
    < buffer_weight (d :: w_buffer c))%nat).
Proof.
  destruct (sslobj_write_spec d c) as (Hwb & _ & _ & Hr).
  pose proof (sslobj_write_le d c) as Hle. pose proof (sslobj_write_ends d c) as Hne.
  unfold flush_plain_step, try_else.
  destruct (sslobj_write d c) as [[n|e] c1]; cbn [fst snd] in *.
  - specialize (Hle n eq_refl).
    destruct (n <? length d)%nat eqn:En.
    + apply Nat.ltb_lt in En. split; [by destruct (n =? 0)%nat|]. cbn.
      destruct (n =? 0)%nat eqn:E0; [discriminate|]. apply Nat.eqb_neq in E0. intros _.
      rewrite Hwb, length_drop. lia.
    + split; [discriminate|]. intros _. cbn. rewrite Hwb. unfold buffer_weight. lia.
  - unfold orelse, except. case_bool_decide; [done|]. case_bool_decide; [done|].
    destruct (is_SSLError e); [|split; [intros [= ->]; by apply Hne|discriminate]].
    unfold bind. pose proof (f_ends c1) as Hf. destruct (ssp_f c1) as [[[]|x] c2];
      [|split; [intros [= ->]; by apply Hf | discriminate]].
    pose proof (schedule_fatal_ends e c2) as Hs.
    destruct (schedule_fatal e c2) as [o c3]. cbn in Hs. subst o. by split.
Qed.

Lemma flush_plain_ends n c :
  (buffer_weight (w_buffer c) < n)%nat -> (flush_plain n c).1 <> Raise Diverges.
Proof.
  revert c. induction n as [|n IH]; intros c Hn; [lia|].
  destruct (w_buffer c) as [|d rest] eqn:Eb.
  - cbn. unfold bind, gets. by rewrite Eb.
  - rewrite (flush_plain_cons n c d rest Eb).
    destruct (flush_step_progress d (c <| w_buffer := rest |>)) as [H1 H2].
    destruct (flush_plain_step d _) as [[[| |]|e] c1]; cbn [fst snd] in *;
      [|discriminate..|intros [= ->]; by apply H1].
    apply IH. specialize (H2 eq_refl). cbn [w_buffer] in H2.
    change (w_buffer (c <| w_buffer := rest |>)) with rest in H2. lia.
Qed.

Lemma pause_upcalls_silent l c :
  (forall b, b ∈ l -> b = CbPauseWriting) ->
  (for_each l up c).1 <> Raise Diverges /\
  (c_outgoing c = Some [] -> c_outgoing (for_each l up c).2 = Some []).
Proof.
  revert c. induction l as [|b l IH]; intros c Hl; [done|].
  assert (b = CbPauseWriting) as -> by (apply Hl; set_solver).
  cbn. unfold bind. destruct (up_silent c) as [H1 H2].
  destruct (up CbPauseWriting c) as [[[]|e] c1]; cbn in *; [|auto].
  destruct (IH c1 ltac:(intros; apply Hl; set_solver)) as [H3 H4]. auto.
Qed.

(** A round of the second loop leaves the BIO empty if another one follows. *)
Lemma cipher_step_ends c :
  match flush_cipher_step c with
  | (o, c') => o <> Raise Diverges /\ (o = Ret true -> c_outgoing c' = Some [])
  end.
Proof.
  unfold flush_cipher_step. unfold bind at 1, outgoing_read.
  destruct (c_outgoing c) as [[|b d]|];
    [split; discriminate| |split; discriminate].
  set (c1 := c <| c_outgoing := Some [] |>).
  unfold try_except, try_else, bind at 1, raw_t. change (c_has_raw c1) with (c_has_raw c).
  destruct (c_has_raw c); [|split; discriminate].
  pose proof (raw_total (RWrite (b :: d)) (c_raw c1)) as Ht.
  destruct (ro_res _) as [v|e].
  - set (c2 := c1 <| c_raw := _ |> <| c_log := _ |>).
    destruct (pause_upcalls_silent (ro_cbs (raw_call (RWrite (b :: d)) (c_raw c1))) c2)
      as [H1 H2]; [intros x; apply raw_write_only_pauses|].
    specialize (H2 eq_refl). unfold bind at 1.
    destruct (for_each _ up c2) as [[[]|x] c3]; cbn in *; [auto|].
    assert (Hx : x <> Diverges) by congruence.
    unfold except. destruct (is_RuntimeError x); [|split; congruence].
    destruct (str_in _ _); [|split; congruence].
    unfold bind, outgoing_write. rewrite H2. by split.
  - assert (Hx : e <> Diverges) by congruence. cbn. unfold except.
    destruct (is_RuntimeError e); [|split; congruence].
    destruct (str_in _ _); split; congruence.
Qed.

(** [_flush_write_buffer] terminates: the plaintext loop in fewer rounds
    than the buffered bytes and chunks, whatever partial writes the engine
    makes, and the ciphertext loop in two, provided the application's
    [pause_writing] produces no ciphertext of its own. *)
Theorem flush_terminates c :
  (2 <= cipher_fuel)%nat -> (_flush_write_buffer c).1 <> Raise Diverges.
Proof.
  intros Hfuel. unfold _flush_write_buffer. unfold bind at 1, gets at 1.
  pose proof (flush_plain_ends (S (buffer_weight (w_buffer c))) c ltac:(lia)) as Hp.
  unfold bind at 1. destruct (flush_plain _ c) as [[[]|e] c1];
    [|done|intros [= ->]; by apply Hp].
  unfold bind at 1, gets at 1. destruct (c_outgoing c1); [|done].
  destruct cipher_fuel as [|[|k]]; [lia..|]. cbn [loop]. unfold bind at 1.
  pose proof (cipher_step_ends c1) as H1.
  destruct (flush_cipher_step c1) as [[[]|e] c2]; destruct H1 as [H1 H2]; cbn;
    [|done|intros [= ->]; by apply H1].
  specialize (H2 eq_refl). unfold bind at 1, flush_cipher_step at 1, bind, outgoing_read.
  by rewrite H2.
Qed.
End Termination.

(** ** Closing *)

Section Closing.
Context {EI : SSLEngine} {RI : RawTransport} {PI : SSPInterface}.

(** The history only grows. *)
Definition logged (l : list event) (c : conn) : Prop := l `prefix_of` c_log c.

#[export] Instance logged_stable l : Stable (logged l).
Proof.
  split.
  - intros c c' Hl _ _ H. unfold logged. by rewrite Hl.
  - intros e c _ H. unfold logged. cbn. by apply prefix_app_r.
Qed.

Lemma raw_closed_logged l c : raw_closed l = true -> logged l c -> raw_closed (c_log c) = true.
Proof.
  intros H [k Hk]. unfold raw_closed in *. by rewrite Hk, existsb_app, H.
Qed.

Hypothesis f_logged : forall l, keeps (logged l) ssp_f.
Hypothesis up_logged : forall l b, keeps (logged l) (up b).

(** What [m] guarantees when it returns. *)
Definition returns {A} (m : M A) (Q : A -> conn -> Prop) : Prop :=
  forall c, match m c with (Ret a, c') => Q a c' | (Raise _, _) => True end.

Lemma returns_bind {A B} (m : M A) (k : A -> M B) R Q :
  returns m R -> (forall a c, R a c -> match k a c with
                                       | (Ret b, c') => Q b c'
                                       | (Raise _, _) => True
                                       end) ->
  returns (bind m k) Q.
Proof.
  intros Hm Hk c. specialize (Hm c). unfold bind. destruct (m c) as [[a|e] c1]; [|done].
  by apply Hk.
Qed.

(** Whatever ran before. *)
Lemma returns_seq {A B} (m : M A) (k : A -> M B) Q :
  (forall a, returns (k a) Q) -> returns (bind m k) Q.
Proof.
  intros Hk. apply (returns_bind m k (fun _ _ => True)).
  - intros c. by destruct (m c) as [[a|e] c1].
  - intros a c _. apply Hk.
Qed.

(** A raw call that returns is in the history. *)
Lemma close_call_logged : returns (raw_t_ up RClose) (fun _ c => raw_closed (c_log c) = true).
Proof.
  intros c. unfold raw_t_, raw_t, bind. destruct (c_has_raw c); [|done].
  destruct (ro_res _) as [v|e]; [|done].
  set (c2 := c <| c_raw := _ |> <| c_log := _ |>).
  assert (H : keeps (logged (c_log c2)) (for_each (ro_cbs (raw_call RClose (c_raw c))) up))
    by (apply keeps_for_each; intros; apply up_logged).
  specialize (H c2 ltac:(by unfold logged)).
  assert (Hc2 : raw_closed (c_log c2) = true).
  { cbn. unfold raw_closed. rewrite existsb_app. cbn. apply orb_true_r. }
  destruct (for_each _ up c2) as [[[]|e] c3]; cbn in *; [|done].
  exact (raw_closed_logged _ _ Hc2 H).
Qed.

Lemma force_close_closes : returns _force_close (fun _ c => raw_closed (c_log c) = true).
Proof. do 2 (apply returns_seq; intros ?). apply close_call_logged. Qed.

Definition settled (c : conn) : Prop :=
  raw_closed (c_log c) = true \/ w_timer c <> None \/ w_buffer c <> [].

Lemma returns_settled {A} (m : M A) :
  returns m (fun _ c => raw_closed (c_log c) = true) -> returns m (fun _ => settled).
Proof. intros H c. specialize (H c). destruct (m c) as [[a|e] c1]; [by left | done]. Qed.

Lemma shutdown_wants_settles : returns shutdown_wants (fun _ => settled).
Proof.
  apply returns_seq; intros _. apply returns_seq; intros t. apply returns_seq; intros ok.
  destruct (match t with Some _ => false | None => ok end).
  - intros c. right. left. discriminate.
  - apply returns_settled, force_close_closes.
Qed.

Lemma start_shutdown_settles : returns _start_shutdown (fun _ => settled).
Proof.
  apply returns_seq; intros _.
  intros c. unfold bind at 1, gets. destruct (w_buffer c) as [|d rest] eqn:Eb.
  2:{ right. right. cbn. by rewrite Eb. }
  clear Eb. revert c. apply (returns_bind _ _ (fun go c => go = false -> settled c)).
  - intros c. unfold try_else. destruct (engine eng_unwrap c) as [[[]|e] c1];
      [cbn; discriminate|].
    assert (Hw : returns (shutdown_wants ;;; ret false) (fun go c => go = false -> settled c)).
    { apply (returns_bind _ _ (fun _ => settled)); [apply shutdown_wants_settles|].
      intros [] c' Hc' _. exact Hc'. }
    unfold orelse, except. case_bool_decide; [apply Hw|]. case_bool_decide; [apply Hw|].
    destruct (is_Exception e); cbn; [discriminate | done].
  - intros [] c Hc; [|by apply Hc].
    assert (H : returns (ssp_f ;;; _force_close) (fun _ => settled))
      by (apply returns_seq; intros _; apply returns_settled, force_close_closes).
    exact (H c).
Qed.

(** A [close] that returns has settled the shutdown in one of three ways:
    the raw transport was closed, or the shutdown timer that will close it is
    armed, or plaintext is still buffered. *)
Theorem close_settles c :
  w_closing c = false -> (close c).1 = Ret tt ->
  let c' := (close c).2 in
  raw_closed (c_log c') = true \/ w_timer c' <> None \/ w_buffer c' <> [].
Proof.
  intros Hc. pose proof (start_shutdown_settles (c <| w_closing := true |>)) as H.
  unfold close, bind, gets, modify. rewrite Hc. cbn in H |- *.
  destruct (_start_shutdown _) as [[[]|e] c']; [by intros _ | discriminate].
Qed.
End Closing.

(** ** A write the transport refuses *)

Section Refused.
Context {EI : SSLEngine} {RI : RawTransport}.
Variable cb : raw_cb -> M unit.

(** C33: when the raw transport refuses a write because writing is paused, the
    [_f] of [_create_ssl_connection] puts the ciphertext back and returns; the
    [_f] of the four other classes lets the error escape and the ciphertext it
    had read from the BIO is gone. *)
Theorem refused_write_kept_or_lost c d m :
  c_has_raw c = true -> c_outgoing c = Some d -> d <> [] ->
  str_in paused_message m = true ->
  ro_res (raw_call (RWrite d) (c_raw c)) = Raise (RuntimeError m) ->
  (let r := SP._f cb c in
   r.1 = Ret tt /\ c_outgoing r.2 = Some d /\ c_log r.2 = c_log c) /\
  Forall (fun f => let r := f cb c in
            r.1 = Raise (RuntimeError m) /\ c_outgoing r.2 = Some [] /\
            c_log r.2 = c_log c)
    [StartTLS._f; SSP._f; UnixSP._f; UnixSSP._f].
Proof.
  intros Hr Ho Hd Hm Hres.
  assert (Hcall : raw_t cb (RWrite d) (c <| c_outgoing := Some [] |>) =
    (Raise (RuntimeError m),
     c <| c_outgoing := Some [] |> <| c_raw := ro_raw (raw_call (RWrite d) (c_raw c)) |>)).
  { unfold raw_t. change (c_has_raw (c <| c_outgoing := Some [] |>)) with (c_has_raw c).
    rewrite Hr. change (c_raw (c <| c_outgoing := Some [] |>)) with (c_raw c). by rewrite Hres. }
  destruct d as [|b d]; [done|]. split.
  - unfold SP._f, bind, outgoing_read, try_except, try_else, raw_t_, bind, except.
    rewrite Ho, Hcall. cbn [is_RuntimeError exn_str]. rewrite Hm. by repeat split.
  - unfold StartTLS._f, SSP._f, UnixSP._f, UnixSSP._f.
    assert (H : let r := push_outgoing cb c in
      r.1 = Raise (RuntimeError m) /\ c_outgoing r.2 = Some [] /\ c_log r.2 = c_log c).
    { unfold push_outgoing, bind, outgoing_read, raw_t_, bind. rewrite Ho, Hcall.
      by repeat split. }
    do 4 (apply Forall_cons_2; [exact H|]). apply Forall_nil_2.
Qed.

(** [close] on a client connection that was already lost raises
    [AttributeError] (there is no engine and no BIO any more) and never reaches
    [_force_close]: nothing it adds to the history is a call on the raw
    transport. *)
Theorem close_after_connection_lost e c t rounds (app : app_event -> M bool) :
  let lost := SP.connection_lost app e c in
  lost.1 = Ret tt -> w_buffer lost.2 = [] -> w_closing lost.2 = false ->
  let r := @close _ _ (SP.iface t rounds cb) lost.2 in
  r.1 = Raise AttributeError /\ w_closing r.2 = true /\ w_timer r.2 = w_timer lost.2 /\
  c_log r.2 = c_log lost.2 ++
    [EvEngineRaised AttributeError; EvLog "Unhandled exception in event loop callback"].
Proof.
  cbn zeta. intros Hret.
  assert (Hn : c_sslobj (SP.connection_lost app e c).2 = None /\
               c_outgoing (SP.connection_lost app e c).2 = None).
  { revert Hret. unfold SP.connection_lost, bind.
    by destruct (guarded _ _ c) as [[[]|x] c1]. }
  destruct Hn as [Hs Ho]. clear Hret. revert Hs Ho.
  generalize (SP.connection_lost app e c).2 as c1. intros c1 Hs Ho Hb Hc.
  unfold close, bind, gets, modify. rewrite Hc.
  set (c2 := c1 <| w_closing := true |>).
  assert (Hf : @_flush_write_buffer _ _ (SP.iface t rounds cb) c2 = (Ret tt, c2)).
  { unfold _flush_write_buffer, bind, gets. change (w_buffer c2) with (w_buffer c1).
    rewrite Hb. cbn. unfold bind, gets. change (w_buffer c2) with (w_buffer c1).
    rewrite Hb. cbn. change (c_outgoing c2) with (c_outgoing c1). by rewrite Ho. }
  assert (Hg : exists c3, @_start_shutdown _ _ (SP.iface t rounds cb) c2 =
      (Raise AttributeError, c3) /\ w_closing c3 = true /\ w_timer c3 = w_timer c1 /\
      c_log c3 = c_log c1 ++ [EvEngineRaised AttributeError] ++
        [EvLog "Unhandled exception in event loop callback"]).
  { unfold _start_shutdown, bind, gets. rewrite Hf. change (w_buffer c2) with (w_buffer c1).
    rewrite Hb. unfold try_else, engine. change (c_sslobj c2) with (c_sslobj c1).
    rewrite Hs. unfold orelse, except. rewrite !bool_decide_eq_false_2 by discriminate.
    cbn [is_Exception]. unfold bind, ret. cbn. unfold SP._f, bind, outgoing_read.
    cbn. rewrite Ho. eexists. split; [reflexivity|]. cbn.
    rewrite <- app_assoc. by repeat split. }
  destruct Hg as (c3 & -> & H1 & H2 & H3). by repeat split.
Qed.
End Refused.

(** ** On the native transport, with an application that only notes the pause *)

Section Demo.
#[local] Existing Instance null_engine.
#[local] Existing Instance native.

Lemma quiet_cb_kept p b : keeps (kept p) (quiet_cb b).
Proof. by destruct b; intros c Hc. Qed.

Lemma quiet_cb_logged l b : keeps (logged l) (quiet_cb b).
Proof. by destruct b; intros c Hc. Qed.

Lemma demo_f_kept p : keeps (kept p) (@ssp_f _ _ demo_iface).
Proof. apply sp_f_kept. exact quiet_cb_kept. Qed.

Lemma demo_f_logged l : keeps (logged l) (@ssp_f _ _ demo_iface).
Proof. apply keeps_stable_sp_f. apply quiet_cb_logged. Qed.

Lemma demo_upcalls_end cbs c : exists c', for_each cbs quiet_cb c = (Ret tt, c').
Proof.
  revert c. induction cbs as [|[] cbs IH]; intros c; [by eexists|..]; cbn; apply IH.
Qed.

Lemma demo_f_ends c : (@ssp_f _ _ demo_iface c).1 <> Raise Diverges.
Proof.
  cbn. unfold SP._f, bind, outgoing_read. destruct (c_outgoing c) as [[|b d]|];
    [discriminate| |discriminate].
  set (c1 := c <| c_outgoing := Some [] |>).
  unfold try_except, try_else, raw_t_, raw_t, bind. change (c_has_raw c1) with (c_has_raw c).
  destruct (c_has_raw c); [|discriminate].
  pose proof (raw_total (RWrite (b :: d)) (c_raw c1)) as Ht.
  destruct (ro_res _) as [v|e].
  - set (c2 := c1 <| c_raw := _ |> <| c_log := _ |>).
    destruct (demo_upcalls_end (ro_cbs (raw_call (RWrite (b :: d)) (c_raw c1))) c2) as [c3 E].
    rewrite E. discriminate.
  - unfold except. destruct (is_RuntimeError e); [|cbn; congruence].
    destruct (str_in _ _); [discriminate|]. cbn. congruence.
Qed.

Lemma write_appends_plaintext_witness :
  let c := demo_conn [Accept 1] in
  plain (@write _ _ demo_iface [x01; x02] c).2 = plain c ++ [x01; x02] /\
  (engine_failed (c_log (@write _ _ demo_iface [x01; x02] c).2) \/
   plain (@write _ _ demo_iface [x01; x02] c).2 = plain c ++ [x01; x02]).
Proof.
  split; [vm_compute; reflexivity|].
  apply (write_appends_plaintext (PI:=demo_iface) demo_f_kept). by right.
Defined.

Lemma flush_keeps_plaintext_witness :
  let c := demo_conn [Accept 1; WantRead] <| w_buffer := [[x01; x02]; [x03]] |> in
  w_buffer (@_flush_write_buffer _ _ demo_iface c).2 = [[x02]; [x03]] /\
  (engine_failed (c_log (@_flush_write_buffer _ _ demo_iface c).2) \/
   plain (@_flush_write_buffer _ _ demo_iface c).2 = plain c).
Proof.
  split; [vm_compute; reflexivity|].
  apply (flush_keeps_plaintext (PI:=demo_iface) demo_f_kept quiet_cb_kept).
Defined.

Lemma flush_terminates_witness :
  let c := demo_conn [Accept 1] <| w_buffer := [[x01; x02]; []] |> in
  (@_flush_write_buffer _ _ demo_iface c).1 <> Raise Diverges.
Proof.
  apply (flush_terminates (PI:=demo_iface) demo_f_ends); [|cbn; lia].
  intros c. split; [discriminate | by intros ?].
Defined.

Lemma close_settles_witness :
  let c := (demo_conn []) in
  raw_closed (c_log (@close _ _ demo_iface c).2) = true /\
  (raw_closed (c_log (@close _ _ demo_iface c).2) = true \/
   w_timer (@close _ _ demo_iface c).2 <> None \/
   w_buffer (@close _ _ demo_iface c).2 <> []).
Proof.
  split; [vm_compute; reflexivity|].
  apply (close_settles (PI:=demo_iface) quiet_cb_logged);
    vm_compute; reflexivity.
Defined.

Lemma close_after_connection_lost_witness :
  let lost := SP.connection_lost (fun _ => ret true) None (demo_conn []) in
  let r := @close _ _ (SP.iface None 2 quiet_cb) lost.2 in
  r.1 = Raise AttributeError /\ w_closing r.2 = true /\ w_timer r.2 = w_timer lost.2 /\
  c_log r.2 = c_log lost.2 ++
    [EvEngineRaised AttributeError; EvLog "Unhandled exception in event loop callback"].
Proof.
  apply (close_after_connection_lost quiet_cb None (demo_conn []) None 2
           (fun _ => ret true)); vm_compute; reflexivity.
Defined.

(** A write the engine could not take yet is overtaken by the next one: the
    wrapper does not look at its buffer before it calls the engine. *)
Lemma write_overtakes_buffer :
  let c1 := (@write _ _ demo_iface [x01; x02] (demo_conn [WantRead])).2 in
  let c2 := (@write _ _ demo_iface [x03] c1).2 in
  consumed (c_log c2) = [x03] /\ w_buffer c2 = [[x01; x02]].
Proof. vm_compute. by split. Qed.

(** [_start_shutdown] returns while plaintext is buffered; once the buffer
    drains, nothing starts the shutdown again: the transport is neither closed
    nor about to be. *)
Lemma shutdown_not_retried :
  let p := SP.proto false false None 2 (fun _ => ret true) quiet_cb in
  let c1 := (@write _ _ demo_iface [x01] (demo_conn [WantRead; WantRead])).2 in
  let c2 := (@close _ _ demo_iface c1).2 in
  let c3 := (sp_resume_writing p c2).2 in
  w_closing c3 = true /\ w_buffer c3 = [] /\ w_timer c3 = None /\
  raw_closed (c_log c3) = false /\ sent (c_log c3) = [x01].
Proof. vm_compute. by repeat split. Qed.
End Demo.

Lemma refused_write_kept_or_lost_witness :
  let c := (attach (SP.init (EI:=null_engine) (RI:=refusing_transport)
             (NullEng [] []) true)).2 <| c_outgoing := Some [x07] |> in
  let cb := fun _ : raw_cb => ret tt in
  (let r := SP._f cb c in
   r.1 = Ret tt /\ c_outgoing r.2 = Some [x07] /\ c_log r.2 = c_log c) /\
  Forall (fun f => let r := f cb c in
            r.1 = Raise (RuntimeError paused_message) /\ c_outgoing r.2 = Some [] /\
            c_log r.2 = c_log c)
    [StartTLS._f; SSP._f; UnixSP._f; UnixSSP._f].
Proof. apply (refused_write_kept_or_lost _ _ [x07] paused_message); done. Defined.
