(* ===== verification/SSLHandshake.v ===== *)
(** * The handshake gate, the read loop and the coroutine of the client *)

From stdpp Require Import base list strings gmap.
From Stdlib Require Import Strings.Byte QArith.
From S2P Require Import Prelude SSLConn StreamTransport SSLWrapper SSLProto SSLClient SSLStable SSLExample.

Close Scope Q_scope.
Import SSLTransportWrapper.

(** ** The handshake gate *)

(** The [connection_made] and [data_received] calls of a history. *)
Definition gated_calls (l : list event) : list app_event :=
  filter (fun a => is_made_or_data a = true) (app_calls l).

Section Gate.
Context {EI : SSLEngine} {RI : RawTransport}.

(** Nothing happens to the handshake flag or to those calls. *)
Definition frozen (hs hr : bool) (q : list app_event) (c : conn) : Prop :=
  c_hs c = hs /\ c_has_raw c = hr /\ gated_calls (c_log c) = q.

Lemma gated_calls_snoc l e :
  gated_calls (l ++ [e]) = gated_calls l ++
    match e with EvApp a => if is_made_or_data a then [a] else [] | _ => [] end.
Proof.
  unfold gated_calls. rewrite app_calls_app, filter_app. f_equal.
  destruct e as [| | | |a| | |]; try reflexivity. destruct a; reflexivity.
Qed.

#[export] Instance frozen_stable hs hr q : Stable (frozen hs hr q).
Proof.
  split.
  - intros c c' Hl Hh Hr (H1 & H2 & H3). unfold frozen. by rewrite Hl, Hh, Hr.
  - intros e c He (H1 & H2 & H3). split; [exact H1|split; [exact H2|]].
    change (gated_calls (c_log c ++ [e]) = q). rewrite gated_calls_snoc, H3.
    destruct e as [| | | |a| | |]; cbn in He; rewrite ?app_nil_r; try done.
    destruct (is_made_or_data a); [discriminate | by rewrite app_nil_r].
Qed.

(** Before the handshake completes the application is told nothing; after it,
    [connection_made] was called at most once, and first. *)
Definition gate (c : conn) : Prop :=
  (c_hs c = false /\ gated_calls (c_log c) = []) \/
  (c_hs c = true /\ c_has_raw c = true /\
   exists ds, gated_calls (c_log c) = map ADataReceived ds \/
              gated_calls (c_log c) = AConnectionMade :: map ADataReceived ds).

Lemma gate_frozen {A} (m : M A) :
  (forall hs hr q, keeps (frozen hs hr q) m) -> keeps gate m.
Proof.
  intros H c Hg. destruct (H (c_hs c) (c_has_raw c) (gated_calls (c_log c)) c) as (H1 & H2 & H3);
    [by repeat split|]. unfold gate. by rewrite H1, H2, H3.
Qed.

Section Client.
Variables (ap_has_pause ap_has_resume : bool).
Variables (ssl_shutdown_timeout : option Q) (rounds : nat).
Variable app : app_event -> M bool.
Variable cb : raw_cb -> M unit.
Hypothesis app_frozen : forall hs hr q e, keeps (frozen hs hr q) (app e).
Hypothesis cb_frozen : forall hs hr q b, keeps (frozen hs hr q) (cb b).

(** A call of the application that is gated is added at the end. *)
Lemma call_app_gated e hs hr q c :
  is_made_or_data e = true -> frozen hs hr q c ->
  frozen hs hr (q ++ [e]) (call_app_ app e c).2.
Proof.
  intros He (H1 & H2 & H3). unfold call_app_, call_app, bind at 2, log.
  assert (H : frozen hs hr (q ++ [e]) (c <| c_log := c_log c ++ [EvApp e] |>)).
  { split; [exact H1|split; [exact H2|]].
    change (gated_calls (c_log c ++ [EvApp e]) = q ++ [e]).
    by rewrite gated_calls_snoc, H3, He. }
  unfold bind. cbn. pose proof (app_frozen hs hr (q ++ [e]) e _ H) as H4.
  by destruct (app e _) as [[b|x] c1].
Qed.

Lemma frozen_waiter hs hr q w : keeps (frozen hs hr q) (resolve_waiter w).
Proof. unfold resolve_waiter. stable_tac. Qed.

(** The handshake step, on a connection whose handshake is not done. *)
Lemma sp_h_gate c :
  frozen false true [] c -> gate (SP._h app cb c).2.
Proof.
  intros Hc. unfold SP._h, try_else.
  pose proof (keeps_stable_engine eng_handshake c Hc) as H1.
  assert (Hf : forall hs hr q, keeps (frozen hs hr q) (SP._f cb))
    by (intros; apply keeps_stable_sp_f; auto).
  assert (Hg : forall c', frozen false true [] c' -> gate c')
    by (intros c' (A1 & A2 & A3); by left).
  destruct (engine eng_handshake c) as [[[]|e] c1]; cbn [snd] in H1.
  - unfold bind at 1, modify. cbn.
    assert (H2 : frozen true true [] (c1 <| c_hs := true |>))
      by (destruct H1 as (A1 & A2 & A3); by repeat split).
    revert H2. generalize (c1 <| c_hs := true |>). intros c2 H2. unfold bind at 1.
    pose proof (frozen_waiter true true [] WResult c2 H2) as H3.
    assert (Hgt : forall c', frozen true true [] c' -> gate c')
      by (intros c' (A1 & A2 & A3); right; repeat split; auto; exists []; auto).
    destruct (resolve_waiter WResult c2) as [[[]|x] c3]; cbn [snd] in H3 |- *; [|auto].
    unfold bind at 1. pose proof (Hf true true [] c3 H3) as H4.
    destruct (SP._f cb c3) as [[[]|x] c4]; cbn [snd] in H4 |- *; [|auto].
    pose proof (call_app_gated AConnectionMade true true [] c4 eq_refl H4) as (A1 & A2 & A3).
    right. repeat split; auto. exists []. by right.
  - apply Hg. destruct (orelse _ _ e) as [h|] eqn:Eh; [|exact H1].
    handler_cases; by first [apply Hf | apply frozen_waiter].
Qed.

Lemma frozen_read_chunks hs hr q n l : keeps (frozen hs hr q) (read_chunks n l).
Proof. revert l. induction n as [|n IH]; intros l; cbn; stable_tac. Qed.

Lemma frozen_shutdown hs hr q :
  keeps (frozen hs hr q) (@_start_shutdown _ _ (SP.iface ssl_shutdown_timeout rounds cb)).
Proof.
  apply keeps_stable_start_shutdown; [|auto]. apply keeps_stable_sp_f; auto.
Qed.

Lemma sp_r_gate c :
  c_hs c = true -> gate c -> gate (SP._r ssl_shutdown_timeout rounds app cb c).2.
Proof.
  intros Hh [[Hf _]|(_ & Hr & ds & Hq)]; [congruence|].
  unfold SP._r. unfold bind at 1, gets. unfold bind at 1.
  pose proof (frozen_read_chunks true true _ (read_fuel c) [] c
                (conj Hh (conj Hr eq_refl))) as H1.
  assert (Hg : forall ds' c', frozen true true (gated_calls (c_log c) ++ map ADataReceived ds') c' ->
               gate c').
  { intros ds' c' (A1 & A2 & A3). right. repeat split; auto. exists (ds ++ ds').
    rewrite A3, map_app. destruct Hq as [->| ->]; auto. }
  destruct (read_chunks _ _ c) as [[[chunks eof]|x] c1]; cbn [snd] in H1.
  2:{ apply (Hg []). by rewrite app_nil_r. }
  assert (Htail : forall q, keeps (frozen true true q)
    (when eof (guarded "Unhandled exception in app_protocol.eof_received"
       (call_app_ app AEofReceived) ;;;
     hw <- gets c_has_wrapper ;;
     when hw (@_start_shutdown _ _ (SP.iface ssl_shutdown_timeout rounds cb))))).
  { intros q. apply keeps_when. intros _. apply keeps_bind.
    - apply keeps_stable_guarded, keeps_stable_call_app_; auto.
    - intros _. apply keeps_bind; [apply keeps_gets|]. intros hw.
      apply keeps_when. intros _. apply frozen_shutdown. }
  cbn [fst snd]. unfold bind at 1. unfold when at 1.
  destruct (negb (bool_decide (chunks = []))).
  - pose proof (call_app_gated (ADataReceived (concat chunks)) true true _ c1 eq_refl H1) as H2.
    destruct (call_app_ app _ c1) as [[[]|x] c2]; cbn [snd] in H2.
    + apply (Hg [concat chunks]). by apply Htail.
    + by apply (Hg [concat chunks]).
  - cbn. apply (Hg []). apply Htail. by rewrite app_nil_r.
Qed.

Lemma sp_updated_gate n c :
  c_has_raw c = true -> gate c ->
  gate (SP.buffer_updated ssl_shutdown_timeout rounds app cb n c).2.
Proof.
  intros Hr Hg. unfold SP.buffer_updated. unfold bind at 1.
  assert (H1 : keeps (frozen (c_hs c) true (gated_calls (c_log c))) (feed n))
    by (unfold feed; stable_tac).
  specialize (H1 c ltac:(by repeat split)).
  assert (Hgf : forall c', frozen (c_hs c) true (gated_calls (c_log c)) c' -> gate c').
  { intros c' (A1 & A2 & A3). unfold gate. rewrite A1, A2, A3.
    destruct Hg as [?|(? & _ & ?)]; [by left | right; auto]. }
  destruct (feed n c) as [[[]|x] c1]; cbn [snd] in H1; [|by apply Hgf].
  unfold bind at 1, wrapper_closing, gets. destruct (c_has_wrapper c1 && w_closing c1).
  - apply Hgf. by apply frozen_shutdown.
  - unfold bind at 1. destruct (c_hs c1) eqn:Eh.
    + apply sp_r_gate; [done | by apply Hgf].
    + apply sp_h_gate. destruct H1 as (A1 & A2 & A3). repeat split; [done..|].
      destruct Hg as [[_ Hq]|(B1 & _)]; [by rewrite A3 | congruence].
Qed.
End Client.
End Gate.

Section GateSystem.
Context {EI : SSLEngine} {RI : RawTransport}.
Variables (ap_has_pause ap_has_resume : bool).
Variables (ssl_shutdown_timeout : option Q) (rounds : nat).
Variable script : list event -> app_event -> list user_action * outcome bool.

Let variant := SP.proto (EI:=EI) (RI:=RI) ap_has_pause ap_has_resume
                 ssl_shutdown_timeout rounds.

Lemma sp_upcalls_frozen n hs hr q :
  (forall e, keeps (frozen hs hr q) ((upcalls variant script n).1 e)) /\
  (forall b, keeps (frozen hs hr q) ((upcalls variant script n).2 b)).
Proof. apply upcalls_keep. intros app cb H1 H2. by apply sp_keeps. Qed.

Lemma sp_stimulate_frozen n s hs hr q :
  is_made s = false -> (forall d, s <> SRecv d) ->
  keeps (frozen hs hr q) (stimulate (proto_at variant script n) s).
Proof.
  intros Hm Hd.
  destruct (sp_upcalls_frozen n hs hr q) as [Ha Hcb].
  pose proof (sp_keeps (I:=frozen hs hr q) ap_has_pause ap_has_resume
                ssl_shutdown_timeout rounds _ _ Ha Hcb) as HP.
  destruct s; try discriminate; try (by destruct (Hd d)); cbn [stimulate];
    unfold proto_at, variant; cbn [SP.proto sp_eof_received sp_connection_lost].
  - unfold SP.eof_received. apply keeps_bind; [|intros; apply keeps_ret].
    apply keeps_try_except; [apply keeps_stable_call_app; auto|].
    intros x m' Hh. handler_cases. apply keeps_ret.
  - unfold SP.connection_lost. apply keeps_bind.
    + apply keeps_stable_guarded, keeps_stable_call_app_; auto.
    + intros _. stable_tac.
  - apply HP.
  - apply HP.
  - by apply keeps_stable_action.
  - apply keeps_bind; [apply keeps_gets|]. intros [t|]; [|apply keeps_ret].
    apply keeps_stable_force_close. apply HP.
  - unfold _fatal_error. stable_tac.
  - unfold resolve_waiter. stable_tac.
  - stable_tac.
  - stable_tac.
Qed.

Lemma sp_step_gate n s c : gate c -> gate (step variant script n s c).
Proof.
  intros Hg. unfold step. destruct (xorb (c_has_raw c) (is_made s)) eqn:E; [|exact Hg].
  destruct (is_made s) eqn:Em.
  - destruct s; try discriminate. rewrite xorb_true_r in E. apply negb_true_iff in E.
    cbn [stimulate]. unfold proto_at, variant at 1. cbn [SP.proto sp_connection_made].
    apply sp_h_gate; [intros; apply sp_upcalls_frozen .. |].
    destruct Hg as [[H1 H2]|(_ & H1 & _)]; [by repeat split | congruence].
  - rewrite xorb_false_r in E. destruct s as [|d| | | | | | | | | |];
      try (apply gate_frozen; [|exact Hg];
           intros; apply sp_stimulate_frozen; [done | discriminate]).
    cbn [stimulate]. unfold recv, proto_at, variant at 1. cbn [SP.proto sp_buffer_updated].
    unfold bind, modify. cbn [fst snd].
    apply sp_updated_gate; [intros; apply sp_upcalls_frozen .. | exact E |].
    exact Hg.
Qed.

(** C5: on every run of the client protocol, the application hears of nothing
    (neither [connection_made] nor [data_received]) before the TLS handshake is
    done, and once it is, [connection_made] is called at most once and before
    any data. *)
Theorem sp_handshake_gates_application n l e r :
  let c := run variant script n l (SP.init e r) in
  let calls := gated_calls (c_log c) in
  (calls <> [] -> c_hs c = true) /\
  exists ds, calls = map ADataReceived ds \/
             calls = AConnectionMade :: map ADataReceived ds.
Proof.
  cbn zeta. assert (Hg : gate (run variant script n l (SP.init e r))).
  { unfold run. assert (Hg : gate (SP.init e r)) by by left. revert Hg.
    generalize (SP.init e r). induction l as [|s l IH]; intros c Hc; [exact Hc|].
    apply IH. by apply sp_step_gate. }
  destruct Hg as [[H1 H2]|(H1 & _ & ds & H2)].
  - rewrite H2. split; [done|]. exists []. by left.
  - split; [by intros _|]. by exists ds.
Qed.
End GateSystem.

(** ** The read loop *)

Section ReadLoop.
Context {EI : SSLEngine} {EL : SSLEngineLaws EI} {RI : RawTransport}.

(** What repeated [read(65536)] calls give: the chunks up to the first call
    that wants more input (the connection goes on) or reports its end. *)
Inductive engine_reads : bytes -> eng -> list bytes -> bool -> Prop :=
| reads_want inc e :
    eo_res (eng_read buffer_size inc e) = Raise SSLWantReadError ->
    engine_reads inc e [] false
| reads_closed inc e x :
    eo_res (eng_read buffer_size inc e) = Raise x ->
    x <> SSLWantReadError -> is_SSLError x = true ->
    engine_reads inc e [] true
| reads_empty inc e :
    eo_res (eng_read buffer_size inc e) = Ret [] -> engine_reads inc e [] true
| reads_chunk inc e d ds eof :
    eo_res (eng_read buffer_size inc e) = Ret d -> d <> [] ->
    engine_reads (eo_incoming (eng_read buffer_size inc e))
                 (eo_eng (eng_read buffer_size inc e)) ds eof ->
    engine_reads inc e (d :: ds) eof.

Lemma read_chunks_spec fuel c inc e acc :
  c_sslobj c = Some e -> c_incoming c = Some inc -> (eng_pending inc e < fuel)%nat ->
  match (read_chunks fuel acc c).1 with
  | Ret (chunks, eof) => exists ds, chunks = acc ++ ds /\ engine_reads inc e ds eof
  | Raise x => is_SSLError x = false /\ x <> Diverges
  end.
Proof.
  revert c inc e acc. induction fuel as [|n IH]; intros c inc e acc He Hi Hf; [lia|].
  cbn [read_chunks]. unfold try_else, engine. rewrite He, Hi. cbn [default].
  unfold id, ret.
  destruct (eo_res (eng_read buffer_size inc e)) as [d|x] eqn:Er.
  - destruct d as [|b d].
    + cbn [fst]. exists []. rewrite app_nil_r. split; [done|]. by apply reads_empty.
    + set (c1 := c <| c_sslobj := _ |> <| c_incoming := _ |> <| c_outgoing := _ |>
                   <| c_log := _ |>).
      pose proof (eng_read_pending buffer_size inc e (b :: d) Er ltac:(done)) as Hp.
      specialize (IH c1 (eo_incoming (eng_read buffer_size inc e))
                    (eo_eng (eng_read buffer_size inc e)) (acc ++ [b :: d])
                    eq_refl eq_refl ltac:(lia)).
      destruct (read_chunks n _ c1) as [[[chunks eof]|x] c2]; cbn [fst] in *; [|exact IH].
      destruct IH as (ds & -> & Hds). exists ((b :: d) :: ds).
      rewrite <- app_assoc. split; [done|]. by apply reads_chunk.
  - unfold orelse, except. case_bool_decide as Hx.
    + cbn [fst]. exists []. rewrite app_nil_r. split; [done|]. subst x. by apply reads_want.
    + destruct (is_SSLError x) eqn:Es; cbn [fst].
      * exists []. rewrite app_nil_r. split; [done|]. by apply (reads_closed inc e x).
      * split; [done|]. intros ->. by apply (eng_read_total buffer_size inc e).
Qed.

(** The read loop of [_r] terminates and drains the engine: it collects
    exactly the chunks of successive [read(65536)] calls up to the first that
    wants input or ends the stream, and reports which of the two it was; only
    an exception that is not an [SSLError] escapes. *)
Theorem read_loop_drains c e inc :
  c_sslobj c = Some e -> c_incoming c = Some inc ->
  match (read_chunks (read_fuel c) [] c).1 with
  | Ret (chunks, eof) => engine_reads inc e chunks eof
  | Raise x => is_SSLError x = false /\ x <> Diverges
  end.
Proof.
  intros He Hi.
  assert (Hf : (eng_pending inc e < read_fuel c)%nat).
  { unfold read_fuel. rewrite He, Hi. cbn. lia. }
  pose proof (read_chunks_spec (read_fuel c) c inc e [] He Hi Hf) as H.
  destruct (read_chunks _ _ c) as [[[chunks eof]|x] c2]; cbn [fst] in *; [|exact H].
  by destruct H as (ds & -> & Hds).
Qed.
End ReadLoop.

(** ** The coroutine *)

Section Coroutine.
Context {EI : SSLEngine} {RI : RawTransport} {RL : RawTransportLaws RI}.
Variable cb : raw_cb -> M unit.
Hypothesis cb_stays : forall l b, keeps (fun c => l `prefix_of` c_log c) (cb b).
Hypothesis cb_timer : forall t b, keeps (fun c => c_hs_timer c = t) (cb b).

Lemma transport_close_logged c v :
  ro_res (raw_call RClose (c_raw c)) = Ret v ->
  raw_closed (c_log (transport_call cb RClose c).2) = true.
Proof.
  intros Hv. unfold transport_call. rewrite Hv.
  set (c1 := c <| c_raw := _ |> <| c_log := _ |>).
  assert (H : (fun c => c_log c1 `prefix_of` c_log c)
                (for_each (ro_cbs (raw_call RClose (c_raw c))) cb c1).2).
  { apply (keeps_for_each (fun c => c_log c1 `prefix_of` c_log c)); [apply cb_stays|done]. }
  destruct H as [k Hk]. unfold raw_closed. rewrite Hk, existsb_app.
  unfold c1. cbn. rewrite existsb_app. cbn. by rewrite orb_true_r.
Qed.

(** C32: whichever way awaiting the handshake ends in an exception (an engine
    error, the timeout, a cancellation), [_create_ssl_connection] closes the
    raw transport, leaves no handshake timer behind and lets the exception
    out. *)
Theorem failed_handshake_cleans_up c e (t : option Q) v :
  is_BaseException e = true ->
  ro_res (raw_call RClose (c_raw c)) = Ret v ->
  (forall s c, (cb s c).1 = Ret tt) ->
  (t = None -> c_hs_timer c = None) ->
  let r := SP.after_await cb t (Raise e) c in
  r.1 = Raise e /\ c_hs_timer r.2 = None /\ raw_closed (c_log r.2) = true.
Proof.
  intros He Hv Hcb Ht.
  assert (Hcall : forall c, ro_res (raw_call RClose (c_raw c)) = Ret v ->
    (transport_call cb RClose c).1 = Ret tt /\
    (c_hs_timer c = None -> c_hs_timer (transport_call cb RClose c).2 = None)).
  { intros c' Hv'. unfold transport_call. rewrite Hv'. split.
    - generalize (c' <| c_raw := ro_raw (raw_call RClose (c_raw c')) |>
                     <| c_log := c_log c' ++ [EvRaw RClose] |>).
      induction (ro_cbs _) as [|b l IH]; intros c1; [done|]. cbn. unfold bind.
      pose proof (Hcb b c1) as Hb. destruct (cb b c1) as [o c2]. cbn in Hb. subst o. apply IH.
    - intros Hn. apply (keeps_for_each (fun c => c_hs_timer c = None));
        [intros; apply cb_timer | exact Hn]. }
  cbn zeta. unfold SP.after_await. destruct t as [t|].
  - unfold bind at 1 2 3, try_finally, try_except, try_else, raise at 1 3 5, except.
    rewrite He. unfold bind, modify.
    set (c1 := c <| c_hs_timer := None |>).
    destruct (Hcall c1 Hv) as [H1 H2]. pose proof (transport_close_logged c1 v Hv) as H3.
    specialize (H2 eq_refl).
    destruct (transport_call cb RClose c1) as [o c2]. cbn in H1, H2, H3. subst o. by cbn.
  - unfold bind at 1 2 3, try_except, try_else, raise at 1 3 5, except.
    rewrite He. unfold bind.
    destruct (Hcall c Hv) as [H1 H2]. pose proof (transport_close_logged c v Hv) as H3.
    specialize (H2 (Ht eq_refl)).
    destruct (transport_call cb RClose c) as [o c2]. cbn in H1, H2, H3. subst o. by cbn.
Qed.
End Coroutine.

Lemma read_loop_drains_witness :
  let c := demo_conn [] <| c_incoming := Some [x01; x02] |> in
  (read_chunks (read_fuel c) [] c).1 = Ret ([[x01; x02]], false) /\
  match (read_chunks (read_fuel c) [] c).1 with
  | Ret (chunks, eof) => engine_reads [x01; x02] (NullEng [] []) chunks eof
  | Raise x => is_SSLError x = false /\ x <> Diverges
  end.
Proof.
  split; [vm_compute; reflexivity|].
  apply (read_loop_drains (demo_conn [] <| c_incoming := Some [x01; x02] |>)
           (NullEng [] []) [x01; x02]); reflexivity.
Defined.

Lemma failed_handshake_cleans_up_witness :
  let r := SP.after_await quiet_cb (Some (5 # 1)%Q) (Raise CancelledError) (demo_conn []) in
  r.1 = Raise CancelledError /\ c_hs_timer r.2 = None /\ raw_closed (c_log r.2) = true.
Proof.
  apply (failed_handshake_cleans_up quiet_cb) with (v := VNone); try done.
  - by intros l [] c Hc.
  - by intros t [] c Hc.
  - by intros [] c.
Defined.
