(* ===== verification/Server.v ===== *)
(** * The [Server] wrapper (talyn/server.py)

    [Server] counts the live connections of its native listeners so that
    [wait_closed()] can wait for them.  The listeners call [_attach] when they
    accept and [_detach] (once) when a connection closes; [wait_closed] leaves a
    future in [_waiters].  Futures and transports are numbered; the transports
    still pointing at this server and the futures that are done are part of the
    state. *)

From stdpp Require Import base list strings gmap sets.
From S2P Require Import Prelude.

Module Server.

Record server : Type := MkServer {
  _servers : option (list nat);
  _serving : bool;
  _active_count : Z;
  _clients : gset nat;
  _waiters : list nat;
  (* around the object *)
  attached : gset nat;         (* native transports whose [server_ref] is set *)
  stopped : list nat;          (* listeners that were closed *)
  fut_next : nat;              (* futures created so far *)
  fut_done : gset nat;         (* those that are done *)
  fut_cancelled : gset nat;    (* those the waiting task cancelled *)
  late : gset nat              (* transports attached to the closed server *)
}.

#[export] Instance server_eta : Eta server := fun s =>
  MkServer (_servers s) (_serving s) (_active_count s) (_clients s) (_waiters s)
    (attached s) (stopped s) (fut_next s) (fut_done s) (fut_cancelled s)
    (late s).

Abbreviation M := (PyM server).

(** [Server(loop, servers, start_serving)]. *)
Definition init (servers : list nat) (start_serving : bool) : server :=
  MkServer (Some servers) start_serving 0 ∅ [] ∅ [] 0 ∅ ∅ ∅.

Definition is_serving : M bool :=
  gets (fun s => _serving s && match _servers s with
                               | Some l => (0 <? length l)%nat
                               | None => false
                               end).

Definition set_result_unless_done (w : nat) : M unit :=
  d <- gets fut_done ;;
  when (negb (bool_decide (w ∈ d))) (modify (fun s => s <| fut_done := {[w]} ∪ fut_done s |>)).

Definition _wakeup : M unit :=
  ws <- gets _waiters ;;
  for_each ws set_result_unless_done ;;;
  self _waiters <- [].

Definition _attach (transport : option nat) : M unit :=
  modify (fun s => s <| _active_count := (_active_count s + 1)%Z |>) ;;;
  match transport with
  | Some t => modify (fun s => s <| _clients := {[t]} ∪ _clients s |>)
  | None => ret tt
  end.

Definition _detach (transport : option nat) : M unit :=
  modify (fun s => s <| _active_count := (_active_count s - 1)%Z |>) ;;;
  match transport with
  | Some t => modify (fun s => s <| _clients := _clients s ∖ {[t]} |>)
  | None => ret tt
  end ;;;
  n <- gets _active_count ;;
  srvs <- gets _servers ;;
  serving <- is_serving ;;
  when ((n <=? 0)%Z && (match srvs with None => true | Some _ => negb serving end)) _wakeup.

(** [for transport in list(self._clients): try: op except Exception: log]. *)
Definition each_client (op : nat -> M unit) : M unit :=
  cs <- gets (fun s => elements (_clients s)) ;;
  for_each cs (fun t => try_except (op t) (except is_Exception (fun _ => ret tt))).

Definition close : M unit :=
  srvs <- gets _servers ;;
  match srvs with
  | None => ret tt
  | Some l =>
      self _serving <- false ;;;
      self _servers <- None ;;;
      for_each l (fun srv => modify (fun s => s <| stopped := stopped s ++ [srv] |>)) ;;;
      n <- gets _active_count ;;
      when (n <=? 0)%Z _wakeup
  end.

(** [wait_closed()] up to its [await]: the future it waits on, if any. *)
Definition wait_closed : M (option nat) :=
  srvs <- gets _servers ;;
  n <- gets _active_count ;;
  if match srvs with None => (n <=? 0)%Z | Some _ => false end then ret None
  else
    w <- gets fut_next ;;
    self fut_next <- S w ;;;
    modify (fun s => s <| _waiters := _waiters s ++ [w] |>) ;;;
    ret (Some w).

(** [start_serving()]: the native listener has no such method
    ([listener_starts] tells), so only the flag changes. *)
Definition start_serving (listener_starts : nat -> bool) : M (list nat) :=
  srvs <- gets _servers ;;
  match srvs with
  | None => ret []
  | Some l => self _serving <- true ;;; ret (List.filter listener_starts l)
  end.

(** [serve_forever()]: [false] when it returns at once; cancelling its future
    runs [serve_cancelled]. *)
Definition serve_forever : M bool :=
  gets (fun s => match _servers s with None => false | Some _ => true end).

Definition serve_cancelled : M unit := close ;;; raise CancelledError.

Definition sockets (get_socket : nat -> outcome nat) : M (list nat) :=
  srvs <- gets _servers ;;
  match srvs with
  | None => ret []
  | Some l =>
      (fix go l := match l with
                   | [] => ret []
                   | srv :: l' =>
                       s <- (match get_socket srv with Ret x => ret x | Raise e => raise e end) ;;
                       rest <- go l' ;; ret (s :: rest)
                   end) l
  end.

(** [__aexit__] *)
Definition aexit : M (option nat) := close ;;; wait_closed.

(** ** The native transports (src/src/transports/stream/lifecycle.zig) *)

(** [detach_server]: at most once per transport, errors swallowed. *)
Definition detach_server (t : nat) : M unit :=
  a <- gets attached ;;
  if bool_decide (t ∈ a) then
    modify (fun s => s <| attached := attached s ∖ {[t]} |>) ;;;
    try_except (_detach (Some t)) (except is_BaseException (fun _ => ret tt))
  else ret tt.

(** [transport.close()] and [transport.abort()]: both detach before they
    return; [broken] transports raise before they get there. *)
Definition close_transport (broken : nat -> option exn) (t : nat) : M unit :=
  match broken t with
  | Some e => raise e
  | None => detach_server t
  end.

Definition close_clients (broken : nat -> option exn) : M unit :=
  each_client (close_transport broken).

Definition abort_clients (broken : nat -> option exn) : M unit :=
  each_client (close_transport broken).

(** ** Accepting (src/src/transports/streamserver/main.zig)

    [accept_callback] runs the user's code twice: the protocol factory before the
    transport is attached, [connection_made] after.  Both may call the server. *)

Inductive call : Type :=
| CClose
| CWait
| CCloseClients
| CAbortClients
| CStartServing
| CCloseTransport (t : nat)
| CCancelWait (w : nat).

Definition do_call (starts : nat -> bool) (broken : nat -> option exn) (c : call) : M unit :=
  match c with
  | CClose => close
  | CWait => wait_closed ;;; ret tt
  | CCloseClients => close_clients broken
  | CAbortClients => abort_clients broken
  | CStartServing => start_serving starts ;;; ret tt
  | CCloseTransport t => close_transport broken t
  | CCancelWait w =>
      modify (fun s => s <| fut_done := {[w]} ∪ fut_done s |>
                         <| fut_cancelled := {[w]} ∪ fut_cancelled s |>)
  end.

(** The calls user code makes; what they raise it may catch. *)
Definition do_calls starts broken (cs : list call) : M unit :=
  for_each cs (fun c =>
    try_except (do_call starts broken c) (except is_BaseException (fun _ => ret tt))).

(** [_attach] of the transport, which then points at the server. *)
Definition attach_transport (t : nat) : M unit :=
  _attach (Some t) ;;;
  modify (fun s => s <| attached := {[t]} ∪ attached s |>
                     <| late := match _servers s with None => {[t]} ∪ late s | Some _ => late s end |>).

(** [accept_callback] of listener [srv] with a connection to accept.  [factory]
    are the calls of the protocol factory; [made] those of [connection_made] and
    whether it returns, or [None] when the factory, or making the transport,
    raised.  That the listener is open is checked before the factory runs, and
    not again. *)
Definition accept starts broken (srv t : nat) (factory : list call) (made : option (list call * bool))
    : M unit :=
  st <- gets stopped ;;
  if bool_decide (srv ∈ st) then ret tt
  else
    do_calls starts broken factory ;;;
    match made with
    | None => raise (OtherException 0)
    | Some (cs, returns) =>
        attach_transport t ;;;
        do_calls starts broken cs ;;;
        if returns : bool then ret tt
        else detach_server t ;;; raise (OtherException 0)
    end.

(** [may]: the calls a protocol factory may make. *)
Section Runs.
Variables (may : list call -> Prop) (listeners : list nat) (starts : nat -> bool) (broken : nat -> option exn).

Inductive step : server -> server -> Prop :=
| step_accept srv t factory made s :
    srv ∈ listeners -> may factory -> t ∉ _clients s -> t ∉ attached s ->
    step s (accept starts broken srv t factory made s).2
| step_lost t s : step s (detach_server t s).2
| step_call c s : step s (do_call starts broken c s).2
| step_serve_cancelled s : step s (serve_cancelled s).2.
End Runs.

(** ** The count is the connections *)

(** The clients are the transports still pointing here, and the count is their
    number; every future [wait_closed] made is done or queued. *)
Definition counted (s : server) : Prop :=
  _clients s = attached s /\ _active_count s = Z.of_nat (size (_clients s)).

Definition futures_known (s : server) : Prop :=
  (forall w, (w < fut_next s)%nat -> w ∈ fut_done s \/ w ∈ _waiters s) /\
  (forall w, w ∈ _waiters s -> (w < fut_next s)%nat).

(** Nobody waits for a server that is closed and empty. *)
Definition no_lost_wakeup (s : server) : Prop :=
  _servers s = None -> (_active_count s <= 0)%Z -> _waiters s = [].

Definition server_ok (s : server) : Prop :=
  counted s /\ futures_known s /\ no_lost_wakeup s.

Lemma set_done_eq s d : d = fut_done s -> s <| fut_done := d |> = s.
Proof. intros ->. by destruct s. Qed.

Lemma set_results_spec ws s :
  for_each ws set_result_unless_done s =
  (Ret tt, s <| fut_done := list_to_set ws ∪ fut_done s |>).
Proof.
  revert s. induction ws as [|w ws IH]; intros s.
  - cbn. by rewrite set_done_eq by set_solver.
  - cbn [for_each]. unfold set_result_unless_done at 1, bind, gets.
    case_bool_decide as Hw; cbn [negb when].
    + unfold ret. rewrite IH. cbn.
      assert (E : list_to_set ws ∪ fut_done s
                  = ({[w]} ∪ list_to_set ws) ∪ fut_done s) by set_solver.
      by rewrite E.
    + unfold modify. rewrite IH. cbn.
      assert (E : list_to_set ws ∪ ({[w]} ∪ fut_done s)
                  = ({[w]} ∪ list_to_set ws) ∪ fut_done s) by set_solver.
      by rewrite E.
Qed.

Lemma wakeup_spec s :
  _wakeup s = (Ret tt, s <| fut_done := list_to_set (_waiters s) ∪ fut_done s |>
                         <| _waiters := [] |>).
Proof.
  unfold _wakeup, bind, gets. by rewrite set_results_spec.
Qed.

Lemma futures_known_wakeup s : futures_known s -> futures_known (_wakeup s).2.
Proof.
  intros [H1 H2]. rewrite wakeup_spec. split; cbn; [|set_solver].
  intros w Hw. left. destruct (H1 w Hw); set_solver.
Qed.

(** The state [_detach] leaves, before it may wake the waiters. *)
Definition detached (t : nat) (s : server) : server :=
  s <| attached := attached s ∖ {[t]} |>
    <| _active_count := (_active_count s - 1)%Z |>
    <| _clients := _clients s ∖ {[t]} |>.

Definition serving_b (s : server) : bool :=
  _serving s && match _servers s with Some l => (0 <? length l)%nat | None => false end.

Lemma detach_server_eq t s :
  detach_server t s =
  (Ret tt,
   if bool_decide (t ∈ attached s) then
     if (_active_count s - 1 <=? 0)%Z
        && match _servers s with None => true | Some _ => negb (serving_b s) end
     then (_wakeup (detached t s)).2 else detached t s
   else s).
Proof.
  unfold detach_server, bind at 1, gets at 1. case_bool_decide; [|done].
  unfold bind at 1, modify at 1, try_except, try_else.
  set (s1 := s <| attached := attached s ∖ {[t]} |>).
  assert (E : _detach (Some t) s1 =
    (Ret tt, if (_active_count s - 1 <=? 0)%Z
               && match _servers s with None => true | Some _ => negb (serving_b s) end
             then (_wakeup (detached t s)).2 else detached t s)).
  { unfold _detach, bind, modify, gets, is_serving, gets.
    change (set_field (proj:=_clients) (fun _ => _clients _ ∖ {[t]}) _) with (detached t s).
    change (_active_count (detached t s)) with (_active_count s - 1)%Z.
    change (_servers (detached t s)) with (_servers s).
    change (_serving (detached t s)) with (_serving s). fold (serving_b s).
    destruct (_ && _); cbn [when]; [|done]. by rewrite wakeup_spec. }
  by rewrite E.
Qed.

Lemma size_pred (X : gset nat) t : t ∈ X -> Z.of_nat (size (X ∖ {[t]})) = (Z.of_nat (size X) - 1)%Z.
Proof.
  intros Ht. assert (E : size ({[t]} ∪ X ∖ {[t]}) = size X).
  { f_equal. apply set_eq. intros x.
    rewrite elem_of_union, elem_of_difference, elem_of_singleton.
    destruct (decide (x = t)); naive_solver. }
  assert (Hd : {[t]} ## X ∖ {[t]}) by set_solver.
  pose proof (size_union _ _ Hd) as Hs. rewrite size_singleton in Hs. lia.
Qed.

Lemma detached_counted t s : counted s -> t ∈ attached s -> counted (detached t s).
Proof.
  intros [H1 H2] Ht. split; cbn; [by rewrite H1|].
  rewrite size_pred by (by rewrite H1). lia.
Qed.

Lemma keeps_ok_detach t : keeps server_ok (detach_server t).
Proof.
  intros s (Hc & Hf & Hw). rewrite detach_server_eq. cbn [snd].
  case_bool_decide as Ht; [|by split; [|split]].
  pose proof (detached_counted t s Hc Ht) as Hc'.
  destruct (_ && _) eqn:E.
  - pose proof (futures_known_wakeup (detached t s) Hf) as Hf'.
    rewrite wakeup_spec in *. by split; [|split].
  - split; [exact Hc'|split; [exact Hf|]]. intros Hn Ha. cbn in Hn, Ha.
    rewrite Hn in E. apply Z.leb_le in Ha. by rewrite Ha in E.
Qed.

Lemma keeps_ok_close_transport broken t : keeps server_ok (close_transport broken t).
Proof.
  unfold close_transport. destruct (broken t); [apply keeps_raise | apply keeps_ok_detach].
Qed.

Lemma keeps_ok_each op : (forall t, keeps server_ok (op t)) -> keeps server_ok (each_client op).
Proof.
  intros H. unfold each_client. keeps_tac.
Qed.

Lemma stop_listeners_spec l s :
  for_each l (fun srv => modify (fun s => s <| stopped := stopped s ++ [srv] |>)) s =
  (Ret tt, s <| stopped := stopped s ++ l |>).
Proof.
  revert s. induction l as [|x l IH]; intros s; cbn.
  - unfold ret. rewrite app_nil_r. by destruct s.
  - unfold bind, modify. rewrite IH. cbn. by rewrite <- app_assoc.
Qed.

(** [close()] in one equation. *)
Lemma close_eq s :
  close s =
  (Ret tt,
   match _servers s with
   | None => s
   | Some l =>
       let s1 := s <| _serving := false |> <| _servers := None |>
                   <| stopped := stopped s ++ l |> in
       if (_active_count s <=? 0)%Z then (_wakeup s1).2 else s1
   end).
Proof.
  unfold close, bind at 1, gets. destruct (_servers s) as [l|]; [|done].
  unfold bind, modify. rewrite stop_listeners_spec. cbn -[_wakeup].
  destruct (_ <=? _)%Z; cbn [when]; [|done]. by rewrite wakeup_spec.
Qed.

Lemma keeps_ok_close : keeps server_ok close.
Proof.
  intros s (Hc & Hf & Hw). rewrite close_eq. cbn [snd].
  destruct (_servers s) as [l|]; [|by split; [|split]]. cbn zeta.
  set (s1 := s <| _serving := false |> <| _servers := None |> <| stopped := _ |>).
  destruct (_ <=? _)%Z eqn:E.
  - pose proof (futures_known_wakeup s1 Hf) as Hf'. rewrite wakeup_spec in *. by split; [|split].
  - split; [exact Hc|split; [exact Hf|]]. intros _ Ha. cbn in Ha. apply Z.leb_gt in E. lia.
Qed.

Lemma keeps_ok_wait : keeps server_ok wait_closed.
Proof.
  intros s (Hc & [Hf1 Hf2] & Hw). unfold wait_closed, bind, gets.
  destruct (match _servers s with Some _ => false | None => _ end) eqn:E;
    [by split; [|split]|].
  split; [exact Hc|split].
  - split; cbn.
    + intros w Hlt. destruct (decide (w = fut_next s)) as [->|Hne]; [set_solver|].
      destruct (Hf1 w ltac:(lia)); set_solver.
    + intros w [Hin|Hin]%elem_of_app; [specialize (Hf2 w Hin); lia|].
      apply list_elem_of_singleton in Hin. lia.
  - intros Hn Ha. cbn in Hn, Ha. rewrite Hn in E. apply Z.leb_le in Ha. by rewrite Ha in E.
Qed.

Lemma keeps_ok_start starts : keeps server_ok (start_serving starts).
Proof.
  unfold start_serving. keeps_tac.
Qed.

Lemma ok_cancel w s : server_ok s ->
  server_ok (s <| fut_done := {[w]} ∪ fut_done s |>
               <| fut_cancelled := {[w]} ∪ fut_cancelled s |>).
Proof.
  intros (Hc & [H1 H2] & Hw). split; [exact Hc|split; [|exact Hw]]. split; [|exact H2].
  intros w' Hlt. destruct (H1 w' Hlt); set_solver.
Qed.

Lemma keeps_ok_call starts broken c : keeps server_ok (do_call starts broken c).
Proof.
  destruct c; cbn [do_call].
  - exact keeps_ok_close.
  - apply keeps_bind; [exact keeps_ok_wait | intros; apply keeps_ret].
  - apply keeps_ok_each, keeps_ok_close_transport.
  - apply keeps_ok_each, keeps_ok_close_transport.
  - apply keeps_bind; [apply keeps_ok_start | intros; apply keeps_ret].
  - apply keeps_ok_close_transport.
  - apply keeps_modify. intros s. apply ok_cancel.
Qed.

(** What every call keeps, a sequence of calls keeps. *)
Lemma keeps_calls I starts broken cs :
  (forall c, c ∈ cs -> keeps I (do_call starts broken c)) -> keeps I (do_calls starts broken cs).
Proof.
  unfold do_calls. induction cs as [|c cs IH]; intros H; cbn [for_each]; [apply keeps_ret|].
  apply keeps_bind; [|intros _; apply IH; intros x Hx; apply H; by right].
  apply keeps_try_except; [apply H; left|]. intros e m Hm. unfold except in Hm.
  destruct (is_BaseException e); [|done]. injection Hm as <-. apply keeps_ret.
Qed.

(** The size of the clients with one more. *)
Lemma counted_attach t s : counted s -> t ∉ _clients s -> counted (attach_transport t s).2.
Proof.
  intros [H1 H2] Ht. assert (Hd : {[t]} ## _clients s) by set_solver.
  pose proof (size_union _ _ Hd) as Hsz. rewrite size_singleton in Hsz.
  split; cbn; [by rewrite H1 | lia].
Qed.

Lemma ok_attach t s : server_ok s -> t ∉ _clients s -> server_ok (attach_transport t s).2.
Proof.
  intros (Hc & Hf & Hw) Ht. split; [by apply counted_attach|]. split; [exact Hf|].
  intros _ Ha. cbn in Ha. destruct Hc as [_ Hc]. lia.
Qed.

(** The transport being accepted is not attached by a call. *)
Definition fresh_for (t : nat) (s : server) : Prop := t ∉ _clients s /\ t ∉ attached s.

Lemma fresh_detach t u : keeps (fresh_for t) (detach_server u).
Proof.
  intros s [H1 H2]. rewrite detach_server_eq. cbn [snd]. case_bool_decide; [|done].
  destruct (_ && _); rewrite ?wakeup_spec; split; cbn; set_solver.
Qed.

Lemma fresh_call t starts broken c : keeps (fresh_for t) (do_call starts broken c).
Proof.
  assert (Ht : forall u, keeps (fresh_for t) (close_transport broken u)).
  { intros u. unfold close_transport. destruct (broken u); [apply keeps_raise | apply fresh_detach]. }
  destruct c; cbn [do_call]; auto.
  - intros s H. rewrite close_eq. cbn [snd]. destruct (_servers s); [|done]. cbn zeta.
    by destruct (_ <=? _)%Z; rewrite ?wakeup_spec.
  - unfold wait_closed. keeps_tac.
  - unfold close_clients, each_client. keeps_tac.
  - unfold abort_clients, each_client. keeps_tac.
  - unfold start_serving. keeps_tac.
  - by apply keeps_modify.
Qed.

(** An accept keeps what its parts keep. *)
Lemma accept_keeps (I : server -> Prop) starts broken srv t factory made s :
  (srv ∉ stopped s -> keeps I (do_calls starts broken factory)) ->
  (forall cs, keeps I (do_calls starts broken cs)) -> keeps I (detach_server t) ->
  (forall s', srv ∉ stopped s -> s' = (do_calls starts broken factory s).2 -> I s' ->
     fresh_for t s' -> I (attach_transport t s').2) ->
  fresh_for t s -> I s -> I (accept starts broken srv t factory made s).2.
Proof.
  intros Hf Hc Hd Ha Hfr HI. unfold accept, bind at 1, gets. case_bool_decide as Hs; [exact HI|].
  pose proof (keeps_calls (fresh_for t) starts broken factory
    (fun c _ => fresh_call t starts broken c) s Hfr) as Hfr'.
  specialize (Hf Hs s HI). specialize (Ha _ Hs eq_refl Hf Hfr').
  unfold bind at 1. destruct (do_calls starts broken factory s) as [[u|e] s1]; [|exact Hf].
  destruct made as [[cs returns]|]; [|exact Hf].
  unfold bind at 1. change (attach_transport t s1) with (Ret tt, (attach_transport t s1).2).
  revert Ha. cbn [snd]. generalize (attach_transport t s1).2. intros s2 H2.
  apply (keeps_bind I (do_calls starts broken cs)); [apply Hc | | exact H2].
  intros _. destruct returns; [apply keeps_ret|].
  apply keeps_bind; [exact Hd | intros; apply keeps_raise].
Qed.

Lemma ok_accept starts broken srv t factory made s :
  server_ok s -> fresh_for t s -> server_ok (accept starts broken srv t factory made s).2.
Proof.
  intros H Hfr.
  assert (Hc : forall cs, keeps server_ok (do_calls starts broken cs)).
  { intros cs. apply keeps_calls. intros c _. apply keeps_ok_call. }
  apply accept_keeps; auto using keeps_ok_detach.
  intros s' _ _ Hok [Ht _]. by apply ok_attach.
Qed.

Lemma step_ok may listeners starts broken s s' :
  step may listeners starts broken s s' -> server_ok s -> server_ok s'.
Proof.
  intros Hs H. destruct Hs.
  - apply ok_accept; [exact H | by split].
  - by apply keeps_ok_detach.
  - by apply keeps_ok_call.
  - unfold serve_cancelled. apply keeps_bind; [apply keeps_ok_close|intros; apply keeps_raise|done].
Qed.

Lemma init_ok servers b : server_ok (init servers b).
Proof. split; [by split|split]; [split; [cbn; lia|set_solver]|done]. Qed.

(** ** Waking *)

(** A listening server is serving, a closed one has closed its listeners, and a
    future is done because it was cancelled or because the server is closed and
    has no connection, but possibly one that was being accepted when its own
    factory closed the server. *)
Record woken_ok (may : list call -> Prop) (listeners : list nat) (s : server) : Prop := {
  wk_counted : counted s;
  wk_open l : _servers s = Some l -> l = listeners /\ _serving s = true /\ late s = ∅;
  wk_closed : _servers s = None -> forall srv, srv ∈ listeners -> srv ∈ stopped s;
  wk_late : size (late s) <= 1;
  wk_polite : (forall cs, may cs -> CClose ∉ cs) -> late s = ∅;
  wk_done w : w ∈ fut_done s -> w ∈ fut_cancelled s \/ (_servers s = None /\ _clients s ⊆ late s) }.

Section Woken.
Variables (may : list call -> Prop) (listeners : list nat).
Hypothesis some_listener : listeners <> [].
Notation woken := (woken_ok may listeners).

Lemma woken_wakeup s :
  woken s -> _servers s = None -> (_active_count s <= 0)%Z -> woken (_wakeup s).2.
Proof.
  intros [[H1 Hz] H2 H3 H4 H5 H6] Hn Ha. rewrite wakeup_spec.
  assert (He : _clients s = ∅) by (apply leibniz_equiv, size_empty_iff; lia).
  split; auto; [by split|]. intros w _. right. split; [exact Hn|]. cbn. rewrite He. set_solver.
Qed.

Lemma keeps_woken_detach t : keeps woken (detach_server t).
Proof.
  intros s H. rewrite detach_server_eq. cbn [snd]. case_bool_decide as Ht; [|done].
  assert (Hd : woken (detached t s)).
  { destruct H as [H1 H2 H3 H4 H5 H6]. split; auto; [by apply detached_counted|].
    intros w Hw. destruct (H6 w Hw) as [|[Hn Hs]]; [by left|right]. split; [exact Hn|]. cbn. set_solver. }
  destruct (_ && _) eqn:E; [|exact Hd]. apply andb_prop in E as [Ea Es].
  apply Z.leb_le in Ea. apply woken_wakeup; [exact Hd| |exact Ea].
  change (_servers (detached t s)) with (_servers s).
  destruct (_servers s) as [l|] eqn:El; [|done]. destruct (wk_open _ _ _ H l El) as (-> & Hs & _).
  unfold serving_b in Es. rewrite Hs, El in Es. by destruct listeners.
Qed.

Lemma keeps_woken_close : keeps woken close.
Proof.
  intros s H. rewrite close_eq. cbn [snd].
  destruct (_servers s) as [l|] eqn:El; [|exact H]. cbn zeta.
  set (s1 := s <| _serving := false |> <| _servers := None |> <| stopped := _ |>).
  assert (Hd : woken s1).
  { destruct (wk_open _ _ _ H l El) as (-> & _ & _). destruct H as [H1 H2 H3 H4 H5 H6].
    split; auto; [done | cbn; set_solver |]. intros w Hw. destruct (H6 w Hw) as [|[]]; [by left|congruence]. }
  destruct (_ <=? _)%Z eqn:E; [|exact Hd]. apply Z.leb_le in E. by apply woken_wakeup.
Qed.

Lemma keeps_woken_start starts : keeps woken (start_serving starts).
Proof.
  intros s H. unfold start_serving, bind, gets. destruct (_servers s) as [l|] eqn:El; [|exact H].
  destruct H as [H1 H2 H3 H4 H5 H6]. split; auto. intros l' Hl'. destruct (H2 l' Hl') as (? & _ & ?). done.
Qed.

Lemma keeps_woken_wait : keeps woken wait_closed.
Proof.
  intros s H. unfold wait_closed, bind, gets. destruct (match _servers s with Some _ => _ | None => _ end); [exact H|].
  by destruct H.
Qed.

Lemma keeps_woken_cancel w s : woken s ->
  woken (s <| fut_done := {[w]} ∪ fut_done s |> <| fut_cancelled := {[w]} ∪ fut_cancelled s |>).
Proof.
  intros [H1 H2 H3 H4 H5 H6]. split; auto. cbn. intros w' Hw'.
  destruct (decide (w' = w)) as [->|Hne]; [left; set_solver|].
  destruct (H6 w' ltac:(set_solver)) as [|]; [left; set_solver|by right].
Qed.

Lemma keeps_woken_call starts broken c : keeps woken (do_call starts broken c).
Proof.
  assert (Ht : forall u, keeps woken (close_transport broken u)).
  { intros u. unfold close_transport. destruct (broken u); [apply keeps_raise | apply keeps_woken_detach]. }
  assert (He : keeps woken (each_client (close_transport broken))) by (unfold each_client; keeps_tac).
  destruct c; cbn [do_call]; auto using keeps_woken_close.
  - apply keeps_bind; [exact keeps_woken_wait | intros; apply keeps_ret].
  - apply keeps_bind; [apply keeps_woken_start | intros; apply keeps_ret].
  - apply keeps_modify. intros s. apply keeps_woken_cancel.
Qed.

(** No call accepts a connection; only [close()] closes the server. *)
Lemma late_call X starts broken c : keeps (fun s => late s = X) (do_call starts broken c).
Proof.
  assert (Ht : forall u, keeps (fun s => late s = X) (close_transport broken u)).
  { intros u. unfold close_transport. destruct (broken u); [apply keeps_raise|].
    intros s H. rewrite detach_server_eq. cbn [snd]. case_bool_decide; [|exact H].
    destruct (_ && _); rewrite ?wakeup_spec; exact H. }
  destruct c; cbn [do_call]; auto.
  - intros s H. rewrite close_eq. cbn [snd]. destruct (_servers s); [|exact H]. cbn zeta.
    destruct (_ <=? _)%Z; rewrite ?wakeup_spec; exact H.
  - unfold wait_closed. keeps_tac.
  - unfold close_clients, each_client. keeps_tac.
  - unfold abort_clients, each_client. keeps_tac.
  - unfold start_serving. keeps_tac.
  - by apply keeps_modify.
Qed.

Lemma open_call l starts broken c :
  c <> CClose -> keeps (fun s => _servers s = Some l) (do_call starts broken c).
Proof.
  intros Hc. assert (Ht : forall u, keeps (fun s => _servers s = Some l) (close_transport broken u)).
  { intros u. unfold close_transport. destruct (broken u); [apply keeps_raise|].
    intros s H. rewrite detach_server_eq. cbn [snd]. case_bool_decide; [|exact H].
    destruct (_ && _); rewrite ?wakeup_spec; exact H. }
  destruct c; cbn [do_call]; auto; [done|..].
  - unfold wait_closed. keeps_tac.
  - unfold close_clients, each_client. keeps_tac.
  - unfold abort_clients, each_client. keeps_tac.
  - unfold start_serving. keeps_tac.
  - by apply keeps_modify.
Qed.

(** The attachment of a connection, whose factory may have closed the server. *)
Lemma woken_attach t s :
  woken s -> t ∉ _clients s -> late s = ∅ ->
  (_servers s = None -> ~ forall cs, may cs -> CClose ∉ cs) -> woken (attach_transport t s).2.
Proof.
  intros [H1 H2 H3 H4 H5 H6] Ht Hl Hc. pose proof (counted_attach t s H1 Ht) as H1'.
  split; [exact H1'| | | | |]; cbn.
  - intros l El. destruct (H2 l El) as (A & B & D). rewrite El. auto.
  - exact H3.
  - rewrite Hl. destruct (_servers s); [rewrite size_empty; lia|]. rewrite union_empty_r_L, size_singleton. lia.
  - intros Hp. destruct (_servers s); [exact Hl|]. by destruct (Hc eq_refl).
  - intros w Hw. destruct (H6 w Hw) as [|[Hn Hs]]; [by left|right]. split; [exact Hn|]. rewrite Hn. set_solver.
Qed.

Lemma woken_accept starts broken srv t factory made s :
  srv ∈ listeners -> may factory -> fresh_for t s -> woken s ->
  woken (accept starts broken srv t factory made s).2.
Proof.
  intros Hsrv Hmay Hfr H.
  assert (Hc : forall cs, keeps woken (do_calls starts broken cs)).
  { intros cs. apply keeps_calls. intros c _. apply keeps_woken_call. }
  apply accept_keeps; auto using keeps_woken_detach.
  intros s' Hs -> H' [Ht _].
  destruct (_servers s) as [l|] eqn:El; [|by destruct (Hs (wk_closed _ _ _ H El srv Hsrv))].
  destruct (wk_open _ _ _ H l El) as (-> & _ & Hl).
  apply woken_attach; [exact H' | exact Ht | |].
  - exact (keeps_calls _ starts broken factory (fun c _ => late_call ∅ starts broken c) s Hl).
  - intros Hn Hp. pose proof (keeps_calls _ starts broken factory (fun c Hin =>
      open_call listeners starts broken c ltac:(intros ->; by apply (Hp factory Hmay))) s El) as Ho.
    cbn beta in Ho. congruence.
Qed.

Lemma step_woken starts broken s s' :
  step may listeners starts broken s s' -> woken s -> woken s'.
Proof.
  intros Hs H. destruct Hs.
  - apply woken_accept; [done | done | by split | exact H].
  - by apply keeps_woken_detach.
  - by apply keeps_woken_call.
  - unfold serve_cancelled. apply keeps_bind; [apply keeps_woken_close|intros; apply keeps_raise|done].
Qed.
End Woken.

(** ** Closing the clients *)

Lemma detach_clients t s : counted s ->
  counted (detach_server t s).2 /\ _clients (detach_server t s).2 = _clients s ∖ {[t]}.
Proof.
  intros Hc. rewrite detach_server_eq. cbn [snd]. case_bool_decide as Ht.
  - pose proof (detached_counted t s Hc Ht) as Hc'.
    destruct (_ && _); [rewrite wakeup_spec|]; by split.
  - split; [done|]. destruct Hc as [<- _] in Ht |- *. set_solver.
Qed.

Lemma each_closed broken l s :
  (forall t e, broken t = Some e -> is_Exception e = true) -> counted s ->
  let r := for_each l (fun t => try_except (close_transport broken t)
                                  (except is_Exception (fun _ => ret tt))) s in
  r.1 = Ret tt /\ forall t, t ∈ _clients r.2 <->
                         t ∈ _clients s /\ (t ∈ l -> broken t <> None).
Proof.
  intros He. revert s. induction l as [|x l IH]; intros s Hc; cbn [for_each].
  - cbn. split; [done|]. set_solver.
  - unfold bind, try_except, try_else, close_transport.
    destruct (broken x) as [e|] eqn:Eb.
    + unfold raise, except. rewrite (He x e Eb). unfold ret at 1.
      destruct (IH s Hc) as [H1 H2]. split; [exact H1|]. intros t. rewrite H2.
      split; intros [Ht Hb]; (split; [exact Ht|]); [|set_solver].
      intros [->|Hin]%elem_of_cons; [congruence | auto].
    + destruct (detach_clients x s Hc) as [Hc' Hcl]. rewrite detach_server_eq in Hc', Hcl |- *.
      cbn [snd] in Hc', Hcl. unfold ret at 1. cbn [fst snd].
      destruct (IH _ Hc') as [H1 H2]. split; [exact H1|]. intros t. rewrite H2, Hcl.
      rewrite elem_of_difference, elem_of_singleton. split.
      * intros [[Ht Hne] Hb]. split; [exact Ht|]. intros [->|Hin]%elem_of_cons; [done|auto].
      * intros [Ht Hb]. split; [split; [exact Ht|]|set_solver].
        intros ->. apply (Hb ltac:(set_solver)). exact Eb.
Qed.

Lemma ok_reachable may listeners starts broken s s' :
  rtc (step may listeners starts broken) s s' -> server_ok s -> server_ok s'.
Proof. induction 1; eauto using step_ok. Qed.

Lemma woken_reachable may listeners starts broken s s' : listeners <> [] ->
  rtc (step may listeners starts broken) s s' -> woken_ok may listeners s -> woken_ok may listeners s'.
Proof. intros Hl. induction 1; eauto using step_woken. Qed.

Lemma init_woken may servers : woken_ok may servers (init servers true).
Proof.
  split; try done.
  - by intros l [= <-].
  - cbn. rewrite size_empty. lia.
Qed.

(** ** Properties *)


Definition plain_call (c : call) (s : server) : server :=
  (do_call (fun _ => false) (fun _ => None) c s).2.

(** Both ends of a concrete run are the same state. *)
Ltac run_over :=
  match goal with |- rtc _ ?a ?b => replace a with b by (vm_compute; reflexivity) end; apply rtc_refl.

(** The side conditions of a concrete accept. *)
Ltac fresh_accept :=
  match goal with
  | |- _ ∈ _ => left
  | |- _ ∉ _ => vm_compute; let H := fresh in intros H; discriminate H
  | |- _ => exact I
  end.

(** An accept whose user code does nothing to the server. *)
Definition plain_accept (srv t : nat) (s : server) : server :=
  (accept (fun _ => false) (fun _ => None) srv t [] (Some ([], true)) s).2.




(** A protocol factory that closes the server: there is no connection yet, so the
    waiters are woken; then the connection is attached to the closed server. *)
Lemma late_connection_outlives_wait :
  let s := (accept (fun _ => false) (fun _ => None) 3 7 [CClose] (Some ([], true))
              (wait_closed (init [3] true)).2).2 in
  0%nat ∈ fut_done s /\ 0%nat ∉ fut_cancelled s /\ _servers s = None
  /\ elements (_clients s) = [7] /\ _active_count s = 1%Z.
Proof. vm_compute. repeat split. intros H; discriminate H. Qed.

(** [close_clients()] (and [abort_clients()], the same loop) returns
    normally and reaches every connection: the connections left are exactly
    those whose own [close()] raised. *)
Theorem close_clients_reaches_all may starts broken servers serving s :
  rtc (step may servers starts broken) (init servers serving) s ->
  (forall t e, broken t = Some e -> is_Exception e = true) ->
  (close_clients broken s).1 = Ret tt /\
  forall t, t ∈ _clients (close_clients broken s).2 <-> t ∈ _clients s /\ broken t <> None.
Proof.
  intros H He. assert (Hok : server_ok s).
  { exact (ok_reachable _ _ _ _ _ _ H (init_ok servers serving)). }
  destruct (each_closed broken (elements (_clients s)) s He (proj1 Hok)) as [H1 H2].
  split; [exact H1|]. intros t. etransitivity; [apply H2|].
  rewrite elem_of_elements. naive_solver.
Qed.

Lemma close_clients_reaches_all_witness :
  let broken := fun t => if (t =? 7)%nat then Some (RuntimeError "boom") else None in
  let s := plain_accept 3 9 (plain_accept 3 8 (plain_accept 3 7 (init [3] true))) in
  elements (_clients (close_clients broken s).2) = [7] /\
  (close_clients broken s).1 = Ret tt.
Proof.
  split; [vm_compute; reflexivity|].
  apply (close_clients_reaches_all (fun _ => True) (fun _ => false)
           (fun t => if (t =? 7)%nat then Some (RuntimeError "boom") else None) [3] true).
  - eapply rtc_l; [apply (step_accept _ _ _ _ 3 7 [] (Some ([], true))); fresh_accept|].
    eapply rtc_l; [apply (step_accept _ _ _ _ 3 8 [] (Some ([], true))); fresh_accept|].
    eapply rtc_l; [apply (step_accept _ _ _ _ 3 9 [] (Some ([], true))); fresh_accept|].
    run_over.
  - intros t e. destruct (t =? 7)%nat; [by intros [= <-]|discriminate].
Defined.

(** With [start_serving=False] the native listener accepts all the same, and the
    first connection to go wakes the waiters of a server that is still open. *)
Lemma not_serving_wakes_early :
  let s := (detach_server 7 (wait_closed (plain_accept 3 7 (init [3] false))).2).2 in
  0%nat ∈ fut_done s /\ _servers s = Some [3].
Proof. vm_compute. by split. Qed.
End Server.
