(* ===== verification/LoopCore.v ===== *)
(** * The event loop object (talyn/loop.py, [class Loop], lines 262-567)

    The part of [Loop] that is neither I/O nor TLS: the exception handlers, the
    dispatch wrappers, the default executor, [run_until_complete] and the
    shutdown coroutines.  The native base class ([_Loop]) keeps [closed] and
    [running]; what user code does when it is called is a parameter: a handler may
    do anything to the loop and to the context it is given, a [__repr__] anything
    but change the context.  Callbacks and handlers are compared without raising. *)

From stdpp Require Import base list strings gmap.
From S2P Require Import Prelude.

(** ** Values *)

(** What an exception context holds. *)
Inductive cval : Type := CStr (s : string) | CExc (e : exn) | CObj (n : nat).

(** A dict, in insertion order. *)
Definition context : Type := list (string * cval).

Fixpoint ctx_get (k : string) (c : context) : option cval :=
  match c with
  | [] => None
  | (k', v) :: c' => if String.eqb k k' then Some v else ctx_get k c'
  end.

(** [d[k] = v] *)
Fixpoint ctx_set (k : string) (v : cval) (c : context) : context :=
  match c with
  | [] => [(k, v)]
  | (k', v') :: c' => if String.eqb k k' then (k, v) :: c' else (k', v') :: ctx_set k v c'
  end.

Definition truthy (v : cval) : bool :=
  match v with CStr s => negb (String.eqb s EmptyString) | _ => true end.

(** [self._exception_handler]: the bound default, or what the user passed. *)
Inductive handler : Type := HDefault | HUser (h : nat).

#[export] Instance handler_eq_dec : EqDecision handler.
Proof. solve_decision. Defined.

(** What [set_exception_handler] may be given. *)
Inductive handler_arg : Type := ANone | ACallable (h : nat) | ANotCallable.

(** A future as its loop sees it. *)
Inductive fut_state : Type := FPending | FResult (v : nat) | FExn (e : exn) | FCancelled.

Record fut : Type := Fut {
  f_state : fut_state;
  f_callbacks : list nat;      (* 0 is the callback of [run_until_complete] *)
  f_retrieved : bool
}.

#[export] Instance fut_eta : Eta fut := fun f =>
  Fut (f_state f) (f_callbacks f) (f_retrieved f).

Definition fut_done (f : fut) : bool :=
  match f_state f with FPending => false | _ => true end.

(** ** The object *)

Module Loop.

Record loop : Type := MkLoop {
  _exception_handler : handler;
  _user_exception_handler : option nat;
  _default_executor : option nat;
  _shutdown_executor_called : bool;
  _asyncgens : list nat;
  (* the native base class *)
  closed : bool;
  running : bool;
  (* around it *)
  futures : gmap nat fut;
  executors_next : nat;
  executors_shut : gset nat;
  submitted : list (nat * nat);        (* executor, work item *)
  error_log : list string;
  threadsafe : list (nat * fut_state)  (* settlements handed to [call_soon_threadsafe] *)
}.

#[export] Instance loop_eta : Eta loop := fun l =>
  MkLoop (_exception_handler l) (_user_exception_handler l) (_default_executor l)
    (_shutdown_executor_called l) (_asyncgens l) (closed l) (running l) (futures l)
    (executors_next l) (executors_shut l) (submitted l) (error_log l) (threadsafe l).

Abbreviation M := (PyM loop).

(** [Loop.__init__]. *)
Definition init : loop :=
  MkLoop HDefault None None false [] false false ∅ 0 ∅ [] [] [].

Section Methods.
(** [repr(value)] runs the value's [__repr__]; that of a generator is built in. *)
Variable repr : cval -> M string.
Variable agen_repr : nat -> string.
(** The user's handler, called as [handler(loop, context)] ([true]) or as
    [handler(context)] ([false]), and what it leaves in the context. *)
Variable run_handler : nat -> bool -> context -> M unit.
Variable context_after : nat -> bool -> context -> loop -> context.

(** ** Exception handlers *)

Definition logger_error (msg : string) : M unit :=
  modify (fun l => l <| error_log := error_log l ++ [msg] |>).

Definition nl : string := String (Ascii.ascii_of_nat 10) EmptyString.

(** The lines after the first. *)
Fixpoint context_lines (c : context) : M (list string) :=
  match c with
  | [] => ret []
  | (k, v) :: c' =>
      if String.eqb k "message" || String.eqb k "exception" then context_lines c'
      else
        r <- repr v ;;
        lines <- context_lines c' ;;
        ret ((k +:+ ": " +:+ r) :: lines)
  end.

Definition default_exception_handler (c : context) : M unit :=
  let message := match ctx_get "message" c with
                 | Some v => if truthy v then v else CStr "Unhandled exception in event loop"
                 | None => CStr "Unhandled exception in event loop"
                 end in
  lines <- context_lines c ;;
  match message with
  | CStr m => logger_error (String.concat nl (m :: lines))
  | _ => raise (TypeError "sequence item 0: expected str instance")
  end.

(** [self._exception_handler(context)] *)
Definition handler_one_arg (c : context) : M unit :=
  h <- gets _exception_handler ;;
  match h with
  | HDefault => default_exception_handler c
  | HUser n => run_handler n false c
  end.

Definition opt_entry (k : string) (v : option cval) (c : context) : context :=
  match v with Some v => ctx_set k v c | None => c end.

Definition _call_exception_handler (exception : cval)
    (message callback future task hdl protocol transport socket asyncgenerator
       : option cval) : M unit :=
  let c := ctx_set "exception" exception [] in
  let c := opt_entry "message" message c in
  let c := opt_entry "callback" callback c in
  let c := opt_entry "future" future c in
  let c := opt_entry "task" task c in
  let c := opt_entry "handle" hdl c in
  let c := opt_entry "protocol" protocol c in
  let c := opt_entry "transport" transport c in
  let c := opt_entry "socket" socket c in
  let c := opt_entry "asyncgen" asyncgenerator c in
  handler_one_arg c.

(** A failed call of the handler leaves its context to the next one. *)
Definition call_exception_handler (c : context) : M unit :=
  h <- gets _exception_handler ;;
  match h with
  | HDefault => default_exception_handler c
  | HUser n =>
      c1 <- gets (context_after n true c) ;;
      try_except (run_handler n true c)
        (orelse
           (except is_TypeError (fun e =>
              if str_in "positional argument" (exn_str e) || str_in "takes 1" (exn_str e)
              then
                h' <- gets _exception_handler ;;
                match h' with
                | HDefault =>
                    try_except (default_exception_handler c1)
                      (except is_Exception (fun _ => default_exception_handler c1))
                | HUser n' =>
                    c2 <- gets (context_after n' false c1) ;;
                    try_except (run_handler n' false c1)
                      (except is_Exception (fun _ => default_exception_handler c2))
                end
              else default_exception_handler c1))
           (except is_Exception (fun _ => default_exception_handler c1)))
  end.

Definition set_exception_handler (a : handler_arg) : M unit :=
  match a with
  | ANone =>
      self _exception_handler <- HDefault ;;;
      self _user_exception_handler <- None
  | ACallable h =>
      self _exception_handler <- HUser h ;;;
      self _user_exception_handler <- Some h
  | ANotCallable => raise (TypeError "A callable object or None is expected")
  end.

Definition get_exception_handler : M (option nat) := gets _user_exception_handler.

(** ** Dispatch wrappers *)

Definition dispatch (what : string) (protocol : nat) (call : M unit) : M unit :=
  try_except call
    (except is_Exception (fun exc =>
       call_exception_handler
         [("message", CStr ("Exception in " +:+ what +:+ " callback"));
          ("exception", CExc exc); ("protocol", CObj protocol)])).

Definition _dispatch_data_received (p : nat) (call : M unit) : M unit :=
  dispatch "data_received" p call.
Definition _dispatch_eof_received (p : nat) (call : M unit) : M unit :=
  dispatch "eof_received" p call.
Definition _dispatch_buffer_updated (p : nat) (call : M unit) : M unit :=
  dispatch "buffer_updated" p call.
Definition _dispatch_connection_lost (p : nat) (call : M unit) : M unit :=
  dispatch "connection_lost" p call.

(** ** Asynchronous generators *)

Definition agen_context (agen : nat) (e : exn) : context :=
  [("message", CStr ("an error occurred during closing of asynchronous generator "
                       +:+ agen_repr agen));
   ("exception", CExc e); ("asyncgen", CObj agen)].

(** [aclose] tells how closing a generator ended; [gather] with
    [return_exceptions=True] turns every exception into a result. *)
Definition shutdown_asyncgens (aclose : nat -> outcome unit) : M unit :=
  agens <- gets _asyncgens ;;
  self _asyncgens <- [] ;;;
  for_each agens (fun agen =>
    match aclose agen with
    | Raise e => if is_Exception e then handler_one_arg (agen_context agen e) else ret tt
    | Ret _ => ret tt
    end).

(** ** [run_until_complete] *)

Definition get_fut (i : nat) : M fut :=
  gets (fun l => default (Fut FPending [] false) (futures l !! i)).
Definition set_fut (i : nat) (f : fut) : M unit :=
  modify (fun l => l <| futures := <[i := f]> (futures l) |>).

(** [add_done_callback]: on a done future the callback is only scheduled. *)
Definition add_done_callback (i : nat) : M unit :=
  f <- get_fut i ;;
  when (negb (fut_done f)) (set_fut i (f <| f_callbacks := f_callbacks f ++ [0] |>)).

(** [remove_done_callback]: nothing is removed from a done future. *)
Definition remove_done_callback (i : nat) : M unit :=
  f <- get_fut i ;;
  when (negb (fut_done f))
    (set_fut i (f <| f_callbacks := List.filter (fun x => negb (x =? 0)%nat) (f_callbacks f) |>)).

(** [future.exception()] marks it retrieved; [future.result()] too. *)
Definition mark_retrieved (i : nat) : M unit :=
  f <- get_fut i ;; set_fut i (f <| f_retrieved := true |>).

Definition fut_result (i : nat) : M nat :=
  f <- get_fut i ;;
  match f_state f with
  | FResult v => mark_retrieved i ;;; ret v
  | FExn e => mark_retrieved i ;;; raise e
  | FCancelled => raise CancelledError
  | FPending => raise InvalidStateError
  end.

Definition is_cancelled (f : fut) : bool :=
  match f_state f with FCancelled => true | _ => false end.

(** The native [run_forever], run until it returns or raises. *)
Variable run_forever : M unit.

(** [new_task]: the argument was not a future, so [ensure_future] made the
    task [i] for it. *)
Definition run_until_complete (new_task : bool) (i : nat) : M nat :=
  c <- gets closed ;;
  r <- gets running ;;
  if c || r then raise (RuntimeError "Event loop is closed or already running")
  else
    add_done_callback i ;;;
    try_finally
      (try_except run_forever
         (except is_BaseException (fun e =>
            f <- get_fut i ;;
            when (new_task && fut_done f && negb (is_cancelled f)) (mark_retrieved i) ;;;
            raise e)))
      (remove_done_callback i) ;;;
    f <- get_fut i ;;
    if fut_done f then fut_result i
    else raise (RuntimeError "Event loop stopped before Future completed.").

(** ** The default executor *)

(** [ThreadPoolExecutor()] *)
Definition new_executor : M nat :=
  n <- gets executors_next ;;
  self executors_next <- S n ;;;
  ret n.

Definition executor_submit (ex work : nat) : M unit :=
  shut <- gets executors_shut ;;
  if bool_decide (ex ∈ shut)
  then raise (RuntimeError "cannot schedule new futures after shutdown")
  else modify (fun l => l <| submitted := submitted l ++ [(ex, work)] |>).

Definition executor_shutdown (ex : nat) : M unit :=
  modify (fun l => l <| executors_shut := {[ex]} ∪ executors_shut l |>).

Definition run_in_executor (executor : option nat) (work : nat) : M unit :=
  c <- gets closed ;;
  if (c : bool) then raise (RuntimeError "Event loop is closed")
  else
    ex <-
      match executor with
      | Some e => ret e
      | None =>
          d <- gets _default_executor ;;
          match d with
          | Some e => ret e
          | None =>
              sh <- gets _shutdown_executor_called ;;
              if (sh : bool) then raise (RuntimeError "Default executor shut down")
              else
                e <- new_executor ;;
                self _default_executor <- Some e ;;;
                ret e
          end
      end ;;
    executor_submit ex work.

(** [None]: the argument is not a [ThreadPoolExecutor]. *)
Definition set_default_executor (executor : option nat) : M unit :=
  match executor with
  | Some e => self _default_executor <- Some e
  | None => raise (TypeError "executor must be ThreadPoolExecutor")
  end.

(** [_Loop.close]: the native teardown. *)
Definition native_close : M unit :=
  c <- gets closed ;;
  r <- gets running ;;
  if (c : bool) then ret tt
  else if (r : bool) then raise (RuntimeError "Loop is running")
  else self closed <- true.

Definition close : M unit :=
  d <- gets _default_executor ;;
  match d with
  | Some e =>
      executor_shutdown e ;;;
      self _default_executor <- None ;;;
      self _shutdown_executor_called <- true
  | None => ret tt
  end ;;;
  native_close.

(** [_do_shutdown(future, executor)], on its thread; [shutdown_ends] is how
    [executor.shutdown(wait=True)] ends. *)
Definition _do_shutdown (future : nat) (executor : option nat)
    (shutdown_ends : outcome unit) : M unit :=
  d <- gets _default_executor ;;
  match match executor with Some e => Some e | None => d end with
  | None => raise (RuntimeError "Default executor is None")
  | Some e =>
      try_except
        (executor_shutdown e ;;;
         (match shutdown_ends with Ret u => ret u | Raise x => raise x end) ;;;
         c <- gets closed ;;
         when (negb c)
           (modify (fun l => l <| threadsafe := threadsafe l ++ [(future, FResult 0)] |>)))
        (except is_Exception (fun ex =>
           c <- gets closed ;;
           f <- get_fut future ;;
           when (negb c && negb (is_cancelled f))
             (modify (fun l => l <| threadsafe := threadsafe l ++ [(future, FExn ex)] |>))))
  end.

(** [shutdown_default_executor(timeout)] up to its [await]: the future and the
    executor handed to the thread, if there is one to wait for. *)
Definition shutdown_default_executor (timeout : option Z) (future : nat)
    : M (option (nat * nat)) :=
  if match timeout with Some t => (t <? 0)%Z | None => false end
  then raise (ValueError "Invalid timeout")
  else
    self _shutdown_executor_called <- true ;;;
    d <- gets _default_executor ;;
    match d with
    | None => ret None
    | Some e =>
        self _default_executor <- None ;;;
        set_fut future (Fut FPending [] false) ;;;
        ret (Some (future, e))
    end.

(** The rest of it, once the [await] under its timeout ended with [o]: the
    [thread.join] calls made and how the coroutine ends. *)
Definition after_shutdown_wait (timeout : option Z) (o : outcome unit)
    : list (option Z) * outcome unit :=
  match o with
  | Ret _ => ([None], Ret tt)
  | Raise TimeoutError => ([timeout], Ret tt)
  | Raise e => ([], Raise e)
  end.
End Methods.

(** ** Exception handlers *)

(** The context's message is a string (or absent, or falsy). *)
Definition message_ok (c : context) : bool :=
  match ctx_get "message" c with
  | Some v => match v with CStr _ => true | _ => negb (truthy v) end
  | None => true
  end.

Section HandlerProofs.
Variable repr : cval -> M string.
Variable run_handler : nat -> bool -> context -> M unit.
Variable context_after : nat -> bool -> context -> loop -> context.

(** A [__repr__] raised. *)
Definition repr_raises (e : exn) : Prop := exists v l, (repr v l).1 = Raise e.

(** The message of [c] is no string, and was joined to the lines. *)
Definition message_raises (c : context) (e : exn) : Prop :=
  message_ok c = false /\ e = TypeError "sequence item 0: expected str instance".

(** A context the way a handler left it. *)
Definition left_by_handler (c : context) : Prop := exists n b c0 l, c = context_after n b c0 l.

Lemma context_lines_raise c : forall l e,
  (context_lines repr c l).1 = Raise e -> repr_raises e.
Proof.
  induction c as [|[k v] c IH]; intros l e; cbn [context_lines]; [discriminate|].
  destruct (_ || _); [apply IH|]. unfold bind.
  destruct (repr v l) as [[r|x] l1] eqn:E; [|intros [= <-]; exists v, l; by rewrite E].
  pose proof (IH l1 e) as IHl. destruct (context_lines repr c l1) as [[ls|x] l2]; [discriminate|].
  intros [= <-]. by apply IHl.
Qed.

Lemma default_handler_raise c l e :
  (default_exception_handler repr c l).1 = Raise e -> repr_raises e \/ message_raises c e.
Proof.
  unfold default_exception_handler, bind. pose proof (context_lines_raise c l e) as Hl.
  destruct (context_lines repr c l) as [[ls|x] l1]; [|intros [= <-]; left; by apply Hl].
  unfold message_raises, message_ok. destruct (ctx_get "message" c) as [[m|x|n]|]; cbn [truthy negb];
    [by destruct (String.eqb m EmptyString) | | | discriminate]; intros [= <-]; by right.
Qed.

(** What can leave a call whose contexts satisfy [P]. *)
Definition escapes (P : context -> Prop) (e : exn) : Prop :=
  repr_raises e \/ exists d, P d /\ message_raises d e.

Lemma default_escapes (P : context -> Prop) c l e :
  P c -> (default_exception_handler repr c l).1 = Raise e -> escapes P e.
Proof. intros HP H. destruct (default_handler_raise c l e H); [by left | right; eauto]. Qed.

Lemma fallback_escapes (P : context -> Prop) (m : M unit) c l e :
  P c -> is_Exception e = true ->
  (try_except m (except is_Exception (fun _ => default_exception_handler repr c)) l).1 = Raise e ->
  escapes P e.
Proof.
  intros HP He. unfold try_except, try_else, except.
  destruct (m l) as [[[]|x] l1]; [discriminate|].
  destruct (is_Exception x) eqn:Ex; [by apply default_escapes|]. intros [= <-]. congruence.
Qed.

Lemma call_handler_escapes c l e :
  (call_exception_handler repr run_handler context_after c l).1 = Raise e -> is_Exception e = true ->
  escapes (fun d => d = c \/ left_by_handler d) e.
Proof.
  intros H He. revert H. unfold call_exception_handler, bind at 1, gets at 1.
  destruct (_exception_handler l) as [|n]; [apply default_escapes; by left|].
  unfold bind at 1, gets at 1.
  assert (Hc1 : left_by_handler (context_after n true c l)) by (repeat eexists).
  revert Hc1. generalize (context_after n true c l). intros c1 Hc1.
  unfold try_except at 1, try_else.
  destruct (run_handler n true c l) as [[[]|x] l1]; [discriminate|].
  unfold orelse, except at 1. destruct (is_TypeError x) eqn:Et.
  - destruct (_ || _); [|apply default_escapes; by right].
    unfold bind at 1, gets at 1. destruct (_exception_handler l1) as [|n'].
    + apply fallback_escapes; [by right | exact He].
    + unfold bind, gets. apply fallback_escapes; [right; repeat eexists | exact He].
  - unfold except. destruct (is_Exception x) eqn:Ex; [apply default_escapes; by right|].
    intros [= <-]. congruence.
Qed.

Lemma escapes_mono (P Q : context -> Prop) e : (forall d, P d -> message_ok d = false -> Q d) -> escapes P e -> escapes Q e.
Proof. intros H [|(d & Hd & Hm & He)]; [by left|]. right. exists d. split; [auto | by split]. Qed.

End HandlerProofs.

(** ** What is reported

    Here no [__repr__] raises or changes the loop. *)

Section ReportProofs.
Variable text : cval -> string.
Variable agen_repr : nat -> string.
Definition total_repr (v : cval) : M string := ret (text v).

(** The lines after the first, and the text the default handler logs. *)
Definition text_lines (c : context) : list string :=
  omap (fun kv : string * cval =>
          if String.eqb kv.1 "message" || String.eqb kv.1 "exception" then None
          else Some (kv.1 +:+ ": " +:+ text kv.2)) c.

Definition default_text (c : context) : string :=
  String.concat nl
    (match ctx_get "message" c with
     | Some (CStr m) => if String.eqb m EmptyString then "Unhandled exception in event loop" else m
     | _ => "Unhandled exception in event loop"
     end :: text_lines c).

Lemma context_lines_eq c l : context_lines total_repr c l = (Ret (text_lines c), l).
Proof.
  revert l. induction c as [|[k v] c IH]; intros l; [done|]. cbn [context_lines text_lines omap list_omap fst snd].
  destruct (_ || _); [apply IH|]. unfold bind, total_repr, ret at 1. by rewrite IH.
Qed.

Lemma default_handler_eq c l :
  message_ok c = true ->
  default_exception_handler total_repr c l =
  (Ret tt, l <| error_log := error_log l ++ [default_text c] |>).
Proof.
  unfold message_ok, default_exception_handler, default_text, bind. rewrite context_lines_eq.
  destruct (ctx_get "message" c) as [[m|e|n]|]; cbn [truthy negb]; try discriminate; [|done].
  by destruct (String.eqb m EmptyString).
Qed.

(** The arity complaint of a call with one argument too many. *)
Definition arity_error (o : outcome unit) : bool :=
  match o with
  | Raise e => is_TypeError e &&
               (str_in "positional argument" (exn_str e) || str_in "takes 1" (exn_str e))
  | Ret _ => false
  end.

Definition returned (o : outcome unit) : bool :=
  match o with Ret _ => true | Raise _ => false end.

(** An exception context is reported exactly once: by the user's handler,
    called as [handler(loop, context)] or, if it rejects two arguments, as
    [handler(context)]; and by the default handler's log entry exactly when
    neither call returned.  The handler leaves the context as it was. *)
Theorem call_exception_handler_reports_once (beh : nat -> bool -> context -> outcome unit) c l :
  message_ok c = true ->
  (forall n b e, beh n b c = Raise e -> is_Exception e = true) ->
  let handled := match _exception_handler l with
                 | HDefault => false
                 | HUser n => returned (beh n true c)
                              || (arity_error (beh n true c) && returned (beh n false c))
                 end in
  call_exception_handler total_repr (fun n b c l => (beh n b c, l)) (fun _ _ c _ => c) c l =
  (Ret tt, if handled then l
           else l <| error_log := error_log l ++ [default_text c] |>).
Proof.
  intros Hm He. unfold call_exception_handler, bind at 1, gets at 1.
  destruct (_exception_handler l) as [|n] eqn:Eh; [by apply default_handler_eq|].
  unfold bind at 1, gets at 1. unfold try_except at 1, try_else.
  destruct (beh n true c) as [[]|x] eqn:E1; [done|].
  pose proof (He n true x E1) as Hx. cbn [returned orb arity_error].
  unfold orelse, except at 1. destruct (is_TypeError x); cbn [andb].
  - destruct (_ || _); cbn [andb]; [|by apply default_handler_eq].
    unfold bind at 1, gets at 1. rewrite Eh. unfold bind, gets, try_except, try_else, except.
    destruct (beh n false c) as [[]|y] eqn:E2; [done|].
    rewrite (He n false y E2). by apply default_handler_eq.
  - unfold except. rewrite Hx. by apply default_handler_eq.
Qed.

(** With the default handler, [shutdown_asyncgens] forgets every generator,
    logs one entry per generator whose [aclose()] failed, in order, and
    returns. *)
Theorem shutdown_asyncgens_reports
    (run_handler : nat -> bool -> context -> M unit) (aclose : nat -> outcome unit) l :
  _exception_handler l = HDefault ->
  let failed := omap (fun agen => match aclose agen with
                                  | Raise e => if is_Exception e then Some (agen, e) else None
                                  | Ret _ => None
                                  end) (_asyncgens l) in
  shutdown_asyncgens total_repr agen_repr run_handler aclose l =
  (Ret tt, l <| _asyncgens := [] |>
             <| error_log := error_log l ++
                  map (fun ae => default_text (agen_context agen_repr ae.1 ae.2)) failed |>).
Proof.
  intros Hh. unfold shutdown_asyncgens, bind, gets, modify. cbn zeta.
  set (l1 := l <| _asyncgens := [] |>).
  change (error_log l) with (error_log l1).
  assert (Hh1 : _exception_handler l1 = HDefault) by exact Hh. clearbody l1.
  revert l1 Hh1. induction (_asyncgens l) as [|a agens IH]; intros l1 Hh1.
  - cbn. unfold ret. rewrite app_nil_r. by destruct l1.
  - cbn [for_each omap list_omap]. unfold bind at 1.
    destruct (aclose a) as [[]|e]; [by apply IH|].
    destruct (is_Exception e); [|by apply IH].
    unfold handler_one_arg, bind at 1, gets at 1. rewrite Hh1.
    rewrite default_handler_eq by done. rewrite IH by done.
    cbn. by rewrite <- app_assoc.
Qed.

(** A handler written for [handler(loop, context)], as [set_exception_handler]
    documents, is called with the context alone by [shutdown_asyncgens] (and by
    [_call_exception_handler]): the coroutine dies on the first failing
    generator and the others are never reported. *)
Lemma shutdown_asyncgens_arity (beh : nat -> bool -> context -> outcome unit) a agens e l :
  (forall n c, beh n false c = Raise (TypeError "missing 1 required positional argument")) ->
  _exception_handler l = HUser 0 -> _asyncgens l = a :: agens -> is_Exception e = true ->
  shutdown_asyncgens total_repr agen_repr (fun n b c l => (beh n b c, l)) (fun _ => Raise e) l =
  (Raise (TypeError "missing 1 required positional argument"), l <| _asyncgens := [] |>).
Proof.
  intros Hb Hh Ha He. unfold shutdown_asyncgens, bind, gets, modify. rewrite Ha.
  cbn [for_each]. rewrite He. unfold handler_one_arg, bind, gets.
  change (_exception_handler (l <| _asyncgens := [] |>)) with (_exception_handler l).
  by rewrite Hh, Hb.
Qed.
End ReportProofs.

(** ** [run_until_complete] *)

Section RunProofs.
Variable run_forever : M unit.

Lemma get_fut_eq i l : get_fut i l = (Ret (default (Fut FPending [] false) (futures l !! i)), l).
Proof. done. Qed.

Definition fut_of (l : loop) (i : nat) : fut :=
  default (Fut FPending [] false) (futures l !! i).

(** What the loop looks like once the callback is off. *)
Definition unhooked (i : nat) (l : loop) : loop :=
  if fut_done (fut_of l i) then l
  else l <| futures := <[i := fut_of l i <| f_callbacks :=
         List.filter (fun x => negb (x =? 0)%nat) (f_callbacks (fut_of l i)) |>]> (futures l) |>.

Lemma remove_cb_eq i l : remove_done_callback i l = (Ret tt, unhooked i l).
Proof.
  unfold remove_done_callback, unhooked, bind, get_fut, gets. fold (fut_of l i).
  by destruct (fut_done (fut_of l i)).
Qed.

Lemma unhooked_state i l : f_state (fut_of (unhooked i l) i) = f_state (fut_of l i).
Proof.
  unfold unhooked. destruct (fut_done _); [done|]. unfold fut_of at 1. cbn. by rewrite lookup_insert_eq.
Qed.

(** The callbacks of the future in [l'], after its stop callback was to be taken
    off in [l]. *)
Definition callback_off (i : nat) (l l' : loop) : Prop :=
  if fut_done (fut_of l i) then f_callbacks (fut_of l' i) = f_callbacks (fut_of l i)
  else 0 ∉ f_callbacks (fut_of l' i).

Lemma unhooked_off i l : callback_off i l (unhooked i l).
Proof.
  unfold callback_off, unhooked. destruct (fut_done (fut_of l i)); [done|].
  unfold fut_of at 1. cbn. rewrite lookup_insert_eq. cbn.
  rewrite list_elem_of_In, filter_In. by intros [_ ?].
Qed.

Lemma mark_fut i l :
  mark_retrieved i l = (Ret tt, l <| futures := <[i := fut_of l i <| f_retrieved := true |>]> (futures l) |>).
Proof. done. Qed.

Lemma mark_callbacks i l : f_callbacks (fut_of (mark_retrieved i l).2 i) = f_callbacks (fut_of l i)
  /\ f_state (fut_of (mark_retrieved i l).2 i) = f_state (fut_of l i).
Proof.
  rewrite mark_fut. cbn [snd]. generalize (fut_of l i). intros f. unfold fut_of. cbn.
  by rewrite !lookup_insert_eq.
Qed.

Lemma mark_off i l l' : callback_off i l l' -> callback_off i l (mark_retrieved i l').2.
Proof. unfold callback_off. by rewrite (proj1 (mark_callbacks i l')). Qed.

Lemma mark_off_before i l l' :
  callback_off i (mark_retrieved i l).2 l' -> callback_off i l l'.
Proof.
  unfold callback_off, fut_done. destruct (mark_callbacks i l) as [-> ->]. auto.
Qed.

(** The result of the future, read after the callback was taken off. *)
Lemma fut_result_ends i l l1 o l' :
  callback_off i l l1 -> f_state (fut_of l1 i) = f_state (fut_of l i) ->
  (f <- get_fut i ;;
   if fut_done f then fut_result i
   else raise (RuntimeError "Event loop stopped before Future completed.")) l1 = (o, l') ->
  callback_off i l l' /\
  o = match f_state (fut_of l i) with
      | FPending => Raise (RuntimeError "Event loop stopped before Future completed.")
      | FResult v => Ret v
      | FExn e => Raise e
      | FCancelled => Raise CancelledError
      end.
Proof.
  intros Hc <-. unfold bind at 1, get_fut at 1, gets. fold (fut_of l1 i).
  pose proof (mark_off i l l1 Hc) as Hm. rewrite mark_fut in Hm.
  unfold fut_done. destruct (f_state (fut_of l1 i)) eqn:Es; [by intros [= <- <-]|..];
    unfold fut_result, bind at 1, get_fut, gets; fold (fut_of l1 i); rewrite Es;
    rewrite ?mark_fut; unfold bind; rewrite ?mark_fut; by intros [= <- <-].
Qed.

(** C34: [run_until_complete] ends the way the future did, whatever ran inside
    [run_forever]: the future's result, its exception, [CancelledError], the
    exception that escaped [run_forever], or a [RuntimeError] if the loop
    stopped first; a closed or running loop is refused untouched.  In every other
    case its stop callback is off the future again if the future is still
    pending; the callbacks of a future that is done stay as [run_forever] left
    them, since nothing is removed from a done future. *)
Theorem run_until_complete_ends new_task i l o l' :
  run_until_complete run_forever new_task i l = (o, l') ->
  if closed l || running l
  then o = Raise (RuntimeError "Event loop is closed or already running") /\ l' = l
  else
    let r := run_forever (add_done_callback i l).2 in
    (if fut_done (fut_of r.2 i) then f_callbacks (fut_of l' i) = f_callbacks (fut_of r.2 i)
     else 0 ∉ f_callbacks (fut_of l' i)) /\
    o = match r.1 with
        | Raise e => Raise e
        | Ret _ => match f_state (fut_of r.2 i) with
                   | FPending => Raise (RuntimeError "Event loop stopped before Future completed.")
                   | FResult v => Ret v
                   | FExn e => Raise e
                   | FCancelled => Raise CancelledError
                   end
        end.
Proof.
  unfold run_until_complete. unfold bind at 1, gets at 1. unfold bind at 1, gets at 1.
  destruct (closed l || running l); [by intros [= <- <-]|].
  unfold bind at 1.
  assert (Ha : add_done_callback i l = (Ret tt, (add_done_callback i l).2)).
  { unfold add_done_callback, bind, get_fut, gets. by destruct (negb _). }
  rewrite Ha. generalize (add_done_callback i l).2. clear Ha l. intros l1.
  unfold bind at 1, try_finally, try_except, try_else.
  cbn zeta. cbn [fst snd]. generalize (run_forever l1). intros [[[]|e] l2]; cbn [fst snd].
  - unfold ret at 1. rewrite remove_cb_eq.
    apply (fut_result_ends i l2 (unhooked i l2)); [apply unhooked_off | apply unhooked_state].
  - unfold except. assert (Hr : exists l3, (match (if is_BaseException e
        then Some (f <- get_fut i ;;
            when (new_task && fut_done f && negb (is_cancelled f)) (mark_retrieved i) ;;;
            raise e) else None) with
        | Some h => h l2 | None => (Raise e, l2) end : outcome unit * loop) = (Raise e, l3)
        /\ forall l4, callback_off i l3 l4 -> callback_off i l2 l4).
    { destruct (is_BaseException e); [|by eexists]. unfold bind, get_fut, gets.
      destruct (_ && _); cbn [when]; rewrite ?mark_fut; eexists; (split; [reflexivity|auto]).
      intros l4 H4. apply mark_off_before. by rewrite mark_fut. }
    destruct Hr as (l3 & Hr & Hl3). rewrite Hr, remove_cb_eq. intros [= <- <-].
    split; [|done]. apply Hl3, unhooked_off.
Qed.
End RunProofs.

(** ** The default executor *)

(** Settling the shutdown.  [_do_shutdown] always hands the waiting
    [shutdown_default_executor] exactly one settlement (the result, or the
    exception the shutdown ended with) as long as the loop is open and the waiter
    was not cancelled, and the executor takes no more work. *)
Theorem do_shutdown_settles_once future e ends l :
  closed l = false -> is_cancelled (fut_of l future) = false ->
  (forall x, ends = Raise x -> is_Exception x = true) ->
  let r := _do_shutdown future (Some e) ends l in
  r.1 = Ret tt /\
  threadsafe r.2 = threadsafe l ++
    [(future, match ends with Ret _ => FResult 0 | Raise x => FExn x end)] /\
  e ∈ executors_shut r.2.
Proof.
  intros Hc Hf He. unfold _do_shutdown, bind at 1, gets at 1, try_except, try_else.
  unfold bind, executor_shutdown, modify, gets, except. destruct ends as [[]|x]; unfold ret, raise.
  - cbn. rewrite Hc. cbn. split; [done|split; [done|set_solver]].
  - rewrite (He x eq_refl). cbn. rewrite Hc. fold (fut_of l future). rewrite Hf. cbn.
    split; [done|split; [done|set_solver]].
Qed.

Lemma do_shutdown_settles_once_witness :
  let r := _do_shutdown 4 (Some 1) (Raise (RuntimeError "stuck")) init in
  r.1 = Ret tt /\
  threadsafe r.2 = [(4, FExn (RuntimeError "stuck"))] /\ 1 ∈ executors_shut r.2.
Proof.
  apply (do_shutdown_settles_once 4 1 (Raise (RuntimeError "stuck")) init); try reflexivity.
  by intros x [= <-].
Defined.

(** A default executor is made once and reused: on an open loop whose default
    executor was never shut down, [run_in_executor(None, ...)] twice submits both
    work items, in order, to the same executor. *)
Theorem default_executor_reused l w1 w2 :
  closed l = false -> _shutdown_executor_called l = false ->
  (forall e, _default_executor l = Some e -> e ∉ executors_shut l) ->
  executors_next l ∉ executors_shut l ->
  exists e,
    let l2 := (run_in_executor None w2 (run_in_executor None w1 l).2).2 in
    (run_in_executor None w2 (run_in_executor None w1 l).2).1 = Ret tt /\
    _default_executor l2 = Some e /\ submitted l2 = submitted l ++ [(e, w1); (e, w2)].
Proof.
  intros Hc Hs Hd Hn.
  assert (H : forall w l e, closed l = false -> _default_executor l = Some e ->
    e ∉ executors_shut l ->
    run_in_executor None w l = (Ret tt, l <| submitted := submitted l ++ [(e, w)] |>)).
  { clear. intros w l e Hc Hd He. unfold run_in_executor, bind at 1, gets at 1. rewrite Hc.
    unfold bind, gets. rewrite Hd. unfold ret, executor_submit, bind, gets. cbv beta iota.
    by rewrite bool_decide_eq_false_2. }
  destruct (_default_executor l) as [e|] eqn:Ed.
  - exists e. cbn zeta. rewrite (H w1 l e Hc Ed (Hd e eq_refl)). cbn [snd].
    erewrite H; [|exact Hc|exact Ed|exact (Hd e eq_refl)].
    cbn. by rewrite <- app_assoc.
  - exists (executors_next l).
    assert (H1 : run_in_executor None w1 l =
      (Ret tt, l <| executors_next := S (executors_next l) |>
                 <| _default_executor := Some (executors_next l) |>
                 <| submitted := submitted l ++ [(executors_next l, w1)] |>)).
    { unfold run_in_executor, bind at 1, gets at 1. rewrite Hc. unfold bind, gets.
      rewrite Ed, Hs. unfold new_executor, bind, gets, modify, ret, executor_submit, bind, gets.
      cbv beta iota.
      by rewrite bool_decide_eq_false_2. }
    cbn zeta. rewrite H1. cbn [snd]. erewrite H; [|exact Hc|reflexivity|exact Hn].
    cbn. by rewrite <- app_assoc.
Qed.

Lemma default_executor_reused_witness :
  exists e,
    let l2 := (run_in_executor None 9 (run_in_executor None 8 init).2).2 in
    (run_in_executor None 9 (run_in_executor None 8 init).2).1 = Ret tt /\
    _default_executor l2 = Some e /\ submitted l2 = [(e, 8); (e, 9)].
Proof.
  apply (default_executor_reused init 8 9); try reflexivity; [discriminate | set_solver].
Defined.

(** [close()] on a running loop fails late: the native close refuses with
    [RuntimeError], but by then the default executor is shut down and forgotten,
    so the loop that is still running can no longer run anything in it. *)
Theorem close_while_running_loses_executor l e w :
  closed l = false -> running l = true -> _default_executor l = Some e ->
  (close l).1 = Raise (RuntimeError "Loop is running") /\
  closed (close l).2 = false /\ e ∈ executors_shut (close l).2 /\
  (run_in_executor None w (close l).2).1 = Raise (RuntimeError "Default executor shut down").
Proof.
  intros Hc Hr Hd.
  assert (H : close l = (Raise (RuntimeError "Loop is running"),
    l <| executors_shut := {[e]} ∪ executors_shut l |> <| _default_executor := None |>
      <| _shutdown_executor_called := true |>)).
  { unfold close, bind at 1, gets at 1. rewrite Hd.
    unfold bind, executor_shutdown, modify, native_close, bind, gets. cbn. by rewrite Hc, Hr. }
  rewrite H. cbn [fst snd]. split; [done|split; [exact Hc|split; [cbn; set_solver|]]].
  unfold run_in_executor, bind, gets. cbn. by rewrite Hc.
Qed.

Lemma close_while_running_loses_executor_witness :
  let l := (run_in_executor None 8 init).2 <| running := true |> in
  (close l).1 = Raise (RuntimeError "Loop is running") /\
  closed (close l).2 = false /\ 0 ∈ executors_shut (close l).2 /\
  (run_in_executor None 9 (close l).2).1 = Raise (RuntimeError "Default executor shut down").
Proof.
  apply (close_while_running_loses_executor
           ((run_in_executor None 8 init).2 <| running := true |>) 0 9); reflexivity.
Defined.

(** ** Witnesses of the handler theorems *)

Definition demo_repr (v : cval) : string := match v with CStr s => s | _ => "<object>" end.

(** A handler that rejects both ways of being called. *)
Definition bad_handler (_ : nat) (_ : bool) (_ : context) : M unit :=
  raise (TypeError "takes 1 positional argument").
Definition handled : loop := (set_exception_handler (ACallable 5) init).2.

Definition demo_agen (n : nat) : string := "<async_generator>".
Definition demo_total : cval -> M string := total_repr demo_repr.
Definition keep_context (_ : nat) (_ : bool) (c : context) (_ : loop) : context := c.

(** A [__repr__] that raises. *)
Definition bad_repr (v : cval) : M string :=
  match v with CObj _ => raise KeyError | _ => ret EmptyString end.


(** With the default handler, an exception of [data_received] whose protocol has
    a [__repr__] that raises leaves the dispatch wrapper, and nothing is logged. *)
Lemma protocol_repr_escapes :
  let r := _dispatch_data_received bad_repr bad_handler keep_context 1 (raise AttributeError) init in
  r.1 = Raise KeyError /\ error_log r.2 = [].
Proof. split; reflexivity. Qed.

(** A handler that puts an object in the place of the message and raises: the
    default handler cannot join the lines. *)
Lemma changed_message_escapes :
  let spoil := fun (_ : nat) (_ : bool) (c : context) (_ : loop) => ctx_set "message" (CObj 9) c in
  (_dispatch_data_received demo_total bad_handler spoil 1 (raise AttributeError) handled).1
  = Raise (TypeError "sequence item 0: expected str instance").
Proof. reflexivity. Qed.

Lemma call_exception_handler_reports_once_witness :
  let beh := fun (_ : nat) (two : bool) (_ : context) =>
     if two then Raise (TypeError "takes 1 positional argument") : outcome unit else Ret tt in
  let l := (set_exception_handler (ACallable 5) init).2 in
  call_exception_handler demo_total (fun n b c l => (beh n b c, l)) (fun _ _ c _ => c) [] l = (Ret tt, l).
Proof.
  apply (call_exception_handler_reports_once demo_repr
    (fun (_ : nat) (two : bool) (_ : context) =>
     if two then Raise (TypeError "takes 1 positional argument") : outcome unit else Ret tt)
    [] (set_exception_handler (ACallable 5) init).2); [done|].
  intros n [] e; [by intros [= <-] | discriminate].
Defined.

Lemma shutdown_asyncgens_reports_witness :
  let l := init <| _asyncgens := [1; 2; 3] |> in
  let r := shutdown_asyncgens demo_total demo_agen (fun _ _ _ => ret tt)
             (fun n => if (n =? 2)%nat then Raise KeyError else Ret tt) l in
  length (error_log r.2) = 1 /\ r.1 = Ret tt.
Proof.
  split; [vm_compute; reflexivity|].
  pose proof (shutdown_asyncgens_reports demo_repr demo_agen (fun _ _ _ => ret tt)
    (fun n => if (n =? 2)%nat then Raise KeyError else Ret tt)
    (init <| _asyncgens := [1; 2; 3] |>) eq_refl) as H.
  cbn zeta. unfold demo_total. rewrite H. reflexivity.
Defined.

(** The loop is stopped before the future, which has a callback of its own, is
    done. *)
Lemma run_until_complete_ends_witness :
  let l := init <| futures := {[3 := Fut FPending [5] false]} |> in
  let r := run_until_complete (ret tt) true 3 l in
  f_callbacks (fut_of (add_done_callback 3 l).2 3) = [5; 0]
  /\ r.1 = Raise (RuntimeError "Event loop stopped before Future completed.")
  /\ 0 ∉ f_callbacks (fut_of r.2 3).
Proof.
  split; [vm_compute; reflexivity|].
  pose proof (run_until_complete_ends (ret tt) true 3
    (init <| futures := {[3 := Fut FPending [5] false]} |>) _ _ (surjective_pairing _)) as [H1 H2].
  split; [exact H2 | exact H1].
Defined.

(** The future gets its result: its callbacks stay as they are. *)
Lemma run_until_complete_result :
  let rf : M unit := set_fut 3 (Fut (FResult 42) [0] false) in
  let r := run_until_complete rf true 3 init in
  r.1 = Ret 42 /\ f_callbacks (fut_of r.2 3) = [0].
Proof. vm_compute. split; reflexivity. Qed.
End Loop.
