(* ===== verification/Connect.v ===== *)
(** * Opening connections and servers (talyn/loop.py 569-638, 844-887,
    1032-1065, 1101-1183, 1308-1397, 1546-1589, 1668-1675)

    How the Python coroutines route a call (plain or TLS, TCP or unix), which
    arguments they forward to the native methods, and what the native methods
    (src/src/loop/python/io, src/src/python_c.zig) make of them. *)

From stdpp Require Import base list strings.
From Stdlib Require Import QArith.
From S2P Require Import Prelude.

Close Scope Q_scope.

(** ** Arguments *)

(** A Python value passed to a native method. *)
Inductive kval : Type :=
| KNone | KBool (b : bool) | KInt (z : Z) | KFloat (q : Q) | KStr (s : string)
| KObj (n : nat).

Abbreviation kwargs := (list (string * kval)).

(** The [ssl] argument of the public methods. *)
Inductive ssl_arg : Type := SSLNone | SSLBool (b : bool) | SSLContext (n : nat).

Record conn_args : Type := ConnArgs {
  a_host : option string;
  a_port : option Z;
  a_ssl : ssl_arg;
  a_family : Z;
  a_proto : Z;
  a_flags : Z;
  a_sock : option nat;
  a_local_addr : option nat;
  a_server_hostname : option string;
  a_ssl_handshake_timeout : option Q;
  a_ssl_shutdown_timeout : option Q;
  a_happy_eyeballs_delay : option Q;
  a_interleave : option Z;
  a_all_errors : bool;
  a_dns_timeout : option Q
}.

#[export] Instance conn_args_eta : Eta conn_args := fun a =>
  ConnArgs (a_host a) (a_port a) (a_ssl a) (a_family a) (a_proto a) (a_flags a)
    (a_sock a) (a_local_addr a) (a_server_hostname a) (a_ssl_handshake_timeout a)
    (a_ssl_shutdown_timeout a) (a_happy_eyeballs_delay a) (a_interleave a)
    (a_all_errors a) (a_dns_timeout a).

(** The defaults of the signature. *)
Definition default_args : conn_args :=
  ConnArgs None None SSLNone 0 0 0 None None None None None None None false None.

(** [if v: kwargs[k] = v] on an int, and [if v is not None: kwargs[k] = v]. *)
Definition if_nonzero (k : string) (v : Z) : kwargs :=
  if (v =? 0)%Z then [] else [(k, KInt v)].
Definition if_some {A} (k : string) (inj : A -> kval) (v : option A) : kwargs :=
  match v with Some x => [(k, inj x)] | None => [] end.
Definition if_true (k : string) (b : bool) : kwargs := if b then [(k, KBool true)] else [].

Definition str_or_none (s : option string) : kval :=
  match s with Some s => KStr s | None => KNone end.
Definition int_or_none (z : option Z) : kval :=
  match z with Some z => KInt z | None => KNone end.

(** [a or b] on strings. *)
Definition str_or (a b : option string) : option string :=
  match a with
  | Some s => if String.eqb s EmptyString then b else Some s
  | None => b
  end.

(** ** The native side *)

Module Native.

Fixpoint index_of (k : string) (names : list string) : option nat :=
  match names with
  | [] => None
  | n :: names' => if String.eqb k n then Some 0 else S <$> index_of k names'
  end.

(** The loop over the keywords: a slot per accepted name. *)
Fixpoint fill (names : list string) (kw : kwargs) (slots : list (option kval))
    : outcome (list (option kval)) :=
  match kw with
  | [] => Ret slots
  | (k, v) :: kw' =>
      match index_of k names with
      | Some i => fill names kw' (<[i := Some v]> slots)
      | None => Raise (ValueError "Invalid keyword argument")
      end
  end.

Definition parse_vector_call_kwargs (names : list string) (kw : kwargs)
    : outcome (list (option kval)) :=
  if (length names <? length kw)%nat then Raise (ValueError "Too many keyword arguments")
  else fill names kw (replicate (length names) None).

(** What a native [create_connection] or [create_server] goes on to do. *)
Inductive request : Type :=
| ViaSock (sock : kval) (slots : list (option kval))
| ViaHost (host : string) (port : option kval) (slots : list (option kval)).

Definition connection_names : list string :=
  ["host"; "port"; "ssl"; "family"; "proto"; "sock"; "local_addr"; "server_hostname";
   "ssl_handshake_timeout"; "ssl_shutdown_timeout"; "happy_eyeballs_delay"; "interleave";
   "all_errors"; "dns_timeout"].

(** A keyword overwrites the positional value. *)
Definition over (kw pos : option kval) : option kval :=
  match kw with Some v => Some v | None => pos end.

(** [get_host_slice]. *)
Definition get_host (h : option kval) : outcome string :=
  match h with
  | None => Raise (ValueError "Host is required")
  | Some (KStr s) => Ret s
  | Some _ => Raise (ValueError "Host must be a valid string")
  end.

(** [z_loop_create_connection]; [pos] are the arguments after the factory. The
    thread and fork checks, [parse_dns_timeout] and the checks that the factory is
    callable and the socket has a descriptor are taken to pass. *)
Definition create_connection (pos : list kval) (kw : kwargs) : outcome request :=
  match parse_vector_call_kwargs connection_names kw with
  | Raise e => Raise e
  | Ret slots =>
      let host := over (slots !!! 0) (pos !! 0) in
      let port := over (slots !!! 1) (pos !! 1) in
      match slots !!! 5 with
      | Some s =>
          match host, port with
          | None, None => Ret (ViaSock s slots)
          | _, _ => Raise (ValueError "host/port and sock can not be specified at the same time")
          end
      | None =>
          match get_host host with
          | Ret h => Ret (ViaHost h port slots)
          | Raise e => Raise e
          end
      end
  end.

Definition server_names : list string :=
  ["family"; "flags"; "sock"; "backlog"; "reuse_address"; "reuse_port"; "dns_timeout"].

(** [z_loop_create_server]: with a socket, host and port are ignored. *)
Definition create_server (pos : list kval) (kw : kwargs) : outcome request :=
  match parse_vector_call_kwargs server_names kw with
  | Raise e => Raise e
  | Ret slots =>
      match slots !!! 2 with
      | Some s => Ret (ViaSock s slots)
      | None =>
          match get_host (pos !! 0) with
          | Ret h => Ret (ViaHost h (pos !! 1) slots)
          | Raise e => Raise e
          end
      end
  end.

End Native.

(** ** The coroutines, up to their native call *)

(** What happens on the way, in order. *)
Inductive cstep : Type :=
| StWrapBio (server_side : bool) (server_hostname : option string)
| StFactory                      (* the user's [protocol_factory()] *)
| StNative (pos : list kval) (kw : kwargs).

(** The non-TLS half of [create_connection]. *)
Definition create_connection_kwargs (a : conn_args) : kwargs :=
  if_nonzero "family" (a_family a) ++
  if_nonzero "proto" (a_proto a) ++
  if_some "sock" KObj (a_sock a) ++
  if_some "local_addr" KObj (a_local_addr a) ++
  if_some "server_hostname" KStr (a_server_hostname a) ++
  if_some "ssl_handshake_timeout" KFloat (a_ssl_handshake_timeout a) ++
  if_some "ssl_shutdown_timeout" KFloat (a_ssl_shutdown_timeout a) ++
  if_some "happy_eyeballs_delay" KFloat (a_happy_eyeballs_delay a) ++
  if_some "interleave" KInt (a_interleave a) ++
  if_true "all_errors" (a_all_errors a) ++
  if_some "dns_timeout" KFloat (a_dns_timeout a).

Definition create_connection_pos (a : conn_args) : list kval :=
  match a_host a, a_port a with
  | Some h, Some p => [KStr h; KInt p]
  | _, _ => []
  end.

(** The keyword arguments of [_create_ssl_connection]. *)
Definition ssl_connection_kwargs (a : conn_args) : kwargs :=
  if_nonzero "family" (a_family a) ++
  if_nonzero "proto" (a_proto a) ++
  if_nonzero "flags" (a_flags a) ++
  if_some "sock" KObj (a_sock a) ++
  if_some "local_addr" KObj (a_local_addr a) ++
  if_some "happy_eyeballs_delay" KFloat (a_happy_eyeballs_delay a) ++
  if_some "interleave" KInt (a_interleave a) ++
  if_true "all_errors" (a_all_errors a) ++
  if_some "dns_timeout" KFloat (a_dns_timeout a).

Definition ssl_connection_pos (a : conn_args) : list kval :=
  match a_sock a with
  | Some _ => []
  | None => [str_or_none (a_host a); int_or_none (a_port a)]
  end.

(** The prologue of [_create_ssl_connection]: the context ([ssl=True] makes a
    default one), the engine, the waiter, the application protocol.
    [False.wrap_bio] does not exist. *)
Definition ssl_connection_prologue (a : conn_args) : list cstep * outcome unit :=
  match a_ssl a with
  | SSLBool false | SSLNone => ([], Raise AttributeError)
  | _ => ([StWrapBio false (str_or (a_server_hostname a) (a_host a)); StFactory], Ret tt)
  end.

(** The default context checks the host name only if there is a host. *)
Definition default_context_checks (a : conn_args) : bool :=
  match a_ssl a, a_host a with
  | SSLBool true, Some h => negb (String.eqb h EmptyString)
  | _, _ => false
  end.

Definition create_ssl_connection (a : conn_args) : list cstep * outcome Native.request :=
  match ssl_connection_prologue a with
  | (steps, Raise e) => (steps, Raise e)
  | (steps, Ret _) =>
      let pos := ssl_connection_pos a in
      let kw := ssl_connection_kwargs a in
      (steps ++ [StNative pos kw], Native.create_connection pos kw)
  end.

Definition create_connection (a : conn_args) : list cstep * outcome Native.request :=
  match a_ssl a with
  | SSLNone =>
      let pos := create_connection_pos a in
      let kw := create_connection_kwargs a in
      ([StNative pos kw], Native.create_connection pos kw)
  | _ => create_ssl_connection a
  end.

(** [connect_accepted_socket]. *)
Definition connect_accepted_socket (sock : nat) (ssl : ssl_arg)
    (ssl_handshake_timeout ssl_shutdown_timeout : option Q)
    : list cstep * outcome Native.request :=
  create_connection
    (default_args <| a_sock := Some sock |> <| a_ssl := ssl |>
       <| a_ssl_handshake_timeout := ssl_handshake_timeout |>
       <| a_ssl_shutdown_timeout := ssl_shutdown_timeout |>).

(** ** Servers *)

Record server_args : Type := ServerArgs {
  s_host : option string;
  s_port : option Z;
  s_family : Z;
  s_flags : Z;
  s_sock : option nat;
  s_backlog : Z;
  s_ssl : ssl_arg;
  s_reuse_address : option bool;
  s_reuse_port : option bool;
  s_dns_timeout : option Q
}.

(** The same keyword arguments in [create_server] and [_create_ssl_server]. *)
Definition server_kwargs (a : server_args) : kwargs :=
  ("backlog", KInt (s_backlog a)) ::
  if_nonzero "family" (s_family a) ++
  if_nonzero "flags" (s_flags a) ++
  if_some "sock" KObj (s_sock a) ++
  if_some "reuse_address" KBool (s_reuse_address a) ++
  if_some "reuse_port" KBool (s_reuse_port a) ++
  if_some "dns_timeout" KFloat (s_dns_timeout a).

Definition create_ssl_server (a : server_args) : outcome Native.request :=
  Native.create_server [str_or_none (s_host a); int_or_none (s_port a)] (server_kwargs a).

Definition create_server (a : server_args) : outcome Native.request :=
  match s_ssl a with
  | SSLNone =>
      let host := default EmptyString (s_host a) in
      Native.create_server [KStr host; int_or_none (s_port a)] (server_kwargs a)
  | _ => create_ssl_server a
  end.

(** ** Unix sockets *)

Inductive unix_route : Type :=
| UnixPlain (path : string)
| UnixTLS (path : string) (sni : option string) (handshake_timeout : Q).

(** [server_hostname or None]; [ssl_handshake_timeout or 60]. *)
Definition create_ssl_unix_connection (path : string) (server_hostname : option string)
    (ssl_handshake_timeout : option Q) : unix_route :=
  UnixTLS path (str_or server_hostname None)
    (match ssl_handshake_timeout with
     | Some t => if Qeq_bool t 0 then 60 # 1 else t
     | None => 60 # 1
     end).

Definition create_unix_connection (path : string) (ssl : ssl_arg)
    (server_hostname : option string) (ssl_handshake_timeout : option Q) : unix_route :=
  match ssl with
  | SSLNone => UnixPlain path
  | _ => create_ssl_unix_connection path server_hostname ssl_handshake_timeout
  end.

(** The native [create_unix_server] accepts [backlog] and [ssl]. *)
Definition unix_server_native (path : string) (backlog : Z) : outcome (list (option kval)) :=
  Native.parse_vector_call_kwargs ["backlog"; "ssl"] [("backlog", KInt backlog)].

Definition create_ssl_unix_server (path : string) (backlog : Z) :=
  unix_server_native path backlog.

Definition create_unix_server (path : string) (backlog : Z) (ssl : ssl_arg) :=
  match ssl with
  | SSLNone => unix_server_native path backlog
  | _ => create_ssl_unix_server path backlog
  end.

(** ** Forwarding

    An optional keyword puts its value, or nothing, in its slot. *)

Section Fill.
Variable names : list string.

Lemma fill_some {A} k (inj : A -> kval) v kw slots i :
  Native.index_of k names = Some i -> slots !! i = Some None ->
  Native.fill names (if_some k inj v ++ kw) slots
  = Native.fill names kw (<[i := inj <$> v]> slots).
Proof.
  intros Hi Hs. destruct v as [x|]; cbn; [by rewrite Hi|].
  by rewrite list_insert_id.
Qed.

Lemma fill_nonzero k v kw slots i :
  Native.index_of k names = Some i -> slots !! i = Some None ->
  Native.fill names (if_nonzero k v ++ kw) slots
  = Native.fill names kw (<[i := if (v =? 0)%Z then None else Some (KInt v)]> slots).
Proof.
  intros Hi Hs. unfold if_nonzero. destruct (v =? 0)%Z; cbn; [|by rewrite Hi].
  by rewrite list_insert_id.
Qed.

Lemma fill_true k b kw slots i :
  Native.index_of k names = Some i -> slots !! i = Some None ->
  Native.fill names (if_true k b ++ kw) slots
  = Native.fill names kw (<[i := if b then Some (KBool true) else None]> slots).
Proof.
  intros Hi Hs. destruct b; cbn; [by rewrite Hi|]. by rewrite list_insert_id.
Qed.
End Fill.

Lemma length_if_some {A} k (inj : A -> kval) v : (length (if_some k inj v) <= 1)%nat.
Proof. destruct v; cbn; lia. Qed.
Lemma length_if_nonzero k v : (length (if_nonzero k v) <= 1)%nat.
Proof. unfold if_nonzero. destruct (v =? 0)%Z; cbn; lia. Qed.
Lemma length_if_true k b : (length (if_true k b) <= 1)%nat.
Proof. destruct b; cbn; lia. Qed.

(** Bound the number of keywords of a list of optional entries. *)
Ltac count_kwargs :=
  cbn [length]; rewrite ?length_app; cbn -[if_some if_nonzero if_true];
  repeat match goal with
  | |- context [length (if_some ?k ?i ?v)] =>
      generalize (length_if_some k i v); generalize (length (if_some k i v)); intros ? ?
  | |- context [length (if_nonzero ?k ?v)] =>
      generalize (length_if_nonzero k v); generalize (length (if_nonzero k v)); intros ? ?
  | |- context [length (if_true ?k ?b)] =>
      generalize (length_if_true k b); generalize (length (if_true k b)); intros ? ?
  end; lia.

(** Put every optional entry in its slot. *)
Ltac fill_slots :=
  repeat first
    [ erewrite fill_some; [|reflexivity|reflexivity]
    | erewrite fill_nonzero; [|reflexivity|reflexivity]
    | erewrite fill_true; [|reflexivity|reflexivity] ].

Definition nonzero (z : Z) : option kval := if (z =? 0)%Z then None else Some (KInt z).
Definition only_true (b : bool) : option kval := if b then Some (KBool true) else None.

(** The slots of a plain connection. *)
Definition connection_slots (a : conn_args) : list (option kval) :=
  [None; None; None; nonzero (a_family a); nonzero (a_proto a); KObj <$> a_sock a;
   KObj <$> a_local_addr a; KStr <$> a_server_hostname a;
   KFloat <$> a_ssl_handshake_timeout a; KFloat <$> a_ssl_shutdown_timeout a;
   KFloat <$> a_happy_eyeballs_delay a; KInt <$> a_interleave a;
   only_true (a_all_errors a); KFloat <$> a_dns_timeout a].

Lemma parse_connection a :
  Native.parse_vector_call_kwargs Native.connection_names (create_connection_kwargs a)
  = Ret (connection_slots a).
Proof.
  unfold Native.parse_vector_call_kwargs.
  assert (Hn : (length Native.connection_names <? length (create_connection_kwargs a))%nat = false).
  { apply Nat.ltb_ge. unfold create_connection_kwargs. count_kwargs. }
  rewrite Hn. unfold create_connection_kwargs.
  rewrite <- (app_nil_r (if_some "dns_timeout" _ _)). by fill_slots.
Qed.

(** The slots of a TLS connection: [flags] must be absent. *)
Definition ssl_connection_slots (a : conn_args) : list (option kval) :=
  [None; None; None; nonzero (a_family a); nonzero (a_proto a); KObj <$> a_sock a;
   KObj <$> a_local_addr a; None; None; None;
   KFloat <$> a_happy_eyeballs_delay a; KInt <$> a_interleave a;
   only_true (a_all_errors a); KFloat <$> a_dns_timeout a].

Lemma length_ssl_kwargs a : (length (ssl_connection_kwargs a) <= 14)%nat.
Proof. unfold ssl_connection_kwargs. count_kwargs. Qed.

Lemma parse_ssl_connection a : a_flags a = 0%Z ->
  Native.parse_vector_call_kwargs Native.connection_names (ssl_connection_kwargs a)
  = Ret (ssl_connection_slots a).
Proof.
  intros Hf. unfold Native.parse_vector_call_kwargs.
  assert (Hn : (length Native.connection_names <? length (ssl_connection_kwargs a))%nat = false)
    by (apply Nat.ltb_ge, length_ssl_kwargs).
  rewrite Hn. unfold ssl_connection_kwargs. rewrite Hf.
  change (if_nonzero "flags" 0) with (@nil (string * kval)). rewrite app_nil_l.
  rewrite <- (app_nil_r (if_some "dns_timeout" _ _)). by fill_slots.
Qed.

Lemma fill_unknown names k v kw1 kw2 slots :
  Native.index_of k names = None ->
  Native.fill names (kw1 ++ (k, v) :: kw2) slots = Raise (ValueError "Invalid keyword argument").
Proof.
  intros Hk. revert slots. induction kw1 as [|[k' v'] kw1 IH]; intros slots; cbn.
  - by rewrite Hk.
  - destruct (Native.index_of k' names); [apply IH | done].
Qed.

Lemma parse_ssl_flags a : a_flags a <> 0%Z ->
  Native.parse_vector_call_kwargs Native.connection_names (ssl_connection_kwargs a)
  = Raise (ValueError "Invalid keyword argument").
Proof.
  intros Hf. unfold Native.parse_vector_call_kwargs.
  assert (Hn : (length Native.connection_names <? length (ssl_connection_kwargs a))%nat = false)
    by (apply Nat.ltb_ge, length_ssl_kwargs).
  rewrite Hn. unfold ssl_connection_kwargs.
  assert (Hk : if_nonzero "flags" (a_flags a) = [("flags", KInt (a_flags a))]).
  { unfold if_nonzero. destruct (Z.eqb_spec (a_flags a) 0); [lia | done]. }
  rewrite Hk, (app_assoc (if_nonzero "family" _)). cbn [app]. by apply fill_unknown.
Qed.

(** The slots of a server. *)
Definition server_slots (a : server_args) : list (option kval) :=
  [nonzero (s_family a); nonzero (s_flags a); KObj <$> s_sock a; Some (KInt (s_backlog a));
   KBool <$> s_reuse_address a; KBool <$> s_reuse_port a; KFloat <$> s_dns_timeout a].

Lemma parse_server a :
  Native.parse_vector_call_kwargs Native.server_names (server_kwargs a) = Ret (server_slots a).
Proof.
  unfold Native.parse_vector_call_kwargs.
  assert (Hn : (length Native.server_names <? length (server_kwargs a))%nat = false).
  { apply Nat.ltb_ge. unfold server_kwargs. count_kwargs. }
  rewrite Hn. unfold server_kwargs. cbn [Native.fill Native.index_of].
  rewrite <- (app_nil_r (if_some "dns_timeout" _ _)). cbn.
  by fill_slots.
Qed.

(** A plain [create_connection] runs no user code before its single native
    call and forwards every option but [flags]: each named slot of the native
    side holds the caller's value, or nothing for a default.  A socket without
    a full address is used; with host and port too it is refused; without a socket
    both host and port are needed, and a host given without a port is refused as
    if there were no host. *)
Theorem create_connection_forwards a : a_ssl a = SSLNone ->
  create_connection a
  = ([StNative (create_connection_pos a) (create_connection_kwargs a)],
     match a_sock a, a_host a, a_port a with
     | Some _, Some _, Some _ =>
         Raise (ValueError "host/port and sock can not be specified at the same time")
     | Some s, _, _ => Ret (Native.ViaSock (KObj s) (connection_slots a))
     | None, Some h, Some p =>
         Ret (Native.ViaHost h (Some (KInt p)) (connection_slots a))
     | None, _, _ => Raise (ValueError "Host is required")
     end).
Proof.
  intros Hs. unfold create_connection. rewrite Hs. f_equal.
  unfold Native.create_connection. rewrite parse_connection.
  unfold create_connection_pos, connection_slots.
  by destruct (a_sock a), (a_host a), (a_port a).
Qed.

Definition example_args : conn_args :=
  default_args <| a_host := Some "example.org" |> <| a_port := Some 443%Z |>
    <| a_dns_timeout := Some (5 # 2)%Q |>.

Lemma create_connection_forwards_witness :
  a_ssl example_args = SSLNone
  /\ (create_connection example_args).2
     = Ret (Native.ViaHost "example.org" (Some (KInt 443)) (connection_slots example_args)).
Proof.
  split; [reflexivity|]. by rewrite (create_connection_forwards example_args eq_refl).
Defined.

(** A TLS [create_connection] (a context, or [True]) without [flags] wraps
    the BIOs client-side under [server_hostname or host], builds the application
    protocol once, and then makes one native call whose slots hold the caller's
    options, the TLS ones withheld; a socket excludes host and port
    from the call, and without one the host must be a string. *)
Theorem create_ssl_connection_forwards a :
  a_ssl a <> SSLNone -> a_ssl a <> SSLBool false -> a_flags a = 0%Z ->
  create_connection a
  = ([StWrapBio false (str_or (a_server_hostname a) (a_host a)); StFactory;
      StNative (ssl_connection_pos a) (ssl_connection_kwargs a)],
     match a_sock a, a_host a with
     | Some s, _ => Ret (Native.ViaSock (KObj s) (ssl_connection_slots a))
     | None, Some h =>
         Ret (Native.ViaHost h (Some (int_or_none (a_port a))) (ssl_connection_slots a))
     | None, None => Raise (ValueError "Host must be a valid string")
     end).
Proof.
  intros Hn Hb Hf.
  assert (Hc : create_connection a = create_ssl_connection a)
    by (unfold create_connection; by destruct (a_ssl a)).
  assert (Hp : ssl_connection_prologue a =
    ([StWrapBio false (str_or (a_server_hostname a) (a_host a)); StFactory], Ret tt))
    by (unfold ssl_connection_prologue; by destruct (a_ssl a) as [|[]|]).
  rewrite Hc. unfold create_ssl_connection. rewrite Hp. cbn zeta. f_equal.
  unfold Native.create_connection. rewrite parse_ssl_connection by done.
  unfold ssl_connection_pos, ssl_connection_slots.
  by destruct (a_sock a), (a_host a).
Qed.

Definition example_ssl_args : conn_args := example_args <| a_ssl := SSLBool true |>.

Lemma create_ssl_connection_forwards_witness :
  (create_connection example_ssl_args).2
  = Ret (Native.ViaHost "example.org" (Some (KInt 443)) (ssl_connection_slots example_ssl_args)).
Proof.
  rewrite (create_ssl_connection_forwards example_ssl_args); [reflexivity | | |]; done.
Defined.

(** With [flags] set, every TLS connection fails: the native method does not
    know the keyword, and the error comes after the engine was built and the
    user's factory called, while the plain path drops [flags] and gives the
    same result as without them. *)
Theorem ssl_flags_rejected a : a_flags a <> 0%Z ->
  (a_ssl a <> SSLNone -> a_ssl a <> SSLBool false ->
   create_connection a
   = ([StWrapBio false (str_or (a_server_hostname a) (a_host a)); StFactory;
       StNative (ssl_connection_pos a) (ssl_connection_kwargs a)],
      Raise (ValueError "Invalid keyword argument")))
  /\ (a_ssl a = SSLNone -> create_connection a = create_connection (a <| a_flags := 0%Z |>)).
Proof.
  intros Hf. split.
  - intros Hn Hb.
    assert (Hc : create_connection a = create_ssl_connection a)
      by (unfold create_connection; by destruct (a_ssl a)).
    rewrite Hc. unfold create_ssl_connection.
    assert (Hp : ssl_connection_prologue a =
      ([StWrapBio false (str_or (a_server_hostname a) (a_host a)); StFactory], Ret tt))
      by (unfold ssl_connection_prologue; by destruct (a_ssl a) as [|[]|]).
    rewrite Hp. cbn zeta. f_equal.
    unfold Native.create_connection. by rewrite parse_ssl_flags.
  - intros Hn. unfold create_connection. cbn. by rewrite Hn.
Qed.

Definition example_flags_args : conn_args := example_ssl_args <| a_flags := 2%Z |>.

Lemma ssl_flags_rejected_witness :
  (create_connection example_flags_args).2 = Raise (ValueError "Invalid keyword argument").
Proof.
  assert (H : a_flags example_flags_args <> 0%Z) by done.
  destruct (ssl_flags_rejected example_flags_args H) as [Hs _]. by rewrite Hs.
Defined.

(** The plain and the TLS server make the same native call and so bind the
    same addresses with the same options, except where no host was given: the
    plain server then asks for every interface (the empty host) while the TLS
    server is refused.  With a listening socket the host does not matter. *)
Theorem create_server_forwards a :
  create_server a
  = match s_sock a, s_ssl a, s_host a with
    | Some s, _, _ => Ret (Native.ViaSock (KObj s) (server_slots a))
    | None, _, Some h => Ret (Native.ViaHost h (Some (int_or_none (s_port a))) (server_slots a))
    | None, SSLNone, None =>
        Ret (Native.ViaHost EmptyString (Some (int_or_none (s_port a))) (server_slots a))
    | None, _, None => Raise (ValueError "Host must be a valid string")
    end.
Proof.
  unfold create_server, create_ssl_server, Native.create_server. rewrite parse_server.
  unfold server_slots. by destruct (s_ssl a), (s_sock a), (s_host a).
Qed.

(** An accepted socket handed over with a context is wrapped as the client side
    of a handshake, although it is the server side of the connection. *)
Lemma accepted_socket_is_client sock ctx ht st :
  (connect_accepted_socket sock (SSLContext ctx) ht st).1
  = [StWrapBio false None; StFactory; StNative [] [("sock", KObj sock)]].
Proof. reflexivity. Qed.

(** [ssl=False] is not [None]: it takes the TLS path and fails there. *)
Lemma ssl_false_fails a : a_ssl a = SSLBool false ->
  create_connection a = ([], Raise AttributeError).
Proof.
  intros H. unfold create_connection, create_ssl_connection, ssl_connection_prologue.
  by rewrite H.
Qed.
