(* ===== verification/SubprocessPipes.v ===== *)
(** * The pipe transports of a subprocess (talyn/loop.py 1880-2040)

    [_ReadPipeTransport] reads a child's stdout or stderr when the loop calls
    [_on_readable]; [_WritePipeTransport] buffers writes to the child's stdin and
    flushes them from a worker thread.  The loop's [add_reader] and
    [remove_reader] keep or drop one persistent watcher per descriptor
    (src/src/loop/python/io/watchers.zig) and may raise; the protocol is user code
    that may call back into the transport and may raise. *)

From stdpp Require Import base list strings relations.
From Stdlib Require Import Strings.Byte.
From S2P Require Import Prelude.

Module ReadPipe.

(** Calls on the protocol. *)
Inductive event : Type :=
| PipeData (fd : nat) (data : bytes)          (* pipe_data_received *)
| PipeLost (fd : nat) (exc : option exn).     (* pipe_connection_lost *)

Record transport : Type := MkTransport {
  _fd : nat;
  _pipe_fd : nat;
  _protocol : option nat;
  _closing : bool;
  _closed : bool;
  _eof : bool;
  (* around the object *)
  armed : bool;                     (* the loop watches [_fd] for this transport *)
  faults : list bool;               (* which of the next calls on the loop raise *)
  events : list event;              (* the protocol's calls so far *)
  taken : bytes;                    (* read from the pipe so far *)
  logged : nat                      (* [logger.exception] calls *)
}.

#[export] Instance transport_eta : Eta transport := fun t =>
  MkTransport (_fd t) (_pipe_fd t) (_protocol t) (_closing t) (_closed t) (_eof t)
    (armed t) (faults t) (events t) (taken t) (logged t).

Abbreviation M := (PyM transport).

(** A call on the loop works, or raises an [Exception] where the environment says
    so (they are all treated alike; this is the one for a closed loop). *)
Definition loop_call (on : bool) : M unit :=
  f <- gets faults ;;
  match f with
  | true :: fs => self faults <- fs ;;; raise (RuntimeError "Loop is closed")
  | false :: fs => self faults <- fs ;;; self armed <- on
  | [] => self armed <- on
  end.

Definition add_reader : M unit := loop_call true.
Definition remove_reader : M unit := loop_call false.

(** [except Exception: logger.exception(...)]. *)
Definition log_Exception (m : M unit) : M unit :=
  try_except m (except is_Exception (fun _ => modify (fun t => t <| logged := S (logged t) |>))).

(** [__init__] on a fresh object; the watcher is added last. *)
Definition init (fd pipe_fd : nat) : M unit :=
  self _fd <- fd ;;; self _pipe_fd <- pipe_fd ;;; self _protocol <- None ;;;
  self _closing <- false ;;; self _closed <- false ;;; self _eof <- false ;;;
  add_reader.

Definition set_protocol (p : option nat) : M unit := self _protocol <- p.

Definition is_closing : M bool := gets (fun t => _closing t || _closed t).

Definition pause_reading : M unit := log_Exception remove_reader.

Definition resume_reading : M unit :=
  c <- gets _closed ;; e <- gets _eof ;;
  if c || e then ret tt else log_Exception add_reader.

Definition close : M unit :=
  c <- gets _closed ;;
  if c then ret tt else
  self _closing <- true ;;; self _closed <- true ;;; log_Exception remove_reader.

Section User.

(** The user's protocol: the transport methods a callback calls, and what it
    raises. *)
Inductive user_op : Type := UPause | UResume | UClose.

Variable react : transport -> event -> list user_op * option exn.

Definition user_call (o : user_op) : M unit :=
  match o with UPause => pause_reading | UResume => resume_reading | UClose => close end.

Definition notify (ev : event) : M unit :=
  modify (fun t => t <| events := events t ++ [ev] |>) ;;;
  r <- gets (fun t => react t ev) ;;
  for_each r.1 user_call ;;;
  match r.2 with Some e => raise e | None => ret tt end.

(** [os.read(fd, 65536)] gives [res]. *)
Definition os_read (res : outcome bytes) : M bytes :=
  match res with
  | Ret d => modify (fun t => t <| taken := taken t ++ d |>) ;;; ret d
  | Raise e => raise e
  end.

Definition is_BlockingIOError (e : exn) : bool := bool_decide (e = BlockingIOError).

Definition on_eof (proto : option nat) : M unit :=
  self _eof <- true ;;;
  log_Exception remove_reader ;;;
  match proto with
  | None => ret tt
  | Some _ => fd <- gets _pipe_fd ;; log_Exception (notify (PipeLost fd None))
  end.

Definition on_data (proto : option nat) (data : bytes) : M unit :=
  match proto with
  | None => ret tt
  | Some _ => fd <- gets _pipe_fd ;; log_Exception (notify (PipeData fd data))
  end ;;;
  log_Exception add_reader.

Definition _on_readable (res : outcome bytes) : M unit :=
  e <- gets _eof ;; c <- gets _closed ;;
  if e || c then log_Exception remove_reader
  else
    proto <- gets _protocol ;;
    data <- try_except (d <- os_read res ;; ret (Some d))
              (orelse (except is_BlockingIOError (fun _ => log_Exception add_reader ;;; ret None))
                      (except is_OSError (fun _ => ret (Some [])))) ;;
    match data with
    | None => ret tt
    | Some [] => on_eof proto
    | Some d => on_data proto d
    end.

(** ** What the loop and the program do with the transport

    The loop calls [_on_readable] only while its watcher is armed. *)
Inductive step : transport -> transport -> Prop :=
| step_readable res t : armed t = true -> step t (_on_readable res t).2
| step_user o t : step t (user_call o t).2
| step_set_protocol p t : step t (set_protocol (Some p) t).2.

Definition started (fd pipe_fd p : nat) (t : transport) : Prop :=
  exists t0, t = (set_protocol (Some p) (init fd pipe_fd t0).2).2
             /\ events t0 = [] /\ taken t0 = [] /\ armed t0 = false.

(** ** The stream reaches the protocol *)

(** The chunks delivered are what was read, none empty; the loss is reported
    exactly when the end was seen, after them. *)
Definition delivered (t : transport) : Prop :=
  _protocol t <> None /\
  exists ds, events t = map (PipeData (_pipe_fd t)) ds
                        ++ (if _eof t then [PipeLost (_pipe_fd t) None] else [])
             /\ concat ds = taken t /\ Forall (fun d => d <> []) ds.

(** The protocol's view. *)
Definition view (t : transport) :=
  (_protocol t, _pipe_fd t, _eof t, events t, taken t).

Lemma delivered_view t t' : view t' = view t -> delivered t -> delivered t'.
Proof. unfold view, delivered. intros [= -> -> -> -> ->]. done. Qed.

Definition frames (m : M unit) : Prop := forall t, view (m t).2 = view t.

Lemma frames_bind m k : frames m -> (forall x, frames (k x)) -> frames (bind m k).
Proof.
  intros Hm Hk t. unfold bind. specialize (Hm t).
  destruct (m t) as [[x|e] t']; cbn [snd] in *; [by rewrite Hk | done].
Qed.

Lemma frames_ret : frames (ret tt).
Proof. done. Qed.

Lemma frames_loop_call on : frames (loop_call on).
Proof. intros t. unfold loop_call, bind, gets. by destruct (faults t) as [|[]]. Qed.

Lemma frames_log m : frames m -> frames (log_Exception m).
Proof.
  intros Hm t. unfold log_Exception, try_except, try_else. specialize (Hm t).
  destruct (m t) as [[x|e] t']; cbn [snd] in *; [done|].
  unfold except. by destruct (is_Exception e).
Qed.

Lemma frames_user o : frames (user_call o).
Proof.
  destruct o; cbn; [apply frames_log, frames_loop_call| |].
  - intros t. unfold resume_reading, bind, gets.
    destruct (_closed t || _eof t); [done | apply frames_log, frames_loop_call].
  - intros t. unfold close, bind at 1, gets. destruct (_closed t); [done|].
    exact (frames_log _ (frames_loop_call false) (t <| _closing := true |> <| _closed := true |>)).
Qed.

Lemma frames_for_each l : frames (for_each l user_call).
Proof. induction l; cbn; [apply frames_ret | apply frames_bind; auto using frames_user]. Qed.

(** A notification is one event, whatever the callback does. *)
Lemma notify_view ev t :
  view (notify ev t).2 = view (t <| events := events t ++ [ev] |>).
Proof.
  unfold notify, bind at 1, modify, bind at 1, gets.
  set (t1 := set_field _ t). change (view (t <| events := events t ++ [ev] |>)) with (view t1).
  unfold bind. pose proof (frames_for_each (react t1 ev).1 t1) as H.
  destruct (for_each _ _ t1) as [[x|e] t2]; cbn [snd] in *; [|done].
  by destruct (react t1 ev).2.
Qed.

Lemma log_notify_view ev t :
  view (log_Exception (notify ev) t).2 = view (t <| events := events t ++ [ev] |>).
Proof.
  rewrite <- notify_view. unfold log_Exception, try_except, try_else.
  destruct (notify ev t) as [[x|e] t']; [done|].
  unfold except. by destruct (is_Exception e).
Qed.

(** A call on the loop, its failure logged, comes back. *)
Lemma log_loop_call_ret on t : (log_Exception (loop_call on) t).1 = Ret tt.
Proof.
  unfold log_Exception, try_except, try_else, loop_call, bind, gets.
  by destruct (faults t) as [|[]].
Qed.

Lemma log_loop_call_eq on t :
  exists t', log_Exception (loop_call on) t = (Ret tt, t') /\ view t' = view t
             /\ _closed t' = _closed t.
Proof.
  exists (log_Exception (loop_call on) t).2. split; [|split].
  - by rewrite <- (log_loop_call_ret on t), <- surjective_pairing.
  - apply frames_log, frames_loop_call.
  - unfold log_Exception, try_except, try_else, loop_call, bind, gets.
    by destruct (faults t) as [|[]].
Qed.

Lemma on_eof_view p t :
  view (on_eof (Some p) t).2
  = view (t <| _eof := true |> <| events := events t ++ [PipeLost (_pipe_fd t) None] |>).
Proof.
  unfold on_eof, bind at 1, modify, bind at 1.
  set (t1 := t <| _eof := true |>).
  destruct (log_loop_call_eq false t1) as (t2 & E & Hv & _). unfold remove_reader. rewrite E.
  unfold bind, gets. rewrite log_notify_view.
  unfold view in *. cbn in *. injection Hv as H1 H2 H3 H4 H5.
  by rewrite H1, H2, H3, H4, H5.
Qed.

Lemma on_data_view p d t :
  view (on_data (Some p) d t).2
  = view (t <| events := events t ++ [PipeData (_pipe_fd t) d] |>).
Proof.
  rewrite <- log_notify_view. unfold on_data, bind, gets.
  destruct (log_Exception (notify _) t) as [[x|e] t']; [|done].
  apply frames_log, frames_loop_call.
Qed.

(** The read, its errors sorted: blocked, ended, or a chunk. *)
Lemma on_readable_cases res t p :
  _eof t = false -> _closed t = false -> _protocol t = Some p ->
  let t' := (_on_readable res t).2 in
  match res with
  | Ret ((_ :: _) as d) =>
      view t' = view (t <| taken := taken t ++ d |>
                        <| events := events t ++ [PipeData (_pipe_fd t) d] |>)
  | Ret [] => view t' = view (t <| _eof := true |>
                                <| events := events t ++ [PipeLost (_pipe_fd t) None] |>)
  | Raise e =>
      if is_BlockingIOError e then view t' = view t
      else if is_OSError e
           then view t' = view (t <| _eof := true |>
                                  <| events := events t ++ [PipeLost (_pipe_fd t) None] |>)
           else view t' = view t
  end.
Proof.
  intros He Hc Hp. cbn zeta. unfold _on_readable, bind, gets.
  rewrite He, Hc. cbn [orb]. rewrite Hp. unfold try_except, try_else.
  destruct res as [[|b d]|e]; cbn -[on_eof on_data view orelse].
  - rewrite on_eof_view. cbn. by rewrite app_nil_r.
  - by rewrite on_data_view.
  - unfold orelse, except. destruct (is_BlockingIOError e).
    + destruct (log_loop_call_eq true t) as (t2 & E & Hv & _).
      unfold add_reader. by rewrite E.
    + destruct (is_OSError e); [|done]. cbn -[on_eof view]. apply on_eof_view.
Qed.

Lemma keeps_delivered_readable res : keeps delivered (_on_readable res).
Proof.
  intros t Hd. destruct (_eof t || _closed t) eqn:Eec.
  - apply (delivered_view t); [|done].
    unfold _on_readable, bind at 1, gets, bind at 1, gets. rewrite Eec.
    apply frames_log, frames_loop_call.
  - apply orb_false_iff in Eec as [He Hc].
    destruct Hd as (Hp & ds & Hev & Ht & Hne). destruct (_protocol t) as [p|] eqn:Ep; [|done].
    pose proof (on_readable_cases res t p He Hc Ep) as H. cbn zeta in H.
    rewrite He, app_nil_r in Hev.
    assert (Hsame : forall t', view t' = view t -> delivered t').
    { intros t' Hv. apply (delivered_view t t' Hv). split; [by rewrite Ep|].
      exists ds. by rewrite He, app_nil_r. }
    assert (Hend : forall t', view t' = view (t <| _eof := true |>
               <| events := events t ++ [PipeLost (_pipe_fd t) None] |>) -> delivered t').
    { intros t' Hv. eapply delivered_view; [exact Hv|]. split; [cbn; by rewrite Ep|].
      exists ds. cbn. by rewrite Hev. }
    destruct res as [[|b d]|e]; [by apply Hend| |].
    + eapply delivered_view; [exact H|]. split; [cbn; by rewrite Ep|].
      exists (ds ++ [b :: d]). cbn. rewrite He, app_nil_r, Hev, map_app, concat_app, Ht.
      cbn. rewrite app_nil_r. split; [done|split; [done|]]. by apply Forall_app_2; auto.
    + destruct (is_BlockingIOError e); [by apply Hsame|].
      destruct (is_OSError e); [by apply Hend | by apply Hsame].
Qed.

Lemma started_delivered fd pipe_fd p t : started fd pipe_fd p t -> delivered t.
Proof.
  intros (t0 & -> & He & Ht & _).
  assert (Hv : view (init fd pipe_fd t0).2 = (None, pipe_fd, false, [], [])).
  { rewrite <- He, <- Ht at 1.
    exact (frames_loop_call true (MkTransport fd pipe_fd None false false false
             (armed t0) (faults t0) (events t0) (taken t0) (logged t0))). }
  revert Hv. generalize (init fd pipe_fd t0).2. intros s Hv.
  unfold view in Hv. injection Hv as H1 H2 H3 H4 H5.
  split; [done|]. exists []. cbn. by rewrite H3, H4, H5.
Qed.

Lemma step_delivered t t' : step t t' -> delivered t -> delivered t'.
Proof.
  intros [res t0 _|o t0|p t0] H.
  - by apply keeps_delivered_readable.
  - eapply delivered_view; [apply frames_user | done].
  - destruct H as [_ H]. by split.
Qed.

(** Nothing happens to the protocol once the transport is closed. *)
Lemma step_closed t t' : step t t' -> _closed t = true ->
  _closed t' = true /\ events t' = events t /\ taken t' = taken t.
Proof.
  intros [res t0 _|o t0|p t0] Hc; [| |done].
  - unfold _on_readable, bind, gets. rewrite Hc, orb_true_r.
    destruct (log_loop_call_eq false t0) as (t2 & E & Hv & Hc').
    unfold remove_reader. rewrite E. unfold view in Hv. injection Hv as _ _ _ H4 H5.
    cbn [snd]. by rewrite Hc', H4, H5.
  - pose proof (frames_user o t0) as Hv. unfold view in Hv. injection Hv as _ _ _ H4 H5.
    split; [|done]. destruct o; cbn.
    + destruct (log_loop_call_eq false t0) as (t2 & E & _ & Hc').
      unfold pause_reading, remove_reader. rewrite E. cbn [snd]. by rewrite Hc'.
    + unfold resume_reading, bind, gets. by rewrite Hc.
    + unfold close, bind, gets. by rewrite Hc.
Qed.

(** ** A protocol that keeps reading gets everything *)

(** The loop's calls while the descriptor stays readable; an exception goes to
    the loop's exception handler. *)
Fixpoint drive (reads : list (outcome bytes)) (t : transport) : transport :=
  match reads with
  | [] => t
  | r :: rs => drive rs (if armed t then (_on_readable r t).2 else t)
  end.

Definition keeps_reading : Prop := forall t ev, Forall (eq UResume) (react t ev).1.

Definition live (t : transport) : Prop := armed t = true /\ _closed t = false.

Lemma keeps_live_log : keeps live (log_Exception add_reader).
Proof.
  intros t [Ha Hc]. unfold log_Exception, try_except, try_else, add_reader, loop_call, bind, gets.
  by destruct (faults t) as [|[]].
Qed.

Lemma keeps_live_user l : Forall (eq UResume) l -> keeps live (for_each l user_call).
Proof.
  induction 1 as [|o l <- _ IH]; [apply keeps_ret|]. cbn. apply keeps_bind; [|done].
  unfold resume_reading. keeps_tac. apply keeps_live_log.
Qed.

Lemma keeps_live_notify ev : keeps_reading -> keeps live (log_Exception (notify ev)).
Proof.
  intros Hr. apply keeps_try_except; [|intros; handler_cases; eauto with keeps].
  unfold notify. apply keeps_bind; [eauto with keeps|]. intros _ t Hl.
  unfold bind at 1, gets.
  apply (keeps_bind live (for_each (react t ev).1 user_call)); [|intros; keeps_tac|done].
  by apply keeps_live_user.
Qed.

Lemma drive_chunks ds t : keeps_reading -> live t -> _eof t = false ->
  _protocol t <> None -> Forall (fun d => d <> []) ds ->
  let t' := drive (map Ret ds) t in
  live t' /\ _eof t' = false /\ _protocol t' <> None /\ _pipe_fd t' = _pipe_fd t
  /\ events t' = events t ++ map (PipeData (_pipe_fd t)) ds.
Proof.
  intros Hr Hl He Hp Hds. cbn zeta. revert t Hl He Hp.
  induction Hds as [|d ds Hd _ IH]; intros t Hl He Hp; cbn [map drive].
  { by rewrite app_nil_r. }
  destruct Hl as [Ha Hc]. rewrite Ha. destruct (_protocol t) as [p|] eqn:Ep; [|done].
  pose proof (on_readable_cases (Ret d) t p He Hc Ep) as Hv. cbn zeta in Hv.
  destruct d as [|b d]; [done|]. unfold view in Hv.
  injection Hv as H1 H2 H3 H4 H5.
  assert (Hl' : live (_on_readable (Ret (b :: d)) t).2).
  { unfold _on_readable, bind at 1, gets, bind at 1, gets. rewrite He, Hc. cbn [orb].
    unfold bind at 1, gets. rewrite Ep. unfold bind at 1, try_except, try_else, os_read.
    cbn -[on_data]. unfold on_data.
    apply (keeps_bind live); [|intros; apply keeps_live_log|by split].
    apply keeps_bind; [eauto with keeps | intros; by apply keeps_live_notify]. }
  revert H1 H2 H3 H4 H5 Hl'. generalize (_on_readable (Ret (b :: d)) t).2. intros t1 H1 H2 H3 H4 H5 Hl'.
  destruct (IH t1 Hl') as (I1 & I2 & I3 & I4 & I5); [by rewrite H3|by rewrite H1, Ep|].
  rewrite H2 in *. split_and!; try done. rewrite I5, H4, <- app_assoc. done.
Qed.

End User.

(** C36: whatever the reads return, whichever calls on the loop fail and whatever
    the protocol does in its callbacks (pausing, resuming, closing, raising), the
    protocol has received exactly the bytes read so far, in order and in
    non-empty chunks, and the end of the pipe once, after them, when it was
    seen. *)
Theorem read_pipe_stream react fd pipe_fd p t0 t :
  started fd pipe_fd p t0 -> rtc (step react) t0 t ->
  exists ds,
    events t = map (PipeData (_pipe_fd t)) ds
               ++ (if _eof t then [PipeLost (_pipe_fd t) None] else [])
    /\ concat ds = taken t /\ Forall (fun d => d <> []) ds.
Proof.
  intros H0 Hs. assert (Hd : delivered t); [|apply Hd].
  apply started_delivered in H0.
  induction Hs as [|t1 t2 t3 H12 _ IH]; [done|]. eapply IH, step_delivered, H0. exact H12.
Qed.

(** A protocol that does not pause or close the transport in its callbacks
    receives every chunk of the pipe and then its end, even if its callbacks
    raise or calls on the loop fail. *)
Theorem read_pipe_delivers_all react fd pipe_fd p t ds :
  keeps_reading react -> started fd pipe_fd p t -> armed t = true ->
  Forall (fun d => d <> []) ds ->
  let t' := drive react (map Ret ds ++ [Ret []]) t in
  events t' = map (PipeData pipe_fd) ds ++ [PipeLost pipe_fd None] /\ _eof t' = true.
Proof.
  intros Hr H0 Ha Hds. cbn zeta.
  assert (Hi : _closed t = false /\ _eof t = false /\ _protocol t <> None
               /\ _pipe_fd t = pipe_fd /\ events t = []).
  { destruct H0 as (t0 & -> & He & _). unfold init, bind, modify, add_reader, loop_call, gets.
    cbn. by destruct (faults t0) as [|[]]. }
  destruct Hi as (Hc & He & Hp & Hf & Hev).
  assert (Hd : forall l1 l2 s, drive react (l1 ++ l2) s = drive react l2 (drive react l1 s))
    by (induction l1; cbn; auto).
  rewrite Hd.
  destruct (drive_chunks react ds t Hr (conj Ha Hc) He Hp Hds) as ([Ha' Hc'] & He' & Hp' & Hf' & Hev').
  revert Ha' Hc' He' Hp' Hf' Hev'. generalize (drive react (map Ret ds) t).
  intros t1 Ha' Hc' He' Hp' Hf' Hev'. cbn [drive]. rewrite Ha'.
  destruct (_protocol t1) as [q|] eqn:Eq; [|done].
  pose proof (on_readable_cases react (Ret []) t1 q He' Hc' Eq) as Hv. cbn zeta in Hv.
  unfold view in Hv. injection Hv as H1 H2 H3 H4 H5. rewrite H3, H4. cbn.
  by rewrite Hev', Hev, Hf', Hf.
Qed.

(** Once closed, nothing more is read or reported. *)
Lemma closed_pipe_is_quiet react t t' :
  rtc (step react) t t' -> _closed t = true -> events t' = events t /\ taken t' = taken t.
Proof.
  induction 1 as [|t1 t2 t3 H12 _ IH]; intros Hc; [done|].
  destruct (step_closed react t1 t2 H12 Hc) as (Hc' & <- & <-). exact (IH Hc').
Qed.

Lemma drive_steps react reads t : rtc (step react) t (drive react reads t).
Proof.
  revert t. induction reads as [|r reads IH]; intros t; cbn; [apply rtc_refl|].
  destruct (armed t) eqn:Ha; [|apply IH].
  eapply rtc_l; [by apply (step_readable _ r) | apply IH].
Qed.

(** A fresh object; a protocol that pauses at every chunk. *)
Definition blank : transport := MkTransport 0 0 None false false false false [] [] [] 0.
Definition demo : transport := (set_protocol (Some 0) (init 7 1 blank).2).2.
Definition pauses (t : transport) (ev : event) : list user_op * option exn :=
  match ev with PipeData _ _ => ([UPause], None) | PipeLost _ _ => ([], None) end.
Definition raises (t : transport) (ev : event) : list user_op * option exn :=
  ([], Some (ValueError "callback")).

Lemma demo_started : started 7 1 0 demo.
Proof. by exists blank. Qed.

Lemma read_pipe_stream_witness :
  exists ds,
    events (drive raises [Ret [x61; x62]; Ret [x63]; Raise (OSError 5)] demo)
    = map (PipeData 1) ds ++ [PipeLost 1 None]
    /\ concat ds = [x61; x62; x63] /\ Forall (fun d => d <> []) ds.
Proof.
  assert (Hs : rtc (step raises) demo
                 (drive raises [Ret [x61; x62]; Ret [x63]; Raise (OSError 5)] demo)).
  { apply drive_steps. }
  exact (read_pipe_stream raises 7 1 0 demo _ demo_started Hs).
Defined.

Lemma read_pipe_delivers_all_witness :
  events (drive raises [Ret [x61]; Ret [x62; x63]; Ret []] demo)
  = [PipeData 1 [x61]; PipeData 1 [x62; x63]; PipeLost 1 None].
Proof.
  apply (read_pipe_delivers_all raises 7 1 0 demo [[x61]; [x62; x63]]).
  - intros t ev. constructor.
  - apply demo_started.
  - reflexivity.
  - repeat constructor; discriminate.
Defined.

(** [pause_reading()] called inside [pipe_data_received] does not pause: the
    watcher is put back when the callback returns, and the next chunk arrives. *)
Lemma pause_in_callback_undone :
  armed (_on_readable pauses (Ret [x61]) demo).2 = true
  /\ events (drive pauses [Ret [x61]; Ret [x62]] demo)
     = [PipeData 1 [x61]; PipeData 1 [x62]].
Proof. split; reflexivity. Qed.

End ReadPipe.

Module WritePipe.

(** Where the worker thread of a [drain()] stands inside [flush]. *)
Inductive worker : Type :=
| Idle
| Started                      (* before [flush] reads [_buffer] *)
| Copied (data : bytes)        (* [bytes(self._buffer)] taken, not yet written *)
| Written                      (* [stdin.write] done *)
| Flushed.                     (* [stdin.flush] done, [clear] to come *)

Record transport : Type := MkTransport {
  _buffer : bytes;
  _closing : bool;
  _closed : bool;
  (* the Popen's [stdin], a buffered file on the pipe *)
  stdin_open : bool;
  stdin_buf : bytes;
  pipe : bytes;                (* what the child can read *)
  broken : bool;               (* the child closed its end *)
  (* around the object *)
  thread : worker;
  drained : option (outcome unit);   (* how the last [drain()] ended *)
  accepted : bytes             (* what [write] took *)
}.

#[export] Instance transport_eta : Eta transport := fun t =>
  MkTransport (_buffer t) (_closing t) (_closed t) (stdin_open t) (stdin_buf t)
    (pipe t) (broken t) (thread t) (drained t) (accepted t).

Abbreviation M := (PyM transport).

Definition init : transport :=
  MkTransport [] false false true [] [] false Idle None [].

(** *** The file object *)

Definition stdin_write (data : bytes) : M unit :=
  o <- gets stdin_open ;;
  if o then modify (fun t => t <| stdin_buf := stdin_buf t ++ data |>)
  else raise (ValueError "write to closed file").

Definition stdin_flush : M unit :=
  o <- gets stdin_open ;; b <- gets broken ;;
  if negb o then raise (ValueError "flush of closed file")
  else if b then raise BrokenPipeError
  else modify (fun t => t <| pipe := pipe t ++ stdin_buf t |> <| stdin_buf := [] |>).

(** Closing flushes first; the descriptor is closed either way. *)
Definition stdin_close : M unit :=
  o <- gets stdin_open ;;
  if o then try_finally stdin_flush (self stdin_open <- false) else ret tt.

(** *** The transport *)

Definition is_closing : M bool := gets (fun t => _closing t || _closed t).

Definition close : M unit :=
  c <- gets _closed ;;
  if c then ret tt else
  self _closing <- true ;;; self _closed <- true ;;;
  try_except stdin_close (except is_Exception (fun _ => ret tt)).

Definition can_write_eof : M bool := ret true.

Definition write (data : bytes) : M unit :=
  c <- gets _closed ;;
  if c then ret tt else
  modify (fun t => t <| _buffer := _buffer t ++ data |> <| accepted := accepted t ++ data |>).

Definition flush : M unit :=
  c <- gets _closed ;; b <- gets _buffer ;;
  if c || bool_decide (b = []) then ret tt else
  stdin_write b ;;; stdin_flush ;;; self _buffer <- [].

(** [_patched_drain_helper] up to its [await]: [true] when it waits. *)
Definition drain : M bool :=
  c <- gets _closed ;; b <- gets _buffer ;;
  if c || bool_decide (b = []) then self drained <- Some (Ret tt) ;;; ret false
  else self drained <- None ;;; self thread <- Started ;;; ret true.

(** [_do_flush], one interpreter step at a time; every exception goes to the
    drain's future. *)
Definition finish (o : outcome unit) : M unit :=
  self thread <- Idle ;;; self drained <- Some o.

Definition thread_step : M unit :=
  w <- gets thread ;;
  try_except
    match w with
    | Idle => ret tt
    | Started =>
        c <- gets _closed ;; b <- gets _buffer ;;
        if c || bool_decide (b = []) then finish (Ret tt) else self thread <- Copied b
    | Copied d => stdin_write d ;;; self thread <- Written
    | Written => stdin_flush ;;; self thread <- Flushed
    | Flushed => self _buffer <- [] ;;; finish (Ret tt)
    end
    (except is_BaseException (fun e => finish (Raise e))).

(** Alone, the four steps of the worker are [flush] (from a transport whose
    [drain] has just started it). *)
Definition run_thread : M unit :=
  thread_step ;;; thread_step ;;; thread_step ;;; thread_step.

(** The program: its own calls, the worker's steps, and the child closing its
    end.  [patient] programs call nothing between [drain()] and its end. *)
Inductive step (patient : bool) : transport -> transport -> Prop :=
| step_write d t : (patient = true -> thread t = Idle) -> step patient t (write d t).2
| step_close t : (patient = true -> thread t = Idle) -> step patient t (close t).2
| step_drain t : thread t = Idle -> step patient t (drain t).2
| step_thread t : step patient t (thread_step t).2
| step_broken t : step patient t (t <| broken := true |>).

(** What of the accepted bytes is where. *)
Definition accounted (t : transport) : Prop :=
  pipe t `prefix_of` accepted t /\
  (_closed t = negb (stdin_open t)) /\
  (_closed t = true -> thread t = Idle) /\
  (_closed t = false -> broken t = false ->
   match thread t with
   | Idle | Started => stdin_buf t = [] /\ accepted t = pipe t ++ _buffer t
   | Copied d => stdin_buf t = [] /\ d = _buffer t /\ accepted t = pipe t ++ _buffer t
   | Written => stdin_buf t = _buffer t /\ accepted t = pipe t ++ _buffer t
   | Flushed => stdin_buf t = [] /\ accepted t = pipe t
   end).

Lemma accounted_init : accounted init.
Proof. unfold accounted; cbn; split_and!; done. Qed.

Ltac account := unfold accounted; cbn; split_and!; try done; intros; congruence.

Lemma accounted_write d t : thread t = Idle -> accounted t -> accounted (write d t).2.
Proof.
  intros Hi (Hp & Ho & Hc & Ha). unfold write, bind, gets. rewrite Hi in *.
  destruct (_closed t) eqn:Ec; [account|]. cbn. unfold accounted. cbn. rewrite Hi, Ec.
  split_and!; try done.
  - by apply prefix_app_r.
  - intros _ Hb. destruct (Ha eq_refl Hb) as [-> ->]. by rewrite app_assoc.
Qed.

Lemma accounted_close t : thread t = Idle -> accounted t -> accounted (close t).2.
Proof.
  intros Hi (Hp & Ho & Hc & Ha). unfold close, bind, gets. rewrite Hi in *.
  destruct (_closed t) eqn:Ec; [account|].
  destruct (stdin_open t) eqn:Eo; [|done]. cbn.
  unfold stdin_close, stdin_flush, try_except, try_else, try_finally, bind, gets. cbn.
  rewrite Eo. cbn. rewrite Eo. destruct (broken t) eqn:Eb; cbn; [account|].
  destruct (Ha eq_refl eq_refl) as [-> _]. rewrite app_nil_r. account.
Qed.

Lemma accounted_drain t : thread t = Idle -> accounted t -> accounted (drain t).2.
Proof.
  intros Hi (Hp & Ho & Hc & Ha). unfold drain, bind, gets. rewrite Hi in *.
  destruct (_closed t) eqn:Ec; cbn [orb]; [account|].
  case_bool_decide; cbn; unfold accounted; cbn; rewrite ?Ec, ?Hi; done.
Qed.

Lemma accounted_thread t : accounted t -> accounted (thread_step t).2.
Proof.
  destruct t as [b cg c o sb pp br th dr ac]. intros (Hp & Ho & Hc & Ha). cbn in *.
  destruct th; [by split_and!| | | |];
    (destruct c; [by specialize (Hc eq_refl)|]); (destruct o; [|done]).
  - unfold thread_step, try_except, try_else, bind, gets. cbn.
    case_bool_decide; cbn; unfold accounted; cbn; split_and!; try done.
    intros _ Hbr. by destruct (Ha eq_refl Hbr).
  - unfold accounted; cbn. split_and!; try done.
    intros _ Hbr. destruct (Ha eq_refl Hbr) as (-> & -> & H). done.
  - destruct br; cbn; unfold accounted; cbn; [by split_and!|].
    destruct (Ha eq_refl eq_refl) as [-> ->]. by split_and!.
  - unfold accounted; cbn. split_and!; try done.
    intros _ Hbr. destruct (Ha eq_refl Hbr) as [-> ->]. by rewrite app_nil_r.
Qed.

Lemma accounted_step t t' : step true t t' -> accounted t -> accounted t'.
Proof.
  intros [d t0 H|t0 H|t0 H|t0|t0] Ha.
  - apply accounted_write; auto.
  - apply accounted_close; auto.
  - apply accounted_drain; auto.
  - by apply accounted_thread.
  - destruct Ha as (Hp & Ho & Hc & _). by split_and!.
Qed.

Lemma accounted_reachable t : rtc (step true) init t -> accounted t.
Proof.
  intros H. pose proof accounted_init as Hi. revert Hi.
  induction H as [|t1 t2 t3 H12 _ IH]; [done|]. intros Hi. by eapply IH, accounted_step.
Qed.

(** [drain()], awaited. *)
Definition drain_awaited : M unit :=
  waits <- drain ;; if waits : bool then run_thread else ret tt.

(** For a program that awaits each [drain()] before it writes or closes,
    what the child can read is at every moment a prefix of what was written; and
    a [drain()] on an open transport delivers all of it and empties the buffer,
    or, when the child has closed its end and bytes were waiting, raises
    [BrokenPipeError]. *)
Theorem patient_drain_delivers t :
  rtc (step true) init t ->
  pipe t `prefix_of` accepted t /\
  (thread t = Idle -> _closed t = false ->
   let t' := (drain_awaited t).2 in
   if broken t && negb (bool_decide (_buffer t = []))
   then drained t' = Some (Raise BrokenPipeError) /\ pipe t' = pipe t
   else drained t' = Some (Ret tt) /\ _buffer t' = []
        /\ (broken t = false -> pipe t' = accepted t')).
Proof.
  intros (Hp & Ho & Hc & Ha)%accounted_reachable. split; [done|]. intros Hi Ec. cbn zeta.
  rewrite Hi, Ec in *. destruct (stdin_open t) eqn:Eo; [|done].
  unfold drain_awaited, drain, run_thread, thread_step, stdin_write, stdin_flush, finish,
    try_except, try_else, bind, gets. rewrite Ec. cbn [orb].
  case_bool_decide as Hb; cbn.
  - rewrite andb_false_r. split_and!; try done. intros Hbr.
    destruct (Ha eq_refl Hbr) as [_ H]. by rewrite H, Hb, app_nil_r.
  - rewrite Ec. cbn. rewrite bool_decide_eq_false_2 by done. cbn. rewrite Eo. cbn.
    rewrite Eo. cbn. destruct (broken t) eqn:Eb; cbn; [done|].
    split_and!; try done. intros _. destruct (Ha eq_refl eq_refl) as [-> H]. by rewrite H.
Qed.

Definition demo : transport := (write [x61; x62] init).2.

Lemma patient_drain_delivers_witness :
  pipe (drain_awaited demo).2 = [x61; x62] /\ drained (drain_awaited demo).2 = Some (Ret tt).
Proof.
  assert (Hs : rtc (step true) init demo)
    by (apply rtc_once; by apply (step_write true [x61; x62])).
  destruct (patient_drain_delivers demo Hs) as [_ H].
  destruct (H eq_refl eq_refl) as (H1 & _ & H3). split; [exact (H3 eq_refl) | exact H1].
Defined.

(** The worker alone is [flush]. *)
Lemma run_thread_is_flush t :
  thread t = Started -> _closed t = false -> _buffer t <> [] ->
  match flush t with
  | (o, t') => (run_thread t).2 = t' <| thread := Idle |> <| drained := Some o |>
  end.
Proof.
  intros Ht Hc Hb. unfold flush, run_thread, thread_step, stdin_write, stdin_flush, finish,
    try_except, try_else, bind, gets. rewrite Ht, Hc. cbn. rewrite bool_decide_eq_false_2 by done.
  cbn. destruct (stdin_open t) eqn:Eo; cbn; rewrite ?Eo; cbn; [|done].
  by destruct (broken t).
Qed.

(** [close()] discards the bytes that were written and not yet drained: on
    an idle open transport nothing more can reach the child, and the transport
    reports success.  A subprocess protocol that only writes and closes (as
    [asyncio] allows) sends nothing. *)
Theorem close_discards_buffer t d :
  rtc (step true) init t -> thread t = Idle -> _closed t = false ->
  match (write d ;;; close) t with
  | (o, t') =>
      o = Ret tt /\ pipe t' = pipe t /\ _buffer t' = _buffer t ++ d /\ stdin_open t' = false
      /\ (broken t = false -> accepted t' = pipe t' ++ _buffer t')
  end.
Proof.
  intros H%accounted_reachable. revert H. destruct t as [b cg c o sb pp br th dr ac].
  intros (Hp & Ho & Hc & Ha). cbn in *. intros -> ->. destruct o; [|done].
  destruct br; cbn; [by split_and!|].
  destruct (Ha eq_refl eq_refl) as [-> ->]. rewrite app_nil_r, app_assoc. done.
Qed.

Lemma close_discards_buffer_witness :
  match (write [x61] ;;; close) init with
  | (o, t') => o = Ret tt /\ pipe t' = [] /\ _buffer t' = [x61]
  end.
Proof.
  pose proof (close_discards_buffer init [x61] (rtc_refl _ _) eq_refl eq_refl) as H.
  destruct H as (H1 & H2 & H3 & _). exact (conj H1 (conj H2 H3)).
Defined.

(** A write that falls between the worker's copy of the buffer and its [clear]
    is lost without an error. *)
Definition race : M unit :=
  write [x61] ;;; drain ;;; thread_step ;;; write [x62] ;;;
  thread_step ;;; thread_step ;;; thread_step.

Lemma drain_race_loses :
  exists t, rtc (step false) init t /\ t = (race init).2
    /\ drained t = Some (Ret tt) /\ accepted t = [x61; x62] /\ pipe t = [x61]
    /\ _buffer t = [] /\ stdin_buf t = [].
Proof.
  pose (s1 := (write [x61] init).2). pose (s2 := (drain s1).2).
  pose (s3 := (thread_step s2).2). pose (s4 := (write [x62] s3).2).
  pose (s5 := (thread_step s4).2). pose (s6 := (thread_step s5).2).
  exists (thread_step s6).2. split; [|by vm_compute].
  apply (rtc_l _ _ s1); [by apply step_write|].
  apply (rtc_l _ _ s2); [by apply step_drain|].
  apply (rtc_l _ _ s3); [apply step_thread|].
  apply (rtc_l _ _ s4); [by apply step_write|].
  apply (rtc_l _ _ s5); [apply step_thread|].
  apply (rtc_l _ _ s6); [apply step_thread|].
  apply rtc_once, step_thread.
Qed.

End WritePipe.
