(* ===== verification/Subprocess.v ===== *)
(** * Subprocesses (talyn/loop.py 1677-1876, 2042-2271)

    [subprocess_exec] chooses the child's standard streams, starts it, wires the
    pipes and hands the pid to the native loop; [_TransportWrapper] and
    [_ProtocolWrapper] stand between the native transport and the user's
    protocol.  The pipe transports are those of [SubprocessPipes]. *)

From stdpp Require Import base list strings gmap.
From S2P Require Import Prelude.

(** ** Standard streams *)

Inductive redirect : Type := PIPE | DEVNULL | STDOUT | Fd (n : nat).

Definition stdio : Type := option redirect * option redirect * option redirect.

(** What the first call of the user's factory showed: a protocol with a [stdin]
    attribute, another protocol, or nothing usable. *)
Inductive sample : Type := Stream | Plain | NoSample.

(** The choice of [stdin_arg], [stdout_arg] and [stderr_arg]. *)
Definition choose_stdio (s : sample) (args : stdio) : redirect * redirect * redirect :=
  let '(stdin, stdout, stderr) := args in
  match s with
  | Stream | NoSample => (default DEVNULL stdin, default DEVNULL stdout, default DEVNULL stderr)
  | Plain => (default DEVNULL stdin, default PIPE stdout, default PIPE stderr)
  end.

(** ** [subprocess_shell] *)

Inductive cmd_arg : Type := CmdStr (s : string) | CmdBytes (b : bytes) | CmdOther.

Record shell_args : Type := ShellArgs {
  sh_cmd : cmd_arg;
  sh_universal_newlines : bool;
  sh_shell : bool;
  sh_bufsize : Z;
  sh_text : bool;
  sh_encoding : option string;
  sh_errors : option string
}.

(** The checks, in order; the command line [subprocess_exec] is called with. *)
Definition subprocess_shell (a : shell_args) : outcome (string * string * cmd_arg) :=
  match sh_cmd a with
  | CmdOther => Raise (ValueError "cmd must be a string")
  | c =>
      if sh_universal_newlines a then Raise (ValueError "universal_newlines must be False")
      else if negb (sh_shell a) then Raise (ValueError "shell must be True")
      else if negb (sh_bufsize a =? 0)%Z then Raise (ValueError "bufsize must be 0")
      else if sh_text a then Raise (ValueError "text must be False")
      else match sh_encoding a, sh_errors a with
           | Some _, _ => Raise (ValueError "encoding must be None")
           | None, Some _ => Raise (ValueError "errors must be None")
           | None, None => Ret ("/bin/sh", "-c", c)%string
           end
  end.

(** ** The bridges of pre-made pipes

    [bridge_target] holds the user's protocol once it is connected. *)
Module Bridge.

Inductive call : Type :=
| PipeDataReceived (fd : nat) (data : bytes)
| PipeConnectionLost (fd : nat) (exc : option exn)
| PauseWriting
| ResumeWriting.

Record target : Type := MkTarget {
  t_has_pause : bool;            (* [hasattr(target, "pause_writing")] *)
  t_has_resume : bool;
  t_raises : call -> option exn
}.

Record st : Type := MkSt { bridge_target : option target; calls : list call; logged : nat }.
#[export] Instance st_eta : Eta st := fun s => MkSt (bridge_target s) (calls s) (logged s).

Abbreviation M := (PyM st).

Definition on_target (k : target -> M unit) : M unit :=
  t <- gets bridge_target ;; match t with Some t => k t | None => ret tt end.

Definition invoke (t : target) (c : call) : M unit :=
  modify (fun s => s <| calls := calls s ++ [c] |>) ;;;
  match t_raises t c with Some e => raise e | None => ret tt end.

Definition read_data_received (fd : nat) (data : bytes) : M unit :=
  on_target (fun t => invoke t (PipeDataReceived fd data)).
Definition read_eof_received (fd : nat) : M unit :=
  on_target (fun t => invoke t (PipeConnectionLost fd None)).
Definition read_connection_lost (fd : nat) (exc : option exn) : M unit :=
  on_target (fun t => invoke t (PipeConnectionLost fd exc)).

(** The second half of [connection_lost] is the body of a [pause_writing]. *)
Definition write_connection_lost (exc : option exn) : M unit :=
  on_target (fun t =>
    match exc with
    | None => ret tt
    | Some _ =>
        try_except (invoke t (PipeConnectionLost 0 exc))
          (except is_Exception (fun _ => modify (fun s => s <| logged := S (logged s) |>)))
    end) ;;;
  on_target (fun t => when (t_has_pause t) (invoke t PauseWriting)).

Definition write_resume_writing : M unit :=
  on_target (fun t => when (t_has_resume t) (invoke t ResumeWriting)).

(** A clean loss of the stdin pipe reaches the protocol as [pause_writing()]: the
    bridge has no [pause_writing] of its own, and nothing resumes it. *)
Lemma clean_loss_pauses t s : bridge_target s = Some t -> t_has_pause t = true ->
  calls (write_connection_lost None s).2 = calls s ++ [PauseWriting].
Proof.
  intros Ht Hp. unfold write_connection_lost, on_target, bind, gets. rewrite Ht. cbn.
  rewrite Ht, Hp. cbn. unfold invoke, bind. cbn. by destruct (t_raises t PauseWriting).
Qed.

End Bridge.

(** ** [subprocess_exec] *)

Module Exec.

(** A pipe transport: one the loop's [connect_*_pipe] gave, or one of our own by
    its number. *)
Record world : Type := MkWorld {
  _subprocess_popens : gset nat;       (* registered pids *)
  spawned : bool;                      (* [Popen] started a child *)
  running : bool;                      (* the child has not exited *)
  reaped : bool;                       (* [popen.wait()] collected it *)
  factory_calls : nat;
  sample_holder : option nat;          (* the sample protocol, until it is consumed *)
  wrapped : list nat;                  (* protocols given to the native loop *)
  pre_pipes : gmap nat nat
}.

#[export] Instance world_eta : Eta world := fun w =>
  MkWorld (_subprocess_popens w) (spawned w) (running w) (reaped w) (factory_calls w)
    (sample_holder w) (wrapped w) (pre_pipes w).

Abbreviation M := (PyM world).

Section Flow.

(** The user's factory: its [n]-th call raises, returns [None] or a protocol. *)
Variable factory : nat -> outcome (option nat).
Variable is_stream : nat -> bool.                 (* [hasattr(p, "stdin")] *)
Variable spawn : redirect * redirect * redirect -> outcome nat.    (* [Popen], the pid *)
(** [connect_write_pipe]/[connect_read_pipe] on a child descriptor: as documented
    for [asyncio], the pair (transport, protocol). *)
Variable connect : nat -> outcome (nat * nat).
(** What the native [subprocess_exec] does after it has called the factory. *)
Variable native : outcome unit.
(** Whether the child exits by itself before the code looks. *)
Variable exits_early : bool.

Definition call_factory : M (option nat) :=
  n <- gets factory_calls ;;
  self factory_calls <- S n ;;;
  match factory n with Ret p => ret p | Raise e => raise e end.

Definition take_sample : M sample :=
  try_except
    (p <- call_factory ;;
     self sample_holder <- p ;;;
     ret (match p with
          | None => NoSample
          | Some p => if is_stream p then Stream else Plain
          end))
    (except is_Exception (fun _ => ret NoSample)).

(** [_, t = await self.connect_..._pipe(...); pre_pipes[fd] = t]. *)
Definition connect_one (fd : nat) (r : redirect) : M unit :=
  match r with
  | PIPE =>
      match connect fd with
      | Ret (_, t) => modify (fun w => w <| pre_pipes := <[fd := t]> (pre_pipes w) |>)
      | Raise e => raise e
      end
  | _ => ret tt
  end.

Definition is_NotImplementedError (e : exn) : bool :=
  match e with NotImplementedError => true | _ => false end.

Definition connect_pre_pipes (s : sample) (io : redirect * redirect * redirect) : M unit :=
  match s with
  | Stream =>
      let '(i, o, e) := io in
      try_except
        (connect_one 0 i ;;; connect_one 1 o ;;; connect_one 2 e)
        (orelse (except is_NotImplementedError (fun _ => self pre_pipes <- ∅))
                (except is_BaseException (fun e => self pre_pipes <- ∅ ;;; raise e)))
  | _ => ret tt
  end.

(** [_wrapped_factory]; a factory that returns [None] again has no
    [connection_made]. *)
Definition wrapped_factory : M nat :=
  h <- gets sample_holder ;;
  match h with
  | Some p => self sample_holder <- None ;;; ret p
  | None =>
      p <- call_factory ;;
      match p with Some p => ret p | None => raise AttributeError end
  end.

Definition native_exec : M unit :=
  p <- wrapped_factory ;;
  modify (fun w => w <| wrapped := wrapped w ++ [p] |>) ;;;
  match native with Ret _ => ret tt | Raise e => raise e end.

(** [popen.kill()] then [popen.wait()]. *)
Definition kill_and_wait : M unit :=
  self running <- false ;;; self reaped <- true.

(** [popen.poll() is None]; polling an exited child reaps it. *)
Definition poll_is_None : M bool :=
  r <- gets running ;;
  if exits_early || negb r then self running <- false ;;; self reaped <- true ;;; ret false
  else ret true.

(** The body of the outer [try], with its [except] clause. *)
Definition guarded (s : sample) (io : redirect * redirect * redirect) (pid : nat) : M nat :=
  try_except (connect_pre_pipes s io ;;; native_exec ;;; ret pid)
    (except is_BaseException (fun e =>
       r <- poll_is_None ;; when r kill_and_wait ;;; raise e)).

Definition subprocess_exec (args : stdio) : M nat :=
  s <- take_sample ;;
  let io := choose_stdio s args in
  match spawn io with
  | Raise e => raise e
  | Ret pid =>
      self spawned <- true ;;; self running <- true ;;;
      modify (fun w => w <| _subprocess_popens := {[pid]} ∪ _subprocess_popens w |>) ;;;
      try_finally (guarded s io pid)
        (modify (fun w => w <| _subprocess_popens := _subprocess_popens w ∖ {[pid]} |>))
  end.

(** The registry is only touched by [subprocess_exec] itself, the child only by
    its failure handler. *)
Definition same_child (R : gset nat) (b : bool) (w : world) : Prop :=
  _subprocess_popens w = R /\ running w = b /\ spawned w = b.

Section Registry.
Variable R : gset nat.
Variable b : bool.

Lemma keeps_registry_body s io : keeps (same_child R b) (connect_pre_pipes s io ;;; native_exec).
Proof.
  apply keeps_bind; [|intros _].
  - unfold connect_pre_pipes. destruct s; [|apply keeps_ret..]. destruct io as [[i o] e].
    unfold connect_one. keeps_tac.
  - unfold native_exec, wrapped_factory, call_factory. keeps_tac.
Qed.

Lemma keeps_registry_sample : keeps (same_child R b) take_sample.
Proof. unfold take_sample, call_factory. keeps_tac. Qed.

End Registry.

(** A handled failure leaves no running child. *)
Lemma handler_reaps e w :
  let w' := ((r <- poll_is_None ;; when r kill_and_wait ;;; raise (A:=nat) e) w).2 in
  running w' = false /\ reaped w' = true.
Proof.
  cbn. unfold poll_is_None, kill_and_wait, bind, gets.
  destruct (exits_early || negb (running w)); done.
Qed.

Lemma handler_raises e w :
  ((r <- poll_is_None ;; when r kill_and_wait ;;; raise (A:=nat) e) w).1 = Raise e
  /\ _subprocess_popens ((r <- poll_is_None ;; when r kill_and_wait ;;; raise (A:=nat) e) w).2
     = _subprocess_popens w.
Proof.
  unfold poll_is_None, kill_and_wait, bind, gets.
  destruct (exits_early || negb (running w)); done.
Qed.

Lemma guarded_spec s io pid w : running w = true /\ spawned w = true ->
  match guarded s io pid w with
  | (o, w') =>
      _subprocess_popens w' = _subprocess_popens w /\
      match o with
      | Ret pid' => pid' = pid /\ running w' = true
      | Raise e => e <> Diverges -> running w' = false /\ reaped w' = true
      end
  end.
Proof.
  intros Hr. unfold guarded, try_except, try_else.
  assert (Hk : keeps (fun w' => _subprocess_popens w' = _subprocess_popens w /\ running w' = true /\ spawned w' = true)
                 (connect_pre_pipes s io ;;; native_exec ;;; ret pid)).
  { pose proof (keeps_registry_body (_subprocess_popens w) true s io) as H.
    intros w0 H0. specialize (H w0 H0). revert H. unfold bind.
    destruct (connect_pre_pipes s io w0) as [[x|e] w1]; [|done].
    by destruct (native_exec w1) as [[y|e] w2]. }
  specialize (Hk w (conj eq_refl Hr)). destruct Hr as [Hr _].
  assert (Hpid : forall o, (connect_pre_pipes s io ;;; native_exec ;;; ret pid) w = (Ret o, 
     ((connect_pre_pipes s io ;;; native_exec ;;; ret pid) w).2) -> o = pid).
  { intros o. unfold bind. destruct (connect_pre_pipes s io w) as [[x|e] w1]; [|done].
    destruct (native_exec w1) as [[y|e] w2]; [|done]. by intros [= ->]. }
  destruct ((connect_pre_pipes s io ;;; native_exec ;;; ret pid) w) as [[x|e] w1].
  - cbn. split; [apply Hk|]. split; [by apply Hpid | apply Hk].
  - unfold except. destruct (is_BaseException e) eqn:Ee.
    + pose proof (handler_raises e w1) as [H1 H2]. pose proof (handler_reaps e w1) as H3.
      cbn zeta in H3.
      destruct ((r <- poll_is_None ;; when r kill_and_wait ;;; raise (A:=nat) e) w1) as [o w2].
      cbn [fst snd] in *. subst o. rewrite H2. split; [apply Hk | done].
    + split; [apply Hk|]. by destruct e.
Qed.

(** What a body that comes back did with the factory. *)
Lemma guarded_success s io pid w x w' : guarded s io pid w = (Ret x, w') ->
  match sample_holder w with
  | Some p => factory_calls w' = factory_calls w /\ wrapped w' = wrapped w ++ [p]
  | None => factory_calls w' = S (factory_calls w)
            /\ exists p, factory (factory_calls w) = Ret (Some p) /\ wrapped w' = wrapped w ++ [p]
  end.
Proof.
  unfold guarded, try_except, try_else.
  assert (Hpp : forall A, (forall w1, factory_calls w1 = factory_calls w -> sample_holder w1 = sample_holder w
            -> wrapped w1 = wrapped w -> native_exec w1 = (Ret tt, w') -> A) ->
          (connect_pre_pipes s io ;;; native_exec ;;; ret pid) w = (Ret x, w') -> A).
  { intros A HA. unfold bind at 1.
    assert (Hk : keeps (fun w1 => factory_calls w1 = factory_calls w /\ sample_holder w1 = sample_holder w
                  /\ wrapped w1 = wrapped w) (connect_pre_pipes s io)).
    { unfold connect_pre_pipes. destruct s; [|apply keeps_ret..]. destruct io as [[i o] e].
      unfold connect_one. keeps_tac. }
    specialize (Hk w (conj eq_refl (conj eq_refl eq_refl))).
    destruct (connect_pre_pipes s io w) as [[u|e] w1]; [|discriminate].
    destruct Hk as (K1 & K2 & K3). unfold bind.
    destruct (native_exec w1) as [[[]|e] w2] eqn:En; [|discriminate].
    intros [= <- <-]. by apply (HA w1). }
  destruct ((connect_pre_pipes s io ;;; native_exec ;;; ret pid) w) as [[y|e] w2] eqn:Eb.
  - intros [= -> ->]. eapply Hpp; [|done]. intros w1 K1 K2 K3. rewrite <- K1, <- K2, <- K3.
    unfold native_exec, wrapped_factory, call_factory, bind, gets.
    destruct (sample_holder w1) as [p|]; cbn.
    + destruct native; cbn; [|discriminate]. by intros [= <-].
    + destruct (factory (factory_calls w1)) as [[p|]|e]; cbn; [|discriminate..].
      destruct native; cbn; [|discriminate]. intros [= <-]. cbn. by eauto.
  - unfold except. destruct (is_BaseException e); [|discriminate].
    intros H. pose proof (handler_raises e w2) as [H1 _]. by rewrite H in H1.
Qed.

(** Before a call. *)
Definition fresh (w : world) : Prop :=
  factory_calls w = 0%nat /\ sample_holder w = None /\ wrapped w = [] /\ spawned w = false
  /\ running w = false /\ reaped w = false /\ pre_pipes w = ∅.

(** C37: [subprocess_exec] leaves no trace of a failure: whatever raises (the
    factory, [Popen], the pipes, the native call, the task's cancellation), a
    child that was started has been killed or had exited, and was reaped, and the
    registry of [Popen] objects is as it was; on success the child keeps running
    and its pid is not left in the registry either. *)
Theorem exec_leaves_no_child args w :
  fresh w -> (forall io pid, spawn io = Ret pid -> pid ∉ _subprocess_popens w) ->
  match subprocess_exec args w with
  | (Ret pid, w') => running w' = true /\ _subprocess_popens w' = _subprocess_popens w
  | (Raise e, w') =>
      e <> Diverges ->
      running w' = false /\ (spawned w' = true -> reaped w' = true)
      /\ _subprocess_popens w' = _subprocess_popens w
  end.
Proof.
  intros (_ & _ & _ & Hsp & Hr & _) Hpid. unfold subprocess_exec, bind at 1.
  pose proof (keeps_registry_sample (_subprocess_popens w) false w
                (conj eq_refl (conj Hr Hsp))) as (Hs1 & Hs2 & Hs3).
  destruct (take_sample w) as [[s|e] w1]; cbn [snd] in *;
    [|intros _; by rewrite Hs3].
  cbn zeta. destruct (spawn (choose_stdio s args)) as [pid|e] eqn:Esp; cbn [raise];
    [|intros _; by rewrite Hs3].
  apply Hpid in Esp. unfold bind, modify, try_finally. set (w2 := set_field _ _).
  pose proof (guarded_spec s (choose_stdio s args) pid w2 (conj eq_refl eq_refl)) as Hg.
  destruct (guarded s (choose_stdio s args) pid w2) as [[x|e] w3]; cbn.
  - destruct Hg as (Hg1 & -> & Hg2). split; [done|]. rewrite Hg1. cbn. set_solver.
  - destruct Hg as (Hg1 & Hg2). intros He. destruct (Hg2 He) as [-> Hre].
    split_and!; [done|done|]. rewrite Hg1. cbn. set_solver.
Qed.

(** The protocol the native loop works with is the one the first call of the
    user's factory made, and that call is the only one; only where it raised an
    [Exception] or made nothing is the factory called again, and then the second
    protocol is used. *)
Theorem exec_uses_sample args w pid w' :
  fresh w -> subprocess_exec args w = (Ret pid, w') ->
  match factory 0 with
  | Ret (Some p) => factory_calls w' = 1%nat /\ wrapped w' = [p]
  | _ => factory_calls w' = 2%nat /\ exists p, factory 1 = Ret (Some p) /\ wrapped w' = [p]
  end.
Proof.
  intros (Hc & Hh & Hw & _). unfold subprocess_exec, bind at 1.
  assert (Hs : match take_sample w with
    | (Ret s, w1) => factory_calls w1 = 1%nat /\ wrapped w1 = []
        /\ sample_holder w1 = match factory 0 with Ret p => p | Raise _ => None end
    | (Raise _, _) => True end).
  { unfold take_sample, call_factory, try_except, try_else, bind, gets. rewrite Hc.
    cbn. destruct (factory 0) as [[q|]|e]; cbn; [done|done|].
    unfold except. destruct (is_Exception e); cbn; [|done]. by rewrite Hw, Hh. }
  destruct (take_sample w) as [[s|e] w1]; [|discriminate]. destruct Hs as (H1 & H2 & H3).
  cbn zeta. destruct (spawn (choose_stdio s args)) as [pid'|e]; [|discriminate].
  unfold bind, modify, try_finally. set (w2 := set_field _ _).
  assert (Hg := guarded_success s (choose_stdio s args) pid' w2).
  destruct (guarded s (choose_stdio s args) pid' w2) as [[x|e] w3]; [|discriminate].
  intros [= -> <-]. cbn. specialize (Hg _ _ eq_refl) as Hg'. cbn in Hg'.
  rewrite H1, H2, H3 in Hg'. destruct (factory 0) as [[q|]|e]; done.
Qed.

End Flow.
(** A plain protocol whose native call is cancelled, and one that succeeds. *)
Definition blank : world := MkWorld {[7]} false false false 0 None [] ∅.
Definition demo_factory (n : nat) : outcome (option nat) := Ret (Some 5).
Definition no_pipes (fd : nat) : outcome (nat * nat) := Raise NotImplementedError.
Definition demo_exec (native : outcome unit) : outcome nat * world :=
  subprocess_exec demo_factory (fun _ => true) (fun _ => Ret 42) no_pipes native false
    (Some PIPE, None, None) blank.

Lemma blank_fresh : fresh blank.
Proof. by split_and!. Qed.

Lemma exec_leaves_no_child_witness :
  match demo_exec (Raise CancelledError) with
  | (Raise e, w') => e <> Diverges ->
      running w' = false /\ (spawned w' = true -> reaped w' = true)
      /\ _subprocess_popens w' = {[7]}
  | _ => False
  end.
Proof.
  assert (Hp : forall (io : redirect * redirect * redirect) pid,
            Ret 42 = Ret pid -> pid ∉ _subprocess_popens blank)
    by (intros io pid [= <-]; set_solver).
  pose proof (exec_leaves_no_child demo_factory (fun _ => true) (fun _ => Ret 42) no_pipes
                (Raise CancelledError) false (Some PIPE, None, None) blank blank_fresh Hp) as H.
  exact H.
Defined.

Lemma exec_uses_sample_witness :
  factory_calls (demo_exec (Ret tt)).2 = 1%nat /\ wrapped (demo_exec (Ret tt)).2 = [5%nat].
Proof.
  exact (exec_uses_sample demo_factory (fun _ => true) (fun _ => Ret 42) no_pipes (Ret tt) false
           (Some PIPE, None, None) blank 42 (demo_exec (Ret tt)).2 blank_fresh eq_refl).
Defined.

(** The pair [connect_*_pipe] returns is unpacked the wrong way round: what is
    kept as the pipe transport is the bridge protocol. *)
Lemma pre_pipes_hold_protocols :
  pre_pipes (connect_pre_pipes (fun fd => Ret (10 + fd, 20 + fd))%nat Stream (PIPE, PIPE, PIPE) blank).2
  = {[0%nat := 20%nat; 1%nat := 21%nat; 2%nat := 22%nat]}.
Proof. reflexivity. Qed.

End Exec.

(** ** The wrappers *)

Module Wrapper.

(** Our own pipe transports, by kind and child descriptor, are numbered in the
    order they were made; [Pre] are those the loop gave. *)
Inductive kind : Type := ReadPipeTransport | WritePipeTransport.
Inductive handle : Type := Pre (n : nat) | Own (n : nat).

#[export] Instance kind_eq_dec : EqDecision kind.
Proof. solve_decision. Defined.
#[export] Instance handle_eq_dec : EqDecision handle.
Proof. solve_decision. Defined.

Record wrapper : Type := MkWrapper {
  _pipes : option (gmap nat nat);           (* set by [connection_made] *)
  _pipe_transports : gmap nat nat;          (* the cache: numbers of our own *)
  _proto_pipe_transports : list nat;
  has_outer : bool;                         (* [outer_protocol is not None] *)
  (* around the object *)
  made : list (kind * nat);                 (* our transports, by number *)
  bound : list nat;                         (* those given a protocol *)
  closed : list nat;                        (* those closed *)
  native_closed : nat;                      (* [close()] calls on the native transport *)
  exit_waiters : list nat;
  futures : nat;
  results : gmap nat Z;                     (* futures done with a result *)
  cancelled : gset nat
}.

#[export] Instance wrapper_eta : Eta wrapper := fun w =>
  MkWrapper (_pipes w) (_pipe_transports w) (_proto_pipe_transports w) (has_outer w)
    (made w) (bound w) (closed w) (native_closed w) (exit_waiters w) (futures w)
    (results w) (cancelled w).

Abbreviation M := (PyM wrapper).

Section Popen.

(** Which standard streams are pipes; constructing a reader on one may raise. *)
Variable has_stream : nat -> bool.
Variable make_fails : nat -> option exn.
(** [close()] of one of our transports may raise. *)
Variable close_fails : nat -> option exn.

Definition make (k : kind) (fd : nat) : M nat :=
  match k, make_fails fd with
  | ReadPipeTransport, Some e => raise e
  | _, _ =>
      n <- gets (fun w => length (made w)) ;;
      modify (fun w => w <| made := made w ++ [(k, fd)] |>) ;;;
      ret n
  end.

Definition bind_protocol (n : nat) : M unit :=
  modify (fun w => w <| bound := bound w ++ [n] |>).

Definition pipe_kind (fd : nat) : option kind :=
  match fd with
  | 0 => Some WritePipeTransport
  | 1 | 2 => Some ReadPipeTransport
  | _ => None
  end%nat.

Definition get_pipe_transport (fd : nat) : M (option handle) :=
  ps <- gets _pipes ;;
  match ps ≫= (fun ps => ps !! fd) with
  | Some t => ret (Some (Pre t))
  | None =>
      cached <- gets (fun w => _pipe_transports w !! fd) ;;
      match cached with
      | Some n => ret (Some (Own n))
      | None =>
          match pipe_kind fd with
          | Some k =>
              if has_stream fd then
                n <- make k fd ;;
                o <- gets has_outer ;;
                when o (bind_protocol n) ;;;
                modify (fun w => w <| _pipe_transports := <[fd := n]> (_pipe_transports w) |>) ;;;
                ret (Some (Own n))
              else ret None
          | None => ret None
          end
      end
  end.

Definition close_own (n : nat) : M unit :=
  modify (fun w => w <| closed := closed w ++ [n] |>) ;;;
  match close_fails n with Some e => raise e | None => ret tt end.

Definition close : M unit :=
  trs <- gets _proto_pipe_transports ;;
  for_each trs (fun n => try_except (close_own n) (except is_Exception (fun _ => ret tt))) ;;;
  modify (fun w => w <| native_closed := S (native_closed w) |>).

(** [_wait()] up to its [await], given the native return code. *)
Definition wait (returncode : option Z) : M (Z + nat) :=
  match returncode with
  | Some rc => ret (inl rc)
  | None =>
      f <- gets futures ;;
      self futures <- S f ;;;
      modify (fun w => w <| exit_waiters := exit_waiters w ++ [f] |>) ;;;
      ret (inr f)
  end.

(** [_ProtocolWrapper.connection_made]: the user's handler (the pipes it asks
    for, what it raises); then, for a protocol without a [stdin] stream, a
    transport per pipe.  Every file object of a [Popen] has a [read] attribute,
    so that [hasattr(file_obj, "read")] holds of the write end too. *)
Fixpoint make_proto_pipes (fds : list nat) : M (list nat) :=
  match fds with
  | [] => ret []
  | fd :: fds' =>
      if has_stream fd then
        n <- make ReadPipeTransport fd ;;
        bind_protocol n ;;;
        rest <- make_proto_pipes fds' ;;
        ret (n :: rest)
      else make_proto_pipes fds'
  end.

Definition connection_made (pre : gmap nat nat) (asks : list nat) (raises : option exn)
    (has_stdin_stream : bool) : M unit :=
  self _pipes <- Some pre ;;;
  for_each asks (fun fd => get_pipe_transport fd ;;; ret tt) ;;;
  match raises with Some e => raise e | None => ret tt end ;;;
  if has_stdin_stream then ret tt
  else
    l <- make_proto_pipes [1; 2; 0]%nat ;;
    self _proto_pipe_transports <- l.

(** [_ProtocolWrapper.connection_lost]: the user's handler, then the waiters,
    in a [finally]. *)
Definition settle (rc : Z) (f : nat) : M unit :=
  rs <- gets results ;; cs <- gets cancelled ;;
  when (negb (bool_decide (is_Some (rs !! f)) || bool_decide (f ∈ cs)))
    (modify (fun w => w <| results := <[f := rc]> (results w) |>)).

Definition connection_lost (user : outcome unit) (get_returncode : outcome (option Z)) : M unit :=
  try_finally
    (match user with Ret _ => ret tt | Raise e => raise e end)
    (ws <- gets exit_waiters ;;
     let rc := match get_returncode with Ret (Some z) => z | _ => (-1)%Z end in
     for_each ws (settle rc)).

(** *** Pipe transports are made once *)

Definition cache_ok (w : wrapper) : Prop :=
  forall fd n, _pipe_transports w !! fd = Some n ->
    exists k, pipe_kind fd = Some k /\ made w !! n = Some (k, fd).

(** [get_pipe_transport] gives the loop's own transport for a pre-made pipe,
    else a transport of the right kind on the right stream, else [None] (no such
    stream); asking again gives the same object and makes nothing new. *)
Theorem get_pipe_transport_stable fd w r w' :
  cache_ok w -> get_pipe_transport fd w = (Ret r, w') ->
  get_pipe_transport fd w' = (Ret r, w') /\ cache_ok w' /\
  match r with
  | Some (Pre t) => exists ps, _pipes w = Some ps /\ ps !! fd = Some t
  | Some (Own n) => exists k, pipe_kind fd = Some k /\ made w' !! n = Some (k, fd)
  | None => pipe_kind fd = None \/ has_stream fd = false
  end.
Proof.
  intros Hok. unfold get_pipe_transport, bind at 1, gets.
  destruct (_pipes w ≫= (fun ps => ps !! fd)) as [t|] eqn:Ep.
  { intros [= <- <-]. unfold bind, gets. rewrite Ep. split; [done|]. split; [done|].
    destruct (_pipes w) as [ps|]; [by exists ps | done]. }
  unfold bind at 1. destruct (_pipe_transports w !! fd) as [n|] eqn:Ec.
  { intros [= <- <-]. unfold bind, gets. rewrite Ep, Ec. auto. }
  destruct (pipe_kind fd) as [k|] eqn:Ek.
  2:{ intros [= <- <-]. unfold bind, gets. rewrite Ep, Ec. auto. }
  destruct (has_stream fd) eqn:Eh.
  2:{ intros [= <- <-]. unfold bind, gets. rewrite Ep, Ec. auto. }
  unfold bind at 1. destruct (make k fd w) as [[n|e] w1] eqn:Em; [|discriminate].
  assert (Hm : n = length (made w) /\ w1 = w <| made := made w ++ [(k, fd)] |>).
  { revert Em. unfold make, bind, gets, modify.
    destruct k, (make_fails fd); [discriminate|..]; by intros [= <- <-]. }
  destruct Hm as [-> ->].
  intros H. assert (Hw : r = Some (Own (length (made w)))
    /\ _pipes w' = _pipes w /\ made w' = made w ++ [(k, fd)]
    /\ _pipe_transports w' = <[fd := length (made w)]> (_pipe_transports w)).
  { revert H. unfold bind, gets, modify. cbn.
    destruct (has_outer w); cbn; by intros [= <- <-]. }
  destruct Hw as (-> & H1 & H2 & H3). clear H Em. split; [|split].
  - unfold bind, gets. by rewrite H1, Ep, H3, lookup_insert_eq.
  - intros fd' n. rewrite H3, H2. destruct (decide (fd' = fd)) as [->|Hne].
    + rewrite lookup_insert_eq. intros [= <-]. exists k. by rewrite list_lookup_middle.
    + rewrite lookup_insert_ne by done. intros Hn. destruct (Hok _ _ Hn) as (k' & Hk & Hl).
      exists k'. split; [done|]. by apply lookup_app_l_Some.
  - exists k. by rewrite H2, list_lookup_middle.
Qed.

(** *** Exit waiters *)

Lemma settle_spec rc ws w :
  match for_each ws (settle rc) w with
  | (o, w') =>
      o = Ret tt /\ cancelled w' = cancelled w /\
      (forall f z, results w !! f = Some z -> results w' !! f = Some z) /\
      (forall f, f ∈ ws -> f ∉ cancelled w -> results w !! f = None -> results w' !! f = Some rc) /\
      (forall f, f ∈ cancelled w -> results w' !! f = results w !! f)
  end.
Proof.
  revert w. induction ws as [|f0 ws IH]; intros w; cbn [for_each].
  { cbn. split_and!; try done. intros f H; by apply elem_of_nil in H. }
  assert (Hs : exists w1, settle rc f0 w = (Ret tt, w1) /\ cancelled w1 = cancelled w /\
    (results w1 = results w /\ (is_Some (results w !! f0) \/ f0 ∈ cancelled w)
     \/ results w1 = <[f0 := rc]> (results w) /\ results w !! f0 = None /\ f0 ∉ cancelled w)).
  { unfold settle, bind, gets. case_bool_decide as H1; [by eauto 10|].
    case_bool_decide as H2; [by eauto 10|]. eexists. split; [reflexivity|]. split; [done|].
    right. split; [done|]. split; [by apply eq_None_not_Some | done]. }
  destruct Hs as (w1 & E & Hc & Hr). unfold bind. rewrite E. specialize (IH w1).
  destruct (for_each ws (settle rc) w1) as [o w']. destruct IH as (-> & I1 & I2 & I3 & I4).
  rewrite I1, Hc in *. split_and!; try done.
  - intros f z Hf. apply I2. destruct Hr as [[-> _]|(-> & H0 & _)]; [done|].
    rewrite lookup_insert_ne; [done|]. intros ->. by rewrite Hf in H0.
  - intros f Hin Hnc Hf. destruct (decide (f = f0)) as [->|Hne].
    + apply I2. destruct Hr as [[_ [[? H0]|H0]]|[-> _]]; [by rewrite Hf in H0|done|].
      apply lookup_insert_eq.
    + apply I3; [by apply elem_of_cons in Hin as [?|?]|done|].
      destruct Hr as [[-> _]|[-> _]]; [done|]. by rewrite lookup_insert_ne.
  - intros f Hca. rewrite I4 by done.
    destruct Hr as [[-> _]|(-> & _ & H0)]; [done|].
    rewrite lookup_insert_ne; [done|]. by intros ->.
Qed.

(** When the child is gone, every task in [process.wait()] is woken with the
    return code, or with -1 when the native transport cannot tell it, even if the
    protocol's own [connection_lost] raises (its exception still comes
    through); waiters that were already done or cancelled are left alone. *)
Theorem exit_wakes_waiters user get_returncode w :
  let rc := match get_returncode with Ret (Some z) => z | _ => (-1)%Z end in
  match connection_lost user get_returncode w with
  | (o, w') =>
      o = user /\
      (forall f, f ∈ exit_waiters w -> f ∉ cancelled w ->
         results w' !! f = Some (default rc (results w !! f))) /\
      (forall f, f ∈ cancelled w -> results w' !! f = results w !! f)
  end.
Proof.
  cbn zeta. unfold connection_lost, try_finally.
  set (rc := match get_returncode with Ret (Some z) => z | _ => (-1)%Z end).
  assert (Hu : (match user with Ret _ => ret tt | Raise e => raise e end) w = (user, w))
    by (by destruct user as [[]|]).
  rewrite Hu. unfold bind, gets. pose proof (settle_spec rc (exit_waiters w) w) as Hs.
  destruct (for_each _ _ w) as [o w']. destruct Hs as (-> & _ & H1 & H2 & H3).
  split; [done|]. split; [|done].
  intros f Hin Hnc. destruct (results w !! f) as [z|] eqn:E; [by apply H1 | by apply H2].
Qed.

(** *** Closing *)

Lemma close_each_spec ns w : (forall n e, close_fails n = Some e -> is_Exception e = true) ->
  for_each ns (fun n => try_except (close_own n) (except is_Exception (fun _ => ret tt))) w
  = (Ret tt, w <| closed := closed w ++ ns |>).
Proof.
  intros Hf. revert w. induction ns as [|n ns IH]; intros w; cbn [for_each].
  { unfold ret. rewrite app_nil_r. by destruct w. }
  unfold bind at 1, close_own, try_except, try_else, bind, modify, ret.
  destruct (close_fails n) as [e|] eqn:E; cbn.
  - unfold except. rewrite (Hf n e E), IH. cbn. by rewrite <- app_assoc.
  - rewrite IH. cbn. by rewrite <- app_assoc.
Qed.

(** Each transport of a plain protocol is closed, and then the native one,
    whatever the former raise. *)
Lemma close_spec w : (forall n e, close_fails n = Some e -> is_Exception e = true) ->
  close w = (Ret tt, w <| closed := closed w ++ _proto_pipe_transports w |>
                       <| native_closed := S (native_closed w) |>).
Proof. intros Hf. unfold close, bind, gets. by rewrite close_each_spec. Qed.

End Popen.
(** A fresh wrapper, all three streams pipes. *)
Definition blank : wrapper :=
  MkWrapper None ∅ [] true [] [] [] 0 [] 0 ∅ ∅.
Definition all_pipes (fd : nat) : bool := (fd <? 3)%nat.
Definition no_fault (n : nat) : option exn := None.

Lemma get_pipe_transport_stable_witness :
  let w1 := (get_pipe_transport all_pipes no_fault 1 blank).2 in
  get_pipe_transport all_pipes no_fault 1 w1 = (Ret (Some (Own 0)), w1).
Proof.
  cbn zeta.
  apply (get_pipe_transport_stable all_pipes no_fault 1 blank).
  - intros fd n H. cbn in H. by rewrite lookup_empty in H.
  - reflexivity.
Defined.

(** A plain protocol with all three pipes whose [connection_made] asks for stdin:
    stdin ends up with a write transport of its own and with a reader on the
    write end, which [close()] closes instead. *)
Definition plain_wired : wrapper :=
  (connection_made all_pipes no_fault ∅ [0%nat] None false blank).2.

Lemma stdin_gets_reader :
  made plain_wired = [(WritePipeTransport, 0); (ReadPipeTransport, 1);
                      (ReadPipeTransport, 2); (ReadPipeTransport, 0)]%nat
  /\ _pipe_transports plain_wired !! 0%nat = Some 0%nat
  /\ closed (close no_fault plain_wired).2 = [1; 2; 3]%nat.
Proof. by split_and!. Qed.

End Wrapper.

(** ** The wrapper's forwarding methods *)

Module Forward.

(** What the wrapper asks of the native transport. *)
Inductive request : Type :=
| GetPid | GetReturncode | Kill | Terminate | SendSignal (sig : Z)
| IsClosing | GetExtraInfo (name : string) (default : nat) | Attribute (name : string).

(** The variable [popen] of [subprocess_exec], which the property [_popen] of
    the wrapper reads and writes, and what was asked. *)
Record st : Type := MkSt { popen : nat; asked : list request }.

Abbreviation M := (PyM st).

Section Native.
(** Values are object numbers; [has_getter] says whether the native transport
    has a [get_extra_info]. *)
Variable native : request -> outcome nat.
Variable has_getter : bool.

Definition ask (q : request) : M nat :=
  modify (fun s => MkSt (popen s) (asked s ++ [q])) ;;;
  match native q with Ret v => ret v | Raise e => raise e end.

Definition getattr (name : string) : M nat := ask (Attribute name).
Definition get_extra_info (name : string) (default : nat) : M nat :=
  if String.eqb name "subprocess" then gets popen
  else if has_getter then ask (GetExtraInfo name default)
  else ret default.
Definition is_closing : M nat := ask IsClosing.
Definition get_pid : M nat := ask GetPid.
Definition get_returncode : M nat := ask GetReturncode.
Definition kill : M unit := ask Kill ;;; ret tt.
Definition terminate : M unit := ask Terminate ;;; ret tt.
Definition send_signal (sig : Z) : M unit := ask (SendSignal sig) ;;; ret tt.
Definition _popen : M nat := gets popen.
Definition set__popen (val : nat) : M unit := modify (fun s => MkSt val (asked s)).

(** A signal reaches the native transport exactly once, and its refusal (the
    process is gone) reaches the caller. *)
Lemma send_signal_once sig s :
  send_signal sig s
  = (match native (SendSignal sig) with Ret _ => Ret tt | Raise e => Raise e end,
     MkSt (popen s) (asked s ++ [SendSignal sig])).
Proof. unfold send_signal, ask, bind, modify. by destruct (native (SendSignal sig)). Qed.

(** The [subprocess] of the extra information is the object last put in
    [_popen], and asks the native transport nothing. *)
Lemma subprocess_is_popen v d s :
  (set__popen v ;;; get_extra_info "subprocess" d) s = (Ret v, MkSt v (asked s)).
Proof. reflexivity. Qed.
End Native.
End Forward.
