(* ===== verification/Runner.v ===== *)
(** * [Runner], [install] and the small classes (talyn/runner.py,
    talyn/__init__.py, talyn/loop.py 2279-2334) *)

From stdpp Require Import base list strings pretty.
From Stdlib Require Import Ascii.
From S2P Require Import Prelude.

(** ** [Runner] *)

Module Runner.

(** What [run()] and [close()] ask of the loop and of [asyncio]. *)
Inductive op : Type :=
| CreateTask                      (* loop.create_task(coro, context=context) *)
| RunMain                         (* run_until_complete(task) *)
| AllTasks                        (* asyncio.all_tasks(loop) *)
| Cancel (task : nat)             (* task.cancel() *)
| RunGather                       (* run_until_complete(wait_cancelled()) *)
| RunAsyncgens                    (* run_until_complete(shutdown_asyncgens()) *)
| RunExecutor                     (* run_until_complete(shutdown_default_executor()) *)
| CloseLoop.

Record runner : Type := MkRunner {
  _closed : bool;
  loop_closed : bool;
  trace : list op;
  logged : nat
}.
#[export] Instance runner_eta : Eta runner := fun r =>
  MkRunner (_closed r) (loop_closed r) (trace r) (logged r).

Abbreviation M := (PyM runner).

Definition init : runner := MkRunner false false [] 0.

Section Env.

(** The tasks of the loop, and what each call raises. *)
Variable tasks : list nat.
Variable fails : op -> option exn.

Definition call (o : op) : M unit :=
  modify (fun r => r <| trace := trace r ++ [o] |>) ;;;
  match fails o with Some e => raise e | None => ret tt end.

Definition close_loop : M unit :=
  call CloseLoop ;;; self loop_closed <- true.

Definition teardown : M unit :=
  call AllTasks ;;;
  match tasks with
  | [] => ret tt
  | _ => for_each tasks (fun t => call (Cancel t)) ;;; call RunGather
  end ;;;
  call RunAsyncgens ;;;
  call RunExecutor.

Definition close : M unit :=
  c <- gets _closed ;;
  if c then ret tt else
  self _closed <- true ;;;
  lc <- gets loop_closed ;;
  if lc then ret tt else
  try_finally
    (try_except teardown
       (except is_BaseException (fun _ => modify (fun r => r <| logged := S (logged r) |>))))
    close_loop.

(** [__exit__] ignores the exception it is given and lets it pass. *)
Definition exit : M unit := close.

(** [__enter__] gives the runner itself. *)
Definition enter : M unit := ret tt.

(** [run(coro)], [result] being what the task ends with. *)
Definition run {A} (result : A) : M A :=
  call CreateTask ;;;
  call RunMain ;;;
  ret result.

(** [with Runner() as runner: runner.run(coro)] on a new runner. *)
Definition with_runner {A} (result : A) : outcome A * runner :=
  (enter ;;; try_finally (run result) exit) init.

(** The teardown steps in order, and the part of them that runs: up to the first
    that raises. *)
Definition plan : list op :=
  AllTasks :: map Cancel tasks ++ (match tasks with [] => [] | _ => [RunGather] end)
    ++ [RunAsyncgens; RunExecutor].

Fixpoint until_failure (l : list op) : list op :=
  match l with
  | [] => []
  | o :: l' => o :: match fails o with Some _ => [] | None => until_failure l' end
  end.

Fixpoint first_failure (l : list op) : option exn :=
  match l with
  | [] => None
  | o :: l' => match fails o with Some e => Some e | None => first_failure l' end
  end.

Lemma calls_spec l r :
  for_each l call r
  = (match first_failure l with Some e => Raise e | None => Ret tt end,
     r <| trace := trace r ++ until_failure l |>).
Proof.
  revert r. induction l as [|o l IH]; intros r; cbn.
  - rewrite app_nil_r. by destruct r.
  - unfold bind at 1, call, bind, modify. destruct (fails o); cbn; [done|].
    rewrite IH. cbn. by rewrite <- app_assoc.
Qed.

Lemma for_each_app {A} (l1 l2 : list A) (f : A -> M unit) r :
  for_each (l1 ++ l2) f r = (for_each l1 f ;;; for_each l2 f) r.
Proof.
  revert r. induction l1 as [|x l1 IH]; intros r; cbn; [done|].
  unfold bind. destruct (f x r) as [[u|e] r']; [|done]. by rewrite IH.
Qed.

Lemma teardown_plan r : teardown r = for_each plan call r.
Proof.
  unfold teardown, plan. cbn [for_each]. unfold bind at 1.
  assert (Hb : forall (m : M unit) (k : M unit) r, (m ;;; k) r
    = match m r with (Ret _, r') => k r' | (Raise e, r') => (Raise e, r') end) by done.
  rewrite !Hb. destruct (call AllTasks r) as [[u|e] r1]; [|done].
  rewrite for_each_app.
  assert (Hm : forall r, for_each tasks (fun t => call (Cancel t)) r = for_each (map Cancel tasks) call r).
  { clear. induction tasks as [|t l IH]; intros r; cbn; [done|].
    unfold bind. destruct (call (Cancel t) r) as [[u|e] r']; [apply IH | done]. }
  destruct tasks as [|t l].
  - cbn [map app for_each]. unfold bind, ret. destruct (call RunAsyncgens r1) as [[u'|e] r2]; [|done].
    by destruct (call RunExecutor r2) as [[[]|e] r3].
  - unfold bind. rewrite Hm. cbn [app for_each].
    destruct (for_each (map Cancel (t :: l)) call r1) as [[u'|e] r2]; [|done].
    cbn [app for_each]. unfold bind. destruct (call RunGather r2) as [[u2|e] r3]; [|done].
    destruct (call RunAsyncgens r3) as [[u3|e] r4]; [|done].
    by destruct (call RunExecutor r4) as [[[]|e] r5].
Qed.

End Env.

(** [close()] on an open runner. *)
Lemma close_open_spec tasks fails r :
  _closed r = false -> loop_closed r = false -> (forall o, fails o <> Some Diverges) ->
  close tasks fails r
  = (match fails CloseLoop with Some e => Raise e | None => Ret tt end,
     MkRunner true (match fails CloseLoop with Some _ => false | None => true end)
       (trace r ++ until_failure fails (plan tasks) ++ [CloseLoop])
       (match first_failure fails (plan tasks) with Some _ => S (logged r) | None => logged r end)).
Proof.
  destruct r as [c lc tr lg]. cbn [_closed loop_closed trace logged]. intros -> -> Hd. unfold close, bind, gets, modify. cbn [_closed loop_closed set_field].
  unfold try_finally, try_except, try_else. rewrite teardown_plan, calls_spec.
  destruct (first_failure fails (plan tasks)) as [e|] eqn:Ef.
  - unfold except.
    assert (He : is_BaseException e = true).
    { assert (Hne : e <> Diverges); [|by destruct e].
      intros ->. revert Ef. generalize (plan tasks). intros l.
      induction l as [|o l IH]; cbn; [done|]. destruct (fails o) eqn:Eo; [|done].
      intros [= ->]. by apply (Hd o). }
    rewrite He. generalize (until_failure fails (plan tasks)) as l. intros l.
    unfold close_loop, call, bind, modify. cbn.
    destruct (fails CloseLoop); cbn; by rewrite <- app_assoc.
  - generalize (until_failure fails (plan tasks)) as l. intros l.
    unfold close_loop, call, bind, modify. cbn.
    destruct (fails CloseLoop); cbn; by rewrite <- app_assoc.
Qed.

(** [Runner.close()] tears the loop down in order (the tasks are cancelled
    and awaited, then the async generators, then the executor) as far as the
    first step that raises, swallows whatever that was, and closes the loop
    exactly once, as its last act; closing again does nothing. *)
Lemma close_twice tasks fails r :
  _closed r = false -> loop_closed r = false -> (forall o, fails o <> Some Diverges) ->
  let r' := (close tasks fails r).2 in close tasks fails r' = (Ret tt, r').
Proof. intros Hc Hl Hd. cbn zeta. rewrite (close_open_spec tasks fails r) by done. reflexivity. Qed.

Lemma run_state {A} fails (result : A) :
  let l := match fails CreateTask with Some _ => [CreateTask] | None => [CreateTask; RunMain] end in
  run fails result init
  = (match fails CreateTask with
     | Some e => Raise e
     | None => match fails RunMain with Some e => Raise e | None => Ret result end
     end, init <| trace := l |>).
Proof. unfold run, call, bind, modify, ret. by destruct (fails CreateTask), (fails RunMain). Qed.

(** A [with Runner()] block always leaves its loop closed: whether the main
    task returns, raises or never starts, the remaining tasks, the generators
    and the executor are then torn down in order as far as the first step that
    raises, the loop is closed last, and the block ends with the result or the
    exception of [run()], which only a failure of [loop.close()] replaces. *)
Theorem with_runner_closes {A} tasks fails (result : A) :
  (forall o, fails o <> Some Diverges) ->
  match with_runner tasks fails result with
  | (o, r) =>
      o = match fails CloseLoop with
          | Some e => Raise e
          | None => (run fails result init).1
          end
      /\ trace r = (match fails CreateTask with
                    | Some _ => [CreateTask]
                    | None => [CreateTask; RunMain]
                    end) ++ until_failure fails (plan tasks) ++ [CloseLoop]
      /\ _closed r = true
      /\ loop_closed r = match fails CloseLoop with Some _ => false | None => true end
  end.
Proof.
  intros Hd. unfold with_runner, enter, ret. unfold bind at 1. unfold try_finally at 1.
  rewrite run_state. cbn [fst]. set (l := match fails CreateTask with Some _ => _ | None => _ end).
  pose proof (close_open_spec tasks fails (init <| trace := l |>) eq_refl eq_refl Hd) as H.
  unfold exit. rewrite H. by destruct (fails CloseLoop).
Qed.

(** The main task fails, and so does waiting for the cancelled ones. *)
Definition main_fails (o : op) : option exn :=
  match o with
  | RunMain => Some (RuntimeError "main")
  | RunGather => Some (OtherBaseException 2)
  | _ => None
  end.

Lemma with_runner_closes_witness :
  (with_runner [1] main_fails 0).1 = Raise (RuntimeError "main")
  /\ trace (with_runner [1] main_fails 0).2
     = [CreateTask; RunMain; AllTasks; Cancel 1; RunGather; CloseLoop]
  /\ loop_closed (with_runner [1] main_fails 0).2 = true.
Proof.
  assert (Hd : forall o, main_fails o <> Some Diverges) by (by intros []).
  pose proof (with_runner_closes [1] main_fails 0 Hd) as H.
  destruct (with_runner [1] main_fails 0) as [o r].
  cbn [fst snd]. destruct H as (-> & -> & _ & ->). vm_compute. auto.
Defined.

End Runner.

(** ** [install]: the kernel guard *)

Module Install.

Definition digit (c : Ascii.ascii) : option Z :=
  let n := Z.of_nat (Ascii.nat_of_ascii c) in
  if (48 <=? n)%Z && (n <=? 57)%Z then Some (n - 48)%Z else None.

(** [(\d+)]: the longest run of digits, its value ([int(...)]) and the rest. *)
Fixpoint digits (acc : Z) (s : string) : Z * string :=
  match s with
  | EmptyString => (acc, s)
  | String c s' => match digit c with
                   | Some d => digits (10 * acc + d)%Z s'
                   | None => (acc, s)
                   end
  end.

Definition number (s : string) : option (Z * string) :=
  match s with
  | EmptyString => None
  | String c s' => match digit c with Some d => Some (digits d s') | None => None end
  end.

(** [re.match(r"^(\d+)\.(\d+)", release)]. *)
Definition match_release (release : string) : option (Z * Z) :=
  match number release with
  | Some (major, String "."%char rest) =>
      match number rest with
      | Some (minor, _) => Some (major, minor)
      | None => None
      end
  | _ => None
  end.

(** [release] is [None] where [os.uname()] is missing (an [AttributeError], which
    is ignored); [true] is a policy that was installed. *)
Definition install (posix : bool) (release : option string) : outcome bool :=
  if posix then
    match release ≫= match_release with
    | Some (major, _) =>
        if (major <? 6)%Z
        then Raise (RuntimeError "Talyn requires Linux kernel 6.0 or newer (found older version).")
        else Ret true
    | None => Ret true
    end
  else Ret true.

(** A digit 0..9 as a character. *)
Definition to_char (d : nat) : Ascii.ascii := Ascii.ascii_of_nat (48 + d).
Fixpoint numeral (ds : list nat) : string :=
  match ds with [] => EmptyString | d :: ds' => String (to_char d) (numeral ds') end.
Definition value (ds : list nat) : Z := fold_left (fun a d => 10 * a + Z.of_nat d)%Z ds 0%Z.

Lemma digit_char d : (d < 10)%nat -> digit (to_char d) = Some (Z.of_nat d).
Proof. intros H. do 10 (destruct d as [|d]; [reflexivity|]). lia. Qed.

Definition stops (s : string) : Prop :=
  match s with EmptyString => True | String c _ => digit c = None end.

Lemma digits_numeral ds acc s : Forall (fun d => d < 10)%nat ds -> stops s ->
  digits acc (numeral ds ++ s)
  = (fold_left (fun a d => 10 * a + Z.of_nat d)%Z ds acc, s).
Proof.
  intros Hd Hs. revert acc. induction Hd as [|d ds H _ IH]; intros acc.
  - change (numeral [] +:+ s) with s. destruct s as [|c s]; [done|].
    cbn [stops digits] in *. by rewrite Hs.
  - change (numeral (d :: ds) +:+ s) with (String (to_char d) (numeral ds +:+ s)).
    cbn [digits]. by rewrite digit_char, IH.
Qed.

Lemma number_numeral ds s : ds <> [] -> Forall (fun d => d < 10)%nat ds -> stops s ->
  number (numeral ds ++ s) = Some (value ds, s).
Proof.
  intros Hn Hd Hs. destruct ds as [|d ds]; [done|]. inversion Hd; subst.
  change (numeral (d :: ds) +:+ s) with (String (to_char d) (numeral ds +:+ s)).
  cbn [number].
  rewrite digit_char, digits_numeral by done. do 2 f_equal.
Qed.

(** The guard reads the kernel's major number right whatever its length and
    whatever follows the minor number, and lets exactly the kernels from 6.0 on
    pass (a release it cannot read is left to the native check). *)
Theorem install_guard ms ns rest :
  ms <> [] -> Forall (fun d => d < 10)%nat ms ->
  ns <> [] -> Forall (fun d => d < 10)%nat ns -> stops rest ->
  install true (Some (numeral ms ++ "." ++ numeral ns ++ rest)%string)
  = if (value ms <? 6)%Z
    then Raise (RuntimeError "Talyn requires Linux kernel 6.0 or newer (found older version).")
    else Ret true.
Proof.
  intros Hm Hmd Hn Hnd Hr. unfold install. cbn [mbind option_bind]. unfold match_release.
  change ("." +:+ numeral ns +:+ rest) with (String "." (numeral ns +:+ rest)).
  rewrite number_numeral by done. by rewrite number_numeral.
Qed.

Lemma install_guard_witness :
  install true (Some "5.15.0-generic"%string)
  = Raise (RuntimeError "Talyn requires Linux kernel 6.0 or newer (found older version).").
Proof.
  apply (install_guard [5]%nat [1; 5]%nat ".0-generic"%string);
    try discriminate; try (repeat constructor; lia).
Defined.

(** A 6.x kernel passes the guard, though the README asks for 7.0. *)
Lemma install_accepts_6 : install true (Some "6.12.3-arch1"%string) = Ret true.
Proof. reflexivity. Qed.

End Install.

(** ** [PseudoSocket] *)

Module PseudoSocket.

Record pseudo : Type := MkPseudo { _fd : nat; _family : Z; _type : Z; _proto : Z }.

Definition init (fd : nat) (family type proto : Z) : pseudo := MkPseudo fd family type proto.

Definition fileno (p : pseudo) : nat := _fd p.
Definition family (p : pseudo) : Z := _family p.
Definition type (p : pseudo) : Z := _type p.
Definition proto (p : pseudo) : Z := _proto p.

Definition repr (p : pseudo) : string :=
  ("<PseudoSocket fd=" ++ pretty (fileno p) ++ ", family=" ++ pretty (family p)
    ++ ", type=" ++ pretty (type p) ++ ">")%string.

(** The process: how many descriptors are open on the socket. *)
Definition M := PyM nat.

(** [socket.fromfd] duplicates the descriptor, or fails. *)
Definition fromfd (p : pseudo) (ok : outcome unit) : M unit :=
  match ok with Ret _ => modify S | Raise e => raise e end.
Definition close_tmp : M unit := modify Nat.pred.

(** [getsockname] and [getpeername], [answer] being the socket's. *)
Definition getsockname (p : pseudo) (dup : outcome unit) (answer : outcome string) : M string :=
  fromfd p dup ;;;
  try_finally (match answer with Ret a => ret a | Raise e => raise e end) close_tmp.
Definition getpeername (p : pseudo) (dup : outcome unit) (answer : outcome string) : M string :=
  fromfd p dup ;;;
  try_finally (match answer with Ret a => ret a | Raise e => raise e end) close_tmp.

(** [setblocking] and [close] do nothing: the transport owns the descriptor. *)
Definition setblocking (p : pseudo) (blocking : bool) : M unit := ret tt.
Definition close (p : pseudo) : M unit := ret tt.

(** Asking a [PseudoSocket] for its addresses leaks no descriptor, on success
    and on failure, and gives the socket's own answer; closing it leaves the
    transport's descriptor open. *)
Theorem pseudo_socket_no_leak p dup answer n :
  getsockname p dup answer n
  = (match dup with Ret _ => answer | Raise e => Raise e end, n)
  /\ getpeername p dup answer n = getsockname p dup answer n
  /\ close p n = (Ret tt, n).
Proof.
  unfold getpeername, getsockname, fromfd, close_tmp, try_finally, bind.
  by destruct dup, answer.
Qed.

End PseudoSocket.
