(* ===== verification/IpAddress.v ===== *)
(** * Socket addresses

    The numeric address parsers of src/src/utils/address.zig ([parseIp4],
    [parseIp6], [parseIp]) and the reverse-lookup names
    src/src/loop/dns/parsers.zig builds from an address, with the byte-slice
    vocabulary the DNS files share.

    A slice of [u8] is a list of bytes; the index [i] of a scanning loop is the
    suffix of the slice it still has to read.  A [u16] accumulator is a [nat]
    whose wrap-around is written out where the code can reach it. *)

From S2P Require Import Prelude.
From Stdlib Require Import Strings.Byte NArith Lia.
From stdpp Require Import base numbers list.

Open Scope nat_scope.

#[export] Instance byte_eq_dec : EqDecision Byte.byte := Byte.byte_eq_dec.

(** ** Slices *)

(** The value of a byte as a length. *)
Notation b2n := Byte.to_nat.

Definition u8_of_nat (n : nat) : Byte.byte :=
  match Byte.of_nat n with Some b => b | None => x00 end.

(** [@as(u8, @intCast(n))]. *)
Definition intCast_u8 (n : nat) : option Byte.byte := Byte.of_nat n.

(** [data[a .. b]]. *)
Definition slice (data : bytes) (a b : nat) : bytes := take (b - a) (drop a data).

(** [@memcpy(buf[off .. off + bs.len], bs)]. *)
Definition write_at (buf : bytes) (off : nat) (bs : bytes) : option bytes :=
  if off + length bs <=? length buf
  then Some (take off buf ++ bs ++ drop (off + length bs) buf)
  else None.

Definition be16 (n : N) : bytes :=
  [u8_of_nat (N.to_nat (N.shiftr n 8 mod 256));
   u8_of_nat (N.to_nat (n mod 256))].

(** [std.mem.readInt(uW, bs, .big)]. *)
Definition readInt_big (bs : bytes) : N :=
  fold_left (fun acc b => N.lor (N.shiftl acc 8) (Byte.to_N b)) bs 0%N.

(** The pieces of [s] between the bytes [sep] accepts: one piece more than
    there are separators. *)
Fixpoint split_on (sep : Byte.byte -> bool) (s : bytes) : list bytes :=
  match s with
  | [] => [[]]
  | c :: s' =>
      if sep c then [] :: split_on sep s'
      else match split_on sep s' with
           | [] => [[c]]
           | l :: ls => (c :: l) :: ls
           end
  end.

(** [std.mem.splitScalar], and [std.mem.tokenizeScalar] and [tokenizeAny],
    which skip the empty pieces. *)
Definition splitScalar (sep : Byte.byte) (s : bytes) : list bytes :=
  split_on (fun c => Byte.eqb c sep) s.

Definition tokenizeScalar (sep : Byte.byte) (s : bytes) : list bytes :=
  filter (fun l => l <> []) (splitScalar sep s).

Definition tokenizeAny (seps s : bytes) : list bytes :=
  filter (fun l => l <> []) (split_on (fun c => existsb (Byte.eqb c) seps) s).

Definition dot : Byte.byte := x2e.
Definition hyphen : Byte.byte := x2d.

Definition in_range (lo c hi : Byte.byte) : bool :=
  (Byte.to_N lo <=? Byte.to_N c)%N && (Byte.to_N c <=? Byte.to_N hi)%N.

(** ** Addresses *)

Inductive Address : Type :=
| NoAddress
| Ip4 (ip : bytes) (port : N)
| Ip6 (ip : bytes) (port : N).

#[export] Instance Address_eq_dec : EqDecision Address.
Proof. solve_decision. Defined.

Inductive zig_error : Type :=
| OutOfMemory
| NoSpaceLeft
| InvalidHostname
| InvalidConfiguration
| UnsupportedAddressFamily
| InvalidIPAddressFormat
| InvalidCharacter
| IncompleteAddress
| Unreached.

#[export] Instance zig_error_eq_dec : EqDecision zig_error.
Proof. solve_decision. Defined.

(** Zig's error unions. [Unreached] is the outcome of a loop model whose fuel
    ran out; the totality theorems show that no parser returns it. *)
Inductive zig (A : Type) : Type :=
| Ok (a : A)
| Err (e : zig_error).
Arguments Ok {A} a.
Arguments Err {A} e.

Definition zig_bind {A B} (m : zig A) (k : A -> zig B) : zig B :=
  match m with Ok a => k a | Err e => Err e end.

Notation "'let!' x := m 'in' k" := (zig_bind m (fun x => k))
  (at level 200, x pattern, m at level 100, k at level 200).

(** ** IPv4 *)

Definition digit_val (c : Byte.byte) : option nat :=
  if in_range x30 c x39 then Some (b2n c - b2n x30) else None.

(** The inner [while (i < host.len and host[i] != '.')]: the value and the
    rest of the text, which is empty or starts with the dot. *)
Fixpoint parse_octet (host : bytes) (val : nat) : zig (nat * bytes) :=
  match host with
  | [] => Ok (val, [])
  | c :: host' =>
      if Byte.eqb c dot then Ok (val, host)
      else match digit_val c with
           | None => Err InvalidIPAddressFormat
           | Some digit =>
               let val := val * 10 + digit in
               if 255 <? val then Err InvalidIPAddressFormat
               else parse_octet host' val
           end
  end.

(** [host[i] == '0' and i + 1 < host.len and host[i + 1] != '.']. *)
Definition leading_zero (host : bytes) : bool :=
  match host with
  | c :: c' :: _ => Byte.eqb c x30 && negb (Byte.eqb c' dot)
  | _ => false
  end.

Fixpoint parseIp4_loop (fuel : nat) (host : bytes) (octets : bytes) : zig bytes :=
  match fuel with
  | 0 => Err Unreached
  | S fuel' =>
      match host with
      | [] => Ok octets
      | _ :: _ =>
          if 4 <=? length octets then Err InvalidIPAddressFormat
          else if leading_zero host then Err InvalidIPAddressFormat
          else
            let! (val, rest) := parse_octet host 0 in
            if length rest =? length host then Err InvalidIPAddressFormat
            else parseIp4_loop fuel' (drop 1 rest) (octets ++ [u8_of_nat val])
      end
  end.

Definition parseIp4 (host : bytes) (port : N) : zig Address :=
  let! octets := parseIp4_loop (length host + 1) host [] in
  if negb (length octets =? 4) then Err InvalidIPAddressFormat
  else Ok (Ip4 octets port).

(** ** IPv6 *)

Definition colon : Byte.byte := x3a.

Definition hex_val (c : Byte.byte) : option nat :=
  if in_range x30 c x39 then Some (b2n c - b2n x30)
  else if in_range x61 c x66 then Some (b2n c - b2n x61 + 10)
  else if in_range x41 c x46 then Some (b2n c - b2n x41 + 10)
  else None.

(** The inner loop: [val <<= 4] drops the bits above the sixteenth. *)
Fixpoint parse_group (host : bytes) (val digits : nat) : zig (nat * nat * bytes) :=
  match host with
  | [] => Ok (val, digits, [])
  | c :: host' =>
      if Byte.eqb c colon then Ok (val, digits, host)
      else match hex_val c with
           | None => Err InvalidCharacter
           | Some d =>
               if 4 <? digits + 1 then Err InvalidCharacter
               else parse_group host' ((val * 16) mod 65536 + d) (digits + 1)
           end
  end.

(** [groups[0..group_i]] and [double_colon_idx], [None] while [double_colon]
    is false. *)
Fixpoint parseIp6_loop (fuel : nat) (host : bytes) (groups : list nat)
    (double_colon : option nat) : zig (list nat * option nat * bytes) :=
  match fuel with
  | 0 => Err Unreached
  | S fuel' =>
      if (length host =? 0) || (8 <=? length groups)
      then Ok (groups, double_colon, host)
      else
        let! (val, digits, rest) := parse_group host 0 0 in
        if digits =? 0 then Err InvalidCharacter
        else
          let groups := groups ++ [val] in
          if (length groups =? 8) && negb (length rest =? 0)
          then Err InvalidIPAddressFormat
          else match rest with
               | _ :: c :: rest' =>
                   if Byte.eqb c colon then
                     match double_colon with
                     | Some _ => Err InvalidCharacter
                     | None =>
                         parseIp6_loop fuel' rest' groups (Some (length groups))
                     end
                   else parseIp6_loop fuel' (c :: rest') groups double_colon
               | _ => parseIp6_loop fuel' [] groups double_colon
               end
  end.

Definition group_bytes (groups : list nat) : bytes :=
  flat_map (fun g => [u8_of_nat (g / 256); u8_of_nat (g mod 256)]) groups.

(** The copy of [groups] into [bytes]: the groups after [::] end at the eighth
    position, and [bytes] starts as zeros. *)
Definition place_groups (groups : list nat) (before : nat) : bytes :=
  group_bytes (take before groups ++ replicate (8 - length groups) 0
               ++ drop before groups).

Definition parseIp6 (host : bytes) (port : N) : zig Address :=
  let start : zig (bytes * option nat) :=
    match host with
    | c0 :: c1 :: host' =>
        if Byte.eqb c0 colon && Byte.eqb c1 colon then
          match host' with
          | c2 :: _ => if Byte.eqb c2 colon then Err InvalidCharacter
                       else Ok (host', Some 0)
          | [] => Ok (host', Some 0)
          end
        else if Byte.eqb c0 colon then Err InvalidCharacter
        else Ok (host, None)
    | [c0] => if Byte.eqb c0 colon then Err InvalidCharacter else Ok (host, None)
    | [] => Ok (host, None)
    end in
  let! (rest, double_colon) := start in
  let! (groups, double_colon, rest) :=
    parseIp6_loop (length host + 1) rest [] double_colon in
  match double_colon with
  | Some before =>
      if 8 <=? length groups then Err InvalidIPAddressFormat
      else Ok (Ip6 (place_groups groups before) port)
  | None =>
      if negb (length groups =? 8) then Err IncompleteAddress
      else if negb (length rest =? 0) then Err InvalidIPAddressFormat
      else Ok (Ip6 (group_bytes groups) port)
  end.

Definition resolveIp : bytes -> N -> zig Address := parseIp4.
Definition resolveIp6 : bytes -> N -> zig Address := parseIp6.

Definition parseIp (host : bytes) (port : N) : zig Address :=
  match parseIp4 host port with
  | Err InvalidIPAddressFormat => parseIp6 host port
  | r => r
  end.

(** ** Reverse-lookup names *)

(** [std.fmt]'s ["{d}"] of a [u8], and ["{x:1}"] of a nibble. *)
Definition dec_digit (n : nat) : Byte.byte := u8_of_nat (b2n x30 + n).

Definition fmt_d (b : Byte.byte) : bytes :=
  let n := b2n b in
  if n <? 10 then [dec_digit n]
  else if n <? 100 then [dec_digit (n / 10); dec_digit (n mod 10)]
  else [dec_digit (n / 100); dec_digit (n / 10 mod 10); dec_digit (n mod 10)].

Definition fmt_x1 (n : N) : bytes :=
  [u8_of_nat (if (n <? 10)%N then b2n x30 + N.to_nat n
              else b2n x61 + N.to_nat n - 10)].

Definition in_addr_arpa : bytes :=
  [x69; x6e; x2d; x61; x64; x64; x72; x2e; x61; x72; x70; x61].
Definition ip6_arpa : bytes := [x69; x70; x36; x2e; x61; x72; x70; x61].

(** ["{d}.{d}.{d}.{d}"]. *)
Definition fmt_quad (a b c d : Byte.byte) : bytes :=
  fmt_d a ++ [dot] ++ fmt_d b ++ [dot] ++ fmt_d c ++ [dot] ++ fmt_d d.

(** ["{x:1}.{x:1}."] of one byte, low nibble first. *)
Definition fmt_nibbles (byte : Byte.byte) : bytes :=
  let high := N.land (N.shiftr (Byte.to_N byte) 4) 0x0F in
  let low := N.land (Byte.to_N byte) 0x0F in
  fmt_x1 low ++ [dot] ++ fmt_x1 high ++ [dot].

(** [bufPrint]: the text, or [NoSpaceLeft] when the buffer is too small. *)
Definition bufPrint (buf_len : nat) (text : bytes) : zig bytes :=
  if length text <=? buf_len then Ok text else Err NoSpaceLeft.

(** The [while (i > 0)] loop, on the bytes from the last to the first; [out]
    is [buf[0..offset]]. *)
Fixpoint reverse_nibbles (ip_rev : bytes) (buf_len : nat) (out : bytes) : zig bytes :=
  match ip_rev with
  | [] => Ok out
  | byte :: ip_rev' =>
      let! text := bufPrint (buf_len - length out) (fmt_nibbles byte) in
      reverse_nibbles ip_rev' buf_len (out ++ text)
  end.

Definition build_reverse_name (address : Address) (buf_len : nat) : zig bytes :=
  match address with
  | Ip4 [a; b; c; d] _ =>
      bufPrint buf_len (fmt_quad d c b a ++ [dot] ++ in_addr_arpa)
  | Ip6 ip _ =>
      let! out := reverse_nibbles (rev ip) buf_len [] in
      let! text := bufPrint (buf_len - length out) ip6_arpa in
      Ok (out ++ text)
  | _ => Err UnsupportedAddressFamily
  end.

(** ** Lemmas on bytes *)

Lemma u8_of_nat_b2n b : u8_of_nat (b2n b) = b.
Proof. unfold u8_of_nat. now rewrite Byte.of_to_nat. Qed.

Lemma b2n_u8_of_nat n : n < 256 -> b2n (u8_of_nat n) = n.
Proof.
  intros H. unfold u8_of_nat. destruct (Byte.of_nat n) eqn:E.
  - now apply Byte.to_of_nat in E.
  - apply Byte.of_nat_None_iff in E. lia.
Qed.

Lemma b2n_lt b : b2n b < 256.
Proof. pose proof (Byte.to_nat_bounded b). lia. Qed.

(** ** The parsers are total *)

(** What is left after an octet or a group ends at its separator. *)
Definition ends_at (sep : Byte.byte) (rest : bytes) : Prop :=
  rest = [] \/ exists r, rest = sep :: r.

Lemma parse_octet_rest host val v rest :
  parse_octet host val = Ok (v, rest) ->
  length rest <= length host /\ ends_at dot rest /\ (val <= 255 -> v <= 255).
Proof.
  revert val. induction host as [|c host IH]; intros val; cbn [parse_octet length].
  - intros [= <- <-]. split; [cbn; lia|]. split; [now left | auto].
  - destruct (Byte.eqb c dot) eqn:Ed.
    + intros [= <- <-]. apply Byte.byte_dec_bl in Ed as ->. cbn.
      split; [lia|]. split; [right; eauto | auto].
    + destruct (digit_val c); [|discriminate].
      destruct (_ <? _) eqn:El; [discriminate|]. apply Nat.ltb_ge in El.
      intros (? & ? & ?)%IH. split; [lia|]. split; auto.
Qed.

Lemma parseIp4_loop_total fuel host octets :
  length host < fuel -> parseIp4_loop fuel host octets <> Err Unreached.
Proof.
  revert host octets. induction fuel as [|fuel IH]; intros host octets Hf; [lia|].
  cbn [parseIp4_loop]. destruct host as [|c host]; [discriminate|].
  destruct (4 <=? _); [discriminate|]. destruct (leading_zero _); [discriminate|].
  unfold zig_bind. destruct (parse_octet (c :: host) 0) as [[v rest]|e] eqn:E.
  - apply parse_octet_rest in E as (Hl & _ & _).
    destruct (_ =? _) eqn:En; [discriminate|]. apply Nat.eqb_neq in En.
    apply IH. cbn [length] in *. rewrite length_drop. lia.
  - intros [= ->]. revert E. generalize 0. generalize (c :: host) as h.
    induction h as [|x h IHh]; intros v; cbn [parse_octet]; [discriminate|].
    destruct (Byte.eqb x dot); [discriminate|].
    destruct (digit_val x); [|discriminate]. destruct (_ <? _); [discriminate|].
    apply IHh.
Qed.

Lemma parse_group_rest host val digits v d rest :
  parse_group host val digits = Ok (v, d, rest) ->
  length rest + d <= length host + digits /\ ends_at colon rest
  /\ (digits <= d <= Nat.max digits 4).
Proof.
  revert val digits. induction host as [|c host IH]; intros val digits;
    cbn [parse_group length].
  - intros [= <- <- <-]. split; [cbn; lia|]. split; [now left | lia].
  - destruct (Byte.eqb c colon) eqn:Ed.
    + intros [= <- <- <-]. apply Byte.byte_dec_bl in Ed as ->. cbn.
      split; [lia|]. split; [right; eauto | lia].
    + destruct (hex_val c); [|discriminate].
      destruct (_ <? _) eqn:El; [discriminate|]. apply Nat.ltb_ge in El.
      intros (? & ? & ?)%IH. split; [lia|]. split; [auto | lia].
Qed.

Lemma parse_group_total host val digits : parse_group host val digits <> Err Unreached.
Proof.
  revert val digits. induction host as [|c host IH]; intros val digits;
    cbn [parse_group];
    [discriminate|].
  destruct (Byte.eqb c colon); [discriminate|].
  destruct (hex_val c); [|discriminate]. destruct (_ <? _); [discriminate|]. apply IH.
Qed.

Lemma parseIp6_loop_total fuel host groups dc :
  length host < fuel -> parseIp6_loop fuel host groups dc <> Err Unreached.
Proof.
  revert host groups dc. induction fuel as [|fuel IH]; intros host groups dc Hf; [lia|].
  cbn [parseIp6_loop]. destruct (_ || _); [discriminate|].
  unfold zig_bind. destruct (parse_group host 0 0) as [[[v d] rest]|e] eqn:E.
  2: { intros [= ->]. now apply parse_group_total in E. }
  apply parse_group_rest in E as (Hl & _ & _).
  destruct (d =? 0) eqn:Ed; [discriminate|]. apply Nat.eqb_neq in Ed.
  destruct (_ && _); [discriminate|].
  destruct rest as [|c [|c' rest]]; [apply IH; cbn in *; lia .. |].
  destruct (Byte.eqb c' colon); [destruct dc; [discriminate|]|];
    apply IH; cbn in *; lia.
Qed.

Lemma zig_bind_not_unreached {A B} (m : zig A) (k : A -> zig B) :
  m <> Err Unreached -> (forall a, m = Ok a -> k a <> Err Unreached) ->
  zig_bind m k <> Err Unreached.
Proof. intros Hm Hk. destruct m; cbn; [now apply Hk | congruence]. Qed.

(** Every text is accepted or rejected: no input makes an address parser run
    on. *)
Lemma parseIp_total host port : parseIp host port <> Err Unreached.
Proof.
  assert (H6 : parseIp6 host port <> Err Unreached).
  { unfold parseIp6. apply zig_bind_not_unreached.
    - destruct host as [|c0 [|c1 [|c2 host]]]; repeat destruct (Byte.eqb _ _); discriminate.
    - intros [rest dc] Hs. apply zig_bind_not_unreached.
      + apply parseIp6_loop_total.
        destruct host as [|c0 [|c1 [|c2 host]]]; cbn in Hs;
          repeat destruct (Byte.eqb _ _); try discriminate;
          injection Hs as <- <-; cbn; lia.
      + intros [[groups dc'] rest'] _. destruct dc' as [before|].
        * destruct (8 <=? _); discriminate.
        * destruct (negb _); [discriminate|]. destruct (negb _); discriminate. }
  unfold parseIp. destruct (parseIp4 host port) as [a|e] eqn:E4; [discriminate|].
  destruct e; try discriminate; [exact H6|].
  exfalso. revert E4. unfold parseIp4. apply zig_bind_not_unreached.
  - apply parseIp4_loop_total. lia.
  - intros o _. destruct (negb _); discriminate.
Qed.

(** ** Parsing what is printed *)

Lemma parse_octet_fmt b rest :
  ends_at dot rest ->
  parse_octet (fmt_d b ++ rest) 0 = Ok (b2n b, rest)
  /\ leading_zero (fmt_d b ++ rest) = false.
Proof.
  intros Hr. assert (Hs : forall v, parse_octet rest v = Ok (v, rest))
    by (intros v; destruct Hr as [->|[r ->]]; reflexivity).
  destruct b; (split; [exact (Hs _)|]); destruct Hr as [->|[r ->]]; reflexivity.
Qed.

Lemma fmt_d_nonempty b : 1 <= length (fmt_d b) <= 3.
Proof. destruct b; cbn; lia. Qed.

Lemma parseIp4_loop_octet fuel b rest octets :
  ends_at dot rest -> length octets < 4 ->
  parseIp4_loop (S fuel) (fmt_d b ++ rest) octets
  = parseIp4_loop fuel (drop 1 rest) (octets ++ [b]).
Proof.
  intros Hr Ho. destruct (parse_octet_fmt b rest Hr) as [Hp Hz].
  pose proof (fmt_d_nonempty b) as Hn.
  cbn [parseIp4_loop]. rewrite Hz, Hp. cbn [zig_bind].
  rewrite length_app, (proj2 (Nat.eqb_neq _ _)) by lia.
  rewrite (proj2 (Nat.leb_gt _ _)) by lia. rewrite u8_of_nat_b2n.
  destruct (fmt_d b ++ rest) eqn:E; [|reflexivity].
  apply (f_equal length) in E. rewrite length_app in E. cbn in E. lia.
Qed.

(** Four octets, with or without a separator after the last. *)
Lemma parseIp4_quad a b c d tail port :
  tail = [] \/ tail = [dot] ->
  parseIp4 (fmt_quad a b c d ++ tail) port = Ok (Ip4 [a; b; c; d] port).
Proof.
  intros Ht. unfold parseIp4, fmt_quad. rewrite <- !app_assoc.
  pose proof (fmt_d_nonempty a). pose proof (fmt_d_nonempty b).
  pose proof (fmt_d_nonempty c). pose proof (fmt_d_nonempty d).
  match goal with |- context [parseIp4_loop ?n _ _] =>
    assert (Hf : exists f, n = S (S (S (S (S f))))) end.
  { rewrite !length_app. cbn [length].
    match goal with |- exists f, ?n = _ => exists (n - 5) end. lia. }
  destruct Hf as [f ->]. cbn [app].
  do 3 (rewrite parseIp4_loop_octet by (first [right; eexists; reflexivity | cbn; lia]);
        cbn [drop app]; rewrite ?drop_0).
  rewrite parseIp4_loop_octet; [|destruct Ht as [->| ->]; [left | right; eexists]; reflexivity
                               |cbn; lia].
  destruct Ht as [->| ->]; reflexivity.
Qed.

(** The dotted-quad text of any IPv4 address parses back to that address:
    [parseIp4] accepts every text the ["{d}.{d}.{d}.{d}"] format prints, and no
    two addresses print alike. *)
Theorem parseIp4_print_roundtrip (a b c d : Byte.byte) (port : N) :
  parseIp4 (fmt_quad a b c d) port = Ok (Ip4 [a; b; c; d] port).
Proof.
  rewrite <- (app_nil_r (fmt_quad a b c d)). apply parseIp4_quad. now left.
Qed.

(** ** What the parsers return *)

Definition address_wf (a : Address) : Prop :=
  match a with
  | NoAddress => False
  | Ip4 ip _ => length ip = 4
  | Ip6 ip _ => length ip = 16
  end.

Definition address_port (a : Address) : option N :=
  match a with NoAddress => None | Ip4 _ p | Ip6 _ p => Some p end.

Lemma length_group_bytes groups : length (group_bytes groups) = 2 * length groups.
Proof.
  unfold group_bytes. induction groups as [|g gs IH]; [reflexivity|].
  cbn [flat_map app length]. lia.
Qed.

Lemma place_groups_length groups before :
  length groups <= 8 -> length (place_groups groups before) = 16.
Proof.
  intros H. unfold place_groups. rewrite length_group_bytes, !length_app.
  rewrite length_replicate, length_take, length_drop. lia.
Qed.

Lemma zig_bind_Ok {A B} (m : zig A) (k : A -> zig B) b :
  zig_bind m k = Ok b -> exists a, m = Ok a /\ k a = Ok b.
Proof. destruct m; cbn; [eauto | discriminate]. Qed.

Lemma parseIp_wf_lemma host port a :
  parseIp host port = Ok a -> address_wf a /\ address_port a = Some port.
Proof.
  intros H.
  assert (H6 : parseIp6 host port = Ok a -> address_wf a /\ address_port a = Some port).
  { intros ([rest dc] & _ & ([[groups dc'] rest'] & _ & H')%zig_bind_Ok)%zig_bind_Ok.
    destruct dc' as [before|].
    - destruct (8 <=? _) eqn:E; [discriminate|]. apply Nat.leb_gt in E.
      injection H' as <-. split; [apply place_groups_length; lia | reflexivity].
    - destruct (_ =? 8) eqn:E; cbn in H'; [|discriminate]. apply Nat.eqb_eq in E.
      destruct (_ =? 0); cbn in H'; [|discriminate]. injection H' as <-.
      split; [cbn; rewrite length_group_bytes; lia | reflexivity]. }
  unfold parseIp in H. destruct (parseIp4 host port) as [a'|e] eqn:E4.
  - injection H as ->. apply zig_bind_Ok in E4 as (octets & _ & H').
    destruct (_ =? 4) eqn:E; cbn in H'; [|discriminate]. apply Nat.eqb_eq in E.
    injection H' as <-. split; [exact E | reflexivity].
  - destruct e; try discriminate. auto.
Qed.

(** C31: a text the parsers accept yields a complete address: four bytes for
    IPv4, sixteen for IPv6, with the port that was asked for, never a partly
    filled [sockaddr].  Which texts they accept is another question: a separator
    left over at the end is dropped (see [parseIp_trailing_separator]). *)
Theorem parseIp_wf (host : bytes) (port : N) (a : Address)
    (H : parseIp host port = Ok a) :
  address_wf a /\ address_port a = Some port.
Proof. now apply (parseIp_wf_lemma host). Qed.

Lemma parseIp_wf_witness :
  exists a, parseIp [colon; colon; x31] 53 = Ok a
            /\ (address_wf a /\ address_port a = Some 53%N).
Proof.
  eexists. split; [vm_compute; reflexivity|]. eapply (parseIp_wf [colon; colon; x31] 53).
  vm_compute. reflexivity.
Defined.

(** A separator left over at the end of the text is dropped: ["1.2.3.4."] and
    ["::1:"] are accepted as ["1.2.3.4"] and ["::1"]. *)
Lemma parseIp_trailing_separator :
  (forall a b c d port,
     parseIp4 (fmt_quad a b c d ++ [dot]) port = Ok (Ip4 [a; b; c; d] port))
  /\ parseIp6 [colon; colon; x31; colon] 0 = parseIp6 [colon; colon; x31] 0.
Proof.
  split; [|reflexivity]. intros a b c d port. apply parseIp4_quad. now right.
Qed.
