(* ===== verification/DnsName.v ===== *)
(** * DNS names, queries and records

    The wire-format half of the resolver: host-name validation and the name
    decoder of src/src/loop/dns/parsers.zig, and the query builder, the name
    skipper, the record parser and the candidate list of
    src/src/loop/dns/resolv/parse.zig.

    A slice of [u8] is a list of bytes, an offset a natural number; a 16-bit or
    32-bit field is an [N] read and written most significant byte first.  A
    write outside its buffer and an [@intCast] that does not fit are [None]:
    both are illegal behaviour in Zig.  Allocation failure is not modelled. *)

From S2P Require Import Prelude IpAddress.
From Stdlib Require Import Strings.Byte NArith Lia.
From stdpp Require Import base numbers list.

Open Scope nat_scope.

(** ** Host names *)

Definition hostname_char (c : Byte.byte) : bool :=
  in_range x61 c x7a || in_range x41 c x5a || in_range x30 c x39
  || Byte.eqb c hyphen.

Definition validate_label (label : bytes) : bool :=
  if (length label <? 1) || (63 <? length label) then false
  else if match head label with Some c => Byte.eqb c hyphen | None => false end
       || match last label with Some c => Byte.eqb c hyphen | None => false end
  then false
  else forallb hostname_char label.

Definition validate_hostname (hostname : bytes) : bool :=
  forallb validate_label (splitScalar dot hostname).

(** [std.ascii.lowerString]. *)
Definition to_lower (c : Byte.byte) : Byte.byte :=
  if in_range x41 c x5a then u8_of_nat (b2n c + 32) else c.

Definition lowerString (s : bytes) : bytes := map to_lower s.

(** ** Decoding a name *)

Definition is_pointer (b : Byte.byte) : bool :=
  (N.land (Byte.to_N b) 0xC0 =? 0xC0)%N.

(** [(@as(usize, byte & 0x3F) << 8) | next]. *)
Definition pointer_target (b next : Byte.byte) : nat :=
  N.to_nat (N.lor (N.shiftl (N.land (Byte.to_N b) 0x3F) 8) (Byte.to_N next)).

Definition max_pointers : nat := 10.

Inductive name_result : Type :=
| NameOk (name : bytes)
| MalformedDnsResponse
| NameDiverges.

(** One turn of the [while (offset < full_data.len)] loop; [None] leaves it. *)
Inductive name_step : Type :=
| StepDone
| StepError
| StepGo (offset visited : nat) (result : bytes).

Definition parse_name_step (full_data : bytes) (offset visited : nat)
    (result : bytes) : name_step :=
  match full_data !! offset with
  | None => StepDone
  | Some byte =>
      if b2n byte =? 0 then StepDone
      else if is_pointer byte then
        if max_pointers <=? visited then StepError
        else match full_data !! (offset + 1) with
             | None => StepError
             | Some next => StepGo (pointer_target byte next) (visited + 1) result
             end
      else if length full_data <? offset + 1 + b2n byte then StepError
      else StepGo (offset + 1 + b2n byte) visited
             (result ++ (if 0 <? length result then [dot] else [])
              ++ slice full_data (offset + 1) (offset + 1 + b2n byte))
  end.

Fixpoint parse_name_loop (fuel : nat) (full_data : bytes)
    (offset visited : nat) (result : bytes) : name_result :=
  match fuel with
  | 0 => NameDiverges
  | S fuel' =>
      match parse_name_step full_data offset visited result with
      | StepDone => NameOk result
      | StepError => MalformedDnsResponse
      | StepGo offset' visited' result' =>
          parse_name_loop fuel' full_data offset' visited' result'
      end
  end.

(** The turns the loop can take: it moves forward inside the data between two
    jumps, and jumps at most [max_pointers] times. *)
Definition parse_name_fuel (full_data : bytes) : nat :=
  (max_pointers + 1) * (length full_data + 1).

Definition parse_name (full_data : bytes) (initial_offset : nat) : name_result :=
  parse_name_loop (parse_name_fuel full_data) full_data initial_offset 0 [].

(** ** Skipping a name

    The loop moves forward by at least one byte a turn, so the length of the
    data bounds its turns; [None] is also the answer at the end of the data,
    which is where the fuel would run out. *)

Fixpoint skip_name_loop (fuel : nat) (data : bytes) (offset : nat) : option nat :=
  match fuel with
  | 0 => None
  | S fuel' =>
      match data !! offset with
      | None => None
      | Some byte =>
          if b2n byte =? 0 then Some (offset + 1)
          else if is_pointer byte then
            if length data <? offset + 2 then None else Some (offset + 2)
          else skip_name_loop fuel' data (offset + b2n byte + 1)
      end
  end.

Definition skip_name (data : bytes) (initial_offset : nat) : option nat :=
  skip_name_loop (length data + 1) data initial_offset.

(** ** Records *)

(** What the out-parameters hold afterwards: the address (family 0 when there
    is none), the decoded name of a PTR record, and the TTL, [None] when the
    parser left the caller's value alone. *)
Record dns_record := DnsRecord {
  rr_address : Address;
  rr_ptr_name : option bytes;
  rr_ttl : option N }.

Definition empty_record : dns_record := DnsRecord NoAddress None None.

Definition parse_individual_dns_result (full_data : bytes) (initial_offset : nat)
    : option nat * dns_record :=
  match skip_name full_data initial_offset with
  | None => (None, empty_record)
  | Some offset =>
      if length full_data <? offset + 10 then (None, empty_record)
      else
        let r_type := readInt_big (slice full_data offset (offset + 2)) in
        let r_class := readInt_big (slice full_data (offset + 2) (offset + 4)) in
        let r_ttl := readInt_big (slice full_data (offset + 4) (offset + 8)) in
        let r_data_len :=
          readInt_big (slice full_data (offset + 8) (offset + 10)) in
        let offset := offset + 10 in
        let next_rr_offset := offset + N.to_nat r_data_len in
        if length full_data <? next_rr_offset then (None, empty_record)
        else if (r_class =? 1)%N then
          if (r_type =? 1)%N then
            if length full_data <? offset + 4 then (None, empty_record)
            else (Some next_rr_offset,
                  DnsRecord (Ip4 (slice full_data offset (offset + 4)) 0) None
                    (Some r_ttl))
          else if (r_type =? 28)%N then
            if length full_data <? offset + 16 then (None, empty_record)
            else (Some next_rr_offset,
                  DnsRecord (Ip6 (slice full_data offset (offset + 16)) 0) None
                    (Some r_ttl))
          else if (r_type =? 12)%N then
            (Some next_rr_offset,
             DnsRecord NoAddress
               (match parse_name full_data offset with
                | NameOk n => Some n
                | _ => None
                end) (Some r_ttl))
          else (Some next_rr_offset, empty_record)
        else (Some next_rr_offset, empty_record)
  end.

(** ** Building a query *)

Inductive QuestionType : Type := q_ipv4 | q_ipv6 | q_ptr.

#[export] Instance QuestionType_eq_dec : EqDecision QuestionType.
Proof. solve_decision. Defined.

Definition intFromEnum (q : QuestionType) : N :=
  match q with q_ipv4 => 1 | q_ipv6 => 28 | q_ptr => 12 end%N.

(** The [while (labels_iter.next())] loop. *)
Fixpoint build_labels (payload : bytes) (offset : nat) (labels : list bytes)
    : option (bytes * nat) :=
  match labels with
  | [] => Some (payload, offset)
  | label :: labels' =>
      len ← intCast_u8 (length label);
      payload ← write_at payload offset [len];
      payload ← write_at payload (offset + 1) label;
      build_labels payload (offset + 1 + length label) labels'
  end.

Definition build_query (id : N) (payload : bytes) (question : QuestionType)
    (hostname : bytes) : option (bytes * nat) :=
  payload ← write_at payload 0 (be16 id);
  payload ← write_at payload 2 (be16 0x0100);
  payload ← write_at payload 4 (be16 1);
  payload ← write_at payload 6 (be16 0);
  payload ← write_at payload 8 (be16 0);
  payload ← write_at payload 10 (be16 0);
  '(payload, offset) ← build_labels payload 12 (tokenizeScalar dot hostname);
  payload ← write_at payload offset [x00];
  let offset := offset + 1 in
  payload ← write_at payload offset (be16 (intFromEnum question));
  payload ← write_at payload (offset + 2) (be16 1);
  Some (payload, offset + 4).

(** ** The candidate names of a lookup *)

Record Hostname := MkHostname {
  hn_hostname : bytes;
  hn_original_len : nat }.

(** [None] is [false]: the candidate is too long. *)
Definition build_hostname (hostname suffix : bytes) : option Hostname :=
  let new_len := length hostname + length suffix + 1 in
  if 255 <? new_len then None
  else Some (MkHostname
               (if 0 <? length suffix then hostname ++ dot :: suffix else hostname)
               (length hostname)).

Definition get_hostname_array (hostname : bytes) (suffixes : list bytes)
    : list Hostname :=
  if existsb (Byte.eqb dot) hostname
  then omap (build_hostname hostname) [[]]
  else omap (build_hostname hostname) suffixes
       ++ omap (build_hostname hostname) [[]].

(** ** The synchronous part of a lookup *)

Definition localhost_address_list : list Address :=
  [Ip4 [x7f; x00; x00; x01] 0;
   Ip6 [x00; x00; x00; x00; x00; x00; x00; x00;
        x00; x00; x00; x00; x00; x00; x00; x01] 0].

Definition localhost : bytes :=
  [x6c; x6f; x63; x61; x6c; x68; x6f; x73; x74].

(** The addresses written to [out]; the count the code returns is their
    number. *)
Definition resolve_address (hostname : bytes) (allow_ipv6 : bool) (out_len : nat)
    : zig (list Address) :=
  if bool_decide (hostname = localhost) then
    let n := 1 + (if allow_ipv6 then 1 else 0) in
    if out_len <? n then Err OutOfMemory
    else Ok (take n localhost_address_list)
  else match resolveIp hostname 0 with
  | Ok res => if out_len <? 1 then Err OutOfMemory else Ok [res]
  | Err _ =>
      match (if allow_ipv6 then resolveIp6 hostname 0 else Err Unreached) with
      | Ok res => if out_len <? 1 then Err OutOfMemory else Ok [res]
      | Err _ =>
          if validate_hostname hostname then Ok [] else Err InvalidHostname
      end
  end.

(** ** resolv.conf *)

Record Configuration := MkConfiguration {
  servers : list Address;
  search : list bytes }.

Definition nameserver_word : bytes :=
  [x6e; x61; x6d; x65; x73; x65; x72; x76; x65; x72].
Definition search_word : bytes := [x73; x65; x61; x72; x63; x68].
Definition default_server : bytes := [x31; x2e; x31; x2e; x31; x2e; x31].

Definition starts_comment (word : bytes) : bool :=
  match word with
  | chr :: _ => Byte.eqb chr x23 || Byte.eqb chr x3b
  | [] => false
  end.

(** The [while (words_iter.next())] loop of a [search] line. *)
Fixpoint parse_search (words : list bytes) (search_hosts : list bytes)
    : zig (list bytes) :=
  match words with
  | [] => Ok search_hosts
  | word :: words' =>
      if starts_comment word then Ok search_hosts
      else if 255 <? length word then Err InvalidConfiguration
      else
        let parsed_hostname := lowerString word in
        if bool_decide (parsed_hostname = [dot]) then parse_search words' search_hosts
        else if negb (validate_hostname parsed_hostname) then Err InvalidConfiguration
        else parse_search words' (search_hosts ++ [parsed_hostname])
  end.

Definition parse_line (line : bytes) (c : Configuration) : zig Configuration :=
  match tokenizeAny [x20; x09] line with
  | [] => Ok c
  | first_word :: words =>
      if starts_comment first_word then Ok c
      else if bool_decide (first_word = nameserver_word) then
        match words with
        | [] => Err InvalidConfiguration
        | ip_str :: _ =>
            let! address := parseIp ip_str 53 in
            Ok (MkConfiguration (servers c ++ [address]) (search c))
        end
      else if bool_decide (first_word = search_word) then
        let! hosts := parse_search words (search c) in
        Ok (MkConfiguration (servers c) hosts)
      else Ok c
  end.

Fixpoint parse_lines (lines : list bytes) (c : Configuration) : zig Configuration :=
  match lines with
  | [] => Ok c
  | line :: lines' =>
      let! c := parse_line line c in parse_lines lines' c
  end.

Definition parse_resolv_configuration (content : bytes) : zig Configuration :=
  let! c := parse_lines (tokenizeScalar x0a content) (MkConfiguration [] []) in
  if length (servers c) =? 0 then
    let! address := parseIp default_server 53 in
    Ok (MkConfiguration (servers c ++ [address]) (search c))
  else Ok c.

(** ** Splitting and joining *)

Definition join_dot (labels : list bytes) : bytes :=
  match labels with
  | [] => []
  | l :: ls => l ++ flat_map (cons dot) ls
  end.

Lemma split_on_nonempty sep s : split_on sep s <> [].
Proof.
  destruct s as [|c s]; cbn; [discriminate|].
  destruct (sep c); [discriminate|]. now destruct (split_on sep s).
Qed.

Lemma join_split s : join_dot (splitScalar dot s) = s.
Proof.
  unfold splitScalar. induction s as [|c s IH]; [reflexivity|]. cbn [split_on].
  pose proof (split_on_nonempty (fun c => Byte.eqb c dot) s) as Hn.
  destruct (split_on _ s) as [|l ls]; [congruence|].
  destruct (Byte.eqb c dot) eqn:E; cbn in *; rewrite <- IH; [|reflexivity].
  apply Byte.byte_dec_bl in E as ->. reflexivity.
Qed.

Lemma split_no_sep sep s l : In l (split_on sep s) -> forallb (fun c => negb (sep c)) l.
Proof.
  revert l. induction s as [|c s IH]; intros l; cbn.
  - intros [<-|[]]. exact I.
  - destruct (sep c) eqn:E.
    + intros [<-|H]; [exact I | now apply IH].
    + destruct (split_on sep s) as [|l' ls].
      * intros [<-|[]]. cbn. now rewrite E.
      * intros [<-|H]; [|apply IH; now right]. cbn. rewrite E. apply IH. now left.
Qed.

(** ** Names on the wire *)

Definition label_fits (l : bytes) : Prop := 1 <= length l <= 63.

(** The label encoding of RFC 1035, without the final zero. *)
Definition encode_labels (labels : list bytes) : bytes :=
  flat_map (fun l => u8_of_nat (length l) :: l) labels.

Lemma length_encode labels :
  length (encode_labels labels) = length (flat_map (cons dot) labels).
Proof.
  unfold encode_labels. induction labels as [|l ls IH]; [reflexivity|].
  cbn [flat_map app length]. rewrite !length_app. lia.
Qed.

Lemma length_encode_split s :
  length (encode_labels (splitScalar dot s)) = length s + 1.
Proof.
  rewrite length_encode. rewrite <- (join_split s) at 2.
  pose proof (split_on_nonempty (fun c => Byte.eqb c dot) s) as Hn.
  unfold splitScalar. destruct (split_on _ s) as [|l ls]; [congruence|].
  cbn [join_dot flat_map app length]. rewrite !length_app. lia.
Qed.

Lemma validate_label_spec l : validate_label l = true -> label_fits l.
Proof.
  unfold validate_label, label_fits.
  destruct (length l <? 1) eqn:E1; cbn [orb]; [discriminate|].
  destruct (63 <? length l) eqn:E2; [discriminate|]. intros _.
  apply Nat.ltb_ge in E1, E2. lia.
Qed.

Lemma validate_hostname_labels h :
  validate_hostname h = true -> Forall label_fits (splitScalar dot h).
Proof.
  unfold validate_hostname. rewrite forallb_forall, Forall_forall.
  intros H l Hl%list_elem_of_In. now apply validate_label_spec, H.
Qed.

Lemma tokenize_valid h :
  validate_hostname h = true -> tokenizeScalar dot h = splitScalar dot h.
Proof.
  intros H%validate_hostname_labels. unfold tokenizeScalar.
  induction H as [|l ls Hl _ IH]; [reflexivity|].
  rewrite filter_cons_True; [now rewrite IH|].
  intros ->. cbv in Hl. lia.
Qed.

Lemma is_pointer_iff b : is_pointer b = (192 <=? b2n b).
Proof. destruct b; reflexivity. Qed.

(** ** The decoder ends *)

Lemma lookup_lt_length (data : bytes) i b : data !! i = Some b -> i < length data.
Proof. apply lookup_lt_Some. Qed.

(** Room left: jumps and forward movement both use it up. *)
Definition name_room (data : bytes) (offset visited : nat) : nat :=
  (max_pointers - visited) * length data + (length data - offset).

Lemma parse_name_step_go data offset visited result offset' visited' result' :
  parse_name_step data offset visited result = StepGo offset' visited' result' ->
  offset < length data
  /\ length result' + name_room data offset' visited'
     <= length result + name_room data offset visited
  /\ (visited' = visited /\ offset < offset' <= length data
      \/ visited' = S visited /\ visited < max_pointers).
Proof.
  intros H. unfold parse_name_step, name_room in *. revert H.
  destruct (data !! offset) as [b|] eqn:Eb; [|discriminate].
  intros H. pose proof (lookup_lt_length _ _ _ Eb) as Ho. split; [exact Ho|].
  revert H. destruct (b2n b =? 0) eqn:E0; [discriminate|]. apply Nat.eqb_neq in E0.
  destruct (is_pointer b).
  - destruct (max_pointers <=? visited) eqn:Ev; [discriminate|].
    apply Nat.leb_gt in Ev. destruct (data !! (offset + 1)); [|discriminate].
    intros [= <- <- <-]. split; [|right; lia].
    replace (max_pointers - visited) with (S (max_pointers - (visited + 1))) by lia.
    cbn [Nat.mul]. lia.
  - destruct (_ <? _) eqn:El; [discriminate|]. apply Nat.ltb_ge in El.
    intros [= <- <- <-]. split; [|left; lia].
    unfold slice. rewrite !length_app, length_take, length_drop.
    destruct (0 <? length result); cbn [length]; lia.
Qed.

Lemma parse_name_loop_ok fuel data offset visited result :
  (max_pointers - visited) * (length data + 1) + (length data - offset) < fuel ->
  match parse_name_loop fuel data offset visited result with
  | NameOk name => length name <= length result + name_room data offset visited
  | MalformedDnsResponse => True
  | NameDiverges => False
  end.
Proof.
  revert offset visited result.
  induction fuel as [|fuel IH]; intros offset visited result Hf; [now apply Nat.nlt_0_r in Hf|].
  cbn [parse_name_loop].
  destruct (parse_name_step data offset visited result) as [| |o' v' r'] eqn:E; [apply Nat.le_add_r|exact I|].
  apply parse_name_step_go in E as (Ho & Hr & Hp).
  assert (Hm : (max_pointers - v') * (length data + 1) + (length data - o') < fuel).
  { destruct Hp as [[-> Hp]|[-> Hp]]; [lia|].
    replace (max_pointers - visited) with (S (max_pointers - S visited)) in Hf by lia.
    cbn [Nat.mul] in Hf. lia. }
  specialize (IH o' v' r' Hm).
  destruct (parse_name_loop fuel data o' v' r'); [lia|exact I|exact IH].
Qed.

(** C28: decoding a name ends on every input: whatever the compression pointers
    of a response do, chains and cycles included, [parse_name] answers with a
    name or with [MalformedDnsResponse], and a name it answers with is at most
    eleven times as long as the response it came from. *)
Theorem parse_name_terminates (full_data : bytes) (initial_offset : nat) :
  match parse_name full_data initial_offset with
  | NameOk name => length name <= 11 * length full_data
  | MalformedDnsResponse => True
  | NameDiverges => False
  end.
Proof.
  unfold parse_name, parse_name_fuel.
  pose proof (parse_name_loop_ok ((max_pointers + 1) * (length full_data + 1))
                full_data initial_offset 0 []) as H.
  unfold name_room, max_pointers in *. cbn [length] in H.
  destruct (parse_name_loop _ _ _ _ _); [|exact I|]; [specialize (H ltac:(lia)); lia|].
  apply H. lia.
Qed.

(** ** Skipping and reading records *)

Lemma skip_name_loop_fuel f1 f2 data offset :
  length data < f1 + offset -> length data < f2 + offset ->
  skip_name_loop f1 data offset = skip_name_loop f2 data offset.
Proof.
  revert f2 offset. induction f1 as [|f1 IH]; intros f2 offset H1 H2.
  - destruct f2; [reflexivity|]. cbn [skip_name_loop].
    rewrite (proj2 (lookup_ge_None data offset)) by lia. reflexivity.
  - destruct f2 as [|f2]; cbn [skip_name_loop].
    + rewrite (proj2 (lookup_ge_None data offset)) by lia. reflexivity.
    + destruct (data !! offset); [|reflexivity].
      destruct (_ =? _); [reflexivity|]. destruct (is_pointer _); [reflexivity|].
      apply IH; lia.
Qed.

(** The loop of [skip_name] without its fuel. *)
Lemma skip_name_eq data offset :
  skip_name data offset =
  match data !! offset with
  | None => None
  | Some byte =>
      if b2n byte =? 0 then Some (offset + 1)
      else if is_pointer byte then
        if length data <? offset + 2 then None else Some (offset + 2)
      else skip_name data (offset + b2n byte + 1)
  end.
Proof.
  unfold skip_name. rewrite (skip_name_loop_fuel _ (S (length data + 1))) by lia.
  reflexivity.
Qed.

Lemma skip_name_loop_bounds fuel data offset n :
  skip_name_loop fuel data offset = Some n -> offset < n <= length data.
Proof.
  revert offset. induction fuel as [|fuel IH]; intros offset; cbn [skip_name_loop];
    [discriminate|].
  destruct (data !! offset) as [b|] eqn:Eb; [|discriminate].
  apply lookup_lt_length in Eb.
  destruct (_ =? 0); [intros [= <-]; lia|]. destruct (is_pointer b).
  - destruct (_ <? _) eqn:E; [discriminate|]. apply Nat.ltb_ge in E.
    intros [= <-]. lia.
  - intros H%IH. lia.
Qed.

Lemma skip_name_bounds data offset n :
  skip_name data offset = Some n -> offset < n <= length data.
Proof. apply skip_name_loop_bounds. Qed.

Lemma slice_length data a b : b <= length data -> length (slice data a b) = b - a.
Proof. intros H. unfold slice. rewrite length_take, length_drop. lia. Qed.

Definition record_wf (r : dns_record) : Prop :=
  match rr_address r with NoAddress => True | a => address_wf a end.

(** C29: reading one answer record moves strictly forward and never past the
    response: an accepted record starts at least eleven bytes before the next
    one, which starts inside the data, so the answer loop reads at most one
    record for every eleven bytes whatever [ANCOUNT] says; and the address it
    yields is complete (four or sixteen bytes). *)
Theorem parse_record_bounds (full_data : bytes) (offset next : nat) (r : dns_record)
    (H : parse_individual_dns_result full_data offset = (Some next, r)) :
  offset + 10 < next <= length full_data /\ record_wf r.
Proof.
  revert H. unfold parse_individual_dns_result.
  destruct (skip_name full_data offset) as [o|] eqn:Es; [|discriminate].
  apply skip_name_bounds in Es. cbn zeta.
  destruct (_ <? _) eqn:E1; [discriminate|]. apply Nat.ltb_ge in E1.
  destruct (_ <? _) eqn:E2; [discriminate|]. apply Nat.ltb_ge in E2.
  repeat match goal with
  | |- context [if ?b then _ else _] => destruct b eqn:?
  end; intros [= <- <-]; try discriminate; (split; [lia|]); try exact I;
  match goal with E : (length _ <? _) = false |- _ => apply Nat.ltb_ge in E end;
  cbn; rewrite slice_length by lia; lia.
Qed.

Lemma parse_record_bounds_witness :
  let data := [xc0; x0c; x00; x01; x00; x01; x00; x00; x01; x2c; x00; x04;
               xd8; x3a; xd3; xa4] in
  (0 + 10 < 16 <= length data)
  /\ record_wf (DnsRecord (Ip4 [xd8; x3a; xd3; xa4] 0) None (Some 300%N)).
Proof.
  cbn zeta.
  apply (parse_record_bounds
           [xc0; x0c; x00; x01; x00; x01; x00; x00; x01; x2c; x00; x04;
            xd8; x3a; xd3; xa4] 0 16).
  vm_compute. reflexivity.
Defined.

(** An A record whose [RDLENGTH] is shorter than an address is not rejected:
    the four bytes are read anyway, here from the record that follows. *)
Lemma short_a_record_reads_on :
  parse_individual_dns_result
    [x00; x00; x01; x00; x01; x00; x00; x00; x00; x00; x00;
     x0a; x0b; x0c; x0d] 0
  = (Some 11, DnsRecord (Ip4 [x0a; x0b; x0c; x0d] 0) None (Some 0%N)).
Proof. vm_compute. reflexivity. Qed.

(** ** Queries *)

(** A buffer [payload] whose first bytes have been overwritten by [w]. *)
Definition overlay (w payload : bytes) : bytes := w ++ drop (length w) payload.

Lemma write_next w payload offset bs :
  offset = length w -> length w + length bs <= length payload ->
  write_at (overlay w payload) offset bs = Some (overlay (w ++ bs) payload).
Proof.
  intros -> H. unfold write_at, overlay. rewrite length_app, length_drop.
  rewrite (proj2 (Nat.leb_le _ _)) by lia.
  rewrite take_app_length, drop_app_ge by lia.
  rewrite drop_drop, <- app_assoc, length_app. do 4 f_equal. lia.
Qed.

Lemma intCast_u8_small n : n < 256 -> intCast_u8 n = Some (u8_of_nat n).
Proof.
  intros H. unfold intCast_u8, u8_of_nat. destruct (Byte.of_nat n) eqn:E; [reflexivity|].
  apply Byte.of_nat_None_iff in E. lia.
Qed.

Lemma build_labels_next labels w payload offset :
  Forall label_fits labels -> offset = length w ->
  length w + length (encode_labels labels) <= length payload ->
  build_labels (overlay w payload) offset labels
  = Some (overlay (w ++ encode_labels labels) payload,
          length (w ++ encode_labels labels)).
Proof.
  intros HF. revert w offset.
  induction HF as [|l ls Hl HF IH]; intros w offset -> Hlen.
  - cbn. rewrite app_nil_r. reflexivity.
  - cbn [build_labels]. unfold label_fits in Hl.
    change (encode_labels (l :: ls)) with ([u8_of_nat (length l)] ++ l ++ encode_labels ls) in *.
    rewrite !length_app in Hlen. cbn [length] in Hlen.
    rewrite intCast_u8_small by lia. cbn [mbind option_bind].
    rewrite write_next by (cbn [length]; lia). cbn [mbind option_bind].
    rewrite write_next by (rewrite ?length_app; cbn [length]; lia). cbn [mbind option_bind].
    rewrite IH by (rewrite !length_app; cbn [length]; lia).
    rewrite <- !app_assoc. reflexivity.
Qed.

(** The datagram a query should be: header with one question, the name, the
    question type and class IN. *)
Definition query_bytes (id : N) (question : QuestionType) (hostname : bytes) : bytes :=
  be16 id ++ be16 0x0100 ++ be16 1 ++ be16 0 ++ be16 0 ++ be16 0
  ++ encode_labels (splitScalar dot hostname) ++ [x00]
  ++ be16 (intFromEnum question) ++ be16 1.

Lemma length_query_bytes id q h : length (query_bytes id q h) = length h + 18.
Proof.
  unfold query_bytes, be16. cbn [app length].
  rewrite !length_app, length_encode_split. cbn [length]. lia.
Qed.

Lemma build_query_spec id payload q h :
  validate_hostname h = true -> length h + 18 <= length payload ->
  build_query id payload q h
  = Some (query_bytes id q h ++ drop (length h + 18) payload, length h + 18).
Proof.
  intros Hv Hlen. unfold build_query. rewrite tokenize_valid by exact Hv.
  pose proof (validate_hostname_labels h Hv) as HF.
  pose proof (length_encode_split h) as He.
  change payload with (overlay [] payload) at 1.
  do 6 (rewrite write_next by (cbn [length app be16]; lia); cbn [mbind option_bind]).
  rewrite build_labels_next by (try exact HF; cbn [length app be16]; lia).
  cbn [mbind option_bind].
  do 3 (rewrite write_next by (rewrite ?length_app; cbn [length app be16]; lia);
        cbn [mbind option_bind]).
  unfold overlay. rewrite <- length_query_bytes with (id := id) (q := q).
  unfold query_bytes. rewrite <- !app_assoc. cbn [app be16].
  do 2 f_equal. cbn [length]. rewrite length_app. cbn [length be16]. lia.
Qed.

(** ** Reading a query back *)

Lemma lookup_after (pre post : bytes) b : (pre ++ b :: post) !! length pre = Some b.
Proof. rewrite lookup_app_r by lia. now rewrite Nat.sub_diag. Qed.

Lemma slice_after (pre l post : bytes) :
  slice (pre ++ l ++ post) (length pre) (length pre + length l) = l.
Proof.
  unfold slice. rewrite drop_app_length.
  replace (length pre + length l - length pre) with (length l) by lia.
  apply take_app_length.
Qed.

(** What the decoder accumulates from a sequence of labels. *)
Definition join_from (acc : bytes) (labels : list bytes) : bytes :=
  fold_left (fun a l => a ++ (if 0 <? length a then [dot] else []) ++ l) labels acc.

Lemma join_from_nonempty acc labels :
  0 < length acc -> join_from acc labels = acc ++ flat_map (cons dot) labels.
Proof.
  revert acc. induction labels as [|l ls IH]; intros acc Ha; cbn [join_from flat_map fold_left].
  - now rewrite app_nil_r.
  - rewrite (proj2 (Nat.ltb_lt _ _)) by exact Ha.
    change (fold_left _ ls ?a) with (join_from a ls).
    rewrite IH by (rewrite !length_app; lia). now rewrite <- !app_assoc.
Qed.

Lemma join_from_split h :
  validate_hostname h = true -> join_from [] (splitScalar dot h) = h.
Proof.
  intros HF%validate_hostname_labels. rewrite <- (join_split h) at 2.
  destruct HF as [|l ls Hl HF]; [reflexivity|]. unfold label_fits in Hl.
  cbn [join_from fold_left app length Nat.ltb Nat.leb].
  change (fold_left _ ls ?a) with (join_from a ls).
  now rewrite join_from_nonempty by lia.
Qed.

Lemma label_byte l :
  label_fits l ->
  (b2n (u8_of_nat (length l)) = length l)
  /\ is_pointer (u8_of_nat (length l)) = false.
Proof.
  unfold label_fits. intros H. rewrite is_pointer_iff, b2n_u8_of_nat by lia.
  split; [reflexivity|]. apply Nat.leb_gt. lia.
Qed.

Lemma parse_labels labels pre post acc visited fuel :
  Forall label_fits labels -> length labels < fuel ->
  parse_name_loop fuel (pre ++ encode_labels labels ++ x00 :: post)
    (length pre) visited acc
  = NameOk (join_from acc labels).
Proof.
  intros HF. revert pre acc fuel.
  induction HF as [|l ls Hl HF IH]; intros pre acc fuel Hf;
    (destruct fuel as [|fuel]; [cbn in Hf; lia|]); cbn [parse_name_loop].
  - unfold parse_name_step. cbn [encode_labels flat_map app].
    now rewrite lookup_after.
  - destruct (label_byte l Hl) as [Hb Hp]. unfold label_fits in Hl.
    change (encode_labels (l :: ls)) with (u8_of_nat (length l) :: l ++ encode_labels ls).
    cbn [app]. unfold parse_name_step. rewrite lookup_after, Hp, Hb.
    rewrite (proj2 (Nat.eqb_neq _ _)) by lia.
    rewrite (proj2 (Nat.ltb_ge _ _))
      by (rewrite !length_app; cbn [length]; rewrite !length_app; lia).
    rewrite <- app_assoc.
    replace (pre ++ u8_of_nat (length l) :: l ++ encode_labels ls ++ x00 :: post)
      with ((pre ++ [u8_of_nat (length l)]) ++ l ++ encode_labels ls ++ x00 :: post)
      by (rewrite <- app_assoc; reflexivity).
    replace (length pre + 1) with (length (pre ++ [u8_of_nat (length l)]))
      by (rewrite length_app; reflexivity).
    rewrite slice_after.
    rewrite (app_assoc (pre ++ _) l).
    replace (length (pre ++ [u8_of_nat (length l)]) + length l)
      with (length ((pre ++ [u8_of_nat (length l)]) ++ l))
      by (rewrite !length_app; reflexivity).
    rewrite IH by (cbn in Hf; lia). reflexivity.
Qed.

Lemma skip_labels labels pre post :
  Forall label_fits labels ->
  skip_name (pre ++ encode_labels labels ++ x00 :: post) (length pre)
  = Some (length pre + length (encode_labels labels) + 1).
Proof.
  intros HF. revert pre.
  induction HF as [|l ls Hl HF IH]; intros pre; rewrite skip_name_eq.
  - cbn [encode_labels flat_map app length]. rewrite lookup_after. cbn. f_equal. lia.
  - destruct (label_byte l Hl) as [Hb Hp]. unfold label_fits in Hl.
    change (encode_labels (l :: ls)) with (u8_of_nat (length l) :: l ++ encode_labels ls).
    cbn [app]. rewrite lookup_after, Hp, Hb.
    rewrite (proj2 (Nat.eqb_neq _ _)) by lia.
    replace (pre ++ u8_of_nat (length l) :: (l ++ encode_labels ls) ++ x00 :: post)
      with ((pre ++ [u8_of_nat (length l)] ++ l) ++ encode_labels ls ++ x00 :: post)
      by (rewrite <- !app_assoc; reflexivity).
    replace (length pre + length l + 1)
      with (length (pre ++ [u8_of_nat (length l)] ++ l))
      by (rewrite !length_app; cbn; lia).
    rewrite IH. f_equal. rewrite !length_app. cbn [length]. rewrite length_app. lia.
Qed.

(** The encoding has at least as many bytes as labels. *)
Lemma length_labels_le labels : length labels <= length (encode_labels labels).
Proof.
  unfold encode_labels. induction labels as [|l ls IH]; [reflexivity|].
  cbn [flat_map app length]. rewrite length_app. lia.
Qed.

Lemma read_query id q h post :
  validate_hostname h = true ->
  parse_name (query_bytes id q h ++ post) 12 = NameOk h
  /\ skip_name (query_bytes id q h ++ post) 12 = Some (length h + 14).
Proof.
  intros Hv. pose proof (validate_hostname_labels h Hv) as HF.
  pose proof (length_encode_split h) as He.
  pose proof (length_labels_le (splitScalar dot h)) as Hl.
  set (hd := be16 id ++ be16 0x0100 ++ be16 1 ++ be16 0 ++ be16 0 ++ be16 0).
  assert (E : query_bytes id q h ++ post
              = hd ++ encode_labels (splitScalar dot h) ++ x00
                   :: (be16 (intFromEnum q) ++ be16 1 ++ post))
    by (unfold query_bytes, hd; rewrite <- !app_assoc; reflexivity).
  change 12 with (length hd). rewrite E. split.
  - unfold parse_name, parse_name_fuel. rewrite parse_labels.
    + now rewrite join_from_split.
    + exact HF.
    + unfold max_pointers. rewrite !length_app. lia.
  - rewrite skip_labels by exact HF. f_equal. rewrite He. cbn. lia.
Qed.

(** C27: a query for a valid host name reads back: [build_query] fills the first
    [length hostname + 18] bytes of the slot and nothing else, the receiver's
    [parse_name] decodes exactly the host name from it, and [skip_name] lands on
    the question type and class, so the question section a response must echo is
    the one that was asked. *)
Theorem query_roundtrip (id : N) (payload : bytes) (q : QuestionType) (h : bytes)
    (Hv : validate_hostname h = true) (Hlen : length h + 18 <= length payload) :
  exists datagram n,
    build_query id payload q h = Some (datagram, n)
    /\ n = length h + 18
    /\ length datagram = length payload
    /\ drop n datagram = drop n payload
    /\ parse_name datagram 12 = NameOk h
    /\ skip_name datagram 12 = Some (n - 4)
    /\ slice datagram (n - 4) n = be16 (intFromEnum q) ++ be16 1.
Proof.
  pose proof (length_query_bytes id q h) as Hq.
  exists (query_bytes id q h ++ drop (length h + 18) payload), (length h + 18).
  destruct (read_query id q h (drop (length h + 18) payload) Hv) as [Hp Hs].
  split; [now apply build_query_spec|]. split; [reflexivity|].
  split; [rewrite length_app, length_drop; lia|].
  split; [rewrite <- Hq at 1; apply drop_app_length|].
  split; [exact Hp|]. split; [rewrite Hs; f_equal; lia|].
  unfold query_bytes in *. rewrite !app_assoc in *.
  match type of Hq with length ((?w ++ ?t) ++ ?c) = _ =>
    rewrite <- (app_assoc w t c) in *; set (tl := t ++ c) in *; set (hd := w) in *
  end.
  assert (Htl : length tl = 4) by reflexivity.
  rewrite length_app in Hq.
  replace (length h + 18 - 4) with (length hd) by lia.
  replace (length h + 18) with (length hd + length tl) by lia.
  rewrite <- app_assoc. apply slice_after.
Qed.

Lemma query_roundtrip_witness :
  exists datagram n,
    build_query 0x1234 (replicate 512 x00) q_ipv6 (localhost ++ dot :: localhost)
    = Some (datagram, n)
    /\ n = length (localhost ++ dot :: localhost) + 18
    /\ length datagram = length (replicate 512 x00)
    /\ drop n datagram = drop n (replicate 512 x00)
    /\ parse_name datagram 12 = NameOk (localhost ++ dot :: localhost)
    /\ skip_name datagram 12 = Some (n - 4)
    /\ slice datagram (n - 4) n = be16 (intFromEnum q_ipv6) ++ be16 1.
Proof.
  apply (query_roundtrip 0x1234 (replicate 512 x00) q_ipv6 (localhost ++ dot :: localhost));
    [vm_compute; reflexivity | rewrite length_replicate; cbn; lia].
Defined.

(** ** Where the names that are queried come from *)

Lemma split_on_app sep s1 c s2 :
  sep c = true -> split_on sep (s1 ++ c :: s2) = split_on sep s1 ++ split_on sep s2.
Proof.
  intros Hc. induction s1 as [|x s1 IH]; cbn; [now rewrite Hc|].
  rewrite IH. destruct (sep x); [reflexivity|].
  pose proof (split_on_nonempty sep s1). now destruct (split_on sep s1).
Qed.

Lemma validate_app a b :
  validate_hostname (a ++ dot :: b) = validate_hostname a && validate_hostname b.
Proof.
  unfold validate_hostname, splitScalar. rewrite split_on_app by reflexivity.
  apply forallb_app.
Qed.

Lemma validate_fmt_d b : validate_hostname (fmt_d b) = true.
Proof. destruct b; reflexivity. Qed.

Lemma validate_nibbles b rest :
  validate_hostname (fmt_nibbles b ++ rest) = validate_hostname rest
  /\ length (fmt_nibbles b) = 4.
Proof.
  split; [|destruct b; reflexivity]. unfold fmt_nibbles.
  rewrite <- !app_assoc. cbn [app]. rewrite !validate_app.
  destruct b; reflexivity.
Qed.

Lemma reverse_nibbles_spec ip out buf_len :
  length out + 4 * length ip <= buf_len ->
  exists text, reverse_nibbles ip buf_len out = Ok (out ++ text)
    /\ length text = 4 * length ip
    /\ forall rest, validate_hostname (text ++ rest) = validate_hostname rest.
Proof.
  revert out. induction ip as [|b ip IH]; intros out H.
  - exists []. cbn. now rewrite app_nil_r.
  - cbn [length] in H. cbn [reverse_nibbles]. unfold bufPrint.
    destruct (validate_nibbles b []) as [_ Hn]. rewrite Hn.
    rewrite (proj2 (Nat.leb_le _ _)) by lia. cbn [zig_bind].
    destruct (IH (out ++ fmt_nibbles b)) as (text & -> & Hl & Hv);
      [rewrite length_app; lia|].
    exists (fmt_nibbles b ++ text). rewrite <- app_assoc. split; [reflexivity|].
    split; [rewrite length_app; cbn [length]; lia|].
    intros rest. rewrite <- app_assoc. rewrite (proj1 (validate_nibbles b _)). apply Hv.
Qed.

(** Reverse lookups always have a name to ask for: for every IPv4 or IPv6
    address [build_reverse_name] succeeds in its 128-byte buffer with a valid
    host name of at most 73 characters, although that name is queried without
    going through [validate_hostname]; it therefore always fits a query. *)
Theorem reverse_name_valid (a : Address) (Hwf : address_wf a) :
  exists name, build_reverse_name a 128 = Ok name
    /\ validate_hostname name = true /\ length name <= 73.
Proof.
  destruct a as [|ip port|ip port]; cbn in Hwf; [destruct Hwf| |].
  - destruct ip as [|a [|b [|c [|d [|]]]]]; try discriminate Hwf.
    unfold build_reverse_name, bufPrint, fmt_quad.
    pose proof (fmt_d_nonempty a). pose proof (fmt_d_nonempty b).
    pose proof (fmt_d_nonempty c). pose proof (fmt_d_nonempty d).
    eexists. rewrite (proj2 (Nat.leb_le _ _))
      by (rewrite !length_app; cbn [length in_addr_arpa]; lia).
    split; [reflexivity|]. split; [|rewrite !length_app; cbn [length in_addr_arpa]; lia].
    rewrite <- !app_assoc. cbn [app]. rewrite !validate_app, !validate_fmt_d.
    reflexivity.
  - unfold build_reverse_name.
    destruct (reverse_nibbles_spec (rev ip) [] 128) as (text & -> & Hl & Hv);
      [rewrite length_rev; cbn [length]; lia|].
    rewrite length_rev in Hl. cbn [zig_bind app].
    unfold bufPrint. rewrite (proj2 (Nat.leb_le _ _)) by (rewrite Hl; cbn; lia).
    cbn [zig_bind]. eexists. split; [reflexivity|]. rewrite Hv.
    split; [reflexivity|]. rewrite length_app. cbn [length ip6_arpa]. lia.
Qed.

Lemma reverse_name_valid_witness :
  exists name, build_reverse_name (Ip4 [x08; x08; x04; x04] 0) 128 = Ok name
    /\ validate_hostname name = true /\ length name <= 73.
Proof. apply (reverse_name_valid (Ip4 [x08; x08; x04; x04] 0)). reflexivity. Defined.

Lemma build_hostname_valid h suffix c :
  build_hostname h suffix = Some c ->
  validate_hostname h = true -> (suffix = [] \/ validate_hostname suffix = true) ->
  validate_hostname (hn_hostname c) = true /\ length (hn_hostname c) <= 255
  /\ (length (hn_hostname c) <= 254 \/ suffix <> []).
Proof.
  unfold build_hostname. destruct (255 <? _) eqn:E; [discriminate|].
  apply Nat.ltb_ge in E. intros [= <-] Hh Hs. cbn [hn_hostname].
  destruct suffix as [|x suffix]; cbn [length Nat.ltb Nat.leb] in *.
  - repeat split; [exact Hh | lia | left; lia].
  - destruct Hs as [|Hs]; [discriminate|]. rewrite validate_app, Hh, Hs.
    rewrite length_app. cbn [length]. repeat split; [lia | now right].
Qed.

(** Every candidate of a lookup can be sent: for a valid host name and valid
    search domains each name [get_hostname_array] yields is itself a valid host
    name of at most 255 bytes, so [build_query] fills a 512-byte [QuerySlot]
    without overrunning it and the length fits its [u16]. *)
Theorem candidates_fit_slot (h : bytes) (suffixes : list bytes)
    (Hh : validate_hostname h = true)
    (Hs : Forall (fun s => validate_hostname s = true) suffixes) :
  Forall (fun c =>
    validate_hostname (hn_hostname c) = true
    /\ forall id q payload, length payload = 512 ->
       exists datagram n, build_query id payload q (hn_hostname c) = Some (datagram, n)
         /\ n <= 273 /\ length datagram = 512)
    (get_hostname_array h suffixes).
Proof.
  assert (Hc : forall s c, build_hostname h s = Some c ->
                 s = [] \/ validate_hostname s = true ->
                 validate_hostname (hn_hostname c) = true
                 /\ forall id q payload, length payload = 512 ->
                    exists datagram n,
                      build_query id payload q (hn_hostname c) = Some (datagram, n)
                      /\ n <= 273 /\ length datagram = 512).
  { intros s c Hb Hs'. destruct (build_hostname_valid h s c Hb Hh Hs') as (Hv & Hl & _).
    split; [exact Hv|]. intros id q payload Hp.
    rewrite build_query_spec by (try exact Hv; lia).
    do 2 eexists. split; [reflexivity|]. split; [lia|].
    rewrite length_app, length_query_bytes, length_drop. lia. }
  unfold get_hostname_array. rewrite Forall_forall. intros c Hin.
  rewrite Forall_forall in Hs.
  destruct (existsb _ h);
    [|apply elem_of_app in Hin as [Hin|Hin]];
    apply list_elem_of_omap in Hin as (s & Hin & Hb);
    (apply (Hc s c Hb)); [left | right; now apply Hs | left];
    apply list_elem_of_singleton in Hin; exact Hin.
Qed.

Lemma candidates_fit_slot_witness :
  Forall (fun c =>
    validate_hostname (hn_hostname c) = true
    /\ forall id q payload, length payload = 512 ->
       exists datagram n, build_query id payload q (hn_hostname c) = Some (datagram, n)
         /\ n <= 273 /\ length datagram = 512)
    (get_hostname_array localhost [localhost; search_word]).
Proof.
  apply (candidates_fit_slot localhost [localhost; search_word]);
    [vm_compute; reflexivity|].
  repeat constructor.
Defined.

(** A dotless name always has a candidate, the bare name, whatever the search
    list holds. *)
Lemma bare_name_tried h suffixes :
  length h <= 254 -> existsb (Byte.eqb dot) h = false ->
  last (get_hostname_array h suffixes) = Some (MkHostname h (length h)).
Proof.
  intros Hl Hd. unfold get_hostname_array. rewrite Hd.
  cbn [omap list_omap]. unfold build_hostname at 2. cbn [length Nat.ltb].
  rewrite (proj2 (Nat.ltb_ge 255 _)) by lia. apply last_snoc.
Qed.

(** ** The resolver configuration *)

Definition search_domain_wf (s : bytes) : Prop :=
  validate_hostname s = true /\ length s <= 255 /\ lowerString s = s.

Definition configuration_wf (c : Configuration) : Prop :=
  Forall (fun a => address_wf a /\ address_port a = Some 53%N) (servers c)
  /\ Forall search_domain_wf (search c).

Lemma to_lower_idem c : to_lower (to_lower c) = to_lower c.
Proof. destruct c; reflexivity. Qed.

Lemma lowerString_idem s : lowerString (lowerString s) = lowerString s.
Proof. unfold lowerString. rewrite map_map. apply map_ext, to_lower_idem. Qed.

Lemma parse_search_wf words hosts hosts' :
  parse_search words hosts = Ok hosts' ->
  Forall search_domain_wf hosts -> Forall search_domain_wf hosts'.
Proof.
  revert hosts. induction words as [|w ws IH]; intros hosts; cbn [parse_search].
  - intros [= <-]. auto.
  - destruct (starts_comment w); [intros [= <-]; auto|].
    destruct (255 <? length w) eqn:El; [discriminate|]. apply Nat.ltb_ge in El.
    destruct (bool_decide _); [apply IH|].
    destruct (validate_hostname (lowerString w)) eqn:Ev; cbn [negb]; [|discriminate].
    intros H Hg. apply (IH _ H). apply Forall_app. split; [exact Hg|].
    apply Forall_singleton. split; [exact Ev|].
    split; [unfold lowerString; rewrite length_map; exact El | apply lowerString_idem].
Qed.

Lemma parse_line_wf line c c' :
  parse_line line c = Ok c' -> configuration_wf c -> configuration_wf c'.
Proof.
  unfold parse_line. intros H [Hsv Hse].
  destruct (tokenizeAny _ line) as [|w ws]; [injection H as <-; now split|].
  destruct (starts_comment w); [injection H as <-; now split|].
  destruct (bool_decide _).
  - destruct ws as [|ip ws]; [discriminate|].
    apply zig_bind_Ok in H as (a & Ha & [= <-]). split; cbn; [|exact Hse].
    apply Forall_app. split; [exact Hsv|]. apply Forall_singleton.
    now apply parseIp_wf_lemma in Ha.
  - destruct (bool_decide _); [|injection H as <-; now split].
    apply zig_bind_Ok in H as (hosts & Hh & [= <-]). split; cbn; [exact Hsv|].
    now apply (parse_search_wf _ _ _ Hh).
Qed.

Lemma parse_lines_wf lines c c' :
  parse_lines lines c = Ok c' -> configuration_wf c -> configuration_wf c'.
Proof.
  revert c. induction lines as [|l ls IH]; intros c; cbn [parse_lines].
  - intros [= <-]. auto.
  - intros (c1 & H1 & H2)%zig_bind_Ok Hc. apply (IH _ H2). now apply (parse_line_wf _ _ _ H1).
Qed.

(** A configuration the resolver accepts is usable whatever
    [/etc/resolv.conf] holds: there is at least one server, every server is a
    complete address with port 53, and every search domain is a valid lower-case
    host name, which is what the query builder relies on. *)
Theorem resolv_configuration_usable (content : bytes) (c : Configuration)
    (H : parse_resolv_configuration content = Ok c) :
  servers c <> [] /\ configuration_wf c.
Proof.
  apply zig_bind_Ok in H as (c0 & H0 & H).
  assert (Hw : configuration_wf c0)
    by (apply (parse_lines_wf _ _ _ H0); split; constructor).
  destruct (servers c0) as [|s ss] eqn:E; cbn [length Nat.eqb] in H.
  - apply zig_bind_Ok in H as (a & Ha & [= <-]). split; [discriminate|].
    split; cbn; [|apply Hw]. apply Forall_singleton. now apply parseIp_wf_lemma in Ha.
  - injection H as <-. split; [rewrite E; discriminate | exact Hw].
Qed.

Lemma resolv_configuration_usable_witness :
  exists c, parse_resolv_configuration (search_word ++ [x20; x41; x2e; x62; x0a]) = Ok c
            /\ (servers c <> [] /\ configuration_wf c).
Proof.
  eexists. split; [vm_compute; reflexivity|].
  apply (resolv_configuration_usable (search_word ++ [x20; x41; x2e; x62; x0a])).
  vm_compute. reflexivity.
Defined.
