(* ===== verification/Eyeballs.v ===== *)
(** * Connection attempts

    src/src/loop/python/io/client/create_connection/interleave.zig and
    connect.zig: the order in which the addresses of a host are tried, and the
    state machine that races the attempts ("happy eyeballs") - the first address
    at once, the others when a timer fires -, settles the future of
    [create_connection] and tears everything down.

    The handlers run on a record of what they touch: the [MultiConnectState], the
    connection data, the future, the descriptors and the io_uring operations in
    flight.  [None] is a fault: a use of freed memory, a second free, a close of a
    descriptor that is not open, a cancellation that names an operation that is
    not in flight (its slot may belong to somebody else), or the panic of a checked
    build.  Descriptors and task numbers are fresh; memory does not run out. *)

From S2P Require Import Prelude IpAddress.
From Stdlib Require Import Strings.Byte NArith QArith Qabs Lia.
From stdpp Require Import base numbers relations list gmap strings.

Open Scope nat_scope.

(** ** The order of the addresses *)

Definition is_inet (a : Address) : bool := match a with Ip4 _ _ => true | _ => false end.
Definition is_inet6 (a : Address) : bool := match a with Ip6 _ _ => true | _ => false end.

Section Interleave.
(** Whether the build checks arithmetic (Debug and ReleaseSafe do). *)
Variable checked : bool.

(** [a - b] on [usize]; [None] is the panic. *)
Definition sub_usize (a b : N) : option N :=
  if (b <=? a)%N then Some (a - b)%N
  else if checked then None else Some (2 ^ 64 + a - b)%N.

(** The first loop: the halves of [tmp_list]. *)
Fixpoint split_families (l : list Address) : zig (list Address * list Address) :=
  match l with
  | [] => Ok ([], [])
  | a :: l' =>
      match a with
      | NoAddress => Err Unreached
      | Ip4 _ _ => let! (v4, v6) := split_families l' in Ok (a :: v4, v6)
      | Ip6 _ _ => let! (v4, v6) := split_families l' in Ok (v4, a :: v6)
      end
  end.

(** The second loop, over the slots of [address_list]. *)
Fixpoint interleave_loop (v4 v6 slots : list Address) (i4 i6 : nat) (count interleave : N)
    : option (list Address) :=
  match slots with
  | [] => Some []
  | _ :: rest =>
      if ((count =? 0)%N || (length v6 <=? i6)) && (i4 <? length v4) then
        a ← v4 !! i4;
        l ← interleave_loop v4 v6 rest (S i4) i6 interleave interleave;
        Some (a :: l)
      else if i6 <? length v6 then
        a ← v6 !! i6;
        count ← sub_usize count 1;
        l ← interleave_loop v4 v6 rest i4 (S i6) count interleave;
        Some (a :: l)
      else if i4 <? length v4 then
        a ← v4 !! i4;
        l ← interleave_loop v4 v6 rest (S i4) i6 count interleave;
        Some (a :: l)
      else Some slots
  end.

Definition interleave_address_list (l : list Address) (interleave : N)
    : option (zig (list Address)) :=
  match split_families l with
  | Err e => Some (Err e)
  | Ok (v4, v6) =>
      if (length v6 =? 0) || (length v4 =? 0) then Some (Ok l)
      else Ok <$> interleave_loop v4 v6 l 0 0 interleave interleave
  end.
End Interleave.

(** The reference: rounds of at most [k] IPv6 addresses and one IPv4 address. *)
Fixpoint weave_from (c k : nat) (v4 v6 : list Address) : list Address :=
  match v4 with
  | [] => v6
  | a :: v4' => take c v6 ++ a :: weave_from k k v4' (drop c v6)
  end.

Definition weave (k : nat) (l : list Address) : list Address :=
  let v4 := filter is_inet l in
  let v6 := filter is_inet6 l in
  if (length v6 =? 0) || (length v4 =? 0) then l else weave_from k k v4 v6.

Definition socket_address (a : Address) : Prop := a <> NoAddress.

(** The IPv4 and the IPv6 addresses of a list. *)
Lemma filter_inet a l :
  socket_address a ->
  filter is_inet (a :: l) = (if is_inet a then [a] else []) ++ filter is_inet l
  /\ filter is_inet6 (a :: l) = (if is_inet a then [] else [a]) ++ filter is_inet6 l.
Proof.
  intros Ha. rewrite !filter_cons.
  destruct a as [|ip p|ip p]; [now destruct Ha | |]; split; reflexivity.
Qed.

Lemma split_families_spec l :
  Forall socket_address l -> split_families l = Ok (filter is_inet l, filter is_inet6 l).
Proof.
  induction 1 as [|a l Ha _ IH]; [reflexivity|]. cbn [split_families]. rewrite IH.
  destruct (filter_inet a l Ha) as [-> ->].
  destruct a as [|ip p|ip p]; [now destruct Ha | |]; reflexivity.
Qed.

Lemma families_length l :
  Forall socket_address l -> length (filter is_inet l) + length (filter is_inet6 l) = length l.
Proof.
  induction 1 as [|a l Ha _ IH]; [reflexivity|]. destruct (filter_inet a l Ha) as [-> ->].
  rewrite !length_app. destruct (is_inet a); cbn [length]; lia.
Qed.

(** Whether the loop panics: IPv6 addresses are left when the counter of the
    round after the last IPv4 address is spent. *)
Definition overflows (c k n4 n6 : nat) : bool := c + k * n4 <? n6.

(** When the IPv4 addresses are used up the rest is copied. *)
Lemma interleave_loop_v6 checked v4 v6 k : forall slots i4 i6 c,
  length v4 <= i4 -> i6 <= length v6 -> length slots = length v6 - i6 ->
  interleave_loop checked v4 v6 slots i4 i6 c k
  = if checked && (c <? N.of_nat (length v6 - i6))%N then None else Some (drop i6 v6).
Proof.
  induction slots as [|s slots IH]; intros i4 i6 c H4 H6 Hl; cbn [interleave_loop length] in *.
  - rewrite (proj2 (N.ltb_ge _ _)) by lia. rewrite andb_false_r, drop_ge by lia. reflexivity.
  - rewrite (proj2 (Nat.ltb_ge i4 (length v4))) by lia. rewrite andb_false_r.
    rewrite (proj2 (Nat.ltb_lt i6 (length v6))) by lia.
    destruct (lookup_lt_is_Some_2 v6 i6) as [a Ha]; [lia|]. rewrite Ha. cbn [mbind option_bind].
    rewrite (drop_S v6 a i6 Ha). unfold sub_usize.
    destruct (N.leb_spec 1 c) as [Hc|Hc]; [|destruct checked; cbn [mbind option_bind andb]].
    + cbn [mbind option_bind]. rewrite IH by lia.
      replace (c - 1 <? N.of_nat (length v6 - S i6))%N with (c <? N.of_nat (length v6 - i6))%N.
      * destruct (checked && _); reflexivity.
      * destruct (N.ltb_spec c (N.of_nat (length v6 - i6)));
          destruct (N.ltb_spec (c - 1) (N.of_nat (length v6 - S i6))); lia.
    + rewrite (proj2 (N.ltb_lt _ _)) by lia. reflexivity.
    + rewrite IH by lia. reflexivity.
Qed.

Lemma interleave_loop_spec checked v4 v6 k : forall slots i4 i6 c,
  k <> 0 -> i4 <= length v4 -> i6 <= length v6 ->
  length slots = (length v4 - i4) + (length v6 - i6) ->
  interleave_loop checked v4 v6 slots i4 i6 (N.of_nat c) (N.of_nat k)
  = if checked && overflows c k (length v4 - i4) (length v6 - i6) then None
    else Some (weave_from c k (drop i4 v4) (drop i6 v6)).
Proof.
  induction slots as [|s slots IH]; intros i4 i6 c Hk H4 H6 Hl; cbn [length] in Hl.
  - rewrite !drop_ge by lia. unfold overflows. rewrite (proj2 (Nat.ltb_ge _ _)) by lia.
    rewrite andb_false_r. reflexivity.
  - destruct (decide (i4 = length v4)) as [->|Hne].
    { rewrite interleave_loop_v6 by (cbn [length]; lia). rewrite (drop_ge v4) by lia.
      unfold overflows. cbn [weave_from].
      replace (N.of_nat c <? N.of_nat (length v6 - i6))%N
        with (c + k * (length v4 - length v4) <? length v6 - i6); [reflexivity|].
      destruct (Nat.ltb_spec (c + k * (length v4 - length v4)) (length v6 - i6));
        destruct (N.ltb_spec (N.of_nat c) (N.of_nat (length v6 - i6))); lia. }
    cbn [interleave_loop]. rewrite (proj2 (Nat.ltb_lt i4 (length v4))) by lia. rewrite andb_true_r.
    destruct (lookup_lt_is_Some_2 v4 i4) as [a Ha]; [lia|]. rewrite Ha.
    rewrite (drop_S v4 a i4 Ha). cbn [weave_from].
    destruct ((N.of_nat c =? 0)%N || (length v6 <=? i6)) eqn:E.
    + cbn [mbind option_bind]. rewrite IH by lia.
      assert (Hd : c = 0 \/ drop i6 v6 = []).
      { apply orb_true_iff in E as [E|E]; [left; apply N.eqb_eq in E; lia|].
        right. apply Nat.leb_le in E. apply drop_ge. lia. }
      assert (Ho : overflows k k (length v4 - S i4) (length v6 - i6)
                 = overflows c k (length v4 - i4) (length v6 - i6)).
      { unfold overflows. apply orb_true_iff in E as [E|E].
        - apply N.eqb_eq in E. f_equal. replace c with 0 by lia.
          replace (length v4 - i4) with (S (length v4 - S i4)) by lia. lia.
        - apply Nat.leb_le in E. replace (length v6 - i6) with 0 by lia. reflexivity. }
      rewrite Ho. destruct (checked && _); [reflexivity|]. cbn [mbind option_bind].
      destruct Hd as [-> | ->]; [reflexivity|]. now rewrite take_nil, drop_nil.
    + apply orb_false_iff in E as [E1 E2]. apply N.eqb_neq in E1. apply Nat.leb_gt in E2.
      rewrite (proj2 (Nat.ltb_lt i6 (length v6))) by lia.
      destruct (lookup_lt_is_Some_2 v6 i6) as [b Hb]; [lia|]. rewrite Hb. cbn [mbind option_bind].
      unfold sub_usize. rewrite (proj2 (N.leb_le 1 (N.of_nat c))) by lia. cbn [mbind option_bind].
      replace (N.of_nat c - 1)%N with (N.of_nat (c - 1)) by lia. rewrite IH by lia.
      assert (Ho : overflows (c - 1) k (length v4 - i4) (length v6 - S i6)
                 = overflows c k (length v4 - i4) (length v6 - i6)).
      { unfold overflows. destruct (Nat.ltb_spec (c - 1 + k * (length v4 - i4)) (length v6 - S i6));
          destruct (Nat.ltb_spec (c + k * (length v4 - i4)) (length v6 - i6)); lia. }
      rewrite Ho. destruct (checked && _); [reflexivity|]. cbn [mbind option_bind].
      rewrite (drop_S v4 a i4 Ha), (drop_S v6 b i6 Hb). cbn [weave_from].
      destruct c as [|c']; [lia|]. cbn [take drop Nat.sub]. rewrite Nat.sub_0_r. reflexivity.
Qed.

(** The rounds lose no address and keep the order of each family. *)
Lemma filter_all {A} (P : A -> Prop) `{forall x, Decision (P x)} (l : list A) :
  Forall P l -> filter P l = l.
Proof.
  induction 1 as [|x l Hx _ IH]; [reflexivity|]. rewrite filter_cons_True by exact Hx. now rewrite IH.
Qed.

Lemma filter_nobody {A} (P : A -> Prop) `{forall x, Decision (P x)} (l : list A) :
  Forall (fun x => ~ P x) l -> filter P l = [].
Proof.
  induction 1 as [|x l Hx _ IH]; [reflexivity|]. now rewrite filter_cons_False by exact Hx.
Qed.

Lemma weave_from_filter (P : Address -> Prop) `{forall x, Decision (P x)} k v4 : forall c v6,
  (Forall P v4 /\ Forall (fun x => ~ P x) v6 -> filter P (weave_from c k v4 v6) = v4)
  /\ (Forall P v6 /\ Forall (fun x => ~ P x) v4 -> filter P (weave_from c k v4 v6) = v6).
Proof.
  induction v4 as [|a v4 IH]; intros c v6; cbn [weave_from].
  - split; intros [H1 H2]; [now apply filter_nobody | now apply filter_all].
  - specialize (IH k (drop c v6)). destruct IH as [IH1 IH2].
    split; intros [H1 H2]; rewrite filter_app.
    + inversion_clear H1 as [|? ? Ha H4]. rewrite filter_nobody by now apply Forall_take.
      rewrite filter_cons_True by exact Ha. cbn [app]. f_equal. apply IH1. split; [exact H4|].
      now apply Forall_drop.
    + inversion_clear H2 as [|? ? Ha H4]. rewrite filter_all by now apply Forall_take.
      rewrite filter_cons_False by exact Ha. rewrite IH2 by (split; [now apply Forall_drop | exact H4]).
      apply take_drop.
Qed.

Lemma weave_from_perm k v4 : forall c v6, weave_from c k v4 v6 ≡ₚ v4 ++ v6.
Proof.
  induction v4 as [|a v4 IH]; intros c v6; cbn [weave_from]; [reflexivity|].
  rewrite IH, <- Permutation_middle. cbn [app]. f_equiv.
  rewrite (Permutation_app_comm v4), app_assoc, take_drop. apply Permutation_app_comm.
Qed.

Lemma families_perm l : Forall socket_address l -> filter is_inet l ++ filter is_inet6 l ≡ₚ l.
Proof.
  induction 1 as [|a l Ha _ IH]; [reflexivity|]. destruct (filter_inet a l Ha) as [-> ->].
  destruct (is_inet a); cbn [app].
  - now rewrite IH.
  - rewrite <- Permutation_middle. now rewrite IH.
Qed.

Lemma weave_perm k l : Forall socket_address l -> weave k l ≡ₚ l.
Proof.
  intros Hl. unfold weave. destruct (_ || _); [reflexivity|].
  rewrite weave_from_perm. now apply families_perm.
Qed.

Lemma weave_families k l :
  Forall socket_address l ->
  filter is_inet (weave k l) = filter is_inet l /\ filter is_inet6 (weave k l) = filter is_inet6 l.
Proof.
  intros Hl. unfold weave. destruct (_ || _); [auto|].
  assert (H4 : Forall (fun a => Is_true (is_inet a)) (filter is_inet l)
             /\ Forall (fun a => ~ Is_true (is_inet a)) (filter is_inet6 l)).
  { split; apply Forall_forall; intros a Ha; apply list_elem_of_filter in Ha as [Ha _]; [exact Ha|].
    destruct a; auto. }
  assert (H6 : Forall (fun a => Is_true (is_inet6 a)) (filter is_inet6 l)
             /\ Forall (fun a => ~ Is_true (is_inet6 a)) (filter is_inet l)).
  { split; apply Forall_forall; intros a Ha; apply list_elem_of_filter in Ha as [Ha _]; [exact Ha|].
    destruct a; auto. }
  split; [now apply weave_from_filter | now apply weave_from_filter].
Qed.

Lemma interleave_spec checked (l : list Address) (k : nat) :
  k <> 0 -> Forall socket_address l ->
  interleave_address_list checked l (N.of_nat k)
  = (if checked && negb (length (filter is_inet l) =? 0)
        && (k * S (length (filter is_inet l)) <? length (filter is_inet6 l))
     then None
     else Some (Ok (weave k l))).
Proof.
  intros Hk Hl.
  unfold interleave_address_list, weave. rewrite split_families_spec by exact Hl.
  pose proof (families_length l Hl) as Hlen.
  set (v4 := filter is_inet l) in *. set (v6 := filter is_inet6 l) in *.
  destruct (Nat.eqb_spec (length v4) 0) as [E4|E4]; [rewrite orb_true_r, andb_false_r; reflexivity|].
  destruct (Nat.eqb_spec (length v6) 0) as [E6|E6]; cbn [orb negb].
  - rewrite (proj2 (Nat.ltb_ge _ _)) by lia. rewrite andb_false_r. reflexivity.
  - rewrite interleave_loop_spec by lia. rewrite !Nat.sub_0_r, andb_true_r.
    unfold overflows. replace (k + k * length v4) with (k * S (length v4)) by lia.
    destruct (checked && _); reflexivity.
Qed.

(** Interleaving a list of addresses gives rounds of at most [k] IPv6
    addresses followed by one IPv4 address, then what is left; no address is lost
    or repeated and each family keeps its order; a list of one family stays as it
    is.  In a checked build the code panics instead - [usize] is decremented below
    zero - when more than [k] IPv6 addresses are left after the last IPv4 address,
    and only then. *)
Theorem interleave_weaves checked (l : list Address) (k : nat) :
  k <> 0 -> Forall socket_address l ->
  interleave_address_list checked l (N.of_nat k)
  = (if checked && negb (length (filter is_inet l) =? 0)
        && (k * S (length (filter is_inet l)) <? length (filter is_inet6 l))
     then None
     else Some (Ok (weave k l)))
  /\ weave k l ≡ₚ l
  /\ filter is_inet (weave k l) = filter is_inet l
  /\ filter is_inet6 (weave k l) = filter is_inet6 l.
Proof.
  intros Hk Hl. split; [now apply interleave_spec|].
  split; [now apply weave_perm | now apply weave_families].
Qed.

Definition a4 (n : N) : Address := Ip4 [] n.
Definition a6 (n : N) : Address := Ip6 [] n.

Lemma interleave_weaves_witness :
  interleave_address_list false [a4 0; a6 1; a6 2; a6 3; a6 4] 1
  = Some (Ok [a6 1; a4 0; a6 2; a6 3; a6 4]).
Proof.
  destruct (interleave_weaves false [a4 0; a6 1; a6 2; a6 3; a6 4] 1) as [H _];
    [lia | repeat constructor; discriminate |].
  change (N.of_nat 1) with 1%N in H. rewrite H. vm_compute. reflexivity.
Defined.

(** The list of the repository's own test of the loop (BUG-212): the default
    build, which checks arithmetic, panics on it. *)
Lemma interleave_panics_in_debug :
  interleave_address_list true [a4 0; a6 1; a6 2; a6 3; a6 4] 1 = None.
Proof. vm_compute. reflexivity. Qed.

(** ** The attempts *)

(** What the future of [create_connection] is settled with. *)
Inductive settled : Type :=
| SConnected (fd : nat) (a : Address)        (* (transport, protocol) *)
| SConnectFailed (errno : Z)                 (* OSError *)
| SGroup (errnos : list Z)                   (* ExceptionGroup *)
| SSubmitFailed                              (* socket() or the submission *)
| STransportFailed                           (* the factory or connection_made raised *)
| SRaised (message : string)
| SArgument.                                 (* an argument could not be converted *)

Inductive fut_state : Type := FPending | FCancelled | FSettled (r : settled).

Inductive fd_state : Type := FdOpen | FdClosed | FdTransport.

#[export] Instance settled_eq_dec : EqDecision settled.
Proof. solve_decision. Defined.
#[export] Instance fut_state_eq_dec : EqDecision fut_state.
Proof. solve_decision. Defined.
#[export] Instance fd_state_eq_dec : EqDecision fd_state.
Proof. solve_decision. Defined.

(** A connect in flight: its task, its descriptor ([SocketData]), its address. *)
Record connect_op := ConnectOp { op_task : nat; op_fd : nat; op_addr : Address }.

Record MultiConnectState := MkMcs {
  pending : nat;
  succeeded : bool;
  timer_scheduled : bool;
  timer_fired : bool;
  happy_timer_id : option nat;
  aborted : bool;
  failed_count : nat;
  task_ids : list nat;
  all_errors : bool;
  exceptions : list Z }.

#[export] Instance mcs_eta : Eta MultiConnectState := fun s =>
  MkMcs (pending s) (succeeded s) (timer_scheduled s) (timer_fired s) (happy_timer_id s)
    (aborted s) (failed_count s) (task_ids s) (all_errors s) (exceptions s).

(** [w_mcs] and [w_data] are [None] before they are allocated and after they are
    freed; [w_data] is [connection_data.address_list].  [w_held]: somebody besides
    [creation_data] keeps the future alive. *)
Record world := World {
  w_mcs : option MultiConnectState;
  w_data : option (list Address);
  w_future : fut_state;
  w_held : bool;
  w_fds : gmap nat fd_state;
  w_ops : list connect_op;
  w_timer : option nat;
  w_next : nat;                    (* the next fresh descriptor and task *)
  w_tried : list Address;          (* the sockets asked for *)
  w_cancels : list nat }.          (* CancelIO requests *)

#[export] Instance world_eta : Eta world := fun w =>
  World (w_mcs w) (w_data w) (w_future w) (w_held w) (w_fds w) (w_ops w) (w_timer w)
    (w_next w) (w_tried w) (w_cancels w).

(** A value a C-API call makes of an argument. *)
Inductive conv (A : Type) : Type := Converts (a : A) | ConvRaises.
Arguments Converts {A} a.
Arguments ConvRaises {A}.

Inductive py_float : Type := NotFinite | Finite (q : Q).

Record arguments := Arguments_ {
  a_interleave : option (conv N);
  a_all_errors : option (conv bool);
  a_delay : option (conv py_float);
  a_port : option (conv Z) }.

(** What becomes of the transport of the connection that won: the factory or the
    constructor raises, [connection_made] raises, or all goes well. *)
Inductive transport_result : Type := TrRaises | TrMadeRaises | TrMade.

Section Attempts.
Variable checked : bool.

(** The answers of the system, by the number of the call: [socket()] gives an
    errno or a descriptor, [IO.queue] fails or takes the operation. *)
Variable socket_errno : nat -> option Z.
Variable queue_ok : nat -> bool.

Implicit Types (w : world) (s : MultiConnectState).

(** *** Resources *)

Definition close_fd (fd : nat) w : option world :=
  if decide (w_fds w !! fd = Some FdOpen)
  then Some (w <| w_fds := <[fd := FdClosed]> (w_fds w) |>)
  else None.

Definition in_flight (id : nat) w : bool :=
  bool_decide (id ∈ map op_task (w_ops w) \/ w_timer w = Some id).

(** [IO.queue(.CancelIO)]; a failure is only logged. *)
Definition cancel_io (id : nat) w : option world :=
  if in_flight id w then Some (w <| w_cancels := w_cancels w ++ [id] |>) else None.

Fixpoint cancel_tasks (ids : list nat) w : option world :=
  match ids with
  | [] => Some w
  | id :: ids' => w ← cancel_io id w; cancel_tasks ids' w
  end.

Definition cancel_timer (id : option nat) w : option world :=
  match id with Some id => cancel_io id w | None => Some w end.

(** [SocketConnectionData.deinit]. *)
Definition free_data w : option world :=
  _ ← w_data w; Some (w <| w_data := None |>).

(** [MultiConnectState.deinit]. *)
Definition deinit w : option world :=
  s ← w_mcs w;
  w ← cancel_tasks (task_ids s) w;
  w ← cancel_timer (happy_timer_id s) w;
  free_data (w <| w_mcs := None |>).

Definition upd (f : MultiConnectState -> MultiConnectState) w : option world :=
  s ← w_mcs w; Some (w <| w_mcs := Some (f s) |>).

(** A use of the future: [creation_data] or somebody else keeps it alive.  It is
    settled only while it is pending. *)
Definition settle (r : settled) w : option world :=
  if w_held w || match w_data w with Some _ => true | None => false end then
    match w_future w with
    | FPending => Some (w <| w_future := FSettled r |>)
    | _ => Some w
    end
  else None.

(** *** Submitting *)

(** [create_socket_and_submit_connect_req]; the task, or [None] for an error. *)
Definition create_socket_and_submit_connect_req (a : Address) w : option (world * option nat) :=
  let n := w_next w in
  let w := w <| w_next := S n |> <| w_tried := w_tried w ++ [a] |> in
  match socket_errno n with
  | Some _ => Some (w, None)
  | None =>
      let w := w <| w_fds := <[n := FdOpen]> (w_fds w) |> in
      if queue_ok n then Some (w <| w_ops := w_ops w ++ [ConnectOp n n a] |>, Some n)
      else w ← close_fd n w; Some (w, None)
  end.

Definition submit_connect_for_address (a : Address) w : option (world * bool) :=
  '(w, r) ← create_socket_and_submit_connect_req a w;
  match r with
  | None => Some (w, false)
  | Some id =>
      w ← upd (fun s => s <| task_ids := task_ids s ++ [id] |>
                          <| pending := S (pending s) |>) w;
      Some (w, true)
  end.

(** The loop over the remaining addresses, up to the first error. *)
Fixpoint submit_all (l : list Address) w : option (world * bool) :=
  match l with
  | [] => Some (w, true)
  | a :: l' =>
      '(w, ok) ← submit_connect_for_address a w;
      if ok : bool then submit_all l' w else Some (w, false)
  end.

(** The round is given up while connects are in flight: their completions only
    close and count down. *)
Definition abort_round w : option world :=
  w ← upd (fun s => s <| aborted := true |>) w;
  s ← w_mcs w;
  cancel_tasks (task_ids s) w.

(** *** [schedule_remaining_connects_callback]; [cancelled]: the loop is being
    torn down. *)
Definition schedule_remaining_connects_callback (cancelled : bool) w : option world :=
  w ← upd (fun s => s <| happy_timer_id := None |>) w;
  s ← w_mcs w;
  if cancelled || succeeded s then
    if pending s =? 0 then deinit w else Some w
  else
    w ← upd (fun s => s <| timer_fired := true |> <| timer_scheduled := false |>) w;
    addresses ← w_data w;
    '(w, ok) ← submit_all (drop 1 addresses) w;
    if ok : bool then Some w
    else
      w ← settle SSubmitFailed w;
      w ← abort_round w;
      s ← w_mcs w;
      if pending s =? 0 then deinit w else Some w.

(** *** [z_create_socket_connection] *)

Definition set_port (p : N) (a : Address) : Address :=
  match a with Ip4 ip _ => Ip4 ip p | Ip6 ip _ => Ip6 ip p | NoAddress => NoAddress end.

Definition float_eps : Q := 1 # (2 ^ 52)%positive.

Definition delay_of (f : py_float) : Q :=
  match f with
  | NotFinite => 0
  | Finite q =>
      if negb (Qle_bool 0 q) then 0
      else if negb (Qle_bool float_eps (Qabs (q + 1))) then 0 else q
  end.

Definition init_mcs (all : bool) : MultiConnectState :=
  MkMcs 0 false false false None false 0 [] all [].

(** The [errdefer] of the function: what was started is torn down or given up. *)
Definition abandon w : option world :=
  s ← w_mcs w; if pending s =? 0 then deinit w else abort_round w.

(** From the port on; [Some r] is an error. *)
Definition start_attempts (args : arguments) (delay : Q) (addresses : list Address) w
    : option (world * option settled) :=
  match addresses with
  | [] =>
      w ← settle (SRaised "No addresses resolved") w;
      w ← deinit w;
      Some (w, None)
  | _ =>
      match a_port args with
      | Some ConvRaises => Some (w, Some SArgument)
      | p =>
          let v := match p with Some (Converts v) => v | _ => 0%Z end in
          if (v <? 0)%Z || (65535 <? v)%Z then Some (w, Some (SRaised "port must be 0-65535"))
          else
            let addresses := map (set_port (Z.to_N v)) addresses in
            let w := w <| w_data := Some addresses |> in
            match addresses with
            | [] => Some (w, None)
            | first :: rest =>
                '(w, ok) ← submit_connect_for_address first w;
                if negb ok then Some (w, Some SSubmitFailed)
                else if negb (length rest =? 0) && negb (Qle_bool delay 0) then
                  let n := w_next w in
                  let w := w <| w_next := S n |> in
                  if queue_ok n then
                    w ← upd (fun s => s <| happy_timer_id := Some n |> <| timer_scheduled := true |>)
                          (w <| w_timer := Some n |>);
                    Some (w, None)
                  else Some (w, Some SSubmitFailed)
                else
                  '(w, ok) ← submit_all rest w;
                  Some (w, if ok : bool then None else Some SSubmitFailed)
            end
      end
  end.

(** From [delay] on. *)
Definition delayed_attempts (args : arguments) (interleave : N) (addresses : list Address) w
    : option (world * option settled) :=
  match a_delay args with
  | None => start_attempts args (1 # 4) addresses w
  | Some d =>
      r ← (if (interleave =? 0)%N then interleave_address_list checked addresses 1
           else Some (Ok addresses));
      match r with
      | Err _ => Some (w, Some (SRaised "InvalidOperation"))
      | Ok addresses =>
          let w := w <| w_data := Some addresses |> in
          match d with
          | ConvRaises => Some (w, Some SArgument)
          | Converts f => start_attempts args (delay_of f) addresses w
          end
      end
  end.

(** From the first [interleave_address_list] on. *)
Definition interleaved_attempts (args : arguments) (interleave : N) (addresses : list Address) w
    : option (world * option settled) :=
  r ← (if (0 <? interleave)%N then interleave_address_list checked addresses interleave
       else Some (Ok addresses));
  match r with
  | Err _ => Some (w, Some (SRaised "InvalidOperation"))
  | Ok addresses =>
      let w := w <| w_data := Some addresses |> in
      match a_all_errors args with
      | Some ConvRaises => Some (w, Some SArgument)
      | b =>
          let all := match b with Some (Converts v) => v | _ => false end in
          '(w, e) ← delayed_attempts args interleave addresses (w <| w_mcs := Some (init_mcs all) |>);
          match e with
          | None => Some (w, None)
          | Some e => w ← abandon w; Some (w, Some e)
          end
      end
  end.

Definition z_create_socket_connection (args : arguments) w : option (world * option settled) :=
  addresses ← w_data w;
  match a_interleave args with
  | Some ConvRaises => Some (w, Some SArgument)
  | Some (Converts v) => interleaved_attempts args v addresses w
  | None => interleaved_attempts args 0 addresses w
  end.

Definition create_socket_connection (cancelled : bool) (args : arguments) w : option world :=
  if cancelled then
    w ← free_data w; settle (SRaised "Event for socket creation cancelled") w
  else
    '(w, e) ← z_create_socket_connection args w;
    match e with None => Some w | Some e => settle e w end.

(** *** [socket_connected_callback] *)

Fixpoint index_of (id : nat) (l : list nat) : option nat :=
  match l with
  | [] => None
  | x :: l' => if x =? id then Some 0 else S <$> index_of id l'
  end.

(** [ArrayList.swapRemove]: the last one takes the place. *)
Definition swap_remove (i : nat) (l : list nat) : list nat :=
  match last l with
  | Some x => take (length l - 1) (<[i := x]> l)
  | None => l
  end.

Definition removeTaskId (id : nat) (l : list nat) : list nat :=
  match index_of id l with Some i => swap_remove i l | None => l end.

(** The happy-eyeballs timer has yet to run, and owns the teardown. *)
Definition timer_owns s : bool := timer_scheduled s && negb (timer_fired s).

Definition deinit_if_last w : option world :=
  s ← w_mcs w; if negb (timer_owns s) && (pending s =? 0) then deinit w else Some w.

(** A connect that failed with [errno]. *)
Definition connect_failed (errno : Z) w : option world :=
  w ← upd (fun s =>
        (if all_errors s then s <| exceptions := exceptions s ++ [errno] |> else s)
          <| failed_count := S (failed_count s) |>) w;
  s ← w_mcs w;
  if (pending s =? 0) && negb (timer_owns s) then
    w ← settle (if all_errors s then SGroup (exceptions s) else SConnectFailed errno) w;
    deinit w
  else Some w.

(** A connect that succeeded. *)
Definition connect_succeeded (o : connect_op) (tr : transport_result) w : option world :=
  w ← upd (fun s => s <| succeeded := true |>) w;
  s ← w_mcs w;
  w ← cancel_tasks (task_ids s) w;
  w ← (if timer_owns s then cancel_timer (happy_timer_id s) w else Some w);
  match tr with
  | TrRaises =>
      w ← deinit_if_last w;
      w ← settle STransportFailed w;
      close_fd (op_fd o) w
  | TrMadeRaises =>
      let w := w <| w_fds := <[op_fd o := FdTransport]> (w_fds w) |> in
      w ← deinit_if_last w;
      settle STransportFailed w
  | TrMade =>
      let w := w <| w_fds := <[op_fd o := FdTransport]> (w_fds w) |> in
      w ← settle (SConnected (op_fd o) (op_addr o)) w;
      deinit_if_last w
  end.

Definition socket_connected_callback (o : connect_op) (cancelled : bool) (errno : option Z)
    (tr : transport_result) w : option world :=
  w ← upd (fun s => s <| task_ids := removeTaskId (op_task o) (task_ids s) |>) w;
  s ← w_mcs w;
  n ← (match pending s with 0 => None | S n => Some n end);
  w ← upd (fun s => s <| pending := n |>) w;
  s ← w_mcs w;
  if aborted s || succeeded s || cancelled then
    w ← close_fd (op_fd o) w; deinit_if_last w
  else
    match errno with
    | Some e => w ← close_fd (op_fd o) w; connect_failed e w
    | None => connect_succeeded o tr w
    end.

(** ** Runs *)

(** A completion, or the caller that cancels the future. *)
Inductive event : Type :=
| EvConnect (id : nat) (errno : option Z) (tr : transport_result)
| EvTimer
| EvUserCancel.

Definition enabled (ev : event) w : bool :=
  match ev with
  | EvConnect id _ _ => bool_decide (id ∈ map op_task (w_ops w))
  | EvTimer => bool_decide (is_Some (w_timer w))
  | EvUserCancel => bool_decide (w_future w = FPending)
  end.

Definition take_op (id : nat) w : option (connect_op * world) :=
  o ← list_find (fun o => op_task o = id) (w_ops w);
  Some (o.2, w <| w_ops := delete o.1 (w_ops w) |>).

(** The slot of an operation is free before its callback runs. *)
Definition handle (ev : event) w : option world :=
  match ev with
  | EvConnect id errno tr =>
      '(o, w) ← take_op id w; socket_connected_callback o false errno tr w
  | EvTimer => schedule_remaining_connects_callback false (w <| w_timer := None |>)
  | EvUserCancel => Some (w <| w_future := FCancelled |>)
  end.

Inductive step : world -> world -> Prop :=
| step_event ev w w' : enabled ev w = true -> handle ev w = Some w' -> step w w'.

Definition resolved (addresses : list Address) (held : bool) : world :=
  World None (Some addresses) FPending held ∅ [] None 0 [] [].

Definition reachable (args : arguments) (addresses : list Address) (w : world) : Prop :=
  exists w0, create_socket_connection false args (resolved addresses true) = Some w0
    /\ rtc step w0 w.

(** ** What every handler keeps *)

Ltac fields :=
  cbn [set_field w_mcs w_data w_future w_held w_fds w_ops w_timer w_next w_tried w_cancels
       pending succeeded timer_scheduled timer_fired happy_timer_id aborted failed_count
       task_ids all_errors exceptions mbind option_bind andb orb negb fst snd] in *.

Definition ids w : list nat := map op_task (w_ops w).

(** Numbers are fresh. *)
Record resources w : Prop := {
  rs_fd : Forall (fun o => op_fd o = op_task o) (w_ops w);
  rs_nodup : NoDup (ids w);
  rs_next : forall id, id ∈ ids w -> id < w_next w;
  rs_timer : forall id, w_timer w = Some id -> id < w_next w /\ id ∉ ids w;
  rs_fresh : forall fd, w_next w <= fd -> w_fds w !! fd = None }.

(** The open descriptors are those of the connects in flight. *)
Definition opens w : Prop := forall fd, w_fds w !! fd = Some FdOpen <-> fd ∈ ids w.

(** The state is allocated and agrees with what is in flight. *)
Record good (A : list Address) s w : Prop := {
  g_mcs : w_mcs w = Some s;
  g_data : w_data w = Some A;
  g_held : w_held w = true;
  g_ids : task_ids s ≡ₚ ids w;
  g_pending : pending s = length (w_ops w);
  g_timer : happy_timer_id s = w_timer w;
  g_res : resources w }.

(** *** Resources *)

Lemma cancel_tasks_in_flight l : forall w,
  Forall (fun id => in_flight id w = true) l ->
  cancel_tasks l w = Some (w <| w_cancels := w_cancels w ++ l |>).
Proof.
  induction l as [|id l IH]; intros w Hl; cbn [cancel_tasks].
  - rewrite app_nil_r. now destruct w.
  - inversion_clear Hl as [|? ? Hid Hl']. unfold cancel_io. rewrite Hid. cbn [mbind option_bind].
    rewrite IH; [|exact Hl']. fields. now rewrite <- app_assoc.
Qed.

Lemma op_in_flight id w : id ∈ ids w -> in_flight id w = true.
Proof. intros H. apply bool_decide_eq_true_2. now left. Qed.

Lemma timer_in_flight id w : w_timer w = Some id -> in_flight id w = true.
Proof. intros H. apply bool_decide_eq_true_2. now right. Qed.

Lemma cancel_own A s w :
  good A s w -> cancel_tasks (task_ids s) w = Some (w <| w_cancels := w_cancels w ++ task_ids s |>).
Proof.
  intros G. apply cancel_tasks_in_flight, Forall_forall. intros id Hid. apply op_in_flight.
  now rewrite <- (g_ids _ _ _ G).
Qed.

Lemma cancel_own_timer A s w l :
  good A s w ->
  exists l', cancel_timer (happy_timer_id s) (w <| w_cancels := l |>) = Some (w <| w_cancels := l' |>).
Proof.
  intros G. rewrite (g_timer _ _ _ G). unfold cancel_timer. destruct (w_timer w) as [id|] eqn:E; [|eauto].
  unfold cancel_io. rewrite timer_in_flight by exact E. eexists. reflexivity.
Qed.

(** Only the list of cancellations and what is freed differ. *)
Lemma deinit_good A s w :
  good A s w ->
  exists l, deinit w = Some (w <| w_cancels := l |> <| w_mcs := None |> <| w_data := None |>).
Proof.
  intros G. unfold deinit. rewrite (g_mcs _ _ _ G). cbn [mbind option_bind].
  rewrite (cancel_own A s w G). cbn [mbind option_bind].
  destruct (cancel_own_timer A s w (w_cancels w ++ task_ids s) G) as [l ->]. cbn [mbind option_bind].
  unfold free_data. fields. rewrite (g_data _ _ _ G). eexists. reflexivity.
Qed.

Definition settle_fut (r : settled) (f : fut_state) : fut_state :=
  match f with FPending => FSettled r | f => f end.

Lemma settle_held r w :
  w_held w = true -> settle r w = Some (w <| w_future := settle_fut r (w_future w) |>).
Proof. intros H. unfold settle. rewrite H. cbn [orb]. destruct w as [m d [] h x o t n tr c]; reflexivity. Qed.

(** *** Submitting *)

(** What a submission leaves alone. *)
Record frame s w s' w' : Prop := {
  fr_state : s' = s <| task_ids := task_ids s' |> <| pending := pending s' |>;
  fr_future : w_future w' = w_future w;
  fr_timer : w_timer w' = w_timer w;
  fr_transport : forall fd, w_fds w' !! fd = Some FdTransport <-> w_fds w !! fd = Some FdTransport }.

Lemma frame_refl s w : frame s w s w.
Proof. split; try reflexivity. now destruct s. Qed.

Lemma frame_trans s1 w1 s2 w2 s3 w3 : frame s1 w1 s2 w2 -> frame s2 w2 s3 w3 -> frame s1 w1 s3 w3.
Proof.
  intros [A1 A2 A3 A4] [B1 B2 B3 B4]. split; try congruence.
  - rewrite B1, A1. reflexivity.
  - intros fd. now rewrite B4.
Qed.

Lemma resources_ext w w' :
  resources w -> w_ops w' = w_ops w -> w_timer w' = w_timer w -> w_next w' = w_next w ->
  w_fds w' = w_fds w -> resources w'.
Proof.
  intros [R1 R2 R3 R4 R5] Ho Ht Hn Hf. unfold ids in *.
  split; unfold ids; rewrite ?Ho, ?Ht, ?Hn, ?Hf; assumption.
Qed.

Ltac same_resources H := apply (resources_ext _ _ H); reflexivity.

(** A socket that was asked for, and is not open. *)
Lemma resources_failed w (fds : gmap nat fd_state) a :
  resources w ->
  (forall fd, S (w_next w) <= fd -> fds !! fd = None) ->
  resources (w <| w_next := S (w_next w) |> <| w_tried := w_tried w ++ [a] |> <| w_fds := fds |>).
Proof.
  intros [R1 R2 R3 R4 R5] Hf. split; fields; auto.
  - intros id Hid. specialize (R3 id Hid). lia.
  - intros id Hid. destruct (R4 id Hid). auto with lia.
Qed.

Lemma resources_submitted w a :
  resources w ->
  resources (w <| w_next := S (w_next w) |> <| w_tried := w_tried w ++ [a] |>
               <| w_fds := <[w_next w := FdOpen]> (w_fds w) |>
               <| w_ops := w_ops w ++ [ConnectOp (w_next w) (w_next w) a] |>).
Proof.
  intros [R1 R2 R3 R4 R5]. split; unfold ids in *; fields; rewrite ?map_app; cbn [map op_task].
  - apply Forall_app. auto.
  - apply NoDup_app. split; [exact R2|]. split; [|apply NoDup_singleton].
    intros id Hid Hn. apply list_elem_of_singleton in Hn as ->. specialize (R3 _ Hid). lia.
  - intros id Hid. apply elem_of_app in Hid as [Hid|Hid]; [specialize (R3 _ Hid); lia|].
    apply list_elem_of_singleton in Hid as ->. lia.
  - intros id Hid. destruct (R4 id Hid) as [H1 H2]. split; [lia|]. intros Hin.
    apply elem_of_app in Hin as [Hin|Hin]; [auto|]. apply list_elem_of_singleton in Hin. lia.
  - intros fd Hfd. rewrite lookup_insert_ne by lia. apply R5. lia.
Qed.

Lemma submit_ok A s w a :
  good A s w -> opens w ->
  exists w' s' (ok : bool), submit_connect_for_address a w = Some (w', ok)
    /\ good A s' w' /\ opens w' /\ frame s w s' w' /\ w_tried w' = w_tried w ++ [a]
    /\ w_ops w' = w_ops w ++ (if ok then [ConnectOp (w_next w) (w_next w) a] else []).
Proof.
  intros [G1 G2 G3 G4 G5 G6 G8] Hop. unfold opens, ids in Hop.
  pose proof (rs_fresh _ G8 (w_next w) ltac:(lia)) as Hfresh.
  unfold submit_connect_for_address, create_socket_and_submit_connect_req.
  destruct (socket_errno (w_next w)) as [e|]; [|destruct (queue_ok (w_next w))].
  - eexists _, s, false. split; [reflexivity|]. fields. rewrite app_nil_r.
    split; [|split; [exact Hop | split; [|split; reflexivity]]].
    + split; fields; auto. apply (resources_failed w (w_fds w) a); [exact G8|].
      intros fd Hfd. apply (rs_fresh _ G8). lia.
    + split; fields; [now destruct s | reflexivity | reflexivity | reflexivity].
  - fields. unfold upd. fields. rewrite G1. fields.
    eexists _, (s <| task_ids := task_ids s ++ [w_next w] |> <| pending := S (pending s) |>), true.
    split; [reflexivity|]. split; [|split; [|split; [|split; reflexivity]]].
    + split; fields; auto.
      * unfold ids in *. fields. rewrite map_app. cbn [map op_task]. now rewrite G4.
      * rewrite length_app, G5. cbn [length]. lia.
      * now apply (resources_ext _ _ (resources_submitted w a G8)).
    + intros fd. unfold ids. fields. rewrite map_app. cbn [map op_task].
      rewrite elem_of_app, list_elem_of_singleton. destruct (decide (fd = w_next w)) as [->|Hne].
      * rewrite lookup_insert_eq. split; auto.
      * rewrite lookup_insert_ne by congruence. rewrite Hop.
        split; [auto | intros [|]; [auto | contradiction]].
    + split; fields; [reflexivity | reflexivity | reflexivity |].
      intros fd. destruct (decide (fd = w_next w)) as [->|Hne].
      * rewrite lookup_insert_eq, Hfresh. split; discriminate.
      * now rewrite lookup_insert_ne by congruence.
  - unfold close_fd. fields. rewrite lookup_insert_eq, decide_True by reflexivity. fields.
    eexists _, s, false. split; [reflexivity|]. fields. rewrite app_nil_r.
    assert (Hsame : forall fd x, x <> FdClosed ->
      <[w_next w:=FdClosed]> (<[w_next w:=FdOpen]> (w_fds w)) !! fd = Some x <-> w_fds w !! fd = Some x).
    { intros fd x Hx. destruct (decide (fd = w_next w)) as [->|Hne].
      - rewrite lookup_insert_eq, Hfresh. split; congruence.
      - now rewrite !lookup_insert_ne by congruence. }
    split; [|split; [|split; [|split; reflexivity]]].
    + split; fields; auto.
      apply (resources_failed w (<[w_next w:=FdClosed]> (<[w_next w:=FdOpen]> (w_fds w))) a); [exact G8|].
      intros fd Hfd. rewrite !lookup_insert_ne by lia. apply (rs_fresh _ G8). lia.
    + intros fd. unfold ids. fields. rewrite Hsame by discriminate. apply Hop.
    + split; fields; [now destruct s | reflexivity | reflexivity |]. intros fd. now apply Hsame.
Qed.

Lemma submit_all_ok A l : forall s w,
  good A s w -> opens w ->
  exists w' s' (ok : bool) new, submit_all l w = Some (w', ok)
    /\ good A s' w' /\ opens w' /\ frame s w s' w'
    /\ w_ops w' = w_ops w ++ new /\ Forall (fun o => op_addr o ∈ l) new
    /\ length new <= length l
    /\ (ok = true -> w_tried w' = w_tried w ++ l /\ length new = length l).
Proof.
  induction l as [|a l IH]; intros s w G Hop; cbn [submit_all].
  - exists w, s, true, []. rewrite !app_nil_r. split; [reflexivity|]. split; [exact G|].
    split; [exact Hop|]. split; [apply frame_refl|]. split; [reflexivity|]. split; [constructor|].
    split; [reflexivity | auto].
  - destruct (submit_ok A s w a G Hop) as (w1 & s1 & ok & -> & G1 & P1 & F1 & T1 & O1). fields.
    destruct ok.
    + destruct (IH s1 w1 G1 P1) as (w2 & s2 & ok & new & -> & G2 & P2 & F2 & O2 & A2 & L2 & H2).
      exists w2, s2, ok, (ConnectOp (w_next w) (w_next w) a :: new). split; [reflexivity|].
      split; [exact G2|]. split; [exact P2|]. split; [exact (frame_trans _ _ _ _ _ _ F1 F2)|].
      split; [rewrite O2, O1, <- app_assoc; reflexivity|].
      split; [constructor; [left | eapply Forall_impl; [exact A2|]; intros o Ho; now right]|].
      cbn [length]. split; [lia|]. intros Hok. destruct (H2 Hok) as [T2 L3].
      rewrite T2, T1, <- app_assoc. split; [reflexivity | lia].
    + exists w1, s1, false, []. split; [reflexivity|]. split; [exact G1|]. split; [exact P1|].
      split; [exact F1|]. split; [exact O1|]. split; [constructor|]. split; [cbn; lia | discriminate].
Qed.

(** ** The phases *)

Definition running s : bool := negb (succeeded s) && negb (aborted s).

Definition has_timer w : bool := match w_timer w with Some _ => true | None => false end.

Record live (A : list Address) s w : Prop := {
  l_good : good A s w;
  l_owns : timer_owns s = has_timer w;
  l_alive : w_ops w <> [] \/ has_timer w = true;
  l_addr : Forall (fun o => op_addr o ∈ A) (w_ops w);
  l_settled : running s = false -> w_future w <> FPending;
  l_aborted : aborted s = true -> has_timer w = false;
  l_timer : has_timer w = true -> 1 < length A /\ (succeeded s = true -> w_ops w = []);
  l_running : running s = true ->
    (w_future w = FPending \/ w_future w = FCancelled)
    /\ failed_count s + length (w_ops w) = length (w_tried w)
    /\ w_tried w = (if has_timer w then take 1 A else A)
    /\ length (exceptions s) = (if all_errors s then failed_count s else 0);
  l_plain : succeeded s = false -> forall fd, w_fds w !! fd <> Some FdTransport }.

(** What the future and the transport say of each other. *)
Record facts (A : list Address) w : Prop := {
  f_owner : forall fd, w_fds w !! fd = Some FdTransport ->
    (exists a, w_future w = FSettled (SConnected fd a))
    \/ w_future w = FSettled STransportFailed \/ w_future w = FCancelled;
  f_result : forall fd a, w_future w = FSettled (SConnected fd a) ->
    w_fds w !! fd = Some FdTransport /\ a ∈ A;
  f_failed : forall e, w_future w = FSettled (SConnectFailed e) -> w_tried w = A;
  f_group : forall l, w_future w = FSettled (SGroup l) -> w_tried w = A /\ length l = length A }.

(** [clean]: the arguments could be converted. *)
Record inv (clean : bool) (A : list Address) w : Prop := {
  i_held : w_held w = true;
  i_res : resources w;
  i_open : opens w;
  i_facts : facts A w;
  i_phase :
    match w_mcs w with
    | Some s => live A s w
    | None => w_ops w = [] /\ has_timer w = false /\ w_future w <> FPending
              /\ (clean = true -> w_data w = None)
    end }.

Lemma facts_ext A w w' :
  facts A w -> w_fds w' = w_fds w -> w_future w' = w_future w -> w_tried w' = w_tried w -> facts A w'.
Proof.
  intros [F1 F2 F3 F4] Hf Hu Ht. split; rewrite ?Hf, ?Hu, ?Ht; assumption.
Qed.

(** A future that says nothing of a connection. *)
Definition quiet (f : fut_state) : bool :=
  match f with FSettled (SConnected _ _ | SConnectFailed _ | SGroup _) => false | _ => true end.

Lemma facts_quiet A w :
  quiet (w_future w) = true ->
  (w_future w = FCancelled \/ forall fd, w_fds w !! fd <> Some FdTransport) -> facts A w.
Proof.
  intros Hu Hp. split.
  - intros fd Hfd. destruct Hp as [->|Hp]; [auto | destruct (Hp fd Hfd)].
  - intros fd a E. rewrite E in Hu. discriminate.
  - intros e E. rewrite E in Hu. discriminate.
  - intros l E. rewrite E in Hu. discriminate.
Qed.

Lemma waiting_quiet f : f = FPending \/ f = FCancelled -> quiet f = true.
Proof. now intros [-> | ->]. Qed.

(** The last one out frees everything. *)
Lemma inv_deinit clean A s w :
  good A s w -> opens w -> facts A w -> w_ops w = [] -> has_timer w = false -> w_future w <> FPending ->
  exists w', deinit w = Some w' /\ inv clean A w' /\ w_ops w' = [] /\ has_timer w' = false
    /\ w_future w' = w_future w.
Proof.
  intros G Hop HF Ho Ht Hu. destruct (deinit_good A s w G) as [l ->].
  eexists. split; [reflexivity|]. split; [|auto].
  split; fields; [apply G | same_resources (g_res _ _ _ G) | exact Hop | now apply (facts_ext A w) | auto].
Qed.

Lemma inv_of_live clean A s w : live A s w -> opens w -> facts A w -> inv clean A w.
Proof.
  intros L Hop HF. pose proof (l_good _ _ _ L) as G.
  split; [apply G | apply G | exact Hop | exact HF |]. now rewrite (g_mcs _ _ _ G).
Qed.

Lemma running_settled s : running s = true -> succeeded s = false /\ aborted s = false.
Proof. unfold running. intros H. apply andb_true_iff in H as [H1 H2]. split; now apply negb_true_iff. Qed.

(** The round is given up: what is in flight is cancelled, the future is
    settled. *)
Lemma abort_ok A s w :
  good A s w -> opens w ->
  exists w', abort_round w = Some w' /\ good A (s <| aborted := true |>) w' /\ opens w'
    /\ w_ops w' = w_ops w /\ has_timer w' = has_timer w /\ w_future w' = w_future w
    /\ w_fds w' = w_fds w /\ w_tried w' = w_tried w.
Proof.
  intros G Hop. unfold abort_round, upd. rewrite (g_mcs _ _ _ G). fields.
  assert (G' : good A (s <| aborted := true |>) (w <| w_mcs := Some (s <| aborted := true |>) |>)).
  { destruct G as [G1 G2 G3 G4 G5 G6 G8]. split; fields; auto. same_resources G8. }
  pose proof (cancel_own A _ _ G') as Hc. fields. rewrite Hc. eexists. split; [reflexivity|].
  split; [|split; [exact Hop|]; repeat split].
  destruct G' as [G1 G2 G3 G4 G5 G6 G8]. split; fields; auto. same_resources G8.
Qed.

(** What is left to happen. *)
Definition measure (A : list Address) w : nat :=
  length (w_ops w) + (if has_timer w then length A else 0)
  + (if decide (w_future w = FPending) then 1 else 0).

Lemma measure_future A w w' :
  length (w_ops w') + (if has_timer w' then length A else 0)
    < length (w_ops w) + (if has_timer w then length A else 0) ->
  (w_future w' = FPending -> w_future w = FPending) -> measure A w' < measure A w.
Proof.
  intros Hl Hf. unfold measure. destruct (decide (w_future w' = FPending)) as [H|H].
  - rewrite (decide_True (P := w_future w = FPending)) by auto. lia.
  - destruct (decide (w_future w = FPending)); lia.
Qed.

(** A handler ends well. *)
Definition ends (clean : bool) (A : list Address) w (r : option world) : Prop :=
  exists w', r = Some w' /\ inv clean A w' /\ measure A w' < measure A w.

Lemma good_upd A s w (f : MultiConnectState -> MultiConnectState) :
  good A s w -> task_ids (f s) = task_ids s -> pending (f s) = pending s ->
  happy_timer_id (f s) = happy_timer_id s -> upd f w = Some (w <| w_mcs := Some (f s) |>)
  /\ good A (f s) (w <| w_mcs := Some (f s) |>).
Proof.
  intros [G1 G2 G3 G4 G5 G6 G8] Hi Hp Ht. unfold upd. rewrite G1. split; [reflexivity|].
  split; fields; rewrite ?Hi, ?Hp, ?Ht; auto. same_resources G8.
Qed.

Lemma settle_not_pending r f : settle_fut r f <> FPending.
Proof. now destruct f. Qed.

Lemma settle_keeps r f : settle_fut r f = FPending -> f = FPending.
Proof. now destruct f. Qed.

(** The remaining addresses could not all be submitted. *)
Lemma submit_failed_ok clean A s w :
  good A s w -> opens w -> timer_owns s = false -> has_timer w = false ->
  Forall (fun o => op_addr o ∈ A) (w_ops w) ->
  w_future w = FPending \/ w_future w = FCancelled ->
  (forall fd, w_fds w !! fd <> Some FdTransport) -> succeeded s = false ->
  exists w', (w ← settle SSubmitFailed w;
              w ← abort_round w;
              s ← w_mcs w;
              if pending s =? 0 then deinit w else Some w) = Some w'
    /\ inv clean A w' /\ length (w_ops w') <= length (w_ops w) /\ has_timer w' = false
    /\ (w_future w' = FPending -> w_future w = FPending).
Proof.
  intros G Hop Hto Ht Ha Hfut Hfd Hsc. rewrite (settle_held _ w (g_held _ _ _ G)). fields.
  set (w1 := w <| w_future := settle_fut SSubmitFailed (w_future w) |>).
  assert (G1 : good A s w1).
  { destruct G as [A1 A2 A3 A4 A5 A6 A8]. split; auto. same_resources A8. }
  destruct (abort_ok A s w1 G1 Hop) as (w2 & -> & G2 & P2 & O2 & T2 & U2 & D2 & R2). fields.
  rewrite (g_mcs _ _ _ G2). fields.
  assert (Hf2 : w_future w2 <> FPending) by (rewrite U2; apply settle_not_pending).
  assert (HF : facts A w2).
  { apply facts_quiet; [|right; intros fd; rewrite D2; apply Hfd].
    rewrite U2. change (w_future w1) with (settle_fut SSubmitFailed (w_future w)).
    now destruct Hfut as [E|E]; rewrite E. }
  assert (Ht2 : has_timer w2 = false) by (rewrite T2; exact Ht).
  change (w_ops w1) with (w_ops w) in O2.
  destruct (Nat.eqb_spec (pending s) 0) as [E|E]; pose proof (g_pending _ _ _ G) as Hp.
  - assert (Ho : w_ops w2 = []) by (apply length_zero_iff_nil; rewrite O2; lia).
    destruct (inv_deinit clean A _ w2 G2 P2 HF Ho Ht2 Hf2) as (w3 & -> & I3 & O3 & T3 & U3).
    exists w3. split; [reflexivity|]. split; [exact I3|]. rewrite O3. split; [cbn; lia|].
    split; [exact T3|]. rewrite U3. intros H. destruct (Hf2 H).
  - exists w2. split; [reflexivity|]. split; [|rewrite O2; split; [lia | split; [exact Ht2|]]].
    + apply (inv_of_live clean A (s <| aborted := true |>)); [|exact P2 | exact HF].
      split; auto; fields.
      * rewrite Ht2. exact Hto.
      * left. intros H. rewrite O2 in H. apply E. rewrite Hp, H. reflexivity.
      * now rewrite O2.
      * rewrite Ht2. discriminate.
      * intros H. apply running_settled in H as [_ H]. discriminate.
      * intros _ fd. rewrite D2. apply Hfd.
    + intros H. destruct (Hf2 H).
Qed.

Lemma timer_ok clean A w :
  inv clean A w -> has_timer w = true ->
  ends clean A w (schedule_remaining_connects_callback false (w <| w_timer := None |>)).
Proof.
  intros I Ht. destruct I as [_ _ Hop HF Hph].
  destruct (w_mcs w) as [s|] eqn:Em; [|destruct Hph as (_ & H & _); congruence].
  destruct Hph as [G Hown _ Ha Hst Hab Htm Hrun Hpl]. destruct (Htm Ht) as [Hlen Hsu].
  unfold schedule_remaining_connects_callback, upd. fields. rewrite Em. fields.
  set (w1 := w <| w_timer := None |> <| w_mcs := Some (s <| happy_timer_id := None |>) |>).
  assert (G1 : good A (s <| happy_timer_id := None |>) w1).
  { destruct G as [A1 A2 A3 A4 A5 A6 A8]. split; auto; fields.
    destruct A8 as [R1 R2 R3 R4 R5]. split; auto. discriminate. }
  assert (Hab' : aborted s = false) by (destruct (aborted s); [rewrite Hab in Ht by reflexivity; discriminate | reflexivity]).
  destruct (succeeded s) eqn:Esu.
  - pose proof (Hsu eq_refl) as Ho. rewrite (g_pending _ _ _ G), Ho. cbn [length Nat.eqb].
    assert (Hf1 : w_future w1 <> FPending) by (apply Hst; unfold running; now rewrite Esu).
    destruct (inv_deinit clean A _ w1 G1 Hop (facts_ext _ w w1 HF eq_refl eq_refl eq_refl) Ho eq_refl Hf1)
      as (w2 & -> & I2 & O2 & T2 & U2).
    exists w2. split; [reflexivity|]. split; [exact I2|]. apply measure_future.
    + rewrite O2, T2, Ht. cbn [length]. lia.
    + now rewrite U2.
  - assert (Er : running s = true) by (unfold running; now rewrite Esu, Hab').
    destruct (Hrun Er) as (Hfut & Hcnt & Htr & Hexc). rewrite Ht in Htr. specialize (Hpl eq_refl).
    set (s2 := s <| happy_timer_id := None |> <| timer_fired := true |> <| timer_scheduled := false |>).
    assert (G2 : good A s2 (w1 <| w_mcs := Some s2 |>)).
    { destruct G1 as [A1 A2 A3 A4 A5 A6 A8]. split; auto. same_resources A8. }
    rewrite (g_data _ _ _ G). fields.
    destruct (submit_all_ok A (drop 1 A) s2 _ G2 Hop) as (w3 & s3 & ok & new & -> & G3 & P3 & F3 & O3 & A3 & L3 & K3).
    fields. destruct F3 as [Fs Fu Ft Fd]. fields. rewrite length_drop in *.
    change (w_ops w1) with (w_ops w) in O3.
    assert (Ht3 : has_timer w3 = false) by (unfold has_timer; rewrite Ft; reflexivity).
    assert (Ha3 : Forall (fun o => op_addr o ∈ A) (w_ops w3)).
    { rewrite O3. apply Forall_app. split; [exact Ha|]. eapply Forall_impl; [exact A3|].
      intros o Ho. rewrite <- (take_drop 1 A). apply elem_of_app. now right. }
    assert (Hd3 : forall fd, w_fds w3 !! fd <> Some FdTransport) by (intros fd H; apply Fd in H; now apply Hpl in H).
    assert (Hto3 : timer_owns s3 = false) by (rewrite Fs; reflexivity).
    assert (Hu3 : w_future w3 = w_future w) by exact Fu.
    assert (Hr3 : running s3 = true /\ succeeded s3 = false /\ aborted s3 = false)
      by (rewrite Fs; split; [exact Er | split; [exact Esu | exact Hab']]).
    destruct Hr3 as (Hr3 & Hsc3 & Hab3).
    assert (Hm : forall w', length (w_ops w') <= length (w_ops w3) -> has_timer w' = false ->
        (w_future w' = FPending -> w_future w3 = FPending) -> measure A w' < measure A w).
    { intros w' Hl Ht' Hf'. apply measure_future; [|rewrite <- Hu3; exact Hf'].
      rewrite Ht', Ht. rewrite O3, length_app in Hl. fields. lia. }
    destruct ok.
    + destruct (K3 eq_refl) as [T3 N3]. rewrite ?length_drop in N3. exists w3. split; [reflexivity|]. split; [|now apply Hm].
      apply (inv_of_live clean A s3); [|exact P3 |].
      * split; auto.
        -- now rewrite Ht3.
        -- left. intros H. rewrite O3 in H. apply app_eq_nil in H as [_ H]. rewrite H in N3. cbn [length] in N3. lia.
        -- rewrite Hr3. discriminate.
        -- rewrite Ht3. discriminate.
        -- intros _. rewrite Hu3, Ht3, T3, O3, !length_app, N3, length_drop. split; [exact Hfut|].
           split; [rewrite Fs; change (w_tried w1) with (w_tried w); cbn in Hcnt |- *; lia|].
           split; [change (w_tried w1) with (w_tried w); rewrite Htr; apply take_drop|].
           rewrite Fs. exact Hexc.
      * apply facts_quiet; [rewrite Hu3; now apply waiting_quiet | now right].
    + destruct (submit_failed_ok clean A s3 w3 G3 P3 Hto3 Ht3 Ha3 ltac:(now rewrite Hu3) Hd3)
        as (w4 & -> & I4 & L4 & T4 & U4).
      { rewrite Fs. exact Esu. }
      exists w4. split; [reflexivity|]. split; [exact I4 | now apply Hm].
Qed.

(** *** The completion of a connect *)

Lemma index_of_spec id l : id ∈ l -> exists i, index_of id l = Some i /\ l !! i = Some id.
Proof.
  induction l as [|x l IH]; intros H; [now apply elem_of_nil in H|]. cbn [index_of].
  destruct (Nat.eqb_spec x id) as [->|Hne]; [now exists 0|].
  apply elem_of_cons in H as [H|H]; [congruence|]. destruct (IH H) as (i & -> & Hi). now exists (S i).
Qed.

Lemma swap_remove_perm i l x : l !! i = Some x -> l ≡ₚ x :: swap_remove i l.
Proof.
  intros Hi. unfold swap_remove. destruct (last l) as [y|] eqn:Hl.
  - apply last_Some in Hl as [l' ->]. rewrite length_app. cbn [length]. rewrite Nat.add_sub.
    destruct (decide (i < length l')) as [Hlt|Hge].
    + rewrite lookup_app_l in Hi by exact Hlt. rewrite insert_app_l by exact Hlt.
      rewrite take_app_length' by (now rewrite length_insert).
      rewrite <- (take_drop_middle l' i x Hi) at 1. rewrite insert_take_drop by exact Hlt.
      rewrite <- Permutation_cons_append, <- !Permutation_middle. apply Permutation_swap.
    + assert (i = length l') as ->.
      { apply lookup_lt_Some in Hi. rewrite length_app in Hi. cbn [length] in Hi. lia. }
      rewrite lookup_app_r, Nat.sub_diag in Hi by lia. cbn in Hi. injection Hi as ->.
      rewrite insert_app_r_alt, take_app_length by lia. symmetry. apply Permutation_cons_append.
  - apply last_None in Hl as ->. discriminate.
Qed.

Lemma removeTaskId_perm id l : id ∈ l -> l ≡ₚ id :: removeTaskId id l.
Proof.
  intros H. unfold removeTaskId. destruct (index_of_spec id l H) as (i & -> & Hi).
  now apply swap_remove_perm.
Qed.

Lemma take_op_spec id w :
  id ∈ ids w -> exists o rest, take_op id w = Some (o, w <| w_ops := rest |>)
    /\ op_task o = id /\ w_ops w ≡ₚ o :: rest.
Proof.
  intros H. unfold take_op. apply list_elem_of_fmap in H as (o & -> & Ho).
  destruct (list_find_elem_of (fun o' => op_task o' = op_task o) (w_ops w) o Ho eq_refl) as [[i o'] E].
  rewrite E. apply list_find_Some in E as (Hi & Ht & _). fields. exists o', (delete i (w_ops w)).
  split; [reflexivity|]. split; [exact Ht | now apply delete_Permutation].
Qed.

(** The state after the bookkeeping of a completion. *)
Definition counted (o : connect_op) (rest : list connect_op) s : MultiConnectState :=
  s <| task_ids := removeTaskId (op_task o) (task_ids s) |> <| pending := length rest |>.

Lemma callback_unfold A o rest s w errno tr :
  good A s w -> w_ops w ≡ₚ o :: rest ->
  let w1 := w <| w_ops := rest |> <| w_mcs := Some (counted o rest s) |> in
  socket_connected_callback o false errno tr (w <| w_ops := rest |>)
  = if aborted s || succeeded s then w ← close_fd (op_fd o) w1; deinit_if_last w
    else match errno with
         | Some e => w ← close_fd (op_fd o) w1; connect_failed e w
         | None => connect_succeeded o tr w1
         end.
Proof.
  intros G Hp w1. unfold socket_connected_callback, upd. fields. rewrite (g_mcs _ _ _ G). fields.
  rewrite (g_pending _ _ _ G), Hp. cbn [length]. fields. rewrite orb_false_r. reflexivity.
Qed.

Lemma counted_good A o rest s w :
  good A s w -> w_ops w ≡ₚ o :: rest ->
  good A (counted o rest s) (w <| w_ops := rest |> <| w_mcs := Some (counted o rest s) |>)
  /\ op_fd o = op_task o.
Proof.
  intros [G1 G2 G3 G4 G5 G6 G8] Hp. unfold ids in G4.
  assert (Hids : ids w ≡ₚ op_task o :: map op_task rest) by (unfold ids; now rewrite Hp).
  assert (Hin : op_task o ∈ task_ids s) by (rewrite G4, Hp; left).
  split.
  - split; fields; auto.
    + unfold ids, counted. fields. apply (Permutation_cons_inv (a := op_task o)).
      rewrite <- removeTaskId_perm by exact Hin. rewrite G4, Hp. reflexivity.
    + destruct G8 as [R1 R2 R3 R4 R5]. rewrite Hp in R1. rewrite Hids in R2.
      inversion_clear R1 as [|? ? Ho R1']. apply NoDup_cons in R2 as [R2a R2b].
      split; fields; auto.
      * intros id Hid. apply R3. rewrite Hids. now right.
      * intros id Hid. destruct (R4 id Hid) as [H1 H2]. split; [exact H1|]. intros H. apply H2.
        rewrite Hids. now right.
  - pose proof (rs_fd _ G8) as R1. rewrite Hp in R1. now inversion_clear R1.
Qed.

(** Its descriptor is closed, or given to the transport. *)
Lemma good_fds A s w (fds : gmap nat fd_state) :
  good A s w -> (forall fd, w_next w <= fd -> fds !! fd = None) -> good A s (w <| w_fds := fds |>).
Proof.
  intros [G1 G2 G3 G4 G5 G6 G8] Hf. split; auto. destruct G8 as [R1 R2 R3 R4 R5]. split; auto.
Qed.

Lemma good_future A s w f : good A s w -> good A s (w <| w_future := f |>).
Proof. intros [G1 G2 G3 G4 G5 G6 G8]. split; auto. same_resources G8. Qed.

Lemma good_cancels A s w l : good A s w -> good A s (w <| w_cancels := l |>).
Proof. intros [G1 G2 G3 G4 G5 G6 G8]. split; auto. same_resources G8. Qed.

Lemma completed_fd A o rest s w x :
  good A s w -> opens w -> w_ops w ≡ₚ o :: rest -> x <> FdOpen ->
  let w1 := w <| w_ops := rest |> <| w_mcs := Some (counted o rest s) |>
              <| w_fds := <[op_fd o := x]> (w_fds w) |> in
  w_fds w !! op_fd o = Some FdOpen /\ good A (counted o rest s) w1 /\ opens w1.
Proof.
  intros G Hop Hp Hx. destruct (counted_good A o rest s w G Hp) as [G1 Ho].
  assert (Hids : ids w ≡ₚ op_fd o :: map op_task rest) by (unfold ids; rewrite Ho, Hp; reflexivity).
  assert (Hfd : op_fd o ∈ ids w) by (rewrite Hids; left).
  pose proof (rs_nodup _ (g_res _ _ _ G)) as Hnd. rewrite Hids in Hnd. apply NoDup_cons in Hnd as [Hnd _].
  split; [now apply Hop|]. split.
  - apply (good_fds A _ _ (<[op_fd o := x]> (w_fds w)) G1). fields. intros fd Hlt.
    pose proof (rs_next _ (g_res _ _ _ G) _ Hfd). rewrite lookup_insert_ne by lia.
    now apply (rs_fresh _ (g_res _ _ _ G)).
  - intros fd. unfold ids. fields. destruct (decide (fd = op_fd o)) as [->|Hne].
    + rewrite lookup_insert_eq. split; [congruence | contradiction].
    + rewrite lookup_insert_ne by congruence. rewrite (Hop fd), Hids, elem_of_cons.
      split; [intros [|]; [congruence | auto] | auto].
Qed.

(** *** The teardown *)

Definition torn (last : bool) (l : list nat) w : world :=
  if last then w <| w_cancels := l |> <| w_mcs := None |> <| w_data := None |> else w.

Lemma deinit_if_last_good A s w :
  good A s w ->
  exists l, deinit_if_last w = Some (torn (negb (timer_owns s) && (pending s =? 0)) l w).
Proof.
  intros G. unfold deinit_if_last. rewrite (g_mcs _ _ _ G). fields.
  destruct (negb (timer_owns s) && _); [|now exists []].
  destruct (deinit_good A s w G) as [l ->]. now exists l.
Qed.

Lemma torn_inv clean A s w l :
  good A s w -> opens w -> facts A w -> timer_owns s = has_timer w -> w_future w <> FPending ->
  running s = false -> (aborted s = true -> has_timer w = false) ->
  (has_timer w = true -> 1 < length A /\ w_ops w = []) ->
  Forall (fun o => op_addr o ∈ A) (w_ops w) ->
  (succeeded s = false -> forall fd, w_fds w !! fd <> Some FdTransport) ->
  inv clean A (torn (negb (timer_owns s) && (pending s =? 0)) l w).
Proof.
  intros G Hop HF Hown Hf Hr Hab Htm Ha Hpl. unfold torn.
  destruct (negb (timer_owns s) && (pending s =? 0)) eqn:E.
  - apply andb_true_iff in E as [E1 E2]. apply negb_true_iff in E1. apply Nat.eqb_eq in E2.
    rewrite (g_pending _ _ _ G) in E2. apply length_zero_iff_nil in E2.
    split; fields; [apply G | same_resources (g_res _ _ _ G) | exact Hop | now apply (facts_ext A w) |].
    split; [exact E2|]. split; [|auto]. unfold has_timer in *. fields. congruence.
  - apply (inv_of_live clean A s); [|exact Hop | exact HF].
    split; auto; [|intros H; destruct (Htm H); auto | congruence].
    destruct (has_timer w) eqn:Et; [now right|]. left. intros Ho.
    rewrite Hown, (g_pending _ _ _ G), Ho in E. discriminate.
Qed.

Lemma torn_same b l w :
  w_ops (torn b l w) = w_ops w /\ has_timer (torn b l w) = has_timer w
  /\ w_future (torn b l w) = w_future w.
Proof. now destruct b. Qed.

(** A handler that ends with the teardown of the last one out. *)
Lemma ends_torn clean A w s w1 l :
  inv clean A (torn (negb (timer_owns s) && (pending s =? 0)) l w1) ->
  S (length (w_ops w1)) = length (w_ops w) -> has_timer w1 = has_timer w ->
  (w_future w1 = FPending -> w_future w = FPending) ->
  ends clean A w (Some (torn (negb (timer_owns s) && (pending s =? 0)) l w1)).
Proof.
  intros I Ho Ht Hf. eexists. split; [reflexivity|]. split; [exact I|].
  destruct (torn_same (negb (timer_owns s) && (pending s =? 0)) l w1) as (O & T & U).
  apply measure_future; rewrite ?O, ?T, ?U; [rewrite Ht; lia | exact Hf].
Qed.

(** The round is over: the descriptor is closed. *)
Lemma connect_over_ok clean A w s o rest :
  live A s w -> opens w -> facts A w -> w_ops w ≡ₚ o :: rest -> running s = false ->
  let w1 := w <| w_ops := rest |> <| w_mcs := Some (counted o rest s) |> in
  ends clean A w (w ← close_fd (op_fd o) w1; deinit_if_last w).
Proof.
  intros L Hop HF Hp Hr w1. destruct L as [G Hown _ Ha Hst Hab Htm _ Hpl].
  destruct (completed_fd A o rest s w FdClosed G Hop Hp ltac:(discriminate)) as (Hfd & G2 & P2).
  unfold close_fd. change (w_fds w1) with (w_fds w). rewrite decide_True by exact Hfd.
  cbn [mbind option_bind]. subst w1. destruct (deinit_if_last_good A _ _ G2) as [l ->].
  assert (Hlen : S (length rest) = length (w_ops w)) by now rewrite Hp.
  apply ends_torn; [|exact Hlen | reflexivity | auto].
  apply (torn_inv clean A); auto.
  - destruct HF as [F1 F2 F3 F4]. split; auto.
    + intros fd. fields. destruct (decide (fd = op_fd o)) as [->|Hne];
        [rewrite lookup_insert_eq; discriminate | rewrite lookup_insert_ne by congruence; apply F1].
    + intros fd a E. fields. destruct (F2 fd a E) as [H1 H2]. split; [|exact H2].
      rewrite lookup_insert_ne; [exact H1 | congruence].
  - intros Ht. destruct (Htm Ht) as [H1 H2]. split; [exact H1|]. fields.
    unfold running in Hr. apply andb_false_iff in Hr as [Hr|Hr]; apply negb_false_iff in Hr.
    + rewrite (H2 Hr) in Hlen. discriminate.
    + specialize (Hab Hr). change (has_timer w = true) in Ht. congruence.
  - fields. rewrite Hp in Ha. now inversion_clear Ha.
  - intros Hsc fd. fields. destruct (decide (fd = op_fd o)) as [->|Hne];
      [rewrite lookup_insert_eq; discriminate | rewrite lookup_insert_ne by congruence; now apply Hpl].
Qed.

Lemma insert_not_transport (m : gmap nat fd_state) fd0 :
  (forall fd, m !! fd <> Some FdTransport) ->
  forall fd, <[fd0 := FdClosed]> m !! fd <> Some FdTransport.
Proof.
  intros H fd. destruct (decide (fd = fd0)) as [->|Hne].
  - rewrite lookup_insert_eq. discriminate.
  - now rewrite lookup_insert_ne by congruence.
Qed.

(** The bookkeeping of a failure. *)
Definition failed_state (errno : Z) s : MultiConnectState :=
  (if all_errors s then s <| exceptions := exceptions s ++ [errno] |> else s)
    <| failed_count := S (failed_count s) |>.

Lemma failed_state_spec errno o rest s :
  running s = true -> length (exceptions s) = (if all_errors s then failed_count s else 0) ->
  let s2 := failed_state errno (counted o rest s) in
  pending s2 = length rest /\ timer_owns s2 = timer_owns s /\ running s2 = true
  /\ succeeded s2 = false /\ all_errors s2 = all_errors s /\ failed_count s2 = S (failed_count s)
  /\ length (exceptions s2) = (if all_errors s then S (failed_count s) else 0).
Proof.
  intros Hr Hexc. destruct (running_settled s Hr) as [Hsc _].
  unfold failed_state, counted, timer_owns, running in *. fields.
  destruct (all_errors s) eqn:Eall; fields; rewrite ?length_app, ?Hexc, ?Eall; cbn [length];
    (split; [reflexivity|]); (split; [reflexivity|]); (split; [exact Hr|]);
    (split; [exact Hsc|]); (split; [reflexivity|]); (split; [reflexivity|]); lia.
Qed.

(** The last one reports, and tears down. *)
Lemma report_ok clean A s w r :
  good A s w -> opens w -> w_ops w = [] -> has_timer w = false ->
  w_future w = FPending \/ w_future w = FCancelled ->
  (forall fd, w_fds w !! fd <> Some FdTransport) ->
  w_tried w = A ->
  match r with SConnectFailed _ => True | SGroup l => length l = length A | _ => False end ->
  exists w', (w ← settle r w; deinit w) = Some w' /\ inv clean A w' /\ w_ops w' = []
    /\ has_timer w' = false /\ (w_future w' = FPending -> w_future w = FPending).
Proof.
  intros G Hop Ho Ht Hfut Hnt Htr Hr.
  rewrite (settle_held _ w (g_held _ _ _ G)). cbn [mbind option_bind].
  pose proof (good_future A s w (settle_fut r (w_future w)) G) as G4.
  destruct (inv_deinit clean A s _ G4 Hop) as (w4 & -> & I4 & O4 & T4 & U4);
    [| exact Ho | exact Ht | apply settle_not_pending |].
  - destruct Hfut as [Hu'|Hu']; rewrite Hu'; cbn [settle_fut];
      [|now apply facts_quiet; [|left]].
    split; fields; [intros fd H; now apply Hnt in H | | |].
    + intros fd a H. injection H as ->. destruct Hr.
    + intros e _. exact Htr.
    + intros l H. injection H as ->. auto.
  - exists w4. split; [reflexivity|]. split; [exact I4|]. split; [exact O4|]. split; [exact T4|].
    rewrite U4. apply settle_keeps.
Qed.

(** The attempt failed. *)
Lemma connect_failed_ok clean A w s o rest errno :
  live A s w -> opens w -> facts A w -> w_ops w ≡ₚ o :: rest -> running s = true ->
  let w1 := w <| w_ops := rest |> <| w_mcs := Some (counted o rest s) |> in
  ends clean A w (w ← close_fd (op_fd o) w1; connect_failed errno w).
Proof.
  intros L Hop HF Hp Hr w1. destruct L as [G Hown _ Ha _ Hab Htm Hrun Hpl].
  destruct (completed_fd A o rest s w FdClosed G Hop Hp ltac:(discriminate)) as (Hfd & G2 & P2).
  unfold close_fd. change (w_fds w1) with (w_fds w). rewrite decide_True by exact Hfd.
  cbn [mbind option_bind]. subst w1. destruct (running_settled s Hr) as [Hsc Hb].
  destruct (Hrun Hr) as (Hfut & Hcnt & Htr & Hexc). specialize (Hpl Hsc).
  assert (Hlen : length (w_ops w) = S (length rest)) by now rewrite Hp.
  assert (Har : Forall (fun o => op_addr o ∈ A) rest) by (rewrite Hp in Ha; now inversion_clear Ha).
  destruct (failed_state_spec errno o rest s Hr Hexc) as (Ep & Eo & Er & Es & Eal & Ef & Ex).
  destruct (good_upd A _ _ (failed_state errno) G2) as [Hu G3];
    [unfold failed_state; now destruct (all_errors _) ..|].
  unfold connect_failed. fold (failed_state errno). rewrite Hu. cbn [mbind option_bind].
  set (s2 := failed_state errno (counted o rest s)) in *.
  set (w3 := w <| w_ops := rest |> <| w_mcs := Some (counted o rest s) |>
               <| w_fds := <[op_fd o := FdClosed]> (w_fds w) |> <| w_mcs := Some s2 |>) in *.
  assert (P3 : opens w3) by exact P2.
  assert (Hnt : forall fd, w_fds w3 !! fd <> Some FdTransport)
    by exact (insert_not_transport (w_fds w) (op_fd o) Hpl).
  change (w_mcs w3) with (Some s2). cbn [mbind option_bind]. rewrite Ep, Eo, Hown.
  destruct ((length rest =? 0) && negb (has_timer w)) eqn:E.
  - apply andb_true_iff in E as [E1 E2]. apply Nat.eqb_eq in E1. apply negb_true_iff in E2.
    rewrite E2 in Htr. apply length_zero_iff_nil in E1.
    destruct (report_ok clean A s2 w3 (if all_errors s2 then SGroup (exceptions s2) else SConnectFailed errno)
      G3 P3 E1 E2 Hfut Hnt Htr) as (w4 & -> & I4 & O4 & T4 & U4).
    + rewrite Eal. destruct (all_errors s); [|exact I].
      rewrite Ex, <- Htr, <- Hcnt, Hlen, E1. cbn [length]. lia.
    + exists w4. split; [reflexivity|]. split; [exact I4|].
      apply measure_future; [rewrite O4, T4, E2, Hlen; cbn [length]; lia | exact U4].
  - exists w3. split; [reflexivity|]. split; [|apply measure_future; [|auto]].
    + apply (inv_of_live clean A s2); [|exact P3 | apply facts_quiet; [now apply waiting_quiet | now right]].
      split; auto.
      * rewrite Eo. exact Hown.
      * change (rest <> [] \/ has_timer w = true). destruct (has_timer w); [now right | left].
        intros ->. discriminate.
      * rewrite Er. discriminate.
      * apply running_settled in Er as [_ Er]. rewrite Er. discriminate.
      * intros H. destruct (Htm H) as [H1 _]. split; [exact H1 | congruence].
      * intros _. rewrite Ef, Eal. change (w_ops w3) with rest. split; [exact Hfut|].
        split; [change (w_tried w3) with (w_tried w); lia|]. split; [exact Htr | exact Ex].
    + change (w_ops w3) with rest. change (has_timer w3) with (has_timer w). lia.
Qed.

(** The descriptor of the winner, once settled: closed, or the transport's. *)
Lemma winner_facts A w o r x (u : fut_state) :
  (forall fd, w_fds w !! fd <> Some FdTransport) ->
  w_future w = FPending \/ w_future w = FCancelled -> op_addr o ∈ A ->
  u = settle_fut r (w_future w) ->
  (x, r) = (FdClosed, STransportFailed) \/ (x, r) = (FdTransport, STransportFailed)
    \/ (x, r) = (FdTransport, SConnected (op_fd o) (op_addr o)) ->
  facts A (w <| w_fds := <[op_fd o := x]> (w_fds w) |> <| w_future := u |>).
Proof.
  intros Hpl Hf Ha -> Hx. split; fields.
  - intros fd Hfd. destruct (decide (fd = op_fd o)) as [->|Hne].
    + destruct Hf as [-> | ->]; [|auto]. cbn [settle_fut].
      destruct Hx as [E|[E|E]]; injection E as -> ->; eauto.
    + rewrite lookup_insert_ne in Hfd by congruence. now apply Hpl in Hfd.
  - intros fd a E. destruct Hf as [Hf|Hf]; rewrite Hf in E; [|discriminate].
    cbn [settle_fut] in E. injection E as ->. destruct Hx as [E|[E|E]]; try discriminate.
    injection E as -> -> ->. now rewrite lookup_insert_eq.
  - intros e E. destruct Hf as [Hf|Hf]; rewrite Hf in E; [|discriminate].
    cbn [settle_fut] in E. injection E as ->. destruct Hx as [E|[E|E]]; discriminate.
  - intros l E. destruct Hf as [Hf|Hf]; rewrite Hf in E; [|discriminate].
    cbn [settle_fut] in E. injection E as ->. destruct Hx as [E|[E|E]]; discriminate.
Qed.

(** What the winner's handler leaves, its three ways in one: the descriptor gets
    the state [x], the future is settled with [r], the last one out tears down. *)
Definition winner_out (tr : transport_result) (o : connect_op) : fd_state * settled :=
  match tr with
  | TrRaises => (FdClosed, STransportFailed)
  | TrMadeRaises => (FdTransport, STransportFailed)
  | TrMade => (FdTransport, SConnected (op_fd o) (op_addr o))
  end.

Definition won (w : world) (s : MultiConnectState) (c : list nat) (tr : transport_result)
    (o : connect_op) : world :=
  w <| w_mcs := Some (s <| succeeded := true |>) |> <| w_cancels := c |>
    <| w_fds := <[op_fd o := (winner_out tr o).1]> (w_fds w) |>
    <| w_future := settle_fut (winner_out tr o).2 (w_future w) |>.

Lemma connect_succeeded_eq A s w o tr :
  good A s w -> w_fds w !! op_fd o = Some FdOpen ->
  exists c l, connect_succeeded o tr w
    = Some (torn (negb (timer_owns s) && (pending s =? 0)) l (won w s c tr o)).
Proof.
  intros G Hfd. set (s2 := s <| succeeded := true |>).
  destruct (good_upd A s w (fun s => s <| succeeded := true |>) G) as [Hu G2]; try reflexivity.
  fold s2 in G2, Hu. unfold connect_succeeded. rewrite Hu. cbn [mbind option_bind].
  set (w2 := w <| w_mcs := Some s2 |>) in *. change (w_mcs w2) with (Some s2). cbn [mbind option_bind].
  rewrite (cancel_own A s2 w2 G2). cbn [mbind option_bind].
  assert (Hc : exists c, (if timer_owns s2
                 then cancel_timer (happy_timer_id s2) (w2 <| w_cancels := w_cancels w2 ++ task_ids s2 |>)
                 else Some (w2 <| w_cancels := w_cancels w2 ++ task_ids s2 |>))
               = Some (w2 <| w_cancels := c |>)).
  { destruct (timer_owns s2); [|eauto].
    destruct (cancel_own_timer A s2 w2 (w_cancels w2 ++ task_ids s2) G2) as [c Hc]. rewrite Hc. eauto. }
  destruct Hc as [c ->]. cbn [mbind option_bind]. set (w3 := w2 <| w_cancels := c |>).
  pose proof (good_cancels A s2 w2 c G2) as G3. fold w3 in G3.
  change (timer_owns s) with (timer_owns s2). change (pending s) with (pending s2).
  assert (Hn : forall fd, w_next w3 <= fd -> fd <> op_fd o).
  { intros fd Hlt ->. pose proof (rs_fresh _ (g_res _ _ _ G) _ Hlt). congruence. }
  assert (G4 : good A s2 (w3 <| w_fds := <[op_fd o := FdTransport]> (w_fds w3) |>)).
  { apply (good_fds A s2 w3 _ G3). intros fd Hlt. pose proof (Hn fd Hlt).
    rewrite lookup_insert_ne by congruence. exact (rs_fresh _ (g_res _ _ _ G3) fd Hlt). }
  exists c. destruct tr.
  - destruct (deinit_if_last_good A s2 w3 G3) as [l ->]. exists l. cbn [mbind option_bind].
    assert (Hh : forall b, w_held (torn b l w3) = true /\ w_fds (torn b l w3) = w_fds w)
      by (intros []; split; solve [reflexivity | exact (g_held _ _ _ G)]).
    destruct (Hh (negb (timer_owns s2) && (pending s2 =? 0))) as [H1 H2].
    rewrite (settle_held _ _ H1). cbn [mbind option_bind]. unfold close_fd. fields.
    rewrite H2, decide_True by exact Hfd. now destruct (negb (timer_owns s2) && _).
  - cbn zeta. destruct (deinit_if_last_good A s2 _ G4) as [l ->]. exists l. cbn [mbind option_bind].
    rewrite settle_held; [now destruct (negb (timer_owns s2) && _)|].
    destruct (negb (timer_owns s2) && _); exact (g_held _ _ _ G).
  - cbn zeta. rewrite (settle_held _ _ (g_held _ _ _ G4)). cbn [mbind option_bind].
    destruct (deinit_if_last_good A s2 _ (good_future A s2 _
      (settle_fut (SConnected (op_fd o) (op_addr o)) (w_future w)) G4)) as [l Hl].
    exists l. exact Hl.
Qed.

Lemma connect_succeeded_ok clean A w s o rest tr :
  live A s w -> opens w -> facts A w -> w_ops w ≡ₚ o :: rest -> running s = true ->
  ends clean A w (connect_succeeded o tr
                    (w <| w_ops := rest |> <| w_mcs := Some (counted o rest s) |>)).
Proof.
  intros L Hop HF Hp Hr. destruct L as [G Hown _ Ha _ Hab Htm Hrun Hpl].
  destruct (running_settled s Hr) as [Hsc Hb]. destruct (Hrun Hr) as (Hfut & Hcnt & Htr & _).
  set (x := (winner_out tr o).1). set (r := (winner_out tr o).2).
  assert (Hxr : (x, r) = (FdClosed, STransportFailed) \/ (x, r) = (FdTransport, STransportFailed)
    \/ (x, r) = (FdTransport, SConnected (op_fd o) (op_addr o))) by (destruct tr; auto).
  assert (Hx : x <> FdOpen) by (destruct tr; discriminate).
  destruct (completed_fd A o rest s w x G Hop Hp Hx) as (Hfd & G2 & P2).
  destruct (counted_good A o rest s w G Hp) as [G1 _].
  destruct (connect_succeeded_eq A (counted o rest s) _ o tr G1 Hfd) as (c & l & ->).
  assert (Hlen : length (w_ops w) = S (length rest)) by now rewrite Hp.
  rewrite Hp in Ha. apply Forall_cons in Ha as [Hao Har].
  set (s3 := counted o rest s <| succeeded := true |>).
  change (timer_owns (counted o rest s)) with (timer_owns s3).
  change (pending (counted o rest s)) with (pending s3).
  apply ends_torn; [| exact (eq_sym Hlen) | reflexivity | apply settle_keeps].
  apply (torn_inv clean A s3).
  - destruct (good_upd A _ _ (fun s => s <| succeeded := true |>) G2) as [_ G3]; try reflexivity.
    exact (good_cancels A s3 _ c (good_future A s3 _ (settle_fut r (w_future w)) G3)).
  - exact P2.
  - apply (facts_ext A (w <| w_fds := <[op_fd o := x]> (w_fds w) |>
                          <| w_future := settle_fut r (w_future w) |>)); try reflexivity.
    apply (winner_facts A w o r); auto.
  - exact Hown.
  - apply settle_not_pending.
  - reflexivity.
  - intros H. change (aborted s = true) in H. congruence.
  - intros H. change (has_timer w = true) in H. destruct (Htm H) as [H1 _]. split; [exact H1|].
    change (rest = []). apply length_zero_iff_nil. rewrite H in Htr.
    rewrite Htr, length_take, Hlen in Hcnt. lia.
  - exact Har.
  - discriminate.
Qed.

Lemma connect_ok clean A w id errno tr :
  inv clean A w -> id ∈ ids w -> ends clean A w (handle (EvConnect id errno tr) w).
Proof.
  intros [_ _ Hop HF Hph] Hid. cbn [handle].
  destruct (take_op_spec id w Hid) as (o & rest & -> & _ & Hp). cbn [mbind option_bind].
  destruct (w_mcs w) as [s|] eqn:Em.
  - rewrite (callback_unfold A o rest s w errno tr (l_good _ _ _ Hph) Hp).
    destruct (aborted s || succeeded s) eqn:E.
    + apply connect_over_ok; auto. unfold running. now destruct (succeeded s), (aborted s).
    + assert (Hr : running s = true) by (unfold running; now destruct (succeeded s), (aborted s)).
      destruct errno; [now apply connect_failed_ok | now apply connect_succeeded_ok].
  - destruct Hph as (Ho & _). unfold ids in Hid. rewrite Ho in Hid. now apply elem_of_nil in Hid.
Qed.

Lemma user_cancel_ok clean A w :
  inv clean A w -> w_future w = FPending -> ends clean A w (handle EvUserCancel w).
Proof.
  intros [I1 I2 I3 I4 I5] Hf. exists (w <| w_future := FCancelled |>). split; [reflexivity|]. split.
  - split; fields; [exact I1 | same_resources I2 | exact I3 | |].
    + apply facts_quiet; auto.
    + destruct (w_mcs w) as [s|] eqn:Em; [|destruct I5 as (_ & _ & H & _); congruence].
      destruct I5 as [G Hown Hal Ha _ Hab Htm Hrun Hpl]. split; auto; [now apply good_future |].
      intros Hr. destruct (Hrun Hr) as (_ & H). auto.
  - unfold measure. fields. change (has_timer (w <| w_future := FCancelled |>)) with (has_timer w).
    rewrite (decide_True (P := w_future w = FPending)) by exact Hf.
    rewrite decide_False by discriminate. lia.
Qed.

Lemma handle_ok clean A w ev : inv clean A w -> enabled ev w = true -> ends clean A w (handle ev w).
Proof.
  intros I H. destruct ev; apply bool_decide_eq_true in H.
  - now apply connect_ok.
  - apply timer_ok; [exact I|]. unfold has_timer. now destruct H as [? ->].
  - now apply user_cancel_ok.
Qed.

(** *** The start *)

Definition port_of (args : arguments) : option N :=
  match a_port args with
  | None => Some 0%N
  | Some ConvRaises => None
  | Some (Converts v) => if (v <? 0)%Z || (65535 <? v)%Z then None else Some (Z.to_N v)
  end.

Definition with_port (args : arguments) (l : list Address) : list Address :=
  match port_of args with Some p => map (set_port p) l | None => l end.

(** A round that was started and has no timer yet. *)
Record started (A : list Address) s w : Prop := {
  st_good : good A s w;
  st_open : opens w;
  st_new : timer_owns s = false /\ running s = true /\ failed_count s = 0 /\ exceptions s = []
    /\ timer_fired s = false;
  st_timer : has_timer w = false;
  st_addr : Forall (fun o => op_addr o ∈ A) (w_ops w);
  st_future : w_future w = FPending;
  st_plain : forall fd, w_fds w !! fd <> Some FdTransport;
  st_length : length (w_ops w) <= length A }.

(** Bounds what the run has left. *)
Definition bounded (A : list Address) w : Prop :=
  length (w_ops w) + (if has_timer w then length A else 0) <= S (length A).

Lemma abandon_ok clean A s w e :
  started A s w -> quiet (FSettled e) = true ->
  exists w', (w ← abandon w; settle e w) = Some w' /\ inv clean A w' /\ bounded A w'.
Proof.
  intros [G Hop (Hto & Hr & _) Ht Ha Hu Hpl Hl] He. unfold abandon.
  rewrite (g_mcs _ _ _ G). cbn [mbind option_bind].
  assert (Hb : forall w', w_ops w' = w_ops w -> has_timer w' = has_timer w -> bounded A w').
  { intros w' Eo Et. unfold bounded. rewrite Eo, Et, Ht. lia. }
  destruct (Nat.eqb_spec (pending s) 0) as [E|E]; pose proof (g_pending _ _ _ G) as Hp.
  - assert (Ho : w_ops w = []) by (apply length_zero_iff_nil; lia).
    destruct (deinit_good A s w G) as [l ->]. cbn [mbind option_bind].
    rewrite settle_held by exact (g_held _ _ _ G). eexists. split; [reflexivity|]. fields.
    split; [|now apply Hb]. rewrite Hu.
    split; fields; [apply G | same_resources (g_res _ _ _ G) | exact Hop | |].
    + apply facts_quiet; [exact He | now right].
    + split; [exact Ho|]. split; [exact Ht|]. split; [discriminate | auto].
  - destruct (abort_ok A s w G Hop) as (w2 & -> & G2 & P2 & O2 & T2 & U2 & D2 & R2).
    cbn [mbind option_bind]. rewrite settle_held by exact (g_held _ _ _ G2).
    eexists. split; [reflexivity|]. rewrite U2, Hu. cbn [settle_fut]. split; [|now apply Hb].
    pose proof (good_future A _ w2 (FSettled e) G2) as G3.
    apply (inv_of_live clean A (s <| aborted := true |>)).
    + split; auto; fields.
      * transitivity false; [exact Hto | symmetry; exact (eq_trans T2 Ht)].
      * left. intros H. fields. rewrite O2 in H. rewrite H in Hp. auto.
      * now rewrite O2.
      * intros _. exact (eq_trans T2 Ht).
      * intros H. change (has_timer w2 = true) in H. congruence.
      * intros H. apply running_settled in H as [_ H]. discriminate.
      * intros _ fd. rewrite D2. apply Hpl.
    + exact P2.
    + apply facts_quiet; [exact He|]. right. intros fd. fields. rewrite D2. apply Hpl.
Qed.

Lemma submit_all_one a w : submit_connect_for_address a w = submit_all [a] w.
Proof.
  cbn [submit_all]. destruct (submit_connect_for_address a w) as [[w' []]|]; reflexivity.
Qed.

Lemma submit_started A s w l :
  started A s w -> length (w_ops w) + length l <= length A -> Forall (fun a => a ∈ A) l ->
  exists w' s' (ok : bool) new, submit_all l w = Some (w', ok) /\ started A s' w'
    /\ w_ops w' = w_ops w ++ new
    /\ (ok = true -> w_tried w' = w_tried w ++ l /\ length new = length l).
Proof.
  intros [G Hop (Hto & Hr & Hfc & Hex & Hfi) Ht Ha Hu Hpl Hl] Hlen Hin.
  destruct (submit_all_ok A l s w G Hop) as (w' & s' & ok & new & -> & G' & P' & [Fs Fu Ft Fd] & O & An & Ln & K).
  exists w', s', ok, new. split; [reflexivity|]. split; [|auto].
  split; auto.
  - rewrite Fs. repeat split; assumption.
  - unfold has_timer in *. now rewrite Ft.
  - rewrite O. apply Forall_app. split; [exact Ha|]. eapply Forall_impl; [exact An|].
    intros o Ho. rewrite Forall_forall in Hin. auto.
  - congruence.
  - intros fd H. apply Fd in H. now apply Hpl in H.
  - rewrite O, length_app. lia.
Qed.

(** Started, and submitted: the connects go on. *)
Lemma started_inv clean A s w :
  started A s w -> w_ops w <> [] -> length (w_ops w) = length (w_tried w) -> w_tried w = A -> inv clean A w.
Proof.
  intros [G Hop (Hto & Hr & Hfc & Hex & Hfi) Ht Ha Hu Hpl Hl] Ho Hl' Htr.
  apply (inv_of_live clean A s); [|exact Hop | apply facts_quiet; [now rewrite Hu | now right]].
  destruct (running_settled s Hr) as [Hs Hb].
  split; auto; rewrite ?Ht; try congruence.
  intros _. rewrite Hfc, Hex. split; [auto|]. split; [exact Hl'|]. split; [exact Htr|].
  now destruct (all_errors s).
Qed.

(** The timer of the remaining addresses is armed. *)
Lemma armed_inv clean A s w a :
  started A s w -> w_ops w <> [] -> length (w_ops w) = length (w_tried w) -> w_tried w = [a] ->
  take 1 A = [a] -> 1 < length A ->
  inv clean A (w <| w_next := S (w_next w) |> <| w_timer := Some (w_next w) |>
                 <| w_mcs := Some (s <| happy_timer_id := Some (w_next w) |> <| timer_scheduled := true |>) |>).
Proof.
  intros [G Hop (Hto & Hr & Hfc & Hex & Hfi) Ht Ha Hu Hpl Hl] Ho Hl' Htr HA Hlt.
  destruct (running_settled s Hr) as [Hs Hb].
  apply (inv_of_live clean A (s <| happy_timer_id := Some (w_next w) |> <| timer_scheduled := true |>));
    [|exact Hop | apply facts_quiet; [fields; now rewrite Hu | now right]].
  split; fields; auto; try congruence.
  - destruct G as [G1 G2 G3 G4 G5 G6 G8]. split; auto. destruct G8 as [R1 R2 R3 R4 R5].
    split; fields; auto.
    + intros id Hid. specialize (R3 id Hid). lia.
    + intros id [= <-]. split; [lia|]. intros Hid. specialize (R3 _ Hid). lia.
    + intros fd Hfd. apply R5. lia.
  - unfold timer_owns. fields. now rewrite Hfi.
  - intros H. change (running s = false) in H. congruence.
  - intros _. split; [exact Hlt|]. intros H. congruence.
  - intros _. split; [now left|]. split; [now rewrite Hfc|]. split; [cbn; congruence|].
    rewrite Hfc, Hex. now destruct (all_errors s).
Qed.

(** What [start_attempts] leaves: a running round, or an error that is then
    handled by giving the round up. *)
Definition start_ends (clean : bool) (A : list Address) (r : option (world * option settled)) : Prop :=
  exists w e, r = Some (w, e)
    /\ match e with
       | None => inv clean A w /\ bounded A w
       | Some e => quiet (FSettled e) = true /\ exists s, started A s w
       end.

Lemma with_data A0 A all w :
  started A0 (init_mcs all) w -> w_ops w = [] ->
  started A (init_mcs all) (w <| w_data := Some A |>).
Proof.
  intros [G Hop Hn Ht Ha Hu Hpl Hl] Ho. split; auto.
  - destruct G as [G1 G2 G3 G4 G5 G6 G8]. split; auto. same_resources G8.
  - fields. rewrite Ho. constructor.
  - fields. rewrite Ho. cbn. lia.
Qed.

(** The submissions, once the ports are set. *)
Lemma submissions_ok clean all delay first rest w :
  let A := first :: rest in
  started A (init_mcs all) w -> w_ops w = [] -> w_tried w = [] ->
  start_ends clean A
    ('(w, ok) ← submit_connect_for_address first w;
     if negb ok then Some (w, Some SSubmitFailed)
     else if negb (length rest =? 0) && negb (Qle_bool delay 0) then
       let n := w_next w in
       let w := w <| w_next := S n |> in
       if queue_ok n then
         w ← upd (fun s => s <| happy_timer_id := Some n |> <| timer_scheduled := true |>)
               (w <| w_timer := Some n |>);
         Some (w, None)
       else Some (w, Some SSubmitFailed)
     else
       '(w, ok) ← submit_all rest w;
       Some (w, if ok : bool then None else Some SSubmitFailed)).
Proof.
  intros A St Ho Htr. rewrite submit_all_one.
  destruct (submit_started A _ w [first] St) as (w1 & s1 & ok & new & -> & St1 & O1 & K1);
    [rewrite Ho; cbn; lia | repeat constructor |].
  cbn [mbind option_bind]. destruct ok; cbn [negb]; [|exists w1, (Some SSubmitFailed); eauto].
  destruct (K1 eq_refl) as [T1 N1]. rewrite Ho in O1. rewrite Htr in T1. cbn [app length] in *.
  destruct (negb (length rest =? 0) && negb (Qle_bool delay 0)) eqn:E.
  - apply andb_true_iff in E as [E _]. apply negb_true_iff, Nat.eqb_neq in E.
    cbn zeta. destruct (queue_ok (w_next w1)).
    + unfold upd. fields. rewrite (g_mcs _ _ _ (st_good _ _ _ St1)). fields.
      eexists _, None. split; [reflexivity|]. split.
      * apply (armed_inv clean A s1 w1 first St1); rewrite ?O1, ?T1; auto; [|cbn; lia].
        intros H. rewrite H in N1. discriminate.
      * unfold bounded. fields. rewrite O1, N1. cbn. lia.
    + exists (w1 <| w_next := S (w_next w1) |>), (Some SSubmitFailed). split; [reflexivity|].
      split; [reflexivity|]. exists s1. destruct St1 as [G Hop Hn Ht Ha Hu Hpl Hl]. split; auto.
      destruct G as [G1 G2 G3 G4 G5 G6 [R1 R2 R3 R4 R5]]. split; auto. split; fields; auto.
      * intros id Hid. specialize (R3 id Hid). lia.
      * intros id Hid. destruct (R4 id Hid). auto with lia.
      * intros fd Hfd. apply R5. lia.
  - destruct (submit_started A s1 w1 rest St1) as (w2 & s2 & ok & new2 & -> & St2 & O2 & K2).
    + rewrite O1, N1. cbn. lia.
    + apply Forall_forall. intros a Ha. now right.
    + cbn [mbind option_bind]. eexists w2, _. split; [reflexivity|].
      destruct ok; [|split; [reflexivity | eauto]].
      destruct (K2 eq_refl) as [T2 N2]. split.
      * apply (started_inv clean A s2); [exact St2 | | | now rewrite T2, T1].
        -- rewrite O2, O1. intros H. apply app_nil in H as [H _]. rewrite H in N1. discriminate.
        -- rewrite O2, O1, T2, T1, !length_app, N1, N2. reflexivity.
      * unfold bounded. rewrite (st_timer _ _ _ St2). pose proof (st_length _ _ _ St2). lia.
Qed.

Lemma start_attempts_ok clean args delay all A0 w :
  started A0 (init_mcs all) w -> w_ops w = [] -> w_tried w = [] ->
  start_ends clean (with_port args A0) (start_attempts args delay A0 w).
Proof.
  intros St Ho Htr. unfold start_attempts.
  destruct A0 as [|a A0].
  { rewrite (settle_held _ w (g_held _ _ _ (st_good _ _ _ St))). cbn [mbind option_bind].
    replace (with_port args []) with ([] : list Address) by (unfold with_port; now destruct (port_of args)).
    set (u := settle_fut (SRaised "No addresses resolved") (w_future w)).
    destruct (inv_deinit clean [] _ _ (good_future [] _ w u (st_good _ _ _ St)) (st_open _ _ _ St))
      as (w' & -> & I & O & T & _); [| exact Ho | exact (st_timer _ _ _ St) | apply settle_not_pending |].
    - apply facts_quiet; [|right; exact (st_plain _ _ _ St)].
      unfold u. fields. now rewrite (st_future _ _ _ St).
    - exists w', None. split; [reflexivity|]. split; [exact I|]. unfold bounded. rewrite O, T. cbn. lia. }
  unfold with_port, port_of.
  assert (Herr : forall e, quiet (FSettled e) = true ->
            start_ends clean (a :: A0) (Some (w, Some e))) by (intros e He; exists w, (Some e); eauto).
  destruct (a_port args) as [[v|]|]; [| now apply Herr |].
  - destruct ((v <? 0)%Z || (65535 <? v)%Z); [now apply Herr|].
    apply (submissions_ok clean all delay (set_port (Z.to_N v) a) (map (set_port (Z.to_N v)) A0));
      [now apply (with_data (a :: A0)) | exact Ho | exact Htr].
  - apply (submissions_ok clean all delay (set_port 0 a) (map (set_port 0) A0));
      [now apply (with_data (a :: A0)) | exact Ho | exact Htr].
Qed.

(** The number of IPv6 addresses per round; 0: the order stays. *)
Definition interleave_arg (args : arguments) : N :=
  match a_interleave args with Some (Converts v) => v | _ => 0%N end.

Definition rounds (args : arguments) : nat :=
  if (0 <? interleave_arg args)%N then N.to_nat (interleave_arg args)
  else match a_delay args with Some _ => 1 | None => 0 end.

(** The order of the attempts. *)
Definition order (args : arguments) (l : list Address) : list Address :=
  with_port args (if rounds args =? 0 then l else weave (rounds args) l).

(** The build does not check arithmetic, or no round runs short. *)
Definition fits (args : arguments) (l : list Address) : bool :=
  negb checked || (rounds args =? 0) || (length (filter is_inet l) =? 0)
  || (length (filter is_inet6 l) <=? rounds args * S (length (filter is_inet l))).

(** The first two arguments can be converted. *)
Definition convertible (args : arguments) : bool :=
  match a_interleave args with Some ConvRaises => false | _ => true end
  && match a_all_errors args with Some ConvRaises => false | _ => true end.

Lemma interleave_fits args l :
  rounds args <> 0 -> Forall socket_address l -> fits args l = true ->
  interleave_address_list checked l (N.of_nat (rounds args)) = Some (Ok (weave (rounds args) l)).
Proof.
  intros Hk Hl Hf. rewrite (interleave_spec checked l (rounds args) Hk Hl).
  unfold fits in Hf. rewrite (proj2 (Nat.eqb_neq _ _) Hk) in Hf.
  destruct checked; [|reflexivity]. cbn [negb orb andb] in *.
  destruct (length (filter is_inet l) =? 0); [reflexivity|]. cbn [negb orb andb] in *.
  apply Nat.leb_le in Hf. now rewrite (proj2 (Nat.ltb_ge _ _)).
Qed.

Lemma started_fresh A all c :
  started A (init_mcs all) (World (Some (init_mcs all)) (Some A) FPending true ∅ [] None 0 [] c).
Proof.
  split; fields; auto; try reflexivity.
  - split; fields; auto; try reflexivity. split; unfold ids; fields; auto; try discriminate.
    + constructor.
    + intros id H. now apply elem_of_nil in H.
  - intros fd. unfold ids. fields. rewrite lookup_empty, elem_of_nil. split; [discriminate | intros []].
  - cbn. lia.
Qed.

(** An argument was refused before anything was started. *)
Lemma inv_refused clean A d e c :
  quiet (FSettled e) = true -> (clean = true -> d = None) ->
  let w := World None d (FSettled e) true ∅ [] None 0 [] c in inv clean A w /\ bounded A w.
Proof.
  intros He Hd w. split; [|apply Nat.le_0_l].
  pose proof (st_good _ _ _ (started_fresh A false c)) as G. split; try reflexivity.
  - destruct (g_res _ _ _ G) as [R1 R2 R3 R4 R5]. split; assumption.
  - exact (st_open _ _ _ (started_fresh A false c)).
  - apply facts_quiet; [exact He | right]. intros fd. cbn. rewrite lookup_empty. discriminate.
  - cbn. auto.
Qed.

(** The errors of a started round end in the future. *)
Definition finished (r : option (world * option settled)) : option world :=
  '(w, e) ← ('(w, e) ← r;
             match e with
             | None => Some (w, None)
             | Some e => w ← abandon w; Some (w, Some e)
             end);
  match e with None => Some w | Some e => settle e w end.

Definition finishes (clean : bool) (A : list Address) (r : option world) : Prop :=
  exists w, r = Some w /\ inv clean A w /\ bounded A w.

Lemma finish_ok clean A r : start_ends clean A r -> finishes clean A (finished r).
Proof.
  intros (w & e & -> & H). unfold finished. cbn [mbind option_bind]. destruct e as [e|]; [|exists w; auto].
  destruct H as [He [s St]]. destruct (abandon_ok clean A s w e St He) as (w' & E & I & B).
  exists w'. split; [|auto]. destruct (abandon w) as [w1|]; [exact E | discriminate].
Qed.

Definition round_world (all : bool) (A : list Address) : world :=
  World (Some (init_mcs all)) (Some A) FPending true ∅ [] None 0 [] [].

Definition first_order (args : arguments) (l : list Address) : list Address :=
  if (0 <? interleave_arg args)%N then weave (rounds args) l else l.

Lemma delayed_ok clean args all l :
  Forall socket_address l -> fits args l = true ->
  finishes clean (order args l)
    (finished (delayed_attempts args (interleave_arg args) (first_order args l)
                 (round_world all (first_order args l)))).
Proof.
  intros Hl Hf. pose proof (interleave_fits args l) as Hi.
  assert (Hst : forall delay B, with_port args B = order args l ->
    finishes clean (order args l) (finished (start_attempts args delay B (round_world all B)))).
  { intros delay B <-. apply finish_ok.
    apply (start_attempts_ok clean args delay all); [apply started_fresh | reflexivity..]. }
  unfold delayed_attempts, order, first_order, rounds in *.
  set (k := interleave_arg args) in *.
  destruct (N.ltb_spec 0 k) as [Hk|Hk].
  - rewrite (proj2 (N.eqb_neq k 0)) by lia. rewrite (proj2 (Nat.eqb_neq (N.to_nat k) 0)) in * by lia.
    destruct (a_delay args) as [[f|]|]; cbn [mbind option_bind]; [now apply Hst | | now apply Hst].
    eexists. split; [reflexivity|]. now apply (inv_refused clean).
  - rewrite (proj2 (N.eqb_eq k 0)) by lia.
    destruct (a_delay args) as [[f|]|]; cbn [Nat.eqb] in *; [ | | now apply Hst].
    + change 1%N with (N.of_nat 1). rewrite Hi by auto. cbn [mbind option_bind]. now apply Hst.
    + change 1%N with (N.of_nat 1). rewrite Hi by auto. cbn [mbind option_bind].
      eexists. split; [reflexivity|]. now apply (inv_refused clean).
Qed.

Lemma create_ok args l :
  Forall socket_address l -> fits args l = true ->
  finishes (convertible args) (order args l)
    (create_socket_connection false args (resolved l true)).
Proof.
  intros Hl Hf. pose proof (interleave_fits args l) as Hi.
  pose proof (fun c all => delayed_ok c args all l Hl Hf) as Hd.
  assert (Hmain : finishes (match a_all_errors args with Some ConvRaises => false | _ => true end) (order args l)
    ('(w, e) ← interleaved_attempts args (interleave_arg args) l (resolved l true);
     match e with None => Some w | Some e => settle e w end)).
  { unfold interleaved_attempts.
    assert (Hr : (if (0 <? interleave_arg args)%N then interleave_address_list checked l (interleave_arg args)
                  else Some (Ok l)) = Some (Ok (first_order args l))).
    { unfold first_order, rounds in *. destruct (N.ltb_spec 0 (interleave_arg args)); [|reflexivity].
      rewrite N2Nat.id in Hi. apply Hi; auto with lia. }
    rewrite Hr. cbn [mbind option_bind]. destruct (a_all_errors args) as [[b|]|].
    - exact (Hd true b).
    - eexists. split; [reflexivity|]. now apply (inv_refused false).
    - exact (Hd true false). }
  unfold create_socket_connection, z_create_socket_connection, convertible, interleave_arg in *.
  cbn [w_data resolved mbind option_bind]. destruct (a_interleave args) as [[v|]|]; [exact Hmain | | exact Hmain].
  eexists. split; [reflexivity|]. now apply (inv_refused false).
Qed.

(** *** Runs *)

(** A run given by its events. *)
Fixpoint run (evs : list event) w : option world :=
  match evs with
  | [] => Some w
  | ev :: evs' => if enabled ev w then w ← handle ev w; run evs' w else None
  end.

Lemma run_steps evs : forall w w', run evs w = Some w' -> rtc step w w'.
Proof.
  induction evs as [|ev evs IH]; intros w w' H; cbn [run] in H; [injection H as ->; apply rtc_refl|].
  destruct (enabled ev w) eqn:E; [|discriminate]. destruct (handle ev w) as [w1|] eqn:Eh; [|discriminate].
  apply (rtc_l _ w w1); [now apply (step_event ev) | now apply IH].
Qed.

Lemma run_reachable args l evs w :
  (w ← create_socket_connection false args (resolved l true); run evs w) = Some w -> reachable args l w.
Proof.
  intros H. destruct (create_socket_connection false args (resolved l true)) as [w0|] eqn:E; [|discriminate].
  exists w0. split; [exact E | now apply (run_steps evs)].
Qed.

Lemma attempt_step_ok clean A w w' : inv clean A w -> step w w' -> inv clean A w' /\ measure A w' < measure A w.
Proof.
  intros I Hs. destruct Hs as [ev w w' He Hh].
  destruct (handle_ok clean A w ev I He) as (w3 & E & H). congruence.
Qed.

Lemma steps_ok clean A w w' : inv clean A w -> rtc step w w' -> inv clean A w'.
Proof. intros I H. induction H as [|x y z Hs _ IH]; [exact I|]. now apply IH, (attempt_step_ok clean A x y I). Qed.

Lemma nsteps_ok clean A n : forall w w', inv clean A w -> nsteps step n w w' -> n <= measure A w.
Proof.
  induction n as [|n IH]; intros w w' I H; [lia|]. inversion_clear H as [|? ? y ? Hs Hn].
  destruct (attempt_step_ok clean A w y I Hs) as [I' Hm]. specialize (IH _ _ I' Hn). lia.
Qed.

Lemma attempts_inv args l w :
  Forall socket_address l -> fits args l = true -> reachable args l w ->
  inv (convertible args) (order args l) w.
Proof.
  intros Hl Hf (w0 & E & H). destruct (create_ok args l Hl Hf) as (w1 & E1 & I & _).
  apply (steps_ok _ _ w0); [congruence | exact H].
Qed.

(** Each attempt once. *)
Lemma order_perm args l : Forall socket_address l -> order args l ≡ₚ with_port args l.
Proof.
  intros Hl. unfold order. destruct (rounds args =? 0); [reflexivity|]. unfold with_port.
  destruct (port_of args); [apply fmap_Permutation|]; now apply weave_perm.
Qed.

Lemma order_length args l : Forall socket_address l -> length (order args l) = length l.
Proof.
  intros Hl. rewrite (order_perm args l Hl). unfold with_port.
  destruct (port_of args); [apply length_map | reflexivity].
Qed.

(** No completion is left to happen: everything is torn down. *)
Lemma inv_settled clean A w :
  inv clean A w -> (forall ev, ev <> EvUserCancel -> enabled ev w = false) ->
  w_mcs w = None /\ (clean = true -> w_data w = None) /\ w_future w <> FPending
  /\ forall fd, w_fds w !! fd <> Some FdOpen.
Proof.
  intros [_ _ Hop _ Hph] Hq.
  assert (Ho : ids w = []).
  { destruct (ids w) as [|id l] eqn:E; [reflexivity|].
    specialize (Hq (EvConnect id None TrMade) ltac:(discriminate)).
    apply bool_decide_eq_false in Hq. destruct Hq. change (id ∈ ids w). rewrite E. left. }
  assert (Ht : has_timer w = false).
  { specialize (Hq EvTimer ltac:(discriminate)). apply bool_decide_eq_false in Hq. unfold has_timer.
    destruct (w_timer w); [destruct Hq; eauto | reflexivity]. }
  assert (Hfd : forall fd, w_fds w !! fd <> Some FdOpen).
  { intros fd H. apply Hop in H. rewrite Ho in H. now apply elem_of_nil in H. }
  destruct (w_mcs w) as [s|]; [|destruct Hph as (_ & _ & Hf & Hd); auto].
  destruct (l_alive _ _ _ Hph) as [H|H]; [|congruence].
  apply map_eq_nil in Ho. contradiction.
Qed.


(** C8: the attempts end.  For a resolved list of socket addresses whose
    interleaving does not overflow ([fits]), a future the caller holds, and with
    memory enough: a run has at most two steps more than there are addresses; and
    as soon as no completion is left to happen - no connect in flight and no timer
    armed, whether or not the caller could still cancel - the future is settled or
    cancelled, no descriptor is open but those a transport owns, and the state is
    freed, the connection data too when the arguments could be converted. *)
Theorem connect_settles args l w0 :
  Forall socket_address l -> fits args l = true ->
  create_socket_connection false args (resolved l true) = Some w0 ->
  (forall n w, nsteps step n w0 w -> n <= length l + 2)
  /\ forall w, rtc step w0 w -> (forall ev, ev <> EvUserCancel -> enabled ev w = false) ->
       w_mcs w = None /\ (convertible args = true -> w_data w = None) /\ w_future w <> FPending
       /\ forall fd, w_fds w !! fd <> Some FdOpen.
Proof.
  intros Hl Hf E. destruct (create_ok args l Hl Hf) as (w1 & E1 & I & B).
  assert (w1 = w0) as -> by congruence. split.
  - intros n w Hn. pose proof (nsteps_ok _ _ n _ _ I Hn) as H. unfold bounded in B.
    unfold measure in H. rewrite (order_length args l Hl) in *. destruct (decide _); lia.
  - intros w Hw Hq. apply (inv_settled _ (order args l)); [now apply (steps_ok _ _ w0) | exact Hq].
Qed.

(** C16: what the future of [create_connection] says is so, for a resolved list of
    socket addresses whose interleaving does not overflow ([fits]), a future the
    caller holds, and with memory enough.  With a connection, its descriptor
    belongs to a transport and its address is one of the addresses.  The failure
    of a connect (an [OSError]) or an exception group is reported only when all the
    addresses were tried, in their order, and the group has one error for each
    (the failure of a socket or of a submission is another result, which ends the
    round at once: see [socket_failure_ends_round]).  A transport exists only when
    the future has its connection, the protocol failed, or the caller had
    cancelled. *)
Theorem connect_result args l w :
  Forall socket_address l -> fits args l = true -> reachable args l w ->
  order args l ≡ₚ with_port args l
  /\ (forall fd a, w_future w = FSettled (SConnected fd a) ->
        w_fds w !! fd = Some FdTransport /\ a ∈ order args l)
  /\ (forall e, w_future w = FSettled (SConnectFailed e) -> w_tried w = order args l)
  /\ (forall es, w_future w = FSettled (SGroup es) ->
        w_tried w = order args l /\ length es = length l)
  /\ (forall fd, w_fds w !! fd = Some FdTransport ->
        (exists a, w_future w = FSettled (SConnected fd a))
        \/ w_future w = FSettled STransportFailed \/ w_future w = FCancelled).
Proof.
  intros Hl Hf Hr. destruct (i_facts _ _ _ (attempts_inv args l w Hl Hf Hr)) as [F1 F2 F3 F4].
  split; [now apply order_perm|]. split; [exact F2|]. split; [exact F3|]. split; [|exact F1].
  intros es E. rewrite <- (order_length args l Hl). auto.
Qed.
End Attempts.

(** ** Concrete runs *)

Definition no_errno (n : nat) : option Z := None.
Definition always (n : nat) : bool := true.
Definition plain_args : arguments := Arguments_ None None None None.
Definition group_args : arguments :=
  Arguments_ (Some (Converts 1%N)) (Some (Converts true)) None (Some (Converts 80%Z)).

Ltac evaluate :=
  repeat match goal with |- _ /\ _ => split end; vm_compute; solve [reflexivity | eexists; reflexivity].

Ltac concrete :=
  repeat match goal with
  | |- Forall _ _ => constructor
  | |- socket_address _ => discriminate
  | |- _ = _ => vm_compute; reflexivity
  end.


Lemma connect_settles_witness :
  exists w0 w,
    create_socket_connection true no_errno always false plain_args (resolved [a4 0; a6 1] true) = Some w0
    /\ run no_errno always [EvConnect 0 (Some 111%Z) TrMade; EvTimer; EvConnect 2 None TrMade] w0 = Some w
    /\ w_mcs w = None /\ w_data w = None /\ w_future w = FSettled (SConnected 2 (a6 0)).
Proof.
  assert (Hr : exists w0 w,
    create_socket_connection true no_errno always false plain_args (resolved [a4 0; a6 1] true) = Some w0
    /\ run no_errno always [EvConnect 0 (Some 111%Z) TrMade; EvTimer; EvConnect 2 None TrMade] w0 = Some w
    /\ w_ops w = [] /\ w_timer w = None /\ w_future w = FSettled (SConnected 2 (a6 0)))
    by (eexists _, _; evaluate).
  destruct Hr as (w0 & w & E0 & E & Ho & Ht & Hu). exists w0, w.
  split; [exact E0|]. split; [exact E|].
  destruct (connect_settles true no_errno always plain_args [a4 0; a6 1] w0) as [_ H]; [concrete | concrete | exact E0 |].
  destruct (H w) as (H1 & H2 & _); [exact (run_steps _ _ _ _ _ E) | |].
  - intros ev Hev. destruct ev; cbn [enabled]; rewrite ?Ho, ?Ht; [reflexivity..|contradiction].
  - split; [exact H1|]. split; [now apply H2 | exact Hu].
Defined.

(** Both addresses fail, in the order the second, the first: the group has the two
    errors. *)
Lemma connect_result_witness :
  exists w,
    (w ← create_socket_connection true no_errno always false group_args (resolved [a4 0; a6 1] true);
     run no_errno always [EvConnect 0 (Some 111%Z) TrMade; EvTimer; EvConnect 2 (Some 110%Z) TrMade] w) = Some w
    /\ w_future w = FSettled (SGroup [111%Z; 110%Z])
    /\ w_tried w = order group_args [a4 0; a6 1]
    /\ order group_args [a4 0; a6 1] = [a6 80; a4 80].
Proof.
  assert (Hr : exists w,
    (w ← create_socket_connection true no_errno always false group_args (resolved [a4 0; a6 1] true);
     run no_errno always [EvConnect 0 (Some 111%Z) TrMade; EvTimer; EvConnect 2 (Some 110%Z) TrMade] w) = Some w
    /\ w_future w = FSettled (SGroup [111%Z; 110%Z])) by (eexists; evaluate).
  destruct Hr as (w & E & Hu). exists w. split; [exact E|]. split; [exact Hu|].
  destruct (connect_result true no_errno always group_args [a4 0; a6 1] w) as (_ & _ & _ & H & _);
    [concrete | concrete | exact (run_reachable _ _ _ _ _ _ _ E) |].
  split; [now apply (H [111%Z; 110%Z]) | vm_compute; reflexivity].
Defined.

(** *** What the runs show besides *)

Definition start (args : arguments) (l : list Address) : option world :=
  create_socket_connection true no_errno always false args (resolved l true).

(** A caller that cancels does not stop the attempt: the connection is made, the
    protocol gets its [connection_made], and nobody has the transport. *)
Lemma cancelled_connect_goes_on :
  exists w, (w ← start plain_args [a4 0];
             run no_errno always [EvUserCancel; EvConnect 0 None TrMade] w) = Some w
    /\ w_future w = FCancelled /\ w_fds w !! 0 = Some FdTransport.
Proof. eexists. evaluate. Qed.

(** [interleave] or [all_errors] that cannot be converted: the connection data is
    never freed. *)
Lemma bad_argument_leaks :
  exists w, start (Arguments_ (Some ConvRaises) None None None) [a4 0] = Some w
    /\ w_future w = FSettled SArgument /\ w_mcs w = None /\ w_data w = Some [a4 0].
Proof. eexists. evaluate. Qed.

(** The first address has no socket (its family is not supported): the second is
    never tried. *)
Lemma socket_failure_ends_round :
  exists w, create_socket_connection true (fun n => if n =? 0 then Some 97%Z else None) always false
              plain_args (resolved [a6 0; a4 0] true) = Some w
    /\ w_future w = FSettled SSubmitFailed /\ w_tried w = [a6 0].
Proof. eexists. evaluate. Qed.

(** Nobody else holds the future: a refused port frees it with the connection
    data, and then the exception is set on it. *)
Lemma dropped_future_faults :
  create_socket_connection true no_errno always false
    (Arguments_ None None None (Some (Converts (-1)%Z))) (resolved [a4 0] false) = None.
Proof. vm_compute. reflexivity. Qed.

(** Without [happy_eyeballs_delay] the attempts still race: a timer is armed. *)
Lemma no_delay_still_races :
  exists w, start plain_args [a4 0; a4 1] = Some w /\ w_timer w = Some 1 /\ length (w_ops w) = 1.
Proof. eexists. evaluate. Qed.

(** The loop is torn down and the timer's callback runs before the connect's:
    neither frees the state. *)
Lemma teardown_order_leaks :
  exists w, (w ← start plain_args [a4 0; a4 1];
             w ← schedule_remaining_connects_callback no_errno always true (w <| w_timer := None |>);
             '(o, w) ← take_op 0 w;
             socket_connected_callback o true None TrMade w) = Some w
    /\ w_ops w = [] /\ w_timer w = None /\ is_Some (w_mcs w) /\ is_Some (w_data w)
    /\ w_future w = FPending.
Proof. eexists. evaluate. Qed.
