(* ===== verification/Resolver.v ===== *)
(** * The asynchronous resolver

    One lookup in flight: the [ControlData] and [ServerQueryData] of
    src/src/loop/dns/resolv/types.zig, the completion handlers of
    src/src/loop/dns/resolv/response.zig, and the record of
    src/src/loop/dns/cache.zig the answer ends up in.

    Every server of the configuration has its own socket, its list of queries
    and at most one io_uring operation in flight; a completion runs the handler
    of that operation, and a handler that returns an error is followed by its
    cleanup, [ServerQueryData.release] (src/src/callback_manager.zig).
    [sv_op] is the operation in flight and [ct_log] the user callbacks handed to
    the loop, with the cancelled flag they carried; the code has no such fields.

    [ct_dispatch_ok] and [ct_alloc_ok] hold the answers of the next dispatches
    and of the next copy of the result (an exhausted list answers yes);
    appending to the arena-backed lists does not fail. *)

From S2P Require Import Prelude IpAddress DnsName.
From Stdlib Require Import Strings.Byte NArith ZArith Lia.
From stdpp Require Import base numbers relations list.

Open Scope nat_scope.

(** ** The cache record *)

Definition MAX_DNS_TTL : Z := 86400 * 7.
Definition maxInt_u32 : N := 2 ^ 32 - 1.

Definition compute_effective_ttl (ttl : N) : Z :=
  if (ttl =? maxInt_u32)%N then 60 else Z.min (Z.of_N ttl) MAX_DNS_TTL.

Inductive RecordState : Type :=
| rs_pending
| rs_resolved (addresses : list Address)
| rs_ptr (name : bytes)
| rs_none.

Record DnsCacheRecord := MkRecord {
  rc_state : RecordState;
  rc_expire_at : Z }.

Definition get_address_list (r : DnsCacheRecord) : option (list Address) :=
  match rc_state r with rs_resolved d => Some d | _ => None end.

Definition set_resolved_data (now : Z) (addresses : list Address) (ttl : N)
    : DnsCacheRecord :=
  MkRecord (rs_resolved addresses) (now + compute_effective_ttl ttl).
Definition set_ptr_data (now : Z) (name : bytes) (ttl : N) : DnsCacheRecord :=
  MkRecord (rs_ptr name) (now + compute_effective_ttl ttl).
Definition discard : DnsCacheRecord := MkRecord rs_none 0.

(** [Cache.get]'s test: an expired record is removed and not returned. *)
Definition expired (now : Z) (r : DnsCacheRecord) : bool := (rc_expire_at r <? now)%Z.

(** ** One server *)

Inductive operation : Type := OpWrite | OpRead.

Record ServerQueryData := MkServer {
  sv_open : bool;
  sv_hosts : nat;
  sv_queries : list (N * bytes);
  sv_send_idx : nat;
  sv_received : nat;
  sv_results : list Address;
  sv_ptr_results : list bytes;
  sv_min_ttl : N;
  sv_finished : bool;
  sv_op : option operation }.

Definition new_server (hosts : nat) (queries : list (N * bytes)) : ServerQueryData :=
  MkServer true hosts queries 0 0 [] [] maxInt_u32 false (Some OpWrite).

Definition sv_close (s : ServerQueryData) : ServerQueryData :=
  MkServer false (sv_hosts s) (sv_queries s) (sv_send_idx s) (sv_received s)
    (sv_results s) (sv_ptr_results s) (sv_min_ttl s) (sv_finished s) (sv_op s).
Definition sv_finish (s : ServerQueryData) : ServerQueryData :=
  MkServer (sv_open s) (sv_hosts s) (sv_queries s) (sv_send_idx s) (sv_received s)
    (sv_results s) (sv_ptr_results s) (sv_min_ttl s) true (sv_op s).
Definition sv_set_op (o : option operation) (s : ServerQueryData) : ServerQueryData :=
  MkServer (sv_open s) (sv_hosts s) (sv_queries s) (sv_send_idx s) (sv_received s)
    (sv_results s) (sv_ptr_results s) (sv_min_ttl s) (sv_finished s) o.
Definition sv_sent (s : ServerQueryData) : ServerQueryData :=
  MkServer (sv_open s) (sv_hosts s) (sv_queries s) (sv_send_idx s + 1) (sv_received s)
    (sv_results s) (sv_ptr_results s) (sv_min_ttl s) (sv_finished s) (sv_op s).
Definition sv_count (s : ServerQueryData) : ServerQueryData :=
  MkServer (sv_open s) (sv_hosts s) (sv_queries s) (sv_send_idx s) (sv_received s + 1)
    (sv_results s) (sv_ptr_results s) (sv_min_ttl s) (sv_finished s) (sv_op s).

(** One parsed answer, filed under names or addresses, or dropped. *)
Definition sv_add (r : dns_record) (s : ServerQueryData) : ServerQueryData :=
  let ttl := default maxInt_u32 (rr_ttl r) in
  match rr_ptr_name r with
  | Some name =>
      MkServer (sv_open s) (sv_hosts s) (sv_queries s) (sv_send_idx s) (sv_received s)
        (sv_results s) (sv_ptr_results s ++ [name]) (N.min (sv_min_ttl s) ttl)
        (sv_finished s) (sv_op s)
  | None =>
      if decide (rr_address r = NoAddress) then s
      else
        MkServer (sv_open s) (sv_hosts s) (sv_queries s) (sv_send_idx s) (sv_received s)
          (sv_results s ++ [rr_address r]) (sv_ptr_results s)
          (N.min (sv_min_ttl s) ttl) (sv_finished s) (sv_op s)
  end.

Definition has_results (s : ServerQueryData) : bool :=
  (0 <? length (sv_results s)) || (0 <? length (sv_ptr_results s)).

(** ** The answer section *)

Fixpoint parse_answers (answers_left : nat) (response : bytes) (offset : nat)
    : list dns_record :=
  match answers_left with
  | 0 => []
  | S n =>
      match parse_individual_dns_result response offset with
      | (None, _) => []
      | (Some new_offset, r) => r :: parse_answers n response new_offset
      end
  end.

(** Past the one question of the response; the offset stays where a malformed
    question leaves it. *)
Definition skip_question (response : bytes) : nat :=
  match skip_name response 12 with
  | None => 12
  | Some offset => if length response <? offset + 4 then offset else offset + 4
  end.

(** What a datagram is: of no query (or too short), rejected by its flags,
    rejected otherwise, or the answers to a question that was asked. *)
Inductive verdict : Type :=
| Unrelated
| BadFlags
| Rejected
| Answers (records : list dns_record).

Definition u16_at (response : bytes) (off : nat) : N :=
  readInt_big (slice response off (off + 2)).

Definition classify (queries : list (N * bytes)) (response : bytes) : verdict :=
  if length response <? 2 then Unrelated
  else match list_find (fun q => u16_at response 0 = q.1) queries with
  | None => Unrelated
  | Some (_, (_, query)) =>
      if length response <? 12 then Unrelated
      else
        let flags := u16_at response 2 in
        let qr := negb (N.land flags 0x8000 =? 0)%N in
        let opcode := N.land (N.shiftr flags 11) 0x0F in
        let rcode := N.land flags 0x000F in
        if negb qr || negb (opcode =? 0)%N || negb (rcode =? 0)%N then BadFlags
        else
          let tc := negb (N.land flags 0x0200 =? 0)%N in
          if tc then Rejected
          else
            let qdcount := u16_at response 4 in
            let ancount := u16_at response 6 in
            if negb (qdcount =? 1)%N then Rejected
            else
              let question_len := length query - 12 in
              if length response <? 12 + question_len then Rejected
              else if decide (slice response 12 (12 + question_len)
                              = slice query 12 (length query))
              then Answers (if (0 <? ancount)%N
                            then parse_answers (N.to_nat ancount) response
                                   (skip_question response)
                            else [])
              else Rejected
  end.

(** ** The lookup *)

Record ControlData := MkControl {
  ct_servers : list ServerQueryData;
  ct_tasks_finished : nat;
  ct_resolved : bool;
  ct_record_evicted : bool;
  ct_released : bool;
  ct_destroyed : bool;
  ct_callbacks : list nat;
  ct_record : DnsCacheRecord;
  ct_now : Z;
  ct_log : list (nat * bool);
  ct_dispatch_ok : list bool;
  ct_alloc_ok : list bool }.

Implicit Types (c : ControlData).

Definition set_servers (l : list ServerQueryData) c : ControlData :=
  MkControl l (ct_tasks_finished c) (ct_resolved c) (ct_record_evicted c)
    (ct_released c) (ct_destroyed c) (ct_callbacks c) (ct_record c) (ct_now c)
    (ct_log c) (ct_dispatch_ok c) (ct_alloc_ok c).
Definition set_resolved (b : bool) c : ControlData :=
  MkControl (ct_servers c) (ct_tasks_finished c) b (ct_record_evicted c)
    (ct_released c) (ct_destroyed c) (ct_callbacks c) (ct_record c) (ct_now c)
    (ct_log c) (ct_dispatch_ok c) (ct_alloc_ok c).
Definition set_record (r : DnsCacheRecord) c : ControlData :=
  MkControl (ct_servers c) (ct_tasks_finished c) (ct_resolved c) (ct_record_evicted c)
    (ct_released c) (ct_destroyed c) (ct_callbacks c) r (ct_now c)
    (ct_log c) (ct_dispatch_ok c) (ct_alloc_ok c).
Definition set_released (destroyed : bool) c : ControlData :=
  MkControl (ct_servers c) (ct_tasks_finished c) (ct_resolved c) (ct_record_evicted c)
    true destroyed (ct_callbacks c) (ct_record c) (ct_now c)
    (ct_log c) (ct_dispatch_ok c) (ct_alloc_ok c).
Definition set_tasks (n : nat) c : ControlData :=
  MkControl (ct_servers c) n (ct_resolved c) (ct_record_evicted c)
    (ct_released c) (ct_destroyed c) (ct_callbacks c) (ct_record c) (ct_now c)
    (ct_log c) (ct_dispatch_ok c) (ct_alloc_ok c).
Definition set_callbacks (l : list nat) c : ControlData :=
  MkControl (ct_servers c) (ct_tasks_finished c) (ct_resolved c) (ct_record_evicted c)
    (ct_released c) (ct_destroyed c) l (ct_record c) (ct_now c)
    (ct_log c) (ct_dispatch_ok c) (ct_alloc_ok c).
Definition set_evicted c : ControlData :=
  MkControl (ct_servers c) (ct_tasks_finished c) (ct_resolved c) true
    (ct_released c) (ct_destroyed c) (ct_callbacks c) (ct_record c) (ct_now c)
    (ct_log c) (ct_dispatch_ok c) (ct_alloc_ok c).
Definition set_log (log : list (nat * bool)) (oks : list bool) c : ControlData :=
  MkControl (ct_servers c) (ct_tasks_finished c) (ct_resolved c) (ct_record_evicted c)
    (ct_released c) (ct_destroyed c) (ct_callbacks c) (ct_record c) (ct_now c)
    log oks (ct_alloc_ok c).
Definition set_alloc (oks : list bool) c : ControlData :=
  MkControl (ct_servers c) (ct_tasks_finished c) (ct_resolved c) (ct_record_evicted c)
    (ct_released c) (ct_destroyed c) (ct_callbacks c) (ct_record c) (ct_now c)
    (ct_log c) (ct_dispatch_ok c) oks.

Definition on_server (i : nat) (f : ServerQueryData -> ServerQueryData) c : ControlData :=
  set_servers (alter f i (ct_servers c)) c.

(** Handing one user callback to the loop. *)
Definition dispatch (cb : nat) (cancelled : bool) c : bool * ControlData :=
  match ct_dispatch_ok c with
  | false :: oks => (false, set_log (ct_log c) oks c)
  | true :: oks => (true, set_log (ct_log c ++ [(cb, cancelled)]) oks c)
  | [] => (true, set_log (ct_log c ++ [(cb, cancelled)]) [] c)
  end.

(** As cancelled, one by one; a failure is only logged. *)
Definition dispatch_cancelled (cbs : list nat) c : ControlData :=
  fold_left (fun c cb => (dispatch cb true c).2) cbs c.

(** The dispatch phase: after a failure the remaining callbacks, the failed one
    included, are cancelled. *)
Fixpoint dispatch_user_callbacks (cbs : list nat) c : ControlData :=
  match cbs with
  | [] => c
  | cb :: cbs' =>
      match dispatch cb false c with
      | (true, c) => dispatch_user_callbacks cbs' c
      | (false, c) => dispatch_cancelled cbs c
      end
  end.

(** [ControlData.release]; [loop_initialized] decides whether the memory is
    freed now or parked until the loop has drained its completions. *)
Definition control_release (loop_initialized : bool) c : ControlData :=
  if ct_released c then c
  else
    let c := set_released (ct_destroyed c) c in
    let c :=
      if ct_resolved c then c
      else
        let c := if ct_record_evicted c then c else set_record discard c in
        dispatch_cancelled (ct_callbacks c) c in
    set_released loop_initialized c.

(** [ServerQueryData.cancel]. *)
Definition cancel (i : nat) c : ControlData := on_server i sv_close c.

Definition is_finished (i : nat) c : bool :=
  match ct_servers c !! i with Some s => sv_finished s | None => true end.

(** [ServerQueryData.release]. *)
Definition server_release (loop_initialized : bool) (i : nat) c : ControlData :=
  if is_finished i c then c
  else
    let c := on_server i sv_finish c in
    let c := cancel i c in
    let c := set_tasks (ct_tasks_finished c + 1) c in
    if ct_tasks_finished c =? length (ct_servers c)
    then control_release loop_initialized c else c.

Definition should_fail_resolution_on_server_finish c : bool :=
  (ct_tasks_finished c + 1 =? length (ct_servers c)) && negb (ct_resolved c).

(** Closing the sockets of the servers that have not finished. *)
Definition cancel_live c : ControlData :=
  set_servers ((fun s => if sv_finished s then s else sv_close s) <$> ct_servers c) c.

(** The copy of the result ([allocator.dupe]). *)
Definition alloc c : bool * ControlData :=
  match ct_alloc_ok c with
  | ok :: oks => (ok, set_alloc oks c)
  | [] => (true, c)
  end.

(** [mark_resolved_and_execute_user_callbacks]; [false] is a failed copy, which
    takes [resolved] back. *)
Definition mark_resolved (i : nat) c : bool * ControlData :=
  if ct_resolved c then (true, c)
  else
    let c := set_resolved true c in
    let c := cancel_live c in
    let '(ok, c) :=
      if ct_record_evicted c then (true, c)
      else match ct_servers c !! i with
      | None => (true, c)
      | Some s =>
          match sv_ptr_results s, sv_results s with
          | name :: _, _ =>
              match alloc c with
              | (true, c) => (true, set_record (set_ptr_data (ct_now c) name (sv_min_ttl s)) c)
              | (false, c) => (false, c)
              end
          | [], _ :: _ =>
              match alloc c with
              | (true, c) =>
                  (true, set_record
                           (set_resolved_data (ct_now c) (sv_results s) (sv_min_ttl s)) c)
              | (false, c) => (false, c)
              end
          | [], [] => (true, set_record discard c)
          end
      end in
    if ok then (true, dispatch_user_callbacks (ct_callbacks c) c)
    else (false, set_resolved false c).

(** ** Completions *)

(** How an operation ended: cancelled, with an error, or with the datagram that
    was read (for a write, the data is not looked at). *)
Inductive completion : Type :=
| CompCancelled
| CompError
| CompData (response : bytes).

(** [loop.io.queue]; [false] is its error. *)
Definition queue_op (i : nat) (o : operation) (queue_ok : bool) c : bool * ControlData :=
  if queue_ok then (true, on_server i (sv_set_op (Some o)) c) else (false, c).

(** [if (cond) try mark_resolved...; release()]. *)
Definition finish (loop_initialized : bool) (i : nat) (mark : bool) c : bool * ControlData :=
  let '(ok, c) := if mark then mark_resolved i c else (true, c) in
  if ok then (true, server_release loop_initialized i c) else (false, c).

Definition on_query_sent (loop_initialized : bool) (i : nat) (comp : completion)
    (queue_ok : bool) c : bool * ControlData :=
  match comp, ct_resolved c with
  | CompData _, false =>
      let c := on_server i sv_sent c in
      match ct_servers c !! i with
      | Some s =>
          if sv_send_idx s <? length (sv_queries s)
          then queue_op i OpWrite queue_ok c
          else queue_op i OpRead queue_ok c
      | None => (true, c)
      end
  | _, _ => finish loop_initialized i (should_fail_resolution_on_server_finish c) c
  end.

(** A datagram that is dropped: wait for the next one, or finish. *)
Definition drop_response (loop_initialized : bool) (i : nat) (always_mark queue_ok : bool) c
    : bool * ControlData :=
  let c := on_server i sv_count c in
  match ct_servers c !! i with
  | Some s =>
      if (sv_received s <? length (sv_queries s)) && negb (ct_resolved c)
      then queue_op i OpRead queue_ok c
      else finish loop_initialized i
             (always_mark || has_results s || should_fail_resolution_on_server_finish c) c
  | None => (true, c)
  end.

Definition types_per_host (s : ServerQueryData) : nat :=
  if (0 <? sv_hosts s) && (sv_hosts s * 2 <=? length (sv_queries s)) then 2 else 1.

(** After the answers of a datagram have been filed. *)
Definition after_answers (loop_initialized : bool) (i : nat) (queue_ok : bool) c
    : bool * ControlData :=
  let c := on_server i sv_count c in
  match ct_servers c !! i with
  | Some s =>
      let current_candidate_done := sv_received s mod types_per_host s =? 0 in
      if has_results s
         && (current_candidate_done || (length (sv_queries s) <=? sv_received s))
      then finish loop_initialized i true c
      else if (sv_received s <? length (sv_queries s)) && negb (ct_resolved c)
      then queue_op i OpRead queue_ok c
      else finish loop_initialized i
             (has_results s || should_fail_resolution_on_server_finish c) c
  | None => (true, c)
  end.

Definition process_dns_response (loop_initialized : bool) (i : nat) (comp : completion)
    (queue_ok : bool) c : bool * ControlData :=
  match comp, ct_resolved c, ct_servers c !! i with
  | CompCancelled, _, _ | _, true, _ | _, _, None =>
      (true, server_release loop_initialized i c)
  | CompError, false, Some s =>
      finish loop_initialized i
        (has_results s || should_fail_resolution_on_server_finish c) c
  | CompData response, false, Some s =>
      match classify (sv_queries s) response with
      | BadFlags => drop_response loop_initialized i false queue_ok c
      | Rejected => drop_response loop_initialized i true queue_ok c
      | Unrelated => after_answers loop_initialized i queue_ok c
      | Answers records =>
          after_answers loop_initialized i queue_ok
            (on_server i (fun s => fold_left (fun s r => sv_add r s) records s) c)
      end
  end.

(** A completion of server [i]: the operation is no longer in flight, its
    handler runs, and on an error its cleanup. *)
Definition complete (loop_initialized : bool) (i : nat) (comp : completion)
    (queue_ok : bool) c : ControlData :=
  match ct_servers c !! i with
  | Some s =>
      match sv_op s with
      | Some o =>
          let c := on_server i (sv_set_op None) c in
          let '(ok, c) :=
            match o with
            | OpWrite => on_query_sent loop_initialized i comp queue_ok c
            | OpRead => process_dns_response loop_initialized i comp queue_ok c
            end in
          if ok then c else server_release loop_initialized i c
      | None => c
      end
  | None => c
  end.

(** [Record.append_callback], called when the same name is looked up again;
    [false] is [RecordAlreadyResolved] or [RecordNotPending]. *)
Definition append_callback (cb : nat) c : bool * ControlData :=
  match rc_state (ct_record c) with
  | rs_pending =>
      if ct_resolved c then (false, c)
      else (true, set_callbacks (ct_callbacks c ++ [cb]) c)
  | _ => (false, c)
  end.

(** [evict_record], for a record that is still pending. *)
Definition evict_record c : ControlData :=
  match rc_state (ct_record c) with rs_pending => set_evicted c | _ => c end.

(** The lookup [prepare_data] and [queue] start. *)
Definition start (servers : list ServerQueryData) (cb : nat) (now : Z)
    (dispatch_oks alloc_oks : list bool) : ControlData :=
  MkControl servers 0 false false false false [cb]
    (MkRecord rs_pending (2 ^ 63 - 1)) now [] dispatch_oks alloc_oks.

(** While the loop is open: completions of operations in flight, further
    lookups of the name, eviction of the record.  An evicted record is out of
    the cache, so it is not appended to. *)
Inductive step : ControlData -> ControlData -> Prop :=
| step_complete c i s comp queue_ok :
    ct_servers c !! i = Some s -> sv_op s <> None ->
    step c (complete true i comp queue_ok c)
| step_append c cb :
    ct_record_evicted c = false -> step c (append_callback cb c).2
| step_evict c : step c (evict_record c).

(** ** Frames *)

(** [c'] is [c] with more callbacks handed over. *)
Definition log_only c c' : Prop := c' = set_log (ct_log c') (ct_dispatch_ok c') c.

Definition reliable c : Prop := Forall (fun b => b = true) (ct_dispatch_ok c).

(** [c'] handed over part of [cbs], in order; all of it when no dispatch
    fails. *)
Definition hands_over (cbs : list nat) c c' : Prop :=
  log_only c c'
  /\ exists d, ct_log c' = ct_log c ++ d /\ d.*1 `sublist_of` cbs
     /\ (reliable c -> d.*1 = cbs /\ reliable c').

Lemma log_only_trans c1 c2 c3 : log_only c1 c2 -> log_only c2 c3 -> log_only c1 c3.
Proof. unfold log_only. intros -> ->. reflexivity. Qed.

Lemma hands_over_nil c : hands_over [] c c.
Proof.
  split; [now destruct c|]. exists []. rewrite app_nil_r. repeat split; auto.
Qed.

Lemma dispatch_hands_over cb b c :
  match dispatch cb b c with
  | (true, c') => hands_over [cb] c c' /\ (reliable c -> reliable c')
  | (false, c') => hands_over [] c c' /\ ~ reliable c
  end.
Proof.
  unfold dispatch, hands_over, log_only, reliable.
  destruct (ct_dispatch_ok c) as [|[] oks] eqn:E; cbn.
  - split; [|intros _; constructor]. split; [reflexivity|].
    exists [(cb, b)]. repeat split; try reflexivity; constructor.
  - split; [|intros H; now inversion H]. split; [reflexivity|].
    exists [(cb, b)]. split; [reflexivity|]. split; [reflexivity|].
    intros H. inversion H. auto.
  - split; [|intros H; inversion H; discriminate]. split; [reflexivity|].
    exists []. rewrite app_nil_r. split; [reflexivity|]. split; [constructor|].
    intros H. inversion H. discriminate.
Qed.

Lemma hands_over_app l1 l2 c1 c2 c3 :
  hands_over l1 c1 c2 -> hands_over l2 c2 c3 -> hands_over (l1 ++ l2) c1 c3.
Proof.
  intros (O1 & d1 & L1 & S1 & R1) (O2 & d2 & L2 & S2 & R2).
  split; [now apply (log_only_trans _ c2)|]. exists (d1 ++ d2).
  rewrite fmap_app. split; [rewrite L2, L1, app_assoc; reflexivity|].
  split; [now apply sublist_app|]. intros [E1 H2]%R1. destruct (R2 H2) as [E2 H3].
  split; [congruence | exact H3].
Qed.

Lemma hands_over_skip cb l c c' :
  ~ reliable c -> hands_over l c c' -> hands_over (cb :: l) c c'.
Proof.
  intros Hn (O & d & L & S & R). split; [exact O|]. exists d.
  split; [exact L|]. split; [now apply sublist_cons|]. contradiction.
Qed.

Lemma dispatch_cancelled_hands_over cbs c : hands_over cbs c (dispatch_cancelled cbs c).
Proof.
  revert c. induction cbs as [|cb cbs IH]; intros c; [apply hands_over_nil|].
  cbn. pose proof (dispatch_hands_over cb true c) as H.
  destruct (dispatch cb true c) as [[] c1]; cbn [snd].
  - destruct H as [H _]. exact (hands_over_app [cb] cbs _ _ _ H (IH c1)).
  - destruct H as [H Hn]. apply hands_over_skip; [exact Hn|].
    exact (hands_over_app [] cbs _ _ _ H (IH c1)).
Qed.

Lemma dispatch_user_callbacks_hands_over cbs c :
  hands_over cbs c (dispatch_user_callbacks cbs c).
Proof.
  revert c. induction cbs as [|cb cbs IH]; intros c; [apply hands_over_nil|].
  cbn [dispatch_user_callbacks]. pose proof (dispatch_hands_over cb false c) as H.
  destruct (dispatch cb false c) as [[] c1].
  - destruct H as [H _]. exact (hands_over_app [cb] cbs _ _ _ H (IH c1)).
  - destruct H as [H _].
    exact (hands_over_app [] (cb :: cbs) _ _ _ H (dispatch_cancelled_hands_over _ c1)).
Qed.

(** ** The invariant of a lookup *)

Definition finished_count (l : list ServerQueryData) : nat :=
  sum_list_with (fun s => if sv_finished s then 1 else 0) l.

(** An unfinished server waits for exactly one completion and has something
    left to send or to receive. *)
Definition server_wf (s : ServerQueryData) : Prop :=
  match sv_op s with
  | None => sv_finished s = true
  | Some OpWrite => sv_finished s = false /\ sv_send_idx s < length (sv_queries s)
                    /\ sv_received s < length (sv_queries s)
  | Some OpRead => sv_finished s = false /\ sv_received s < length (sv_queries s)
  end.

(** Completions the server still waits for, at most. *)
Definition server_work (s : ServerQueryData) : nat :=
  if sv_finished s then 0
  else 1 + (length (sv_queries s) - sv_send_idx s) + (length (sv_queries s) - sv_received s).

Definition total_work c : nat := sum_list_with server_work (ct_servers c).

Definition settled c : Prop := ct_resolved c = true \/ ct_released c = true.

Record control_wf (rel : bool) c : Prop := {
  cw_servers : Forall server_wf (ct_servers c);
  cw_tasks : ct_tasks_finished c = finished_count (ct_servers c);
  cw_released : ct_released c = true <-> ct_tasks_finished c = length (ct_servers c);
  cw_destroyed : ct_destroyed c = ct_released c;
  cw_reliable : rel = true -> reliable c;
  cw_waiting : ~ settled c -> ct_log c = [];
  cw_settled : settled c ->
    (ct_log c).*1 `sublist_of` ct_callbacks c /\ (rel = true -> (ct_log c).*1 = ct_callbacks c)
    /\ (ct_record_evicted c = true \/ rc_state (ct_record c) <> rs_pending
        \/ ct_resolved c = true) }.

Lemma sum_alter {B} (g : B -> nat) f i (l : list B) s :
  l !! i = Some s ->
  sum_list_with g (alter f i l) + g s = sum_list_with g l + g (f s).
Proof.
  revert i. induction l as [|x l IH]; intros [|i]; cbn; try discriminate.
  - intros [= ->]. lia.
  - intros H%IH. fold (alter f i l) in *. lia.
Qed.

Lemma sum_fmap_same {B} (g : B -> nat) f (l : list B) :
  (forall x, g (f x) = g x) -> sum_list_with g (f <$> l) = sum_list_with g l.
Proof. intros H. induction l as [|x l IH]; cbn; [reflexivity | now rewrite H, <- IH]. Qed.

Lemma finished_count_le l : finished_count l <= length l.
Proof. unfold finished_count. induction l as [|s l IH]; cbn; [lia|]. destruct (sv_finished s); lia. Qed.

Lemma finished_count_lt l i s :
  l !! i = Some s -> sv_finished s = false -> finished_count l < length l.
Proof.
  revert i. induction l as [|x l IH]; intros [|i]; cbn; try discriminate.
  - intros [= ->] ->. pose proof (finished_count_le l). unfold finished_count in *. lia.
  - intros H Hf. specialize (IH i H Hf). unfold finished_count in *.
    destruct (sv_finished x); lia.
Qed.

(** While the handler of server [i] runs. *)
Record busy (rel : bool) (i : nat) c : Prop := {
  bz_self : exists s, ct_servers c !! i = Some s /\ sv_finished s = false /\ sv_op s = None;
  bz_others : forall j s, ct_servers c !! j = Some s -> j <> i -> server_wf s;
  bz_tasks : ct_tasks_finished c = finished_count (ct_servers c);
  bz_released : ct_released c = false;
  bz_destroyed : ct_destroyed c = false;
  bz_reliable : rel = true -> reliable c;
  bz_waiting : ct_resolved c = false -> ct_log c = [];
  bz_settled : ct_resolved c = true ->
    (ct_log c).*1 `sublist_of` ct_callbacks c
    /\ (rel = true -> (ct_log c).*1 = ct_callbacks c) }.

(** A change of server [i] that keeps it unfinished and idle. *)
Lemma busy_on_server rel i f c :
  busy rel i c ->
  (forall s, sv_finished (f s) = sv_finished s /\ sv_op (f s) = sv_op s) ->
  busy rel i (on_server i f c).
Proof.
  intros [(s & Hs & Hf & Ho) H2 H3 H4 H5 H6 H7 H8] Hfs.
  split; cbn [ct_servers ct_tasks_finished ct_released ct_destroyed ct_dispatch_ok ct_resolved
              ct_log ct_callbacks on_server set_servers]; try assumption.
  - exists (f s). rewrite list_lookup_alter_eq, Hs. destruct (Hfs s) as [E1 E2].
    cbn. repeat split; congruence.
  - intros j s' Hj Hne. rewrite list_lookup_alter_ne in Hj by congruence. eauto.
  - pose proof (sum_alter (fun s => if sv_finished s then 1 else 0) f i _ s Hs) as E.
    unfold finished_count in *. cbn in E. rewrite (proj1 (Hfs s)) in E. lia.
Qed.

Lemma total_work_on_server i f c s :
  ct_servers c !! i = Some s ->
  total_work (on_server i f c) + server_work s = total_work c + server_work (f s).
Proof. apply (sum_alter server_work). Qed.

Lemma control_release_spec rel c :
  ct_released c = false -> ct_destroyed c = false ->
  (rel = true -> reliable c) ->
  (ct_resolved c = false -> ct_log c = []) ->
  (ct_resolved c = true ->
    (ct_log c).*1 `sublist_of` ct_callbacks c
    /\ (rel = true -> (ct_log c).*1 = ct_callbacks c)) ->
  let c' := control_release true c in
  ct_servers c' = ct_servers c /\ ct_tasks_finished c' = ct_tasks_finished c
  /\ ct_released c' = true /\ ct_destroyed c' = true
  /\ (rel = true -> reliable c')
  /\ (ct_log c').*1 `sublist_of` ct_callbacks c'
  /\ (rel = true -> (ct_log c').*1 = ct_callbacks c')
  /\ (ct_record_evicted c' = true \/ rc_state (ct_record c') <> rs_pending
      \/ ct_resolved c' = true).
Proof.
  intros Hr Hd Hrel Hw Hs. unfold control_release. rewrite Hr. cbn zeta.
  destruct (ct_resolved c) eqn:E; cbn [ct_resolved set_released].
  - rewrite E. destruct (Hs eq_refl) as [H1 H2]. cbn. auto 10.
  - rewrite E.
    set (c1 := if ct_record_evicted _ then _ else _).
    assert (Hc1 : ct_servers c1 = ct_servers c /\ ct_tasks_finished c1 = ct_tasks_finished c
                  /\ ct_log c1 = [] /\ ct_callbacks c1 = ct_callbacks c
                  /\ ct_dispatch_ok c1 = ct_dispatch_ok c
                  /\ (ct_record_evicted c1 = true \/ rc_state (ct_record c1) <> rs_pending)).
    { unfold c1. cbn [ct_record_evicted set_released].
      destruct (ct_record_evicted c) eqn:Ev; cbn; rewrite ?Hw by reflexivity;
        repeat split; auto; right; discriminate. }
    destruct Hc1 as (S1 & T1 & L1 & C1 & D1 & R1).
    pose proof (dispatch_cancelled_hands_over (ct_callbacks c1) c1) as (O & d & Ld & Sd & Rd).
    set (c2 := dispatch_cancelled _ c1) in *. rewrite L1 in Ld. cbn [app] in Ld.
    unfold log_only in O. unfold reliable in *. rewrite D1 in Rd.
    assert (F : ct_servers c2 = ct_servers c1 /\ ct_tasks_finished c2 = ct_tasks_finished c1
                /\ ct_callbacks c2 = ct_callbacks c1 /\ ct_record_evicted c2 = ct_record_evicted c1
                /\ ct_record c2 = ct_record c1) by (rewrite O; cbn; auto).
    destruct F as (F1 & F2 & F3 & F4 & F5).
    cbn. rewrite F1, F2, F3, F4, F5, S1, T1, Ld. repeat split; auto.
    + intros Hre. apply Rd, Hrel, Hre.
    + intros Hre. apply Rd, Hrel, Hre.
    + tauto.
Qed.

Lemma server_work_finish s : sv_finished s = false ->
  server_work (sv_close (sv_finish s)) = 0 /\ 0 < server_work s.
Proof. intros H. unfold server_work. cbn. rewrite H. lia. Qed.

(** The servers after server [i] has been finished and closed. *)
Lemma finished_servers rel i c :
  busy rel i c ->
  let l := alter sv_close i (alter sv_finish i (ct_servers c)) in
  Forall server_wf l /\ length l = length (ct_servers c)
  /\ finished_count l = finished_count (ct_servers c) + 1
  /\ sum_list_with server_work l < total_work c.
Proof.
  intros [(s & Hs & Hf & Ho) Hot _ _ _ _ _ _]. cbn zeta.
  assert (Hs' : alter sv_finish i (ct_servers c) !! i = Some (sv_finish s))
    by (rewrite list_lookup_alter_eq, Hs; reflexivity).
  split; [|split; [now rewrite !length_alter|split]].
  - apply Forall_lookup. intros j s' Hj. destruct (decide (j = i)) as [->|Hne].
    + rewrite list_lookup_alter_eq, Hs' in Hj. cbn in Hj. injection Hj as <-.
      unfold server_wf. cbn. rewrite Ho. reflexivity.
    + rewrite !list_lookup_alter_ne in Hj by congruence. eauto.
  - pose proof (sum_alter (fun s => if sv_finished s then 1 else 0) sv_finish i _ s Hs) as E1.
    pose proof (sum_alter (fun s => if sv_finished s then 1 else 0) sv_close i _ _ Hs') as E2.
    unfold finished_count. cbn in E1, E2. rewrite Hf in E1. lia.
  - pose proof (sum_alter server_work sv_finish i _ s Hs) as E1.
    pose proof (sum_alter server_work sv_close i _ _ Hs') as E2.
    destruct (server_work_finish s Hf) as [W1 W2]. unfold total_work.
    assert (server_work (sv_finish s) = 0) by reflexivity. lia.
Qed.

Lemma server_release_spec rel i c :
  busy rel i c ->
  control_wf rel (server_release true i c) /\ total_work (server_release true i c) < total_work c.
Proof.
  intros HB. destruct (finished_servers rel i c HB) as (HF & HL & HC & HW).
  destruct HB as [(s & Hs & Hf & Ho) Hot Ht Hr Hd Hre Hw Hse].
  unfold server_release, is_finished. rewrite Hs, Hf. cbn zeta.
  set (l := alter sv_close i (alter sv_finish i (ct_servers c))) in *.
  set (c1 := set_tasks _ _).
  assert (E1 : c1 = set_tasks (ct_tasks_finished c + 1) (set_servers l c)) by reflexivity.
  clearbody c1. subst c1. cbn [ct_tasks_finished set_tasks ct_servers set_servers].
  destruct (Nat.eqb_spec (ct_tasks_finished c + 1) (length l)) as [E|E].
  - destruct (control_release_spec rel (set_tasks (ct_tasks_finished c + 1) (set_servers l c)))
      as (P1 & P2 & P3 & P4 & P5 & P6 & P7 & P8); try assumption.
    set (c' := control_release true _) in *. cbn in P1, P2. split.
    + split; rewrite ?P1, ?P2, ?P3, ?P4; try assumption; try lia; [|auto].
      intros Hn. exfalso. apply Hn. now right.
    + unfold total_work. rewrite P1. exact HW.
  - split; [|exact HW].
    split; cbn [ct_servers ct_tasks_finished ct_released ct_destroyed ct_log ct_callbacks
                ct_record_evicted ct_record ct_resolved set_tasks set_servers];
      try assumption; try lia.
    + rewrite Hr. split; [discriminate | lia].
    + congruence.
    + intros Hn. apply Hw. destruct (ct_resolved c) eqn:Er; [|reflexivity].
      exfalso. apply Hn. now left.
    + intros [Hse'|Hse']; cbn in Hse'; [|congruence]. destruct (Hse Hse') as [H1 H2]. auto.
Qed.

Lemma alloc_frame c : exists oks, (alloc c).2 = set_alloc oks c.
Proof.
  unfold alloc. destruct (ct_alloc_ok c) as [|ok oks] eqn:E.
  - exists []. destruct c; cbn in *; now rewrite E.
  - now exists oks.
Qed.

Lemma busy_frame rel i c c' :
  busy rel i c ->
  ct_servers c' = ct_servers c -> ct_tasks_finished c' = ct_tasks_finished c ->
  ct_released c' = ct_released c -> ct_destroyed c' = ct_destroyed c ->
  ct_dispatch_ok c' = ct_dispatch_ok c -> ct_callbacks c' = ct_callbacks c ->
  ct_log c' = ct_log c -> ct_resolved c' = ct_resolved c -> busy rel i c'.
Proof.
  intros [] E1 E2 E3 E4 E5 E6 E7 E8.
  split; unfold reliable in *; rewrite ?E1, ?E2, ?E3, ?E4, ?E5, ?E6, ?E7, ?E8; assumption.
Qed.

Lemma cancel_live_lookup c i s :
  ct_servers c !! i = Some s ->
  ct_servers (cancel_live c) !! i = Some (if sv_finished s then s else sv_close s).
Proof. intros H. cbn. now rewrite list_lookup_fmap, H. Qed.

Lemma cancel_live_busy rel i c : busy rel i c -> busy rel i (cancel_live c).
Proof.
  intros [(s & Hs & Hf & Ho) Hot Ht Hr Hd Hre Hw Hse].
  assert (Hone : forall x, sv_finished (if sv_finished x then x else sv_close x) = sv_finished x)
    by (intros x; destruct (sv_finished x) eqn:E; [exact E | exact E]).
  split; try assumption.
  - exists (sv_close s). rewrite (cancel_live_lookup c i s Hs), Hf. auto.
  - intros j x Hj Hne. cbn in Hj. rewrite list_lookup_fmap in Hj.
    destruct (ct_servers c !! j) as [y|] eqn:Ey; [|discriminate]. injection Hj as <-.
    specialize (Hot j y Ey Hne). destruct (sv_finished y) eqn:Efy; [exact Hot|].
    unfold server_wf in *. cbn. rewrite Efy in *. exact Hot.
  - cbn. rewrite Ht. unfold finished_count. rewrite sum_fmap_same; [reflexivity|].
    intros x. now rewrite Hone.
Qed.

Lemma cancel_live_work c : total_work (cancel_live c) = total_work c.
Proof.
  unfold total_work. cbn. apply sum_fmap_same. intros s. unfold server_work.
  destruct (sv_finished s) eqn:E; cbn; now rewrite E.
Qed.

(** The record phase of [mark_resolved] changes the record and nothing else that
    matters here. *)
Definition record_phase (i : nat) c : bool * ControlData :=
  if ct_record_evicted c then (true, c)
  else match ct_servers c !! i with
  | None => (true, c)
  | Some s =>
      match sv_ptr_results s, sv_results s with
      | name :: _, _ =>
          match alloc c with
          | (true, c) => (true, set_record (set_ptr_data (ct_now c) name (sv_min_ttl s)) c)
          | (false, c) => (false, c)
          end
      | [], _ :: _ =>
          match alloc c with
          | (true, c) =>
              (true, set_record (set_resolved_data (ct_now c) (sv_results s) (sv_min_ttl s)) c)
          | (false, c) => (false, c)
          end
      | [], [] => (true, set_record discard c)
      end
  end.

Lemma mark_resolved_eq i c :
  mark_resolved i c =
  if ct_resolved c then (true, c)
  else let '(ok, c) := record_phase i (cancel_live (set_resolved true c)) in
       if ok then (true, dispatch_user_callbacks (ct_callbacks c) c)
       else (false, set_resolved false c).
Proof. reflexivity. Qed.

Lemma record_phase_frame i c :
  exists r oks, (record_phase i c).2 = set_record r (set_alloc oks c).
Proof.
  assert (Hid : exists r oks, c = set_record r (set_alloc oks c))
    by (exists (ct_record c), (ct_alloc_ok c); now destruct c).
  unfold record_phase. destruct (ct_record_evicted c); [exact Hid|].
  destruct (ct_servers c !! i) as [s|]; [|exact Hid].
  destruct (alloc_frame c) as [oks Ha]. destruct (alloc c) as [[] c1]; cbn [snd] in Ha; subst c1.
  all: destruct (sv_ptr_results s); [destruct (sv_results s)|]; cbn [snd]; eauto.
Qed.

Lemma mark_resolved_spec rel i c :
  busy rel i c ->
  busy rel i (mark_resolved i c).2 /\ total_work (mark_resolved i c).2 = total_work c
  /\ ((mark_resolved i c).1 = true -> ct_resolved (mark_resolved i c).2 = true).
Proof.
  intros HB. rewrite mark_resolved_eq. destruct (ct_resolved c) eqn:Er; [auto|].
  set (c1 := cancel_live (set_resolved true c)).
  destruct (record_phase_frame i c1) as (r & oks & Hp).
  destruct (record_phase i c1) as [ok c2]. cbn [snd] in Hp.
  assert (W1 : total_work c1 = total_work c) by (unfold c1; rewrite cancel_live_work; reflexivity).
  assert (HB0 : busy rel i (set_resolved false c1)).
  { unfold c1. change (set_resolved false (cancel_live (set_resolved true c)))
      with (cancel_live (set_resolved false c)). apply cancel_live_busy.
    apply (busy_frame rel i c); auto. }
  destruct ok; cbn [fst snd].
  - destruct HB0 as [Hs Hot Ht Hrl Hd Hre Hw Hse].
    pose proof (bz_waiting _ _ _ HB Er) as Hw0.
    pose proof (dispatch_user_callbacks_hands_over (ct_callbacks c2) c2) as (O & d & Ld & Sd & Rd).
    unfold log_only in O. set (c3 := dispatch_user_callbacks _ c2) in *.
    rewrite Hp in O. cbn in O.
    assert (Hlog : ct_log c3 = d) by (rewrite Ld, Hp; cbn; now rewrite Hw0).
    assert (Hcb : ct_callbacks c2 = ct_callbacks c) by now rewrite Hp.
    assert (F : ct_servers c3 = ct_servers c1 /\ ct_tasks_finished c3 = ct_tasks_finished c
                /\ ct_released c3 = ct_released c /\ ct_destroyed c3 = ct_destroyed c
                /\ ct_callbacks c3 = ct_callbacks c /\ ct_resolved c3 = true)
      by (rewrite O; cbn; auto 10).
    destruct F as (F1 & F2 & F3 & F4 & F5 & F6).
    assert (Hrel2 : rel = true -> reliable c2).
    { intros Hre'. unfold reliable. rewrite Hp. cbn. exact (Hre Hre'). }
    split; [|split; [unfold total_work in *; rewrite F1; exact W1 | auto]].
    split; rewrite ?F1, ?F2, ?F3, ?F4, ?F5, ?F6; try assumption.
    + intros Hre'. now apply Rd, Hrel2.
    + discriminate.
    + intros _. rewrite Hlog. rewrite Hcb in Sd. split; [exact Sd|].
      intros Hre'. destruct (Rd (Hrel2 Hre')) as [E _]. congruence.
  - split; [|split; [|discriminate]].
    + apply (busy_frame rel i (set_resolved false c1)); [exact HB0|..];
        rewrite Hp; reflexivity.
    + rewrite Hp. exact W1.
Qed.

(** What a handler may leave behind: on success a well-formed lookup with less
    to wait for; on an error, the state its cleanup expects. *)
Definition handler_ok (rel : bool) (i W : nat) (r : bool * ControlData) : Prop :=
  match r with
  | (true, c) => control_wf rel c /\ total_work c < W
  | (false, c) => busy rel i c /\ total_work c <= W
  end.

Lemma finish_spec rel i m c W :
  busy rel i c -> total_work c <= W -> handler_ok rel i W (finish true i m c).
Proof.
  intros HB HW. unfold finish.
  assert (HM : busy rel i (if m then mark_resolved i c else (true, c)).2
               /\ total_work (if m then mark_resolved i c else (true, c)).2 = total_work c).
  { destruct m; [|auto]. destruct (mark_resolved_spec rel i c HB) as (H1 & H2 & _). auto. }
  destruct (if m then mark_resolved i c else (true, c)) as [[] c1]; cbn [snd] in HM;
    destruct HM as [H1 H2].
  - destruct (server_release_spec rel i c1 H1) as [H3 H4]. split; [exact H3 | lia].
  - split; [exact H1 | lia].
Qed.

Lemma busy_lookup rel i c : busy rel i c -> exists s, ct_servers c !! i = Some s.
Proof. intros [(s & Hs & _) _ _ _ _ _ _ _]. eauto. Qed.

Lemma queue_op_spec rel i o ok c s W :
  busy rel i c -> ct_servers c !! i = Some s -> server_wf (sv_set_op (Some o) s) ->
  total_work c < W -> handler_ok rel i W (queue_op i o ok c).
Proof.
  intros HB Hs Hwf HW. unfold queue_op. destruct ok; [|split; [exact HB | lia]].
  split.
  2: { pose proof (total_work_on_server i (sv_set_op (Some o)) c s Hs) as E.
       assert (server_work (sv_set_op (Some o) s) = server_work s) by reflexivity. lia. }
  destruct HB as [(s' & Hs' & Hf & Ho) Hot Ht Hr Hd Hre Hw Hse].
  rewrite Hs in Hs'. injection Hs' as <-.
  assert (Hc : finished_count (alter (sv_set_op (Some o)) i (ct_servers c))
               = finished_count (ct_servers c)).
  { pose proof (sum_alter (fun s => if sv_finished s then 1 else 0) (sv_set_op (Some o)) i _ s Hs)
      as E. unfold finished_count. cbn in E. rewrite Hf in E. lia. }
  pose proof (finished_count_lt _ _ _ Hs Hf) as Hlt.
  split; cbn [ct_servers ct_tasks_finished ct_released ct_destroyed ct_log ct_callbacks
              ct_record_evicted ct_record ct_resolved on_server set_servers];
    rewrite ?length_alter; try assumption; try congruence.
  - apply Forall_lookup. intros j x Hj. destruct (decide (j = i)) as [->|Hne].
    + rewrite list_lookup_alter_eq, Hs in Hj. injection Hj as <-. exact Hwf.
    + rewrite list_lookup_alter_ne in Hj by congruence. eauto.
  - rewrite Hr. split; [discriminate | lia].
  - intros Hn. apply Hw. destruct (ct_resolved c) eqn:Er; [|reflexivity].
    exfalso. apply Hn. now left.
  - intros [Hse'|Hse']; cbn in Hse'; [|congruence]. destruct (Hse Hse'). auto.
Qed.

(** The server whose operation completed, as the handler finds it. *)
Lemma complete_busy rel i s c :
  control_wf rel c -> ct_servers c !! i = Some s -> sv_op s <> None ->
  busy rel i (on_server i (sv_set_op None) c)
  /\ total_work (on_server i (sv_set_op None) c) = total_work c.
Proof.
  intros [HF Ht Hr Hd Hre Hw Hse] Hs Ho.
  assert (Hf : sv_finished s = false).
  { pose proof (Forall_lookup_1 _ _ _ _ HF Hs) as H. unfold server_wf in H.
    destruct (sv_op s) as [[]|]; [tauto | tauto | congruence]. }
  pose proof (finished_count_lt _ _ _ Hs Hf) as Hlt.
  assert (Hrf : ct_released c = false).
  { destruct (ct_released c) eqn:E; [|reflexivity]. destruct Hr as [Hr _].
    specialize (Hr eq_refl). lia. }
  split.
  2: { pose proof (total_work_on_server i (sv_set_op None) c s Hs) as E.
       assert (server_work (sv_set_op None s) = server_work s) by reflexivity. lia. }
  split; cbn [ct_servers ct_tasks_finished ct_released ct_destroyed ct_log ct_callbacks
              ct_resolved on_server set_servers]; try assumption; try congruence.
  - exists (sv_set_op None s). rewrite list_lookup_alter_eq, Hs. auto.
  - intros j x Hj Hne. rewrite list_lookup_alter_ne in Hj by congruence.
    exact (Forall_lookup_1 _ _ _ _ HF Hj).
  - pose proof (sum_alter (fun s => if sv_finished s then 1 else 0) (sv_set_op None) i _ s Hs)
      as E. unfold finished_count in *. cbn in E. rewrite Hf in E. lia.
  - intros Er. apply Hw. intros [H|H]; congruence.
  - intros Er. destruct (Hse (or_introl Er)) as (H1 & H2 & _). auto.
Qed.

Lemma on_query_sent_spec rel i comp ok c s W :
  busy rel i c -> total_work c <= W -> ct_servers c !! i = Some s ->
  sv_send_idx s < length (sv_queries s) -> sv_received s < length (sv_queries s) ->
  handler_ok rel i W (on_query_sent true i comp ok c).
Proof.
  intros HB HW Hs H1 H2. unfold on_query_sent.
  destruct comp as [| |response]; [now apply finish_spec .. |].
  destruct (ct_resolved c); [now apply finish_spec|]. cbn zeta.
  assert (HB' : busy rel i (on_server i sv_sent c)) by (apply busy_on_server; auto).
  assert (Hs' : ct_servers (on_server i sv_sent c) !! i = Some (sv_sent s))
    by (cbn; rewrite list_lookup_alter_eq, Hs; reflexivity).
  assert (Hf : sv_finished s = false).
  { destruct (bz_self _ _ _ HB) as (s' & E & Hf & _). congruence. }
  assert (Hw' : total_work (on_server i sv_sent c) < W).
  { pose proof (total_work_on_server i sv_sent c s Hs) as E.
    unfold server_work in E. cbn [sv_finished sv_queries sv_send_idx sv_received sv_sent] in E.
    rewrite Hf in E. lia. }
  rewrite Hs'. cbn [sv_send_idx sv_queries sv_sent].
  destruct (Nat.ltb_spec (sv_send_idx s + 1) (length (sv_queries s)));
    apply (queue_op_spec rel i _ ok _ (sv_sent s) W HB' Hs'); try exact Hw'; cbn; auto.
Qed.

(** Filing answers does not touch what the invariant reads. *)
Definition files (f : ServerQueryData -> ServerQueryData) : Prop :=
  forall s, sv_finished (f s) = sv_finished s /\ sv_op (f s) = sv_op s
            /\ sv_queries (f s) = sv_queries s /\ sv_send_idx (f s) = sv_send_idx s
            /\ sv_received (f s) = sv_received s.

Lemma files_records records : files (fun s => fold_left (fun s r => sv_add r s) records s).
Proof.
  assert (H1 : forall r, files (sv_add r)).
  { intros r s. unfold sv_add. destruct (rr_ptr_name r); [cbn; auto|].
    destruct (decide _); cbn; auto. }
  induction records as [|r rs IH]; intros s; cbn; [auto|].
  destruct (IH (sv_add r s)) as (E1 & E2 & E3 & E4 & E5).
  destruct (H1 r s) as (F1 & F2 & F3 & F4 & F5). repeat split; congruence.
Qed.

(** Both ways a datagram is accounted for start the same way. *)
Lemma count_busy rel i c s W :
  busy rel i c -> total_work c <= W -> ct_servers c !! i = Some s ->
  sv_received s < length (sv_queries s) ->
  busy rel i (on_server i sv_count c)
  /\ ct_servers (on_server i sv_count c) !! i = Some (sv_count s)
  /\ total_work (on_server i sv_count c) < W /\ sv_finished s = false.
Proof.
  intros HB HW Hs H2.
  assert (Hf : sv_finished s = false).
  { destruct (bz_self _ _ _ HB) as (s' & E & Hf & _). congruence. }
  split; [apply busy_on_server; auto|]. split; [cbn; rewrite list_lookup_alter_eq, Hs; reflexivity|].
  split; [|exact Hf].
  pose proof (total_work_on_server i sv_count c s Hs) as E.
  unfold server_work in E. cbn [sv_finished sv_queries sv_send_idx sv_received sv_count] in E.
  rewrite Hf in E. lia.
Qed.

Lemma drop_response_spec rel i m ok c s W :
  busy rel i c -> total_work c <= W -> ct_servers c !! i = Some s ->
  sv_received s < length (sv_queries s) ->
  handler_ok rel i W (drop_response true i m ok c).
Proof.
  intros HB HW Hs H2. destruct (count_busy rel i c s W HB HW Hs H2) as (HB' & Hs' & Hw & Hf).
  unfold drop_response. cbn zeta. rewrite Hs'. cbn [sv_received sv_queries sv_count].
  destruct (Nat.ltb_spec (sv_received s + 1) (length (sv_queries s))); cbn [andb].
  - destruct (negb _); [|apply finish_spec; [exact HB' | lia]].
    apply (queue_op_spec rel i _ ok _ (sv_count s) W HB' Hs'); [cbn; auto | exact Hw].
  - apply finish_spec; [exact HB' | lia].
Qed.

Lemma after_answers_spec rel i ok c s W :
  busy rel i c -> total_work c <= W -> ct_servers c !! i = Some s ->
  sv_received s < length (sv_queries s) ->
  handler_ok rel i W (after_answers true i ok c).
Proof.
  intros HB HW Hs H2. destruct (count_busy rel i c s W HB HW Hs H2) as (HB' & Hs' & Hw & Hf).
  unfold after_answers. cbn zeta. rewrite Hs'.
  destruct (has_results _ && _); [apply finish_spec; [exact HB' | lia]|].
  cbn [sv_received sv_queries sv_count].
  destruct (Nat.ltb_spec (sv_received s + 1) (length (sv_queries s))); cbn [andb].
  - destruct (negb _); [|apply finish_spec; [exact HB' | lia]].
    apply (queue_op_spec rel i _ ok _ (sv_count s) W HB' Hs'); [cbn; auto | exact Hw].
  - apply finish_spec; [exact HB' | lia].
Qed.

Lemma process_dns_response_spec rel i comp ok c s W :
  busy rel i c -> total_work c <= W -> ct_servers c !! i = Some s ->
  sv_received s < length (sv_queries s) ->
  handler_ok rel i W (process_dns_response true i comp ok c).
Proof.
  intros HB HW Hs H2. unfold process_dns_response.
  assert (Hrel : handler_ok rel i W (true, server_release true i c)).
  { destruct (server_release_spec rel i c HB) as [H3 H4]. split; [exact H3 | lia]. }
  rewrite Hs. destruct comp as [| |response]; [exact Hrel | |].
  - destruct (ct_resolved c); [exact Hrel | now apply finish_spec].
  - destruct (ct_resolved c); [exact Hrel|].
    destruct (classify (sv_queries s) response) as [| | |records].
    + now apply (after_answers_spec rel i ok c s).
    + now apply (drop_response_spec rel i false ok c s).
    + now apply (drop_response_spec rel i true ok c s).
    + set (f := fun s => fold_left _ records s).
      pose proof (files_records records : files f) as Hfile.
      destruct (Hfile s) as (E1 & E2 & E3 & E4 & E5).
      apply (after_answers_spec rel i ok _ (f s)).
      * apply busy_on_server; [exact HB|]. intros x.
        destruct (Hfile x) as (F1 & F2 & _). auto.
      * pose proof (total_work_on_server i f c s Hs) as E. unfold server_work in E.
        rewrite E1, E3, E4, E5 in E. lia.
      * cbn. rewrite list_lookup_alter_eq, Hs. reflexivity.
      * congruence.
Qed.

Lemma complete_spec rel i s comp ok c :
  control_wf rel c -> ct_servers c !! i = Some s -> sv_op s <> None ->
  control_wf rel (complete true i comp ok c)
  /\ total_work (complete true i comp ok c) < total_work c.
Proof.
  intros HC Hs Ho. destruct (complete_busy rel i s c HC Hs Ho) as [HB HW].
  pose proof (Forall_lookup_1 _ _ _ _ (cw_servers _ _ HC) Hs) as Hwf.
  unfold complete. rewrite Hs. unfold server_wf in Hwf.
  assert (Hs' : ct_servers (on_server i (sv_set_op None) c) !! i = Some (sv_set_op None s))
    by (cbn; rewrite list_lookup_alter_eq, Hs; reflexivity).
  destruct (sv_op s) as [o|]; [|congruence]. cbn zeta.
  match goal with |- context [let '(ok, c) := ?r in _] =>
    assert (Hr : handler_ok rel i (total_work c) r) end.
  { destruct o.
    - apply (on_query_sent_spec rel i comp ok _ _ _ HB (Nat.eq_le_incl _ _ HW) Hs'); cbn; tauto.
    - apply (process_dns_response_spec rel i comp ok _ _ _ HB (Nat.eq_le_incl _ _ HW) Hs'); cbn; tauto. }
  match goal with |- context [let '(ok, c) := ?r in _] => destruct r as [[] c1] end.
  - exact Hr.
  - destruct Hr as [H1 H2]. destruct (server_release_spec rel i c1 H1) as [H3 H4].
    split; [exact H3 | lia].
Qed.

Lemma append_callback_wf rel cb c :
  control_wf rel c -> ct_record_evicted c = false -> control_wf rel (append_callback cb c).2.
Proof.
  intros HC He. unfold append_callback.
  destruct (rc_state (ct_record c)) eqn:Es; [|exact HC ..].
  destruct (ct_resolved c) eqn:Er; [exact HC|]. cbn [snd].
  destruct HC as [HF Ht Hr Hd Hre Hw Hse].
  assert (Hns : ~ settled c).
  { intros Hs. destruct (Hse Hs) as (_ & _ & [H|[H|H]]); congruence. }
  split; try assumption.
  intros Hs. exfalso. apply Hns. exact Hs.
Qed.

Lemma evict_record_wf rel c : control_wf rel c -> control_wf rel (evict_record c).
Proof.
  intros HC. unfold evict_record. destruct (rc_state (ct_record c)) eqn:Es; [|exact HC ..].
  destruct HC as [HF Ht Hr Hd Hre Hw Hse]. split; try assumption.
  intros Hs. destruct (Hse Hs) as (H1 & H2 & _). auto.
Qed.

Lemma step_wf rel c c' : step c c' -> control_wf rel c -> control_wf rel c'.
Proof.
  intros [c0 i s comp ok Hs Ho|c0 cb He|c0] HC.
  - exact (proj1 (complete_spec rel i s comp ok c0 HC Hs Ho)).
  - now apply append_callback_wf.
  - now apply evict_record_wf.
Qed.

Lemma steps_wf rel c c' : rtc step c c' -> control_wf rel c -> control_wf rel c'.
Proof. induction 1 as [|c1 c2 c3 H _ IH]; [auto|]. intros HC. apply IH. eapply step_wf; eauto. Qed.

(** A lookup as [prepare_data] starts it: at least one server, each with its
    queries and its first write in flight. *)
Definition fresh_lookup (servers : list ServerQueryData) : Prop :=
  servers <> [] /\ Forall (fun s => exists hosts q qs, s = new_server hosts (q :: qs)) servers.

Lemma fresh_wf servers cb now oks allocs rel :
  fresh_lookup servers -> (rel = true -> Forall (fun b => b = true) oks) ->
  control_wf rel (start servers cb now oks allocs).
Proof.
  intros [Hne HF] Hrel.
  assert (H0 : finished_count servers = 0).
  { clear Hne. unfold finished_count. induction HF as [|s l (h & q & qs & ->) _ IH]; cbn; lia. }
  split; cbn [start ct_servers ct_tasks_finished ct_released ct_destroyed ct_log]; auto.
  - eapply Forall_impl; [exact HF|]. intros s (h & q & qs & ->). cbn. lia.
  - split; [discriminate|]. destruct servers; [congruence | discriminate].
  - intros [H|H]; discriminate.
Qed.

Lemma no_work_left rel c :
  control_wf rel c -> (forall i s, ct_servers c !! i = Some s -> sv_op s = None) ->
  ct_released c = true.
Proof.
  intros HC Hno. apply (cw_released _ _ HC). rewrite (cw_tasks _ _ HC).
  pose proof (cw_servers _ _ HC) as HF. unfold finished_count.
  assert (Hall : Forall (fun s => sv_finished s = true) (ct_servers c)).
  { apply Forall_lookup. intros i s Hs. pose proof (Forall_lookup_1 _ _ _ _ HF Hs) as H.
    unfold server_wf in H. now rewrite (Hno i s Hs) in H. }
  clear - Hall. induction Hall as [|s l Hs _ IH]; cbn; [reflexivity|]. rewrite Hs, IH. reflexivity.
Qed.

(** Every lookup ends and answers everyone who asked: from the moment the
    queries are sent, whatever the servers answer, in whatever order, with
    timeouts, cancellations, failed submissions, further lookups of the same
    name and eviction of the record in between, no caller's callback is handed
    to the loop twice or out of order, and when no operation is in flight any
    more the lookup has been released, every server is finished, and (unless
    the loop refused a callback) every callback has been handed over exactly
    once. *)
Theorem lookup_answers_once (servers : list ServerQueryData) (cb : nat) (now : Z)
    (dispatch_oks allocs : list bool) (c : ControlData)
    (Hfresh : fresh_lookup servers)
    (Hreach : rtc step (start servers cb now dispatch_oks allocs) c) :
  (ct_log c).*1 `sublist_of` ct_callbacks c
  /\ ((forall i s, ct_servers c !! i = Some s -> sv_op s = None) ->
      ct_released c = true /\ ct_destroyed c = true
      /\ Forall (fun s => sv_finished s = true) (ct_servers c)
      /\ (Forall (fun b => b = true) dispatch_oks -> (ct_log c).*1 = ct_callbacks c)).
Proof.
  assert (HC : control_wf false c)
    by (apply (steps_wf false _ _ Hreach), fresh_wf; [exact Hfresh | discriminate]).
  split.
  - destruct (ct_resolved c) eqn:Er; [now apply (cw_settled _ _ HC); left|].
    destruct (ct_released c) eqn:El; [now apply (cw_settled _ _ HC); right|].
    rewrite (cw_waiting _ _ HC); [apply sublist_nil_l|]. intros [H|H]; congruence.
  - intros Hno. pose proof (no_work_left _ c HC Hno) as Hrel. split; [exact Hrel|].
    split; [rewrite (cw_destroyed _ _ HC); exact Hrel|]. split.
    + apply Forall_lookup. intros i s Hs.
      pose proof (Forall_lookup_1 _ _ _ _ (cw_servers _ _ HC) Hs) as H.
      unfold server_wf in H. now rewrite (Hno i s Hs) in H.
    + intros Hoks.
      assert (HC' : control_wf true c)
        by (apply (steps_wf true _ _ Hreach), fresh_wf; auto).
      apply (cw_settled _ _ HC'); [now right | reflexivity].
Qed.

(** A lookup cannot go on for ever: every completion of an operation in
    flight uses up part of a finite budget (one unit per query to send, one per
    response to read and one to finish, for each server), so after at most that
    many completions nothing is in flight; further lookups of the name and
    evictions do not add to it. *)
Theorem lookup_terminates (servers : list ServerQueryData) (cb : nat) (now : Z)
    (dispatch_oks allocs : list bool) (c : ControlData)
    (Hfresh : fresh_lookup servers)
    (Hreach : rtc step (start servers cb now dispatch_oks allocs) c) :
  (forall i s comp queue_ok, ct_servers c !! i = Some s -> sv_op s <> None ->
     total_work (complete true i comp queue_ok c) < total_work c)
  /\ (forall cb', total_work (append_callback cb' c).2 = total_work c)
  /\ total_work (evict_record c) = total_work c
  /\ (total_work c = 0 -> forall i s, ct_servers c !! i = Some s -> sv_op s = None).
Proof.
  assert (HC : control_wf false c)
    by (apply (steps_wf false _ _ Hreach), fresh_wf; [exact Hfresh | discriminate]).
  split; [|split; [|split]].
  - intros i s comp ok Hs Ho. exact (proj2 (complete_spec false i s comp ok c HC Hs Ho)).
  - intros cb'. unfold append_callback. destruct (rc_state _); [|reflexivity ..].
    now destruct (ct_resolved c).
  - unfold evict_record. now destruct (rc_state _).
  - intros H0 i s Hs. pose proof (Forall_lookup_1 _ _ _ _ (cw_servers _ _ HC) Hs) as Hwf.
    assert (Hw : server_work s = 0).
    { unfold total_work in H0. clear - H0 Hs. revert i Hs H0.
      induction (ct_servers c) as [|x l IH]; intros [|i]; cbn; try discriminate.
      - intros [= ->]. lia.
      - intros Hs H0. apply (IH i Hs). lia. }
    unfold server_wf in Hwf. unfold server_work in Hw.
    destruct (sv_op s) as [[]|]; [| |reflexivity]; destruct Hwf as [Hf _]; rewrite Hf in Hw; lia.
Qed.

(** ** Which answers are believed *)

Lemma slice_split (data : bytes) a b :
  a <= b -> b <= length data -> data = take a data ++ slice data a b ++ drop b data.
Proof.
  intros Hab Hb. unfold slice. rewrite <- (take_drop a data) at 1. f_equal.
  rewrite <- (take_drop (b - a) (drop a data)) at 1. f_equal.
  rewrite drop_drop. f_equal. lia.
Qed.

Lemma slice_query_bytes id q h :
  slice (query_bytes id q h) 12 (length (query_bytes id q h))
  = encode_labels (splitScalar dot h) ++ [x00] ++ be16 (intFromEnum q) ++ be16 1.
Proof.
  set (tl := encode_labels (splitScalar dot h) ++ _).
  set (hd := be16 id ++ be16 0x0100 ++ be16 1 ++ be16 0 ++ be16 0 ++ be16 0).
  assert (E : query_bytes id q h = hd ++ tl)
    by (unfold hd, tl, query_bytes; now rewrite <- !app_assoc).
  rewrite E. unfold slice. change 12 with (length hd). rewrite drop_app_length.
  apply take_ge. rewrite length_app. lia.
Qed.

(** A response that repeats the question of a query reads as that question. *)
Lemma question_echo response id t h :
  validate_hostname h = true -> 12 <= length response -> length h + 18 <= length response ->
  slice response 12 (length h + 18) = slice (query_bytes id t h) 12 (length (query_bytes id t h)) ->
  parse_name response 12 = NameOk h
  /\ slice response (length h + 14) (length h + 18) = be16 (intFromEnum t) ++ be16 1.
Proof.
  intros Hv E12 El Esl. rewrite slice_query_bytes in Esl.
  pose proof (slice_split response 12 (length h + 18) ltac:(lia) El) as Hsp.
  rewrite Esl in Hsp. set (post := drop (length h + 18) response) in Hsp. clearbody post.
  set (pre := take 12 response) in *.
  assert (Hpre : length pre = 12) by (unfold pre; rewrite length_take; lia).
  pose proof (length_encode_split h) as He.
  pose proof (length_labels_le (splitScalar dot h)) as Hll.
  split.
  - rewrite <- !app_assoc in Hsp. cbn [app] in Hsp.
    pose proof (parse_labels (splitScalar dot h) pre
                  (be16 (intFromEnum t) ++ be16 1 ++ post)
                  [] 0 (parse_name_fuel response)
                  (validate_hostname_labels h Hv)
                  ltac:(unfold parse_name_fuel, max_pointers; lia)) as HP.
    cbn [app be16] in HP, Hsp. rewrite <- Hsp, Hpre, join_from_split in HP by exact Hv. exact HP.
  - rewrite Hsp at 1.
    replace (length h + 14) with (length (pre ++ encode_labels (splitScalar dot h) ++ [x00]))
      by (rewrite !length_app; cbn [length]; lia).
    replace (length h + 18)
      with (length (pre ++ encode_labels (splitScalar dot h) ++ [x00])
            + length (be16 (intFromEnum t) ++ be16 1))
      by (rewrite !length_app; cbn [length be16]; lia).
    match goal with |- slice ?d _ _ = _ =>
      replace d with ((pre ++ encode_labels (splitScalar dot h) ++ [x00])
                        ++ (be16 (intFromEnum t) ++ be16 1) ++ post)
        by (rewrite <- !app_assoc; reflexivity)
    end.
    apply slice_after.
Qed.

(** A flag that is tested by its mask. *)
Lemma mask_bit flags k :
  N.land flags (2 ^ k) <> 0%N <-> N.testbit flags k = true.
Proof.
  split.
  - intros Hne. destruct (N.testbit flags k) eqn:Eb; [reflexivity|]. exfalso. apply Hne.
    apply N.bits_inj. intros i. rewrite N.land_spec, N.bits_0, N.pow2_bits_eqb.
    destruct (N.eqb_spec k i) as [<-|]; [now rewrite Eb | apply andb_false_r].
  - intros Hb H0. pose proof (N.land_spec flags (2 ^ k) k) as Hs.
    rewrite H0, N.bits_0, Hb, N.pow2_bits_true in Hs. discriminate.
Qed.

(** Only a response to a question that was asked is believed: a datagram
    whose answers are used carries the identifier of one of the pending queries,
    is a standard response without error or truncation, and its question
    section decodes to exactly the host name, type and class of that query. *)
Theorem accepted_answers_question (queries : list (N * bytes)) (response : bytes)
    (records : list dns_record)
    (Hq : Forall (fun q => exists t h, validate_hostname h = true
                           /\ q.2 = query_bytes q.1 t h) queries)
    (H : classify queries response = Answers records) :
  exists id t h,
    (id, query_bytes id t h) ∈ queries /\ validate_hostname h = true /\ u16_at response 0 = id
    /\ parse_name response 12 = NameOk h
    /\ slice response (length h + 14) (length h + 18) = be16 (intFromEnum t) ++ be16 1
    /\ N.testbit (u16_at response 2) 15 = true
    /\ N.land (N.shiftr (u16_at response 2) 11) 0x0F = 0%N
    /\ N.land (u16_at response 2) 0x000F = 0%N
    /\ N.testbit (u16_at response 2) 9 = false.
Proof.
  revert H. unfold classify.
  destruct (_ <? 2); [discriminate|].
  destruct (list_find _ queries) as [[k [id query]]|] eqn:Ef; [|discriminate].
  apply list_find_Some in Ef as (Hk & Hid & _). cbn [fst] in Hid.
  pose proof (list_elem_of_lookup_2 _ _ _ Hk) as Hin.
  rewrite Forall_forall in Hq. destruct (Hq _ Hin) as (t & h & Hv & Hqb). cbn [fst snd] in Hqb.
  destruct (_ <? 12) eqn:E12; [discriminate|]. apply Nat.ltb_ge in E12. cbn zeta.
  set (flags := u16_at response 2).
  destruct (negb (negb (N.land flags 32768 =? 0)%N) || _ || _) eqn:Efl; [discriminate|].
  apply orb_false_iff in Efl as [Efl Erc]. apply orb_false_iff in Efl as [Eqr Eop].
  destruct (negb (N.land flags 512 =? 0)%N) eqn:Etc; [discriminate|].
  destruct (negb (u16_at response 4 =? 1)%N); [discriminate|].
  destruct (_ <? 12 + (length query - 12)) eqn:El; [discriminate|]. apply Nat.ltb_ge in El.
  destruct (decide _) as [Esl|]; [|discriminate]. intros _. subst query.
  pose proof (length_query_bytes id t h) as Hlq.
  replace (12 + (length (query_bytes id t h) - 12)) with (length h + 18) in * by lia.
  destruct (question_echo response id t h Hv E12 El Esl) as [Hname Htype].
  exists id, t, h. split; [exact Hin|]. split; [exact Hv|]. split; [exact Hid|]. split; [exact Hname|].
  split; [exact Htype|]. split; [|split; [|split]].
  - apply negb_false_iff, negb_true_iff, N.eqb_neq in Eqr. now apply mask_bit.
  - now apply negb_false_iff, N.eqb_eq in Eop.
  - now apply negb_false_iff, N.eqb_eq in Erc.
  - apply negb_false_iff, N.eqb_eq in Etc. apply not_true_iff_false. intros Hb.
    now apply (mask_bit flags 9) in Hb.
Qed.

(** ** Example lookups *)

Definition demo_query : N * bytes := (7%N, query_bytes 7 q_ipv4 localhost).

(** A response to it: the header with [flags] and one A record. *)
Definition demo_response (flags : N) : bytes :=
  be16 7 ++ be16 flags ++ be16 1 ++ be16 1 ++ be16 0 ++ be16 0
  ++ drop 12 (query_bytes 7 q_ipv4 localhost)
  ++ [xc0; x0c; x00; x01; x00; x01; x00; x00; x01; x2c; x00; x04; x0a; x00; x00; x01].

Definition demo_server : ServerQueryData := new_server 1 [demo_query].
Definition demo_lookup (n : nat) : ControlData :=
  start (replicate n demo_server) 1 1000 [] [].

Lemma accepted_answers_question_witness :
  exists id t h,
    (id, query_bytes id t h) ∈ [demo_query] /\ validate_hostname h = true
    /\ u16_at (demo_response 0x8180) 0 = id
    /\ parse_name (demo_response 0x8180) 12 = NameOk h
    /\ slice (demo_response 0x8180) (length h + 14) (length h + 18)
       = be16 (intFromEnum t) ++ be16 1
    /\ N.testbit (u16_at (demo_response 0x8180) 2) 15 = true
    /\ N.land (N.shiftr (u16_at (demo_response 0x8180) 2) 11) 0x0F = 0%N
    /\ N.land (u16_at (demo_response 0x8180) 2) 0x000F = 0%N
    /\ N.testbit (u16_at (demo_response 0x8180) 2) 9 = false.
Proof.
  apply (accepted_answers_question [demo_query] (demo_response 0x8180)
           [DnsRecord (Ip4 [x0a; x00; x00; x01] 0) None (Some 300%N)]).
  - repeat constructor. exists q_ipv4, localhost. split; reflexivity.
  - vm_compute. reflexivity.
Defined.

Lemma demo_fresh n : 0 < n -> fresh_lookup (replicate n demo_server).
Proof.
  intros Hn. split; [destruct n; [lia | discriminate]|].
  apply Forall_replicate. exists 1, demo_query, []. reflexivity.
Qed.

(** Two servers: the first times out, the second answers. *)
Definition demo_run : ControlData :=
  complete true 1 (CompData (demo_response 0x8180)) true
    (complete true 1 (CompData []) true
      (complete true 0 CompError true (demo_lookup 2))).

Lemma demo_run_reachable : rtc step (demo_lookup 2) demo_run.
Proof.
  unfold demo_run.
  eapply rtc_l; [apply (step_complete _ 0 demo_server CompError true); [reflexivity | discriminate]|].
  eapply rtc_l; [eapply (step_complete _ 1 _ (CompData []) true); [vm_compute; reflexivity | discriminate]|].
  eapply rtc_l; [eapply (step_complete _ 1 _ (CompData (demo_response 0x8180)) true);
                 [vm_compute; reflexivity | discriminate]|].
  apply rtc_refl.
Qed.

Lemma lookup_answers_once_witness :
  ((ct_log demo_run).*1 `sublist_of` ct_callbacks demo_run
   /\ ((forall i s, ct_servers demo_run !! i = Some s -> sv_op s = None) ->
       ct_released demo_run = true /\ ct_destroyed demo_run = true
       /\ Forall (fun s => sv_finished s = true) (ct_servers demo_run)
       /\ (Forall (fun b : bool => b = true) [] -> (ct_log demo_run).*1 = ct_callbacks demo_run)))
  /\ ct_log demo_run = [(1, false)]
  /\ get_address_list (ct_record demo_run) = Some [Ip4 [x0a; x00; x00; x01] 0].
Proof.
  split; [|split; vm_compute; reflexivity].
  exact (lookup_answers_once (replicate 2 demo_server) 1 1000 [] [] demo_run
           (demo_fresh 2 ltac:(lia)) demo_run_reachable).
Defined.

Lemma lookup_terminates_witness :
  (forall i s comp queue_ok, ct_servers (demo_lookup 2) !! i = Some s -> sv_op s <> None ->
     total_work (complete true i comp queue_ok (demo_lookup 2)) < total_work (demo_lookup 2))
  /\ (forall cb', total_work (append_callback cb' (demo_lookup 2)).2 = total_work (demo_lookup 2))
  /\ total_work (evict_record (demo_lookup 2)) = total_work (demo_lookup 2)
  /\ (total_work (demo_lookup 2) = 0 ->
      forall i s, ct_servers (demo_lookup 2) !! i = Some s -> sv_op s = None).
Proof.
  exact (lookup_terminates (replicate 2 demo_server) 1 1000 [] [] (demo_lookup 2)
           (demo_fresh 2 ltac:(lia)) (rtc_refl _ _)).
Defined.

(** A truncated answer of one server (the TC bit set) ends the lookup with
    nothing although the other server has not answered yet; an error answer
    (here NXDOMAIN) of the same server does not. *)
Lemma truncation_aborts_other_servers :
  let sent := complete true 0 (CompData []) true (demo_lookup 2) in
  let truncated := complete true 0 (CompData (demo_response 0x8380)) true sent in
  let failed := complete true 0 (CompData (demo_response 0x8183)) true sent in
  (ct_resolved truncated = true /\ ct_log truncated = [(1, false)]
   /\ rc_state (ct_record truncated) = rs_none
   /\ (forall s, ct_servers truncated !! 1 = Some s -> sv_finished s = false))
  /\ (ct_resolved failed = false /\ ct_log failed = []).
Proof.
  vm_compute. repeat split; auto. intros s [= <-]. reflexivity.
Qed.

(** Closing the loop while the only query is still being sent: the teardown
    cancels the callback, and the cancelled completion of the write hands it
    over a second time. *)
Lemma teardown_hands_over_twice :
  let closing := control_release false (evict_record (demo_lookup 1)) in
  ct_log closing = [(1, true)]
  /\ ct_log (complete false 0 CompCancelled true closing) = [(1, true); (1, false)].
Proof. vm_compute. split; reflexivity. Qed.

(** ** How long an answer is kept *)

Lemma effective_ttl_bounds ttl :
  (ttl <= maxInt_u32)%N -> (0 <= compute_effective_ttl ttl <= MAX_DNS_TTL)%Z.
Proof.
  intros H. unfold compute_effective_ttl, MAX_DNS_TTL. destruct (_ =? _)%N; lia.
Qed.

(** A stored answer is served for its TTL, at most a week, and not later. *)
Lemma resolved_record_expires now addresses ttl t :
  (ttl <= maxInt_u32)%N ->
  get_address_list (set_resolved_data now addresses ttl) = Some addresses
  /\ (expired t (set_resolved_data now addresses ttl) = false
      <-> (t <= now + compute_effective_ttl ttl)%Z)
  /\ (now + MAX_DNS_TTL < t -> expired t (set_resolved_data now addresses ttl) = true)%Z.
Proof.
  intros H. pose proof (effective_ttl_bounds ttl H) as Hb.
  split; [reflexivity|]. unfold expired, set_resolved_data. cbn [rc_expire_at].
  split; [rewrite Z.ltb_ge; lia|]. intros Ht. apply Z.ltb_lt. lia.
Qed.
