(* ===== verification/Lru.v ===== *)
(** * The record cache

    [LRUCache] of src/src/utils/lru.zig, the hash map and doubly linked list the
    DNS cache is made of, with its nodes in an explicit store: a pointer is a
    location, [*p] a lookup that is [None] when the node was destroyed, and
    every function that follows pointers returns an option.  The cache is
    shown to implement a list of entries, most recently used first.

    [lc_evicted] records the calls of the evict callback, in order.  A failed
    allocation of a node or of the map is an argument of [put]. *)

From S2P Require Import Prelude.
From stdpp Require Import base numbers list gmap.

Section LRU.
Context {K V : Type} `{Countable K}.

Record node := Node {
  nd_key : K;
  nd_value : V;
  nd_prev : option nat;
  nd_next : option nat }.

Record lru := LRU {
  lc_store : gmap nat node;
  lc_fresh : nat;
  lc_capacity : nat;
  lc_map : gmap K nat;
  lc_head : option nat;
  lc_tail : option nat;
  lc_evicted : list (K * V) }.

Implicit Types (c : lru) (a : nat).

Definition set_store (s : gmap nat node) c : lru :=
  LRU s (lc_fresh c) (lc_capacity c) (lc_map c) (lc_head c) (lc_tail c) (lc_evicted c).
Definition set_map (m : gmap K nat) c : lru :=
  LRU (lc_store c) (lc_fresh c) (lc_capacity c) m (lc_head c) (lc_tail c) (lc_evicted c).
Definition set_head (h : option nat) c : lru :=
  LRU (lc_store c) (lc_fresh c) (lc_capacity c) (lc_map c) h (lc_tail c) (lc_evicted c).
Definition set_tail (t : option nat) c : lru :=
  LRU (lc_store c) (lc_fresh c) (lc_capacity c) (lc_map c) (lc_head c) t (lc_evicted c).
Definition evict_callback (k : K) (v : V) c : lru :=
  LRU (lc_store c) (lc_fresh c) (lc_capacity c) (lc_map c) (lc_head c) (lc_tail c)
    (lc_evicted c ++ [(k, v)]).

(** [allocator.create(Node)] with its initialisation, and [destroy]. *)
Definition create_node (k : K) (v : V) c : nat * lru :=
  (lc_fresh c,
   LRU (<[lc_fresh c := Node k v None None]> (lc_store c)) (S (lc_fresh c))
     (lc_capacity c) (lc_map c) (lc_head c) (lc_tail c) (lc_evicted c)).
Definition destroy a c : lru := set_store (delete a (lc_store c)) c.

(** [p.next = x] and [p.prev = x]. *)
Definition with_next (x : option nat) (n : node) : node :=
  Node (nd_key n) (nd_value n) (nd_prev n) x.
Definition with_prev (x : option nat) (n : node) : node :=
  Node (nd_key n) (nd_value n) x (nd_next n).

Definition set_next a (x : option nat) c : option lru :=
  n ← lc_store c !! a; Some (set_store (<[a := with_next x n]> (lc_store c)) c).
Definition set_prev a (x : option nat) c : option lru :=
  n ← lc_store c !! a; Some (set_store (<[a := with_prev x n]> (lc_store c)) c).

Definition init (capacity : nat) : lru := LRU ∅ 0 capacity ∅ None None [].

Definition prepend c a : option lru :=
  c ← set_next a (lc_head c) c;
  c ← set_prev a None c;
  c ← match lc_head c with
      | Some h => set_prev h (Some a) c
      | None => Some c
      end;
  let c := set_head (Some a) c in
  Some (match lc_tail c with None => set_tail (Some a) c | Some _ => c end).

Definition remove_node c a : option lru :=
  n ← lc_store c !! a;
  c ← match nd_prev n with
      | Some p => set_next p (nd_next n) c
      | None => Some (set_head (nd_next n) c)
      end;
  n ← lc_store c !! a;
  match nd_next n with
  | Some x => set_prev x (nd_prev n) c
  | None => Some (set_tail (nd_prev n) c)
  end.

Definition move_to_front c a : option lru :=
  if decide (Some a = lc_head c) then Some c
  else c ← remove_node c a; prepend c a.

Definition get (key : K) c : option (option V * lru) :=
  match lc_map c !! key with
  | Some a =>
      c ← move_to_front c a;
      n ← lc_store c !! a;
      Some (Some (nd_value n), c)
  | None => Some (None, c)
  end.

Definition evict_last c : option lru :=
  match lc_tail c with
  | Some a =>
      n ← lc_store c !! a;
      let c := set_map (delete (nd_key n) (lc_map c)) c in
      c ← remove_node c a;
      Some (destroy a (evict_callback (nd_key n) (nd_value n) c))
  | None => Some c
  end.

(** The detach of an entry that is overwritten. *)
Definition detach (key : K) c : option lru :=
  match lc_map c !! key with
  | Some a =>
      n ← lc_store c !! a;
      let c := set_map (delete (nd_key n) (lc_map c)) c in
      c ← remove_node c a;
      Some (destroy a (evict_callback (nd_key n) (nd_value n) c))
  | None => Some c
  end.

(** [false] is [error.OutOfMemory]: [node_ok] and [map_ok] say whether the node
    and the map entry can be allocated. *)
Definition put (node_ok map_ok : bool) (key : K) (value : V) c : option (bool * lru) :=
  if lc_capacity c =? 0 then Some (true, c)
  else
    c ← detach key c;
    c ← (if lc_capacity c <=? size (lc_map c) then evict_last c else Some c);
    if negb node_ok then Some (false, c)
    else
      let '(a, c) := create_node key value c in
      if negb map_ok then Some (false, destroy a c)
      else
        let c := set_map (<[key := a]> (lc_map c)) c in
        c ← prepend c a;
        Some (true, c).

Definition remove (key : K) c : option (bool * lru) :=
  match lc_map c !! key with
  | Some a =>
      let c := set_map (delete key (lc_map c)) c in
      n ← lc_store c !! a;
      let c := evict_callback (nd_key n) (nd_value n) c in
      c ← remove_node c a;
      Some (true, destroy a c)
  | None => Some (false, c)
  end.

Definition pop_tail c : option (option V * lru) :=
  match lc_tail c with
  | Some a =>
      n ← lc_store c !! a;
      let c := set_map (delete (nd_key n) (lc_map c)) c in
      c ← remove_node c a;
      Some (Some (nd_value n), destroy a c)
  | None => Some (None, c)
  end.

(** [deinit], which goes through the map in the order its iterator gives. *)
Fixpoint deinit_entries (its : list (K * nat)) c : option lru :=
  match its with
  | [] => Some c
  | (_, a) :: its' =>
      n ← lc_store c !! a;
      deinit_entries its' (destroy a (evict_callback (nd_key n) (nd_value n) c))
  end.

Definition deinit c : option lru := deinit_entries (map_to_list (lc_map c)) c.

(** ** The list it implements *)

(** Entries most recently used first, and the eviction log. *)
Record spec := Spec {
  sp_capacity : nat;
  sp_entries : list (K * V);
  sp_evicted : list (K * V) }.

Definition without (key : K) (es : list (K * V)) : list (K * V) :=
  filter (fun e => e.1 <> key) es.

Definition find (key : K) (es : list (K * V)) : option V :=
  snd <$> head (filter (fun e => e.1 = key) es).

Definition spec_get (key : K) (s : spec) : option V * spec :=
  match find key (sp_entries s) with
  | Some v => (Some v, Spec (sp_capacity s) ((key, v) :: without key (sp_entries s))
                            (sp_evicted s))
  | None => (None, s)
  end.

Definition spec_remove (key : K) (s : spec) : bool * spec :=
  match find key (sp_entries s) with
  | Some v => (true, Spec (sp_capacity s) (without key (sp_entries s))
                          (sp_evicted s ++ [(key, v)]))
  | None => (false, s)
  end.

Definition spec_evict_last (s : spec) : spec :=
  match last (sp_entries s) with
  | Some e => Spec (sp_capacity s) (removelast (sp_entries s)) (sp_evicted s ++ [e])
  | None => s
  end.

Definition spec_put (ok : bool) (key : K) (value : V) (s : spec) : bool * spec :=
  if sp_capacity s =? 0 then (true, s)
  else
    let s := (spec_remove key s).2 in
    let s := if sp_capacity s <=? length (sp_entries s) then spec_evict_last s else s in
    (ok, if ok then Spec (sp_capacity s) ((key, value) :: sp_entries s) (sp_evicted s)
         else s).

Definition spec_pop_tail (s : spec) : option V * spec :=
  match last (sp_entries s) with
  | Some e => (Some e.2, Spec (sp_capacity s) (removelast (sp_entries s)) (sp_evicted s))
  | None => (None, s)
  end.
(** ** The linked list *)

(** An entry with the location of its node. *)
Notation entry := (nat * (K * V))%type.

Definition hd_or (l : list entry) (n : option nat) : option nat :=
  match l with e :: _ => Some e.1 | [] => n end.

Fixpoint last_or (p : option nat) (l : list entry) : option nat :=
  match l with e :: l' => last_or (Some e.1) l' | [] => p end.

(** The nodes of [l] are linked in order, between [p] and [n]. *)
Fixpoint dseg (st : gmap nat node) (p : option nat) (l : list entry) (n : option nat) : Prop :=
  match l with
  | [] => True
  | (a, (k, v)) :: l' => st !! a = Some (Node k v p (hd_or l' n)) /\ dseg st (Some a) l' n
  end.

Lemma hd_or_app l1 l2 n : hd_or (l1 ++ l2) n = hd_or l1 (hd_or l2 n).
Proof. now destruct l1. Qed.

Lemma last_or_app p l1 l2 : last_or p (l1 ++ l2) = last_or (last_or p l1) l2.
Proof. revert p. induction l1; intros p; cbn; auto. Qed.

Lemma dseg_app st p l1 l2 n :
  dseg st p (l1 ++ l2) n <-> dseg st p l1 (hd_or l2 n) /\ dseg st (last_or p l1) l2 n.
Proof.
  revert p. induction l1 as [|[a [k v]] l1 IH]; intros p; cbn; [tauto|].
  rewrite hd_or_app, IH. tauto.
Qed.

Lemma dseg_frame st st' p l n :
  (forall a, a ∈ l.*1 -> st' !! a = st !! a) -> dseg st p l n -> dseg st' p l n.
Proof.
  revert p. induction l as [|[a [k v]] l IH]; intros p Hf; cbn; [auto|].
  intros [Ha Hl]. split; [rewrite Hf by (cbn; set_solver); exact Ha|].
  apply IH; [|exact Hl]. intros b Hb. apply Hf. cbn. set_solver.
Qed.

Lemma dseg_lookup st p l n a kv :
  dseg st p l n -> (a, kv) ∈ l -> exists q x, st !! a = Some (Node kv.1 kv.2 q x).
Proof.
  revert p. induction l as [|[b [k v]] l IH]; intros p; cbn; [set_solver|].
  intros [Hb Hl] Hin. apply elem_of_cons in Hin as [[= -> ->]|Hin]; eauto.
Qed.

(** The fields an operation on the links leaves alone. *)
Definition same_but_links c c' : Prop :=
  lc_fresh c' = lc_fresh c /\ lc_capacity c' = lc_capacity c
  /\ lc_map c' = lc_map c /\ lc_evicted c' = lc_evicted c
  /\ (forall a, is_Some (lc_store c' !! a) <-> is_Some (lc_store c !! a)).

Lemma same_but_links_refl c : same_but_links c c.
Proof. repeat split; auto. Qed.

Lemma same_but_links_trans c1 c2 c3 :
  same_but_links c1 c2 -> same_but_links c2 c3 -> same_but_links c1 c3.
Proof.
  intros (F1 & C1 & M1 & E1 & S1) (F2 & C2 & M2 & E2 & S2).
  repeat split; try congruence; intros Hs; [now apply S1, S2 | now apply S2, S1].
Qed.

Lemma set_store_insert_same c a n n' :
  lc_store c !! a = Some n -> same_but_links c (set_store (<[a := n']> (lc_store c)) c).
Proof.
  intros Ha. repeat split; cbn; intros Hs;
    destruct (decide (a = a0)) as [->|Hne];
    rewrite ?lookup_insert_eq, ?lookup_insert_ne in * by exact Hne; eauto.
Qed.

(** Redirecting what follows [l1] to [x]. *)
Lemma unlink_left c l1 n x :
  dseg (lc_store c) None l1 n -> NoDup (l1.*1) -> lc_head c = hd_or l1 n ->
  exists c', match last_or None l1 with
             | Some p => set_next p x c
             | None => Some (set_head x c)
             end = Some c'
    /\ dseg (lc_store c') None l1 x /\ lc_head c' = hd_or l1 x /\ lc_tail c' = lc_tail c
    /\ (forall a, a ∉ l1.*1 -> lc_store c' !! a = lc_store c !! a)
    /\ same_but_links c c'.
Proof.
  intros Hd Hn Hh. destruct l1 as [|[p [k v]] l1' _] using rev_ind.
  - eexists. split; [reflexivity|]. repeat split; auto.
  - rewrite last_or_app. cbn [last_or fst]. apply dseg_app in Hd as [Hd1 [Hp _]].
    rewrite fmap_app in *. cbn [fmap list_fmap fst] in *.
    assert (Hni : p ∉ l1'.*1).
    { apply NoDup_app in Hn as (_ & Hx & _). intros Hin. apply (Hx p Hin). set_solver. }
    unfold set_next. rewrite Hp. cbn [mbind option_bind].
    eexists. split; [reflexivity|]. cbn [lc_store set_store lc_head lc_tail].
    split; [|split; [|split; [reflexivity|split]]].
    + apply dseg_app. split.
      * apply (dseg_frame (lc_store c)); [|exact Hd1].
        intros b Hb. apply lookup_insert_ne. intros ->. contradiction.
      * cbn. rewrite lookup_insert_eq. auto.
    + rewrite Hh, !hd_or_app. reflexivity.
    + intros b Hb. apply lookup_insert_ne. set_solver.
    + now apply (set_store_insert_same c p (Node k v (last_or None l1') (hd_or [] n))).
Qed.

(** Redirecting what precedes [l2] to [q]. *)
Lemma unlink_right c l2 p q :
  dseg (lc_store c) p l2 None -> NoDup (l2.*1) -> lc_tail c = last_or p l2 ->
  exists c', match hd_or l2 None with
             | Some x => set_prev x q c
             | None => Some (set_tail q c)
             end = Some c'
    /\ dseg (lc_store c') q l2 None /\ lc_tail c' = last_or q l2 /\ lc_head c' = lc_head c
    /\ (forall a, a ∉ l2.*1 -> lc_store c' !! a = lc_store c !! a)
    /\ same_but_links c c'.
Proof.
  intros Hd Hn Ht. destruct l2 as [|[x [k v]] l2].
  - eexists. split; [reflexivity|]. repeat split; auto.
  - cbn [hd_or fst]. destruct Hd as [Hx Hd]. unfold set_prev. rewrite Hx.
    cbn [mbind option_bind]. eexists. split; [reflexivity|].
    cbn [lc_store set_store lc_head lc_tail]. cbn in Hn. apply NoDup_cons in Hn as [Hni _].
    split; [|split; [|split; [reflexivity|split]]].
    + cbn. split; [now rewrite lookup_insert_eq|].
      apply (dseg_frame (lc_store c)); [|exact Hd].
      intros b Hb. apply lookup_insert_ne. intros ->. contradiction.
    + exact Ht.
    + intros b Hb. apply lookup_insert_ne. cbn in Hb. set_solver.
    + now apply (set_store_insert_same c x (Node k v p (hd_or l2 None))).
Qed.

(** The list part of a cache: the nodes of [l] from head to tail. *)
Record linked c (l : list entry) : Prop := {
  linked_dseg : dseg (lc_store c) None l None;
  linked_nodup : NoDup (l.*1);
  linked_head : lc_head c = hd_or l None;
  linked_tail : lc_tail c = last_or None l }.

Lemma remove_node_linked c l1 a k v l2 :
  linked c (l1 ++ (a, (k, v)) :: l2) ->
  exists c', remove_node c a = Some c' /\ linked c' (l1 ++ l2) /\ same_but_links c c'
    /\ exists p x, lc_store c' !! a = Some (Node k v p x).
Proof.
  intros [Hd Hn Hh Ht]. apply dseg_app in Hd as [Hd1 [Ha Hd2]].
  rewrite fmap_app in Hn. cbn [fmap list_fmap fst] in Hn.
  apply NoDup_app in Hn as (Hn1 & Hdis & Hn2). apply NoDup_cons in Hn2 as [Ha2 Hn2].
  assert (Ha1 : a ∉ l1.*1) by (intros Hin; apply (Hdis a Hin); set_solver).
  assert (Hd12 : forall b, b ∈ l1.*1 -> b ∉ l2.*1)
    by (intros b Hb Hb2; apply (Hdis b Hb); set_solver).
  unfold remove_node. rewrite Ha. cbn [mbind option_bind nd_prev nd_next].
  destruct (unlink_left c l1 (Some a) (hd_or l2 None) Hd1 Hn1) as
    (c1 & -> & Hd1' & Hh1 & Ht1 & Hf1 & Hs1); [rewrite Hh, hd_or_app; reflexivity|].
  cbn [mbind option_bind]. rewrite (Hf1 a Ha1), Ha. cbn [mbind option_bind nd_prev nd_next].
  destruct (unlink_right c1 l2 (Some a) (last_or None l1)) as
    (c2 & -> & Hd2' & Ht2 & Hh2 & Hf2 & Hs2).
  { apply (dseg_frame (lc_store c)); [|exact Hd2].
    intros b Hb. apply Hf1. intros Hb1. now apply (Hd12 b). }
  { exact Hn2. }
  { rewrite Ht1, Ht, last_or_app. reflexivity. }
  exists c2. split; [reflexivity|]. split; [split|split].
  - apply dseg_app. split; [|exact Hd2'].
    apply (dseg_frame (lc_store c1)); [|exact Hd1']. intros b Hb. apply Hf2. now apply Hd12.
  - rewrite fmap_app. apply NoDup_app. repeat split; auto.
  - rewrite Hh2, Hh1, hd_or_app. reflexivity.
  - rewrite Ht2, last_or_app. reflexivity.
  - exact (same_but_links_trans _ _ _ Hs1 Hs2).
  - rewrite (Hf2 a Ha2), (Hf1 a Ha1), Ha. eauto.
Qed.

Lemma prepend_linked c l a k v p x :
  linked c l -> a ∉ l.*1 -> lc_store c !! a = Some (Node k v p x) ->
  exists c', prepend c a = Some c' /\ linked c' ((a, (k, v)) :: l) /\ same_but_links c c'.
Proof.
  intros [Hd Hn Hh Ht] Hni Ha. unfold prepend.
  assert (E1 : set_next a (lc_head c) c
    = Some (set_store (<[a := Node k v p (lc_head c)]> (lc_store c)) c))
    by (unfold set_next; rewrite Ha; reflexivity).
  rewrite E1. cbn [mbind option_bind].
  set (c2 := set_store (<[a := Node k v None (lc_head c)]> (lc_store c)) c).
  assert (E2 : set_prev a None (set_store (<[a := Node k v p (lc_head c)]> (lc_store c)) c)
    = Some c2).
  { unfold set_prev. cbn [lc_store set_store]. rewrite lookup_insert_eq.
    cbn [mbind option_bind]. unfold c2, set_store. cbn. now rewrite insert_insert_eq. }
  rewrite E2. cbn [mbind option_bind].
  assert (Hs12 : same_but_links c c2) by (eapply set_store_insert_same, Ha).
  assert (Ha2 : lc_store c2 !! a = Some (Node k v None (hd_or l None))).
  { unfold c2. cbn [lc_store set_store]. rewrite lookup_insert_eq, Hh. reflexivity. }
  assert (Hd2 : dseg (lc_store c2) None l None).
  { apply (dseg_frame (lc_store c)); [|exact Hd]. intros b Hb. apply lookup_insert_ne.
    intros ->. contradiction. }
  change (lc_head c2) with (lc_head c). rewrite Hh.
  assert (Hh2 : lc_tail c2 = last_or None l) by exact Ht. clearbody c2. clear E1 E2.
  destruct (unlink_right c2 l None (Some a) Hd2 Hn Hh2) as
    (c3 & Hc3 & Hd3 & Ht3 & Hh3 & Hf3 & Hs3).
  assert (Hm : exists c3', match hd_or l None with
                | Some h => set_prev h (Some a) c2 | None => Some c2 end = Some c3'
            /\ dseg (lc_store c3') (Some a) l None
            /\ lc_tail c3' = match l with [] => None | _ => last_or (Some a) l end
            /\ lc_store c3' !! a = lc_store c2 !! a
            /\ same_but_links c2 c3').
  { destruct l as [|e l].
    - exists c2. repeat split; auto.
    - exists c3. cbn [hd_or] in *. split; [exact Hc3|]. repeat split; auto; apply Hs3. }
  destruct Hm as (c3' & -> & Hd3' & Ht3' & Hf3' & Hs3'). cbn [mbind option_bind].
  cbn [lc_tail set_head]. rewrite Ht3'. eexists. split; [reflexivity|].
  assert (Hlast : forall (e : entry) (l : list entry), exists z, last_or (Some a) (e :: l) = Some z).
  { clear. intros e l. cbn. revert e. induction l as [|e' l IH]; intros e; cbn; eauto. }
  split.
  - destruct l as [|e l].
    + split; cbn; [rewrite Hf3', Ha2; auto | apply NoDup_singleton | reflexivity | reflexivity].
    + destruct (Hlast e l) as [z Hz]. rewrite Hz.
      split; [|cbn; apply NoDup_cons; auto | reflexivity | cbn [lc_tail set_head]; rewrite Ht3'; reflexivity].
      cbn [lc_store set_head]. destruct e as [b [k' v']]. cbn in Ha2 |- *. rewrite Hf3'. auto.
  - eapply same_but_links_trans; [exact Hs12|].
    destruct l as [|e l]; [|destruct (Hlast e l) as [z ->]]; exact Hs3'.
Qed.
(** ** The whole cache *)

Notation index_of := (fun e : entry => (e.2.1, e.1)).

(** [l] lists the live nodes: they are linked, the map finds each by its key,
    and the store holds no other node. *)
Record rep c (l : list entry) : Prop := {
  rep_linked : linked c l;
  rep_keys : NoDup (l.*2.*1);
  rep_map : lc_map c = list_to_map (index_of <$> l);
  rep_dom : forall a, is_Some (lc_store c !! a) -> a ∈ l.*1;
  rep_fresh : forall a, a ∈ l.*1 -> a < lc_fresh c }.

(** The cache [c] stands for the list [s]. *)
Definition sim c (s : spec) : Prop :=
  exists l, rep c l /\ s = Spec (lc_capacity c) (l.*2) (lc_evicted c).

Lemma index_keys (l : list entry) : (index_of <$> l).*1 = l.*2.*1.
Proof. rewrite <- !list_fmap_compose. reflexivity. Qed.

Lemma rep_lookup c l k a :
  rep c l -> lc_map c !! k = Some a ->
  exists l1 v l2, l = l1 ++ (a, (k, v)) :: l2 /\ k ∉ l1.*2.*1 /\ k ∉ l2.*2.*1.
Proof.
  intros [_ Hk Hm _ _] E. rewrite Hm in E.
  apply elem_of_list_to_map_2 in E. apply list_elem_of_fmap in E as ([a' [k' v]] & [= -> ->] & Hin).
  apply list_elem_of_split in Hin as (l1 & l2 & ->). exists l1, v, l2. split; [reflexivity|].
  rewrite !fmap_app in Hk. cbn in Hk. apply NoDup_app in Hk as (_ & Hd & Hk).
  apply NoDup_cons in Hk as [Hk _]. split; [|exact Hk].
  intros Hin. apply (Hd _ Hin). set_solver.
Qed.

Lemma rep_lookup_None c l k : rep c l -> lc_map c !! k = None -> k ∉ l.*2.*1.
Proof.
  intros [_ _ Hm _ _] E Hin. rewrite Hm in E.
  apply not_elem_of_list_to_map in E. apply E. now rewrite index_keys.
Qed.

Lemma without_notin k (es : list (K * V)) : k ∉ es.*1 -> without k es = es.
Proof.
  induction es as [|[k' v] es IH]; [reflexivity|]. intros Hn. cbn in Hn.
  unfold without. rewrite filter_cons_True by (cbn; set_solver).
  f_equal. apply IH. set_solver.
Qed.

Lemma find_notin k (es : list (K * V)) : k ∉ es.*1 -> find k es = None.
Proof.
  unfold find. induction es as [|[k' v] es IH]; [reflexivity|]. intros Hn. cbn in Hn.
  rewrite filter_cons_False by (cbn; set_solver). apply IH. set_solver.
Qed.

Lemma find_split k v (es1 es2 : list (K * V)) :
  k ∉ es1.*1 -> find k (es1 ++ (k, v) :: es2) = Some v.
Proof.
  unfold find. induction es1 as [|[k' v'] es1 IH]; cbn [app]; intros Hn.
  - rewrite filter_cons_True by reflexivity. reflexivity.
  - cbn in Hn. rewrite filter_cons_False by (cbn; set_solver). apply IH. set_solver.
Qed.

Lemma without_split k v (es1 es2 : list (K * V)) :
  k ∉ es1.*1 -> k ∉ es2.*1 -> without k (es1 ++ (k, v) :: es2) = es1 ++ es2.
Proof.
  intros H1 H2. unfold without. rewrite filter_app, filter_cons_False by (cbn; auto).
  change (without k es1 ++ without k es2 = es1 ++ es2). now rewrite !without_notin.
Qed.

Lemma map_delete_entry l1 a k (v : V) l2 :
  NoDup ((l1 ++ (a, (k, v)) :: l2).*2.*1) ->
  delete k (list_to_map (index_of <$> (l1 ++ (a, (k, v)) :: l2)) : gmap K nat)
  = list_to_map (index_of <$> (l1 ++ l2)).
Proof.
  intros Hn.
  rewrite (list_to_map_proper _ (index_of <$> ((a, (k, v)) :: l1 ++ l2))).
  - cbn [fmap list_fmap list_to_map foldr uncurry]. cbn. rewrite delete_insert_id; [reflexivity|].
    apply not_elem_of_list_to_map. rewrite index_keys.
    rewrite !fmap_app in *. cbn in Hn.
    apply NoDup_app in Hn as (_ & Hd & Hk). apply NoDup_cons in Hk as [Hk _].
    rewrite elem_of_app. intros [Hi|Hi]; [|contradiction]. apply (Hd _ Hi). set_solver.
  - rewrite index_keys. exact Hn.
  - apply fmap_Permutation. symmetry. apply Permutation_middle.
Qed.

(** Unlinking and destroying one node, once the map has forgotten its key. *)
Lemma drop_entry c l1 a k v l2 :
  linked c (l1 ++ (a, (k, v)) :: l2) ->
  NoDup ((l1 ++ (a, (k, v)) :: l2).*2.*1) ->
  lc_map c = list_to_map (index_of <$> (l1 ++ l2)) ->
  (forall b, is_Some (lc_store c !! b) -> b ∈ (l1 ++ (a, (k, v)) :: l2).*1) ->
  (forall b, b ∈ (l1 ++ (a, (k, v)) :: l2).*1 -> b < lc_fresh c) ->
  exists c', remove_node c a = Some c' /\ rep (destroy a c') (l1 ++ l2)
    /\ lc_capacity c' = lc_capacity c /\ lc_evicted c' = lc_evicted c.
Proof.
  intros HL Hk Hm Hdom Hfr.
  destruct (remove_node_linked c l1 a k v l2 HL) as (c' & E & [Hd Hn Hh Ht] & Hs & _).
  destruct Hs as (Ff & Fc & Fm & Fe & Fs). exists c'. split; [exact E|].
  split; [|auto].
  pose proof (linked_nodup _ _ HL) as Hnd. rewrite fmap_app in Hnd. cbn in Hnd.
  apply NoDup_app in Hnd as (_ & Hx & Hy). apply NoDup_cons in Hy as [Hy _].
  assert (Ha : a ∉ (l1 ++ l2).*1).
  { rewrite fmap_app, elem_of_app. intros [Hi|Hi]; [|contradiction]. apply (Hx _ Hi). set_solver. }
  split.
  - split; [|exact Hn | exact Hh | exact Ht].
    apply (dseg_frame (lc_store c')); [|exact Hd]. intros b Hb. apply lookup_delete_ne.
    intros ->. contradiction.
  - rewrite !fmap_app in *. cbn in Hk. apply NoDup_app in Hk as (K1 & K2 & K3).
    apply NoDup_cons in K3 as [_ K3]. apply NoDup_app. repeat split; auto.
    intros x Hx1 Hx2. apply (K2 x Hx1). set_solver.
  - cbn. congruence.
  - intros b. cbn [lc_store destroy set_store]. intros Hb.
    destruct (decide (a = b)) as [->|Hne]; [rewrite lookup_delete_eq in Hb; now destruct Hb|].
    rewrite lookup_delete_ne in Hb by exact Hne. apply Fs, Hdom in Hb.
    rewrite fmap_app in *. cbn in Hb. set_solver.
  - intros b Hb. cbn. rewrite Ff. apply Hfr. rewrite fmap_app in *. cbn. set_solver.
Qed.

Lemma rep_node c l1 a k v l2 :
  rep c (l1 ++ (a, (k, v)) :: l2) -> exists q x, lc_store c !! a = Some (Node k v q x).
Proof.
  intros [[Hd _ _ _] _ _ _ _].
  apply (dseg_lookup _ _ _ _ a (k, v) Hd). set_solver.
Qed.

(** Forgetting one entry completely: map, links, node. *)
Lemma rep_drop c l1 a k v l2 :
  rep c (l1 ++ (a, (k, v)) :: l2) ->
  exists c', remove_node (set_map (delete k (lc_map c)) c) a = Some c'
    /\ rep (destroy a c') (l1 ++ l2)
    /\ lc_capacity c' = lc_capacity c /\ lc_evicted c' = lc_evicted c.
Proof.
  intros [HL Hk Hm Hd Hf].
  destruct (drop_entry (set_map (delete k (lc_map c)) c) l1 a k v l2) as (c' & H1 & H2 & H3 & H4).
  - destruct HL. now split.
  - exact Hk.
  - cbn. rewrite Hm. now apply map_delete_entry.
  - exact Hd.
  - exact Hf.
  - exists c'. auto.
Qed.

Lemma rep_evicted c l e : rep c l -> rep (evict_callback e.1 e.2 c) l.
Proof. intros [[] ? ? ? ?]. now repeat split. Qed.
(** ** Every operation simulates its specification *)

Lemma sim_init capacity : sim (init capacity) (Spec capacity [] []).
Proof.
  exists []. split; [|reflexivity].
  split; [split; cbn; auto using NoDup_nil_2 | apply NoDup_nil_2 | reflexivity | | set_solver].
  intros a. cbn. rewrite lookup_empty. intros [? [=]].
Qed.

Lemma sim_absent c l k s :
  rep c l -> s = Spec (lc_capacity c) (l.*2) (lc_evicted c) -> lc_map c !! k = None ->
  find k (sp_entries s) = None.
Proof. intros HR -> E. apply find_notin. now apply (rep_lookup_None c). Qed.

Lemma sim_get k c s :
  sim c s ->
  match get k c with
  | Some (r, c') => r = (spec_get k s).1 /\ sim c' (spec_get k s).2
  | None => False
  end.
Proof.
  intros (l & HR & ->). unfold get, spec_get. cbn [sp_entries sp_capacity sp_evicted].
  destruct (lc_map c !! k) as [a|] eqn:E.
  2: { rewrite (find_notin k) by (now apply (rep_lookup_None c)). cbn.
       split; [reflexivity|]. exists l. auto. }
  destruct (rep_lookup c l k a HR E) as (l1 & v & l2 & -> & K1 & K2).
  rewrite fmap_app. cbn [fmap list_fmap snd].
  rewrite find_split, without_split by assumption. cbn [fst snd].
  destruct (rep_node _ _ _ _ _ _ HR) as (p & x & Ha).
  destruct HR as [[Hd Hn Hh Ht] Hk Hm Hdom Hfr]. unfold move_to_front.
  destruct (decide (Some a = lc_head c)) as [Ehd|Ehd].
  - cbn [mbind option_bind]. rewrite Ha. cbn. split; [reflexivity|].
    assert (l1 = []) as ->.
    { rewrite Hh in Ehd. destruct l1 as [|[b kv] l1]; [reflexivity|].
      cbn in Ehd. injection Ehd as <-. rewrite fmap_app in Hn. cbn in Hn.
      apply NoDup_cons in Hn as [Hni _]. set_solver. }
    exists ((a, (k, v)) :: l2). 
    split; [exact (Build_rep _ _ (Build_linked _ _ Hd Hn Hh Ht) Hk Hm Hdom Hfr) | reflexivity].
  - destruct (remove_node_linked c l1 a k v l2) as (c1 & -> & HL1 & Hs1 & p1 & x1 & Ha1);
      [now split|]. cbn [mbind option_bind].
    assert (Hni : a ∉ (l1 ++ l2).*1).
    { rewrite fmap_app in *. cbn in Hn. apply NoDup_app in Hn as (_ & Hx & Hy).
      apply NoDup_cons in Hy as [Hy _]. rewrite elem_of_app.
      intros [Hi|Hi]; [|contradiction]. apply (Hx _ Hi). set_solver. }
    destruct (prepend_linked c1 (l1 ++ l2) a k v p1 x1 HL1 Hni Ha1) as (c2 & -> & HL2 & Hs2).
    cbn [mbind option_bind].
    destruct HL2 as [Hd2 Hn2 Hh2 Ht2]. cbn [dseg] in Hd2. destruct Hd2 as [Ha2 Hd2].
    rewrite Ha2. cbn [mbind option_bind nd_value]. split; [reflexivity|].
    destruct (same_but_links_trans _ _ _ Hs1 Hs2) as (Ff & Fc & Fm & Fe & Fs).
    exists ((a, (k, v)) :: l1 ++ l2). split.
    + assert (HP : (a, (k, v)) :: l1 ++ l2 ≡ₚ l1 ++ (a, (k, v)) :: l2)
        by apply Permutation_middle.
      split; [exact (Build_linked c2 ((a, (k, v)) :: l1 ++ l2) (conj Ha2 Hd2) Hn2 Hh2 Ht2)| | | |].
      * rewrite HP. exact Hk.
      * rewrite Fm, Hm. apply list_to_map_proper; [rewrite index_keys; exact Hk|].
        apply fmap_Permutation. symmetry. exact HP.
      * intros b Hb. rewrite HP. now apply Hdom, Fs.
      * intros b Hb. rewrite Ff. apply Hfr. now rewrite <- HP.
    + rewrite Fc, Fe. cbn. now rewrite fmap_app.
Qed.

Lemma sim_remove k c s :
  sim c s ->
  match remove k c with
  | Some (r, c') => r = (spec_remove k s).1 /\ sim c' (spec_remove k s).2
  | None => False
  end.
Proof.
  intros (l & HR & ->). unfold remove, spec_remove. cbn [sp_entries sp_capacity sp_evicted].
  destruct (lc_map c !! k) as [a|] eqn:E.
  2: { rewrite (find_notin k) by (now apply (rep_lookup_None c)). cbn.
       split; [reflexivity|]. exists l. auto. }
  destruct (rep_lookup c l k a HR E) as (l1 & v & l2 & -> & K1 & K2).
  rewrite fmap_app. cbn [fmap list_fmap snd].
  rewrite find_split, without_split by assumption. cbn [fst snd].
  destruct (rep_node _ _ _ _ _ _ HR) as (p & x & Ha).
  cbn [lc_store set_map]. rewrite Ha. cbn [mbind option_bind nd_key nd_value].
  destruct (rep_drop _ _ _ _ _ _ (rep_evicted _ _ (k, v) HR)) as (c' & Hc' & HR' & Hcap & Hev).
  cbn in Hc', Hcap, Hev |- *.
  change (evict_callback k v (set_map (delete k (lc_map c)) c))
    with (set_map (delete k (lc_map c)) (evict_callback k v c)).
  rewrite Hc'. cbn [mbind option_bind]. split; [reflexivity|].
  exists (l1 ++ l2). split; [exact HR'|]. cbn. now rewrite Hcap, Hev, fmap_app.
Qed.

Lemma sim_detach k c s :
  sim c s ->
  match detach k c with
  | Some c' => sim c' (spec_remove k s).2
  | None => False
  end.
Proof.
  intros (l & HR & ->). unfold detach, spec_remove. cbn [sp_entries sp_capacity sp_evicted].
  destruct (lc_map c !! k) as [a|] eqn:E.
  2: { rewrite (find_notin k) by (now apply (rep_lookup_None c)). exists l. auto. }
  destruct (rep_lookup c l k a HR E) as (l1 & v & l2 & -> & K1 & K2).
  rewrite fmap_app. cbn [fmap list_fmap snd].
  rewrite find_split, without_split by assumption. cbn [fst snd].
  destruct (rep_node _ _ _ _ _ _ HR) as (p & x & Ha).
  rewrite Ha. cbn [mbind option_bind nd_key nd_value].
  destruct (rep_drop _ _ _ _ _ _ HR) as (c' & -> & HR' & Hcap & Hev).
  cbn [mbind option_bind]. exists (l1 ++ l2).
  split; [exact (rep_evicted (destroy a c') _ (k, v) HR')|]. cbn. now rewrite Hcap, Hev, fmap_app.
Qed.

Lemma last_or_snoc p (l : list entry) e : last_or p (l ++ [e]) = Some e.1.
Proof. now rewrite last_or_app. Qed.

Lemma sim_evict_last c s :
  sim c s ->
  match evict_last c with
  | Some c' => sim c' (spec_evict_last s)
  | None => False
  end.
Proof.
  intros (l & HR & ->). unfold evict_last, spec_evict_last.
  cbn [sp_entries sp_capacity sp_evicted].
  rewrite (linked_tail _ _ (rep_linked _ _ HR)).
  destruct l as [|[a [k v]] l _] using rev_ind; [exists []; auto|].
  rewrite last_or_snoc, fmap_app. cbn [fmap list_fmap snd fst].
  rewrite last_snoc, removelast_last.
  destruct (rep_node _ _ _ _ _ _ HR) as (p & x & Ha).
  rewrite Ha. cbn [mbind option_bind nd_key nd_value].
  destruct (rep_drop _ _ _ _ _ _ HR) as (c' & -> & HR' & Hcap & Hev).
  rewrite app_nil_r in HR'. cbn [mbind option_bind]. exists l.
  split; [exact (rep_evicted (destroy a c') _ (k, v) HR')|]. cbn. now rewrite Hcap, Hev.
Qed.

Lemma sim_pop_tail c s :
  sim c s ->
  match pop_tail c with
  | Some (r, c') => r = (spec_pop_tail s).1 /\ sim c' (spec_pop_tail s).2
  | None => False
  end.
Proof.
  intros (l & HR & ->). unfold pop_tail, spec_pop_tail.
  cbn [sp_entries sp_capacity sp_evicted].
  rewrite (linked_tail _ _ (rep_linked _ _ HR)).
  destruct l as [|[a [k v]] l _] using rev_ind; [split; [reflexivity | exists []; auto]|].
  rewrite last_or_snoc, fmap_app. cbn [fmap list_fmap snd fst].
  rewrite last_snoc, removelast_last.
  destruct (rep_node _ _ _ _ _ _ HR) as (p & x & Ha).
  rewrite Ha. cbn [mbind option_bind nd_key nd_value].
  destruct (rep_drop _ _ _ _ _ _ HR) as (c' & -> & HR' & Hcap & Hev).
  rewrite app_nil_r in HR'. cbn [mbind option_bind fst snd].
  split; [reflexivity|]. exists l. split; [exact HR'|]. cbn. now rewrite Hcap, Hev.
Qed.

Lemma sim_size c s : sim c s -> size (lc_map c) = length (sp_entries s).
Proof.
  intros (l & HR & ->). rewrite (rep_map _ _ HR), map_size_list_to_map.
  - cbn. now rewrite !length_fmap.
  - rewrite index_keys. apply (rep_keys _ _ HR).
Qed.

Lemma sim_capacity c s : sim c s -> sp_capacity s = lc_capacity c.
Proof. now intros (l & _ & ->). Qed.

(** Inserting a key the cache does not hold, in front. *)
Lemma sim_insert k v c s :
  sim c s -> k ∉ (sp_entries s).*1 ->
  match prepend (set_map (<[k := lc_fresh c]> (lc_map c)) (create_node k v c).2) (lc_fresh c) with
  | Some c' => sim c' (Spec (sp_capacity s) ((k, v) :: sp_entries s) (sp_evicted s))
  | None => False
  end.
Proof.
  intros (l & HR & ->). cbn [sp_entries sp_capacity sp_evicted]. intros Hk.
  destruct HR as [[Hd Hn Hh Ht] Hkeys Hm Hdom Hfr].
  set (a := lc_fresh c). set (c1 := set_map _ _).
  assert (Hni : a ∉ l.*1) by (intros Hi%Hfr; unfold a in Hi; lia).
  assert (HL : linked c1 l).
  { split; [|exact Hn | exact Hh | exact Ht].
    apply (dseg_frame (lc_store c)); [|exact Hd]. intros b Hb. apply lookup_insert_ne.
    intros Heq. subst b. contradiction. }
  destruct (prepend_linked c1 l a k v None None HL Hni) as (c2 & -> & HL2 & Ff & Fc & Fm & Fe & Fs);
    [apply lookup_insert_eq|].
  exists ((a, (k, v)) :: l). split; [split|].
  - exact HL2.
  - cbn. apply NoDup_cons. auto.
  - rewrite Fm. cbn. now rewrite Hm.
  - intros b Hb%Fs. cbn [c1 lc_store set_map create_node snd] in Hb.
    destruct (decide (a = b)) as [->|Hne]; [cbn; set_solver|].
    unfold a in Hne. rewrite lookup_insert_ne in Hb by exact Hne. apply Hdom in Hb. cbn. set_solver.
  - intros b Hb. rewrite Ff. cbn in Hb |- *. apply elem_of_cons in Hb as [->|Hb%Hfr]; unfold a; lia.
  - rewrite Fc, Fe. reflexivity.
Qed.

Lemma spec_remove_absent k s : k ∉ (sp_entries (spec_remove k s).2).*1.
Proof.
  unfold spec_remove. destruct (find k (sp_entries s)) as [v|] eqn:E; cbn.
  - unfold without. rewrite list_elem_of_fmap. intros ([k' v'] & -> & Hin).
    apply list_elem_of_filter in Hin as [Hne _]. now apply Hne.
  - unfold find in E. intros Hin. apply list_elem_of_fmap in Hin as ([k' v'] & -> & Hin).
    destruct (filter _ (sp_entries s)) as [|e es] eqn:Ef; [|discriminate].
    assert ((k', v') ∈ filter (fun e => e.1 = k') (sp_entries s))
      by (apply list_elem_of_filter; auto).
    cbn in Ef. rewrite Ef in *. set_solver.
Qed.

Lemma removelast_subset {B} (l : list B) x : x ∈ removelast l -> x ∈ l.
Proof.
  destruct l as [|y l _] using rev_ind; [set_solver|]. rewrite removelast_last. set_solver.
Qed.

Lemma spec_evict_last_absent k s :
  k ∉ (sp_entries s).*1 -> k ∉ (sp_entries (spec_evict_last s)).*1.
Proof.
  intros Hk. unfold spec_evict_last. destruct (last (sp_entries s)); [|exact Hk].
  cbn. rewrite list_elem_of_fmap. intros (e' & -> & Hin%removelast_subset).
  apply Hk. apply list_elem_of_fmap. eauto.
Qed.

(** A node that is created and destroyed again leaves no trace but a used
    location. *)
Lemma sim_create_destroy k v c s :
  sim c s -> sim (destroy (create_node k v c).1 (create_node k v c).2) s.
Proof.
  intros (l & HR & ->). exists l. split; [|reflexivity].
  destruct HR as [[Hd Hn Hh Ht] Hkeys Hm Hdom Hfr].
  assert (Est : lc_store (destroy (create_node k v c).1 (create_node k v c).2) = lc_store c).
  { cbn. apply delete_insert_id. destruct (lc_store c !! lc_fresh c) eqn:E; [|reflexivity].
    assert (lc_fresh c ∈ l.*1) as Hi by (apply Hdom; eauto). apply Hfr in Hi. lia. }
  split; [split; [rewrite Est; exact Hd | exact Hn | exact Hh | exact Ht]
         | exact Hkeys | exact Hm | rewrite Est; exact Hdom |].
  intros b Hb%Hfr. cbn. lia.
Qed.

Lemma sim_put node_ok map_ok k v c s :
  sim c s ->
  match put node_ok map_ok k v c with
  | Some (r, c') =>
      r = (spec_put (node_ok && map_ok) k v s).1
      /\ sim c' (spec_put (node_ok && map_ok) k v s).2
  | None => False
  end.
Proof.
  intros HS. unfold put, spec_put. rewrite (sim_capacity c s HS).
  destruct (lc_capacity c =? 0); [auto|].
  pose proof (sim_detach k c s HS) as H1. pose proof (spec_remove_absent k s) as K1.
  destruct (detach k c) as [c1|]; [|exact H1]. cbn [mbind option_bind].
  set (s1 := (spec_remove k s).2) in *.
  rewrite (sim_size c1 s1 H1), (sim_capacity c1 s1 H1).
  assert (H2 : match (if lc_capacity c1 <=? length (sp_entries s1) then evict_last c1 else Some c1) with
               | Some c2 => sim c2 (if lc_capacity c1 <=? length (sp_entries s1)
                                    then spec_evict_last s1 else s1)
               | None => False end)
    by (destruct (_ <=? _); [exact (sim_evict_last c1 s1 H1) | exact H1]).
  assert (K2 : k ∉ (sp_entries (if lc_capacity c1 <=? length (sp_entries s1)
                                then spec_evict_last s1 else s1)).*1)
    by (destruct (_ <=? _); auto using spec_evict_last_absent).
  destruct (if lc_capacity c1 <=? length (sp_entries s1) then evict_last c1 else Some c1)
    as [c2|]; [|exact H2].
  cbn [mbind option_bind].
  set (s2 := if lc_capacity c1 <=? length (sp_entries s1) then spec_evict_last s1 else s1) in *.
  destruct node_ok; cbn [negb andb]; [|auto].
  destruct map_ok; cbn [negb].
  - pose proof (sim_insert k v c2 s2 H2 K2) as H3. unfold create_node in *. cbn [snd fst] in *.
    destruct (prepend _ _) as [c3|]; [|exact H3]. cbn [mbind option_bind]. auto.
  - pose proof (sim_create_destroy k v c2 s2 H2) as H3. unfold create_node in *. auto.
Qed.
(** ** Histories *)

Inductive lru_op : Type :=
| OpGet (k : K)
| OpPut (node_ok map_ok : bool) (k : K) (v : V)
| OpRemove (k : K)
| OpPopTail.

Inductive lru_out : Type :=
| OutValue (v : option V)
| OutBool (b : bool).

Definition run_op (op : lru_op) c : option (lru_out * lru) :=
  match op with
  | OpGet k => '(r, c) ← get k c; Some (OutValue r, c)
  | OpPut n m k v => '(r, c) ← put n m k v c; Some (OutBool r, c)
  | OpRemove k => '(r, c) ← remove k c; Some (OutBool r, c)
  | OpPopTail => '(r, c) ← pop_tail c; Some (OutValue r, c)
  end.

Definition spec_op (op : lru_op) (s : spec) : lru_out * spec :=
  match op with
  | OpGet k => (OutValue (spec_get k s).1, (spec_get k s).2)
  | OpPut n m k v => (OutBool (spec_put (n && m) k v s).1, (spec_put (n && m) k v s).2)
  | OpRemove k => (OutBool (spec_remove k s).1, (spec_remove k s).2)
  | OpPopTail => (OutValue (spec_pop_tail s).1, (spec_pop_tail s).2)
  end.

Fixpoint run_ops (ops : list lru_op) c : option (list lru_out * lru) :=
  match ops with
  | [] => Some ([], c)
  | op :: ops' =>
      '(o, c) ← run_op op c;
      '(os, c) ← run_ops ops' c;
      Some (o :: os, c)
  end.

Fixpoint spec_ops (ops : list lru_op) (s : spec) : list lru_out * spec :=
  match ops with
  | [] => ([], s)
  | op :: ops' =>
      let '(o, s) := spec_op op s in
      let '(os, s) := spec_ops ops' s in (o :: os, s)
  end.

Lemma sim_op op c s :
  sim c s ->
  match run_op op c with
  | Some (o, c') => o = (spec_op op s).1 /\ sim c' (spec_op op s).2
  | None => False
  end.
Proof.
  intros HS. destruct op as [k|n m k v|k|]; cbn [run_op spec_op fst snd].
  - pose proof (sim_get k c s HS). destruct (get k c) as [[r c']|]; cbn; intuition congruence.
  - pose proof (sim_put n m k v c s HS).
    destruct (put n m k v c) as [[r c']|]; cbn; intuition congruence.
  - pose proof (sim_remove k c s HS).
    destruct (remove k c) as [[r c']|]; cbn; intuition congruence.
  - pose proof (sim_pop_tail c s HS).
    destruct (pop_tail c) as [[r c']|]; cbn; intuition congruence.
Qed.

Lemma sim_ops ops c s :
  sim c s ->
  match run_ops ops c with
  | Some (os, c') => os = (spec_ops ops s).1 /\ sim c' (spec_ops ops s).2
  | None => False
  end.
Proof.
  revert c s. induction ops as [|op ops IH]; intros c s HS; cbn [run_ops spec_ops]; [auto|].
  pose proof (sim_op op c s HS) as H1. destruct (run_op op c) as [[o c1]|]; [|exact H1].
  destruct H1 as [-> H1]. cbn [mbind option_bind]. destruct (spec_op op s) as [o' s1].
  cbn [fst snd] in *. specialize (IH c1 s1 H1).
  destruct (run_ops ops c1) as [[os c2]|]; [|exact IH]. destruct IH as [-> H2].
  cbn [mbind option_bind]. destruct (spec_ops ops s1) as [os' s2]. auto.
Qed.

(** *** The specification stays within the capacity *)

Definition spec_wf (s : spec) : Prop := length (sp_entries s) <= sp_capacity s.

Lemma without_length k (es : list (K * V)) : length (without k es) <= length es.
Proof. apply length_filter. Qed.

Lemma without_find_length k v (es : list (K * V)) :
  find k es = Some v -> length (without k es) < length es.
Proof.
  unfold find, without. induction es as [|[k' v'] es IH]; [discriminate|].
  destruct (decide (k' = k)) as [->|Hne].
  - intros _. rewrite filter_cons_False by (cbn; auto). cbn.
    pose proof (length_filter (fun e : K * V => e.1 <> k) es). lia.
  - rewrite filter_cons_False by (cbn; auto). intros Hf%IH.
    rewrite filter_cons_True by (cbn; auto). cbn. lia.
Qed.

Lemma spec_remove_wf k s : spec_wf s -> spec_wf (spec_remove k s).2.
Proof.
  unfold spec_wf, spec_remove. destruct (find k _); cbn; [|auto].
  pose proof (without_length k (sp_entries s)). lia.
Qed.

Lemma removelast_length {B} (l : list B) : length (removelast l) = length l - 1.
Proof.
  destruct l as [|x l _] using rev_ind; [reflexivity|].
  rewrite removelast_last, length_app. cbn. lia.
Qed.

Lemma spec_evict_last_length s :
  length (sp_entries (spec_evict_last s)) = length (sp_entries s) - 1
  /\ sp_capacity (spec_evict_last s) = sp_capacity s.
Proof.
  unfold spec_evict_last. destruct (last (sp_entries s)) eqn:E; cbn.
  - split; [apply removelast_length | reflexivity].
  - apply last_None in E. rewrite E. auto.
Qed.

Lemma spec_put_wf ok k v s : spec_wf s -> spec_wf (spec_put ok k v s).2.
Proof.
  intros Hw. unfold spec_put. destruct (Nat.eqb_spec (sp_capacity s) 0); [exact Hw|].
  pose proof (spec_remove_wf k s Hw) as H1.
  assert (Hc : sp_capacity (spec_remove k s).2 = sp_capacity s)
    by (unfold spec_remove; now destruct (find k _)).
  set (s1 := (spec_remove k s).2) in *. cbn [snd]. unfold spec_wf in *.
  destruct (Nat.leb_spec (sp_capacity s1) (length (sp_entries s1))).
  - destruct (spec_evict_last_length s1) as [El Ec]. destruct ok; cbn; lia.
  - destruct ok; cbn; lia.
Qed.

Lemma spec_op_wf op s : spec_wf s -> spec_wf (spec_op op s).2.
Proof.
  intros Hw. destruct op as [k|n m k v|k|]; cbn [spec_op snd].
  - unfold spec_get. destruct (find k _) as [v|] eqn:E; [|exact Hw].
    apply without_find_length in E. unfold spec_wf in *. cbn. lia.
  - now apply spec_put_wf.
  - now apply spec_remove_wf.
  - unfold spec_pop_tail, spec_wf in *. destruct (last _); cbn; [|exact Hw].
    rewrite removelast_length. lia.
Qed.

Lemma spec_op_capacity op s : sp_capacity (spec_op op s).2 = sp_capacity s.
Proof.
  destruct op as [k|n m k v|k|]; cbn [spec_op snd].
  - unfold spec_get. now destruct (find k _).
  - unfold spec_put. destruct (_ =? 0); [reflexivity|]. cbn [snd].
    assert (Hc : sp_capacity (spec_remove k s).2 = sp_capacity s)
      by (unfold spec_remove; now destruct (find k _)).
    destruct (_ <=? _); destruct (n && m); cbn;
      rewrite ?(proj2 (spec_evict_last_length _)); exact Hc.
  - unfold spec_remove. now destruct (find k _).
  - unfold spec_pop_tail. now destruct (last _).
Qed.

Lemma spec_ops_wf ops s :
  spec_wf s -> spec_wf (spec_ops ops s).2 /\ sp_capacity (spec_ops ops s).2 = sp_capacity s.
Proof.
  revert s. induction ops as [|op ops IH]; intros s Hw; cbn; [auto|].
  pose proof (spec_op_wf op s Hw) as H1. pose proof (spec_op_capacity op s) as H2.
  destruct (spec_op op s) as [o s1]. cbn [snd] in *.
  destruct (IH s1 H1) as [H3 H4]. destruct (spec_ops ops s1) as [os s2]. cbn in *.
  split; congruence.
Qed.

(** Live nodes and entries are the same in number. *)
Lemma sim_store_size c s : sim c s -> size (lc_store c) = length (sp_entries s).
Proof.
  intros (l & [[Hd Hn _ _] _ _ Hdom _] & ->). cbn. rewrite length_fmap.
  rewrite <- size_dom.
  assert (E : dom (lc_store c) = list_to_set (C := gset nat) (l.*1)).
  { apply set_eq. intros a. rewrite elem_of_dom, elem_of_list_to_set. split; [apply Hdom|].
    intros Ha. apply list_elem_of_fmap in Ha as ([a' kv] & -> & Hin).
    destruct (dseg_lookup _ _ _ _ _ _ Hd Hin) as (q & x & E). eauto. }
  rewrite E, size_list_to_set by exact Hn. apply length_fmap.
Qed.

(** C40: the cache is a bounded list of entries, most recently used first: any
    sequence of lookups, insertions, removals and pops on a fresh cache answers
    as the list does, evicting the least recently used entry when it is full
    and calling the evict callback for exactly the entries the list drops; no
    destroyed node is ever followed, and there are never more live nodes than
    the capacity, so nothing leaks. *)
Theorem lru_refines_list (capacity : nat) (ops : list lru_op) :
  match run_ops ops (init capacity) with
  | Some (outs, c) =>
      let s := (spec_ops ops (Spec capacity [] [])).2 in
      outs = (spec_ops ops (Spec capacity [] [])).1
      /\ lc_evicted c = sp_evicted s
      /\ size (lc_map c) = length (sp_entries s)
      /\ size (lc_store c) = length (sp_entries s)
      /\ length (sp_entries s) <= capacity
  | None => False
  end.
Proof.
  pose proof (sim_ops ops _ _ (sim_init capacity)) as HS.
  destruct (run_ops ops (init capacity)) as [[outs c]|]; [|exact HS].
  destruct HS as [-> HS]. cbn zeta.
  destruct (spec_ops_wf ops (Spec capacity [] [])) as [Hw Hc]; [unfold spec_wf; cbn; lia|].
  split; [reflexivity|]. split; [now destruct HS as (l & _ & ->)|].
  split; [now apply sim_size|]. split; [now apply sim_store_size|].
  unfold spec_wf in Hw. cbn in Hc. lia.
Qed.
(** *** Teardown *)

Lemma deinit_entries_spec (l : list entry) c :
  NoDup (l.*1) -> (forall a kv, (a, kv) ∈ l -> exists q x, lc_store c !! a = Some (Node kv.1 kv.2 q x)) ->
  exists c', deinit_entries (index_of <$> l) c = Some c'
    /\ lc_evicted c' = lc_evicted c ++ l.*2
    /\ forall a, is_Some (lc_store c' !! a) -> is_Some (lc_store c !! a) /\ a ∉ l.*1.
Proof.
  revert c. induction l as [|[a [k v]] l IH]; intros c Hn Hl; cbn [fmap list_fmap deinit_entries].
  - exists c. rewrite app_nil_r. set_solver.
  - cbn in Hn. apply NoDup_cons in Hn as [Hni Hn].
    destruct (Hl a (k, v)) as (q & x & Ha); [set_solver|]. cbn [fst snd] in *.
    rewrite Ha. cbn [mbind option_bind nd_key nd_value].
    set (c1 := destroy a _).
    destruct (IH c1 Hn) as (c' & -> & He & Hd).
    + intros b kv Hb. destruct (Hl b kv) as (q' & x' & Hb'); [set_solver|].
      exists q', x'. unfold c1. cbn. rewrite lookup_delete_ne; [exact Hb'|].
      intros ->. apply Hni. apply list_elem_of_fmap. exists (b, kv). auto.
    + exists c'. split; [reflexivity|]. split.
      * rewrite He. cbn. now rewrite <- app_assoc.
      * intros b Hb. destruct (Hd b Hb) as [H1 H2]. cbn in H1.
        destruct (decide (a = b)) as [->|Hne].
        { rewrite lookup_delete_eq in H1. now destruct H1. }
        rewrite lookup_delete_ne in H1 by exact Hne. cbn. set_solver.
Qed.

(** [deinit] calls the evict callback once for every entry and destroys every
    node. *)
Lemma deinit_evicts_all c s :
  sim c s ->
  exists c' es, deinit c = Some c' /\ es ≡ₚ sp_entries s
    /\ lc_evicted c' = sp_evicted s ++ es /\ lc_store c' = ∅.
Proof.
  intros (l & [[Hd Hn _ _] Hk Hm Hdom _] & ->). cbn. unfold deinit. rewrite Hm.
  assert (HP : map_to_list (list_to_map (index_of <$> l) : gmap K nat) ≡ₚ index_of <$> l)
    by (apply map_to_list_to_map; rewrite index_keys; exact Hk).
  apply Permutation_map_inv in HP as (l' & E & HP). rewrite E.
  destruct (deinit_entries_spec l' c) as (c' & Ec & He & Hs).
  - now rewrite <- HP.
  - intros a kv Hin. apply (dseg_lookup _ _ _ _ _ _ Hd). now rewrite HP.
  - exists c', (l'.*2). split; [exact Ec|]. split; [now rewrite HP|]. split; [exact He|].
    apply map_empty. intros a. destruct (lc_store c' !! a) eqn:Ea; [|reflexivity].
    destruct (Hs a) as [H1 H2]; [eauto|]. apply Hdom in H1. rewrite HP in H1. contradiction.
Qed.
End LRU.
Arguments lru K V {_ _}.
Arguments spec K V : clear implicits.
