(* ===== verification/DnsCache.v ===== *)
(** * The record cache as the resolver sees it

    What src/src/loop/dns/cache.zig relies on of [utils.LRUCache], as an interface: a
    finite map from names to records that may drop entries when one is inserted, and
    hands each entry it drops to the evict callback.  [Lru] is an instance of it.

    [cache_put] and [cache_remove] return the entries for which the evict callback was
    called. *)

From Stdlib Require Import Strings.Byte NArith Lia.
From stdpp Require Import base numbers list gmap.
From S2P Require Import Prelude IpAddress Lru.

Open Scope nat_scope.

(** ** Names as keys *)

#[export] Instance byte_countable : Countable Byte.byte.
Proof.
  refine (inj_countable Byte.to_N Byte.of_N _). exact Byte.of_to_N.
Defined.

(** ** The interface *)

Class RecordCache (V C : Type) := {
  cache_init : nat -> C;
  cache_get : bytes -> C -> option (option V * C);
  cache_put : bool -> bool -> bytes -> V -> C -> option (bool * list (bytes * V) * C);
  cache_remove : bytes -> C -> option (list (bytes * V) * C);
  cache_deinit : C -> option (list (bytes * V));
  cache_holds : list (bytes * V) -> C -> Prop }.

(** [cache_holds es c]: the entries of [c] are [es], in some order. *)
Class RecordCacheLaws (V C : Type) `{RecordCache V C} : Prop := {
  cache_init_ok n : n <> 0 -> cache_holds [] (cache_init n);
  cache_perm es es' c : cache_holds es c -> es ≡ₚ es' -> cache_holds es' c;
  cache_keys es c : cache_holds es c -> NoDup es.*1;
  cache_get_ok k es c : cache_holds es c ->
    exists r c', cache_get k c = Some (r, c') /\ cache_holds es c'
    /\ match r with Some v => (k, v) ∈ es | None => k ∉ es.*1 end;
  cache_remove_ok k v es c : cache_holds ((k, v) :: es) c ->
    exists c', cache_remove k c = Some ([(k, v)], c') /\ cache_holds es c';
  cache_put_ok node_ok map_ok k v es c : cache_holds es c ->
    exists dropped kept c',
      cache_put node_ok map_ok k v c = Some (node_ok && map_ok, dropped, c')
      /\ es ≡ₚ dropped ++ kept
      /\ cache_holds (if node_ok && map_ok then (k, v) :: kept else kept) c';
  cache_deinit_ok es c : cache_holds es c ->
    exists dropped, cache_deinit c = Some dropped /\ dropped ≡ₚ es }.

(** ** The LRU cache *)

Section LruCache.
Context {V : Type}.
Implicit Types (c : lru bytes V) (s : spec bytes V) (es : list (bytes * V)).

(** With an empty eviction log, so that what an operation adds can be read off. *)
Definition forget_log c : lru bytes V :=
  LRU (lc_store c) (lc_fresh c) (lc_capacity c) (lc_map c) (lc_head c) (lc_tail c) [].

Definition lru_put (node_ok map_ok : bool) (k : bytes) (v : V) c
    : option (bool * list (bytes * V) * lru bytes V) :=
  '(ok, c) ← put node_ok map_ok k v (forget_log c); Some (ok, lc_evicted c, c).

Definition lru_remove (k : bytes) c : option (list (bytes * V) * lru bytes V) :=
  '(_, c) ← remove k (forget_log c); Some (lc_evicted c, c).

Definition lru_deinit c : option (list (bytes * V)) :=
  c ← deinit (forget_log c); Some (lc_evicted c).

Definition lru_holds es c : Prop :=
  lc_capacity c <> 0 /\ exists s, sim c s /\ sp_entries s ≡ₚ es.

#[export] Instance lru_record_cache : RecordCache V (lru bytes V) := {
  cache_init := init;
  cache_get := get;
  cache_put := lru_put;
  cache_remove := lru_remove;
  cache_deinit := lru_deinit;
  cache_holds := lru_holds }.

Lemma sim_log c s : sim c s -> lc_evicted c = sp_evicted s.
Proof. intros (l & _ & ->). reflexivity. Qed.

Lemma sim_forget c s : sim c s -> sim (forget_log c) (Spec (sp_capacity s) (sp_entries s) []).
Proof.
  intros (l & [[Hd Hn Hh Ht] Hk Hm Hdom Hf] & ->). exists l. split; [|reflexivity].
  now repeat split.
Qed.

Lemma sim_keys c s : sim c s -> NoDup (sp_entries s).*1.
Proof. intros (l & [_ Hk _ _ _] & ->). exact Hk. Qed.

Lemma find_in (k : bytes) (v : V) es : NoDup es.*1 -> (k, v) ∈ es -> find k es = Some v.
Proof.
  intros Hn Hin. apply list_elem_of_split in Hin as (l1 & l2 & ->).
  apply find_split. rewrite fmap_app in Hn. apply NoDup_app in Hn as (_ & Hd & _).
  intros Hi. apply (Hd _ Hi). cbn. set_solver.
Qed.

Lemma find_in_or (k : bytes) es :
  match find k es with Some v => (k, v) ∈ es | None => k ∉ es.*1 end.
Proof.
  unfold find. induction es as [|[k' v] es IH]; [cbn; set_solver|].
  destruct (decide (k' = k)) as [->|Hne].
  - rewrite filter_cons_True by reflexivity. cbn. set_solver.
  - rewrite filter_cons_False by (cbn; exact Hne).
    destruct (head _); cbn in *; set_solver.
Qed.

(** What [find] finds, and the rest. *)
Lemma without_perm (k : bytes) (v : V) es :
  NoDup es.*1 -> find k es = Some v -> es ≡ₚ (k, v) :: without k es.
Proof.
  intros Hn Hf. pose proof (find_in_or k es) as Hin. rewrite Hf in Hin.
  apply list_elem_of_split in Hin as (l1 & l2 & ->).
  rewrite fmap_app in Hn. cbn in Hn. apply NoDup_app in Hn as (_ & Hd & Hn).
  apply NoDup_cons in Hn as [Hn _].
  rewrite without_split; [symmetry; apply Permutation_middle | | exact Hn].
  intros Hi. apply (Hd _ Hi). set_solver.
Qed.

Lemma sim_holds c s : sim c s -> lc_capacity c <> 0 -> lru_holds (sp_entries s) c.
Proof. intros HS Hc. split; [exact Hc|]. now exists s. Qed.

Lemma lru_get_ok k es c :
  lru_holds es c ->
  exists r c', get k c = Some (r, c') /\ lru_holds es c'
  /\ match r with Some v => (k, v) ∈ es | None => k ∉ es.*1 end.
Proof.
  intros (Hc & s & HS & HP). pose proof (sim_get k c s HS) as H.
  destruct (get k c) as [[r c']|]; [|destruct H]. destruct H as [-> H].
  exists (spec_get k s).1, c'. split; [reflexivity|].
  pose proof (find_in_or k (sp_entries s)) as Hf. pose proof (sim_keys c s HS) as Hn.
  pose proof (without_perm k) as Hw. unfold spec_get in *.
  destruct (find k (sp_entries s)) as [v|] eqn:E; cbn [fst snd] in *.
  - split; [|now rewrite <- HP]. split; [rewrite <- (sim_capacity _ _ H); cbn; now rewrite (sim_capacity _ _ HS)|].
    eexists. split; [exact H|]. cbn [sp_entries]. rewrite <- HP. symmetry. now apply Hw.
  - split; [|now rewrite <- HP]. split; [rewrite <- (sim_capacity _ _ H); now rewrite (sim_capacity _ _ HS)|].
    now exists s.
Qed.

Lemma lru_remove_ok k v es c :
  lru_holds ((k, v) :: es) c ->
  exists c', lru_remove k c = Some ([(k, v)], c') /\ lru_holds es c'.
Proof.
  intros (Hc & s & HS & HP). pose proof (sim_forget c s HS) as HS0.
  pose proof (sim_remove k _ _ HS0) as H. unfold lru_remove.
  destruct (remove k (forget_log c)) as [[r c']|]; [|destruct H]. destruct H as [_ H].
  pose proof (sim_keys c s HS) as Hn.
  assert (Hf : find k (sp_entries s) = Some v)
    by (apply find_in; [exact Hn | rewrite HP; set_solver]).
  unfold spec_remove in H. cbn [sp_entries] in H. rewrite Hf in H. cbn [snd app] in H.
  exists c'. cbn [mbind option_bind]. rewrite (sim_log _ _ H). split; [reflexivity|].
  split; [rewrite <- (sim_capacity _ _ H); cbn; now rewrite (sim_capacity _ _ HS)|].
  eexists. split; [exact H|]. cbn [sp_entries sp_evicted].
  apply (Permutation_cons_inv (a := (k, v))). rewrite <- HP. symmetry. now apply without_perm.
Qed.

(** Removing a key splits the entries into those dropped and those kept. *)
Lemma spec_remove_split k s :
  NoDup (sp_entries s).*1 ->
  exists dropped, sp_evicted (spec_remove k s).2 = sp_evicted s ++ dropped
  /\ sp_entries s ≡ₚ dropped ++ sp_entries (spec_remove k s).2
  /\ sp_capacity (spec_remove k s).2 = sp_capacity s.
Proof.
  intros Hn. unfold spec_remove. destruct (find k (sp_entries s)) as [v|] eqn:E; cbn.
  - exists [(k, v)]. split; [reflexivity|]. split; [|reflexivity]. cbn. now apply without_perm.
  - exists []. now rewrite app_nil_r.
Qed.

Lemma spec_evict_split s :
  exists dropped, sp_evicted (spec_evict_last s) = sp_evicted s ++ dropped
  /\ sp_entries s ≡ₚ dropped ++ sp_entries (spec_evict_last s)
  /\ sp_capacity (spec_evict_last s) = sp_capacity s.
Proof.
  unfold spec_evict_last. destruct (sp_entries s) as [|e l _] eqn:E using rev_ind.
  - cbn. exists []. rewrite app_nil_r, E. auto.
  - rewrite last_snoc, removelast_last. exists [e]. cbn. split; [reflexivity|].
    split; [|reflexivity]. symmetry. apply Permutation_cons_append.
Qed.

Lemma lru_put_ok node_ok map_ok k v es c :
  lru_holds es c ->
  exists dropped kept c',
    lru_put node_ok map_ok k v c = Some (node_ok && map_ok, dropped, c')
    /\ es ≡ₚ dropped ++ kept
    /\ lru_holds (if node_ok && map_ok then (k, v) :: kept else kept) c'.
Proof.
  intros (Hc & s & HS & HP). pose proof (sim_forget c s HS) as HS0.
  pose proof (sim_keys c s HS) as Hn.
  pose proof (sim_put node_ok map_ok k v _ _ HS0) as H. unfold lru_put.
  destruct (put _ _ k v (forget_log c)) as [[r c']|]; [|destruct H]. destruct H as [-> H].
  set (s0 := Spec _ _ []) in *. unfold spec_put in *. cbn [sp_capacity s0] in H |- *.
  rewrite (sim_capacity _ _ HS) in *. apply Nat.eqb_neq in Hc as Hc0. rewrite Hc0 in *. cbn zeta in *.
  destruct (spec_remove_split k s0) as (d1 & E1 & P1 & C1); [exact Hn|].
  set (s1 := (spec_remove k s0).2) in *.
  assert (Hs2 : exists d2, let s2 := if sp_capacity s1 <=? length (sp_entries s1) then spec_evict_last s1 else s1 in
    sp_evicted s2 = sp_evicted s1 ++ d2 /\ sp_entries s1 ≡ₚ d2 ++ sp_entries s2 /\ sp_capacity s2 = sp_capacity s1).
  { destruct (_ <=? _); [apply spec_evict_split|]. exists []. now rewrite app_nil_r. }
  destruct Hs2 as (d2 & E2 & P2 & C2). set (s2 := if _ <=? _ then _ else _) in *.
  cbn [fst snd] in *. cbn [sp_evicted s0 app] in E1. rewrite E1 in E2.
  exists (d1 ++ d2), (sp_entries s2), c'. cbn [mbind option_bind].
  assert (Hl : lc_evicted c' = d1 ++ d2)
    by (rewrite (sim_log _ _ H), <- E2; now destruct (node_ok && map_ok)).
  assert (Hcap : lc_capacity c' = lc_capacity c)
    by (rewrite <- (sim_capacity _ _ H), <- (sim_capacity _ _ HS);
        destruct (node_ok && map_ok); cbn; rewrite C2, C1; reflexivity).
  rewrite Hl. split; [reflexivity|]. split.
  - rewrite <- HP. change (sp_entries s) with (sp_entries s0). rewrite P1, P2. now rewrite app_assoc.
  - split; [now rewrite Hcap|]. eexists. split; [exact H|]. now destruct (node_ok && map_ok).
Qed.

#[export] Instance lru_record_cache_laws : RecordCacheLaws V (lru bytes V).
Proof.
  split; cbn [cache_holds cache_init cache_get cache_put cache_remove cache_deinit lru_record_cache].
  - intros n Hn. split; [exact Hn|]. eexists. split; [apply sim_init | reflexivity].
  - intros es es' c (Hc & s & HS & HP) HP'. split; [exact Hc|]. exists s. now rewrite HP.
  - intros es c (_ & s & HS & HP). rewrite <- HP. exact (sim_keys c s HS).
  - exact lru_get_ok.
  - exact lru_remove_ok.
  - exact lru_put_ok.
  - intros es c (_ & s & HS & HP).
    destruct (deinit_evicts_all _ _ (sim_forget c s HS)) as (c' & l & E & P & El & _).
    exists l. unfold lru_deinit. rewrite E. cbn [mbind option_bind].
    rewrite El. split; [reflexivity|]. etransitivity; [exact P | exact HP].
Qed.
End LruCache.
