(* ===== verification/DnsFront.v ===== *)
(** * The front of the resolver

    [DNS] of src/src/loop/dns/main.zig: names to addresses and back, through the
    record caches of cache.zig and the queries that resolv/queue.zig starts.  A query
    is the [ControlData] of [Resolver] with the record it was started for; the cache
    points to the records, a pending record to its [ControlData], and a [ControlData]
    to its record.  [None] is a fault: one of these pointers is followed after its
    target was freed, an index is out of bounds, or a query overruns its buffer.

    A query is named by the number of queries started before it, so a stale pointer
    is never mistaken for a new one.  [dn_accepted] are the callbacks of the callers
    that were told to wait, [dn_soon] those [reverse_lookup] handed to the loop and
    [dn_seen] the datagrams that were read for a query without a result; the code has
    no such fields. *)

From Stdlib Require Import Strings.Byte NArith ZArith Lia.
From stdpp Require Import base numbers list sets.
From S2P Require Import Prelude IpAddress DnsName Resolver DnsCache.

Open Scope nat_scope.

(** ** Data *)

(** The value of a cache entry: the record of a query, or one made from addresses that
    needed none. *)
Inductive entry : Type :=
| OfQuery (q : nat)
| Seeded (r : DnsCacheRecord).

#[export] Instance RecordState_eq_dec : EqDecision RecordState.
Proof. solve_decision. Defined.
#[export] Instance DnsCacheRecord_eq_dec : EqDecision DnsCacheRecord.
Proof. solve_decision. Defined.
#[export] Instance entry_eq_dec : EqDecision entry.
Proof. solve_decision. Defined.

(** A query and its record: the name it is filed under, and whether it is freed (or
    was never made). *)
Record query := Query {
  qy_hostname : bytes;
  qy_control : ControlData;
  qy_freed : bool }.

Inductive dns_error : Type :=
| ZigError (e : zig_error)
| SystemError.

(** What a lookup returns: addresses, [null], or an error. *)
Inductive answer : Type :=
| Found (addresses : list Address)
| Null
| Failed (e : dns_error).

(** What [append_callback] returns: [NotPending] for [RecordNotPending] and
    [RecordAlreadyResolved], [AppendFailed] for [OutOfMemory]. *)
Inductive append_result : Type := Appended | NotPending | AppendFailed.

(** How what a call depends on turns out: the clock, the allocations, the sockets (for
    every server the identifiers [getrandom] gave, or nothing), the submissions, and
    what [Resolver] will ask. *)
Record environment := Env {
  en_now : Z;
  en_seed_ok : bool;
  en_control_ok : bool;
  en_record_ok : bool;
  en_node_ok : bool;
  en_map_ok : bool;
  en_callback_ok : bool;
  en_arena_ok : bool;
  en_pending_ok : bool;
  en_sockets : list (option (list N));
  en_submit : list bool;
  en_soon_ok : bool;
  en_dispatch : list bool;
  en_alloc : list bool }.

(** The build, the hash of a name, resolv.conf, and whether the host has IPv6. *)
Class DnsSetup := Setup {
  is_debug : bool;
  final : bytes -> N;
  configuration : Configuration;
  ipv6_supported : bool }.

Section Front.
Context {C : Type} `{RecordCache entry C} `{DnsSetup}.

Record dns := Dns {
  dn_caches : list C;
  dn_queries : list query;
  dn_soon : list nat;
  dn_accepted : list nat;
  dn_seen : list (nat * nat * bytes) }.

#[export] Instance dns_eta : Eta dns := fun d =>
  Dns (dn_caches d) (dn_queries d) (dn_soon d) (dn_accepted d) (dn_seen d).
#[local] Open Scope py_scope.


Definition DNSCacheEntries : nat := if is_debug then 4 else 1024.
Definition CACHE_MASK : N := N.of_nat DNSCacheEntries - 1.

Definition get_cache_slot (hostname : bytes) : nat :=
  N.to_nat (N.land (final hostname) CACHE_MASK).

(** [DNS.init] and [Cache.init]. *)
Definition initial : dns := Dns (replicate DNSCacheEntries (cache_init 1024)) [] [] [] [].

Definition on_query (q : nat) (f : query -> query) (d : dns) : dns :=
  d <| dn_queries := alter f q (dn_queries d) |>.

Definition with_control (f : ControlData -> ControlData) (x : query) : query :=
  Query (qy_hostname x) (f (qy_control x)) (qy_freed x).

Definition on_control (q : nat) (f : ControlData -> ControlData) (d : dns) : dns :=
  on_query q (with_control f) d.

(** ** The cache *)

(** [evict_record]: a pending record tells its [ControlData], then the record is
    freed. *)
Definition evict_entry (e : bytes * entry) (d : dns) : option dns :=
  match e.2 with
  | Seeded _ => Some d
  | OfQuery q =>
      x ← dn_queries d !! q;
      if qy_freed x then None
      else
        let c := qy_control x in
        match rc_state (ct_record c) with
        | rs_pending =>
            if ct_destroyed c then None
            else Some (on_query q (fun _ => Query (qy_hostname x) (evict_record c) true) d)
        | _ => Some (on_query q (fun _ => Query (qy_hostname x) c true) d)
        end
  end.

Fixpoint evict_entries (l : list (bytes * entry)) (d : dns) : option dns :=
  match l with
  | [] => Some d
  | e :: l' => d ← evict_entry e d; evict_entries l' d
  end.

Definition set_slot (i : nat) (c : C) (d : dns) : dns :=
  d <| dn_caches := <[i := c]> (dn_caches d) |>.

Definition entry_record (e : entry) (d : dns) : option DnsCacheRecord :=
  match e with
  | Seeded r => Some r
  | OfQuery q =>
      x ← dn_queries d !! q;
      if qy_freed x then None else Some (ct_record (qy_control x))
  end.

(** [Cache.get] on the slot of the name. *)
Definition cache_slot_get (now : Z) (hostname : bytes) (d : dns)
    : option (option entry * dns) :=
  let i := get_cache_slot hostname in
  c ← dn_caches d !! i;
  '(r, c) ← cache_get hostname c;
  match r with
  | None => Some (None, set_slot i c d)
  | Some e =>
      record ← entry_record e d;
      if expired now record then
        '(dropped, c) ← cache_remove hostname c;
        d ← evict_entries dropped (set_slot i c d);
        Some (None, d)
      else Some (Some e, set_slot i c d)
  end.

(** [create_new_record] and [create_new_record_from_resolved]; [false] is
    [error.OutOfMemory]. *)
Definition create_new_record (hostname : bytes) (e : entry) (en : environment) (d : dns)
    : option (bool * dns) :=
  if negb (en_record_ok en) then Some (false, d)
  else
    let i := get_cache_slot hostname in
    c ← dn_caches d !! i;
    '(ok, dropped, c) ← cache_put (en_node_ok en) (en_map_ok en) hostname e c;
    d ← evict_entries dropped (set_slot i c d);
    Some (ok, d).

(** [Record.append_callback]. *)
Definition append_to (e : entry) (cb : nat) (en : environment) (d : dns)
    : option (append_result * dns) :=
  match e with
  | Seeded _ => Some (NotPending, d)
  | OfQuery q =>
      x ← dn_queries d !! q;
      if qy_freed x then None
      else
        let c := qy_control x in
        match rc_state (ct_record c) with
        | rs_pending =>
            if ct_destroyed c then None
            else if ct_resolved c then Some (NotPending, d)
            else if negb (en_callback_ok en) then Some (AppendFailed, d)
            else Some (Appended, on_control q (fun c => (append_callback cb c).2) d)
        | _ => Some (NotPending, d)
        end
  end.

(** ** Starting a query *)

(** Whether the completion of an operation, or a release, may still write to the
    record. *)
Definition touches_record (c : ControlData) : bool :=
  negb (ct_record_evicted c) && negb (ct_resolved c).

(** [ControlData.release]. *)
Definition release_query (loop_initialized : bool) (q : nat) (d : dns) : option dns :=
  x ← dn_queries d !! q;
  let c := qy_control x in
  if ct_destroyed c then None
  else if touches_record c && negb (ct_released c) && qy_freed x then None
  else Some (on_control q (control_release loop_initialized) d).

Definition question_types (question_type : option QuestionType) : list QuestionType :=
  match question_type with
  | Some t => [t]
  | None => if ipv6_supported then [q_ipv4; q_ipv6] else [q_ipv4]
  end.

Definition questions (hosts : list Hostname) (question_type : option QuestionType)
    : list (bytes * QuestionType) :=
  hosts ≫= (fun h => (fun t => (hn_hostname h, t)) <$> question_types question_type).

(** One datagram in its [QuerySlot]. *)
Definition build_slot (id : N) (question : bytes * QuestionType) : option (N * bytes) :=
  '(payload, len) ← build_query id (replicate 512 x00) question.2 question.1;
  if len <=? 512 then Some (id, take len payload) else None.

Fixpoint build_slots (ids : list N) (qs : list (bytes * QuestionType))
    : option (list (N * bytes)) :=
  match ids, qs with
  | id :: ids', x :: qs' =>
      s ← build_slot id x; l ← build_slots ids' qs'; Some (s :: l)
  | _, _ => Some []
  end.

(** [build_queries]: the socket, the identifiers, the datagrams. *)
Definition build_queries (socket : option (list N)) (hosts : list Hostname)
    (question_type : option QuestionType) : option (dns_error + ServerQueryData) :=
  let qs := questions hosts question_type in
  match socket with
  | None => Some (inl SystemError)
  | Some ids =>
      if negb (length ids =? length qs) then Some (inl SystemError)
      else
        slots ← build_slots ids qs;
        Some (inr (sv_set_op None (new_server (length hosts) slots)))
  end.

(** For every server; on an error the sockets opened so far are closed and forgotten. *)
Fixpoint build_servers (servers : list Address) (sockets : list (option (list N)))
    (hosts : list Hostname) (question_type : option QuestionType)
    : option (dns_error + list ServerQueryData) :=
  match servers with
  | [] => Some (inr [])
  | _ :: servers' =>
      r ← build_queries (default None (head sockets)) hosts question_type;
      match r with
      | inl e => Some (inl e)
      | inr s =>
          r ← build_servers servers' (tail sockets) hosts question_type;
          match r with
          | inl e => Some (inl e)
          | inr l => Some (inr (s :: l))
          end
      end
  end.

Definition new_control (en : environment) : ControlData :=
  MkControl [] 0 false false false false [] (MkRecord rs_pending (2 ^ 63 - 1))
    (en_now en) [] (en_dispatch en) (en_alloc en).

(** The [errdefer] of [prepare_data]. *)
Definition abandon (q : nat) (e : dns_error) (d : dns) : option ((dns_error + nat) * dns) :=
  d ← release_query true q (on_control q (set_callbacks []) d); Some (inl e, d).

Definition prepare_data (hostname : bytes) (cb : nat) (question_type : option QuestionType)
    (en : environment) (d : dns) : option ((dns_error + nat) * dns) :=
  let oom := ZigError OutOfMemory in
  if negb (en_control_ok en) then Some (inl oom, d)
  else
    let q := length (dn_queries d) in
    let d := d <| dn_queries := dn_queries d ++ [Query hostname (new_control en) true] |> in
    '(ok, d) ← create_new_record hostname (OfQuery q) en d;
    if negb ok then Some (inl oom, on_control q (set_released true) d)
    else
      let d := on_query q (fun x => Query (qy_hostname x) (qy_control x) false) d in
      if negb (en_callback_ok en) then abandon q oom d
      else
        let d := on_control q (set_callbacks [cb]) d in
        if negb (en_arena_ok en) then abandon q oom d
        else
          let hosts := get_hostname_array hostname (search configuration) in
          if length hosts =? 0 then abandon q (ZigError InvalidHostname) d
          else if negb (en_pending_ok en) then abandon q oom d
          else
            r ← build_servers (servers configuration) (en_sockets en) hosts question_type;
            match r with
            | inl e => abandon q e d
            | inr l => Some (inr q, on_control q (set_servers l) d)
            end.

(** How many of the [n] first writes are submitted. *)
Fixpoint submitted (n : nat) (oks : list bool) : nat :=
  match n with
  | 0 => 0
  | S n' => match oks with
            | [] => S (submitted n' [])
            | true :: oks' => S (submitted n' oks')
            | false :: _ => 0
            end
  end.

(** [Resolv.queue]; with the error it returns. *)
Definition queue (hostname : bytes) (cb : nat) (question_type : option QuestionType)
    (en : environment) (d : dns) : option (option dns_error * dns) :=
  '(r, d) ← prepare_data hostname cb question_type en d;
  match r with
  | inl e => Some (Some e, d)
  | inr q =>
      x ← dn_queries d !! q;
      let l := ct_servers (qy_control x) in
      if existsb (fun s => length (sv_queries s) =? 0) l then None
      else
        let sent := submitted (length l) (en_submit en) in
        let d := on_control q (set_servers ((sv_set_op (Some OpWrite) <$> take sent l)
                                            ++ drop sent l)) d in
        if sent =? length l then Some (None, d)
        else
          let d := on_control q (set_callbacks []) d in
          d ← (if ct_record_evicted (qy_control x) then Some d
               else if qy_freed x then None
               else Some (on_control q (fun c => set_evicted (set_record discard c)) d));
          let d := on_control q (fun c => set_servers (sv_close <$> ct_servers c) c) d in
          if sent =? 0 then
            d ← release_query true q d; Some (Some SystemError, d)
          else
            Some (Some SystemError,
                  on_control q (fun c => set_servers (take sent (ct_servers c)) c) d)
  end.

(** ** Lookups *)

Definition accept (cb : nat) (d : dns) : dns := d <| dn_accepted := dn_accepted d ++ [cb] |>.

(** [try Resolv.queue(..); return null;] *)
Definition queue_or_fail (hostname : bytes) (cb : nat) (question_type : option QuestionType)
    (en : environment) (d : dns) : option (answer * dns) :=
  '(r, d) ← queue hostname cb question_type en d;
  match r with
  | Some e => Some (Failed e, d)
  | None => Some (Null, accept cb d)
  end.

(** Joining the query a record belongs to, or starting another. *)
Definition join_or_queue (hostname : bytes) (e : entry) (cb : nat)
    (question_type : option QuestionType) (en : environment) (d : dns)
    : option (answer * dns) :=
  '(r, d) ← append_to e cb en d;
  match r with
  | Appended => Some (Null, accept cb d)
  | NotPending => queue_or_fail hostname cb question_type en d
  | AppendFailed => Some (Failed (ZigError OutOfMemory), d)
  end.

Definition lookup (hostname : bytes) (callback : option nat) (en : environment) (d : dns)
    : option (answer * dns) :=
  if 255 <? length hostname then Some (Failed (ZigError InvalidHostname), d)
  else
    let parsed_hostname := lowerString hostname in
    '(r, d) ← cache_slot_get (en_now en) parsed_hostname d;
    match r with
    | None =>
        match callback with
        | None => Some (Null, d)
        | Some cb =>
            match resolve_address parsed_hostname ipv6_supported 2 with
            | Err e => Some (Failed (ZigError e), d)
            | Ok [] => queue_or_fail parsed_hostname cb None en d
            | Ok (a :: l) =>
                if negb (en_seed_ok en) then Some (Null, accept cb d)
                else
                  '(ok, d) ← create_new_record parsed_hostname
                               (Seeded (set_resolved_data (en_now en) (a :: l) 60)) en d;
                  if negb ok then Some (Null, accept cb d) else Some (Found (a :: l), d)
            end
        end
    | Some e =>
        record ← entry_record e d;
        match get_address_list record, callback with
        | Some l, _ => Some (Found l, d)
        | None, None => Some (Null, d)
        | None, Some cb => join_or_queue parsed_hostname e cb None en d
        end
    end.

(** [Null] is the return without a value. *)
Definition reverse_lookup (address : Address) (cb : nat) (en : environment) (d : dns)
    : option (answer * dns) :=
  match build_reverse_name address 128 with
  | Err e => Some (Failed (ZigError e), d)
  | Ok name =>
      '(r, d) ← cache_slot_get (en_now en) name d;
      match r with
      | None => queue_or_fail name cb (Some q_ptr) en d
      | Some e =>
          record ← entry_record e d;
          match rc_state record with
          | rs_ptr _ =>
              if en_soon_ok en
              then Some (Null, accept cb (d <| dn_soon := dn_soon d ++ [cb] |>))
              else Some (Failed (ZigError OutOfMemory), d)
          | _ => join_or_queue name e cb (Some q_ptr) en d
          end
      end
  end.

(** ** Completions and the end *)

Definition set_now (now : Z) (c : ControlData) : ControlData :=
  MkControl (ct_servers c) (ct_tasks_finished c) (ct_resolved c) (ct_record_evicted c)
    (ct_released c) (ct_destroyed c) (ct_callbacks c) (ct_record c) now
    (ct_log c) (ct_dispatch_ok c) (ct_alloc_ok c).

Definition in_flight (i : nat) (c : ControlData) : bool :=
  match ct_servers c !! i with
  | Some s => match sv_op s with Some _ => true | None => false end
  | None => false
  end.

(** A read of server [i] is in flight, and the query has no result yet. *)
Definition reads (i : nat) (c : ControlData) : bool :=
  negb (ct_resolved c)
  && match ct_servers c !! i with
     | Some s => match sv_op s with Some OpRead => true | _ => false end
     | None => false
     end.

(** The operation of server [i] of query [q] completes; there may be none. *)
Definition on_completion (loop_initialized : bool) (q i : nat) (comp : completion)
    (queue_ok : bool) (now : Z) (d : dns) : option dns :=
  match dn_queries d !! q with
  | None => Some d
  | Some x =>
      let c := qy_control x in
      if negb (in_flight i c) then Some d
      else if ct_destroyed c then None
      else if touches_record c && qy_freed x then None
      else
        let d := match comp with
                 | CompData response =>
                     if reads i c then d <| dn_seen := dn_seen d ++ [(q, i, response)] |> else d
                 | _ => d
                 end in
        Some (on_control q (fun c => complete loop_initialized i comp queue_ok (set_now now c)) d)
  end.

Fixpoint deinit_caches (l : list C) (d : dns) : option dns :=
  match l with
  | [] => Some d
  | c :: l' =>
      dropped ← cache_deinit c;
      d ← evict_entries dropped d;
      deinit_caches l' d
  end.

(** [pending_queries] are the queries that are not released. *)
Fixpoint release_pending (qs : list nat) (d : dns) : option dns :=
  match qs with
  | [] => Some d
  | q :: qs' =>
      x ← dn_queries d !! q;
      if ct_released (qy_control x) then release_pending qs' d
      else d ← release_query false q d; release_pending qs' d
  end.

(** [DNS.deinit], with the loop no longer initialized: the caches, then the pending
    queries in the order they were started. *)
Definition deinit (d : dns) : option dns :=
  d ← deinit_caches (dn_caches d) d;
  let d := d <| dn_caches := [] |> in
  release_pending (seq 0 (length (dn_queries d))) d.

(** [DNS.release_deferred]: what was parked is freed. *)
Definition release_deferred (d : dns) : dns :=
  d <| dn_queries := with_control (fun c => if ct_released c then set_released true c else c)
                       <$> dn_queries d |>.

(** ** Histories *)

Inductive event : Type :=
| EvLookup (hostname : bytes) (callback : option nat) (en : environment)
| EvReverse (address : Address) (cb : nat) (en : environment)
| EvCompletion (q i : nat) (comp : completion) (queue_ok : bool) (now : Z).

Definition handle (ev : event) (d : dns) : option dns :=
  match ev with
  | EvLookup hostname callback en => '(_, d) ← lookup hostname callback en d; Some d
  | EvReverse address cb en => '(_, d) ← reverse_lookup address cb en d; Some d
  | EvCompletion q i comp queue_ok now => on_completion true q i comp queue_ok now d
  end.

Fixpoint run (evs : list event) (d : dns) : option dns :=
  match evs with
  | [] => Some d
  | ev :: evs' => d ← handle ev d; run evs' d
  end.

(** Completions that arrive while the loop is torn down. *)
Fixpoint drain (l : list (nat * nat * completion * bool * Z)) (d : dns) : option dns :=
  match l with
  | [] => Some d
  | (q, i, comp, queue_ok, now) :: l' =>
      d ← on_completion false q i comp queue_ok now d; drain l' d
  end.
End Front.
Arguments dns C : clear implicits.
