(* ===== verification/DnsQuery.v ===== *)
(** * One query of the resolver

    What the handlers of [Resolver] keep of a [ControlData] - its callbacks, its queries,
    the agreement of its flags with its record, the origin of its results - and with it
    what holds of a query of [DnsFront] between two events. *)

From Stdlib Require Import Strings.Byte NArith ZArith Lia.
From stdpp Require Import base numbers list sets.
From S2P Require Import Prelude IpAddress DnsName Resolver DnsCache DnsFront.

Open Scope nat_scope.

(** ** What a completion leaves of a query *)

(** An edit of a server that touches neither its queries nor its results. *)
Definition quiet (f : ServerQueryData -> ServerQueryData) : Prop :=
  forall s, sv_queries (f s) = sv_queries s /\ sv_results (f s) = sv_results s
            /\ sv_ptr_results (f s) = sv_ptr_results s.

Definition file_records (records : list dns_record) (s : ServerQueryData) : ServerQueryData :=
  fold_left (fun s r => sv_add r s) records s.

(** The parts the handlers of [Resolver] are made of, and hence all of them, preserve
    [I].  [listening]: what holds when a read completes for a query without a result. *)
Section Completion.
Variables (loop_initialized : bool) (i : nat) (comp : completion) (I : ControlData -> Prop).
Variable listening : Prop.
Hypotheses
  (I_server : forall f c, quiet f -> I c -> I (on_server i f c))
  (I_mark : forall c, I c -> I (mark_resolved i c).2)
  (I_tasks : forall n c, I c -> I (set_tasks n c))
  (I_release : forall c, I c -> I (control_release loop_initialized c))
  (I_file : forall c s response records, listening -> comp = CompData response ->
     ct_servers c !! i = Some s -> classify (sv_queries s) response = Answers records ->
     I c -> I (on_server i (file_records records) c)).

Lemma server_release_keeps c : I c -> I (server_release loop_initialized i c).
Proof.
  intros HI. unfold server_release, cancel. destruct (is_finished i c); [exact HI|]. cbn zeta.
  assert (H0 : I (set_tasks (ct_tasks_finished (on_server i sv_close (on_server i sv_finish c)) + 1)
                    (on_server i sv_close (on_server i sv_finish c)))).
  { apply I_tasks. do 2 (apply I_server; [intros s; now cbn|]). exact HI. }
  destruct (_ =? _); [now apply I_release | exact H0].
Qed.

Lemma finish_keeps m c : I c -> I (finish loop_initialized i m c).2.
Proof.
  intros HI. unfold finish.
  assert (H0 : I (if m then mark_resolved i c else (true, c)).2) by (destruct m; auto).
  destruct (if m then _ else _) as [[] c1]; [now apply server_release_keeps | exact H0].
Qed.

Lemma queue_op_keeps o ok c : I c -> I (queue_op i o ok c).2.
Proof. intros HI. destruct ok; [|exact HI]. apply I_server; [intros s; now cbn | exact HI]. Qed.

Lemma on_query_sent_keeps ok c : I c -> I (on_query_sent loop_initialized i comp ok c).2.
Proof.
  intros HI. unfold on_query_sent. destruct comp; try (now apply finish_keeps).
  destruct (ct_resolved c); [now apply finish_keeps|]. cbn zeta.
  assert (H0 : I (on_server i sv_sent c)) by (apply I_server; [intros s; now cbn | exact HI]).
  destruct (ct_servers (on_server i sv_sent c) !! i); [|exact H0].
  destruct (_ <? _); now apply queue_op_keeps.
Qed.

(** The two ways a datagram is accounted for. *)
Lemma account_keeps always_mark ok c :
  I c -> I (drop_response loop_initialized i always_mark ok c).2
         /\ I (after_answers loop_initialized i ok c).2.
Proof.
  intros HI. unfold drop_response, after_answers. cbn zeta.
  assert (H0 : I (on_server i sv_count c)) by (apply I_server; [intros s; now cbn | exact HI]).
  destruct (ct_servers (on_server i sv_count c) !! i); [|auto].
  destruct (_ && _); (split; [now first [apply queue_op_keeps | apply finish_keeps]|]);
    destruct (_ && _); first [now apply finish_keeps | idtac];
    first [now apply queue_op_keeps | now apply finish_keeps].
Qed.

Lemma process_dns_response_keeps ok c :
  (ct_resolved c = false -> listening) -> I c -> I (process_dns_response loop_initialized i comp ok c).2.
Proof.
  intros HL HI. unfold process_dns_response.
  destruct comp as [| |response] eqn:Ec; [now apply server_release_keeps| |];
    (destruct (ct_resolved c); [now apply server_release_keeps|]; specialize (HL eq_refl));
    destruct (ct_servers c !! i) as [s|] eqn:Es; try (now apply server_release_keeps);
    [now apply finish_keeps|].
  destruct (classify _ response) as [| | |records] eqn:El; try (now apply account_keeps).
  apply (account_keeps true). now apply (I_file c s response).
Qed.

Lemma complete_keeps ok c :
  (reads i c = true -> listening) -> I c -> I (complete loop_initialized i comp ok c).
Proof.
  intros HL HI. unfold reads in HL. unfold complete.
  destruct (ct_servers c !! i) as [s|]; [|exact HI].
  destruct (sv_op s) as [o|]; [|exact HI]. cbn zeta.
  set (c1 := on_server i (sv_set_op None) c).
  assert (H1 : I c1) by (apply I_server; [intros x; now cbn | exact HI]).
  assert (H2 : I (match o with
                  | OpWrite => on_query_sent loop_initialized i comp ok c1
                  | OpRead => process_dns_response loop_initialized i comp ok c1
                  end).2)
    by (destruct o; [now apply on_query_sent_keeps | apply process_dns_response_keeps; [|exact H1]];
        change (ct_resolved c1) with (ct_resolved c); intros E; apply HL; now rewrite E).
  clear HL. destruct (match o with OpWrite => _ | OpRead => _ end) as [[] c2]; [exact H2|].
  now apply server_release_keeps.
Qed.
End Completion.

(** What the record phase writes: what server [i] was told, unless the record is
    evicted or the copy fails. *)
Lemma record_phase_cases i c :
  let c1 := cancel_live (set_resolved true c) in
  exists r oks, (record_phase i c1).2 = set_record r (set_alloc oks c1)
    /\ (ct_record_evicted c = true \/ (record_phase i c1).1 = false
        \/ ct_servers c !! i = None -> r = ct_record c)
    /\ (ct_record_evicted c = false -> (record_phase i c1).1 = true ->
         forall s, ct_servers c !! i = Some s ->
         (exists name l, sv_ptr_results s = name :: l /\ rc_state r = rs_ptr name)
         \/ rc_state r = rs_resolved (sv_results s) \/ rc_state r = rs_none).
Proof.
  intros c1. unfold record_phase. change (ct_record_evicted c1) with (ct_record_evicted c).
  assert (Hid : c1 = set_record (ct_record c) (set_alloc (ct_alloc_ok c1) c1)) by (now destruct c).
  destruct (ct_record_evicted c).
  { exists (ct_record c), (ct_alloc_ok c1). split; [exact Hid|]. split; [auto | discriminate]. }
  assert (Es1 : ct_servers c1 !! i
                = (fun s => if sv_finished s then s else sv_close s) <$> ct_servers c !! i)
    by apply list_lookup_fmap.
  rewrite Es1. destruct (ct_servers c !! i) as [s|] eqn:Es; cbn [fmap option_fmap option_map].
  2: { exists (ct_record c), (ct_alloc_ok c1). split; [exact Hid|]. split; [auto | discriminate]. }
  assert (El : forall (b : bool), sv_ptr_results (if b then s else sv_close s) = sv_ptr_results s
            /\ sv_results (if b then s else sv_close s) = sv_results s) by now intros [].
  destruct (El (sv_finished s)) as [-> ->].
  destruct (alloc_frame c1) as [oks Ha]. destruct (alloc c1) as [[] c2]; cbn [snd] in Ha; subst c2;
    destruct (sv_ptr_results s) as [|name l] eqn:Ep;
    [destruct (sv_results s) eqn:Ers| |destruct (sv_results s) eqn:Ers|]; cbn [fst snd].
  all: eexists _, _; split;
    [first [reflexivity | instantiate (1 := ct_alloc_ok c1); now destruct c
           | instantiate (1 := oks); instantiate (1 := ct_record c); now destruct c]|].
  all: split; [intros [[=]|[[=]|[=]]]; reflexivity
              | intros _ Hok s' [= <-]; try discriminate Hok; rewrite ?Ep, ?Ers; eauto].
Qed.

(** [mark_resolved] as one update: [b] is whether the lookup is resolved by it. *)
Lemma mark_resolved_cases i c :
  (ct_resolved c = true /\ (mark_resolved i c).2 = c)
  \/ (ct_resolved c = false /\ exists r oks log doks b,
       (mark_resolved i c).2
       = set_log log doks (set_resolved b (set_record r (set_alloc oks (cancel_live c))))
       /\ (ct_record_evicted c = true \/ b = false \/ ct_servers c !! i = None -> r = ct_record c)
       /\ (ct_record_evicted c = false -> b = true -> forall s, ct_servers c !! i = Some s ->
             (exists name l, sv_ptr_results s = name :: l /\ rc_state r = rs_ptr name)
             \/ rc_state r = rs_resolved (sv_results s) \/ rc_state r = rs_none)).
Proof.
  rewrite mark_resolved_eq. destruct (ct_resolved c) eqn:Er; [now left|]. right.
  split; [reflexivity|]. destruct (record_phase_cases i c) as (r & oks & H1 & H2 & H3).
  set (c1 := cancel_live (set_resolved true c)) in *.
  destruct (record_phase i c1) as [ok c2]. cbn [fst snd] in *. subst c2.
  destruct ok; cbn [snd].
  - set (c2 := set_record _ _).
    destruct (dispatch_user_callbacks_hands_over (ct_callbacks c2) c2) as (O & _).
    unfold log_only in O. rewrite O. exists r, oks. do 2 eexists. exists true.
    split; [reflexivity|]. split; [intros [E|[E|E]]; [auto | discriminate | auto]|]. auto.
  - exists r, oks, (ct_log c), (ct_dispatch_ok c), false. split; [now destruct c|].
    split; [auto | discriminate].
Qed.

(** [control_release] as one update. *)
Lemma control_release_cases li c :
  (ct_released c = true /\ control_release li c = c)
  \/ (ct_released c = false /\ exists r log doks,
       control_release li c = set_log log doks (set_record r (set_released li c))
       /\ r = if touches_record c then discard else ct_record c).
Proof.
  unfold control_release, touches_record. destruct (ct_released c) eqn:Er; [now left|]. right.
  split; [reflexivity|]. cbn zeta. cbn [ct_resolved set_released].
  destruct (ct_resolved c) eqn:Es.
  - rewrite andb_false_r. exists (ct_record c), (ct_log c), (ct_dispatch_ok c).
    split; [now destruct c | reflexivity].
  - rewrite andb_true_r. set (c1 := if ct_record_evicted _ then _ else _).
    destruct (dispatch_cancelled_hands_over (ct_callbacks c1) c1) as (O & _).
    unfold log_only in O. set (c2 := dispatch_cancelled _ c1) in *. clearbody c2.
    exists (if negb (ct_record_evicted c) then discard else ct_record c), (ct_log c2), (ct_dispatch_ok c2).
    split; [|reflexivity].
    transitivity (set_released li (set_log (ct_log c2) (ct_dispatch_ok c2) c1)); [now rewrite <- O|].
    unfold c1. cbn [ct_record_evicted set_released]. now destruct (ct_record_evicted c).
Qed.

(** What a completion never changes, and the two flags it only ever sets. *)
Definition steady (c0 c : ControlData) : Prop :=
  ct_callbacks c = ct_callbacks c0 /\ ct_record_evicted c = ct_record_evicted c0
  /\ sv_queries <$> ct_servers c = sv_queries <$> ct_servers c0
  /\ (ct_resolved c0 = true -> ct_resolved c = true)
  /\ (ct_released c0 = true -> ct_released c = true /\ ct_destroyed c = ct_destroyed c0)
  /\ (ct_record_evicted c0 = true -> ct_record c = ct_record c0).

Lemma steady_refl c : steady c c.
Proof. repeat split; auto. Qed.

Lemma steady_trans c1 c2 c3 : steady c1 c2 -> steady c2 c3 -> steady c1 c3.
Proof.
  intros (A1 & B1 & C1 & D1 & E1 & R1) (A2 & B2 & C2 & D2 & E2 & R2).
  split; [congruence|]. split; [congruence|]. split; [congruence|]. split; [auto|].
  split; [|intros He; rewrite R2, R1 by congruence; reflexivity].
  intros Hr. destruct (E1 Hr) as [F1 G1]. destruct (E2 F1). split; congruence.
Qed.

Lemma fmap_alter_same {A B} (g : A -> B) f i (l : list A) :
  (forall x, g (f x) = g x) -> g <$> alter f i l = g <$> l.
Proof.
  intros Hf. revert i. induction l as [|x l IH]; intros [|i]; cbn; try reflexivity.
  - now rewrite Hf.
  - f_equal. apply IH.
Qed.

Lemma file_records_queries records s : sv_queries (file_records records s) = sv_queries s.
Proof. apply (files_records records s). Qed.

Lemma steady_on_server i f c :
  (forall s, sv_queries (f s) = sv_queries s) -> steady c (on_server i f c).
Proof.
  intros Hf. repeat split; auto. cbn [ct_servers on_server set_servers]. now apply fmap_alter_same.
Qed.

Lemma steady_mark i c : steady c (mark_resolved i c).2.
Proof.
  destruct (mark_resolved_cases i c) as [[_ ->]|(Er & r & oks & log & doks & b & -> & Hr & _)];
    [apply steady_refl|].
  repeat split; cbn; auto; [|congruence].
  rewrite <- list_fmap_compose. apply list_fmap_ext. intros _ s _. cbn. now destruct (sv_finished s).
Qed.

Lemma steady_release li c : steady c (control_release li c).
Proof.
  destruct (control_release_cases li c) as [[_ ->]|(Er & r & log & doks & -> & ->)];
    [apply steady_refl|]. repeat split; cbn; auto; try congruence.
  unfold touches_record. intros ->. reflexivity.
Qed.

Lemma complete_steady li i comp ok c : steady c (complete li i comp ok c).
Proof.
  apply (complete_keeps li i comp (steady c) True); [| | | | |auto|apply steady_refl].
  - intros f c' Hf Hc. apply (steady_trans _ c'); [exact Hc|]. apply steady_on_server. apply Hf.
  - intros c' Hc. apply (steady_trans _ c'); [exact Hc | apply steady_mark].
  - intros n c' Hc. apply (steady_trans _ c'); [exact Hc | repeat split; auto].
  - intros c' Hc. apply (steady_trans _ c'); [exact Hc | apply steady_release].
  - intros c' s response records _ _ _ _ Hc. apply (steady_trans _ c'); [exact Hc|].
    apply steady_on_server. apply file_records_queries.
Qed.

(** A record that is not evicted is pending exactly while its query goes on. *)
Definition record_follows (c : ControlData) : Prop :=
  ct_record_evicted c = false ->
  (rc_state (ct_record c) = rs_pending <-> ct_resolved c = false /\ ct_released c = false).

Lemma release_follows li c : record_follows c -> record_follows (control_release li c).
Proof.
  intros HF. destruct (control_release_cases li c) as [[_ ->]|(Er & r & log & doks & -> & ->)];
    [exact HF|]. unfold record_follows, touches_record in *. cbn. intros He. rewrite He in *.
  specialize (HF eq_refl). destruct (ct_resolved c); cbn.
  - rewrite HF. intuition discriminate.
  - split; [discriminate | intros [_ [=]]].
Qed.

Lemma complete_follows li i comp ok c :
  record_follows c -> is_Some (ct_servers c !! i) -> record_follows (complete li i comp ok c).
Proof.
  intros HF Hs.
  apply (complete_keeps li i comp (fun c => record_follows c /\ is_Some (ct_servers c !! i)) True);
    [| | | | |auto|auto]; clear c HF Hs.
  - intros f c _ [HF [s Hs]]. split; [exact HF|]. cbn. rewrite list_lookup_alter_eq, Hs. now eexists.
  - intros c [HF [s Hs]].
    destruct (mark_resolved_cases i c) as [[_ ->]|(Er & r & oks & log & doks & b & -> & H1 & H2)];
      [split; [exact HF | now exists s]|].
    split; [|exists (if sv_finished s then s else sv_close s); exact (cancel_live_lookup c i s Hs)].
    unfold record_follows in *. cbn. intros He. specialize (HF He). rewrite Er in HF. destruct b.
    + destruct (H2 He eq_refl s Hs) as [(name & l & _ & ->)|[->| ->]]; intuition discriminate.
    + rewrite H1 by auto. exact HF.
  - intros n c HI. exact HI.
  - intros c [HF Hs]. split; [now apply release_follows|].
    destruct (control_release_cases li c) as [[_ ->]|(_ & r & log & doks & -> & _)]; exact Hs.
  - intros c s response records _ _ Hs _ [HF _]. split; [exact HF|]. cbn.
    rewrite list_lookup_alter_eq, Hs. now eexists.
Qed.

(** ** What a query believes

    [P i qs r]: record [r] was an answer of server [i] to one of its queries [qs]. *)

Section Believes.
Variable P : nat -> list (N * bytes) -> dns_record -> Prop.

Definition told_address (i : nat) (qs : list (N * bytes)) (a : Address) : Prop :=
  exists r, P i qs r /\ rr_ptr_name r = None /\ rr_address r = a.
Definition told_name (i : nat) (qs : list (N * bytes)) (n : bytes) : Prop :=
  exists r, P i qs r /\ rr_ptr_name r = Some n.

Definition server_told (i : nat) (s : ServerQueryData) : Prop :=
  Forall (told_address i (sv_queries s)) (sv_results s)
  /\ Forall (told_name i (sv_queries s)) (sv_ptr_results s).

Definition servers_told (l : list ServerQueryData) : Prop :=
  forall i s, l !! i = Some s -> server_told i s.

Definition record_told (all : list (list (N * bytes))) (st : RecordState) : Prop :=
  match st with
  | rs_resolved l => exists i qs, all !! i = Some qs /\ Forall (told_address i qs) l
  | rs_ptr n => exists i qs, all !! i = Some qs /\ told_name i qs n
  | _ => True
  end.

Definition believes (c : ControlData) : Prop :=
  servers_told (ct_servers c)
  /\ record_told (sv_queries <$> ct_servers c) (rc_state (ct_record c)).

Lemma believes_on_server i f c :
  (forall s, sv_queries (f s) = sv_queries s) ->
  (forall s, ct_servers c !! i = Some s -> server_told i s -> server_told i (f s)) ->
  believes c -> believes (on_server i f c).
Proof.
  intros Hq Hf [H1 H2]. split; cbn [ct_servers on_server set_servers ct_record].
  - intros j s Hj. destruct (decide (i = j)) as [->|Hne].
    + rewrite list_lookup_alter_eq in Hj. destruct (ct_servers c !! j) as [s0|] eqn:E; [|discriminate].
      injection Hj as <-. eauto.
    + rewrite list_lookup_alter_ne in Hj by exact Hne. eauto.
  - rewrite fmap_alter_same by exact Hq. exact H2.
Qed.

(** Filing the answers to one of its queries. *)
Lemma file_records_told i records s :
  (forall r, r ∈ records -> P i (sv_queries s) r) -> server_told i s ->
  server_told i (file_records records s).
Proof.
  revert s. induction records as [|r records IH]; intros s Hr Hs; [exact Hs|].
  assert (Hq : sv_queries (sv_add r s) = sv_queries s)
    by (unfold sv_add; destruct (rr_ptr_name r); [reflexivity|]; now destruct (decide _)).
  apply IH; [rewrite Hq; intros r' Hin; apply Hr; set_solver|]. destruct Hs as [H1 H2].
  assert (HP : P i (sv_queries s) r) by (apply Hr; set_solver).
  unfold server_told. rewrite Hq. unfold sv_add. destruct (rr_ptr_name r) as [n|] eqn:En.
  - split; [exact H1|]. apply Forall_app. split; [exact H2|]. apply Forall_singleton. now exists r.
  - destruct (decide _); [now split|]. split; [|exact H2].
    apply Forall_app. split; [exact H1|]. apply Forall_singleton. now exists r.
Qed.

(** The record a server's results make. *)
Lemma results_told i s (all : list (list (N * bytes))) st :
  all !! i = Some (sv_queries s) -> server_told i s ->
  (exists name l, sv_ptr_results s = name :: l /\ st = rs_ptr name)
  \/ st = rs_resolved (sv_results s) \/ st = rs_none ->
  record_told all st.
Proof.
  intros Ha [H1 H2] [(name & l & El & ->)|[->| ->]]; [|now exists i, (sv_queries s) | exact I].
  rewrite El in H2. inversion H2. now exists i, (sv_queries s).
Qed.

Lemma complete_believes li i comp ok c :
  (forall s response records, reads i c = true -> comp = CompData response ->
     ct_servers c !! i = Some s ->
     classify (sv_queries s) response = Answers records -> forall r, r ∈ records -> P i (sv_queries s) r) ->
  believes c -> believes (complete li i comp ok c).
Proof.
  intros HP HB.
  apply (complete_keeps li i comp
           (fun c' => believes c' /\ sv_queries <$> ct_servers c' = sv_queries <$> ct_servers c)
           (reads i c = true));
    [| | | | |auto|auto].
  - intros f c' Hf [HB' Hq]. split.
    + apply believes_on_server; [intros s; apply Hf | | exact HB'].
      intros s _ [H1 H2]. destruct (Hf s) as (E1 & E2 & E3). split; rewrite E1, ?E2, ?E3; assumption.
    + cbn. rewrite fmap_alter_same; [exact Hq | intros s; apply Hf].
  - intros c' [[H1 H2] Hq]. pose proof (steady_mark i c') as (_ & _ & Hq' & _).
    split; [|now rewrite Hq'].
    destruct (mark_resolved_cases i c') as [[_ ->]|(Er & r & oks & log & doks & b & E & H3 & H4)]; [now split|].
    split; [|rewrite Hq'].
    + rewrite E. cbn. intros j s Hj. rewrite list_lookup_fmap in Hj.
      destruct (ct_servers c' !! j) as [s0|] eqn:Ej; [|discriminate]. injection Hj as <-.
      specialize (H1 j s0 Ej). now destruct (sv_finished s0).
    + rewrite E. cbn. destruct (ct_record_evicted c') eqn:Ev; [rewrite H3 by auto; exact H2|].
      destruct b; [|rewrite H3 by auto; exact H2].
      destruct (ct_servers c' !! i) as [s|] eqn:Es.
      2: { rewrite H3 by auto. exact H2. }
      apply (results_told i s); [now rewrite list_lookup_fmap, Es | auto | auto].
  - intros n c' HI. exact HI.
  - intros c' [[H1 H2] Hq].
    destruct (control_release_cases li c') as [[_ ->]|(_ & r & log & doks & -> & ->)]; [now split|].
    split; [|exact Hq]. split; [exact H1|]. cbn. now destruct (touches_record c').
  - intros c' s response records Hl -> Hs Hcl [HB' Hq]. split.
    + apply believes_on_server; [apply file_records_queries| |exact HB'].
      intros s' Hs' Ht. rewrite Hs in Hs'. injection Hs' as <-. apply file_records_told; [|exact Ht].
      assert (Hs0 : (sv_queries <$> ct_servers c') !! i = Some (sv_queries s)) by now rewrite list_lookup_fmap, Hs.
      rewrite Hq, list_lookup_fmap in Hs0.
      destruct (ct_servers c !! i) as [s0|] eqn:E0; [|discriminate]. injection Hs0 as Hs0.
      rewrite <- Hs0 in Hcl |- *. now apply (HP s0 response records).
    + cbn. rewrite fmap_alter_same; [exact Hq | apply file_records_queries].
Qed.
End Believes.

(** ** One query of the resolver *)

Section Query.
Context `{DnsSetup}.

(** A datagram of [q]: the question it asks is about a candidate of the name. *)
Definition asked (hostname : bytes) (q : N * bytes) : Prop :=
  exists t h, h ∈ hn_hostname <$> get_hostname_array hostname (search configuration)
    /\ validate_hostname h = true /\ q.2 = query_bytes q.1 t h.

(** Record [r] was in a response of server [i] that query [q] took for an answer to
    [qs]. *)
Definition heard (seen : list (nat * nat * bytes)) (q i : nat) (qs : list (N * bytes))
    (r : dns_record) : Prop :=
  exists response records, (q, i, response) ∈ seen
    /\ classify qs response = Answers records /\ r ∈ records.

(** A query that was given up before anything was sent. *)
Record dead (c : ControlData) : Prop := {
  de_released : ct_released c = true;
  de_destroyed : ct_destroyed c = true;
  de_callbacks : ct_callbacks c = [];
  de_log : ct_log c = [];
  de_idle : forall i s, ct_servers c !! i = Some s -> sv_op s = None }.

Record query_ok (rel : bool) (seen : list (nat * nat * bytes)) (q : nat) (x : query) : Prop := {
  qo_control : control_wf rel (qy_control x) \/ dead (qy_control x);
  qo_name : validate_hostname (qy_hostname x) = true;
  qo_follows : qy_freed x = false -> record_follows (qy_control x);
  qo_pending : qy_freed x = false -> rc_state (ct_record (qy_control x)) = rs_pending ->
    ct_record_evicted (qy_control x) = false;
  qo_freed : qy_freed x = true -> ct_record_evicted (qy_control x) = true
    \/ ct_resolved (qy_control x) = true \/ ct_released (qy_control x) = true;
  qo_asked : Forall (fun qs => Forall (asked (qy_hostname x)) qs)
    (sv_queries <$> ct_servers (qy_control x));
  qo_believes : believes (heard seen q) (qy_control x) }.

Lemma query_destroyed rel seen q x :
  query_ok rel seen q x -> ct_destroyed (qy_control x) = ct_released (qy_control x).
Proof. intros [[HC|[]] _ _ _ _ _ _]; [apply (cw_destroyed _ _ HC) | congruence]. Qed.

Lemma in_flight_spec i c :
  in_flight i c = true -> exists s, ct_servers c !! i = Some s /\ sv_op s <> None.
Proof.
  unfold in_flight. destruct (ct_servers c !! i) as [s|] eqn:E; [|discriminate].
  destruct (sv_op s) eqn:Eo; [|discriminate]. intros _. exists s. split; congruence.
Qed.

Lemma in_flight_unreleased rel i c :
  control_wf rel c -> in_flight i c = true -> ct_released c = false.
Proof.
  intros HC (s & Hs & Ho)%in_flight_spec.
  exact (bz_released _ _ _ (proj1 (complete_busy rel i s c HC Hs Ho))).
Qed.

(** A query with an operation in flight is alive, and so is the record it may write. *)
Lemma query_in_flight rel seen q x i :
  query_ok rel seen q x -> in_flight i (qy_control x) = true ->
  control_wf rel (qy_control x) /\ ct_destroyed (qy_control x) = false
  /\ touches_record (qy_control x) && qy_freed x = false.
Proof.
  intros HQ Hi. destruct (qo_control _ _ _ _ HQ) as [HC|HD].
  - pose proof (in_flight_unreleased rel i _ HC Hi) as Hr. split; [exact HC|].
    split; [rewrite (query_destroyed _ _ _ _ HQ); exact Hr|].
    unfold touches_record. destruct (qy_freed x) eqn:Ef; [|apply andb_false_r].
    destruct (qo_freed _ _ _ _ HQ Ef) as [-> |[-> | E]]; [reflexivity | now rewrite andb_false_r | congruence].
  - destruct (in_flight_spec i _ Hi) as (s & Hs & Ho). destruct (Ho (de_idle _ HD i s Hs)).
Qed.

(** The record of a pending entry points to a query that goes on. *)
Lemma query_pending rel seen q x :
  query_ok rel seen q x -> qy_freed x = false ->
  rc_state (ct_record (qy_control x)) = rs_pending ->
  ct_record_evicted (qy_control x) = false /\ ct_resolved (qy_control x) = false
  /\ ct_released (qy_control x) = false /\ ct_destroyed (qy_control x) = false
  /\ control_wf rel (qy_control x).
Proof.
  intros HQ Hf Hp. pose proof (qo_pending _ _ _ _ HQ Hf Hp) as He.
  destruct (proj1 (qo_follows _ _ _ _ HQ Hf He) Hp) as [H1 H2].
  rewrite (query_destroyed _ _ _ _ HQ). split_and!; auto.
  destruct (qo_control _ _ _ _ HQ) as [HC|HD]; [exact HC | destruct HD; congruence].
Qed.

Definition evicted_query (x : query) : query :=
  Query (qy_hostname x) (evict_record (qy_control x)) true.

Lemma evict_record_fields c :
  (rc_state (ct_record c) = rs_pending /\ evict_record c = set_evicted c)
  \/ (rc_state (ct_record c) <> rs_pending /\ evict_record c = c).
Proof. unfold evict_record. destruct (rc_state _); [now left | right; now split ..]. Qed.

Lemma evicted_query_ok rel seen q x :
  query_ok rel seen q x -> qy_freed x = false -> query_ok rel seen q (evicted_query x).
Proof.
  intros HQ Hf. pose proof (qo_freed _ _ _ _ HQ). destruct HQ as [HC Hn HF HP _ HA HB].
  split; cbn [qy_control qy_hostname qy_freed evicted_query]; try discriminate; try assumption.
  - destruct HC as [HC|HD]; [left; now apply evict_record_wf|]. right.
    destruct HD. destruct (evict_record_fields (qy_control x)) as [[_ ->]|[_ ->]]; now split.
  - intros _. destruct (evict_record_fields (qy_control x)) as [[_ ->]|[Hp ->]]; [now left|].
    destruct (ct_record_evicted (qy_control x)) eqn:Ev; [now left|]. right.
    specialize (HF Hf Ev). destruct (ct_resolved _); [now left|].
    destruct (ct_released _); [now right|]. destruct Hp. now apply HF.
  - destruct (evict_record_fields (qy_control x)) as [[_ ->]|[_ ->]]; exact HA.
  - destruct (evict_record_fields (qy_control x)) as [[_ ->]|[_ ->]]; exact HB.
Qed.

(** *** Completions *)

Lemma heard_mono seen seen' q i qs r :
  (forall y, y ∈ seen -> y ∈ seen') -> heard seen q i qs r -> heard seen' q i qs r.
Proof. intros Hs (response & records & H1 & H2 & H3). exists response, records. auto. Qed.

Lemma told_mono (P P' : nat -> list (N * bytes) -> dns_record -> Prop) c :
  (forall i qs r, P i qs r -> P' i qs r) -> believes P c -> believes P' c.
Proof.
  intros HP [H1 H2].
  assert (HA : forall i qs a, told_address P i qs a -> told_address P' i qs a)
    by (intros i qs a (r & Hr & E); exists r; auto).
  assert (HN : forall i qs n, told_name P i qs n -> told_name P' i qs n)
    by (intros i qs n (r & Hr & E); exists r; auto).
  split.
  - intros i s Hs. destruct (H1 i s Hs) as [H3 H4].
    split; (eapply Forall_impl; [eassumption|]); cbn; auto.
  - unfold record_told in *. destruct (rc_state _) as [|l|n|]; auto.
    + destruct H2 as (i & qs & Hq & Hl). exists i, qs. split; [exact Hq|].
      eapply Forall_impl; [exact Hl|]. cbn. auto.
    + destruct H2 as (i & qs & Hq & Hl). exists i, qs. auto.
Qed.

Lemma query_ok_mono rel seen seen' q x :
  (forall y, y ∈ seen -> y ∈ seen') -> query_ok rel seen q x -> query_ok rel seen' q x.
Proof.
  intros Hs []. split; try assumption. eapply told_mono; [|eassumption].
  intros i qs r. now apply heard_mono.
Qed.

Lemma control_wf_set_now rel now c : control_wf rel c -> control_wf rel (set_now now c).
Proof. intros []. now split. Qed.

Lemma completed_query_ok rel seen q x i comp ok now :
  query_ok rel seen q x -> in_flight i (qy_control x) = true ->
  (forall response, reads i (qy_control x) = true -> comp = CompData response ->
     (q, i, response) ∈ seen) ->
  query_ok rel seen q (with_control (fun c => complete true i comp ok (set_now now c)) x).
Proof.
  intros HQ Hi Hseen. destruct (query_in_flight _ _ _ _ _ HQ Hi) as (HC & _ & _).
  destruct (in_flight_spec i _ Hi) as (s & Hs & Ho).
  destruct HQ as [_ Hn HF HP Hfr HA HB]. set (c := set_now now (qy_control x)).
  assert (HC' : control_wf rel (complete true i comp ok c)).
  { apply (complete_spec rel i s comp ok c); [now apply control_wf_set_now | exact Hs | exact Ho]. }
  destruct (complete_steady true i comp ok c) as (_ & S2 & S3 & S4 & S5 & S6).
  split; cbn [qy_control qy_hostname qy_freed with_control]; fold c; rewrite ?S2, ?S3; try assumption.
  - now left.
  - intros Hf. apply complete_follows; [exact (HF Hf) | now exists s].
  - intros Hf Hp. destruct (ct_record_evicted c) eqn:Ev; [|reflexivity].
    rewrite S6 in Hp by reflexivity. change (ct_record c) with (ct_record (qy_control x)) in Hp.
    change (ct_record_evicted (qy_control x) = true) in Ev. now rewrite (HP Hf Hp) in Ev.
  - intros Hf. destruct (Hfr Hf) as [E|[E|E]]; [now left | right; left; now apply S4|].
    right. right. now apply S5.
  - apply complete_believes; [|exact HB].
    intros s' response records Hrd Hcm Hs' Hcl r Hr. exists response, records. auto.
Qed.

(** Joining a query. *)
Lemma append_query_ok rel seen q x cb :
  query_ok rel seen q x -> qy_freed x = false ->
  rc_state (ct_record (qy_control x)) = rs_pending ->
  ct_callbacks (append_callback cb (qy_control x)).2 = ct_callbacks (qy_control x) ++ [cb]
  /\ query_ok rel seen q (with_control (fun c => (append_callback cb c).2) x).
Proof.
  intros HQ Hf Hp. destruct (query_pending _ _ _ _ HQ Hf Hp) as (He & Hr & _ & _ & HC).
  assert (E : (append_callback cb (qy_control x)).2
              = set_callbacks (ct_callbacks (qy_control x) ++ [cb]) (qy_control x))
    by (unfold append_callback; now rewrite Hp, Hr).
  pose proof (append_callback_wf rel cb _ HC He) as HC'. destruct HQ.
  split; [now rewrite E|].
  split; cbn [qy_control qy_hostname qy_freed with_control]; rewrite ?E in *; auto.
Qed.
End Query.
