(* ===== verification/DnsBooks.v ===== *)
(** * The caches and the queries of the resolver

    The invariant that ties the cache entries of [DnsFront] to the records of its
    queries, and that eviction, insertion and the start of a query keep it. *)

From Stdlib Require Import Strings.Byte NArith ZArith Lia.
From stdpp Require Import base numbers list sets.
From S2P Require Import Prelude IpAddress DnsName Resolver DnsCache DnsFront DnsQuery.

Open Scope nat_scope.

Section Books.
Context {C : Type} `{RecordCache entry C} `{DnsSetup}.
Implicit Types (d : dns C).

(** ** The caches and the records they point to *)

(** [books ess d]: slot [j] holds the entries [ess !! j]; names are filed under their
    slot, and the records the entries point to are exactly those not freed. *)
Definition entry_ok (name : bytes) (e : entry) (d : dns C) : Prop :=
  match e with
  | OfQuery q => exists x, dn_queries d !! q = Some x /\ qy_hostname x = name
                           /\ qy_freed x = false
  | Seeded r => exists l, rc_state r = rs_resolved l
                          /\ resolve_address name ipv6_supported 2 = Ok l
  end.

Record books (ess : list (list (bytes * entry))) (d : dns C) : Prop := {
  bk_filed : forall j es name e, ess !! j = Some es -> (name, e) ∈ es ->
    get_cache_slot name = j /\ entry_ok name e d;
  bk_kept : forall q x, dn_queries d !! q = Some x -> qy_freed x = false ->
    exists es, ess !! get_cache_slot (qy_hostname x) = Some es
               /\ (qy_hostname x, OfQuery q) ∈ es }.

(** What eviction does to the queries. *)
Definition evicts (dropped : list (bytes * entry)) (d d' : dns C) : Prop :=
  dn_caches d' = dn_caches d /\ dn_soon d' = dn_soon d /\ dn_accepted d' = dn_accepted d
  /\ dn_seen d' = dn_seen d
  /\ forall q, (OfQuery q ∈ dropped.*2 -> dn_queries d' !! q = evicted_query <$> dn_queries d !! q)
             /\ (OfQuery q ∉ dropped.*2 -> dn_queries d' !! q = dn_queries d !! q).

(** The first [n] queries; later ones, which are being started, have no record. *)
Definition queries_ok (rel : bool) (n : nat) (d : dns C) : Prop :=
  forall q x, dn_queries d !! q = Some x ->
    (q < n /\ query_ok rel (dn_seen d) q x) \/ (n <= q /\ qy_freed x = true).

Lemma evict_entry_spec e d :
  (forall q, e.2 = OfQuery q -> exists x, dn_queries d !! q = Some x /\ qy_freed x = false
     /\ (rc_state (ct_record (qy_control x)) = rs_pending -> ct_destroyed (qy_control x) = false)) ->
  exists d', evict_entry e d = Some d' /\ evicts [e] d d'.
Proof.
  intros He. unfold evict_entry, evicts. destruct e as [name [q|r]]; cbn [fst snd fmap list_fmap] in *.
  - destruct (He q eq_refl) as (x & Hx & Hf & Hd). rewrite Hx. cbn [mbind option_bind]. rewrite Hf.
    exists (on_query q (fun _ => evicted_query x) d). split.
    + unfold evicted_query, evict_record. destruct (rc_state _); try reflexivity.
      now rewrite (Hd eq_refl).
    + split_and!; try reflexivity. intros q'. cbn. split; intros Hq.
      * assert (q' = q) as -> by set_solver. rewrite list_lookup_alter_eq, Hx. reflexivity.
      * apply list_lookup_alter_ne. intros ->. set_solver.
  - exists d. split; [reflexivity|]. split_and!; try reflexivity. intros q'. cbn.
    split; [set_solver | reflexivity].
Qed.

(** An entry whose record can be freed. *)
Definition droppable (e : bytes * entry) (d : dns C) : Prop :=
  forall q, e.2 = OfQuery q -> exists x, dn_queries d !! q = Some x /\ qy_hostname x = e.1
    /\ qy_freed x = false
    /\ (rc_state (ct_record (qy_control x)) = rs_pending -> ct_destroyed (qy_control x) = false).

Lemma evict_entries_spec l d :
  NoDup l.*1 -> Forall (fun e => droppable e d) l ->
  exists d', evict_entries l d = Some d' /\ evicts l d d'.
Proof.
  revert d. induction l as [|e l IH]; intros d Hn Hd; cbn [evict_entries].
  { exists d. split; [reflexivity|]. split_and!; try reflexivity. intros q. cbn.
    split; [set_solver | reflexivity]. }
  cbn in Hn. apply NoDup_cons in Hn as [Hne Hn]. apply Forall_cons in Hd as [Hde Hd].
  destruct (evict_entry_spec e d) as (d1 & -> & E1 & E2 & E3 & E4 & E5).
  { intros q Hq. destruct (Hde q Hq) as (x & Hx & _ & Hf & Hp). eauto. }
  cbn [mbind option_bind].
  assert (Hsame : forall e' q, e' ∈ l -> e'.2 = OfQuery q -> OfQuery q ∉ [e].*2).
  { intros e' q Hin Hq Hin'. apply list_elem_of_singleton in Hin'.
    destruct (Hde q (eq_sym Hin')) as (x & Hx & Hh & _).
    rewrite Forall_forall in Hd. destruct (Hd e' Hin q Hq) as (x' & Hx' & Hh' & _).
    apply Hne. apply list_elem_of_fmap. exists e'. split; [congruence | exact Hin]. }
  destruct (IH d1 Hn) as (d2 & -> & F1 & F2 & F3 & F4 & F5).
  { rewrite Forall_forall in *. intros e' Hin q Hq.
    rewrite (proj2 (E5 q) (Hsame e' q Hin Hq)). exact (Hd e' Hin q Hq). }
  exists d2. split; [reflexivity|]. split_and!; try congruence. intros q. cbn [fmap list_fmap].
  split; intros Hq.
  - destruct (decide (OfQuery q ∈ l.*2)) as [Hl|Hl].
    + rewrite (proj1 (F5 q) Hl). apply list_elem_of_fmap in Hl as (e' & He' & Hin).
      now rewrite (proj2 (E5 q) (Hsame e' q Hin (eq_sym He'))).
    + rewrite (proj2 (F5 q) Hl). apply (E5 q). cbn. set_solver.
  - rewrite (proj2 (F5 q)) by set_solver. apply (E5 q). cbn. set_solver.
Qed.

Lemma evicts_ok rel n l d d' :
  Forall (fun e => droppable e d) l -> evicts l d d' -> queries_ok rel n d -> queries_ok rel n d'.
Proof.
  intros Hd (E1 & E2 & E3 & E4 & E5) HQ q x Hx. rewrite E4.
  destruct (decide (OfQuery q ∈ l.*2)) as [Hl|Hl].
  - rewrite (proj1 (E5 q) Hl) in Hx. destruct (dn_queries d !! q) as [x0|] eqn:E0; [|discriminate].
    injection Hx as <-. apply list_elem_of_fmap in Hl as (e & He & Hin). rewrite Forall_forall in Hd.
    destruct (Hd e Hin q (eq_sym He)) as (x1 & Hx1 & _ & Hf & _).
    assert (x1 = x0) as -> by congruence.
    destruct (HQ q x0 E0) as [[Hq H1]|[_ H1]]; [|congruence].
    left. split; [exact Hq|]. now apply evicted_query_ok.
  - rewrite (proj2 (E5 q) Hl) in Hx. now apply HQ.
Qed.

(** The query of an entry, and why the entry can be dropped. *)
Lemma entry_query rel n d name q :
  queries_ok rel n d -> entry_ok name (OfQuery q) d ->
  exists x, dn_queries d !! q = Some x /\ qy_hostname x = name /\ qy_freed x = false
            /\ query_ok rel (dn_seen d) q x.
Proof.
  intros HQ (x & Hx & Hh & Hf). exists x. split_and!; auto.
  destruct (HQ q x Hx) as [[_ H1]|[_ H1]]; [exact H1 | congruence].
Qed.

Lemma books_droppable rel n ess d j es e :
  books ess d -> queries_ok rel n d -> ess !! j = Some es -> e ∈ es -> droppable e d.
Proof.
  intros [HF _] HQ Hj Hin q Hq. destruct e as [name e]. cbn in Hq. subst e.
  destruct (HF j es name (OfQuery q) Hj Hin) as (_ & He).
  destruct (entry_query rel n d name q HQ He) as (x & Hx & Hh & Hf & Hok).
  exists x. split_and!; auto. intros Hp.
  now destruct (query_pending _ _ _ _ Hok Hf Hp) as (_ & _ & _ & Hd & _).
Qed.

(** Dropping entries of slot [j] keeps the books. *)
Lemma evicts_books ess d d' j es dropped kept :
  books ess d -> ess !! j = Some es -> NoDup es.*1 -> es ≡ₚ dropped ++ kept ->
  evicts dropped d d' -> books (<[j := kept]> ess) d'.
Proof.
  intros [HF HK] Hj Hn HP (E1 & E2 & E3 & E4 & E5).
  assert (Hjl : j < length ess) by (now apply lookup_lt_Some in Hj).
  assert (Hdr : forall q, OfQuery q ∈ dropped.*2 -> exists x, dn_queries d !! q = Some x
                /\ qy_freed x = false /\ (qy_hostname x, OfQuery q) ∈ dropped
                /\ get_cache_slot (qy_hostname x) = j).
  { intros q Hq. apply list_elem_of_fmap in Hq as ([name e] & He & Hin). cbn in He. subst e.
    destruct (HF j es name (OfQuery q) Hj) as (Hs & x & Hx & Hh & Hf); [rewrite HP; set_solver|].
    exists x. subst name. auto. }
  rewrite HP, fmap_app in Hn. apply NoDup_app in Hn as (_ & Hdis & _).
  split.
  - intros j' es' name e Hj' Hin. destruct (decide (j = j')) as [<-|Hne].
    + rewrite list_lookup_insert_eq in Hj' by exact Hjl. injection Hj' as <-.
      destruct (HF j es name e Hj) as [Hs He]; [rewrite HP; set_solver|]. split; [exact Hs|].
      destruct e as [q|r]; cbn in *; [|exact He]. rewrite (proj2 (E5 q)); [exact He|].
      intros (x & Hx & _ & Hin' & _)%Hdr. destruct He as (x' & Hx' & Hh & _).
      assert (x' = x) as -> by congruence. subst name.
      apply (Hdis (qy_hostname x)); apply list_elem_of_fmap; eexists; split; eauto; reflexivity.
    + rewrite list_lookup_insert_ne in Hj' by exact Hne.
      destruct (HF j' es' name e Hj' Hin) as [Hs He]. split; [exact Hs|].
      destruct e as [q|r]; cbn in *; [|exact He]. rewrite (proj2 (E5 q)); [exact He|].
      intros (x & Hx & _ & _ & Hs')%Hdr. destruct He as (x' & Hx' & Hh & _). congruence.
  - intros q x Hx Hf. destruct (decide (OfQuery q ∈ dropped.*2)) as [Hl|Hl].
    { rewrite (proj1 (E5 q) Hl) in Hx. destruct (Hdr q Hl) as (x0 & Hx0 & _).
      rewrite Hx0 in Hx. injection Hx as <-. discriminate. }
    rewrite (proj2 (E5 q) Hl) in Hx. destruct (HK q x Hx Hf) as (es' & He' & Hin).
    destruct (decide (j = get_cache_slot (qy_hostname x))) as [Hs|Hne].
    + rewrite <- Hs in *. rewrite Hj in He'. injection He' as <-.
      exists kept. rewrite list_lookup_insert_eq by exact Hjl. split; [reflexivity|].
      rewrite HP in Hin. apply elem_of_app in Hin as [Hin|Hin]; [|exact Hin].
      destruct Hl. apply list_elem_of_fmap. eexists. split; [|exact Hin]. reflexivity.
    + exists es'. rewrite list_lookup_insert_ne by exact Hne. auto.
Qed.

(** *** The state of the resolver *)

Record sound (rel : bool) (n : nat) (ess : list (list (bytes * entry))) (d : dns C) : Prop := {
  sd_length : length (dn_caches d) = DNSCacheEntries;
  sd_holds : Forall2 cache_holds ess (dn_caches d);
  sd_books : books ess d;
  sd_queries : queries_ok rel n d }.

(** The callbacks that wait with a query or were handed to the loop. *)
Definition waiting (d : dns C) : list (list nat) :=
  (fun x => ct_callbacks (qy_control x)) <$> dn_queries d.
Definition registered (d : dns C) : list nat := mjoin (waiting d) ++ dn_soon d.

(** No callback is gained or lost, nothing is read, and a query without a record is
    left alone. *)
Definition quietly (d d' : dns C) : Prop :=
  dn_soon d' = dn_soon d /\ dn_accepted d' = dn_accepted d /\ dn_seen d' = dn_seen d
  /\ waiting d' = waiting d
  /\ forall q x, dn_queries d !! q = Some x -> qy_freed x = true -> dn_queries d' !! q = Some x.

Lemma quietly_trans d1 d2 d3 : quietly d1 d2 -> quietly d2 d3 -> quietly d1 d3.
Proof.
  intros (A1 & B1 & C1 & D1 & E1) (A2 & B2 & C2 & D2 & E2). split_and!; try congruence. auto.
Qed.

Lemma quietly_length d d' : quietly d d' -> length (dn_queries d') = length (dn_queries d).
Proof.
  intros (_ & _ & _ & E & _). apply (f_equal length) in E. unfold waiting in E.
  now rewrite !length_fmap in E.
Qed.

Lemma evicts_quietly l d d' : Forall (fun e => droppable e d) l -> evicts l d d' -> quietly d d'.
Proof.
  intros Hd (_ & E2 & E3 & E4 & E5). split_and!; auto.
  - apply list_eq. intros q. unfold waiting. rewrite !list_lookup_fmap.
    destruct (decide (OfQuery q ∈ l.*2)) as [Hl|Hl].
    + rewrite (proj1 (E5 q) Hl). destruct (dn_queries d !! q) as [x|]; [|reflexivity]. cbn.
      now destruct (evict_record_fields (qy_control x)) as [[_ ->]|[_ ->]].
    + now rewrite (proj2 (E5 q) Hl).
  - intros q x Hx Hf. rewrite (proj2 (E5 q)); [exact Hx|]. intros Hl.
    apply list_elem_of_fmap in Hl as (e & He & Hin). rewrite Forall_forall in Hd.
    destruct (Hd e Hin q (eq_sym He)) as (x' & Hx' & _ & Hf' & _). congruence.
Qed.

Lemma cache_slot_lt name : get_cache_slot name < DNSCacheEntries.
Proof.
  unfold get_cache_slot, CACHE_MASK, DNSCacheEntries.
  destruct is_debug.
  - change (N.of_nat 4 - 1)%N with (N.ones 2). rewrite N.land_ones.
    pose proof (N.mod_lt (final name) (2 ^ 2) ltac:(discriminate)). lia.
  - change (N.of_nat 1024 - 1)%N with (N.ones 10). rewrite N.land_ones.
    pose proof (N.mod_lt (final name) (2 ^ 10) ltac:(discriminate)). lia.
Qed.

Lemma sound_slot rel n ess d name :
  sound rel n ess d -> exists es c, ess !! get_cache_slot name = Some es
    /\ dn_caches d !! get_cache_slot name = Some c /\ cache_holds es c.
Proof.
  intros [HL HH _ _]. pose proof (cache_slot_lt name) as Hlt. rewrite <- HL in Hlt.
  apply lookup_lt_is_Some in Hlt as [c Hc].
  destruct (Forall2_lookup_r _ _ _ _ _ HH Hc) as (es & Hes & Hh). eauto.
Qed.

(** A slot gets another representation, with the same entries. *)
Lemma sound_set_slot rel n ess d j es c :
  sound rel n ess d -> ess !! j = Some es -> cache_holds es c -> sound rel n ess (set_slot j c d).
Proof.
  intros [HL HH HB HQ] Hj Hc. split; [cbn; now rewrite length_insert| | |exact HQ].
  - cbn. rewrite <- (list_insert_id ess j es Hj). now apply Forall2_insert.
  - destruct HB as [H1 H2]. split; assumption.
Qed.

Lemma set_slot_quietly j c d : quietly d (set_slot j c d).
Proof. now split_and!. Qed.

(** Dropping entries of a slot, with their records. *)
Lemma drop_entries rel n ess d j es c dropped kept :
  sound rel n ess d -> ess !! j = Some es -> NoDup es.*1 -> es ≡ₚ dropped ++ kept ->
  exists d', evict_entries dropped (set_slot j c d) = Some d'
    /\ quietly d d' /\ dn_caches d' = <[j := c]> (dn_caches d)
    /\ books (<[j := kept]> ess) d' /\ queries_ok rel n d'.
Proof.
  intros HS Hj Hn HP. destruct HS as [HL HH HB HQ].
  assert (Hdr : Forall (fun e => droppable e (set_slot j c d)) dropped).
  { rewrite Forall_forall. intros e Hin. apply (books_droppable rel n ess _ j es);
      [destruct HB; now split | exact HQ | exact Hj | rewrite HP; set_solver]. }
  destruct (evict_entries_spec dropped (set_slot j c d)) as (d' & E & Hev); [|exact Hdr|].
  { rewrite HP, fmap_app in Hn. now apply NoDup_app in Hn. }
  exists d'. split; [exact E|]. split; [|split; [|split]].
  - apply (quietly_trans _ (set_slot j c d)); [apply set_slot_quietly | now apply (evicts_quietly dropped)].
  - now destruct Hev as (-> & _).
  - apply (evicts_books ess (set_slot j c d) d' j es dropped kept); auto. destruct HB; now split.
  - now apply (evicts_ok rel n dropped (set_slot j c d)).
Qed.

(** ** The operations of the cache *)

Context `{!RecordCacheLaws entry C}.

Lemma initial_sound rel : exists ess, sound rel 0 ess (initial (C := C)).
Proof.
  exists (replicate DNSCacheEntries []). split.
  - apply length_replicate.
  - cbn. apply Forall2_replicate. apply cache_init_ok. discriminate.
  - split.
    + intros j es name e Hj. apply lookup_replicate in Hj as [-> _]. set_solver.
    + intros q x Hx. discriminate.
  - intros q x Hx. discriminate.
Qed.

Lemma entry_record_ok rel n ess d j es name e :
  sound rel n ess d -> ess !! j = Some es -> (name, e) ∈ es ->
  exists r, entry_record e d = Some r.
Proof.
  intros [_ _ [HF _] _] Hj Hin. destruct (HF j es name e Hj Hin) as [_ He].
  destruct e as [q|r]; [|now exists r]. destruct He as (x & Hx & _ & Hf).
  cbn. rewrite Hx. cbn. rewrite Hf. eauto.
Qed.

Lemma cache_slot_get_ok rel n ess d now name :
  sound rel n ess d ->
  exists r d' ess', cache_slot_get now name d = Some (r, d')
    /\ sound rel n ess' d' /\ quietly d d'
    /\ match r with
       | Some e => entry_ok name e d'
           /\ exists record, entry_record e d' = Some record /\ expired now record = false
       | None => True
       end.
Proof.
  intros HS. destruct (sound_slot _ _ _ _ name HS) as (es & c & Hes & Hc & Hh).
  unfold cache_slot_get. rewrite Hc. cbn [mbind option_bind].
  destruct (cache_get_ok name es c Hh) as (r & c1 & -> & Hh1 & Hr). cbn [mbind option_bind].
  pose proof (sound_set_slot _ _ _ _ _ _ c1 HS Hes Hh1) as HS1.
  destruct r as [e|].
  2: { do 3 eexists. split; [reflexivity|]. split; [exact HS1|]. split; [apply set_slot_quietly | exact I]. }
  destruct (entry_record_ok _ _ _ _ _ _ _ _ HS Hes Hr) as (record & Er). rewrite Er. cbn [mbind option_bind].
  destruct (expired now record) eqn:Ex.
  - destruct (elem_of_Permutation es (name, e)) as [Hp _]. destruct (Hp Hr) as [es' HP].
    destruct (cache_remove_ok name e es' c1) as (c2 & -> & Hh2);
      [now apply (cache_perm es)|]. cbn [mbind option_bind].
    assert (Hset : forall c c', set_slot (get_cache_slot name) c' (set_slot (get_cache_slot name) c d)
                    = set_slot (get_cache_slot name) c' d)
      by (intros; unfold set_slot; cbn; now rewrite list_insert_insert_eq).
    destruct (drop_entries rel n ess d _ es c2 [(name, e)] es' HS Hes (cache_keys _ _ Hh))
      as (d' & -> & Hq & Hcs & HB & HQ); [rewrite HP; reflexivity|]. cbn [mbind option_bind].
    exists None, d', (<[get_cache_slot name := es']> ess). split; [reflexivity|].
    split; [|split; [exact Hq | exact I]].
    split; [rewrite Hcs, length_insert; apply HS | rewrite Hcs | exact HB | exact HQ].
    apply Forall2_insert; [apply HS | exact Hh2].
  - do 3 eexists. split; [reflexivity|]. split; [exact HS1|]. split; [apply set_slot_quietly|].
    split; [|exists record; auto]. exact (proj2 (bk_filed _ _ (sd_books _ _ _ _ HS1) _ _ _ _ Hes Hr)).
Qed.

(** A new record goes to the front of its slot; the books follow when the entry's
    record exists. *)
Lemma create_new_record_ok rel n ess d name e en :
  sound rel n ess d ->
  exists ok d', create_new_record name e en d = Some (ok, d')
    /\ ok = en_record_ok en && (en_node_ok en && en_map_ok en) /\ quietly d d'
    /\ if ok then
        exists kept, is_Some (ess !! get_cache_slot name) /\ length (dn_caches d') = DNSCacheEntries
          /\ Forall2 cache_holds (<[get_cache_slot name := (name, e) :: kept]> ess) (dn_caches d')
          /\ books (<[get_cache_slot name := kept]> ess) d' /\ queries_ok rel n d'
       else exists ess', sound rel n ess' d'.
Proof.
  intros HS. unfold create_new_record. destruct (en_record_ok en); cbn [negb andb].
  2: { exists false, d. split; [reflexivity|]. split; [reflexivity|].
       split; [now split_and! | now exists ess]. }
  destruct (sound_slot _ _ _ _ name HS) as (es & c & Hes & Hc & Hh). rewrite Hc. cbn [mbind option_bind].
  destruct (cache_put_ok (en_node_ok en) (en_map_ok en) name e es c Hh) as (dropped & kept & c' & -> & HP & Hh').
  cbn [mbind option_bind].
  destruct (drop_entries rel n ess d _ es c' dropped kept HS Hes (cache_keys _ _ Hh) HP)
    as (d' & -> & Hq & Hcs & HB & HQ). cbn [mbind option_bind].
  exists (en_node_ok en && en_map_ok en), d'. split; [reflexivity|]. split; [reflexivity|]. split; [exact Hq|].
  assert (HL : length (dn_caches d') = DNSCacheEntries) by (rewrite Hcs, length_insert; apply HS).
  assert (HF : Forall2 cache_holds
            (<[get_cache_slot name := if en_node_ok en && en_map_ok en then (name, e) :: kept else kept]> ess)
            (dn_caches d')) by (rewrite Hcs; apply Forall2_insert; [apply HS | exact Hh']).
  destruct (en_node_ok en && en_map_ok en).
  - exists kept. split; [now exists es|]. auto.
  - eexists. split; eassumption.
Qed.

(** ** Starting a query *)

Context (content : bytes) (Hconf : parse_resolv_configuration content = Ok configuration).

Lemma candidate_valid name h :
  validate_hostname name = true -> h ∈ get_hostname_array name (search configuration) ->
  validate_hostname (hn_hostname h) = true /\ length (hn_hostname h) <= 255.
Proof.
  intros Hv Hin. destruct (resolv_configuration_usable content configuration Hconf) as [_ [_ Hs]].
  rewrite Forall_forall in Hs.
  assert (Hc : exists suffix, build_hostname name suffix = Some h
               /\ (suffix = [] \/ validate_hostname suffix = true)).
  { unfold get_hostname_array in Hin.
    destruct (existsb _ name); [|apply elem_of_app in Hin as [Hin|Hin]];
      apply list_elem_of_omap in Hin as (suffix & Hin & Hb); exists suffix; (split; [exact Hb|]).
    - left. now apply list_elem_of_singleton in Hin.
    - right. now apply Hs.
    - left. now apply list_elem_of_singleton in Hin. }
  destruct Hc as (suffix & Hb & Hsuf).
  destruct (build_hostname_valid name suffix h Hb Hv Hsuf) as (H1 & H2 & _). auto.
Qed.

Lemma build_slot_ok id h t :
  validate_hostname h = true -> length h <= 255 -> build_slot id (h, t) = Some (id, query_bytes id t h).
Proof.
  intros Hv Hl. unfold build_slot. cbn [fst snd].
  rewrite build_query_spec by (try exact Hv; rewrite length_replicate; lia). cbn [mbind option_bind].
  rewrite (proj2 (Nat.leb_le _ _)) by lia. rewrite <- (length_query_bytes id t h) at 1.
  now rewrite take_app_length.
Qed.

(** The questions to ask about [name]. *)
Definition about (name : bytes) (x : bytes * QuestionType) : Prop :=
  exists h, h ∈ get_hostname_array name (search configuration) /\ x.1 = hn_hostname h.

Lemma build_slots_ok name ids qs :
  validate_hostname name = true -> Forall (about name) qs -> length ids = length qs ->
  exists l, build_slots ids qs = Some l /\ length l = length qs /\ Forall (asked name) l.
Proof.
  intros Hv. revert ids. induction qs as [|[h t] qs IH]; intros [|id ids] Hq Hl; try discriminate; cbn [build_slots].
  { exists []. auto. }
  apply Forall_cons in Hq as [(hn & Hin & Eh) Hq]. cbn in Eh. subst h.
  destruct (candidate_valid name hn Hv Hin) as [Hv' Hl'].
  rewrite build_slot_ok by assumption. cbn [mbind option_bind].
  destruct (IH ids Hq) as (l & -> & El & HF); [cbn in Hl; lia|]. cbn [mbind option_bind].
  eexists. split; [reflexivity|]. split; [cbn; lia|]. apply Forall_cons. split; [|exact HF].
  exists t, (hn_hostname hn). split_and!; auto. apply list_elem_of_fmap. eauto.
Qed.

Lemma questions_about name qt :
  Forall (about name) (questions (get_hostname_array name (search configuration)) qt).
Proof.
  rewrite Forall_forall. intros x Hx. unfold questions in Hx.
  apply list_elem_of_bind in Hx as (h & Hx & Hin).
  apply list_elem_of_fmap in Hx as (t & -> & _). exists h. auto.
Qed.

Lemma questions_nonempty hosts qt : hosts <> [] -> 0 < length (questions hosts qt).
Proof.
  destruct hosts as [|h hosts]; [congruence|]. intros _. unfold questions. cbn [mbind list_bind].
  rewrite length_app, length_fmap. unfold question_types.
  destruct qt; [cbn; lia|]. destruct ipv6_supported; cbn; lia.
Qed.

(** A server with its datagrams, nothing sent yet. *)
Definition built (name : bytes) (s : ServerQueryData) : Prop :=
  exists hosts q qs, s = sv_set_op None (new_server hosts (q :: qs)) /\ Forall (asked name) (q :: qs).

Lemma build_queries_ok name socket qt :
  validate_hostname name = true -> get_hostname_array name (search configuration) <> [] ->
  exists r, build_queries socket (get_hostname_array name (search configuration)) qt = Some r
            /\ match r with inl _ => True | inr s => built name s end.
Proof.
  intros Hv Hne. unfold build_queries. destruct socket as [ids|]; [|eexists; split; [reflexivity | exact I]].
  destruct (Nat.eqb_spec (length ids) (length (questions (get_hostname_array name (search configuration)) qt)))
    as [El|]; cbn [negb]; [|eexists; split; [reflexivity | exact I]].
  destruct (build_slots_ok name ids _ Hv (questions_about name qt) El) as (l & -> & Hl & HF).
  cbn [mbind option_bind]. eexists. split; [reflexivity|].
  pose proof (questions_nonempty _ qt Hne). destruct l as [|x l]; [cbn in Hl; lia|].
  exists (length (get_hostname_array name (search configuration))), x, l. auto.
Qed.

Lemma build_servers_ok name servers sockets qt :
  validate_hostname name = true -> get_hostname_array name (search configuration) <> [] ->
  exists r, build_servers servers sockets (get_hostname_array name (search configuration)) qt = Some r
            /\ match r with inl _ => True | inr l => length l = length servers /\ Forall (built name) l end.
Proof.
  intros Hv Hne. revert sockets. induction servers as [|a servers IH]; intros sockets; cbn [build_servers].
  { eexists. split; [reflexivity|]. now split. }
  destruct (build_queries_ok name (default None (head sockets)) qt Hv Hne) as (r & -> & Hr).
  cbn [mbind option_bind]. destruct r as [e|s]; [eexists; split; [reflexivity | exact I]|].
  destruct (IH (tail sockets)) as (r & -> & Hr'). cbn [mbind option_bind].
  destruct r as [e|l]; (eexists; split; [reflexivity|]); [exact I|].
  destruct Hr' as [El HF]. split; [cbn; lia | now apply Forall_cons].
Qed.

(** [x] is being started under [name], on top of the state [d0]: its record is filed,
    its control is [c]. *)
Record building (rel : bool) (name : bytes) (c : ControlData) (d0 d : dns C) : Prop := {
  bd_length : length (dn_caches d) = DNSCacheEntries;
  bd_cache : exists ess, Forall2 cache_holds ess (dn_caches d) /\ books ess d;
  bd_queries : exists old, dn_queries d = old ++ [Query name c false]
    /\ length old = length (dn_queries d0)
    /\ (forall q x, old !! q = Some x -> query_ok rel (dn_seen d0) q x)
    /\ ((fun x => ct_callbacks (qy_control x)) <$> old) = waiting d0;
  bd_soon : dn_soon d = dn_soon d0;
  bd_accepted : dn_accepted d = dn_accepted d0;
  bd_seen : dn_seen d = dn_seen d0 }.

Lemma alter_last {A} (f : A -> A) (l : list A) x n :
  length l = n -> alter f n (l ++ [x]) = l ++ [f x].
Proof. intros <-. rewrite alter_app_r_alt by lia. now rewrite Nat.sub_diag. Qed.

(** The books look at names and flags only. *)
Lemma books_control ess d q f : books ess d -> books ess (on_control q f d).
Proof.
  intros [HF HK].
  assert (Hl : forall q', exists g, dn_queries (on_control q f d) !! q' = with_control g <$> dn_queries d !! q').
  { intros q'. cbn. destruct (decide (q = q')) as [->|Hne].
    - exists f. now rewrite list_lookup_alter_eq.
    - exists (fun c => c). rewrite list_lookup_alter_ne by exact Hne.
      destruct (dn_queries d !! q') as [[]|]; reflexivity. }
  split.
  - intros j es name e Hj Hin. destruct (HF j es name e Hj Hin) as [Hs He]. split; [exact Hs|].
    destruct e as [q'|r]; [|exact He]. destruct He as (x & Hx & Hh & Hf).
    destruct (Hl q') as [g E]. exists (with_control g x). rewrite E, Hx. auto.
  - intros q' x Hx Hf. destruct (Hl q') as [g E]. rewrite E in Hx.
    destruct (dn_queries d !! q') as [x0|] eqn:E0; [|discriminate]. injection Hx as <-.
    exact (HK q' x0 E0 Hf).
Qed.

Lemma building_control rel name c d0 d f :
  building rel name c d0 d -> building rel name (f c) d0 (on_control (length (dn_queries d0)) f d).
Proof.
  intros [HL (ess & HH & HB) (old & Ho & Hl & HQ & HW) H1 H2 H3]. split; auto.
  - exists ess. split; [exact HH | now apply books_control].
  - exists old. split; [|auto]. cbn. rewrite Ho. now rewrite alter_last.
Qed.

Lemma building_lookup rel name c d0 d :
  building rel name c d0 d -> dn_queries d !! length (dn_queries d0) = Some (Query name c false).
Proof. intros [_ _ (old & -> & <- & _) _ _ _]. rewrite lookup_app_r, Nat.sub_diag by lia. reflexivity. Qed.

Lemma building_release rel name c d0 d :
  building rel name c d0 d -> ct_destroyed c = false ->
  release_query true (length (dn_queries d0)) d
  = Some (on_control (length (dn_queries d0)) (control_release true) d).
Proof.
  intros HB Hd. unfold release_query. rewrite (building_lookup _ _ _ _ _ HB).
  cbn [mbind option_bind qy_control qy_freed]. now rewrite Hd, andb_false_r.
Qed.

(** When the query is as it should be, so is the whole. *)
Lemma building_sound rel name c d0 d :
  building rel name c d0 d -> query_ok rel (dn_seen d0) (length (dn_queries d0)) (Query name c false) ->
  (exists ess, sound rel (length (dn_queries d)) ess d)
  /\ waiting d = waiting d0 ++ [ct_callbacks c].
Proof.
  intros [HL (ess & HH & HB) (old & Ho & Hl & HQ & HW) H1 H2 H3] Hx. split.
  - exists ess. split; [exact HL | exact HH | exact HB|]. intros q x Hq. left.
    split; [now apply lookup_lt_Some in Hq|]. rewrite H3. rewrite Ho in Hq.
    apply lookup_app_Some in Hq as [Hq|[Hge Hq]]; [now apply HQ|].
    apply list_lookup_singleton_Some in Hq as [Hq <-].
    replace q with (length (dn_queries d0)) by lia. exact Hx.
  - unfold waiting. rewrite Ho, fmap_app, HW. reflexivity.
Qed.

(** A query that has no results yet is as it should be if its parts are. *)
Lemma idle_query_ok rel seen q name c f :
  control_wf rel c \/ dead c -> validate_hostname name = true ->
  (f = false -> record_follows c) ->
  (f = false -> rc_state (ct_record c) = rs_pending -> ct_record_evicted c = false) ->
  (f = true -> ct_released c = true) ->
  Forall (fun s => Forall (asked name) (sv_queries s) /\ sv_results s = [] /\ sv_ptr_results s = [])
    (ct_servers c) ->
  rc_state (ct_record c) = rs_pending \/ rc_state (ct_record c) = rs_none ->
  query_ok rel seen q (Query name c f).
Proof.
  intros HC Hv HF HP Hf HS HR. split; cbn [qy_control qy_hostname qy_freed]; auto.
  - apply Forall_fmap. eapply Forall_impl; [exact HS|]. now intros s [H1 _].
  - split; [|destruct HR as [-> | ->]; exact I]. intros i s Hs.
    destruct (Forall_lookup_1 _ _ _ _ HS Hs) as (_ & H1 & H2). split; rewrite ?H1, ?H2; constructor.
Qed.

Lemma new_control_dead en : dead (set_released true (new_control en)).
Proof. split; try reflexivity. intros i s Hs. discriminate. Qed.

Definition push_query (x : query) (d : dns C) : dns C := d <| dn_queries := dn_queries d ++ [x] |>.

(** The books with the entry of a new query. *)
Lemma books_file ess d d' j kept q x :
  books (<[j := kept]> ess) d -> is_Some (ess !! j) -> get_cache_slot (qy_hostname x) = j ->
  dn_queries d' !! q = Some x -> qy_freed x = false ->
  (forall q', q' <> q -> dn_queries d' !! q' = dn_queries d !! q') ->
  (forall x0, dn_queries d !! q = Some x0 -> qy_freed x0 = true) ->
  books (<[j := (qy_hostname x, OfQuery q) :: kept]> ess) d'.
Proof.
  intros [HF HK] [es Hes] Hs Hx Hf Hsame Hnew.
  assert (Hjl : j < length ess) by (now apply lookup_lt_Some in Hes).
  assert (Hold : forall name e, entry_ok name e d -> entry_ok name e d').
  { intros name [q'|r] He; [|exact He]. destruct He as (y & Hy & Hh & Hfy). exists y.
    rewrite Hsame; [auto|]. intros ->. rewrite (Hnew y Hy) in Hfy. discriminate. }
  split.
  - intros j' es' name e Hj' Hin. destruct (decide (j = j')) as [<-|Hne].
    + rewrite list_lookup_insert_eq in Hj' by exact Hjl. injection Hj' as <-.
      apply elem_of_cons in Hin as [[= -> ->]|Hin]; [split; [exact Hs | now exists x]|].
      destruct (HF j kept name e) as [H1 H2]; [now apply list_lookup_insert_eq | exact Hin | auto].
    + rewrite list_lookup_insert_ne in Hj' by exact Hne.
      destruct (HF j' es' name e) as [H1 H2]; [now rewrite list_lookup_insert_ne | exact Hin | auto].
  - intros q' y Hy Hfy. destruct (decide (q' = q)) as [->|Hne].
    + assert (y = x) as -> by congruence. rewrite Hs. eexists.
      split; [now apply list_lookup_insert_eq | left].
    + rewrite Hsame in Hy by exact Hne. destruct (HK q' y Hy Hfy) as (es' & He' & Hin).
      destruct (decide (j = get_cache_slot (qy_hostname y))) as [Hjs|Hnj].
      * rewrite <- Hjs in *. rewrite list_lookup_insert_eq in He' |- * by exact Hjl. injection He' as <-.
        eexists. split; [reflexivity | now right].
      * rewrite list_lookup_insert_ne in He' |- * by exact Hnj. eauto.
Qed.

(** A query without a record, before it is filed. *)
Lemma push_sound rel ess d name en :
  let n := length (dn_queries d) in
  let d1 := push_query (Query name (new_control en) true) d in
  sound rel n ess d ->
  sound rel n ess d1 /\ dn_queries d1 !! n = Some (Query name (new_control en) true)
  /\ waiting d1 = waiting d ++ [[]].
Proof.
  cbn zeta. intros [HL HH [HF HK] HQ]. split; [split; [exact HL | exact HH | |]|split].
  - split.
    + intros j es nm e Hj Hin. destruct (HF j es nm e Hj Hin) as [Hs He]. split; [exact Hs|].
      destruct e as [q|r]; [|exact He]. destruct He as (x & Hx & Hh). exists x. split; [|exact Hh].
      cbn. now apply lookup_app_l_Some.
    + intros q x Hx Hf. cbn in Hx. apply lookup_app_Some in Hx as [Hx|[Hge Hx]]; [eauto|].
      apply list_lookup_singleton_Some in Hx as [_ <-]. discriminate.
  - intros q x Hx. cbn in Hx. apply lookup_app_Some in Hx as [Hx|[Hge Hx]]; [now apply HQ|].
    apply list_lookup_singleton_Some in Hx as [_ <-]. now right.
  - cbn. rewrite lookup_app_r, Nat.sub_diag by lia. reflexivity.
  - unfold waiting, push_query. cbn. now rewrite fmap_app.
Qed.

(** Eviction leaves the pushed query last. *)
Lemma pushed_last d0 d1 d x :
  quietly d1 d -> dn_queries d1 !! length (dn_queries d0) = Some x -> qy_freed x = true ->
  waiting d1 = waiting d0 ++ [ct_callbacks (qy_control x)] ->
  exists old, dn_queries d = old ++ [x] /\ length old = length (dn_queries d0)
    /\ ((fun x => ct_callbacks (qy_control x)) <$> old) = waiting d0.
Proof.
  intros (_ & _ & _ & Q4 & Q5) Hlast Hf Hw1. pose proof (Q5 _ x Hlast Hf) as Hx. rewrite Hw1 in Q4.
  assert (Hlen : length (dn_queries d) = S (length (dn_queries d0))).
  { apply (f_equal length) in Q4. unfold waiting in Q4. rewrite length_app, !length_fmap in Q4. cbn in Q4. lia. }
  unfold waiting in Q4 at 1. destruct (dn_queries d) as [|y l _] using rev_ind; [discriminate|].
  rewrite length_app in Hlen. cbn in Hlen. assert (length l = length (dn_queries d0)) as Hl by lia.
  rewrite lookup_app_r, <- Hl, Nat.sub_diag in Hx by lia. injection Hx as ->.
  exists l. split_and!; auto. rewrite fmap_app in Q4. now apply app_inj_tail in Q4 as [Q4 _].
Qed.

(** Filing a new query: the record exists and points to it, or nothing was made. *)
Lemma file_query rel ess d0 name en :
  sound rel (length (dn_queries d0)) ess d0 -> validate_hostname name = true ->
  exists ok d, create_new_record name (OfQuery (length (dn_queries d0))) en
                 (push_query (Query name (new_control en) true) d0) = Some (ok, d)
    /\ if ok then
         building rel name (new_control en) d0
           (on_query (length (dn_queries d0)) (fun x => Query (qy_hostname x) (qy_control x) false) d)
       else
         let d' := on_control (length (dn_queries d0)) (set_released true) d in
         (exists ess', sound rel (length (dn_queries d')) ess' d') /\ waiting d' = waiting d0 ++ [[]]
         /\ dn_soon d' = dn_soon d0 /\ dn_accepted d' = dn_accepted d0 /\ dn_seen d' = dn_seen d0.
Proof.
  intros HS Hv. destruct (push_sound rel ess d0 name en HS) as (HS1 & Hlast & Hw1).
  set (n := length (dn_queries d0)) in *. set (x0 := Query name (new_control en) true) in *.
  set (d1 := push_query x0 d0) in *.
  destruct (create_new_record_ok rel n ess d1 name (OfQuery n) en HS1) as (ok & d & E & _ & Hq & Hr).
  exists ok, d. split; [exact E|].
  destruct (pushed_last d0 d1 d x0 Hq Hlast eq_refl Hw1) as (old & Ho & Hl & Hwo).
  destruct Hq as (Q1 & Q2 & Q3 & _ & Q5). pose proof (Q5 n x0 Hlast eq_refl) as Hx.
  assert (Hok : queries_ok rel n d -> forall q x, old !! q = Some x -> query_ok rel (dn_seen d0) q x).
  { intros HQ q y Hy. pose proof (lookup_lt_Some _ _ _ Hy) as Hlt.
    destruct (HQ q y) as [[_ H1]|[H1 _]]; [rewrite Ho; now apply lookup_app_l_Some | now rewrite Q3 in H1 | lia]. }
  destruct ok.
  - destruct Hr as (kept & [es Hes] & HL & HH & HB & HQ). specialize (Hok HQ).
    split; auto.
    2: { exists old. split; [|auto]. cbn. rewrite Ho. now rewrite alter_last. }
    exists (<[get_cache_slot name := (name, OfQuery n) :: kept]> ess). split; [exact HH|].
    apply (books_file ess d _ (get_cache_slot name) kept n (Query name (new_control en) false)); auto.
    + cbn. now rewrite list_lookup_alter_eq, Hx.
    + intros q' Hne. cbn. now apply list_lookup_alter_ne.
    + intros y Hy. assert (y = x0) as -> by congruence. reflexivity.
  - destruct Hr as (ess' & [HL HH HB HQ]). cbn zeta. specialize (Hok HQ).
    assert (Hd' : dn_queries (on_control n (set_released true) d)
                  = old ++ [Query name (set_released true (new_control en)) true])
      by (cbn; rewrite Ho; now rewrite alter_last).
    split; [|split; [|auto]].
    + exists ess'. split; [exact HL | exact HH | now apply books_control|].
      intros q y Hy. left. split; [now apply lookup_lt_Some in Hy|].
      change (dn_seen (on_control n (set_released true) d)) with (dn_seen d). rewrite Q3.
      rewrite Hd' in Hy. apply lookup_app_Some in Hy as [Hy|[Hge Hy]]; [now apply Hok|].
      apply list_lookup_singleton_Some in Hy as [_ <-].
      apply idle_query_ok; try discriminate; auto. right. apply new_control_dead.
    + unfold waiting at 1. rewrite Hd', fmap_app, Hwo. reflexivity.
Qed.

(** From [d0] to [d], the callbacks [added] were registered. *)
Record rests (rel : bool) (added : list nat) (d0 d : dns C) : Prop := {
  rs_sound : exists ess, sound rel (length (dn_queries d)) ess d;
  rs_registered : registered d ≡ₚ registered d0 ++ added;
  rs_accepted : dn_accepted d = dn_accepted d0;
  rs_seen : dn_seen d = dn_seen d0 }.

Lemma registered_snoc d0 d l :
  waiting d = waiting d0 ++ [l] -> dn_soon d = dn_soon d0 -> registered d ≡ₚ registered d0 ++ l.
Proof.
  intros Hw Hs. unfold registered. rewrite Hw, Hs, join_app. cbn [mjoin list_join]. rewrite app_nil_r.
  rewrite <- !app_assoc. apply Permutation_app_head, Permutation_app_comm.
Qed.

Lemma building_rests rel name c d0 d :
  building rel name c d0 d -> query_ok rel (dn_seen d0) (length (dn_queries d0)) (Query name c false) ->
  rests rel (ct_callbacks c) d0 d.
Proof.
  intros HB Hx. destruct (building_sound _ _ _ _ _ HB Hx) as [HS Hw]. destruct HB.
  split; auto. now apply registered_snoc.
Qed.

Definition abandoned (en : environment) : ControlData :=
  set_released true (set_record discard (new_control en)).

Lemma abandoned_ok rel seen q name en :
  validate_hostname name = true -> query_ok rel seen q (Query name (abandoned en) false).
Proof.
  intros Hv. apply idle_query_ok; try discriminate; auto.
  - right. split; try reflexivity. intros i s Hs. discriminate.
  - intros _ _. split; [discriminate | intros [_ [=]]].
Qed.

Lemma abandon_answers rel name en l e d0 d :
  validate_hostname name = true -> building rel name (set_callbacks l (new_control en)) d0 d ->
  exists d', abandon (length (dn_queries d0)) e d = Some (inl e, d') /\ rests rel [] d0 d'.
Proof.
  intros Hv HB. unfold abandon.
  pose proof (building_control _ _ _ _ _ (set_callbacks []) HB) as HB1.
  rewrite (building_release _ _ _ _ _ HB1) by reflexivity. cbn [mbind option_bind].
  pose proof (building_control _ _ _ _ _ (control_release true) HB1) as HB2.
  eexists. split; [reflexivity|].
  exact (building_rests rel name (abandoned en) d0 _ HB2 (abandoned_ok _ _ _ _ _ Hv)).
Qed.

Lemma prepare_data_ok rel ess d0 name cb qt en :
  sound rel (length (dn_queries d0)) ess d0 -> validate_hostname name = true ->
  exists r d, prepare_data name cb qt en d0 = Some (r, d)
    /\ match r with
       | inl _ => rests rel [] d0 d
       | inr q => q = length (dn_queries d0) /\ exists l,
           building rel name (set_servers l (set_callbacks [cb] (new_control en))) d0 d
           /\ l <> [] /\ Forall (built name) l
       end.
Proof.
  intros HS Hv. unfold prepare_data. destruct (en_control_ok en); cbn [negb].
  2: { do 2 eexists. split; [reflexivity|]. split; [now exists ess | now rewrite app_nil_r | reflexivity..]. }
  destruct (file_query rel ess d0 name en HS Hv) as (ok & d & E & Hd). unfold push_query in E.
  cbn zeta. rewrite E. cbn [mbind option_bind]. destruct ok; cbn [negb].
  2: { do 2 eexists. split; [reflexivity|]. destruct Hd as (HS' & Hw & H1 & H2 & H3).
       split; auto. now apply registered_snoc. }
  set (q := length (dn_queries d0)) in *. set (d1 := on_query q _ d) in *.
  assert (Hfail : forall l e d', building rel name (set_callbacks l (new_control en)) d0 d' ->
            exists r d'', abandon q e d' = Some (r, d'') /\
              match r with inl _ => rests rel [] d0 d'' | inr q' => q' = q /\ exists l,
                building rel name (set_servers l (set_callbacks [cb] (new_control en))) d0 d''
                /\ l <> [] /\ Forall (built name) l end).
  { intros l e d' HB. destruct (abandon_answers rel name en l e d0 d' Hv HB) as (d'' & E' & HR).
    now exists (inl e), d''. }
  destruct (en_callback_ok en); cbn [negb]; [|now apply (Hfail [])].
  pose proof (building_control _ _ _ _ _ (set_callbacks [cb]) Hd) as Hd2. fold q in Hd2.
  destruct (en_arena_ok en); cbn [negb]; [|now apply (Hfail [cb])].
  destruct (get_hostname_array name (search configuration)) as [|h hosts] eqn:Eh;
    cbn [length Nat.eqb]; [now apply (Hfail [cb])|]. rewrite <- Eh.
  destruct (en_pending_ok en); cbn [negb]; [|now apply (Hfail [cb])].
  destruct (build_servers_ok name (servers configuration) (en_sockets en) qt Hv) as (r & -> & Hr);
    [congruence|]. cbn [mbind option_bind].
  destruct r as [e|l]; [now apply (Hfail [cb])|]. destruct Hr as [Hl HF].
  do 2 eexists. split; [reflexivity|]. split; [reflexivity|]. exists l.
  split; [exact (building_control _ _ _ _ _ (set_servers l) Hd2)|]. split; [|exact HF].
  destruct (resolv_configuration_usable content configuration Hconf) as [Hne _].
  intros ->. apply Hne. now destruct (servers configuration).
Qed.

(** A server whose first write is submitted, and then perhaps closed. *)
Definition launched (name : bytes) (s : ServerQueryData) : Prop :=
  server_wf s /\ sv_finished s = false /\ Forall (asked name) (sv_queries s)
  /\ sv_results s = [] /\ sv_ptr_results s = [].

Lemma built_launched name s :
  built name s -> launched name (sv_set_op (Some OpWrite) s)
                  /\ launched name (sv_close (sv_set_op (Some OpWrite) s)).
Proof.
  intros (hosts & q & qs & -> & HF).
  assert (Hq0 : 0 < length (q :: qs)) by (cbn; lia).
  split; (split; [cbn; lia|]; now split_and!).
Qed.

Lemma launched_unfinished name l : Forall (launched name) l -> finished_count l = 0.
Proof.
  unfold finished_count. induction 1 as [|s l (_ & Hf & _) _ IH]; cbn; [reflexivity|]. now rewrite Hf.
Qed.

(** A control whose servers are all launched. *)
Lemma launched_wf rel name c :
  ct_servers c <> [] -> Forall (launched name) (ct_servers c) -> ct_tasks_finished c = 0 ->
  ct_released c = false -> ct_destroyed c = false -> ct_resolved c = false -> ct_log c = [] ->
  (rel = true -> reliable c) -> control_wf rel c.
Proof.
  intros Hne HF Ht Hr Hd Hrs Hl Hre. split; auto; rewrite ?Ht, ?Hr, ?(launched_unfinished _ _ HF); auto.
  - eapply Forall_impl; [exact HF|]. now intros s [H1 _].
  - split; [discriminate|]. destruct (ct_servers c); [congruence | discriminate].
  - intros [E|E]; congruence.
Qed.

Lemma launched_query_ok rel seen q name c :
  control_wf rel c -> validate_hostname name = true -> Forall (launched name) (ct_servers c) ->
  ct_resolved c = false -> ct_released c = false ->
  (ct_record_evicted c = false /\ rc_state (ct_record c) = rs_pending)
  \/ (ct_record_evicted c = true /\ rc_state (ct_record c) = rs_none) ->
  query_ok rel seen q (Query name c false).
Proof.
  intros HC Hv HF Hrs Hr HR. apply idle_query_ok; try discriminate; auto.
  - intros _. unfold record_follows. rewrite Hrs, Hr. destruct HR as [[-> ->]|[-> ->]]; [now split | discriminate].
  - intros _. destruct HR as [[-> ->]|[-> ->]]; [auto | discriminate].
  - eapply Forall_impl; [exact HF|]. now intros s (_ & _ & H1 & H2 & H3).
  - tauto.
Qed.

Lemma submitted_le n oks : submitted n oks <= n.
Proof. revert oks. induction n as [|n IH]; intros [|[] oks]; cbn; try lia; [apply le_n_S, IH ..]. Qed.

(** When some servers were not reached: their sockets are closed, and the query ends or
    goes on without callbacks. *)
Lemma partial_queue_ok rel name cb en l sent d0 d :
  validate_hostname name = true -> Forall (built name) l -> sent < length l ->
  (rel = true -> Forall (fun b => b = true) (en_dispatch en)) ->
  let servers := (sv_set_op (Some OpWrite) <$> take sent l) ++ drop sent l in
  building rel name
    (set_servers (sv_close <$> servers)
       (set_evicted (set_record discard (set_callbacks [] (set_servers servers
          (set_callbacks [cb] (new_control en))))))) d0 d ->
  let q := length (dn_queries d0) in
  exists d', (if sent =? 0 then d ← release_query true q d; Some (Some SystemError, d)
              else Some (Some SystemError,
                         on_control q (fun c => set_servers (take sent (ct_servers c)) c) d))
             = Some (Some SystemError, d') /\ rests rel [] d0 d'.
Proof.
  intros Hv HF Hlt Hre. set (servers := _ ++ _). cbn zeta. intros HB.
  destruct (Nat.eqb_spec sent 0) as [E0|E0].
  - rewrite (building_release _ _ _ _ _ HB) by reflexivity. cbn [mbind option_bind].
    eexists. split; [reflexivity|].
    pose proof (building_control _ _ _ _ _ (control_release true) HB) as HB2.
    apply (building_rests rel name _ d0 _ HB2).
    assert (Es : servers = l) by (unfold servers; now rewrite E0).
    cbn [control_release]. rewrite Es. clear servers Es HB HB2.
    assert (HF' : Forall (fun s => sv_op s = None /\ Forall (asked name) (sv_queries s)
                         /\ sv_results s = [] /\ sv_ptr_results s = []) (sv_close <$> l)).
    { apply Forall_fmap. eapply Forall_impl; [exact HF|]. now intros s (hosts & q & qs & -> & Ha). }
    apply idle_query_ok; try discriminate; auto.
    + right. split; try reflexivity. intros i s Hs. cbn in Hs. now destruct (Forall_lookup_1 _ _ _ _ HF' Hs).
    + eapply Forall_impl; [exact HF'|]. now intros s (_ & H1 & H2).
  - eexists. split; [reflexivity|].
    pose proof (building_control _ _ _ _ _ (fun c => set_servers (take sent (ct_servers c)) c) HB) as HB2.
    apply (building_rests rel name _ d0 _ HB2).
    assert (Es : take sent (sv_close <$> servers) = (fun s => sv_close (sv_set_op (Some OpWrite) s)) <$> take sent l).
    { unfold servers. rewrite fmap_app, take_app_length'; [now rewrite <- list_fmap_compose|].
      rewrite !length_fmap, length_take. lia. }
    cbn [ct_servers set_servers]. rewrite Es.
    assert (HF' : Forall (launched name) ((fun s => sv_close (sv_set_op (Some OpWrite) s)) <$> take sent l)).
    { apply Forall_fmap. apply Forall_take with (n := sent) in HF. eapply Forall_impl; [exact HF|].
      intros s Hs. now apply built_launched. }
    apply launched_query_ok; auto. apply (launched_wf rel name); auto.
    cbn. destruct l; [cbn in Hlt; lia|]. destruct sent; [congruence | discriminate].
Qed.

Lemma queue_outcome rel ess d0 name cb qt en :
  sound rel (length (dn_queries d0)) ess d0 -> validate_hostname name = true ->
  (rel = true -> Forall (fun b => b = true) (en_dispatch en)) ->
  exists r d, queue name cb qt en d0 = Some (r, d)
    /\ rests rel (match r with None => [cb] | Some _ => [] end) d0 d.
Proof.
  intros HS Hv Hre. unfold queue.
  destruct (prepare_data_ok rel ess d0 name cb qt en HS Hv) as (r & d & -> & Hr). cbn [mbind option_bind].
  destruct r as [e|q]; [eauto|]. destruct Hr as (-> & l & HB & Hne & HF).
  rewrite (building_lookup _ _ _ _ _ HB). cbn [mbind option_bind qy_control qy_freed].
  change (ct_servers (set_servers l (set_callbacks [cb] (new_control en)))) with l. cbn zeta.
  assert (Hex : existsb (fun s => length (sv_queries s) =? 0) l = false).
  { clear -HF. induction HF as [|s l (hosts & q & qs & -> & _) _ IH]; [reflexivity | exact IH]. }
  rewrite Hex. pose proof (submitted_le (length l) (en_submit en)) as Hle.
  set (sent := submitted _ _) in *. set (servers := _ ++ _).
  pose proof (building_control _ _ _ _ _ (set_servers servers) HB) as HB1.
  destruct (Nat.eqb_spec sent (length l)) as [El|Hlt].
  - do 2 eexists. split; [reflexivity|].
    assert (Es : servers = sv_set_op (Some OpWrite) <$> l)
      by (unfold servers; now rewrite El, firstn_all, drop_all, app_nil_r).
    apply (building_rests rel name _ d0 _ HB1). rewrite Es.
    assert (HF' : Forall (launched name) (sv_set_op (Some OpWrite) <$> l)).
    { apply Forall_fmap. eapply Forall_impl; [exact HF|]. intros s Hs. now apply built_launched. }
    apply launched_query_ok; auto. apply (launched_wf rel name); auto. cbn. now destruct l.
  - pose proof (building_control _ _ _ _ _ (set_callbacks []) HB1) as HB2.
    pose proof (building_control _ _ _ _ _ (fun c => set_evicted (set_record discard c)) HB2) as HB3.
    pose proof (building_control _ _ _ _ _ (fun c => set_servers (sv_close <$> ct_servers c) c) HB3) as HB4.
    change (ct_record_evicted (set_servers l (set_callbacks [cb] (new_control en)))) with false.
    cbn [mbind option_bind].
    destruct (partial_queue_ok rel name cb en l sent d0 _ Hv HF ltac:(lia) Hre HB4) as (d' & E & HR).
    exists (Some SystemError), d'. split; [exact E | exact HR].
Qed.
End Books.
