(* ===== verification/DnsProps.v ===== *)
(** * Theorems on the resolver

    [DnsFront] under every sequence of lookups and completions, over any cache with the
    laws of [DnsCache]. *)

From Stdlib Require Import Strings.Byte NArith ZArith Lia.
From stdpp Require Import base numbers list sets.
From S2P Require Import Prelude IpAddress DnsName Resolver DnsCache DnsFront DnsQuery DnsBooks.

Open Scope nat_scope.

Section Props.
Context {C : Type} `{RecordCache entry C} `{!RecordCacheLaws entry C} `{DnsSetup}.
Context (content : bytes) (Hconf : parse_resolv_configuration content = Ok configuration).
Implicit Types (d : dns C).

(** ** Lookups *)

Lemma sound_control rel ess d q f x :
  sound rel (length (dn_queries d)) ess d -> dn_queries d !! q = Some x ->
  query_ok rel (dn_seen d) q (with_control f x) ->
  sound rel (length (dn_queries (on_control q f d))) ess (on_control q f d).
Proof.
  intros [HL HH HB HQ] Hx Hok. split; auto; [now apply books_control|].
  intros q' y Hy. left. split; [now apply lookup_lt_Some in Hy|]. cbn in Hy.
  destruct (decide (q = q')) as [<-|Hne].
  - rewrite list_lookup_alter_eq, Hx in Hy. injection Hy as <-. exact Hok.
  - rewrite list_lookup_alter_ne in Hy by exact Hne.
    destruct (HQ q' y Hy) as [[_ H1]|[H1 _]]; [exact H1|]. apply lookup_lt_Some in Hy. lia.
Qed.

(** A callback more in one place is a callback more. *)
Lemma join_alter_snoc (l : list (list nat)) q w (cb : nat) :
  l !! q = Some w -> mjoin (alter (fun w => w ++ [cb]) q l) ≡ₚ mjoin l ++ [cb].
Proof.
  revert q. induction l as [|w' l IH]; intros [|q]; cbn; try discriminate.
  - intros _. rewrite <- !app_assoc. apply Permutation_app_head, Permutation_app_comm.
  - intros H'. rewrite <- app_assoc. apply Permutation_app_head. now apply IH.
Qed.

(** What was registered and what was accepted, from [d0] to [d]. *)
Definition accounts (exact : Prop) (d0 d : dns C) : Prop :=
  exists added told, registered d ≡ₚ registered d0 ++ added
    /\ dn_accepted d = dn_accepted d0 ++ told /\ added ⊆+ told /\ (exact -> added = told).

Definition settles (rel : bool) (exact : Prop) (d0 d : dns C) : Prop :=
  (exists ess, sound rel (length (dn_queries d)) ess d) /\ accounts exact d0 d
  /\ dn_seen d = dn_seen d0.

Lemma quietly_registered d0 d : quietly d0 d -> registered d = registered d0.
Proof. intros (E1 & _ & _ & E4 & _). unfold registered. now rewrite E1, E4. Qed.

(** Looking into the cache first changes nothing of this. *)
Lemma settles_after rel exact d0 d1 d : quietly d0 d1 -> settles rel exact d1 d -> settles rel exact d0 d.
Proof.
  intros Hq (HS & (added & told & H1 & H2 & H3 & H4) & H5).
  pose proof (quietly_registered _ _ Hq) as Er. destruct Hq as (_ & E2 & E3 & _ & _).
  split; [exact HS|]. split; [|congruence]. exists added, told. rewrite <- Er, <- E2. auto.
Qed.

Lemma settles_idle rel exact ess d : sound rel (length (dn_queries d)) ess d -> settles rel exact d d.
Proof.
  intros HS. split; [now exists ess|]. split; [|reflexivity]. exists [], [].
  rewrite !app_nil_r. now split_and!.
Qed.

Lemma accept_settles rel exact cb d0 d : rests rel [cb] d0 d -> settles rel exact d0 (accept cb d).
Proof.
  intros [(ess & HS) H1 H2 H3]. split; [exists ess; destruct HS as [? ? [] ?]; now split|].
  split; [|exact H3]. exists [cb], [cb]. split; [exact H1|]. cbn. rewrite H2. now split_and!.
Qed.

Lemma refuse_settles rel exact d0 d : rests rel [] d0 d -> settles rel exact d0 d.
Proof.
  intros [(ess & HS) H1 H2 H3]. split; [now exists ess|]. split; [|exact H3].
  exists [], []. split; [exact H1|]. rewrite H2, app_nil_r. now split_and!.
Qed.

(** A caller that is told to wait although nothing was registered. *)
Lemma forget_settles rel (exact : Prop) cb d0 d :
  ~ exact -> rests rel [] d0 d -> settles rel exact d0 (accept cb d).
Proof.
  intros Hne [(ess & HS) H1 H2 H3]. split; [exists ess; destruct HS as [? ? [] ?]; now split|].
  split; [|exact H3]. exists [], [cb]. split; [exact H1|]. cbn. rewrite H2.
  split_and!; [reflexivity | apply submseteq_nil_l | contradiction].
Qed.

Lemma queue_or_fail_ok rel exact ess d name cb qt en :
  sound rel (length (dn_queries d)) ess d -> validate_hostname name = true ->
  (rel = true -> Forall (fun b => b = true) (en_dispatch en)) ->
  exists a d', queue_or_fail name cb qt en d = Some (a, d') /\ settles rel exact d d'
               /\ forall l, a <> Found l.
Proof.
  intros HS Hv Hre. unfold queue_or_fail.
  destruct (queue_outcome content Hconf rel ess d name cb qt en HS Hv Hre) as (r & d' & -> & HR). cbn [mbind option_bind].
  destruct r as [e|]; do 2 eexists; (split; [reflexivity|]); (split; [|discriminate]).
  - now apply refuse_settles.
  - now apply accept_settles.
Qed.

Lemma append_to_ok rel ess d name e cb en :
  sound rel (length (dn_queries d)) ess d -> entry_ok name e d ->
  exists r d', append_to e cb en d = Some (r, d')
    /\ match r with
       | Appended => rests rel [cb] d d'
       | _ => d' = d
       end.
Proof.
  intros HS He. destruct e as [q|r]; [|do 2 eexists; now split].
  destruct (entry_query _ _ _ _ _ (sd_queries _ _ _ _ HS) He) as (x & Hx & _ & Hf & HQ).
  unfold append_to. rewrite Hx. cbn [mbind option_bind]. rewrite Hf.
  destruct (rc_state (ct_record (qy_control x))) eqn:Hp; [|do 2 eexists; now split ..].
  destruct (query_pending _ _ _ _ HQ Hf Hp) as (_ & Hr & _ & Hd & _). rewrite Hd, Hr.
  destruct (en_callback_ok en); cbn [negb]; [|do 2 eexists; now split].
  destruct (append_query_ok _ _ _ _ cb HQ Hf Hp) as [Ec HQ'].
  do 2 eexists. split; [reflexivity|]. split; try reflexivity.
  - exists ess. now apply (sound_control rel ess d q _ x).
  - unfold registered. cbn [dn_soon]. change (dn_soon (on_control q _ d)) with (dn_soon d).
    assert (Ew : waiting (on_control q (fun c => (append_callback cb c).2) d)
                 = alter (fun w => w ++ [cb]) q (waiting d)).
    { unfold waiting. cbn. apply list_eq. intros q'. rewrite list_lookup_fmap.
      destruct (decide (q = q')) as [<-|Hne].
      - rewrite !list_lookup_alter_eq, list_lookup_fmap, Hx. cbn. now rewrite Ec.
      - rewrite !list_lookup_alter_ne by exact Hne. now rewrite list_lookup_fmap. }
    rewrite Ew, (join_alter_snoc _ q (ct_callbacks (qy_control x))).
    + rewrite <- !app_assoc. apply Permutation_app_head, Permutation_app_comm.
    + unfold waiting. now rewrite list_lookup_fmap, Hx.
Qed.

Lemma join_or_queue_ok rel exact ess d name e cb qt en :
  sound rel (length (dn_queries d)) ess d -> entry_ok name e d -> validate_hostname name = true ->
  (rel = true -> Forall (fun b => b = true) (en_dispatch en)) ->
  exists a d', join_or_queue name e cb qt en d = Some (a, d') /\ settles rel exact d d'
               /\ forall l, a <> Found l.
Proof.
  intros HS He Hv Hre. unfold join_or_queue.
  destruct (append_to_ok rel ess d name e cb en HS He) as (r & d' & -> & Hr). cbn [mbind option_bind].
  destruct r.
  - do 2 eexists. split; [reflexivity|]. split; [now apply accept_settles | discriminate].
  - subst d'. now apply (queue_or_fail_ok rel exact ess).
  - subst d'. do 2 eexists. split; [reflexivity|]. split; [now apply (settles_idle rel exact ess) | discriminate].
Qed.

Lemma quietly_rests rel ess d0 d :
  quietly d0 d -> sound rel (length (dn_queries d0)) ess d -> rests rel [] d0 d.
Proof.
  intros Hq HS. pose proof (quietly_registered _ _ Hq) as Hreg. pose proof (quietly_length _ _ Hq) as Hl.
  destruct Hq as (_ & E2 & E3 & _). split; auto; [exists ess; now rewrite Hl | now rewrite app_nil_r, Hreg].
Qed.

(** The books with the entry of seeded addresses. *)
Lemma books_seed ess d j kept name r l :
  books (<[j := kept]> ess) d -> is_Some (ess !! j) -> get_cache_slot name = j ->
  rc_state r = rs_resolved l -> resolve_address name ipv6_supported 2 = Ok l ->
  books (<[j := (name, Seeded r) :: kept]> ess) d.
Proof.
  intros [HF HK] [es Hes] Hs Hr Hl.
  assert (Hjl : j < length ess) by (now apply lookup_lt_Some in Hes).
  split.
  - intros j' es' nm e Hj' Hin. destruct (decide (j = j')) as [<-|Hne].
    + rewrite list_lookup_insert_eq in Hj' by exact Hjl. injection Hj' as <-.
      apply elem_of_cons in Hin as [[= -> ->]|Hin]; [split; [exact Hs | now exists l]|].
      apply (HF j kept nm e); [now apply list_lookup_insert_eq | exact Hin].
    + rewrite list_lookup_insert_ne in Hj' by exact Hne.
      apply (HF j' es' nm e); [now rewrite list_lookup_insert_ne | exact Hin].
  - intros q y Hy Hfy. destruct (HK q y Hy Hfy) as (es' & He' & Hin).
    destruct (decide (j = get_cache_slot (qy_hostname y))) as [Hjs|Hnj].
    + rewrite <- Hjs in *. rewrite list_lookup_insert_eq in He' |- * by exact Hjl. injection He' as <-.
      eexists. split; [reflexivity | now right].
    + rewrite list_lookup_insert_ne in He' |- * by exact Hnj. eauto.
Qed.

Lemma seed_ok rel ess d name r l en :
  sound rel (length (dn_queries d)) ess d -> rc_state r = rs_resolved l ->
  resolve_address name ipv6_supported 2 = Ok l ->
  exists d', create_new_record name (Seeded r) en d
             = Some (en_record_ok en && (en_node_ok en && en_map_ok en), d') /\ rests rel [] d d'.
Proof.
  intros HS Hr Hl.
  destruct (create_new_record_ok rel _ ess d name (Seeded r) en HS) as (ok & d' & E & <- & Hq & H1).
  exists d'. split; [exact E|]. destruct ok.
  - destruct H1 as (kept & Hes & HL & HH & HB & HQ). eapply quietly_rests; [exact Hq|].
    split; [exact HL | exact HH | | exact HQ]. now apply (books_seed ess d' _ kept name r l).
  - destruct H1 as [ess' HS']. now apply (quietly_rests rel ess').
Qed.

(** Where the addresses a lookup of [name] returns come from: the name itself, or the
    answers to questions about it. *)
Definition vouched (name : bytes) (l : list Address) (d : dns C) : Prop :=
  resolve_address name ipv6_supported 2 = Ok l
  \/ exists q i x s, dn_queries d !! q = Some x /\ qy_hostname x = name
       /\ ct_servers (qy_control x) !! i = Some s /\ Forall (asked name) (sv_queries s)
       /\ Forall (told_address (heard (dn_seen d) q) i (sv_queries s)) l.

Lemma entry_vouched rel ess d name e r l :
  sound rel (length (dn_queries d)) ess d -> entry_ok name e d -> entry_record e d = Some r ->
  get_address_list r = Some l -> vouched name l d.
Proof.
  intros HS He Er Hl. destruct e as [q|r0].
  - destruct (entry_query _ _ _ _ _ (sd_queries _ _ _ _ HS) He) as (x & Hx & Hh & Hf & HQ).
    cbn in Er. rewrite Hx in Er. cbn in Er. rewrite Hf in Er. injection Er as <-.
    unfold get_address_list in Hl. destruct (qo_believes _ _ _ _ HQ) as [_ HB].
    destruct (rc_state _) as [|l0|n|]; try discriminate. injection Hl as ->.
    destruct HB as (i & qs & Hqs & HF). rewrite list_lookup_fmap in Hqs.
    destruct (ct_servers (qy_control x) !! i) as [s|] eqn:Hi; [|discriminate]. injection Hqs as <-.
    right. exists q, i, x, s. split_and!; auto.
    pose proof (qo_asked _ _ _ _ HQ) as HA. rewrite Forall_fmap, Hh in HA.
    exact (Forall_lookup_1 _ _ _ _ HA Hi).
  - injection Er as ->. destruct He as (l0 & Hs & Hr). unfold get_address_list in Hl.
    rewrite Hs in Hl. injection Hl as ->. now left.
Qed.

(** The name of an entry can be asked about, unless it answers the lookup. *)
Lemma entry_name_valid rel ess d name e r :
  sound rel (length (dn_queries d)) ess d -> entry_ok name e d -> entry_record e d = Some r ->
  get_address_list r = None -> validate_hostname name = true.
Proof.
  intros HS He Er Hl. destruct e as [q|r0].
  - destruct (entry_query _ _ _ _ _ (sd_queries _ _ _ _ HS) He) as (x & _ & <- & _ & HQ). apply HQ.
  - injection Er as ->. destruct He as (l0 & Hs & Hr). unfold get_address_list in Hl.
    now rewrite Hs in Hl.
Qed.

Lemma resolve_nothing_valid name :
  resolve_address name ipv6_supported 2 = Ok [] -> validate_hostname name = true.
Proof.
  unfold resolve_address. destruct (bool_decide _).
  - destruct ipv6_supported; cbn; discriminate.
  - destruct (resolveIp name 0); [cbn; discriminate|].
    destruct (if ipv6_supported then _ else _); [cbn; discriminate|].
    destruct (validate_hostname name); [reflexivity | discriminate].
Qed.

(** A literal address can be seeded. *)
Definition seeds_ok (hostname : bytes) (en : environment) : Prop :=
  forall a l, resolve_address (lowerString hostname) ipv6_supported 2 = Ok (a :: l) ->
  en_seed_ok en && (en_record_ok en && (en_node_ok en && en_map_ok en)) = true.

Lemma lookup_ok rel ess d hostname callback en :
  sound rel (length (dn_queries d)) ess d ->
  (rel = true -> Forall (fun b => b = true) (en_dispatch en)) ->
  exists a d', lookup hostname callback en d = Some (a, d')
    /\ settles rel (seeds_ok hostname en) d d'
    /\ forall l, a = Found l -> vouched (lowerString hostname) l d'.
Proof.
  intros HS Hre. unfold lookup. destruct (_ <? _).
  { do 2 eexists. split; [reflexivity|]. split; [now apply (settles_idle _ _ ess) | discriminate]. }
  cbn zeta. set (name := lowerString hostname).
  destruct (cache_slot_get_ok rel _ ess d (en_now en) name HS) as (r & d1 & ess1 & -> & HS1 & Hq & Hr).
  cbn [mbind option_bind]. rewrite <- (quietly_length _ _ Hq) in HS1.
  destruct r as [e|].
  - destruct Hr as (He & record & Er & _). rewrite Er. cbn [mbind option_bind].
    destruct (get_address_list record) as [l|] eqn:El; [|destruct callback as [cb|]].
    + do 2 eexists. split; [reflexivity|].
      split; [apply (settles_after _ _ d d1); [exact Hq | now apply (settles_idle _ _ ess1)]|].
      intros l' [= <-]. now apply (entry_vouched rel ess1 d1 name e record).
    + destruct (join_or_queue_ok rel (seeds_ok hostname en) ess1 d1 name e cb None en HS1 He) as (a & d2 & -> & HT & Hnf);
        [now apply (entry_name_valid rel ess1 d1 name e record) | exact Hre|].
      do 2 eexists. split; [reflexivity|]. split; [now apply (settles_after _ _ d d1)|].
      intros l Ea. now destruct (Hnf l).
    + do 2 eexists. split; [reflexivity|].
      split; [apply (settles_after _ _ d d1); [exact Hq | now apply (settles_idle _ _ ess1)] | discriminate].
  - destruct callback as [cb|].
    2: { do 2 eexists. split; [reflexivity|].
         split; [apply (settles_after _ _ d d1); [exact Hq | now apply (settles_idle _ _ ess1)] | discriminate]. }
    destruct (resolve_address name ipv6_supported 2) as [[|a l]|err] eqn:Ea.
    + destruct (queue_or_fail_ok rel (seeds_ok hostname en) ess1 d1 name cb None en HS1) as (a & d2 & -> & HT & Hnf);
        [now apply resolve_nothing_valid | exact Hre|].
      do 2 eexists. split; [reflexivity|]. split; [now apply (settles_after _ _ d d1)|].
      intros l E. now destruct (Hnf l).
    + assert (Hforget : en_seed_ok en && (en_record_ok en && (en_node_ok en && en_map_ok en)) = false ->
                        ~ seeds_ok hostname en)
        by (intros E Hex; rewrite (Hex a l Ea) in E; discriminate).
      destruct (en_seed_ok en); cbn [negb andb] in *.
      2: { do 2 eexists. split; [reflexivity|]. split; [|discriminate].
           apply (settles_after _ _ d d1); [exact Hq|]. apply forget_settles; [auto|].
           now apply (quietly_rests rel ess1). }
      destruct (seed_ok rel ess1 d1 name (set_resolved_data (en_now en) (a :: l) 60) (a :: l) en HS1)
        as (d2 & -> & HR); [reflexivity | exact Ea|]. cbn [mbind option_bind].
      destruct (en_record_ok en && _); cbn [negb]; do 2 eexists; (split; [reflexivity|]).
      * split; [apply (settles_after _ _ d d1); [exact Hq | now apply refuse_settles]|].
        intros l' [= <-]. now left.
      * split; [apply (settles_after _ _ d d1); [exact Hq | apply forget_settles; auto] | discriminate].
    + do 2 eexists. split; [reflexivity|].
      split; [apply (settles_after _ _ d d1); [exact Hq | now apply (settles_idle _ _ ess1)] | discriminate].
Qed.

Lemma reverse_lookup_ok rel exact ess d address cb en :
  sound rel (length (dn_queries d)) ess d -> address_wf address ->
  (rel = true -> Forall (fun b => b = true) (en_dispatch en)) ->
  exists a d', reverse_lookup address cb en d = Some (a, d') /\ settles rel exact d d'.
Proof.
  intros HS Hwf Hre. unfold reverse_lookup.
  destruct (reverse_name_valid address Hwf) as (name & -> & Hv & _).
  destruct (cache_slot_get_ok rel _ ess d (en_now en) name HS) as (r & d1 & ess1 & -> & HS1 & Hq & Hr).
  cbn [mbind option_bind]. rewrite <- (quietly_length _ _ Hq) in HS1.
  assert (Hjoin : forall e, entry_ok name e d1 ->
            exists a d', join_or_queue name e cb (Some q_ptr) en d1 = Some (a, d') /\ settles rel exact d d').
  { intros e He.
    destruct (join_or_queue_ok rel exact ess1 d1 name e cb (Some q_ptr) en HS1 He Hv Hre) as (a & d2 & E & HT & _).
    exists a, d2. split; [exact E | now apply (settles_after _ _ d d1)]. }
  destruct r as [e|].
  - destruct Hr as (He & record & Er & _). rewrite Er. cbn [mbind option_bind].
    destruct (rc_state record) as [|l|n|]; try (now apply Hjoin).
    destruct (en_soon_ok en).
    2: { do 2 eexists. split; [reflexivity|].
         apply (settles_after _ _ d d1); [exact Hq | now apply (settles_idle _ _ ess1)]. }
    do 2 eexists. split; [reflexivity|]. apply (settles_after _ _ d d1); [exact Hq|].
    apply accept_settles. split; [|unfold registered; cbn; now rewrite app_assoc | reflexivity..].
    exists ess1. destruct HS1 as [? ? [] ?]. now split.
  - destruct (queue_or_fail_ok rel exact ess1 d1 name cb (Some q_ptr) en HS1 Hv Hre) as (a & d2 & E & HT & _).
    exists a, d2. split; [exact E | now apply (settles_after _ _ d d1)].
Qed.

(** ** Histories *)

Definition event_wf (ev : event) : Prop :=
  match ev with EvReverse address _ _ => address_wf address | _ => True end.

(** The loop takes every callback it is handed. *)
Definition event_reliable (ev : event) : Prop :=
  match ev with
  | EvLookup _ _ en | EvReverse _ _ en => Forall (fun b => b = true) (en_dispatch en)
  | EvCompletion _ _ _ _ _ => True
  end.

Definition event_seeds (ev : event) : Prop :=
  match ev with EvLookup hostname _ en => seeds_ok hostname en | _ => True end.

(** A read of server [i] of query [q] is in flight, and the query has no result. *)
Definition awaits (d : dns C) (q i : nat) : Prop :=
  exists x, dn_queries d !! q = Some x /\ reads i (qy_control x) = true.

Lemma on_completion_ok rel ess d q i comp ok now :
  sound rel (length (dn_queries d)) ess d ->
  exists d', on_completion true q i comp ok now d = Some d'
    /\ (exists ess', sound rel (length (dn_queries d')) ess' d')
    /\ registered d' = registered d /\ dn_accepted d' = dn_accepted d
    /\ forall y, y ∈ dn_seen d' -> y ∈ dn_seen d
         \/ exists response, comp = CompData response /\ y = (q, i, response) /\ awaits d q i.
Proof.
  intros HS. unfold on_completion. destruct (dn_queries d !! q) as [x|] eqn:Hx.
  2: { exists d. split_and!; eauto. }
  destruct (in_flight i (qy_control x)) eqn:Hi; cbn [negb]; [|exists d; split_and!; eauto].
  assert (HQ : query_ok rel (dn_seen d) q x).
  { destruct (sd_queries _ _ _ _ HS q x Hx) as [[_ H1]|[H1 _]]; [exact H1|]. apply lookup_lt_Some in Hx. lia. }
  destruct (query_in_flight _ _ _ _ _ HQ Hi) as (_ & -> & ->). cbn zeta.
  set (d1 := match comp with CompData response => _ | _ => d end).
  assert (Hd1 : dn_queries d1 = dn_queries d /\ dn_caches d1 = dn_caches d /\ dn_soon d1 = dn_soon d
            /\ dn_accepted d1 = dn_accepted d
            /\ (forall y, y ∈ dn_seen d -> y ∈ dn_seen d1)
            /\ (forall y, y ∈ dn_seen d1 -> y ∈ dn_seen d
                  \/ exists response, comp = CompData response /\ y = (q, i, response) /\ awaits d q i)
            /\ (forall response, reads i (qy_control x) = true -> comp = CompData response ->
                  (q, i, response) ∈ dn_seen d1)).
  { unfold d1. destruct comp as [| |response]; [split_and!; auto; discriminate ..|].
    destruct (reads i (qy_control x)) eqn:Er; cbn [dn_queries dn_caches dn_soon dn_accepted dn_seen];
      split_and!; auto; try discriminate.
    - intros y Hy. cbn. set_solver.
    - cbn. intros y [Hy|Hy]%elem_of_app; [auto|]. right. exists response.
      split; [reflexivity|]. split; [set_solver | now exists x].
    - intros r _ [= <-]. cbn. set_solver. }
  clearbody d1. destruct Hd1 as (E1 & E2 & E3 & E4 & E5 & E6 & E7).
  assert (HS1 : sound rel (length (dn_queries d1)) ess d1).
  { destruct HS as [HL HH [HF HK] HQs]. split; rewrite ?E2; auto.
    - split.
      + intros j es name e Hj Hin. destruct (HF j es name e Hj Hin) as [Hs He]. split; [exact Hs|].
        destruct e; [|exact He]. cbn. now rewrite E1.
      + intros q' y Hy. rewrite E1 in Hy. eauto.
    - intros q' y Hy. rewrite E1 in *. destruct (HQs q' y Hy) as [[Hlt H1]|H1]; [left | now right].
      split; [exact Hlt | now apply (query_ok_mono rel (dn_seen d))]. }
  assert (Hx1 : dn_queries d1 !! q = Some x) by now rewrite E1.
  eexists. split; [reflexivity|]. split; [|split; [|split; [exact E4 | exact E6]]].
  - exists ess. apply (sound_control rel ess d1 q _ x HS1 Hx1).
    apply completed_query_ok; [now apply (query_ok_mono rel (dn_seen d)) | exact Hi | exact E7].
  - unfold registered. change (dn_soon (on_control q _ d1)) with (dn_soon d1). rewrite E3. do 2 f_equal.
    unfold waiting. rewrite <- E1. cbn. apply list_eq. intros q'. rewrite !list_lookup_fmap.
    destruct (decide (q = q')) as [<-|Hne]; [|now rewrite list_lookup_alter_ne].
    rewrite list_lookup_alter_eq, Hx1. cbn. now destruct (complete_steady true i comp ok (set_now now (qy_control x))) as [-> _].
Qed.

(** The state after a history, and the two ledgers. *)
Record ledger (rel : bool) (exact : Prop) (heard_by : nat * nat * bytes -> Prop) (d : dns C) : Prop := {
  lg_sound : exists ess, sound rel (length (dn_queries d)) ess d;
  lg_accepted : registered d ⊆+ dn_accepted d;
  lg_exact : exact -> registered d ≡ₚ dn_accepted d;
  lg_seen : forall y, y ∈ dn_seen d -> heard_by y }.

Lemma settles_ledger rel exact (exact1 : Prop) P d0 d :
  ledger rel exact P d0 -> settles rel exact1 d0 d -> (exact -> exact1) -> ledger rel exact P d.
Proof.
  intros [_ H1 H2 H3] (HS & (added & told & A1 & A2 & A3 & A4) & A5) Hex. split; auto.
  - rewrite A1, A2. now apply submseteq_app.
  - intros He. rewrite A1, A2, (A4 (Hex He)), (H2 He). reflexivity.
  - now rewrite A5.
Qed.

Lemma handle_ledger rel exact (P0 P : nat * nat * bytes -> Prop) ev d :
  ledger rel exact P0 d -> event_wf ev -> (rel = true -> event_reliable ev) -> (exact -> event_seeds ev) ->
  (forall y, P0 y -> P y) ->
  (forall q i response ok now, ev = EvCompletion q i (CompData response) ok now -> awaits d q i ->
     P (q, i, response)) ->
  exists d', handle ev d = Some d' /\ ledger rel exact P d'.
Proof.
  intros HL0 Hwf Hre Hex Hmono HP. destruct (lg_sound _ _ _ _ HL0) as [ess HS].
  assert (HL : ledger rel exact P d) by (destruct HL0; split; auto).
  destruct ev as [hostname callback en|address cb en|q i comp ok now]; cbn [handle].
  - destruct (lookup_ok rel ess d hostname callback en HS Hre) as (a & d' & -> & HT & _).
    exists d'. split; [reflexivity|]. exact (settles_ledger _ _ _ _ _ _ HL HT Hex).
  - destruct (reverse_lookup_ok rel exact ess d address cb en HS Hwf Hre) as (a & d' & -> & HT).
    exists d'. split; [reflexivity|]. exact (settles_ledger _ _ _ _ _ _ HL HT (fun x => x)).
  - destruct (on_completion_ok rel ess d q i comp ok now HS) as (d' & -> & HS' & E1 & E2 & E3).
    exists d'. split; [reflexivity|]. destruct HL as [_ H1 H2 H3]. split; auto; rewrite ?E1, ?E2; auto.
    intros y [Hy|(response & -> & -> & Ha)]%E3; [auto | eauto].
Qed.

(** A datagram of a history: it was read from server [i] for query [q], in a state in
    which the query had no result yet. *)
Definition received (evs : list event) (q i : nat) (response : bytes) : Prop :=
  exists before ok now after d, evs = before ++ EvCompletion q i (CompData response) ok now :: after
    /\ run before initial = Some d /\ awaits d q i.

Definition heard_in (evs : list event) (y : nat * nat * bytes) : Prop :=
  received evs y.1.1 y.1.2 y.2.

Lemma run_app evs1 evs2 d : run (evs1 ++ evs2) d = run evs1 d ≫= run evs2.
Proof.
  revert d. induction evs1 as [|ev evs1 IH]; intros d; [reflexivity|]. cbn [run app].
  destruct (handle ev d) as [d1|]; [exact (IH d1) | reflexivity].
Qed.

Lemma run_ledger rel exact past evs d :
  run past initial = Some d -> ledger rel exact (heard_in past) d ->
  Forall event_wf evs -> (rel = true -> Forall event_reliable evs) -> (exact -> Forall event_seeds evs) ->
  exists d', run evs d = Some d' /\ ledger rel exact (heard_in (past ++ evs)) d'.
Proof.
  revert past d. induction evs as [|ev evs IH]; intros past d Hp HL Hwf Hre Hex; cbn [run].
  { rewrite app_nil_r. eauto. }
  apply Forall_cons in Hwf as [Hw1 Hwf].
  destruct (handle_ledger rel exact (heard_in past) (heard_in (past ++ [ev])) ev d HL Hw1)
    as (d1 & E1 & HL1).
  - intros E. now apply Hre, Forall_cons in E as [E _].
  - intros E. now apply Hex, Forall_cons in E as [E _].
  - intros y (before & ok & now & after & d0 & -> & H1 & H2).
    exists before, ok, now, (after ++ [ev]), d0. split; [now rewrite <- app_assoc | auto].
  - intros q i response ok now -> Ha. exists past, ok, now, [], d. auto.
  - rewrite E1. cbn [mbind option_bind].
    replace (past ++ ev :: evs) with ((past ++ [ev]) ++ evs) by (now rewrite <- app_assoc).
    apply IH; auto.
    + rewrite run_app, Hp. cbn. now rewrite E1.
    + intros E. now apply Hre, Forall_cons in E as [_ E].
    + intros E. now apply Hex, Forall_cons in E as [_ E].
Qed.

Lemma initial_ledger rel exact P : ledger rel exact P initial.
Proof.
  destruct (initial_sound rel) as [ess HS]. split; [now exists ess | reflexivity | reflexivity|].
  intros y Hy. cbn in Hy. set_solver.
Qed.

Lemma history_ok rel exact evs :
  Forall event_wf evs -> (rel = true -> Forall event_reliable evs) -> (exact -> Forall event_seeds evs) ->
  exists d, run evs initial = Some d /\ ledger rel exact (heard_in evs) d.
Proof.
  intros Hwf Hre Hex. apply (run_ledger rel exact []); auto. apply initial_ledger.
Qed.

(** ** The end *)

Lemma deinit_caches_ok rel n l ess done d :
  Forall2 cache_holds ess l -> books (replicate done [] ++ ess) d -> queries_ok rel n d ->
  exists d', deinit_caches l d = Some d' /\ books (replicate (done + length l) []) d'
             /\ queries_ok rel n d' /\ length (dn_queries d') = length (dn_queries d).
Proof.
  intros HH. revert done d. induction HH as [|es c ess l Hc HH IH]; intros done d HB HQ; cbn [deinit_caches].
  { exists d. cbn. rewrite Nat.add_0_r. rewrite app_nil_r in HB. auto. }
  destruct (cache_deinit_ok es c Hc) as (dropped & -> & HP). cbn [mbind option_bind].
  assert (Hj : (replicate done [] ++ es :: ess) !! done = Some es).
  { rewrite lookup_app_r by (rewrite length_replicate; lia). now rewrite length_replicate, Nat.sub_diag. }
  pose proof (cache_keys _ _ Hc) as Hn.
  assert (Hdr : Forall (fun e => droppable e d) dropped).
  { rewrite Forall_forall. intros e Hin.
    apply (books_droppable rel n _ d done es e HB HQ Hj). now rewrite <- HP. }
  destruct (evict_entries_spec dropped d) as (d1 & -> & Hev); [now rewrite HP | exact Hdr|].
  cbn [mbind option_bind].
  assert (HB1 : books (replicate (S done) [] ++ ess) d1).
  { replace (replicate (S done) [] ++ ess) with (<[done := []]> (replicate done [] ++ es :: ess)).
    - apply (evicts_books _ d d1 done es dropped []); auto. rewrite app_nil_r. now symmetry.
    - rewrite insert_app_r_alt by (rewrite length_replicate; lia).
      rewrite length_replicate, Nat.sub_diag. cbn [list_insert]. 
      rewrite replicate_S_end, <- app_assoc. reflexivity. }
  destruct (IH (S done) d1 HB1 (evicts_ok rel n dropped d d1 Hdr Hev HQ)) as (d2 & -> & HB2 & HQ2 & Hl).
  exists d2. split; [reflexivity|]. split; [|split; [exact HQ2|]].
  - cbn [length]. now rewrite <- Nat.add_succ_comm.
  - rewrite Hl. exact (quietly_length _ _ (evicts_quietly dropped d d1 Hdr Hev)).
Qed.

(** A query after [DNS.deinit]: released, and what is still in flight can be answered. *)
Definition parked (x : query) : Prop :=
  qy_freed x = true /\ ct_released (qy_control x) = true
  /\ forall i, in_flight i (qy_control x) = true ->
       ct_destroyed (qy_control x) = false /\ touches_record (qy_control x) = false.

(** Before it is released. *)
Definition unparked (rel : bool) (d : dns C) (q : nat) (x : query) : Prop :=
  qy_freed x = true /\ query_ok rel (dn_seen d) q x.

Lemma steady_touches c c' :
  steady c c' -> touches_record c = false -> touches_record c' = false.
Proof.
  intros (_ & S2 & _ & S4 & _) Ht. unfold touches_record in *. rewrite S2.
  destruct (ct_record_evicted c); [reflexivity|]. cbn in *. apply negb_false_iff in Ht.
  now rewrite (S4 Ht).
Qed.

Lemma release_parks rel d q x :
  unparked rel d q x ->
  (ct_released (qy_control x) = true -> parked x)
  /\ (ct_released (qy_control x) = false ->
      ct_destroyed (qy_control x) = false /\ touches_record (qy_control x) = false
      /\ parked (with_control (control_release false) x)).
Proof.
  intros [Hf HQ]. split; intros Hr.
  - split_and!; auto. intros i Hi. destruct (query_in_flight _ _ _ _ _ HQ Hi) as (HC & _ & _).
    rewrite (in_flight_unreleased rel i _ HC Hi) in Hr. discriminate.
  - assert (Ht : touches_record (qy_control x) = false).
    { unfold touches_record. destruct (qo_freed _ _ _ _ HQ Hf) as [-> |[-> |E]];
        [reflexivity | apply andb_false_r | congruence]. }
    split; [now rewrite (query_destroyed _ _ _ _ HQ)|]. split; [exact Ht|].
    split; [exact Hf|]. cbn [qy_control with_control].
    pose proof (steady_touches _ _ (steady_release false (qy_control x)) Ht) as Ht'.
    destruct (control_release_cases false (qy_control x)) as [[E _]|(_ & r & log & doks & E & _)]; [congruence|].
    rewrite E in *. cbn. auto.
Qed.

Lemma release_pending_ok rel qs d :
  (forall q x, dn_queries d !! q = Some x -> parked x \/ (q ∈ qs /\ unparked rel d q x)) ->
  Forall (fun q => q < length (dn_queries d)) qs ->
  exists d', release_pending qs d = Some d' /\ forall q x, dn_queries d' !! q = Some x -> parked x.
Proof.
  revert d. induction qs as [|q qs IH]; intros d HR HF; cbn [release_pending].
  { exists d. split; [reflexivity|]. intros q x Hx. destruct (HR q x Hx) as [|[Hin _]]; [auto | set_solver]. }
  apply Forall_cons in HF as [Hq HF]. apply lookup_lt_is_Some in Hq as [x Hx]. rewrite Hx. cbn [mbind option_bind].
  assert (Hrest : forall q' y, dn_queries d !! q' = Some y -> q' <> q -> parked y \/ (q' ∈ qs /\ unparked rel d q' y)).
  { intros q' y Hy Hne. destruct (HR q' y Hy) as [|[Hin Hu]]; [now left | right].
    split; [set_solver | exact Hu]. }
  destruct (ct_released (qy_control x)) eqn:Er.
  - apply IH; [|exact HF]. intros q' y Hy. destruct (decide (q' = q)) as [->|Hne]; [|auto].
    assert (y = x) as -> by congruence. left.
    destruct (HR q x Hx) as [|[_ Hu]]; [assumption | now apply (release_parks rel d q x)].
  - destruct (HR q x Hx) as [(_ & E & _)|[_ Hu]]; [congruence|].
    destruct (release_parks rel d q x Hu) as [_ Hp]. destruct (Hp Er) as (Hd & Ht & Hpk).
    unfold release_query. rewrite Hx. cbn [mbind option_bind]. rewrite Hd, Ht. cbn [andb].
    apply IH; [|eapply Forall_impl; [exact HF|]; intros q' Hlt; cbn; now rewrite length_alter].
    intros q' y Hy. cbn in Hy. destruct (decide (q = q')) as [<-|Hne].
    + rewrite list_lookup_alter_eq, Hx in Hy. injection Hy as <-. now left.
    + rewrite list_lookup_alter_ne in Hy by exact Hne.
      destruct (Hrest q' y Hy) as [|[Hin [Hf HQ]]]; auto.
Qed.

Lemma deinit_settles rel ess d :
  sound rel (length (dn_queries d)) ess d ->
  exists d', deinit d = Some d' /\ forall q x, dn_queries d' !! q = Some x -> parked x.
Proof.
  intros [HL HH HB HQ]. unfold deinit.
  destruct (deinit_caches_ok rel _ (dn_caches d) ess 0 d HH HB HQ) as (d1 & -> & HB1 & HQ1 & Hl).
  cbn [mbind option_bind]. apply (release_pending_ok rel).
  - cbn [dn_queries]. intros q x Hx. right. cbn in Hx. pose proof (lookup_lt_Some _ _ _ Hx) as Hlt.
    split; [apply elem_of_seq; cbn; lia|].
    assert (Hok : query_ok rel (dn_seen d1) q x)
      by (destruct (HQ1 q x Hx) as [[_ H1]|[H1 _]]; [exact H1 | lia]).
    split; [|exact Hok]. destruct (qy_freed x) eqn:Hf; [reflexivity|].
    destruct (bk_kept _ _ HB1 q x Hx Hf) as (es & He & Hin).
    apply lookup_replicate in He as [-> _]. set_solver.
  - rewrite Forall_forall. intros q Hq. apply elem_of_seq in Hq. cbn in *. lia.
Qed.

Lemma drain_ok late d :
  (forall q x, dn_queries d !! q = Some x -> parked x) ->
  exists d', drain late d = Some d' /\ forall q x, dn_queries d' !! q = Some x -> parked x.
Proof.
  revert d. induction late as [|[[[[q i] comp] ok] now] late IH]; intros d HP; cbn [drain]; [eauto|].
  unfold on_completion. destruct (dn_queries d !! q) as [x|] eqn:Hx; [|now apply IH].
  destruct (in_flight i (qy_control x)) eqn:Hi; cbn [negb]; [|now apply IH].
  destruct (HP q x Hx) as (Hf & Hr & Hin). destruct (Hin i Hi) as [Hd Ht]. rewrite Hd, Ht. cbn [andb mbind option_bind].
  apply IH. intros q' y Hy.
  set (d1 := match comp with CompData response => _ | _ => d end) in Hy.
  assert (E1 : dn_queries d1 = dn_queries d) by (unfold d1; destruct comp; [..|destruct (reads i _)]; reflexivity).
  clearbody d1.
  cbn in Hy. rewrite E1 in Hy. destruct (decide (q = q')) as [<-|Hne].
  - rewrite list_lookup_alter_eq, Hx in Hy. injection Hy as <-.
    pose proof (complete_steady false i comp ok (set_now now (qy_control x))) as HS.
    pose proof (steady_touches _ _ HS Ht) as Ht'. destruct HS as (_ & _ & _ & _ & HS & _).
    destruct (HS Hr) as [Hr' Hd']. split; [exact Hf|]. split; [exact Hr'|]. intros i' _.
    split; [cbn; rewrite Hd'; exact Hd | exact Ht'].
  - rewrite list_lookup_alter_ne in Hy by exact Hne. eauto.
Qed.

(** ** The resolver as a whole *)


(** The callbacks handed to the loop. *)
Definition handed (d : dns C) : list nat :=
  mjoin ((fun x => (ct_log (qy_control x)).*1) <$> dn_queries d) ++ dn_soon d.

(** Nothing is in flight. *)
Definition quiet_dns (d : dns C) : Prop :=
  forall q x i, dn_queries d !! q = Some x -> in_flight i (qy_control x) = false.

Lemma query_handed rel seen q x :
  query_ok rel seen q x ->
  (ct_log (qy_control x)).*1 `sublist_of` ct_callbacks (qy_control x)
  /\ (rel = true -> (forall i, in_flight i (qy_control x) = false) ->
      (ct_log (qy_control x)).*1 = ct_callbacks (qy_control x)).
Proof.
  intros HQ. destruct (qo_control _ _ _ _ HQ) as [HC|HD].
  2: { rewrite (de_log _ HD), (de_callbacks _ HD). split; [constructor | reflexivity]. }
  split.
  - destruct (ct_resolved (qy_control x)) eqn:Er; [now apply (cw_settled _ _ HC); left|].
    destruct (ct_released (qy_control x)) eqn:El; [now apply (cw_settled _ _ HC); right|].
    rewrite (cw_waiting _ _ HC); [apply sublist_nil_l|]. intros [E|E]; congruence.
  - intros Hrel Hq. apply (cw_settled _ _ HC); [|exact Hrel]. right.
    apply (no_work_left rel _ HC). intros i s Hs. specialize (Hq i). unfold in_flight in Hq.
    rewrite Hs in Hq. now destruct (sv_op s).
Qed.

Lemma join_fmap_submseteq {A} (f g : A -> list nat) (l : list A) :
  (forall i x, l !! i = Some x -> f x ⊆+ g x) -> mjoin (f <$> l) ⊆+ mjoin (g <$> l).
Proof.
  induction l as [|x l IH]; intros Hl; cbn; [reflexivity|].
  apply submseteq_app; [exact (Hl 0 x eq_refl) | apply IH; intros i y Hy; exact (Hl (S i) y Hy)].
Qed.

(** C9: every caller is answered: however lookups, reverse lookups, completions,
    failures and evictions follow one another, no callback is handed to the loop that
    was not accepted, nor more often than it was; and whenever nothing is in flight,
    the callbacks handed over are exactly those of the callers that were told to wait,
    those that joined a query of someone else included, provided the loop takes what it
    is handed and memory suffices to file the addresses of literal names. *)
Theorem every_lookup_answered (evs : list event) (d : dns C)
    (Hwf : Forall event_wf evs) (Hrun : run evs initial = Some d) :
  handed d ⊆+ dn_accepted d
  /\ (Forall event_reliable evs -> Forall event_seeds evs -> quiet_dns d ->
      handed d ≡ₚ dn_accepted d).
Proof.
  split.
  - destruct (history_ok false False evs Hwf) as (d' & E & HL); [discriminate | contradiction|].
    rewrite Hrun in E. injection E as <-. destruct HL as [(ess & HS) HA _ _].
    transitivity (registered d); [|exact HA]. apply submseteq_app; [|reflexivity].
    apply join_fmap_submseteq. intros q x Hx. apply sublist_submseteq.
    destruct (sd_queries _ _ _ _ HS q x Hx) as [[_ HQ]|[Hge _]]; [now apply (query_handed false (dn_seen d) q)|].
    apply lookup_lt_Some in Hx. lia.
  - intros Hre Hse Hq.
    destruct (history_ok true True evs Hwf) as (d' & E & HL); auto.
    rewrite Hrun in E. injection E as <-. destruct HL as [(ess & HS) _ HA _].
    rewrite <- HA by exact I. unfold handed, registered, waiting.
    erewrite list_fmap_ext; [reflexivity|]. intros q x Hx.
    destruct (sd_queries _ _ _ _ HS q x Hx) as [[_ HQ]|[Hge _]].
    + apply (query_handed true _ q x HQ); [reflexivity|]. intros i. exact (Hq q x i Hx).
    + apply lookup_lt_Some in Hx. lia.
Qed.

(** [a] is the address of a record in the answers of [response]. *)
Definition answers_with (response : bytes) (a : Address) : Prop :=
  exists r, r ∈ parse_answers (N.to_nat (u16_at response 6)) response (skip_question response)
            /\ rr_ptr_name r = None /\ rr_address r = a.

Lemma classify_records queries response records r :
  classify queries response = Answers records -> r ∈ records ->
  r ∈ parse_answers (N.to_nat (u16_at response 6)) response (skip_question response).
Proof.
  unfold classify. destruct (_ <? 2); [discriminate|]. destruct (list_find _ _) as [[? [? ?]]|]; [|discriminate].
  destruct (_ <? 12); [discriminate|]. cbn zeta.
  repeat match goal with |- context [if ?b then _ else _] => destruct b; try discriminate end.
  all: intros [= <-] Hin; first [exact Hin | set_solver].
Qed.

(** C11: no lookup returns what was not asked for: after any history (of lookups, reverse
    lookups of four or sixteen bytes, and completions), the addresses a
    lookup returns, from the cache or not, are those the name itself stands for
    (localhost and literals), or they come from one server of one query for this very
    name: each was in the answers of a datagram that was read from that server while the
    query had no result yet, that repeats the identifier and the question of one of the
    datagrams built for that server - a question about the name, or about the name in one
    of the search domains -, and that is a response without error and not truncated. *)
Theorem lookup_returns_what_was_asked (evs : list event) (d d' : dns C) (hostname : bytes)
    (callback : option nat) (en : environment) (l : list Address)
    (Hwf : Forall event_wf evs) (Hrun : run evs initial = Some d)
    (Hl : lookup hostname callback en d = Some (Found l, d')) :
  resolve_address (lowerString hostname) ipv6_supported 2 = Ok l
  \/ exists q i x s,
       dn_queries d' !! q = Some x /\ qy_hostname x = lowerString hostname
       /\ ct_servers (qy_control x) !! i = Some s
       /\ Forall (fun a => exists response id t h,
            received evs q i response
            /\ (id, query_bytes id t h) ∈ sv_queries s /\ u16_at response 0 = id
            /\ h ∈ hn_hostname <$> get_hostname_array (lowerString hostname) (search configuration)
            /\ parse_name response 12 = NameOk h
            /\ slice response (length h + 14) (length h + 18) = be16 (intFromEnum t) ++ be16 1
            /\ N.testbit (u16_at response 2) 15 = true /\ N.land (u16_at response 2) 0x000F = 0%N
            /\ N.testbit (u16_at response 2) 9 = false
            /\ answers_with response a) l.
Proof.
  destruct (history_ok false False evs Hwf) as (d0 & E & HL); [discriminate | contradiction|].
  rewrite Hrun in E. injection E as <-. destruct HL as [(ess & HS) _ _ Hseen].
  destruct (lookup_ok false ess d hostname callback en HS) as (a & d1 & E & (_ & _ & Hs) & Hv); [discriminate|].
  rewrite Hl in E. injection E as <- <-.
  destruct (Hv l eq_refl) as [Hr|(q & i & x & s & Hx & Hn & Hi & HA & HF)]; [now left|].
  right. exists q, i, x, s. split; [exact Hx|]. split; [exact Hn|]. split; [exact Hi|].
  eapply Forall_impl; [exact HF|]. intros y (r & (response & records & Hin & Hcl & Hr) & Hp & <-).
  destruct (accepted_answers_question (sv_queries s) response records)
    as (id & t & h & Hq & Hvh & Hid & Hnm & Hsl & H15 & _ & Hrc & H9); [|exact Hcl|].
  { eapply Forall_impl; [exact HA|]. intros z (t & h & _ & Hvh & Hz). eauto. }
  exists response, id, t, h. rewrite Hs in Hin.
  split; [exact (Hseen _ Hin)|]. split; [exact Hq|]. split; [exact Hid|].
  split; [|split_and!; auto; exists r; split; [now apply (classify_records (sv_queries s) response records) | auto]].
  rewrite Forall_forall in HA. destruct (HA _ Hq) as (t' & h' & Hh' & Hv' & Ey). cbn [fst snd] in Ey.
  destruct (read_query id t h [] Hvh) as [E1 _]. destruct (read_query id t' h' [] Hv') as [E2 _].
  rewrite Ey, E2 in E1. injection E1 as <-. exact Hh'.
Qed.
End Props.

(** ** Example histories

    A debug build on a host without resolv.conf entries, with the LRU cache. *)

Definition sample_content : bytes := [].

#[local] Instance sample_setup : DnsSetup := {
  is_debug := true;
  final name := N.of_nat (length name);
  configuration := MkConfiguration [Ip4 [x01; x01; x01; x01] 53] [];
  ipv6_supported := false }.

Lemma sample_configuration : parse_resolv_configuration sample_content = Ok configuration.
Proof. vm_compute. reflexivity. Qed.

#[local] Notation sample_dns := (dns (Lru.lru bytes entry)).

(** Everything succeeds, at time [now], with [ids] for the datagrams. *)
Definition fine (now : Z) (ids : list N) : environment :=
  Env now true true true true true true true true [Some ids] [] true [] [].

(** ["a.b"], and a response with one address record (or a PTR record) and its TTL. *)
Definition sample_name : bytes := [x61; x2e; x62].

Definition sample_response (name : bytes) (t : QuestionType) (data : bytes) (ttl : Byte.byte) : bytes :=
  be16 7 ++ be16 0x8180 ++ be16 1 ++ be16 1 ++ be16 0 ++ be16 0
  ++ drop 12 (query_bytes 7 t name)
  ++ [xc0; x0c] ++ be16 (intFromEnum t) ++ be16 1 ++ [x00; x00; x00; ttl]
  ++ be16 (N.of_nat (length data)) ++ data.

Definition sample_answer : bytes := sample_response sample_name q_ipv4 [x0a; x00; x00; x01] x05.

(** Two callers ask for the same name, a third for a literal; the query is sent and
    answered. *)
Definition sample_history : list event :=
  [EvLookup sample_name (Some 1) (fine 1000 [7%N]);
   EvLookup sample_name (Some 2) (fine 1000 []);
   EvLookup localhost (Some 3) (fine 1000 []);
   EvReverse (Ip4 [x08; x08; x08; x08] 0) 4 (fine 1000 [9%N]);
   EvCompletion 0 0 (CompData []) true 1000;
   EvCompletion 0 0 (CompData sample_answer) true 1001;
   EvCompletion 1 0 CompError true 1002].

Definition sample_state : sample_dns := default initial (run sample_history initial).

(** The value of an option that is known to be there. *)
Lemma some_default {A} (x : option A) a : bool_decide (is_Some x) = true -> x = Some (default a x).
Proof. intros H. apply bool_decide_eq_true in H as [y ->]. reflexivity. Qed.

Lemma sample_run : run sample_history initial = Some sample_state.
Proof. apply some_default. vm_compute. reflexivity. Qed.

Lemma sample_wf : Forall event_wf sample_history.
Proof. repeat constructor. Qed.


Lemma every_lookup_answered_witness :
  handed sample_state = [1; 2; 4] /\ dn_accepted sample_state = [1; 2; 4]
  /\ (handed sample_state ⊆+ dn_accepted sample_state
      /\ (Forall event_reliable sample_history -> Forall event_seeds sample_history ->
          quiet_dns sample_state -> handed sample_state ≡ₚ dn_accepted sample_state)).
Proof.
  split; [vm_compute; reflexivity|]. split; [vm_compute; reflexivity|].
  exact (every_lookup_answered sample_content sample_configuration sample_history sample_state
           sample_wf sample_run).
Defined.

Lemma lookup_returns_what_was_asked_witness :
  let r := lookup sample_name None (fine 1006 []) sample_state in
  (fst <$> r) = Some (Found [Ip4 [x0a; x00; x00; x01] 0])
  /\ (resolve_address (lowerString sample_name) ipv6_supported 2 = Ok [Ip4 [x0a; x00; x00; x01] 0]
      \/ exists q i x s,
           dn_queries (default (Null, initial) (lookup sample_name None (fine 1006 []) sample_state)).2
             !! q = Some x
           /\ qy_hostname x = lowerString sample_name
           /\ ct_servers (qy_control x) !! i = Some s
           /\ Forall (fun a => exists response id t h,
                received sample_history q i response
                /\ (id, query_bytes id t h) ∈ sv_queries s /\ u16_at response 0 = id
                /\ h ∈ hn_hostname <$> get_hostname_array (lowerString sample_name) (search configuration)
                /\ parse_name response 12 = NameOk h
                /\ slice response (length h + 14) (length h + 18) = be16 (intFromEnum t) ++ be16 1
                /\ N.testbit (u16_at response 2) 15 = true /\ N.land (u16_at response 2) 0x000F = 0%N
                /\ N.testbit (u16_at response 2) 9 = false
                /\ answers_with response a) [Ip4 [x0a; x00; x00; x01] 0]).
Proof.
  assert (Ha : (fst <$> lookup sample_name None (fine 1006 []) sample_state)
               = Some (Found [Ip4 [x0a; x00; x00; x01] 0])) by (vm_compute; reflexivity).
  pose proof (fun l d' => lookup_returns_what_was_asked sample_content sample_configuration
    sample_history sample_state d' sample_name None (fine 1006 []) l sample_wf sample_run) as H.
  cbn zeta. revert Ha H. generalize (lookup sample_name None (fine 1006 []) sample_state) as r.
  intros [[a d']|] Ha H; cbn [fmap option_fmap option_map fst snd default from_option id] in *;
    [|discriminate].
  injection Ha as ->. split; [reflexivity|]. exact (H _ _ eq_refl).
Defined.

(** *** Defects *)

(** The caller of a literal name whose addresses cannot be filed is told to wait, for a
    callback that nobody has. *)
Lemma unfiled_literal_forgotten :
  let no_memory := Env 1000 true true true false true true true true [] [] true [] [] in
  (fun r => (r.1, handed r.2, dn_queries r.2)) <$> lookup localhost (Some 1) no_memory (initial : sample_dns)
  = Some (Null, [], []).
Proof. vm_compute. reflexivity. Qed.

(** Without a callback nothing is filed, literal or not: the eviction test of
    dns/main.zig evicts nothing. *)
Lemma null_callback_files_nothing (hostname : bytes) (en : environment) :
  255 < length hostname
  \/ exists d', lookup hostname None en (initial : sample_dns) = Some (Null, d')
     /\ Forall2 cache_holds (replicate DNSCacheEntries []) (dn_caches d').
Proof.
  destruct (Nat.ltb_spec 255 (length hostname)) as [|Hle]; [now left | right].
  unfold lookup. rewrite (proj2 (Nat.ltb_ge _ _)) by exact Hle. cbn zeta.
  set (name := lowerString hostname). unfold cache_slot_get.
  assert (Hc : dn_caches (initial : sample_dns) !! get_cache_slot name = Some (cache_init 1024))
    by (apply lookup_replicate; split; [reflexivity | apply cache_slot_lt]).
  rewrite Hc. eexists. split; [reflexivity|].
  cbn [dn_caches initial]. rewrite <- (list_insert_id (replicate DNSCacheEntries []) (get_cache_slot name) []).
  - apply Forall2_insert; [apply Forall2_replicate|]; apply (cache_init_ok 1024); discriminate.
  - apply lookup_replicate. split; [reflexivity | apply cache_slot_lt].
Qed.

(** An answer with a TTL of zero is gone for the callback that looks it up once the
    clock has ticked: the lookup fails although it was answered. *)
Definition zero_ttl_history : list event :=
  [EvLookup sample_name (Some 1) (fine 1000 [7%N]);
   EvCompletion 0 0 (CompData []) true 1000;
   EvCompletion 0 0 (CompData (sample_response sample_name q_ipv4 [x0a; x00; x00; x01] x00)) true 1000].

Lemma zero_ttl_answer_lost :
  let d : option sample_dns := run zero_ttl_history initial in
  (handed <$> d) = Some [1]
  /\ (d ← d; fst <$> lookup sample_name None (fine 1000 []) d) = Some (Found [Ip4 [x0a; x00; x00; x01] 0])
  /\ (d ← d; fst <$> lookup sample_name None (fine 1001 []) d) = Some Null.
Proof. vm_compute. split_and!; reflexivity. Qed.

(** A lookup of the name a reverse lookup is asking about waits for the answer to the
    other question, and then finds no address. *)
Definition arpa_name : bytes :=
  match build_reverse_name (Ip4 [x08; x08; x08; x08] 0) 128 with Ok name => name | Err _ => [] end.

Definition joined_history : list event :=
  [EvReverse (Ip4 [x08; x08; x08; x08] 0) 1 (fine 1000 [7%N]);
   EvLookup arpa_name (Some 2) (fine 1000 [8%N]);
   EvCompletion 0 0 (CompData []) true 1000;
   EvCompletion 0 0 (CompData (sample_response arpa_name q_ptr [x01; x61; x00] x05)) true 1000].

Lemma lookup_joins_reverse_query :
  let d : option sample_dns := run joined_history initial in
  (handed <$> d) = Some [1; 2]
  /\ ((fun d => length (dn_queries d)) <$> d) = Some 1
  /\ (d ← d; fst <$> lookup arpa_name None (fine 1000 []) d) = Some Null.
Proof. vm_compute. split_and!; reflexivity. Qed.
