(* ===== verification/BTree.v ===== *)
(** * B-tree (src/src/utils/btree.zig)

    The ordered map that holds the descriptor watchers of the loop
    (src/src/loop/main.zig, degree 11) and the signal handlers (degree 3).  A node
    is its keys with the child left of each, and the last child; a missing child is
    [Null].  The [parent] pointers are the path from a node up to the root, so a
    function that follows them takes the node and its path.  Nodes are allocated
    one by one and an allocation may fail.  [None] is a write outside the arrays
    of a node, which hold [Degree] keys. *)

From stdpp Require Import base numbers list gmap sorting.
From Stdlib Require Import ZArith Lia.
From S2P Require Import Prelude.

Open Scope nat_scope.

Section BTree.
Context {V : Type}.
Variable Degree : nat.

Inductive tree : Type :=
| Null
| Node (items : list (tree * (Z * V))) (last : tree).

(** A node and the place of a child in it. *)
Inductive frame : Type :=
| FLeft (before : list (tree * (Z * V))) (kv : Z * V) (after : list (tree * (Z * V))) (last : tree)
| FLast (items : list (tree * (Z * V))).

Definition fill (f : frame) (t : tree) : list (tree * (Z * V)) * tree :=
  match f with
  | FLeft before kv after last => (before ++ (t, kv) :: after, last)
  | FLast items => (items, t)
  end.

Definition plug1 (f : frame) (t : tree) : tree := Node (fill f t).1 (fill f t).2.

Definition plug (p : list frame) (t : tree) : tree := foldl (fun t f => plug1 f t) t p.

(** A node and the frames above it. *)
Record location : Type := Loc {
  loc_items : list (tree * (Z * V));
  loc_last : tree;
  loc_path : list frame }.

Definition rebuild (l : location) : tree := plug (loc_path l) (Node (loc_items l) (loc_last l)).

(** ** Lookup *)

(** [get_value_ptr]: the value, and the node the search ended in. *)
Fixpoint search (key : Z) (t : tree) (path : list frame) : option V * location :=
  match t with
  | Null => (None, Loc [] Null path)
  | Node items last =>
      (fix scan (before l : list (tree * (Z * V))) : option V * location :=
         match l with
         | [] =>
             match last with
             | Null => (None, Loc items last path)
             | Node _ _ => search key last (FLast items :: path)
             end
         | (ch, (k, v)) :: after =>
             if (k =? key)%Z then (Some v, Loc items last path)
             else if (key <? k)%Z then
               match ch with
               | Null => (None, Loc items last path)
               | Node _ _ => search key ch (FLeft before (k, v) after last :: path)
               end
             else scan (before ++ [(ch, (k, v))]) after
         end) [] items
  end.

Definition get_value (key : Z) (t : tree) : option V := (search key t []).1.

(** [find_max_from_node] and [find_min_from_node]. *)
Fixpoint find_max (t : tree) (path : list frame) : option (Z * V) * location :=
  match t with
  | Null => (None, Loc [] Null path)
  | Node items lst =>
      match lst with
      | Null => (snd <$> last items, Loc items lst path)
      | Node _ _ => find_max lst (FLast items :: path)
      end
  end.

Fixpoint find_min (t : tree) : option (Z * V) :=
  match t with
  | Null => None
  | Node [] _ => None
  | Node ((ch, kv) :: _) _ =>
      match ch with Null => Some kv | Node _ _ => find_min ch end
  end.

(** ** Insertion *)

(** [do_insertion]; [None]: the node is full. *)
Fixpoint insert_item (key : Z) (value : V) (new_child : tree)
    (l : list (tree * (Z * V))) (last : tree) : list (tree * (Z * V)) * tree :=
  match l with
  | [] => ([(last, (key, value))], new_child)
  | (ch, (k, v)) :: rest =>
      if (key <? k)%Z then ((ch, (key, value)) :: (new_child, (k, v)) :: rest, last)
      else let r := insert_item key value new_child rest last in ((ch, (k, v)) :: r.1, r.2)
  end.

Definition do_insertion (key : Z) (value : V) (new_child : tree)
    (items : list (tree * (Z * V))) (last : tree) : option (list (tree * (Z * V)) * tree) :=
  if length items <? Degree then Some (insert_item key value new_child items last) else None.

Definition middle_index : nat := (Degree - 1) / 2.

Section Allocation.
(** Whether the allocation with this number succeeds. *)
Variable alloc_ok : nat -> bool.

(** [split_nodes]: up along the parents while the node is full.  [n] counts the
    allocations; the flag is [false] for [error.OutOfMemory]. *)
Fixpoint split_nodes (items : list (tree * (Z * V))) (last : tree) (path : list frame) (n : nat)
    : option (tree * nat * bool) :=
  if length items =? Degree then
    match drop middle_index items with
    | [] => None
    | (ch, (k, v)) :: rhs =>
        let lhs := take middle_index items in
        match path with
        | [] =>
            if alloc_ok n && alloc_ok (S n)
            then Some (Node [(Node lhs ch, (k, v))] (Node rhs last), S (S n), true)
            else Some (Node items last, if alloc_ok n then S (S n) else S n, false)
        | f :: path' =>
            if alloc_ok n then
              let parent := fill f (Node lhs ch) in
              '(pitems, plast) ← do_insertion k v (Node rhs last) parent.1 parent.2;
              split_nodes pitems plast path' (S n)
            else Some (plug path (Node items last), S n, false)
        end
    end
  else Some (plug path (Node items last), n, true).

Record btree : Type := BTree_ { root : tree; allocs : nat }.

Definition insert_in_node (key : Z) (value : V) (l : location) (b : btree)
    : option (btree * bool) :=
  '(items, last) ← do_insertion key value Null (loc_items l) (loc_last l);
  '(t, n, ok) ← split_nodes items last (loc_path l) (allocs b);
  Some (BTree_ t n, ok).

Definition insert (key : Z) (value : V) (b : btree) : option (btree * bool) :=
  match search key (root b) [] with
  | (Some _, _) => Some (b, false)
  | (None, l) => insert_in_node key value l b
  end.

(** Storing a value in the slot the search stopped at. *)
Fixpoint set_value (key : Z) (value : V) (items : list (tree * (Z * V))) : list (tree * (Z * V)) :=
  match items with
  | [] => []
  | (ch, (k, v)) :: rest =>
      if (k =? key)%Z then (ch, (k, value)) :: rest else (ch, (k, v)) :: set_value key value rest
  end.

(** [replace]: the previous value. *)
Definition replace (key : Z) (value : V) (b : btree) : option (btree * option V) :=
  match search key (root b) [] with
  | (Some prev, l) =>
      Some (BTree_ (rebuild (Loc (set_value key value (loc_items l)) (loc_last l) (loc_path l)))
              (allocs b), Some prev)
  | (None, l) => '(b, _) ← insert_in_node key value l b; Some (b, None)
  end.
End Allocation.

(** ** Deletion *)

(** [delete_from_left]: the greatest pair of a subtree and the subtree without
    it; a node left without keys is destroyed and its first child takes its
    place. *)
Fixpoint delete_max (t : tree) : option ((Z * V) * tree) :=
  match t with
  | Null => None
  | Node items lst =>
      match lst with
      | Null =>
          match last items with
          | None => None
          | Some (ch, kv) =>
              let rest := take (length items - 1) items in
              Some (kv, if length rest =? 0 then ch else Node rest ch)
          end
      | Node _ _ => '(kv, lst') ← delete_max lst; Some (kv, Node items lst')
      end
  end.

(** [delete_from_right]: the least pair. *)
Fixpoint delete_min (t : tree) : option ((Z * V) * tree) :=
  match t with
  | Null => None
  | Node [] _ => None
  | Node ((ch, kv) :: rest) lst =>
      match ch with
      | Null => Some (kv, if length rest =? 0 then lst else Node rest lst)
      | Node _ _ => '(kv', ch') ← delete_min ch; Some (kv', Node ((ch', kv) :: rest) lst)
      end
  end.

(** [delete_key_from_node] at [index]; an empty node that is not the root is
    destroyed. *)
Definition delete_key_from_node (index : nat) (l : location) : option tree :=
  '(ch, kv) ← loc_items l !! index;
  let before := take index (loc_items l) in
  let after := drop (S index) (loc_items l) in
  match ch with
  | Node _ _ =>
      '(kv', ch') ← delete_max ch;
      Some (plug (loc_path l) (Node (before ++ (ch', kv') :: after) (loc_last l)))
  | Null =>
      match after, loc_last l with
      | (Node i0 l0 as r, kv1) :: after', _ =>
          '(kv', r') ← delete_min r;
          Some (plug (loc_path l) (Node (before ++ (Null, kv') :: (r', kv1) :: after') (loc_last l)))
      | [], (Node i0 l0 as r) =>
          '(kv', r') ← delete_min r;
          Some (plug (loc_path l) (Node (before ++ [(Null, kv')]) r'))
      | _, _ =>
          match before ++ after, loc_path l with
          | [], [] => Some (Node [] (loc_last l))
          | [], _ => Some (plug (loc_path l) Null)
          | items, _ => Some (plug (loc_path l) (Node items (loc_last l)))
          end
      end
  end.

Fixpoint index_of_key (key : Z) (items : list (tree * (Z * V))) : option nat :=
  match items with
  | [] => None
  | (_, (k, _)) :: rest => if (key =? k)%Z then Some 0 else S <$> index_of_key key rest
  end.

Definition delete (key : Z) (b : btree) : option (btree * option V) :=
  match search key (root b) [] with
  | (None, _) => Some (b, None)
  | (Some v, l) =>
      match index_of_key key (loc_items l) with
      | Some i => t ← delete_key_from_node i l; Some (BTree_ t (allocs b), Some v)
      | None => Some (b, Some v)
      end
  end.

(** [pop]: the pair with the greatest key. *)
Definition pop (b : btree) : option (btree * option (Z * V)) :=
  match find_max (root b) [] with
  | (None, _) => Some (b, None)
  | (Some kv, l) =>
      t ← delete_key_from_node (length (loc_items l) - 1) l;
      Some (BTree_ t (allocs b), Some kv)
  end.

(** ** The pairs of a tree, from left to right *)

Fixpoint flat (t : tree) : list (Z * V) :=
  match t with
  | Null => []
  | Node items last =>
      (fix go (l : list (tree * (Z * V))) : list (Z * V) :=
         match l with [] => [] | (ch, kv) :: l' => flat ch ++ kv :: go l' end) items ++ flat last
  end.

Definition flat_items (l : list (tree * (Z * V))) : list (Z * V) :=
  concat (map (fun i => flat i.1 ++ [i.2]) l).

Lemma flat_node items last : flat (Node items last) = flat_items items ++ flat last.
Proof.
  cbn [flat]. f_equal. induction items as [|[ch kv] l IH]; [reflexivity|].
  unfold flat_items. cbn [map concat fst snd]. rewrite <- app_assoc. cbn [app]. by rewrite IH.
Qed.

Lemma flat_items_app a b : flat_items (a ++ b) = flat_items a ++ flat_items b.
Proof. unfold flat_items. by rewrite map_app, concat_app. Qed.

Lemma flat_items_cons ch kv l : flat_items ((ch, kv) :: l) = flat ch ++ kv :: flat_items l.
Proof. unfold flat_items. cbn [map concat fst snd]. by rewrite <- app_assoc. Qed.

Lemma flat_items_nil : flat_items [] = [].
Proof. reflexivity. Qed.

Lemma tree_ind' (P : tree -> Prop) :
  P Null ->
  (forall items last, Forall (fun i => P i.1) items -> P last -> P (Node items last)) ->
  forall t, P t.
Proof.
  intros H0 H1. fix IH 1. intros [|items last]; [exact H0|]. apply H1; [|apply IH].
  induction items as [|[ch kv] l IHl]; constructor; [apply IH | exact IHl].
Qed.

(** What stands left and right of a node's place. *)
Definition left_of (f : frame) : list (Z * V) :=
  match f with FLeft before _ _ _ => flat_items before | FLast items => flat_items items end.

Definition right_of (f : frame) : list (Z * V) :=
  match f with FLeft _ kv after last => kv :: flat_items after ++ flat last | FLast _ => [] end.

Definition lefts (p : list frame) : list (Z * V) := foldl (fun l f => left_of f ++ l) [] p.
Definition rights (p : list frame) : list (Z * V) := concat (map right_of p).

Lemma lefts_cons f p : lefts (f :: p) = lefts p ++ left_of f.
Proof.
  unfold lefts. cbn [foldl]. rewrite app_nil_r.
  assert (H : forall l, foldl (fun l f => left_of f ++ l) l p = foldl (fun l f => left_of f ++ l) [] p ++ l).
  { induction p as [|g p IH]; intros l; cbn [foldl]; [reflexivity|].
    rewrite (IH (left_of g ++ l)), (IH (left_of g ++ [])), app_nil_r, app_assoc. reflexivity. }
  apply H.
Qed.

Lemma flat_plug1 f t : flat (plug1 f t) = left_of f ++ flat t ++ right_of f.
Proof.
  unfold plug1. rewrite flat_node. destruct f as [before kv after lst|items]; cbn [fill fst snd left_of right_of].
  - by rewrite flat_items_app, flat_items_cons, <- !app_assoc.
  - by rewrite app_nil_r.
Qed.

Lemma flat_plug p : forall t, flat (plug p t) = lefts p ++ flat t ++ rights p.
Proof.
  induction p as [|f p IH]; intros t; [cbn; by rewrite app_nil_r|].
  change (plug (f :: p) t) with (plug p (plug1 f t)). rewrite IH, flat_plug1, lefts_cons.
  unfold rights. cbn [map concat]. by rewrite <- !app_assoc.
Qed.

(** *** Order *)

Definition sorted (l : list (Z * V)) : Prop := StronglySorted (fun x y => (x.1 < y.1)%Z) l.
Definition below (k : Z) (l : list (Z * V)) : Prop := Forall (fun x => (x.1 < k)%Z) l.
Definition above (k : Z) (l : list (Z * V)) : Prop := Forall (fun x => (k < x.1)%Z) l.

Lemma sorted_app a b :
  sorted (a ++ b) <-> sorted a /\ sorted b /\ Forall (fun x => above x.1 b) a.
Proof.
  unfold sorted, above. induction a as [|x a IH]; cbn [app].
  - split; [intros H; repeat split; auto; constructor | tauto].
  - split.
    + intros H. inversion_clear H as [|? ? Hs Hf]. apply IH in Hs as (H1 & H2 & H3).
      apply Forall_app in Hf as [F1 F2]. split; [by constructor|]. split; [exact H2|]. by constructor.
    + intros (H1 & H2 & H3). inversion_clear H1 as [|? ? Hs Hf]. inversion_clear H3 as [|? ? F1 F2].
      constructor; [by apply IH | by apply Forall_app].
Qed.

Lemma sorted_mid a k v b : sorted (a ++ (k, v) :: b) <-> sorted (a ++ b) /\ below k a /\ above k b.
Proof.
  rewrite !sorted_app. unfold below, above. split.
  - intros (H1 & H2 & H3). inversion_clear H2 as [|? ? Hs Hf].
    split; [split; [exact H1|]; split; [exact Hs|] |].
    + eapply Forall_impl; [exact H3|]. intros x Hx. by inversion_clear Hx.
    + split; [|exact Hf]. eapply Forall_impl; [exact H3|]. intros x Hx. by inversion_clear Hx.
  - intros ((H1 & H2 & H3) & H4 & H5). split; [exact H1|]. split; [by constructor|].
    rewrite Forall_forall in *. intros x Hx. constructor; [by apply H4 | by apply H3].
Qed.

(** The map of a list of pairs. *)
Definition to_map (l : list (Z * V)) : gmap Z V := list_to_map l.

Lemma to_map_gap k a b : below k a -> above k b -> to_map (a ++ b) !! k = None.
Proof.
  unfold below, above. intros Ha Hb. apply not_elem_of_list_to_map_1. rewrite fmap_app, elem_of_app.
  intros [H|H]; apply list_elem_of_fmap in H as (x & -> & Hx); [rewrite Forall_forall in Ha | rewrite Forall_forall in Hb];
    [specialize (Ha _ Hx) | specialize (Hb _ Hx)]; lia.
Qed.

Lemma to_map_mid k v a b : below k a -> to_map (a ++ (k, v) :: b) = <[k := v]> (to_map (a ++ b)).
Proof.
  intros Ha. unfold to_map. induction Ha as [|[k' v'] a Hk Ha IH]; [reflexivity|].
  cbn [app list_to_map foldr uncurry]. cbn in IH |- *. rewrite IH. apply insert_insert_ne. cbn in Hk. lia.
Qed.

Lemma to_map_delete k v a b :
  below k a -> above k b -> to_map (a ++ b) = base.delete k (to_map (a ++ (k, v) :: b)).
Proof.
  intros Ha Hb. rewrite to_map_mid by exact Ha. rewrite delete_insert_id; [reflexivity|].
  by apply to_map_gap.
Qed.

(** ** Well-formed trees *)

Inductive wf : tree -> Prop :=
| wf_null : wf Null
| wf_node items last :
    0 < length items < Degree -> Forall (fun i => wf i.1) items -> wf last -> wf (Node items last).

(** The root may be empty. *)
Definition wf_root (t : tree) : Prop := t = Node [] Null \/ (t <> Null /\ wf t).

Definition wf_frame (f : frame) : Prop := forall t, wf t -> wf (plug1 f t).

Lemma wf_items items last :
  wf (Node items last) -> 0 < length items < Degree /\ Forall (fun i => wf i.1) items /\ wf last.
Proof. by inversion 1. Qed.

Lemma wf_frame_left before ch kv after last :
  wf (Node (before ++ (ch, kv) :: after) last) -> wf_frame (FLeft before kv after last).
Proof.
  intros H t Ht. apply wf_items in H as (Hl & Hi & Hlast). unfold plug1. cbn [fill fst snd].
  rewrite length_app in Hl. cbn [length] in Hl. apply Forall_app in Hi as [H1 H2]. inversion_clear H2 as [|? ? H3 H4].
  constructor; [rewrite length_app; cbn [length]; lia | | exact Hlast].
  apply Forall_app. split; [exact H1 | by constructor].
Qed.

Lemma wf_frame_last items last : wf (Node items last) -> wf_frame (FLast items).
Proof.
  intros H t Ht. apply wf_items in H as (Hl & Hi & _). unfold plug1. cbn [fill fst snd]. by constructor.
Qed.

Lemma wf_plug p : forall t, Forall wf_frame p -> wf t -> wf (plug p t).
Proof.
  induction p as [|f p IH]; intros t Hp Ht; [exact Ht|]. inversion_clear Hp as [|? ? Hf Hp'].
  change (plug (f :: p) t) with (plug p (plug1 f t)). auto.
Qed.

Lemma plug_not_null p : forall f t, plug (f :: p) t <> Null.
Proof.
  induction p as [|g p IH]; intros f t; [discriminate|].
  change (plug (f :: g :: p) t) with (plug (g :: p) (plug1 f t)). apply IH.
Qed.

(** ** Lookup *)

(** Where a search for [key] ends. *)
Record ended (key : Z) (t : tree) (path : list frame) (r : option V) (l : location) : Prop := {
  en_rebuild : rebuild l = plug path t;
  en_frames : wf t -> Forall wf_frame path -> Forall wf_frame (loc_path l);
  en_node : wf t -> wf (Node (loc_items l) (loc_last l));
  en_left : below key (lefts (loc_path l));
  en_right : above key (rights (loc_path l));
  en_found : forall v, r = Some v ->
    exists a ch b, loc_items l = a ++ (ch, (key, v)) :: b;
  en_gap : r = None ->
    exists a b, loc_items l = a ++ b /\ below key (flat_items a)
      /\ ((b = [] /\ loc_last l = Null)
          \/ exists kv b', b = (Null, kv) :: b' /\ above key (kv :: flat_items b' ++ flat (loc_last l))) }.

(** The loop over the keys of a node. *)
Definition scan (key : Z) (items : list (tree * (Z * V))) (last : tree) (path : list frame) :=
  fix scan (before l : list (tree * (Z * V))) : option V * location :=
    match l with
    | [] =>
        match last with
        | Null => (None, Loc items last path)
        | Node _ _ => search key last (FLast items :: path)
        end
    | (ch, (k, v)) :: after =>
        if (k =? key)%Z then (Some v, Loc items last path)
        else if (key <? k)%Z then
          match ch with
          | Null => (None, Loc items last path)
          | Node _ _ => search key ch (FLeft before (k, v) after last :: path)
          end
        else scan (before ++ [(ch, (k, v))]) after
    end.

Lemma search_node key items last path :
  search key (Node items last) path = scan key items last path [] items.
Proof. reflexivity. Qed.

Lemma ended_down key t ch path f r l :
  (wf t -> wf ch /\ wf_frame f) -> plug1 f ch = t -> ended key ch (f :: path) r l ->
  ended key t path r l.
Proof.
  intros Hw Hp [E1 E2 E3 E4 E5 E6 E7]. split; auto.
  - rewrite E1. change (plug (f :: path) ch) with (plug path (plug1 f ch)). by rewrite Hp.
  - intros Ht Hpath. destruct (Hw Ht) as [H1 H2]. apply E2; [exact H1 | by constructor].
  - intros Ht. apply E3, Hw, Ht.
Qed.

Lemma search_spec key t : forall path,
  t <> Null -> sorted (flat t) -> below key (lefts path) -> above key (rights path) ->
  ended key t path (search key t path).1 (search key t path).2.
Proof.
  induction t as [|items last IHi IHl] using tree_ind'; intros path Ht Hs HL HR; [by destruct Ht|].
  rewrite search_node. rewrite flat_node in Hs.
  assert (Hscan : forall l before, items = before ++ l -> below key (flat_items before) ->
    ended key (Node items last) path (scan key items last path before l).1 (scan key items last path before l).2).
  2:{ apply (Hscan items []); [reflexivity | constructor]. }
  assert (Hhere : forall r, (forall v, r = Some v -> exists a ch b, items = a ++ (ch, (key, v)) :: b) ->
     (r = None -> exists a b, items = a ++ b /\ below key (flat_items a)
      /\ ((b = [] /\ last = Null) \/ exists kv b', b = (Null, kv) :: b' /\ above key (kv :: flat_items b' ++ flat last))) ->
     ended key (Node items last) path r (Loc items last path)).
  { intros r Hf Hg. split; auto. }
  induction l as [|[ch [k v]] after IH]; intros before Hit Hb; cbn [scan].
  - rewrite app_nil_r in Hit. destruct last as [|litems llast] eqn:El.
    + apply Hhere; [discriminate|]. intros _. exists items, []. rewrite app_nil_r. subst items. auto.
    + apply (ended_down key _ last path (FLast items)); subst last.
      * intros Hw. split; [by apply wf_items in Hw as (_ & _ & ?) | exact (wf_frame_last _ _ Hw)].
      * reflexivity.
      * apply IHl; [discriminate | | |].
        -- by apply sorted_app in Hs as (_ & ? & _).
        -- rewrite lefts_cons. apply Forall_app. split; [exact HL | subst items; exact Hb].
        -- exact HR.
  - assert (Hsplit : flat_items items ++ flat last
      = (flat_items before ++ flat ch) ++ (k, v) :: flat_items after ++ flat last).
    { rewrite Hit, flat_items_app, flat_items_cons, <- !app_assoc. reflexivity. }
    rewrite Hsplit in Hs. pose proof Hs as Hs'. apply sorted_mid in Hs' as (_ & Hbk & Hak).
    apply Forall_app in Hbk as [Hb1 Hb2].
    destruct (Z.eqb_spec k key) as [->|Hne].
    + apply Hhere; [|discriminate]. intros w [= <-]. by exists before, ch, after.
    + destruct (Z.ltb_spec key k) as [Hlt|Hge].
      * assert (Habove : above key ((k, v) :: flat_items after ++ flat last)).
        { constructor; [exact Hlt|]. eapply Forall_impl; [exact Hak|]. cbn. intros; lia. }
        destruct ch as [|citems clast] eqn:Ec.
        -- apply Hhere; [discriminate|]. intros _. exists before, ((Null, (k, v)) :: after).
           split; [exact Hit|]. split; [exact Hb|]. right. eauto.
        -- apply (ended_down key _ ch path (FLeft before (k, v) after last)); subst ch.
           ++ intros Hw. rewrite Hit in Hw. split; [|exact (wf_frame_left _ _ _ _ _ Hw)].
              apply wf_items in Hw as (_ & Hi & _). apply Forall_app in Hi as [_ Hi]. by inversion_clear Hi.
           ++ unfold plug1. cbn [fill fst snd]. by rewrite Hit.
           ++ rewrite Hit in IHi. apply Forall_app in IHi as [_ Hi]. inversion_clear Hi as [|? ? Hc _].
              apply Hc; [discriminate | | |].
              ** apply sorted_app in Hs as (Hs & _ & _). by apply sorted_app in Hs as (_ & ? & _).
              ** rewrite lefts_cons. by apply Forall_app.
              ** unfold rights. cbn [map concat]. by apply Forall_app.
      * apply IH; [by rewrite Hit, <- app_assoc|].
        rewrite flat_items_app, flat_items_cons. apply Forall_app. split; [exact Hb|].
        apply Forall_app. split; [eapply Forall_impl; [exact Hb2|]; cbn; intros; lia|].
        constructor; [cbn; lia | constructor].
Qed.

(** ** Insertion *)

(** The degrees the type accepts: odd, greater than one. *)
Definition degree_ok : Prop := 1 < Degree /\ Nat.odd Degree = true.

Lemma middle_spec : degree_ok -> Degree = S (2 * middle_index) /\ 1 <= middle_index.
Proof.
  intros [H1 H2]. apply Nat.odd_spec in H2 as [m Hm]. unfold middle_index.
  assert (E : (Degree - 1) / 2 = m).
  { rewrite Hm. replace (2 * m + 1 - 1) with (m * 2) by lia. apply Nat.div_mul. lia. }
  rewrite E. lia.
Qed.

Lemma insert_item_split key value new a b last :
  Forall (fun i => (i.2.1 <= key)%Z) a ->
  match b with
  | [] => insert_item key value new (a ++ b) last = (a ++ [(last, (key, value))], new)
  | (ch, kv) :: b' =>
      (key < kv.1)%Z ->
      insert_item key value new (a ++ b) last = (a ++ (ch, (key, value)) :: (new, kv) :: b', last)
  end.
Proof.
  induction a as [|[ch [k v]] a IH]; intros Ha; cbn [app insert_item].
  - destruct b as [|[ch [k v]] b']; [reflexivity|]. cbn. intros H.
    by rewrite (proj2 (Z.ltb_lt key k)).
  - inversion_clear Ha as [|? ? Hk Ha']. cbn in Hk. specialize (IH Ha').
    rewrite (proj2 (Z.ltb_ge key k)) by lia.
    destruct b as [|[ch' [k' v']] b']; [by rewrite IH|]. intros H. by rewrite (IH H).
Qed.

Lemma item_in_flat i items : i ∈ items -> i.2 ∈ flat_items items.
Proof.
  intros H. apply list_elem_of_split in H as (a & b & ->). destruct i as [ch kv].
  rewrite flat_items_app, flat_items_cons. apply elem_of_app. right. apply elem_of_app. right. left.
Qed.

Lemma keys_below key items : below key (flat_items items) -> Forall (fun i => (i.2.1 <= key)%Z) items.
Proof.
  intros H. apply Forall_forall. intros i Hi. apply item_in_flat in Hi.
  unfold below in H. rewrite Forall_forall in H. specialize (H _ Hi). lia.
Qed.

Section Splits.
Variable alloc_ok : nat -> bool.

(** A node that may be full by one key. *)
Definition grown (items : list (tree * (Z * V))) (last : tree) : Prop :=
  0 < length items <= Degree /\ Forall (fun i => wf i.1) items /\ wf last.

(** The middle key goes up into the parent, next to the node it came from. *)
Lemma insert_up f node k v new :
  wf node -> wf new -> wf_frame f -> below k (left_of f) -> above k (right_of f) ->
  exists items last, do_insertion k v new (fill f node).1 (fill f node).2 = Some (items, last)
    /\ grown items last
    /\ flat_items items ++ flat last = left_of f ++ (flat node ++ (k, v) :: flat new) ++ right_of f.
Proof.
  intros Hn Hw Hf Hl Hr. pose proof (wf_items _ _ (Hf node Hn)) as (Hlen & Hi & Hlast).
  unfold do_insertion. rewrite (proj2 (Nat.ltb_lt _ _)) by lia.
  destruct f as [before kv after lst|items]; cbn [fill fst snd left_of right_of] in *.
  - pose proof (insert_item_split k v new before ((node, kv) :: after) lst (keys_below _ _ Hl)) as E.
    cbn in E. inversion_clear Hr as [|? ? Hk _]. specialize (E Hk). rewrite E.
    eexists _, _. split; [reflexivity|]. rewrite length_app in Hlen. cbn [length] in Hlen.
    apply Forall_app in Hi as [Hi1 Hi2]. inversion_clear Hi2 as [|? ? Hi3 Hi4].
    split; [split; [rewrite length_app; cbn [length]; lia|]; split; [|exact Hlast]|].
    + apply Forall_app. split; [exact Hi1|]. by repeat constructor.
    + rewrite flat_items_app, !flat_items_cons, <- !app_assoc. cbn [app]. by rewrite <- ?app_assoc.
  - pose proof (insert_item_split k v new items [] node (keys_below _ _ Hl)) as E.
    rewrite app_nil_r in E. rewrite E. eexists _, _. split; [reflexivity|].
    split; [split; [rewrite length_app; cbn [length]; lia|]; split; [|exact Hw]|].
    + apply Forall_app. split; [exact Hi|]. by repeat constructor.
    + rewrite flat_items_app, flat_items_cons, flat_items_nil, app_nil_r, <- !app_assoc. reflexivity.
Qed.

(** Splitting keeps the pairs, and ends with no full node unless an allocation
    failed. *)
Lemma split_nodes_ok path : forall items last n,
  degree_ok -> grown items last -> Forall wf_frame path ->
  sorted (flat (plug path (Node items last))) ->
  exists t n' ok, split_nodes alloc_ok items last path n = Some (t, n', ok)
    /\ flat t = flat (plug path (Node items last))
    /\ (ok = true -> wf_root t)
    /\ ((forall i, alloc_ok i = true) -> ok = true).
Proof.
  induction path as [|f path IH]; intros items lst n Hd (Hlen & Hi & Hlast) Hp Hs;
    destruct (middle_spec Hd) as [HD Hm]; cbn [split_nodes];
    (destruct (Nat.eqb_spec (length items) Degree) as [Hfull|Hroom];
     [|eexists _, n, true; split; [reflexivity|]; split; [reflexivity|]; split; [|auto]; intros _; right]).
  2:{ split; [discriminate|]. constructor; [lia | exact Hi | exact Hlast]. }
  3:{ split; [apply plug_not_null|]. apply wf_plug; [exact Hp|]. constructor; [lia | exact Hi | exact Hlast]. }
  all: pose proof (take_drop middle_index items) as Htd.
  all: assert (Hdrop : length (drop middle_index items) = S middle_index) by (rewrite length_drop; lia).
  all: assert (Htake : length (take middle_index items) = middle_index) by (rewrite length_take; lia).
  all: destruct (drop middle_index items) as [|[ch [k v]] rhs]; [discriminate|]; cbn [length] in Hdrop.
  all: set (lhs := take middle_index items) in *.
  all: rewrite <- Htd in Hi; apply Forall_app in Hi as [Hi1 Hi2]; inversion_clear Hi2 as [|? ? Hch Hi3].
  all: assert (HL : wf (Node lhs ch)) by (constructor; [lia | exact Hi1 | exact Hch]).
  all: assert (HR : wf (Node rhs lst)) by (constructor; [lia | exact Hi3 | exact Hlast]).
  all: assert (Hfl : flat (Node items lst) = flat (Node lhs ch) ++ (k, v) :: flat (Node rhs lst))
    by (rewrite <- Htd, !flat_node, flat_items_app, flat_items_cons, <- !app_assoc; reflexivity).
  - cbn zeta. destruct (alloc_ok n && alloc_ok (S n)) eqn:Ea.
    + eexists _, _, true. split; [reflexivity|]. split.
      * cbn [plug foldl]. rewrite Hfl, flat_node, flat_items_cons, flat_items_nil, <- app_assoc. reflexivity.
      * split; [|auto]. intros _. right. split; [discriminate|].
        constructor; [cbn [length]; lia | constructor; [exact HL | constructor] | exact HR].
    + eexists _, _, false. split; [reflexivity|]. split; [reflexivity|]. split; [discriminate|].
      intros Hal. by rewrite !Hal in Ea.
  - cbn zeta. inversion_clear Hp as [|? ? Hf Hp'].
    destruct (alloc_ok n) eqn:Ea.
    2:{ eexists _, _, false. split; [reflexivity|]. split; [reflexivity|]. split; [discriminate|].
        intros Hal. by rewrite Hal in Ea. }
    change (plug (f :: path) (Node items lst)) with (plug path (plug1 f (Node items lst))) in *.
    rewrite flat_plug, flat_plug1, Hfl in Hs.
    assert (Hs' : sorted ((lefts path ++ left_of f ++ flat (Node lhs ch)) ++ (k, v) :: flat (Node rhs lst) ++ right_of f ++ rights path)).
    { revert Hs. rewrite <- !app_assoc. cbn [app]. by rewrite <- ?app_assoc. }
    apply sorted_mid in Hs' as (_ & Hb & Ha).
    apply Forall_app in Hb as [_ Hb]. apply Forall_app in Hb as [Hb _].
    apply Forall_app in Ha as [_ Ha]. apply Forall_app in Ha as [Ha _].
    destruct (insert_up f (Node lhs ch) k v (Node rhs lst) HL HR Hf Hb Ha) as (pi & pl & -> & Hg & Hfp).
    cbn [mbind option_bind].
    assert (Hsame : flat (plug path (Node pi pl)) = flat (plug path (plug1 f (Node items lst)))).
    { rewrite !flat_plug, flat_plug1, Hfl, flat_node, Hfp. reflexivity. }
    destruct (IH pi pl (S n) Hd Hg Hp') as (t & n' & ok & -> & H1 & H2 & H3).
    + rewrite Hsame, flat_plug, flat_plug1, Hfl. exact Hs.
    + exists t, n', ok. split; [reflexivity|]. split; [by rewrite H1|]. auto.
Qed.

(** What a search in a whole tree gives. *)
Record found_at (key : Z) (t : tree) (r : option V) (l : location) : Prop := {
  fa_rebuild : rebuild l = t;
  fa_frames : Forall wf_frame (loc_path l);
  fa_node : (loc_path l = [] /\ loc_items l = [] /\ loc_last l = Null)
            \/ wf (Node (loc_items l) (loc_last l));
  fa_some : forall v, r = Some v -> exists a ch b, loc_items l = a ++ (ch, (key, v)) :: b;
  fa_none : r = None ->
    exists a b, loc_items l = a ++ b /\ below key (flat_items a)
      /\ above key (flat_items b ++ flat (loc_last l))
      /\ ((b = [] /\ loc_last l = Null) \/ exists kv b', b = (Null, kv) :: b');
  fa_left : below key (lefts (loc_path l));
  fa_right : above key (rights (loc_path l)) }.

Lemma search_root key t :
  wf_root t -> sorted (flat t) -> found_at key t (search key t []).1 (search key t []).2.
Proof.
  intros [->|[Hn Hw]] Hs.
  - cbn. split; cbn; try done; try constructor; [done|].
    intros _. exists [], []. split; [done|]. split; [constructor|]. split; [constructor | by left].
  - destruct (search_spec key t [] Hn Hs) as [E1 E2 E3 E4 E5 E6 E7]; [constructor | constructor|].
    specialize (E2 Hw (Forall_nil_2 _)). split; auto.
    + intros Hr. destruct (E7 Hr) as (a & b & Hl & Hb & Hg). exists a, b. split; [exact Hl|]. split; [exact Hb|].
      destruct Hg as [[-> Hlast]|(kv & b' & -> & Ha)].
      * rewrite Hlast. split; [constructor | by left].
      * split; [|eauto]. rewrite flat_items_cons. exact Ha.
Qed.

(** The pairs on both sides of the key. *)
Lemma found_pairs key t v l :
  found_at key t (Some v) l -> sorted (flat t) ->
  exists a ch b, loc_items l = a ++ (ch, (key, v)) :: b
    /\ flat t = ((lefts (loc_path l) ++ flat_items a) ++ flat ch) ++ (key, v) :: (flat_items b ++ flat (loc_last l)) ++ rights (loc_path l)
    /\ below key ((lefts (loc_path l) ++ flat_items a) ++ flat ch)
    /\ above key ((flat_items b ++ flat (loc_last l)) ++ rights (loc_path l)).
Proof.
  intros F Hs. destruct (fa_some _ _ _ _ F v eq_refl) as (a & ch & b & Hl). exists a, ch, b. split; [exact Hl|].
  assert (E : flat t = ((lefts (loc_path l) ++ flat_items a) ++ flat ch) ++ (key, v) :: (flat_items b ++ flat (loc_last l)) ++ rights (loc_path l)).
  { rewrite <- (fa_rebuild _ _ _ _ F). unfold rebuild.
    rewrite flat_plug, flat_node, Hl, flat_items_app, flat_items_cons, <- !app_assoc. cbn [app]. by rewrite <- ?app_assoc. }
  split; [exact E|]. rewrite E in Hs. apply sorted_mid in Hs as (_ & H1 & H2). auto.
Qed.

(** The gap the key belongs in. *)
Lemma gap_pairs key t l :
  found_at key t None l ->
  exists a b, loc_items l = a ++ b
    /\ flat t = (lefts (loc_path l) ++ flat_items a) ++ (flat_items b ++ flat (loc_last l)) ++ rights (loc_path l)
    /\ below key (lefts (loc_path l) ++ flat_items a)
    /\ above key ((flat_items b ++ flat (loc_last l)) ++ rights (loc_path l))
    /\ ((b = [] /\ loc_last l = Null) \/ exists kv b', b = (Null, kv) :: b').
Proof.
  intros F. destruct (fa_none _ _ _ _ F eq_refl) as (a & b & Hl & Hb & Ha & Hg). exists a, b. split; [exact Hl|].
  split; [|split; [|split; [|exact Hg]]].
  - rewrite <- (fa_rebuild _ _ _ _ F). unfold rebuild. by rewrite flat_plug, flat_node, Hl, flat_items_app, <- !app_assoc.
  - apply Forall_app. split; [apply (fa_left _ _ _ _ F) | exact Hb].
  - apply Forall_app. split; [exact Ha | apply (fa_right _ _ _ _ F)].
Qed.

(** Lookup is the lookup of the map. *)
Lemma search_lookup key t :
  wf_root t -> sorted (flat t) -> (search key t []).1 = to_map (flat t) !! key.
Proof.
  intros Hw Hs. pose proof (search_root key t Hw Hs) as F. destruct (search key t []) as [[v|] l]; cbn [fst snd] in *.
  - destruct (found_pairs _ _ _ _ F Hs) as (a & ch & b & _ & -> & Hb & _).
    rewrite to_map_mid by exact Hb. by rewrite lookup_insert_eq.
  - destruct (gap_pairs _ _ _ F) as (a & b & _ & -> & Hb & Ha & _). symmetry. by apply to_map_gap.
Qed.

Lemma insert_in_node_ok key value l b :
  degree_ok -> found_at key (root b) None l -> sorted (flat (root b)) ->
  exists b' ok, insert_in_node alloc_ok key value l b = Some (b', ok)
    /\ sorted (flat (root b')) /\ to_map (flat (root b')) = <[key := value]> (to_map (flat (root b)))
    /\ (ok = true -> wf_root (root b'))
    /\ ((forall i, alloc_ok i = true) -> ok = true).
Proof.
  intros Hd F Hs. destruct (middle_spec Hd) as [HD Hm].
  destruct (gap_pairs _ _ _ F) as (a & c & Hl & Hflat & Hb & Ha & Hg).
  assert (Hins : exists items last, do_insertion key value Null (loc_items l) (loc_last l) = Some (items, last)
    /\ grown items last /\ flat_items items ++ flat last
       = flat_items a ++ (key, value) :: flat_items c ++ flat (loc_last l)).
  { assert (Hlen : length (loc_items l) < Degree /\ Forall (fun i => wf i.1) (loc_items l) /\ wf (loc_last l)).
    { destruct (fa_node _ _ _ _ F) as [(_ & -> & ->)|Hw]; [cbn; repeat constructor; lia|].
      apply wf_items in Hw as (? & ? & ?). repeat split; auto; lia. }
    destruct Hlen as (Hlen & Hi & Hlast). unfold do_insertion. rewrite (proj2 (Nat.ltb_lt _ _) Hlen).
    eexists _, _. split; [by rewrite <- surjective_pairing|].
    pose proof (fun H => insert_item_split key value Null a c (loc_last l) H) as E.
    specialize (E (keys_below _ _ (proj2 (proj1 (Forall_app _ _ _) Hb)))). rewrite <- Hl in E.
    rewrite Hl, length_app in Hlen. rewrite Hl in Hi. apply Forall_app in Hi as [Hi1 Hi2].
    destruct Hg as [[-> Hnull]|(kv & c' & ->)].
    - rewrite E, Hnull. cbn [fst snd]. cbn [length] in Hlen. split.
      + split; [rewrite length_app; cbn [length]; lia|]. split; [|constructor].
        apply Forall_app. split; [exact Hi1|]. repeat constructor.
      + by rewrite flat_items_app, flat_items_cons, flat_items_nil, app_nil_r.
    - rewrite flat_items_cons in Ha. inversion Ha as [|? ? Hk _]; subst. rewrite (E Hk). cbn [fst snd].
      cbn [length] in Hlen. inversion_clear Hi2 as [|? ? _ Hi3]. split.
      + split; [rewrite length_app; cbn [length]; lia|]. split; [|exact Hlast].
        apply Forall_app. split; [exact Hi1|]. repeat constructor. exact Hi3.
      + rewrite flat_items_app, !flat_items_cons, <- !app_assoc. reflexivity. }
  destruct Hins as (items & last & Hdo & Hgr & Hfi). unfold insert_in_node. rewrite Hdo. cbn [mbind option_bind].
  assert (Hnew : flat (plug (loc_path l) (Node items last))
    = (lefts (loc_path l) ++ flat_items a) ++ (key, value) :: (flat_items c ++ flat (loc_last l)) ++ rights (loc_path l)).
  { rewrite flat_plug, flat_node, Hfi, <- !app_assoc. cbn [app]. by rewrite <- ?app_assoc. }
  rewrite Hflat in Hs.
  destruct (split_nodes_ok (loc_path l) items last (allocs b) Hd Hgr (fa_frames _ _ _ _ F)) as (t & n & ok & -> & Ht & Hok & Hal).
  { rewrite Hnew. apply sorted_mid. auto. }
  cbn [mbind option_bind]. eexists _, ok. split; [reflexivity|]. cbn [root]. rewrite Ht, Hnew.
  split; [by apply sorted_mid|]. split; [rewrite to_map_mid by exact Hb; by rewrite Hflat|]. auto.
Qed.
End Splits.

(** ** Deletion *)

Lemma wf_items_app a i b last :
  wf (Node (a ++ i :: b) last) -> Forall (fun i => wf i.1) a /\ wf i.1 /\ Forall (fun i => wf i.1) b /\ wf last.
Proof.
  intros H. apply wf_items in H as (_ & Hi & Hl). apply Forall_app in Hi as [H1 H2]. by inversion_clear H2.
Qed.

Lemma delete_max_ok t :
  t <> Null -> wf t -> exists kv t', delete_max t = Some (kv, t') /\ wf t' /\ flat t = flat t' ++ [kv].
Proof.
  induction t as [|items lst IHi IHl] using tree_ind'; intros Hn Hw; [done|].
  pose proof (wf_items _ _ Hw) as (Hlen & Hi & Hlast). cbn [delete_max].
  destruct lst as [|li ll] eqn:El.
  - destruct (list.last items) as [[ch kv]|] eqn:E; [|apply last_None in E; subst items; cbn in Hlen; lia].
    apply last_Some in E as [rest ->]. rewrite length_app, Nat.add_sub, take_app_length.
    apply Forall_app in Hi as [H1 H2]. inversion_clear H2 as [|? ? Hch _]. cbn in Hch.
    rewrite length_app in Hlen. cbn [length] in Hlen.
    eexists kv, _. split; [reflexivity|]. rewrite flat_node, flat_items_app, flat_items_cons, flat_items_nil.
    change (flat Null) with (@nil (Z * V)). rewrite app_nil_r.
    destruct (Nat.eqb_spec (length rest) 0) as [E|E].
    + apply nil_length_inv in E as ->. split; [exact Hch | reflexivity].
    + split; [constructor; [lia | exact H1 | exact Hch] | by rewrite flat_node, <- app_assoc].
  - destruct (IHl ltac:(discriminate) Hlast) as (kv & t' & -> & Ht' & Hfl). cbn [mbind option_bind].
    eexists kv, _. split; [reflexivity|]. split; [by constructor|]. by rewrite (flat_node items (Node li ll)), Hfl, flat_node, app_assoc.
Qed.

Lemma delete_min_ok t :
  t <> Null -> wf t -> exists kv t', delete_min t = Some (kv, t') /\ wf t' /\ flat t = kv :: flat t'.
Proof.
  induction t as [|items lst IHi IHl] using tree_ind'; intros Hn Hw; [done|].
  pose proof (wf_items _ _ Hw) as (Hlen & Hi & Hlast). cbn [delete_min].
  destruct items as [|[ch kv] rest]; [cbn in Hlen; lia|]. cbn [length] in Hlen.
  inversion_clear Hi as [|? ? Hch Hrest]. inversion_clear IHi as [|? ? IH _]. cbn [fst] in *.
  destruct ch as [|ci cl] eqn:Ec.
  - eexists kv, _. split; [reflexivity|]. rewrite flat_node, flat_items_cons. cbn [flat app].
    destruct (Nat.eqb_spec (length rest) 0) as [E|E].
    + apply nil_length_inv in E as ->. split; [exact Hlast | by rewrite flat_items_nil].
    + split; [constructor; [lia | exact Hrest | exact Hlast] | by rewrite flat_node].
  - destruct (IH ltac:(discriminate) Hch) as (kv' & t' & -> & Ht' & Hfl). cbn [mbind option_bind].
    eexists kv', _. split; [reflexivity|]. split; [by constructor; [|constructor|]|].
    by rewrite (flat_node (_ :: _)), flat_items_cons, Hfl, flat_node, flat_items_cons.
Qed.

Lemma wf_root_plug p t : (p = [] -> t <> Null) -> Forall wf_frame p -> wf t -> wf_root (plug p t).
Proof.
  intros Hn Hp Ht. right. split; [|by apply wf_plug].
  destruct p as [|f p]; [by apply Hn | apply plug_not_null].
Qed.

(** Removing the key at an index leaves the other pairs in place. *)
Lemma delete_key_ok a ch kv b l :
  loc_items l = a ++ (ch, kv) :: b -> wf (Node (loc_items l) (loc_last l)) -> Forall wf_frame (loc_path l) ->
  exists t, delete_key_from_node (length a) l = Some t /\ wf_root t
    /\ flat t = lefts (loc_path l) ++ (flat_items a ++ flat ch ++ flat_items b ++ flat (loc_last l)) ++ rights (loc_path l).
Proof.
  intros Hl Hw Hp. unfold delete_key_from_node. rewrite Hl in Hw |- *.
  rewrite list_lookup_middle by reflexivity. cbn [mbind option_bind].
  rewrite take_app_length, cons_middle, app_assoc, drop_app_length' by (rewrite length_app; cbn; lia).
  pose proof (wf_items _ _ Hw) as (Hlen & _ & _). pose proof (wf_items_app _ _ _ _ Hw) as (Ha & Hch & Hb & Hlast).
  rewrite length_app in Hlen. cbn [length] in Hlen.
  assert (Hnode : forall ch' kv' b' last', wf ch' -> Forall (fun i => wf i.1) b' -> wf last' -> length b' = length b ->
    flat ch' ++ kv' :: flat_items b' ++ flat last' = flat ch ++ flat_items b ++ flat (loc_last l) ->
    let t := plug (loc_path l) (Node (a ++ (ch', kv') :: b') last') in
    wf_root t /\ flat t = lefts (loc_path l) ++ (flat_items a ++ flat ch ++ flat_items b ++ flat (loc_last l)) ++ rights (loc_path l)).
  { intros ch' kv' b' last' H1 H2 H3 H4 H5. split.
    - apply wf_root_plug; [discriminate | exact Hp |]. constructor; [|by apply Forall_app; split; [|constructor]|exact H3].
      rewrite length_app. cbn [length]. lia.
    - rewrite flat_plug, flat_node, flat_items_app, flat_items_cons, <- H5, <- !app_assoc. cbn [app].
      by rewrite <- ?app_assoc. }
  cbn [fst] in Hch.
  destruct ch as [|ci cl] eqn:Ec.
  2:{ destruct (delete_max_ok (Node ci cl) ltac:(discriminate) Hch) as (kv' & ch' & -> & Hw' & Hf).
      cbn [mbind option_bind]. eexists. split; [reflexivity|]. apply Hnode; auto.
      rewrite Hf, <- app_assoc. reflexivity. }
  assert (Hhere : flat_items a ++ flat Null ++ flat_items b ++ flat (loc_last l) = flat_items (a ++ b) ++ flat (loc_last l))
    by (by rewrite flat_items_app, <- app_assoc).
  assert (Hplain : (b = [] -> loc_last l = Null) -> exists t,
    match a ++ b, loc_path l with
    | [], [] => Some (Node [] (loc_last l))
    | [], _ => Some (plug (loc_path l) Null)
    | items, _ => Some (plug (loc_path l) (Node items (loc_last l)))
    end = Some t /\ wf_root t
    /\ flat t = lefts (loc_path l) ++ (flat_items a ++ flat Null ++ flat_items b ++ flat (loc_last l)) ++ rights (loc_path l)).
  { intros Hnil. rewrite Hhere. destruct (a ++ b) as [|i items] eqn:Eab.
    - apply app_eq_nil in Eab as [-> ->]. rewrite (Hnil eq_refl).
      destruct (loc_path l) as [|f p] eqn:Epath; eexists; (split; [reflexivity|]).
      + split; [by left | reflexivity].
      + split; [apply wf_root_plug; [discriminate | exact Hp | constructor] | by rewrite flat_plug].
    - eexists. split; [reflexivity|]. rewrite <- Eab. split; [|by rewrite flat_plug, flat_node].
      apply wf_root_plug; [discriminate | exact Hp |].
      constructor; [|by apply Forall_app|exact Hlast]. pose proof (f_equal length Eab) as E.
      rewrite length_app in E |- *. cbn [length] in E. lia. }
  destruct b as [|[r kv1] b'].
  - destruct (loc_last l) as [|i0 l0] eqn:Elast; [by apply Hplain|].
    destruct (delete_min_ok (Node i0 l0) ltac:(discriminate) Hlast) as (kv' & r' & -> & Hw' & Hf).
    cbn [mbind option_bind]. eexists. split; [reflexivity|]. by apply Hnode.
  - destruct r as [|i0 l0]; [by apply Hplain|]. inversion_clear Hb as [|? ? Hr Hb']. cbn [fst] in Hr.
    destruct (delete_min_ok (Node i0 l0) ltac:(discriminate) Hr) as (kv' & r' & -> & Hw' & Hf).
    cbn [mbind option_bind]. eexists. split; [reflexivity|]. apply Hnode; auto.
    rewrite !flat_items_cons, Hf. cbn [flat app]. by rewrite <- !app_assoc.
Qed.

Lemma index_of_key_app key v a ch b :
  Forall (fun i => (i.2.1 < key)%Z) a ->
  index_of_key key (a ++ (ch, (key, v)) :: b) = Some (length a).
Proof.
  induction a as [|[c [k w]] a IH]; intros Ha; cbn [app index_of_key length].
  - by rewrite Z.eqb_refl.
  - inversion_clear Ha as [|? ? Hk Ha']. cbn in Hk.
    rewrite (proj2 (Z.eqb_neq key k)) by lia. by rewrite (IH Ha').
Qed.

Lemma set_value_app key v w a ch b :
  Forall (fun i => (i.2.1 < key)%Z) a ->
  set_value key w (a ++ (ch, (key, v)) :: b) = a ++ (ch, (key, w)) :: b.
Proof.
  induction a as [|[c [k u]] a IH]; intros Ha; cbn [app set_value].
  - by rewrite Z.eqb_refl.
  - inversion_clear Ha as [|? ? Hk Ha']. cbn in Hk.
    rewrite (proj2 (Z.eqb_neq k key)) by lia. by rewrite (IH Ha').
Qed.

Lemma keys_before key a pre post :
  below key ((pre ++ flat_items a) ++ post) -> Forall (fun i => (i.2.1 < key)%Z) a.
Proof.
  unfold below. rewrite !Forall_app. intros [[_ H] _]. apply Forall_forall. intros i Hi.
  rewrite Forall_forall in H. exact (H _ (item_in_flat _ _ Hi)).
Qed.

(** A location that holds a key is in a node of the tree. *)
Lemma found_node key t v l : found_at key t (Some v) l -> wf (Node (loc_items l) (loc_last l)).
Proof.
  intros F. destruct (fa_node _ _ _ _ F) as [(_ & E & _)|Hw]; [|exact Hw].
  destruct (fa_some _ _ _ _ F v eq_refl) as (a & ch & b & Hl). rewrite E in Hl. by destruct a.
Qed.

Lemma delete_ok key b :
  wf_root (root b) -> sorted (flat (root b)) ->
  exists b', delete key b = Some (b', to_map (flat (root b)) !! key)
    /\ wf_root (root b') /\ sorted (flat (root b'))
    /\ to_map (flat (root b')) = base.delete key (to_map (flat (root b))).
Proof.
  intros Hw Hs. pose proof (search_root key _ Hw Hs) as F. pose proof (search_lookup key _ Hw Hs) as E.
  unfold delete. destruct (search key (root b) []) as [[v|] l]; cbn [fst snd] in *; rewrite <- E.
  - destruct (found_pairs _ _ _ _ F Hs) as (a & ch & c & Hl & Hf & Hb & Ha).
    rewrite Hl, index_of_key_app by exact (keys_before _ _ _ _ Hb).
    destruct (delete_key_ok a ch (key, v) c l Hl (found_node _ _ _ _ F) (fa_frames _ _ _ _ F)) as (t & -> & Ht & Hft).
    cbn [mbind option_bind]. eexists. split; [reflexivity|]. cbn [root]. split; [exact Ht|].
    assert (Hft' : flat t = ((lefts (loc_path l) ++ flat_items a) ++ flat ch) ++ (flat_items c ++ flat (loc_last l)) ++ rights (loc_path l))
      by (rewrite Hft, <- !app_assoc; reflexivity).
    rewrite Hft', Hf in *. apply sorted_mid in Hs as (Hs & _ & _). split; [exact Hs|]. by apply to_map_delete.
  - eexists. split; [reflexivity|]. split; [exact Hw|]. split; [exact Hs|]. symmetry. by apply delete_id.
Qed.

Lemma find_max_ok t : forall path,
  t <> Null -> wf t ->
  exists a ch kv l, find_max t path = (Some kv, l) /\ rebuild l = plug path t
    /\ loc_items l = a ++ [(ch, kv)] /\ loc_last l = Null /\ wf (Node (loc_items l) (loc_last l))
    /\ (Forall wf_frame path -> Forall wf_frame (loc_path l)) /\ rights (loc_path l) = rights path.
Proof.
  induction t as [|items lst _ IHl] using tree_ind'; intros path Hn Hw; [done|].
  pose proof (wf_items _ _ Hw) as (Hlen & Hi & Hlast). cbn [find_max].
  destruct lst as [|li ll] eqn:El.
  - destruct (list.last items) as [[ch kv]|] eqn:E; [|apply last_None in E; subst items; cbn in Hlen; lia].
    apply last_Some in E as [rest Erest]. exists rest, ch, kv. eexists. split; [reflexivity|]. by split.
  - destruct (IHl (FLast items :: path) ltac:(discriminate) Hlast) as (a & ch & kv & l & -> & H1 & H2 & H3 & H4 & H5 & H6).
    exists a, ch, kv, l. split; [reflexivity|]. split; [exact H1|]. do 3 (split; [assumption|]). split; [|exact H6].
    intros Hp. apply H5. constructor; [exact (wf_frame_last _ _ Hw) | exact Hp].
Qed.

Lemma find_max_last t : wf_root t -> (find_max t []).1 = list.last (flat t).
Proof.
  intros [->|[Hn Hw]]; [reflexivity|].
  destruct (find_max_ok t [] Hn Hw) as (a & ch & kv & l & -> & H1 & H2 & H3 & _ & _ & H6). cbn [fst].
  change t with (plug [] t). rewrite <- H1. unfold rebuild. rewrite flat_plug, flat_node, H2, H3, H6.
  cbn [flat rights map concat]. by rewrite flat_items_app, flat_items_cons, flat_items_nil, !app_nil_r, app_assoc, app_assoc, last_snoc.
Qed.

Lemma find_min_head t : wf_root t -> find_min t = head (flat t).
Proof.
  intros [->|[Hn Hw]]; [reflexivity|].
  induction t as [|items lst IHi _] using tree_ind'; [done|].
  pose proof (wf_items _ _ Hw) as (Hlen & Hi & _). cbn [find_min].
  destruct items as [|[ch kv] rest]; [cbn in Hlen; lia|]. rewrite flat_node, flat_items_cons.
  inversion_clear Hi as [|? ? Hch _]. inversion_clear IHi as [|? ? IH _]. cbn [fst] in *.
  destruct ch as [|ci cl] eqn:Ec; [reflexivity|]. rewrite (IH ltac:(discriminate) Hch), <- app_assoc.
  destruct (delete_min_ok (Node ci cl) ltac:(discriminate) Hch) as (kv' & t' & _ & _ & ->). reflexivity.
Qed.

Lemma pop_ok b :
  wf_root (root b) -> sorted (flat (root b)) ->
  exists b', pop b = Some (b', list.last (flat (root b)))
    /\ wf_root (root b') /\ sorted (flat (root b'))
    /\ match list.last (flat (root b)) with
       | Some kv => flat (root b) = flat (root b') ++ [kv]
       | None => root b' = root b
       end.
Proof.
  intros Hw Hs. unfold pop. rewrite <- (find_max_last _ Hw). destruct Hw as [E|[Hn Hw]].
  { exists b. rewrite E. split; [by destruct b; cbn in E; subst|]. split; [by left|]. split; [constructor | reflexivity]. }
  destruct (find_max_ok (root b) [] Hn Hw) as (a & ch & kv & l & -> & H1 & H2 & H3 & H4 & H5 & H6).
  cbn [fst]. specialize (H5 (Forall_nil_2 _)).
  assert (Ei : length (loc_items l) - 1 = length a) by (rewrite H2, length_app; cbn; lia).
  rewrite Ei. destruct (delete_key_ok a ch kv [] l H2 H4 H5) as (t & -> & Ht & Hf). cbn [mbind option_bind].
  assert (Hroot : flat (root b) = flat t ++ [kv]).
  { change (root b) with (plug [] (root b)). rewrite <- H1. unfold rebuild. rewrite Hf, flat_plug, flat_node, H2, H3, H6.
    cbn [flat rights map concat]. rewrite flat_items_app, flat_items_cons, flat_items_nil, !app_nil_r, <- !app_assoc. reflexivity. }
  eexists. split; [reflexivity|]. cbn [root]. split; [exact Ht|]. rewrite Hroot in Hs |- *.
  split; [by apply sorted_app in Hs as (? & _ & _) | reflexivity].
Qed.

(** ** A tree against the map of its pairs *)

Definition repr (b : btree) (m : gmap Z V) : Prop :=
  wf_root (root b) /\ sorted (flat (root b)) /\ to_map (flat (root b)) = m.

(** [deinit]: [false] for [error.BTreeHasElements]. *)
Definition deinit (b : btree) : bool :=
  match root b with Node (_ :: _) _ => false | _ => true end.

Inductive op : Type :=
| Insert (key : Z) (value : V)
| Replace (key : Z) (value : V)
| Delete (key : Z)
| Pop
| Get (key : Z)
| GetMax
| GetMin.

Inductive answer : Type :=
| Flag (ok : bool)
| Value (v : option V)
| Pair (kv : option (Z * V)).

Definition greatest (m : gmap Z V) (kv : Z * V) : Prop :=
  m !! kv.1 = Some kv.2 /\ forall k v, m !! k = Some v -> (k <= kv.1)%Z.

Definition least (m : gmap Z V) (kv : Z * V) : Prop :=
  m !! kv.1 = Some kv.2 /\ forall k v, m !! k = Some v -> (kv.1 <= k)%Z.

(** An entry of the map at one of its ends, if it has one. *)
Definition extreme (P : gmap Z V -> Z * V -> Prop) (m : gmap Z V) (r : option (Z * V)) : Prop :=
  match r with Some kv => P m kv | None => m = ∅ end.

(** What an ordered map answers. *)
Inductive map_step (m : gmap Z V) : op -> gmap Z V -> answer -> Prop :=
| ms_insert k v : m !! k = None -> map_step m (Insert k v) (<[k := v]> m) (Flag true)
| ms_present k v w : m !! k = Some w -> map_step m (Insert k v) m (Flag false)
| ms_replace k v : map_step m (Replace k v) (<[k := v]> m) (Value (m !! k))
| ms_delete k : map_step m (Delete k) (base.delete k m) (Value (m !! k))
| ms_pop r : extreme greatest m r ->
    map_step m Pop (match r with Some kv => base.delete kv.1 m | None => m end) (Pair r)
| ms_get k : map_step m (Get k) m (Value (m !! k))
| ms_max r : extreme greatest m r -> map_step m GetMax m (Pair r)
| ms_min r : extreme least m r -> map_step m GetMin m (Pair r).

Inductive map_steps : gmap Z V -> list op -> gmap Z V -> list answer -> Prop :=
| mss_nil m : map_steps m [] m []
| mss_cons m o m1 a os m2 answers :
    map_step m o m1 a -> map_steps m1 os m2 answers -> map_steps m (o :: os) m2 (a :: answers).

Lemma last_greatest l : sorted l -> extreme greatest (to_map l) (list.last l).
Proof.
  intros Hs. destruct (list.last l) as [[k v]|] eqn:E; cbn [extreme]; [|apply last_None in E; by subst l].
  apply last_Some in E as [l' ->]. apply sorted_mid in Hs as (_ & Hb & _).
  split; cbn [fst snd]; [rewrite to_map_mid by exact Hb; by rewrite lookup_insert_eq|].
  intros k' v' H. apply elem_of_list_to_map_2, elem_of_app in H as [H|H].
  - unfold below in Hb. rewrite Forall_forall in Hb. specialize (Hb _ H). cbn in Hb. lia.
  - apply list_elem_of_singleton in H as [= -> ->]. lia.
Qed.

Lemma head_least l : sorted l -> extreme least (to_map l) (head l).
Proof.
  intros Hs. destruct l as [|[k v] l]; cbn [extreme head]; [reflexivity|].
  apply (sorted_mid [] k v l) in Hs as (_ & _ & Ha). split; cbn [fst snd].
  - apply (lookup_insert_eq (to_map l)).
  - intros k' v' H. apply elem_of_list_to_map_2, elem_of_cons in H as [[= -> ->]|H]; [lia|].
    unfold above in Ha. rewrite Forall_forall in Ha. specialize (Ha _ H). cbn in Ha. lia.
Qed.

Lemma deinit_repr b m : repr b m -> deinit b = true <-> m = ∅.
Proof.
  intros (Hw & _ & <-). unfold deinit. destruct Hw as [->|[Hn Hw]]; [done|].
  destruct (root b) as [|[|[ch [k v]] items] last]; [done | apply wf_items in Hw as [H _]; cbn in H; lia|].
  split; [discriminate|]. intros H. exfalso. rewrite flat_node, flat_items_cons in H.
  destruct (flat ch) as [|[k' v'] l]; exact (insert_non_empty _ _ _ H).
Qed.

(** What a pop does to the map. *)
Lemma pop_repr b m :
  repr b m -> exists b' r, pop b = Some (b', r) /\
    match r with
    | Some kv => m !! kv.1 = Some kv.2 /\ repr b' (base.delete kv.1 m) /\ length (flat (root b)) = S (length (flat (root b')))
    | None => m = ∅ /\ repr b' m
    end.
Proof.
  intros (Hw & Hs & <-). destruct (pop_ok b Hw Hs) as (b' & E & H1 & H2 & H3). exists b', (list.last (flat (root b))).
  split; [exact E|]. pose proof (last_greatest _ Hs) as Hg. destruct (list.last (flat (root b))) as [[k v]|] eqn:El; cbn [extreme] in Hg.
  - split; [exact (proj1 Hg)|]. rewrite H3 in Hs |- *. pose proof Hs as Hs'. apply sorted_mid in Hs' as (_ & Hb & Ha).
    split; [|by rewrite length_app, Nat.add_1_r]. split; [exact H1|]. split; [exact H2|].
    rewrite <- (app_nil_r (flat (root b'))) at 1. by apply to_map_delete.
  - split; [exact Hg|]. split; [exact H1|]. split; [exact H2 | by rewrite H3].
Qed.

Section Runs.
Variable alloc_ok : nat -> bool.

(** [init]; [None]: [error.OutOfMemory]. *)
Definition init : option btree := if alloc_ok 0 then Some (BTree_ (Node [] Null) 1) else None.

Definition perform (o : op) (b : btree) : option (btree * answer) :=
  match o with
  | Insert k v => '(b, ok) ← insert alloc_ok k v b; Some (b, Flag ok)
  | Replace k v => '(b, r) ← replace alloc_ok k v b; Some (b, Value r)
  | Delete k => '(b, r) ← delete k b; Some (b, Value r)
  | Pop => '(b, r) ← pop b; Some (b, Pair r)
  | Get k => Some (b, Value (get_value k (root b)))
  | GetMax => Some (b, Pair (find_max (root b) []).1)
  | GetMin => Some (b, Pair (find_min (root b)))
  end.

Fixpoint perform_all (os : list op) (b : btree) : option (btree * list answer) :=
  match os with
  | [] => Some (b, [])
  | o :: os =>
      '(b, a) ← perform o b;
      '(b, answers) ← perform_all os b;
      Some (b, a :: answers)
  end.

Lemma insert_ok key value b :
  degree_ok -> wf_root (root b) -> sorted (flat (root b)) -> to_map (flat (root b)) !! key = None ->
  exists b' ok, insert alloc_ok key value b = Some (b', ok)
    /\ sorted (flat (root b')) /\ to_map (flat (root b')) = <[key := value]> (to_map (flat (root b)))
    /\ (ok = true -> wf_root (root b'))
    /\ ((forall i, alloc_ok i = true) -> ok = true).
Proof.
  intros Hd Hw Hs Hm. pose proof (search_root key _ Hw Hs) as F. rewrite <- (search_lookup _ _ Hw Hs) in Hm.
  unfold insert. destruct (search key (root b) []) as [r l]; cbn [fst snd] in *. subst r.
  by apply insert_in_node_ok.
Qed.

(** The value of a key changed in place. *)
Lemma rebuild_set_value key w t v l :
  wf_root t -> sorted (flat t) -> search key t [] = (Some v, l) ->
  let t' := rebuild (Loc (set_value key w (loc_items l)) (loc_last l) (loc_path l)) in
  wf_root t' /\ sorted (flat t') /\ to_map (flat t') = <[key := w]> (to_map (flat t)).
Proof.
  intros Hw Hs E. pose proof (search_root key _ Hw Hs) as F. rewrite E in F. cbn [fst snd] in F.
  destruct (found_pairs _ _ _ _ F Hs) as (a & ch & c & Hl & Hf & Hb & Ha).
  pose proof (found_node _ _ _ _ F) as Hn. rewrite Hl in Hn.
  rewrite Hl, (set_value_app _ _ _ _ _ _ (keys_before _ _ _ _ Hb)). cbn zeta.
  assert (Hf' : flat (rebuild (Loc (a ++ (ch, (key, w)) :: c) (loc_last l) (loc_path l)))
    = ((lefts (loc_path l) ++ flat_items a) ++ flat ch) ++ (key, w) :: (flat_items c ++ flat (loc_last l)) ++ rights (loc_path l)).
  { unfold rebuild. cbn [loc_items loc_last loc_path].
    rewrite flat_plug, flat_node, flat_items_app, flat_items_cons, <- !app_assoc. cbn [app]. by rewrite <- ?app_assoc. }
  rewrite Hf', Hf in *. apply sorted_mid in Hs as (Hs & _ & _). split; [|split].
  - apply wf_root_plug; [discriminate | exact (fa_frames _ _ _ _ F)|].
    pose proof (wf_items _ _ Hn) as (Hlen & _ & _). destruct (wf_items_app _ _ _ _ Hn) as (H1 & H2 & H3 & H4).
    rewrite length_app in Hlen. cbn [length] in Hlen. cbn [loc_items loc_last].
    constructor; [rewrite length_app; cbn [length]; lia | by apply Forall_app; split; [|constructor] | exact H4].
  - by apply sorted_mid.
  - rewrite !to_map_mid by exact Hb. by rewrite insert_insert_eq.
Qed.

Lemma perform_ok o b m :
  degree_ok -> (forall i, alloc_ok i = true) -> repr b m ->
  exists b' m' a, perform o b = Some (b', a) /\ map_step m o m' a /\ repr b' m'.
Proof.
  intros Hd Hal (Hw & Hs & <-).
  assert (Hrefl : repr b (to_map (flat (root b)))) by (by split).
  destruct o as [k v|k v|k| |k| |]; cbn [perform].
  - destruct (to_map (flat (root b)) !! k) as [w|] eqn:E.
    + unfold insert. pose proof E as E'. rewrite <- (search_lookup _ _ Hw Hs) in E'.
      destruct (search k (root b) []) as [r l]; cbn [fst] in E'; subst r.
      eexists _, _, _. split; [reflexivity|]. split; [by eapply ms_present | exact Hrefl].
    + destruct (insert_ok k v b Hd Hw Hs E) as (b' & ok & -> & H1 & H2 & H3 & H4). specialize (H4 Hal). subst ok.
      eexists _, _, _. split; [reflexivity|]. split; [by apply ms_insert|]. split; [by apply H3 | by split].
  - unfold replace. pose proof (search_root k _ Hw Hs) as F. pose proof (search_lookup k _ Hw Hs) as E.
    destruct (search k (root b) []) as [[p|] l] eqn:Es; cbn [fst snd] in *.
    + eexists _, _, _. split; [reflexivity|]. rewrite E. split; [apply ms_replace|].
      exact (rebuild_set_value k v _ p l Hw Hs Es).
    + destruct (insert_in_node_ok alloc_ok k v l b Hd F Hs) as (b' & ok & -> & H1 & H2 & H3 & H4).
      eexists _, _, _. split; [reflexivity|]. rewrite E. split; [apply ms_replace|]. split; [by apply H3, H4 | by split].
  - destruct (delete_ok k b Hw Hs) as (b' & -> & H1 & H2 & H3).
    eexists _, _, _. split; [reflexivity|]. split; [apply ms_delete | by split].
  - destruct (pop_ok b Hw Hs) as (b1 & E1 & _). pose proof (last_greatest _ Hs) as Hg.
    destruct (pop_repr b _ Hrefl) as (b' & r & E & Hr). rewrite E in E1 |- *. injection E1 as -> ->.
    eexists _, _, _. split; [reflexivity|]. split; [by apply ms_pop|].
    destruct (list.last (flat (root b))) as [kv|]; tauto.
  - eexists _, _, _. split; [reflexivity|]. unfold get_value. rewrite (search_lookup k _ Hw Hs). split; [apply ms_get | exact Hrefl].
  - eexists _, _, _. split; [reflexivity|]. rewrite (find_max_last _ Hw). split; [by apply ms_max, last_greatest | exact Hrefl].
  - eexists _, _, _. split; [reflexivity|]. rewrite (find_min_head _ Hw). split; [by apply ms_min, head_least | exact Hrefl].
Qed.

Lemma perform_all_ok os : forall b m,
  degree_ok -> (forall i, alloc_ok i = true) -> repr b m ->
  exists b' m' answers, perform_all os b = Some (b', answers) /\ map_steps m os m' answers /\ repr b' m'.
Proof.
  induction os as [|o os IH]; intros b m Hd Hal Hr; cbn [perform_all].
  - eexists _, _, _. split; [reflexivity|]. split; [constructor | exact Hr].
  - destruct (perform_ok o b m Hd Hal Hr) as (b1 & m1 & a & -> & Hstep & Hr1).
    destruct (IH b1 m1 Hd Hal Hr1) as (b2 & m2 & answers & E & Hsteps & Hr2). cbn [mbind option_bind]. rewrite E.
    eexists _, _, _. split; [reflexivity|]. split; [by econstructor | exact Hr2].
Qed.

(** C39: for an odd degree above one and allocations that succeed, a tree made by
    [init] goes through any sequence of insertions, replacements, deletions,
    pops and lookups without writing outside a node; it answers what an ordered
    map answers, it ends as a well-formed tree of the map's entries in order, and
    [deinit] accepts it exactly when the map is empty. *)
Theorem btree_refines_map (os : list op) :
  degree_ok -> (forall i, alloc_ok i = true) ->
  exists b0 b m answers, init = Some b0 /\ perform_all os b0 = Some (b, answers)
    /\ map_steps ∅ os m answers /\ repr b m /\ (deinit b = true <-> m = ∅).
Proof.
  intros Hd Hal. assert (H0 : repr (BTree_ (Node [] Null) 1) ∅)
    by (split; [by left | split; [constructor | reflexivity]]).
  destruct (perform_all_ok os _ ∅ Hd Hal H0) as (b & m & answers & E & Hs & Hr).
  exists (BTree_ (Node [] Null) 1), b, m, answers. unfold init. rewrite Hal.
  split; [reflexivity|]. split; [exact E|]. split; [exact Hs|]. split; [exact Hr | exact (deinit_repr b m Hr)].
Qed.

(** An insertion that answers [false] for a key the tree does not have has put
    the pair in the tree: the allocation of the split failed after it. *)
Lemma failed_insertion_stays key value b b' m :
  degree_ok -> repr b m -> m !! key = None -> insert alloc_ok key value b = Some (b', false) ->
  to_map (flat (root b')) = <[key := value]> m.
Proof.
  intros Hd (Hw & Hs & <-) Hm E. destruct (insert_ok key value b Hd Hw Hs Hm) as (b1 & ok & E1 & _ & H & _).
  rewrite E1 in E. by injection E as -> ->.
Qed.
End Runs.
End BTree.

Arguments Null {V}.
Arguments Insert {V} key value.
Arguments Replace {V} key value.
Arguments Delete {V} key.
Arguments Pop {V}.
Arguments Get {V} key.
Arguments GetMax {V}.
Arguments GetMin {V}.

(** Four insertions at degree 3 split the root; the fifth operation and the ones
    after it take the tree down again. *)
Definition sample_ops : list (@op Z) :=
  [Insert 10 1; Insert 20 2; Insert 30 3; Insert 5 4; Insert 20 9; Get 5; GetMax; GetMin;
   Replace 30 7; Delete 20; Delete 20; Pop; Pop; Pop; Pop]%Z.

Lemma btree_refines_map_witness :
  degree_ok 3 /\ exists b0 b m answers,
    init (fun _ => true) = Some b0 /\ perform_all 3 (fun _ => true) sample_ops b0 = Some (b, answers)
    /\ map_steps ∅ sample_ops m answers /\ repr 3 b m /\ (deinit b = true <-> m = ∅).
Proof.
  assert (H : degree_ok 3) by (split; [lia | reflexivity]).
  split; [exact H | exact (btree_refines_map 3 (fun _ => true) sample_ops H (fun _ => eq_refl))].
Defined.

Lemma sample_answers :
  (b ← init (V := Z) (fun _ => true); snd <$> perform_all 3 (fun _ => true) sample_ops b)
  = Some [Flag true; Flag true; Flag true; Flag true; Flag false; Value (Some 4%Z);
          Pair (Some (30, 3)%Z); Pair (Some (5, 4)%Z); Value (Some 3%Z); Value (Some 2%Z); Value None;
          Pair (Some (30, 7)%Z); Pair (Some (10, 1)%Z); Pair (Some (5, 4)%Z); Pair None].
Proof. reflexivity. Qed.

(** The third insertion fills the root of a tree of degree 3; its second
    allocation fails, so it answers [false] and leaves the root full with the pair
    in it; the insertion after it writes past the arrays of the node. *)
Lemma insertion_after_failure :
  let alloc_ok n := n <? 1 in
  let os := [Insert 10 1; Insert 20 2; Insert 30 3]%Z in
  (b ← init (V := Z) alloc_ok; r ← perform_all 3 alloc_ok os b; Some (r.2, get_value 30 (root r.1)))
    = Some ([Flag true; Flag true; Flag false], Some 3%Z)
  /\ (b ← init (V := Z) alloc_ok; perform_all 3 alloc_ok (os ++ [Insert 40%Z 4%Z]) b) = None.
Proof. by vm_compute. Qed.
