(* ===== verification/IoTasks.v ===== *)
(** * Blocking tasks (src/src/loop/scheduling/io/main.zig)

    An operation handed to io_uring occupies a slot of a [BlockingTasksSet]: the
    callback to run when it completes waits there, and the address of the slot is
    the operation's [user_data] and its id.  A set has [TotalTasksItems] slots,
    given out by a bump index and a stack of released ones; a full set moves to
    [busy_sets] and is freed with its last task.  [None] is a fault: memory that
    was freed, an array overrun or an integer that wraps.  The class [TaskPool] is
    what the clients of the queue rely on. *)

From stdpp Require Import base numbers list gmap fin_sets.
From Stdlib Require Import ZArith Lia.
From S2P Require Import Prelude.

Open Scope nat_scope.

(** The address of a set and a slot of it. *)
Definition task_id : Type := nat * nat.

(** ** What a client relies on *)

Class TaskPool (P C : Type) := {
  pool_queue : C -> P -> option (P * option task_id);
  pool_cancel : task_id -> P -> option (P * bool);
  pool_complete : task_id -> P -> option (C * P);
  pool_deinit : P -> list C;
  pool_lookup : task_id -> P -> option C;
  pool_ok : P -> Prop }.

(** An operation that is queued gets an id that no operation in flight has; it
    stays with its callback until it completes; closing hands over the callbacks
    of the operations in flight, each once. *)
Class TaskPoolLaws (P C : Type) `{TaskPool P C} : Prop := {
  pool_queue_ok c p : pool_ok p -> exists p' r, pool_queue c p = Some (p', r) /\ pool_ok p' /\
    match r with
    | Some id => pool_lookup id p = None
        /\ forall j, pool_lookup j p' = if decide (j = id) then Some c else pool_lookup j p
    | None => forall j, pool_lookup j p' = pool_lookup j p
    end;
  pool_cancel_ok id p : pool_ok p -> exists p' b, pool_cancel id p = Some (p', b) /\ pool_ok p'
    /\ forall j, pool_lookup j p' = pool_lookup j p;
  pool_complete_ok id c p : pool_ok p -> pool_lookup id p = Some c ->
    exists p', pool_complete id p = Some (c, p') /\ pool_ok p'
    /\ forall j, pool_lookup j p' = if decide (j = id) then None else pool_lookup j p;
  pool_deinit_ok p : pool_ok p -> exists ids, NoDup ids
    /\ Forall2 (fun id c => pool_lookup id p = Some c) ids (pool_deinit p)
    /\ forall id, is_Some (pool_lookup id p) -> id ∈ ids }.

Section IoTasks.
Context {C : Type}.
Variable TotalTasksItems : nat.

(** [BlockingTasksSet]: [ts_data] are the slots with a callback, [ts_free] the
    stack [free_slots[0..free_count]], its top first. *)
Record task_set : Type := TaskSet {
  ts_addr : nat;
  ts_data : gmap nat C;
  ts_free : list nat;
  ts_index : nat;
  ts_active : nat;
  ts_disattached : bool }.

Definition init_set (addr : nat) : task_set := TaskSet addr ∅ [] 0 0 false.

(** [BlockingTasksSet.push]; [None]: [error.Overflow]. *)
Definition push (c : C) (s : task_set) : option (nat * task_set) :=
  match ts_free s with
  | i :: rest =>
      Some (i, TaskSet (ts_addr s) (<[i := c]> (ts_data s)) rest (ts_index s)
                 (S (ts_active s)) (ts_disattached s))
  | [] =>
      if ts_index s =? TotalTasksItems then None
      else Some (ts_index s, TaskSet (ts_addr s) (<[ts_index s := c]> (ts_data s)) []
                               (S (ts_index s)) (S (ts_active s)) (ts_disattached s))
  end.

(** [BlockingTasksSet.pop]: [Some None] when the set is freed. *)
Definition pop (i : nat) (s : task_set) : option (option task_set) :=
  if TotalTasksItems <=? length (ts_free s) then None
  else match ts_active s with
  | 0 => None
  | 1 => Some (if ts_disattached s then None else Some (init_set (ts_addr s)))
  | S n => Some (Some (TaskSet (ts_addr s) (base.delete i (ts_data s)) (i :: ts_free s)
                         (ts_index s) n (ts_disattached s)))
  end.

(** [free]. *)
Definition free (s : task_set) : bool := ts_index s - length (ts_free s) <? TotalTasksItems.

Definition set_disattached (b : bool) (s : task_set) : task_set :=
  TaskSet (ts_addr s) (ts_data s) (ts_free s) (ts_index s) (ts_active s) b.

(** [IO]: the set in use and the full ones, the submission queue, the slots reserved
    in the ready queues, and the allocations and submissions made so far. *)
Record io : Type := Io {
  io_set : task_set;
  io_busy : list task_set;
  io_sq : nat;
  io_reserved : Z;
  io_allocs : nat;
  io_submits : nat }.

(** Whether an allocation or a submission succeeds, and the address of a new set
    given those in use. *)
Variables (alloc_ok submit_ok : nat -> bool) (new_addr : list nat -> nat).

Definition init : io := Io (init_set (new_addr [])) [] 0 0%Z 0 0.

Definition addrs (p : io) : list nat := map ts_addr (io_set p :: io_busy p).

(** [get_blocking_tasks_set]; the flag is [false] for [error.OutOfMemory]. *)
Definition get_blocking_tasks_set (p : io) : io * bool :=
  if free (io_set p) then (p, true)
  else if alloc_ok (io_allocs p)
  then (Io (init_set (new_addr (addrs p))) (io_busy p ++ [set_disattached true (io_set p)])
          (io_sq p) (io_reserved p) (S (io_allocs p)) (io_submits p), true)
  else (Io (set_disattached false (io_set p)) (io_busy p)
          (io_sq p) (io_reserved p) (S (io_allocs p)) (io_submits p), false).

(** [get_sqe]: the ring has [TotalTasksItems] entries. *)
Definition get_sqe (p : io) : option io :=
  if io_sq p <? TotalTasksItems
  then Some (Io (io_set p) (io_busy p) (S (io_sq p)) (io_reserved p) (io_allocs p) (io_submits p))
  else None.

(** [flush_pending_sqes]. *)
Definition flush_pending_sqes (p : io) : io * bool :=
  if io_sq p =? 0 then (p, true)
  else if submit_ok (io_submits p)
  then (Io (io_set p) (io_busy p) 0 (io_reserved p) (io_allocs p) (S (io_submits p)), true)
  else (Io (io_set p) (io_busy p) (io_sq p) (io_reserved p) (io_allocs p) (S (io_submits p)), false).

Definition with_set (s : task_set) (r : Z) (p : io) : io :=
  Io s (io_busy p) (io_sq p) (io_reserved p + r)%Z (io_allocs p) (io_submits p).

(** Taking a task's slot back, in the set that holds it. *)
Fixpoint pop_busy (id : task_id) (l : list task_set) : option (list task_set) :=
  match l with
  | [] => None
  | s :: l =>
      if ts_addr s =? id.1
      then r ← pop id.2 s; Some (match r with Some s' => s' :: l | None => l end)
      else l ← pop_busy id l; Some (s :: l)
  end.

(** [BlockingTask.discard] and [BlockingTask.deinit] with the slot's reservation
    given back. *)
Definition discard (id : task_id) (p : io) : option io :=
  if ts_addr (io_set p) =? id.1
  then r ← pop id.2 (io_set p); s ← r; Some (with_set s (-1) p)
  else l ← pop_busy id (io_busy p);
    Some (Io (io_set p) l (io_sq p) (io_reserved p - 1)%Z (io_allocs p) (io_submits p)).

(** [queue_unlocked] of an operation with a callback; no id: an error was
    returned. *)
Definition queue_unlocked (c : C) (p : io) : option (io * option task_id) :=
  let r := get_blocking_tasks_set p in
  if r.2 then
    match push c (io_set r.1) with
    | None => Some (r.1, None)
    | Some (i, s) =>
        let id := (ts_addr s, i) in
        let p1 := with_set s 1 r.1 in
        match get_sqe p1 with
        | None => p ← discard id p1; Some (p, None)
        | Some p2 =>
            if TotalTasksItems - 2 <=? io_sq p2
            then let f := flush_pending_sqes p2 in Some (f.1, if f.2 then Some id else None)
            else Some (p2, Some id)
        end
    end
  else Some (r.1, None).

(** [queue_unlocked] of a [CancelIO], which has no callback and is submitted at
    once. *)
Definition queue_cancel (id : task_id) (p : io) : option (io * bool) :=
  let r := get_blocking_tasks_set p in
  if r.2 then
    match get_sqe r.1 with
    | None => Some (r.1, false)
    | Some p2 => Some (flush_pending_sqes p2)
    end
  else Some (r.1, false).

Fixpoint lookup_in (id : task_id) (l : list task_set) : option C :=
  match l with
  | [] => None
  | s :: l => if ts_addr s =? id.1 then ts_data s !! id.2 else lookup_in id l
  end.

(** The callback of a task in flight. *)
Definition lookup_task (id : task_id) (p : io) : option C := lookup_in id (io_set p :: io_busy p).

(** One completion of [fetch_completed_tasks]: the callback goes to the ready
    queue and the slot is released. *)
Definition complete (id : task_id) (p : io) : option (C * io) :=
  c ← lookup_task id p; p ← discard id p; Some (c, p).

(** [cancel_all], and [deinit] of the queue. *)
Definition cancel_all (s : task_set) : list C := omap (fun i => ts_data s !! i) (seq 0 (ts_index s)).

Definition deinit (p : io) : list C := concat (map cancel_all (io_set p :: io_busy p)).

(** ** One set *)

Record set_ok (s : task_set) : Prop := {
  so_nodup : NoDup (ts_free s);
  so_free i : i ∈ ts_free s -> i < ts_index s /\ ts_data s !! i = None;
  so_data i : is_Some (ts_data s !! i) -> i < ts_index s;
  so_all i : i < ts_index s -> ts_data s !! i = None -> i ∈ ts_free s;
  so_index : ts_index s <= TotalTasksItems;
  so_active : ts_active s = size (ts_data s) }.

Lemma init_set_ok addr : set_ok (init_set addr).
Proof. split; cbn; try done; try lia; [constructor | intros i H; set_solver | intros i [? H]; done]. Qed.

Lemma set_count s : set_ok s -> length (ts_free s) + size (ts_data s) = ts_index s.
Proof.
  intros [H1 H2 H3 H4 _ _].
  assert (E : dom (ts_data s) ∪ list_to_set (ts_free s) = (set_seq 0 (ts_index s) : gset nat)).
  { apply set_eq. intros i. rewrite elem_of_union, elem_of_dom, elem_of_list_to_set, elem_of_set_seq. split.
    - intros [H|H]; [specialize (H3 i H) | specialize (H2 i H)]; lia.
    - intros [_ Hi]. destruct (ts_data s !! i) eqn:Ei; [left; eauto | right; apply H4; [lia | done]]. }
  rewrite <- (size_dom (D := gset nat) (ts_data s)). pose proof (f_equal size E) as Es.
  rewrite size_union, size_list_to_set, size_set_seq in Es; [lia | exact H1 |].
  intros i. rewrite elem_of_dom, elem_of_list_to_set. intros [? Hd] Hf. destruct (H2 i Hf). congruence.
Qed.

Lemma push_ok c s :
  set_ok s -> free s = true ->
  exists i s', push c s = Some (i, s') /\ ts_data s !! i = None /\ ts_data s' = <[i := c]> (ts_data s)
    /\ ts_addr s' = ts_addr s /\ ts_disattached s' = ts_disattached s /\ ts_active s' = S (ts_active s) /\ set_ok s'.
Proof.
  intros Hs Hf. pose proof (set_count s Hs) as Hc. destruct Hs as [H1 H2 H3 H4 H5 H6].
  unfold free in Hf. apply Nat.ltb_lt in Hf. unfold push.
  destruct (ts_free s) as [|i rest] eqn:Ef.
  - cbn [length] in *. destruct (Nat.eqb_spec (ts_index s) TotalTasksItems) as [E|E]; [lia|].
    assert (Hn : ts_data s !! ts_index s = None).
    { destruct (ts_data s !! ts_index s) eqn:E'; [|done]. specialize (H3 _ (ex_intro _ _ E')). lia. }
    eexists _, _. split; [reflexivity|]. split; [exact Hn|]. do 4 (split; [reflexivity|]).
    split; cbn; [constructor | set_solver | | | lia | by rewrite map_size_insert_None, H6].
    + intros i. destruct (decide (i = ts_index s)) as [->|Hi]; [lia|]. rewrite lookup_insert_ne by done.
      intros H. specialize (H3 i H). lia.
    + intros i Hi. destruct (decide (i = ts_index s)) as [->|Hne]; [by rewrite lookup_insert_eq|].
      rewrite lookup_insert_ne by done. intros H. apply H4; [lia | exact H].
  - apply NoDup_cons in H1 as [Hi1 H1]. destruct (H2 i ltac:(left)) as [Hi2 Hi3].
    eexists _, _. split; [reflexivity|]. split; [exact Hi3|]. do 4 (split; [reflexivity|]).
    split; cbn; [exact H1 | | | | exact H5 | by rewrite map_size_insert_None, H6].
    + intros j Hj. rewrite lookup_insert_ne by (intros ->; done). apply H2. by right.
    + intros j. destruct (decide (j = i)) as [->|Hj]; [lia|]. rewrite lookup_insert_ne by done. apply H3.
    + intros j Hj. destruct (decide (j = i)) as [->|Hne]; [by rewrite lookup_insert_eq|].
      rewrite lookup_insert_ne by done. intros H. specialize (H4 j Hj H). apply elem_of_cons in H4 as [->|H4]; done.
Qed.

(** A released slot: the set is as it was without it, and a set in [busy_sets] goes
    with its last task. *)
Definition popped (i : nat) (s : task_set) (r : option task_set) : Prop :=
  match r with
  | Some s' => set_ok s' /\ ts_addr s' = ts_addr s /\ ts_data s' = base.delete i (ts_data s)
      /\ S (ts_active s') = ts_active s /\ ts_disattached s' = ts_disattached s
      /\ (ts_disattached s = true -> 0 < ts_active s')
  | None => ts_disattached s = true /\ ts_active s = 1 /\ base.delete i (ts_data s) = ∅
  end.

Lemma pop_task_ok i s :
  set_ok s -> is_Some (ts_data s !! i) -> exists r, pop i s = Some r /\ popped i s r.
Proof.
  intros Hs [c Hc]. pose proof (set_count s Hs) as Hn. pose proof Hs as [H1 H2 H3 H4 H5 H6].
  assert (Hsz : size (base.delete i (ts_data s)) = pred (size (ts_data s))) by (apply map_size_delete_Some; eauto).
  assert (Hpos : 0 < size (ts_data s)) by (destruct (size (ts_data s)) eqn:E; [apply map_size_empty_inv in E; rewrite E in Hc; done | lia]).
  unfold pop. rewrite (proj2 (Nat.leb_gt _ _)) by lia. rewrite H6 in *.
  destruct (size (ts_data s)) as [|[|n]] eqn:E; [lia| |].
  - cbn [pred] in Hsz. apply map_size_empty_inv in Hsz. eexists. split; [reflexivity|].
    unfold popped. destruct (ts_disattached s) eqn:Ed; [by rewrite H6|].
    split; [apply init_set_ok|]. split; [reflexivity|]. split; [by rewrite Hsz|]. rewrite H6. by split.
  - eexists. split; [reflexivity|]. cbn. rewrite H6. split; [|by repeat split; lia].
    split; cbn; [| | | | exact H5 | by rewrite Hsz].
    + constructor; [|exact H1]. intros Hf. destruct (H2 i Hf) as [_ ?]. congruence.
    + intros j Hj. destruct (decide (j = i)) as [->|Hne].
      * rewrite lookup_delete_eq. split; [apply H3; eauto | done].
      * rewrite lookup_delete_ne by done. apply elem_of_cons in Hj as [->|Hj]; [done | by apply H2].
    + intros j. destruct (decide (j = i)) as [->|Hne]; [rewrite lookup_delete_eq; intros [? ?]; done|].
      rewrite lookup_delete_ne by done. apply H3.
    + intros j Hj. destruct (decide (j = i)) as [->|Hne]; [intros _; left|].
      rewrite lookup_delete_ne by done. intros H. right. by apply H4.
Qed.

(** ** All the sets *)

Definition total_active (l : list task_set) : Z := foldr (fun s n => Z.of_nat (ts_active s) + n)%Z 0%Z l.

Record io_ok (p : io) : Prop := {
  iok_set : set_ok (io_set p);
  iok_here : ts_disattached (io_set p) = false;
  iok_busy : Forall (fun s => set_ok s /\ ts_disattached s = true /\ 0 < ts_active s) (io_busy p);
  iok_addrs : NoDup (addrs p);
  iok_reserved : io_reserved p = total_active (io_set p :: io_busy p);
  iok_sq : io_sq p < TotalTasksItems }.

Lemma total_active_app a b : total_active (a ++ b) = (total_active a + total_active b)%Z.
Proof. unfold total_active. induction a as [|s a IH]; cbn [app foldr]; [lia | rewrite IH; lia]. Qed.

Lemma lookup_in_app id a b :
  id.1 ∉ map ts_addr b -> lookup_in id (a ++ b) = lookup_in id a.
Proof.
  intros Hb. induction a as [|s a IH]; cbn [app lookup_in].
  - induction b as [|s b IH]; cbn in *; [done|]. apply not_elem_of_cons in Hb as [H1 H2].
    rewrite (proj2 (Nat.eqb_neq _ _)) by congruence. auto.
  - by destruct (ts_addr s =? id.1).
Qed.

Lemma lookup_in_none id l : id.1 ∉ map ts_addr l -> lookup_in id l = None.
Proof. apply (lookup_in_app id []). Qed.

Lemma lookup_in_perm id s l : id.1 ∉ map ts_addr l \/ id.1 <> ts_addr s -> lookup_in id (l ++ [s]) = lookup_in id (s :: l).
Proof.
  induction l as [|x l IH]; cbn [app lookup_in map]; [done|]. intros H.
  destruct (Nat.eqb_spec (ts_addr x) (id.1)) as [Ex|Ex].
  - destruct H as [H|H]; [rewrite Ex in H; set_solver|]. by rewrite (proj2 (Nat.eqb_neq _ _)) by congruence.
  - rewrite IH by (destruct H as [H|H]; [left; set_solver | by right]). reflexivity.
Qed.

(** A task taken out of a set of the list. *)
Lemma pop_busy_ok id l :
  Forall (fun s => set_ok s /\ ts_disattached s = true /\ 0 < ts_active s) l -> NoDup (map ts_addr l) ->
  is_Some (lookup_in id l) ->
  exists l', pop_busy id l = Some l'
    /\ Forall (fun s => set_ok s /\ ts_disattached s = true /\ 0 < ts_active s) l'
    /\ map ts_addr l' `sublist_of` map ts_addr l
    /\ total_active l' = (total_active l - 1)%Z
    /\ forall j, lookup_in j l' = if decide (j = id) then None else lookup_in j l.
Proof.
  induction l as [|s l IH]; intros Hf Hnd Hsome; cbn [lookup_in pop_busy map] in *; [by destruct Hsome|].
  inversion_clear Hf as [|? ? (Hs & Hd & Ha) Hl]. apply NoDup_cons in Hnd as [Hn Hnd].
  destruct (Nat.eqb_spec (ts_addr s) (id.1)) as [E|E].
  - destruct (pop_task_ok id.2 s Hs Hsome) as (r & -> & Hr). cbn [mbind option_bind].
    eexists. split; [reflexivity|]. destruct r as [s'|].
    + destruct Hr as (H1 & H2 & H3 & H4 & H5 & H6). split; [constructor; [|exact Hl]; rewrite H5; auto|].
      split; [cbn [map]; by rewrite H2|]. split; [cbn [total_active foldr]; unfold total_active; lia|].
      intros [j1 j2]. cbn [lookup_in fst snd]. rewrite H2, H3. destruct id as [i1 i2]; cbn [fst snd] in *. subst i1.
      destruct (Nat.eqb_spec (ts_addr s) j1) as [<-|E1].
      * destruct (decide (j2 = i2)) as [->|Hne]; [rewrite lookup_delete_eq, decide_True by done; reflexivity|].
        rewrite lookup_delete_ne, decide_False by congruence. reflexivity.
      * rewrite decide_False by congruence. reflexivity.
    + destruct Hr as (_ & H2 & H3). split; [exact Hl|]. split; [by apply sublist_cons|].
      split; [cbn [total_active foldr]; unfold total_active; lia|].
      intros [j1 j2]. destruct id as [i1 i2]; cbn [lookup_in fst snd] in *. subst i1.
      destruct (Nat.eqb_spec (ts_addr s) j1) as [<-|E1].
      * rewrite (lookup_in_none (ts_addr s, j2) l Hn). destruct (decide _) as [?|Hne]; [done|].
        assert (Hj : base.delete i2 (ts_data s) !! j2 = None) by (by rewrite H3).
        rewrite lookup_delete_ne in Hj by congruence. done.
      * rewrite decide_False by congruence. reflexivity.
  - destruct (IH Hl Hnd Hsome) as (l' & -> & H1 & H2 & H3 & H4). cbn [mbind option_bind].
    eexists. split; [reflexivity|]. split; [by constructor|]. split; [cbn [map]; by apply sublist_skip|].
    split; [cbn [total_active foldr] in *; unfold total_active in *; lia|].
    intros j. cbn [lookup_in]. rewrite H4. destruct (Nat.eqb_spec (ts_addr s) (j.1)) as [Ej|Ej]; [|reflexivity].
    rewrite decide_False; [reflexivity|]. intros ->. done.
Qed.

Lemma discard_ok id p :
  io_ok p -> is_Some (lookup_task id p) ->
  exists p', discard id p = Some p' /\ io_ok p' /\ io_reserved p' = (io_reserved p - 1)%Z
    /\ forall j, lookup_task j p' = if decide (j = id) then None else lookup_task j p.
Proof.
  intros [H1 H2 H3 H4 H5 H6] Hsome. unfold discard, lookup_task in *. cbn [lookup_in] in *.
  apply NoDup_cons in H4 as [H4 H4'].
  destruct (Nat.eqb_spec (ts_addr (io_set p)) (id.1)) as [E|E].
  - destruct (pop_task_ok id.2 _ H1 Hsome) as (r & -> & Hr). cbn [mbind option_bind].
    destruct r as [s'|]; [|destruct Hr; congruence]. destruct Hr as (K1 & K2 & K3 & K4 & K5 & _).
    eexists. split; [reflexivity|]. split; [|split; [reflexivity|]].
    + split; cbn; try done; [congruence | unfold addrs; cbn; rewrite K2; by apply NoDup_cons |].
      rewrite H5. cbn [total_active foldr]. lia.
    + intros [j1 j2]. destruct id as [i1 i2]; cbn [lookup_in with_set io_set io_busy fst snd] in *. rewrite K2, K3. subst i1.
      destruct (Nat.eqb_spec (ts_addr (io_set p)) j1) as [<-|E1].
      * destruct (decide (j2 = i2)) as [->|Hne]; [rewrite lookup_delete_eq, decide_True by done; reflexivity|].
        rewrite lookup_delete_ne, decide_False by congruence. reflexivity.
      * rewrite decide_False by congruence. reflexivity.
  - destruct (pop_busy_ok id _ H3 H4' Hsome) as (l' & -> & K1 & K2 & K3 & K4). cbn [mbind option_bind].
    eexists. split; [reflexivity|]. split; [|split; [reflexivity|]].
    + split; cbn; try done.
      * unfold addrs. cbn [map io_set io_busy]. apply NoDup_cons. split.
        -- intros Hin. apply H4. by eapply elem_of_sublist.
        -- by eapply sublist_NoDup.
      * rewrite H5. cbn [total_active foldr] in *. unfold total_active in K3. lia.
    + intros j. cbn [io_set io_busy lookup_in]. rewrite K4.
      destruct (Nat.eqb_spec (ts_addr (io_set p)) (j.1)) as [Ej|Ej]; [|reflexivity].
      rewrite decide_False; [reflexivity|]. intros ->. done.
Qed.

(** What the system around the queue does: a ring of the size the code asks for,
    submissions that succeed, and an allocator that gives memory not in use. *)
Hypothesis ring_size : 2 < TotalTasksItems.
Hypothesis submissions_succeed : forall n, submit_ok n = true.
Hypothesis new_addr_fresh : forall l, new_addr l ∉ l.

Lemma io_init_ok : io_ok init.
Proof.
  split; cbn; try done; try lia.
  - apply init_set_ok.
  - unfold addrs. cbn. apply NoDup_singleton.
Qed.

Lemma get_set_ok p :
  io_ok p ->
  io_ok (get_blocking_tasks_set p).1
  /\ (if (get_blocking_tasks_set p).2 then free (io_set (get_blocking_tasks_set p).1) = true
      else exists n, alloc_ok n = false)
  /\ io_reserved (get_blocking_tasks_set p).1 = io_reserved p
  /\ forall j, lookup_task j (get_blocking_tasks_set p).1 = lookup_task j p.
Proof.
  intros [H1 H2 H3 H4 H5 H6]. unfold get_blocking_tasks_set. destruct (free (io_set p)) eqn:Ef; [by split|].
  destruct (alloc_ok (io_allocs p)) eqn:Ea; cbn [fst snd].
  - assert (Hact : 0 < ts_active (io_set p)).
    { rewrite (so_active _ H1). pose proof (set_count _ H1). unfold free in Ef. apply Nat.ltb_ge in Ef. lia. }
    pose proof H4 as Hnd. apply NoDup_cons in Hnd as [Hn1 Hn2].
    assert (Hnew : new_addr (addrs p) ∉ addrs p) by apply new_addr_fresh.
    split; [|split; [|split; [reflexivity|]]].
    + split; cbn [io_set io_busy io_sq io_reserved]; try done.
      * apply init_set_ok.
      * apply Forall_app. split; [exact H3|]. constructor; [|constructor]. split; [|by split]. by destruct H1.
      * unfold addrs at 1. cbn [map io_set io_busy init_set ts_addr]. rewrite map_app. cbn [map set_disattached ts_addr].
        apply NoDup_cons. split.
        -- intros Hin. apply Hnew, elem_of_cons. apply elem_of_app in Hin as [Hin|Hin]; [by right|].
           left. by apply list_elem_of_singleton in Hin.
        -- apply NoDup_app. split; [exact Hn2|]. split; [|apply NoDup_singleton].
           intros x Hx Hx'. apply list_elem_of_singleton in Hx'. by subst x.
      * cbn [total_active foldr] in *. change (foldr _ _ ?l) with (total_active l) in *.
        rewrite total_active_app. cbn [total_active foldr init_set ts_active]. cbn [set_disattached ts_active]. lia.
    + unfold free. apply Nat.ltb_lt. cbn. lia.
    + intros j. unfold lookup_task. cbn [io_set io_busy]. cbn [lookup_in]. cbn [init_set ts_addr ts_data].
      destruct (Nat.eqb_spec (new_addr (addrs p)) (j.1)) as [Ej|Ej].
      * rewrite lookup_empty. symmetry. apply (lookup_in_none j (io_set p :: io_busy p)). rewrite <- Ej. exact Hnew.
      * rewrite lookup_in_perm; [reflexivity|]. cbn [set_disattached ts_addr].
        destruct (decide (j.1 = ts_addr (io_set p))) as [E|E]; [left; by rewrite E | by right].
  - split; [|split; [eauto | split; reflexivity]].
    split; cbn; try done. by destruct H1.
Qed.

Lemma flush_ok p : (flush_pending_sqes p).2 = true /\ io_sq (flush_pending_sqes p).1 = 0
  /\ io_set (flush_pending_sqes p).1 = io_set p /\ io_busy (flush_pending_sqes p).1 = io_busy p
  /\ io_reserved (flush_pending_sqes p).1 = io_reserved p.
Proof.
  unfold flush_pending_sqes. destruct (Nat.eqb_spec (io_sq p) 0) as [E|E]; [by repeat split|].
  rewrite submissions_succeed. by repeat split.
Qed.

Lemma io_ok_sq p q :
  io_ok p -> io_set q = io_set p -> io_busy q = io_busy p -> io_reserved q = io_reserved p ->
  io_sq q < TotalTasksItems -> io_ok q.
Proof. intros [H1 H2 H3 H4 H5 H6] E1 E2 E3 Hq. split; unfold addrs in *; rewrite ?E1, ?E2, ?E3 in *; done. Qed.

(** Queueing fails only when a new set cannot be allocated. *)
Lemma queue_unlocked_ok c p :
  io_ok p -> exists p' r, queue_unlocked c p = Some (p', r) /\ io_ok p'
    /\ match r with
       | Some id => lookup_task id p = None
           /\ io_reserved p' = (io_reserved p + 1)%Z
           /\ forall j, lookup_task j p' = if decide (j = id) then Some c else lookup_task j p
       | None => io_reserved p' = io_reserved p /\ (exists n, alloc_ok n = false)
           /\ forall j, lookup_task j p' = lookup_task j p
       end.
Proof.
  intros Hok. destruct (get_set_ok p Hok) as (H1 & H2 & H3 & H4). unfold queue_unlocked. cbn zeta.
  destruct (get_blocking_tasks_set p) as [p0 [|]]; cbn [fst snd] in *; [|by eexists _, None].
  destruct (push_ok c _ (iok_set _ H1) H2) as (i & s & -> & K1 & K2 & K3 & K4 & K5 & K6).
  set (p1 := with_set s 1 p0).
  assert (Hp1 : io_ok p1).
  { destruct H1 as [G1 G2 G3 G4 G5 G6]. split; cbn; try done; [congruence | unfold addrs in *; cbn in *; by rewrite K3|].
    rewrite G5. cbn [total_active foldr]. lia. }
  assert (Hl : forall j, lookup_task j p1 = if decide (j = (ts_addr s, i)) then Some c else lookup_task j p).
  { intros [j1 j2]. rewrite <- H4. unfold lookup_task, p1. cbn [with_set io_set io_busy lookup_in fst snd]. rewrite K2, K3.
    destruct (Nat.eqb_spec (ts_addr (io_set p0)) j1) as [<-|E].
    - destruct (decide (j2 = i)) as [->|Hne]; [rewrite lookup_insert_eq, decide_True by done; reflexivity|].
      rewrite lookup_insert_ne, decide_False by congruence. reflexivity.
    - rewrite decide_False by congruence. reflexivity. }
  assert (Hfresh : lookup_task (ts_addr s, i) p = None).
  { rewrite <- H4. unfold lookup_task. cbn [lookup_in fst snd]. by rewrite K3, Nat.eqb_refl. }
  unfold get_sqe. rewrite (proj2 (Nat.ltb_lt _ _)) by apply (iok_sq _ Hp1).
  set (p2 := Io _ _ _ _ _ _).
  change (io_sq p2) with (S (io_sq p1)).
  destruct (Nat.leb_spec (TotalTasksItems - 2) (S (io_sq p1))) as [Hle|Hgt].
  - destruct (flush_ok p2) as (F1 & F2 & F3 & F4 & F5). rewrite F1.
    eexists _, (Some _). split; [reflexivity|]. split; [|split; [exact Hfresh|]].
    + apply (io_ok_sq p1); [exact Hp1 | exact F3 | exact F4 | exact F5 | lia].
    + split; [rewrite F5; cbn; lia|]. intros j. unfold lookup_task. rewrite F3, F4. apply Hl.
  - eexists _, (Some _). split; [reflexivity|]. split; [|split; [exact Hfresh|]].
    + apply (io_ok_sq p1); [exact Hp1 | done | done | done |]. change (S (io_sq p1) < TotalTasksItems). lia.
    + split; [cbn; lia|]. exact Hl.
Qed.

Lemma queue_cancel_ok id p :
  io_ok p -> exists p' b, queue_cancel id p = Some (p', b) /\ io_ok p' /\ io_reserved p' = io_reserved p
    /\ forall j, lookup_task j p' = lookup_task j p.
Proof.
  intros Hok. destruct (get_set_ok p Hok) as (H1 & H2 & H3 & H4). unfold queue_cancel. cbn zeta.
  destruct (get_blocking_tasks_set p) as [p0 [|]]; cbn [fst snd] in *; [|by eexists _, false].
  unfold get_sqe. rewrite (proj2 (Nat.ltb_lt _ _)) by apply (iok_sq _ H1).
  set (p2 := Io _ _ _ _ _ _). destruct (flush_ok p2) as (F1 & F2 & F3 & F4 & F5).
  destruct (flush_pending_sqes p2) as [q b]; cbn [fst snd] in *.
  eexists _, _. split; [reflexivity|]. split; [apply (io_ok_sq p0); [exact H1 | exact F3 | exact F4 | exact F5 | lia]|].
  split; [by rewrite F5|]. intros j. rewrite <- H4. unfold lookup_task. by rewrite F3, F4.
Qed.

Lemma complete_ok id c p :
  io_ok p -> lookup_task id p = Some c ->
  exists p', complete id p = Some (c, p') /\ io_ok p' /\ io_reserved p' = (io_reserved p - 1)%Z
    /\ forall j, lookup_task j p' = if decide (j = id) then None else lookup_task j p.
Proof.
  intros Hok Hc. destruct (discard_ok id p Hok (ex_intro _ _ Hc)) as (p' & Hd & H1 & H2 & H3).
  exists p'. unfold complete. rewrite Hc. cbn [mbind option_bind]. rewrite Hd. auto.
Qed.

(** The callbacks [deinit] hands over, with their tasks. *)
Lemma cancel_all_ok s :
  set_ok s -> exists slots, NoDup slots /\ Forall2 (fun i c => ts_data s !! i = Some c) slots (cancel_all s)
    /\ forall i, is_Some (ts_data s !! i) -> i ∈ slots.
Proof.
  intros Hs. unfold cancel_all.
  exists (filter (fun i => is_Some (ts_data s !! i)) (seq 0 (ts_index s))). split; [apply NoDup_filter, NoDup_seq|]. split.
  - induction (seq 0 (ts_index s)) as [|i l IH]; cbn [omap list_omap]; [constructor|].
    destruct (ts_data s !! i) as [c|] eqn:E.
    + rewrite filter_cons_True by eauto. by constructor.
    + rewrite filter_cons_False by (rewrite E; intros [? ?]; done). exact IH.
  - intros i Hi. apply list_elem_of_filter. split; [exact Hi|]. apply elem_of_seq. pose proof (so_data _ Hs i Hi). lia.
Qed.

Lemma deinit_ok p :
  io_ok p -> exists ids, NoDup ids /\ Forall2 (fun id c => lookup_task id p = Some c) ids (deinit p)
    /\ forall id, is_Some (lookup_task id p) -> id ∈ ids.
Proof.
  intros [H1 _ H3 H4 _ _]. unfold deinit, lookup_task, addrs in *.
  assert (Hall : Forall set_ok (io_set p :: io_busy p)) by (constructor; [exact H1|]; eapply Forall_impl; [exact H3|]; by intros ? [? _]).
  clear H1 H3. induction (io_set p :: io_busy p) as [|s l IH]; cbn [map concat].
  { exists []. split; [constructor|]. split; [constructor|]. intros id [? Hid]. done. }
  inversion_clear Hall as [|? ? Hs Hl]. cbn [map] in H4. apply NoDup_cons in H4 as [Hn Hnd].
  destruct (IH Hnd Hl) as (ids & K1 & K2 & K3). destruct (cancel_all_ok s Hs) as (slots & G1 & G2 & G3).
  exists (map (pair (ts_addr s)) slots ++ ids). split; [|split].
  - apply NoDup_app. split; [apply NoDup_fmap_2; [|exact G1]; by intros ? ? [= ->]|]. split; [|exact K1].
    intros id Hid Hin. apply list_elem_of_fmap in Hid as (i & -> & _). apply Hn.
    apply list_elem_of_lookup in Hin as [n Hin]. destruct (Forall2_lookup_l _ _ _ _ _ K2 Hin) as (c & _ & Hc).
    destruct (decide (ts_addr s ∈ map ts_addr l)) as [|Hno]; [done|]. by rewrite (lookup_in_none (ts_addr s, i)) in Hc.
  - apply Forall2_app.
    + apply Forall2_fmap_l. eapply Forall2_impl; [exact G2|]. intros i c Hc. cbn. by rewrite Nat.eqb_refl.
    + eapply Forall2_impl; [exact K2|]. intros [j1 j2] c Hc. cbn [lookup_in fst snd] in *.
      destruct (Nat.eqb_spec (ts_addr s) j1) as [<-|E]; [|exact Hc].
      by rewrite (lookup_in_none (ts_addr s, j2) l Hn) in Hc.
  - intros [j1 j2] Hj. cbn [lookup_in fst snd] in Hj. apply elem_of_app.
    destruct (Nat.eqb_spec (ts_addr s) j1) as [<-|E]; [|right; by apply K3].
    left. apply list_elem_of_fmap. exists j2. split; [reflexivity | by apply G3].
Qed.

(** ** The queue against the map of the tasks in flight *)

Inductive op : Type :=
| Queue (c : C)
| CancelIO (id : task_id)
| Completion (id : task_id).

(** The kernel completes the tasks in flight; a completion of another id is no
    event. *)
Definition perform (o : op) (p : io) : option (io * option (task_id + C)) :=
  match o with
  | Queue c => '(p, r) ← queue_unlocked c p; Some (p, option_map inl r)
  | CancelIO id => '(p, _) ← queue_cancel id p; Some (p, None)
  | Completion id =>
      match lookup_task id p with
      | Some _ => '(c, p) ← complete id p; Some (p, Some (inr c))
      | None => Some (p, None)
      end
  end.

Fixpoint perform_all (os : list op) (p : io) : option (io * list (option (task_id + C))) :=
  match os with
  | [] => Some (p, [])
  | o :: os => '(p, a) ← perform o p; '(p, l) ← perform_all os p; Some (p, a :: l)
  end.

Inductive tasks_step (m : gmap task_id C) : op -> gmap task_id C -> option (task_id + C) -> Prop :=
| ts_queued c id : m !! id = None -> tasks_step m (Queue c) (<[id := c]> m) (Some (inl id))
| ts_refused c : (exists n, alloc_ok n = false) -> tasks_step m (Queue c) m None
| ts_cancel id : tasks_step m (CancelIO id) m None
| ts_complete id c : m !! id = Some c -> tasks_step m (Completion id) (base.delete id m) (Some (inr c))
| ts_no_event id : m !! id = None -> tasks_step m (Completion id) m None.

Inductive tasks_steps : gmap task_id C -> list op -> gmap task_id C -> list (option (task_id + C)) -> Prop :=
| tss_nil m : tasks_steps m [] m []
| tss_cons m o m1 a os m2 l :
    tasks_step m o m1 a -> tasks_steps m1 os m2 l -> tasks_steps m (o :: os) m2 (a :: l).

(** The tasks of the queue and the slots reserved for them. *)
Definition tracks (p : io) (m : gmap task_id C) : Prop :=
  io_ok p /\ (forall id, lookup_task id p = m !! id) /\ io_reserved p = Z.of_nat (size m).

Lemma perform_tracks o p m :
  tracks p m -> exists p' a m', perform o p = Some (p', a) /\ tasks_step m o m' a /\ tracks p' m'.
Proof.
  intros (Hok & Hm & Hr). destruct o as [c|id|id]; cbn [perform].
  - destruct (queue_unlocked_ok c p Hok) as (p' & [id|] & -> & H1 & H2); cbn [mbind option_bind option_map].
    + destruct H2 as (H2 & H3 & H4). rewrite Hm in H2. eexists _, _, _. split; [reflexivity|].
      split; [by apply ts_queued|]. split; [exact H1|]. split.
      * intros j. rewrite H4. destruct (decide (j = id)) as [->|Hne]; [by rewrite lookup_insert_eq|].
        by rewrite lookup_insert_ne, Hm by congruence.
      * rewrite map_size_insert_None by exact H2. lia.
    + destruct H2 as (H2 & H4 & H3). eexists _, _, _. split; [reflexivity|]. split; [by apply ts_refused|].
      split; [exact H1|]. split; [intros j; by rewrite H3 | lia].
  - destruct (queue_cancel_ok id p Hok) as (p' & b & -> & H1 & H2 & H3).
    eexists _, _, _. split; [reflexivity|]. split; [apply ts_cancel|].
    split; [exact H1|]. split; [intros j; by rewrite H3 | lia].
  - destruct (lookup_task id p) as [c|] eqn:E.
    + destruct (complete_ok id c p Hok E) as (p' & -> & H1 & H2 & H3). rewrite Hm in E.
      eexists _, _, _. split; [reflexivity|]. split; [by apply ts_complete|]. split; [exact H1|]. split.
      * intros j. rewrite H3. destruct (decide (j = id)) as [->|Hne]; [by rewrite lookup_delete_eq|].
        by rewrite lookup_delete_ne, Hm by congruence.
      * rewrite map_size_delete_Some by eauto.
        assert (0 < size m) by (destruct (size m) eqn:Es; [apply map_size_empty_inv in Es; by subst m | lia]). lia.
    + rewrite Hm in E. eexists _, _, _. split; [reflexivity|]. split; [by apply ts_no_event | by split].
Qed.

(** Whatever is queued, cancelled and completed, the queue of blocking tasks
    never touches a set it has freed nor writes outside one; an operation gets an
    id that no operation in flight has and its completion finds the callback queued
    with it, an operation is refused only when an allocation fails, and
    [reserved_slots] counts the operations in flight. *)
Theorem tasks_in_flight_exact (os : list op) :
  exists p answers m, perform_all os init = Some (p, answers) /\ tasks_steps ∅ os m answers
    /\ (forall id, lookup_task id p = m !! id) /\ io_reserved p = Z.of_nat (size m).
Proof.
  assert (H : forall os p m, tracks p m ->
    exists p' answers m', perform_all os p = Some (p', answers) /\ tasks_steps m os m' answers /\ tracks p' m').
  { clear os. induction os as [|o os IH]; intros p m Hp; cbn [perform_all].
    - eexists _, _, _. split; [reflexivity|]. split; [constructor | exact Hp].
    - destruct (perform_tracks o p m Hp) as (p1 & a & m1 & -> & H1 & H2).
      destruct (IH p1 m1 H2) as (p2 & l & m2 & E & H3 & H4). cbn [mbind option_bind]. rewrite E.
      eexists _, _, _. split; [reflexivity|]. split; [by econstructor | exact H4]. }
  destruct (H os init ∅) as (p & l & m & E & H1 & _ & H2 & H3).
  - split; [apply io_init_ok|]. split; [|reflexivity]. intros [i j]. unfold lookup_task. cbn. by destruct (new_addr [] =? i).
  - by exists p, l, m.
Qed.

(** ** The queue as a pool of tasks *)

#[export] Instance io_pool : TaskPool io C := {
  pool_queue := queue_unlocked;
  pool_cancel := queue_cancel;
  pool_complete := complete;
  pool_deinit := deinit;
  pool_lookup := lookup_task;
  pool_ok := io_ok }.

Lemma io_pool_laws : TaskPoolLaws io C.
Proof.
  split; cbn [pool_ok pool_queue pool_lookup pool_cancel pool_complete pool_deinit io_pool].
  - intros c p Hok. destruct (queue_unlocked_ok c p Hok) as (p' & r & H1 & H2 & H3).
    exists p', r. split; [exact H1|]. split; [exact H2|]. destruct r; tauto.
  - intros id p Hok. destruct (queue_cancel_ok id p Hok) as (p' & b & H1 & H2 & _ & H3). eauto.
  - intros id c p Hok Hc. destruct (complete_ok id c p Hok Hc) as (p' & H1 & H2 & _ & H3). eauto.
  - exact deinit_ok.
Qed.
End IoTasks.

(** Two slots to a set, the third allocation fails; sets get the next address. *)
Definition sample_addr (l : list nat) : nat := S (foldr max 0 l).

Lemma sample_addr_fresh l : sample_addr l ∉ l.
Proof.
  assert (H : forall x, x ∈ l -> x <= foldr max 0 l).
  { induction l as [|y l IH]; intros x Hx; [by apply elem_of_nil in Hx|].
    apply elem_of_cons in Hx as [->|Hx]; cbn [foldr]; [lia|]. specialize (IH x Hx). lia. }
  intros Hin. specialize (H _ Hin). unfold sample_addr in H. lia.
Qed.

Definition sample_ops : list (@op nat) :=
  [Queue 10; Queue 11; Queue 12; Queue 13; Completion (1, 0); CancelIO (2, 0); Completion (1, 1); Queue 14; Completion (9, 9)].

Lemma tasks_in_flight_exact_witness :
  2 < 3 /\ exists p answers m, perform_all 3 (fun _ => true) (fun _ => true) sample_addr sample_ops (init sample_addr) = Some (p, answers)
    /\ tasks_steps (fun _ => true) ∅ sample_ops m answers
    /\ (forall id, lookup_task id p = m !! id) /\ io_reserved p = Z.of_nat (size m).
Proof.
  split; [lia|].
  refine (tasks_in_flight_exact 3 (fun _ => true) (fun _ => true) sample_addr _ (fun _ => eq_refl) sample_addr_fresh sample_ops).
  lia.
Defined.

Lemma sample_tasks :
  snd <$> perform_all 3 (fun _ => true) (fun _ => true) sample_addr sample_ops (init sample_addr)
  = Some [Some (inl (1, 0)); Some (inl (1, 1)); Some (inl (1, 2)); Some (inl (2, 0)); Some (inr 10); None;
          Some (inr 11); Some (inl (2, 1)); None].
Proof. by vm_compute. Qed.

(** A submission that fails after the operation was put in the ring: the caller gets
    an error, and the operation is still in flight. *)
Lemma failed_submission_stays_queued :
  exists p, queue_unlocked 3 (fun _ => true) (fun _ => false) sample_addr 7 (init sample_addr) = Some (p, None)
    /\ lookup_task (1, 0) p = Some 7.
Proof. eexists. split; [by vm_compute | reflexivity]. Qed.
