(* ===== verification/Watchers.v ===== *)
(** * Descriptor watchers (src/src/loop/python/io/watchers.zig)

    [add_reader], [add_writer], [remove_reader], [remove_writer], the completion of
    the poll of a watcher, the callback that runs the Python handle and arms the
    poll again, and the part of closing the loop that frees the watchers.  A watcher
    is a heap object that the tree of its kind ([BTree]), the callback of its poll
    and the ready callback point to; a handle is a reference count.  [None] is a
    fault: a use of freed memory or a count that falls below zero.  The blocking
    tasks are any [TaskPool].  The ready queue is a list any element of which may
    be the next to run. *)

From stdpp Require Import base numbers list gmap.
From Stdlib Require Import ZArith Lia.
From S2P Require Import Prelude BTree IoTasks.

Open Scope nat_scope.

Inductive event_type : Type := POLLIN | POLLOUT.

#[export] Instance event_type_eq_dec : EqDecision event_type.
Proof. solve_decision. Defined.

#[export] Instance event_type_countable : Countable event_type.
Proof.
  refine (inj_countable' (fun e => match e with POLLIN => true | POLLOUT => false end)
            (fun b : bool => if b then POLLIN else POLLOUT) _).
  by intros [].
Defined.

(** [FDWatcher]; [w_callback] is the callback of its handle. *)
Record watcher : Type := Watcher {
  w_handle : nat;
  w_callback : nat;
  w_task : option task_id;
  w_event : event_type;
  w_fd : Z }.

(** The callback of a blocking task: the poll of a watcher, or another component's. *)
Inductive task_callback : Type :=
| PollDone (a : nat)
| OtherTask (n : nat).

(** A callback in the ready queues: [loop_watchers_callback],
    [loop_watcher_python_wrapper_callback] or another. *)
Inductive ready_callback : Type :=
| Polled (a : nat) (success : bool)
| Wrapper (a : nat)
| OtherReady (n : nat).

(** What can be seen of the registrations. *)
Inductive observation : Type :=
| Added (e : event_type) (fd : Z) (callback : nat)
| Removed (e : event_type) (fd : Z) (found : bool)
| Gone (e : event_type) (fd : Z)
| Called (e : event_type) (fd : Z) (callback : nat).

(** [WatchersBTree] is [BTree(fd_t, *FDWatcher, 11)]. *)
Definition Degree : nat := 11.

Section Watchers.
Context {P : Type} `{TaskPool P task_callback}.

Record world : Type := World {
  store : gmap nat watcher;
  handles : gmap nat nat;
  readers : option (btree (V := nat));
  writers : option (btree (V := nat));
  pool : option P;
  ready : list ready_callback;
  initialized : bool;
  allocs : nat;
  log : list observation;
  cancels : list task_id }.

#[export] Instance eta_world : Eta world := fun w =>
  World (store w) (handles w) (readers w) (writers w) (pool w) (ready w) (initialized w)
    (allocs w) (log w) (cancels w).

Open Scope py_scope.

Definition observe (o : observation) (w : world) : world := w <| log := log w ++ [o] |>.

(** The allocations that succeed, those of the trees, and the addresses of a new
    watcher and a new handle given those in use. *)
Variables (alloc_ok tree_alloc_ok : nat -> bool) (new_addr : list nat -> nat).

Definition in_use {A} (m : gmap nat A) : list nat := (map_to_list m).*1.

Definition alloc (w : world) : bool * world := (alloc_ok (allocs w), w <| allocs := S (allocs w) |>).

Definition tree (e : event_type) (w : world) : option btree :=
  match e with POLLIN => readers w | POLLOUT => writers w end.

Definition set_tree (e : event_type) (t : option btree) (w : world) : world :=
  w <| readers := match e with POLLIN => t | POLLOUT => readers w end |>
    <| writers := match e with POLLIN => writers w | POLLOUT => t end |>.

Definition set_watcher (a : nat) (x : watcher) (w : world) : world := w <| store := <[a := x]> (store w) |>.

Definition with_fd (fd : Z) (x : watcher) : watcher :=
  Watcher (w_handle x) (w_callback x) (w_task x) (w_event x) fd.
Definition with_task (t : option task_id) (x : watcher) : watcher :=
  Watcher (w_handle x) (w_callback x) t (w_event x) (w_fd x).

Definition incref (h : nat) (w : world) : option world :=
  n ← handles w !! h; Some (w <| handles := <[h := S n]> (handles w) |>).

Definition decref (h : nat) (w : world) : option world :=
  n ← handles w !! h;
  match n with
  | 0 => None
  | 1 => Some (w <| handles := base.delete h (handles w) |>)
  | S n => Some (w <| handles := <[h := n]> (handles w) |>)
  end.

(** [watchers.delete]: the watcher that was there. *)
Definition tree_delete (e : event_type) (fd : Z) (w : world) : option (world * option nat) :=
  t ← tree e w; '(t, r) ← BTree.delete fd t; Some (set_tree e (Some t) w, r).

(** [io.queue_unlocked] of the poll of a watcher, of a cancellation and of another
    operation. *)
Definition queue (c : task_callback) (w : world) : option (world * option task_id) :=
  match pool w with
  | None => Some (w, None)
  | Some p => '(p, r) ← pool_queue c p; Some (w <| pool := Some p |>, r)
  end.

Definition cancel_io (id : task_id) (w : world) : option (world * bool) :=
  match pool w with
  | None => Some (w, false)
  | Some p =>
      '(p, b) ← pool_cancel id p;
      Some (w <| pool := Some p |> <| cancels := cancels w ++ [id] |>, b)
  end.

(** [loop_watchers_cleanup_callback]. *)
Definition cleanup (a : nat) (w : world) : option world :=
  x ← store w !! a;
  w ← (if (0 <=? w_fd x)%Z
       then '(w, _) ← tree_delete (w_event x) (w_fd x) w; Some (observe (Gone (w_event x) (w_fd x)) w)
       else Some w);
  w ← decref (w_handle x) w;
  Some (w <| store := base.delete a (store w) |>).

(** ** The methods of the loop *)

(** A descriptor is a C int that is not negative. *)
Definition valid_fd (fd : Z) : bool := (0 <=? fd)%Z && (fd <? 2 ^ 31)%Z.

(** The replaced watcher is taken out of the tree and told so; its callback will free
    it. [false]: the cancellation of its poll raised. *)
Definition drop_existing (e : event_type) (fd : Z) (w : world) : option (world * bool) :=
  t ← tree e w;
  match get_value fd (root t) with
  | None => Some (w, true)
  | Some a =>
      '(w, _) ← tree_delete e fd w;
      let w := observe (Gone e fd) w in
      x ← store w !! a;
      let w := set_watcher a (with_fd (-1) x) w in
      match w_task x with
      | Some id => cancel_io id w
      | None => Some (w, true)
      end
  end.

(** The new watcher, in the tree and with its poll in flight. *)
Definition install (e : event_type) (fd : Z) (cb h : nat) (w : world) : option (world * bool) :=
  let '(ok, w) := alloc w in
  if ok then
    let a := new_addr (in_use (store w)) in
    let x := Watcher h cb None e fd in
    let w := set_watcher a x w in
    t ← tree e w;
    '(t, inserted) ← BTree.insert Degree tree_alloc_ok fd a t;
    let w := set_tree e (Some t) w in
    if inserted : bool then
      '(w, r) ← queue (PollDone a) w;
      match r with
      | Some id => Some (observe (Added e fd cb) (set_watcher a (with_task (Some id) x) w), true)
      | None =>
          '(w, _) ← tree_delete e fd w;
          Some (w <| store := base.delete a (store w) |>, false)
      end
    else Some (w <| store := base.delete a (store w) |>, false)
  else Some (w, false).

(** [z_loop_add_watcher]; [false]: it raised. *)
Definition add_watcher (e : event_type) (fd : Z) (cb : nat) (w : world) : option (world * bool) :=
  if valid_fd fd then
    let '(ok, w) := alloc w in
    if ok then
      let h := new_addr (in_use (handles w)) in
      let w := w <| handles := <[h := 1]> (handles w) |> in
      '(w, ok) ← (if initialized w then
                    '(w, ok) ← drop_existing e fd w;
                    if ok : bool then install e fd cb h w else Some (w, false)
                  else Some (w, false));
      if ok : bool then Some (w, true) else w ← decref h w; Some (w, false)
    else Some (w, false)
  else Some (w, false).

(** [z_loop_remove_watcher]; no answer: it raised. *)
Definition remove_watcher (e : event_type) (fd : Z) (w : world) : option (world * option bool) :=
  if valid_fd fd && initialized w then
    '(w, r) ← tree_delete e fd w;
    match r with
    | None => Some (observe (Removed e fd false) w, Some false)
    | Some a =>
        let w := observe (Removed e fd true) w in
        x ← store w !! a;
        let w := set_watcher a (with_fd (-1) x) w in
        match w_task x with
        | None => Some (w, Some true)
        | Some id => '(w, ok) ← cancel_io id w; Some (w, if ok : bool then Some true else None)
        end
    end
  else Some (w, None).

(** What code called by the loop may do. *)
Inductive call : Type :=
| AddWatcher (e : event_type) (fd : Z) (callback : nat)
| RemoveWatcher (e : event_type) (fd : Z)
| OtherOperation (n : nat).

Definition user_call (c : call) (w : world) : option world :=
  match c with
  | AddWatcher e fd cb => fst <$> add_watcher e fd cb w
  | RemoveWatcher e fd => fst <$> remove_watcher e fd w
  | OtherOperation n => fst <$> queue (OtherTask n) w
  end.

Fixpoint user_calls (cs : list call) (w : world) : option world :=
  match cs with [] => Some w | c :: cs => w ← user_call c w; user_calls cs w end.

(** ** The callbacks *)

(** How the Python callback ends; an exception goes to the exception handler, which
    makes the calls it likes; KeyboardInterrupt and SystemExit leave the loop. *)
Inductive outcome : Type :=
| Returned
| Raised (handler : list call)
| Interrupted.

(** [loop_watchers_callback]. *)
Definition loop_watchers_callback (a : nat) (success cancelled : bool) (w : world) : option world :=
  x ← store w !! a;
  if cancelled || (w_fd x <? 0)%Z then cleanup a w
  else if success then
    let w := set_watcher a (with_task None x) w in
    w ← incref (w_handle x) w;
    let '(ok, w) := alloc w in
    if ok then Some (w <| ready := ready w ++ [Wrapper a] |>)
    else w ← decref (w_handle x) w; cleanup a w
  else cleanup a w.

(** The end of the wrapper: the watcher is freed or its poll armed again. *)
Definition rearm (a : nat) (w : world) : option world :=
  x ← store w !! a;
  if negb (initialized w) || (w_fd x <? 0)%Z then cleanup a w
  else
    '(w, r) ← queue (PollDone a) w;
    match r with
    | Some id => Some (set_watcher a (with_task (Some id) x) w)
    | None => cleanup a w
    end.

(** [loop_watcher_python_wrapper_callback], and its cleanup when it returns an
    error. *)
Definition wrapper_callback (a : nat) (cancelled : bool) (user : list call) (o : outcome)
    (w : world) : option world :=
  x ← store w !! a;
  if cancelled || (w_fd x <? 0)%Z then w ← decref (w_handle x) w; cleanup a w
  else
    let w := observe (Called (w_event x) (w_fd x) (w_callback x)) (set_watcher a (with_task None x) w) in
    w ← user_calls user w;
    match o with
    | Returned => w ← decref (w_handle x) w; rearm a w
    | Raised handler => w ← decref (w_handle x) w; w ← user_calls handler w; rearm a w
    | Interrupted => w ← decref (w_handle x) w; cleanup a w
    end.

Definition run_ready (r : ready_callback) (cancelled : bool) (user : list call) (o : outcome)
    (w : world) : option world :=
  match r with
  | Polled a success => loop_watchers_callback a success cancelled w
  | Wrapper a => wrapper_callback a cancelled user o w
  | OtherReady _ => if cancelled then Some w else user_calls user w
  end.

(** ** Closing the loop *)

(** [release_dynamic_ring_buffer], for both queues. *)
Fixpoint release_all (rs : list ready_callback) (w : world) : option world :=
  match rs with
  | [] => Some w
  | r :: rs =>
      w ← run_ready r true [] Returned (w <| ready := rs |>);
      release_all rs w
  end.

(** The loop that pops the watchers of a tree; there are as many rounds as entries. *)
Fixpoint pop_watchers (n : nat) (e : event_type) (w : world) : option world :=
  match n with
  | 0 => Some w
  | S n =>
      t ← tree e w;
      '(t, r) ← BTree.pop t;
      match r with
      | None => Some (set_tree e (Some t) w)
      | Some (fd, a) =>
          let w := set_tree e (Some t) w in
          x ← store w !! a;
          pop_watchers n e (observe (Gone e fd) (set_watcher a (with_fd (-1) x) w))
      end
  end.

Definition entries (e : event_type) (w : world) : nat :=
  match tree e w with Some t => S (length (flat (root t))) | None => 0 end.

Definition ready_of (success : bool) (c : task_callback) : ready_callback :=
  match c with PollDone a => Polled a success | OtherTask n => OtherReady n end.

(** What [release_claimed] does to the watchers. *)
Definition release_claimed (w : world) : option world :=
  w ← release_all (ready w) (w <| initialized := false |>);
  w ← pop_watchers (entries POLLIN w) POLLIN w;
  w ← pop_watchers (entries POLLOUT w) POLLOUT w;
  p ← pool w;
  let rs := map (ready_of true) (pool_deinit p) in
  release_all rs (w <| readers := None |> <| writers := None |> <| pool := None |> <| ready := rs |>).

(** ** The events *)

Inductive event : Type :=
| UserCall (c : call)
| Completion (id : task_id) (success : bool)
| RunReady (i : nat) (user : list call) (o : outcome)
| Close.

(** A completion of a task that is not in flight, the run of a callback that is not
    ready and the closing of a closed loop are no events. *)
Definition step (ev : event) (w : world) : option world :=
  match ev with
  | UserCall c => user_call c w
  | Completion id success =>
      match p ← pool w; pool_lookup id p with
      | None => Some w
      | Some _ =>
          p ← pool w;
          '(c, p) ← pool_complete id p;
          Some (w <| pool := Some p |> <| ready := ready w ++ [ready_of success c] |>)
      end
  | RunReady i user o =>
      match ready w !! i with
      | None => Some w
      | Some r => run_ready r false user o (w <| ready := take i (ready w) ++ drop (S i) (ready w) |>)
      end
  | Close => if initialized w then release_claimed w else Some w
  end.

Fixpoint run (evs : list event) (w : world) : option world :=
  match evs with [] => Some w | ev :: evs => w ← step ev w; run evs w end.

(** ** The registrations a log tells of *)

Notation registrations := (gmap (event_type * Z) nat).

(** What one observation does to them; [None] if it is not a possible one. *)
Definition replay1 (o : observation) (m : registrations) : option registrations :=
  match o with
  | Added e fd cb => match m !! (e, fd) with None => Some (<[(e, fd) := cb]> m) | Some _ => None end
  | Removed e fd found =>
      if Bool.eqb found (bool_decide (is_Some (m !! (e, fd)))) then Some (base.delete (e, fd) m) else None
  | Gone e fd => match m !! (e, fd) with Some _ => Some (base.delete (e, fd) m) | None => None end
  | Called e fd cb => match m !! (e, fd) with Some cb' => if cb =? cb' then Some m else None | None => None end
  end.

Fixpoint replay (os : list observation) (m : registrations) : option registrations :=
  match os with [] => Some m | o :: os => m ← replay1 o m; replay os m end.

Lemma replay_app os o : forall m m1, replay os m = Some m1 -> replay (os ++ [o]) m = replay1 o m1.
Proof.
  induction os as [|o' os IH]; intros m m1 E; cbn [replay app] in *.
  - injection E as ->. by destruct (replay1 o m1).
  - destruct (replay1 o' m) as [m'|]; [|discriminate]. cbn [mbind option_bind] in *. eauto.
Qed.

(** ** The invariant *)

Definition tree_map (e : event_type) (w : world) : gmap Z nat :=
  match tree e w with Some t => to_map (flat (root t)) | None => ∅ end.

Definition flight (po : option P) (id : task_id) : option task_callback := p ← po; pool_lookup id p.

Definition whose (r : ready_callback) : option nat :=
  match r with Polled a _ | Wrapper a => Some a | OtherReady _ => None end.

Definition ready_watchers (rs : list ready_callback) : list nat := omap whose rs.

Lemma ready_watchers_app l k : ready_watchers (l ++ k) = ready_watchers l ++ ready_watchers k.
Proof. apply omap_app. Qed.

(** The watcher whose callback runs, and whether it holds a second reference. *)
Definition at_run (cur : option (nat * bool)) (a : nat) : Prop := exists b, cur = Some (a, b).

Definition wrapped (rs : list ready_callback) (cur : option (nat * bool)) (a : nat) : Prop :=
  Wrapper a ∈ rs \/ cur = Some (a, true).

(** The trees hold the watchers that have a descriptor. *)
Record trees_ok (tm : event_type -> gmap Z nat) (st : gmap nat watcher) : Prop := {
  to_entry e fd a : tm e !! fd = Some a ->
    exists x, st !! a = Some x /\ w_event x = e /\ w_fd x = fd /\ (0 <= fd)%Z;
  to_watched a x : st !! a = Some x -> (0 <= w_fd x)%Z -> tm (w_event x) !! w_fd x = Some a }.

(** A watcher is in one place: its poll is in flight, or its callback is ready, or
    it is running. *)
Record places_ok (fl : task_id -> option task_callback) (rs : list ready_callback)
    (cur : option (nat * bool)) (st : gmap nat watcher) : Prop := {
  pl_nodup : NoDup (ready_watchers rs);
  pl_flight id a : fl id = Some (PollDone a) ->
    (exists x, st !! a = Some x /\ w_task x = Some id) /\ a ∉ ready_watchers rs /\ ~ at_run cur a;
  pl_ready a : a ∈ ready_watchers rs -> is_Some (st !! a) /\ ~ at_run cur a;
  pl_run a : at_run cur a -> is_Some (st !! a);
  pl_place a x : st !! a = Some x ->
    (exists id, w_task x = Some id /\ fl id = Some (PollDone a)) \/ a ∈ ready_watchers rs \/ at_run cur a }.

(** A handle is referenced by its watcher and by the wrapper; a handle just made, by
    the method that made it. *)
Record handles_ok (hs : gmap nat nat) (rs : list ready_callback) (cur : option (nat * bool))
    (own : option nat) (st : gmap nat watcher) : Prop := {
  ho_refs a x : st !! a = Some x ->
    (wrapped rs cur a /\ hs !! w_handle x = Some 2) \/ (~ wrapped rs cur a /\ hs !! w_handle x = Some 1);
  ho_inj a b x y : st !! a = Some x -> st !! b = Some y -> w_handle x = w_handle y -> a = b;
  ho_all h : is_Some (hs !! h) -> own = Some h \/ exists a x, st !! a = Some x /\ w_handle x = h;
  ho_own h : own = Some h -> hs !! h = Some 1 /\ forall a x, st !! a = Some x -> w_handle x <> h }.

Definition registered (tm : event_type -> gmap Z nat) (st : gmap nat watcher) (e : event_type) (fd : Z)
    : option nat := a ← tm e !! fd; w_callback <$> st !! a.

(** The log tells what is registered. *)
Definition log_ok (lg : list observation) (tm : event_type -> gmap Z nat) (st : gmap nat watcher) : Prop :=
  exists m, replay lg ∅ = Some m /\ forall e fd, m !! (e, fd) = registered tm st e fd.

Record inv (cur : option (nat * bool)) (own : option nat) (w : world) : Prop := {
  iv_pool p : pool w = Some p -> pool_ok p;
  iv_tree e t : tree e w = Some t -> repr Degree t (tree_map e w);
  iv_open : initialized w = true -> (forall e, is_Some (tree e w)) /\ is_Some (pool w);
  iv_watch : trees_ok (fun e => tree_map e w) (store w);
  iv_place : places_ok (flight (pool w)) (ready w) cur (store w);
  iv_handles : handles_ok (handles w) (ready w) cur own (store w);
  iv_log : log_ok (log w) (fun e => tree_map e w) (store w) }.

(** *** Changes of the parts *)

(** A watcher without its tree entry. *)
Definition tm_delete (e : event_type) (fd : Z) (tm : event_type -> gmap Z nat) (e' : event_type) : gmap Z nat :=
  if decide (e' = e) then base.delete fd (tm e) else tm e'.

Lemma trees_unregister e fd a x tm st :
  trees_ok tm st -> tm e !! fd = Some a -> st !! a = Some x ->
  trees_ok (tm_delete e fd tm) (<[a := with_fd (-1) x]> st).
Proof.
  intros [H1 H2] Ha Hx. unfold tm_delete. split.
  - intros e' fd' b Hb. assert (Hne : (e', fd') <> (e, fd) /\ tm e' !! fd' = Some b).
    { destruct (decide (e' = e)) as [->|Hne]; [|by split; [congruence|]].
      apply lookup_delete_Some in Hb as [Hne Hb]. by split; [congruence|]. }
    destruct Hne as [Hne Hb']. destruct (H1 e' fd' b Hb') as (y & Hy & E1 & E2 & E3).
    exists y. split; [|by split]. rewrite lookup_insert_ne; [exact Hy|]. intros ->.
    destruct (H1 e fd b Ha) as (z & Hz & F1 & F2 & _). congruence.
  - intros b y Hy Hfd. destruct (decide (b = a)) as [->|Hne].
    + rewrite lookup_insert_eq in Hy. injection Hy as <-. cbn in Hfd. lia.
    + rewrite lookup_insert_ne in Hy by done. specialize (H2 b y Hy Hfd).
      destruct (decide (w_event y = e)) as [E|E]; [|exact H2]. rewrite E in H2.
      rewrite lookup_delete_ne; [exact H2|]. intros ->. congruence.
Qed.

Lemma registered_unregister e fd a x tm st e' fd' :
  trees_ok tm st -> tm e !! fd = Some a -> st !! a = Some x ->
  registered (tm_delete e fd tm) (<[a := with_fd (-1) x]> st) e' fd'
  = if decide ((e', fd') = (e, fd)) then None else registered tm st e' fd'.
Proof.
  intros [H1 H2] Ha Hx. unfold registered, tm_delete. destruct (decide ((e', fd') = (e, fd))) as [E|E].
  - injection E as -> ->. rewrite decide_True by done. by rewrite lookup_delete_eq.
  - assert (Hl : (if decide (e' = e) then base.delete fd (tm e) else tm e') !! fd' = tm e' !! fd').
    { destruct (decide (e' = e)) as [->|]; [|done]. apply lookup_delete_ne. congruence. }
    rewrite Hl. destruct (tm e' !! fd') as [b|]; [|done]. cbn [mbind option_bind].
    destruct (decide (b = a)) as [->|Hne]; [by rewrite lookup_insert_eq, Hx|]. by rewrite lookup_insert_ne.
Qed.

(** Changes that leave a watcher its handle, its task and its place. *)
Lemma places_same fl rs cur st a x y :
  places_ok fl rs cur st -> st !! a = Some x -> w_task y = w_task x -> places_ok fl rs cur (<[a := y]> st).
Proof.
  intros [H1 H2 H3 H4 H5] Hx Hy.
  assert (Hs : forall b, is_Some (st !! b) -> is_Some (<[a := y]> st !! b)).
  { intros b Hb. destruct (decide (b = a)) as [->|Hne]; [rewrite lookup_insert_eq; eauto | by rewrite lookup_insert_ne]. }
  split; auto.
  - intros id b Hb. destruct (H2 id b Hb) as ((z & Hz & Ez) & H6). split; [|exact H6].
    destruct (decide (b = a)) as [->|Hne]; [rewrite lookup_insert_eq; exists y; split; congruence | rewrite lookup_insert_ne; eauto].
  - intros b Hb. destruct (H3 b Hb). auto.
  - intros b z Hz. destruct (decide (b = a)) as [->|Hne].
    + rewrite lookup_insert_eq in Hz. injection Hz as <-. rewrite Hy. eauto.
    + rewrite lookup_insert_ne in Hz by done. eauto.
Qed.

Lemma handles_same hs rs cur own st a x y :
  handles_ok hs rs cur own st -> st !! a = Some x -> w_handle y = w_handle x -> handles_ok hs rs cur own (<[a := y]> st).
Proof.
  intros [H1 H2 H3 H4] Hx Hy.
  assert (Hs : forall b z, <[a := y]> st !! b = Some z -> exists z', st !! b = Some z' /\ w_handle z' = w_handle z).
  { intros b z Hz. destruct (decide (b = a)) as [->|Hne].
    - rewrite lookup_insert_eq in Hz. injection Hz as <-. eauto.
    - rewrite lookup_insert_ne in Hz by done. eauto. }
  split.
  - intros b z Hz. destruct (Hs b z Hz) as (z' & Hz' & <-). eauto.
  - intros b c z1 z2 Hz1 Hz2 E. destruct (Hs b z1 Hz1) as (z1' & K1 & F1). destruct (Hs c z2 Hz2) as (z2' & K2 & F2).
    apply (H2 b c z1' z2' K1 K2). congruence.
  - intros h Hh. destruct (H3 h Hh) as [?|(b & z & Hz & E)]; [by left|right]. exists b.
    destruct (decide (b = a)) as [->|Hne]; [exists y; rewrite lookup_insert_eq; split; congruence | exists z; by rewrite lookup_insert_ne].
  - intros h Hh. destruct (H4 h Hh) as [K1 K2]. split; [exact K1|]. intros b z Hz.
    destruct (Hs b z Hz) as (z' & Hz' & <-). eauto.
Qed.

Lemma trees_same tm st a x y :
  trees_ok tm st -> st !! a = Some x -> w_event y = w_event x -> w_fd y = w_fd x -> trees_ok tm (<[a := y]> st).
Proof.
  intros [H1 H2] Hx E1 E2. split.
  - intros e fd b Hb. destruct (H1 e fd b Hb) as (z & Hz & K). destruct (decide (b = a)) as [->|Hne].
    + exists y. rewrite lookup_insert_eq. split; [done|]. rewrite Hx in Hz. injection Hz as ->. by rewrite E1, E2.
    + exists z. by rewrite lookup_insert_ne.
  - intros b z Hz Hfd. destruct (decide (b = a)) as [->|Hne].
    + rewrite lookup_insert_eq in Hz. injection Hz as <-. rewrite E1, E2 in *. auto.
    + rewrite lookup_insert_ne in Hz by done. auto.
Qed.

Lemma registered_same tm st a x y e fd :
  st !! a = Some x -> w_callback y = w_callback x -> registered tm (<[a := y]> st) e fd = registered tm st e fd.
Proof.
  intros Hx E. unfold registered. destruct (tm e !! fd) as [b|]; [|done]. cbn [mbind option_bind].
  destruct (decide (b = a)) as [->|Hne]; [rewrite lookup_insert_eq, Hx; cbn; by rewrite E | by rewrite lookup_insert_ne].
Qed.

Lemma at_run_some a b c : at_run (Some (a, b)) c -> c = a.
Proof. intros [b' E]. by injection E. Qed.

Lemma at_run_none a : ~ at_run None a.
Proof. by intros [b E]. Qed.

(** The poll of the watcher that runs is armed again. *)
Lemma places_armed fl fl' rs a b st x id :
  places_ok fl rs (Some (a, b)) st -> st !! a = Some x -> fl id = None ->
  (forall j, fl' j = if decide (j = id) then Some (PollDone a) else fl j) ->
  places_ok fl' rs None (<[a := with_task (Some id) x]> st).
Proof.
  intros [H1 H2 H3 H4 H5] Hx Hid Hfl.
  assert (Hrun : at_run (Some (a, b)) a) by (by exists b).
  assert (Hno : a ∉ ready_watchers rs) by (intros Hin; by destruct (H3 a Hin)).
  split; [exact H1 | | | by intros c Hc%at_run_none |].
  - intros j c. rewrite Hfl. destruct (decide (j = id)) as [->|Hne].
    + intros [= <-]. split; [|split; [exact Hno | apply at_run_none]]. eexists. by rewrite lookup_insert_eq.
    + intros Hc. destruct (H2 j c Hc) as ((z & Hz & Ez) & K1 & K2).
      assert (c <> a) by (intros ->; done). split; [exists z; by rewrite lookup_insert_ne|].
      split; [exact K1 | apply at_run_none].
  - intros c Hc. destruct (H3 c Hc) as [K1 K2]. split; [|apply at_run_none].
    assert (c <> a) by (intros ->; done). by rewrite lookup_insert_ne.
  - intros c z Hz. destruct (decide (c = a)) as [->|Hne].
    + rewrite lookup_insert_eq in Hz. injection Hz as <-. left. exists id. split; [reflexivity|]. rewrite Hfl. by rewrite decide_True.
    + rewrite lookup_insert_ne in Hz by done. destruct (H5 c z Hz) as [(j & K1 & K2)|[K|K]].
      * left. exists j. split; [exact K1|]. rewrite Hfl. rewrite decide_False; [exact K2|]. intros ->. congruence.
      * auto.
      * by apply at_run_some in K.
Qed.

(** The watcher that runs goes to the ready queue, or away. *)
Lemma places_dispatched fl rs a b st :
  places_ok fl rs (Some (a, b)) st -> places_ok fl (rs ++ [Wrapper a]) None st.
Proof.
  intros [H1 H2 H3 H4 H5]. assert (Hrun : at_run (Some (a, b)) a) by (by exists b).
  assert (Hno : a ∉ ready_watchers rs) by (intros Hin; by destruct (H3 a Hin)).
  assert (Ew : ready_watchers (rs ++ [Wrapper a]) = ready_watchers rs ++ [a]) by (by rewrite ready_watchers_app).
  split; rewrite ?Ew.
  - apply NoDup_app. split; [exact H1|]. split; [|apply NoDup_singleton]. intros c Hc Hc'.
    by apply list_elem_of_singleton in Hc' as ->.
  - intros id c Hc. destruct (H2 id c Hc) as (K1 & K2 & K3). split; [exact K1|]. split; [|apply at_run_none].
    intros [Hin|Hin]%elem_of_app; [done|]. apply list_elem_of_singleton in Hin as ->. done.
  - intros c [Hin|Hin]%elem_of_app; (split; [|apply at_run_none]); [by apply H3|].
    apply list_elem_of_singleton in Hin as ->. auto.
  - by intros c Hc%at_run_none.
  - intros c z Hz. destruct (H5 c z Hz) as [K|[K|K]]; [by left | right; left; apply elem_of_app; by left |].
    apply at_run_some in K as ->. right. left. apply elem_of_app. right. left.
Qed.

Lemma places_destroyed fl rs a b st :
  places_ok fl rs (Some (a, b)) st -> places_ok fl rs None (base.delete a st).
Proof.
  intros [H1 H2 H3 H4 H5]. assert (Hrun : at_run (Some (a, b)) a) by (by exists b).
  split; [exact H1 | | | by intros c Hc%at_run_none |].
  - intros id c Hc. destruct (H2 id c Hc) as ((z & Hz & Ez) & K2 & K3). assert (c <> a) by (intros ->; done).
    split; [exists z; by rewrite lookup_delete_ne|]. split; [exact K2 | apply at_run_none].
  - intros c Hc. destruct (H3 c Hc) as [K1 K2]. assert (c <> a) by (intros ->; done).
    split; [by rewrite lookup_delete_ne | apply at_run_none].
  - intros c z Hz. destruct (decide (c = a)) as [->|Hne]; [by rewrite lookup_delete_eq in Hz|].
    rewrite lookup_delete_ne in Hz by done. destruct (H5 c z Hz) as [K|[K|K]]; auto. by apply at_run_some in K.
Qed.

(** The task of the watcher that runs does not matter. *)
Lemma places_run_task fl rs a b st x y :
  places_ok fl rs (Some (a, b)) st -> st !! a = Some x -> places_ok fl rs (Some (a, b)) (<[a := y]> st).
Proof.
  intros [H1 H2 H3 H4 H5] Hx. assert (Hrun : at_run (Some (a, b)) a) by (by exists b).
  assert (Hs : forall c, is_Some (st !! c) -> is_Some (<[a := y]> st !! c)).
  { intros c Hc. destruct (decide (c = a)) as [->|Hne]; [rewrite lookup_insert_eq; eauto | by rewrite lookup_insert_ne]. }
  split; [exact H1 | | | auto |].
  - intros id c Hc. destruct (H2 id c Hc) as ((z & Hz & Ez) & K). assert (c <> a) by (intros ->; tauto).
    split; [exists z; by rewrite lookup_insert_ne | exact K].
  - intros c Hc. destruct (H3 c Hc) as [K1 K2]. auto.
  - intros c z Hz. destruct (decide (c = a)) as [->|Hne]; [by right; right|].
    rewrite lookup_insert_ne in Hz by done. eauto.
Qed.

(** Another operation goes in flight. *)
Lemma places_other fl fl' rs cur st id n :
  places_ok fl rs cur st -> fl id = None ->
  (forall j, fl' j = if decide (j = id) then Some (OtherTask n) else fl j) -> places_ok fl' rs cur st.
Proof.
  intros [H1 H2 H3 H4 H5] Hid Hfl. split; auto.
  - intros j c. rewrite Hfl. destruct (decide (j = id)); [discriminate | apply H2].
  - intros c z Hz. destruct (H5 c z Hz) as [(j & K1 & K2)|K]; [left|by right].
    exists j. split; [exact K1|]. rewrite Hfl, decide_False; [exact K2|]. intros ->. congruence.
Qed.

(** A completion takes the task out of flight and makes its callback ready. *)
Lemma places_completed fl fl' rs cur st id c s :
  places_ok fl rs cur st -> fl id = Some c ->
  (forall j, fl' j = if decide (j = id) then None else fl j) -> places_ok fl' (rs ++ [ready_of s c]) cur st.
Proof.
  intros [H1 H2 H3 H4 H5] Hid Hfl. assert (Hfl' : forall j d, fl' j = Some d -> j <> id /\ fl j = Some d).
  { intros j d. rewrite Hfl. by destruct (decide (j = id)). }
  assert (Hfl2 : forall j, j <> id -> fl' j = fl j) by (intros j Hj; rewrite Hfl; by rewrite decide_False).
  destruct c as [a|n]; cbn [ready_of].
  - destruct (H2 id a Hid) as ((x & Hx & Ex) & K1 & K2).
    split; rewrite ?ready_watchers_app; change (ready_watchers [Polled a s]) with [a].
    + apply NoDup_app. split; [exact H1|]. split; [|apply NoDup_singleton]. intros c Hc Hc'.
      by apply list_elem_of_singleton in Hc' as ->.
    + intros j c Hc. apply Hfl' in Hc as [Hj Hc]. destruct (H2 j c Hc) as ((z & Hz & Ez) & G1 & G2).
      split; [eauto|]. split; [|exact G2]. intros [Hin|Hin]%elem_of_app; [done|].
      apply list_elem_of_singleton in Hin as ->. congruence.
    + intros c [Hin|Hin]%elem_of_app; [by apply H3|]. apply list_elem_of_singleton in Hin as ->. eauto.
    + exact H4.
    + intros c z Hz. destruct (H5 c z Hz) as [(j & G1 & G2)|[G|G]].
      * destruct (decide (j = id)) as [->|Hj]; [|left; exists j; split; [exact G1 | by rewrite Hfl2]].
        right. left. apply elem_of_app. right. rewrite Hid in G2. injection G2 as ->. left.
      * right. left. apply elem_of_app. by left.
      * auto.
  - split; rewrite ?ready_watchers_app; change (ready_watchers [OtherReady n]) with (@nil nat); rewrite ?app_nil_r; auto.
    + intros j c Hc. apply Hfl' in Hc as [Hj Hc]. auto.
    + intros c z Hz. destruct (H5 c z Hz) as [(j & G1 & G2)|G]; [left|by right].
      exists j. split; [exact G1|]. rewrite Hfl2; [exact G2|]. intros ->. congruence.
Qed.

(** A new watcher with its poll in flight. *)
Lemma places_new fl fl' rs cur st a x id :
  places_ok fl rs cur st -> st !! a = None -> fl id = None ->
  (forall j, fl' j = if decide (j = id) then Some (PollDone a) else fl j) ->
  places_ok fl' rs cur (<[a := with_task (Some id) x]> st).
Proof.
  intros [H1 H2 H3 H4 H5] Hx Hid Hfl.
  assert (Hs : forall c, is_Some (st !! c) -> c <> a /\ is_Some (<[a := with_task (Some id) x]> st !! c)).
  { intros c Hc. assert (c <> a) by (intros ->; rewrite Hx in Hc; by destruct Hc). by rewrite lookup_insert_ne. }
  assert (Hnr : ~ at_run cur a) by (intros Hr; by apply H4, Hs in Hr as [? _]).
  split; [exact H1 | | | |].
  - intros j c. rewrite Hfl. destruct (decide (j = id)) as [->|Hne].
    + intros [= <-]. split; [eexists; by rewrite lookup_insert_eq|]. split; [|exact Hnr].
      intros Hin. by apply H3 in Hin as [[? _]%Hs _].
    + intros Hc. destruct (H2 j c Hc) as ((z & Hz & Ez) & K). split; [|exact K]. exists z.
      destruct (Hs c (ex_intro _ _ Hz)). by rewrite lookup_insert_ne.
  - intros c Hc. destruct (H3 c Hc) as [K1 K2]. by apply Hs in K1 as [_ K1].
  - intros c Hc. by apply H4, Hs in Hc as [_ ?].
  - intros c z Hz. destruct (decide (c = a)) as [->|Hne].
    + rewrite lookup_insert_eq in Hz. injection Hz as <-. left. exists id. split; [reflexivity|]. by rewrite Hfl, decide_True.
    + rewrite lookup_insert_ne in Hz by done. destruct (H5 c z Hz) as [(j & K1 & K2)|K]; [left|by right].
      exists j. split; [exact K1|]. rewrite Hfl, decide_False; [exact K2|]. intros ->. congruence.
Qed.

(** A ready callback is taken to run. *)
Definition running_of (r : ready_callback) : option (nat * bool) :=
  match r with Polled a _ => Some (a, false) | Wrapper a => Some (a, true) | OtherReady _ => None end.

Lemma places_taken fl rs1 r rs2 st :
  places_ok fl (rs1 ++ r :: rs2) None st -> places_ok fl (rs1 ++ rs2) (running_of r) st.
Proof.
  intros [H1 H2 H3 H4 H5]. rewrite !ready_watchers_app in *.
  assert (Hr : running_of r = None /\ ready_watchers (r :: rs2) = ready_watchers rs2
      \/ exists a b, running_of r = Some (a, b) /\ ready_watchers (r :: rs2) = a :: ready_watchers rs2).
  { destruct r as [a s|a|n]; [right; exists a, false | right; exists a, true | left]; by split. }
  destruct Hr as [[-> E]|(a & b & -> & E)]; rewrite E in *; [by split; rewrite ?ready_watchers_app|]. clear E.
  apply NoDup_app in H1 as (N1 & N2 & N3). apply NoDup_cons in N3 as [N3 N4].
  assert (Hna : a ∉ ready_watchers rs1) by (intros Hin; apply (N2 a Hin); left).
  split; rewrite ?ready_watchers_app.
  - apply NoDup_app. split; [exact N1|]. split; [|exact N4]. intros c Hc Hc'. apply (N2 c Hc). by right.
  - intros id c Hc. destruct (H2 id c Hc) as (K1 & K2 & _). split; [exact K1|]. split.
    + intros Hin. apply K2, elem_of_app. apply elem_of_app in Hin as [?|?]; [by left | right; by right].
    + intros ->%at_run_some. apply K2, elem_of_app. right. left.
  - intros c Hc. split.
    + apply H3, elem_of_app. apply elem_of_app in Hc as [?|?]; [by left | right; by right].
    + intros ->%at_run_some. by apply elem_of_app in Hc as [?|?].
  - intros c ->%at_run_some. apply H3, elem_of_app. right. left.
  - intros c z Hz. destruct (H5 c z Hz) as [K|[K|K]]; [by left | | by apply at_run_none in K].
    apply elem_of_app in K as [K|K]; [right; left; apply elem_of_app; by left|].
    apply elem_of_cons in K as [->|K]; [right; right; by exists b | right; left; apply elem_of_app; by right].
Qed.

(** *** References *)

Lemma handles_wrapped hs rs cur rs' cur' own st :
  handles_ok hs rs cur own st -> (forall a, wrapped rs' cur' a <-> wrapped rs cur a) -> handles_ok hs rs' cur' own st.
Proof.
  intros [H1 H2 H3 H4] Hw. split; auto. intros a x Hx.
  destruct (H1 a x Hx) as [[? ?]|[? ?]]; [left | right]; by rewrite Hw.
Qed.

(** A change of the count of one watcher's handle. *)
Lemma handles_recount hs rs cur rs' cur' own st a x n :
  handles_ok hs rs cur own st -> st !! a = Some x ->
  (forall b, b <> a -> wrapped rs' cur' b <-> wrapped rs cur b) ->
  (wrapped rs' cur' a /\ n = 2) \/ (~ wrapped rs' cur' a /\ n = 1) ->
  handles_ok (<[w_handle x := n]> hs) rs' cur' own st.
Proof.
  intros [H1 H2 H3 H4] Hx Hw Hn.
  assert (Hother : forall b y, st !! b = Some y -> b <> a -> w_handle y <> w_handle x).
  { intros b y Hy Hne E. apply Hne. exact (H2 b a y x Hy Hx E). }
  split; auto.
  - intros b y Hy. destruct (decide (b = a)) as [->|Hne].
    + rewrite Hx in Hy. injection Hy as <-. rewrite lookup_insert_eq.
      destruct Hn as [[? ->]|[? ->]]; [by left | by right].
    + rewrite lookup_insert_ne by (by apply not_eq_sym, (Hother b)). rewrite (Hw b Hne). exact (H1 b y Hy).
  - intros h. destruct (decide (h = w_handle x)) as [->|Hne]; [intros _; right; eauto|].
    rewrite lookup_insert_ne by done. apply H3.
  - intros h Hh. destruct (H4 h Hh) as [K1 K2]. split; [|exact K2].
    rewrite lookup_insert_ne; [exact K1 | exact (K2 a x Hx)].
Qed.

Lemma handles_destroyed hs rs b own st a x :
  handles_ok hs rs (Some (a, b)) own st -> st !! a = Some x ->
  handles_ok (base.delete (w_handle x) hs) rs None own (base.delete a st).
Proof.
  intros [H1 H2 H3 H4] Hx.
  assert (Hother : forall c y, base.delete a st !! c = Some y -> c <> a /\ st !! c = Some y /\ w_handle y <> w_handle x).
  { intros c y [Hne Hy]%lookup_delete_Some. split; [done|]. split; [exact Hy|]. intros E. apply Hne. symmetry. exact (H2 c a y x Hy Hx E). }
  split.
  - intros c y Hy. destruct (Hother c y Hy) as (Hne & Hy' & Hh). rewrite lookup_delete_ne by done.
    assert (E : wrapped rs None c <-> wrapped rs (Some (a, b)) c) by (unfold wrapped; split; intros [?|?]; [by left | done | by left | congruence]).
    rewrite E. exact (H1 c y Hy').
  - intros c d y z Hy Hz. destruct (Hother c y Hy) as (_ & Hy' & _). destruct (Hother d z Hz) as (_ & Hz' & _). eauto.
  - intros h [n [Hne Hh]%lookup_delete_Some]. destruct (H3 h (ex_intro _ _ Hh)) as [?|(c & y & Hy & E)]; [by left|].
    right. exists c, y. split; [|exact E]. rewrite lookup_delete_ne; [exact Hy|]. intros <-. congruence.
  - intros h Hh. destruct (H4 h Hh) as [K1 K2]. split.
    + rewrite lookup_delete_ne; [exact K1 | exact (K2 a x Hx)].
    + intros c y Hy. destruct (Hother c y Hy) as (_ & Hy' & _). exact (K2 c y Hy').
Qed.

Lemma handles_made hs rs cur st h :
  handles_ok hs rs cur None st -> hs !! h = None -> handles_ok (<[h := 1]> hs) rs cur (Some h) st.
Proof.
  intros [H1 H2 H3 H4] Hh.
  assert (Hne : forall a x, st !! a = Some x -> w_handle x <> h) by (intros a x Hx E; destruct (H1 a x Hx) as [[_ ?]|[_ ?]]; congruence).
  split; auto.
  - intros a x Hx. rewrite lookup_insert_ne by (by apply not_eq_sym, (Hne a)). eauto.
  - intros k. destruct (decide (k = h)) as [->|Hk]; [by left|]. rewrite lookup_insert_ne by done.
    intros Hs. destruct (H3 k Hs) as [?|?]; [done | by right].
  - intros k [= <-]. split; [apply lookup_insert_eq | exact Hne].
Qed.

Lemma handles_dropped hs rs cur st h :
  handles_ok hs rs cur (Some h) st -> handles_ok (base.delete h hs) rs cur None st.
Proof.
  intros [H1 H2 H3 H4]. destruct (H4 h eq_refl) as [_ Hne]. split; auto; [| | done].
  - intros a x Hx. rewrite lookup_delete_ne by (by apply not_eq_sym, (Hne a)). eauto.
  - intros k [n [Hk Hn]%lookup_delete_Some]. destruct (H3 k (ex_intro _ _ Hn)) as [[= ->]|?]; [done | by right].
Qed.

(** The new watcher takes the reference. *)
Lemma handles_taken hs rs cur st h a x :
  handles_ok hs rs cur (Some h) st -> st !! a = None -> w_handle x = h -> ~ wrapped rs cur a ->
  handles_ok hs rs cur None (<[a := x]> st).
Proof.
  intros [H1 H2 H3 H4] Ha Hx Hw. destruct (H4 h eq_refl) as [Hh Hne].
  assert (Hs : forall b y, <[a := x]> st !! b = Some y -> b = a /\ y = x \/ b <> a /\ st !! b = Some y).
  { intros b y [[<- <-]|[? ?]]%lookup_insert_Some; [by left | by right]. }
  split.
  - intros b y Hy. destruct (Hs b y Hy) as [[-> ->]|[_ Hy']]; [right; by rewrite Hx | eauto].
  - intros b c y z Hy Hz E. destruct (Hs b y Hy) as [[-> ->]|[? Hy']]; destruct (Hs c z Hz) as [[-> ->]|[? Hz']]; try done; [| |eauto].
    + by destruct (Hne c z Hz'); congruence.
    + by destruct (Hne b y Hy'); congruence.
  - intros k Hk. right. destruct (H3 k Hk) as [[= <-]|(b & y & Hy & E)]; [exists a, x; by rewrite lookup_insert_eq|].
    exists b, y. rewrite lookup_insert_ne; [done | congruence].
  - done.
Qed.

(** ** Each operation keeps the invariant *)

Context `{!TaskPoolLaws P task_callback}.
Hypothesis tree_allocations_succeed : forall n, tree_alloc_ok n = true.
Hypothesis new_addr_fresh : forall l, new_addr l ∉ l.

Lemma degree_11 : degree_ok Degree.
Proof. split; [unfold Degree; lia | reflexivity]. Qed.

Lemma trees_ext tm tm' st : trees_ok tm st -> (forall e, tm' e = tm e) -> trees_ok tm' st.
Proof. intros [H1 H2] E. split; [intros e fd a | intros a x]; rewrite E; auto. Qed.

Lemma places_ext fl fl' rs cur st : places_ok fl rs cur st -> (forall id, fl' id = fl id) -> places_ok fl' rs cur st.
Proof.
  intros [H1 H2 H3 H4 H5] E. split; auto.
  - intros id a. rewrite E. auto.
  - intros a x Hx. destruct (H5 a x Hx) as [(id & K1 & K2)|K]; [left; exists id; by rewrite E | by right].
Qed.

Lemma log_ext lg tm tm' st : log_ok lg tm st -> (forall e, tm' e = tm e) -> log_ok lg tm' st.
Proof. intros (m & H1 & H2) E. exists m. split; [exact H1|]. intros e fd. rewrite H2. unfold registered. by rewrite E. Qed.

(** The pool with the same tasks in flight. *)
Definition pool_like (w w' : world) : Prop :=
  (forall p, pool w' = Some p -> pool_ok p) /\ (is_Some (pool w) -> is_Some (pool w'))
  /\ forall id, flight (pool w') id = flight (pool w) id.

(** Trees with the same entries. *)
Definition trees_like (w w' : world) : Prop :=
  (forall e, tree_map e w' = tree_map e w) /\ (forall e t, tree e w' = Some t -> repr Degree t (tree_map e w'))
  /\ forall e, is_Some (tree e w) -> is_Some (tree e w').

Lemma inv_same cur own w w' :
  inv cur own w -> pool_like w w' -> trees_like w w' ->
  store w' = store w -> handles w' = handles w -> ready w' = ready w -> initialized w' = initialized w ->
  log w' = log w -> inv cur own w'.
Proof.
  intros [H1 H2 H3 H4 H5 H6 H7] (P1 & P2 & P3) (T1 & T2 & T3) E1 E2 E3 E4 E5.
  split; rewrite ?E1, ?E2, ?E3, ?E4, ?E5; auto.
  - intros Hi. destruct (H3 Hi). auto.
  - by eapply trees_ext.
  - by eapply places_ext.
  - by eapply log_ext.
Qed.

Lemma inv_trees_like cur own w : inv cur own w -> trees_like w w.
Proof. intros Hi. split; [done|]. split; [apply (iv_tree _ _ _ Hi) | done]. Qed.

Lemma inv_pool_like cur own w : inv cur own w -> pool_like w w.
Proof. intros Hi. split; [apply (iv_pool _ _ _ Hi) | done]. Qed.

(** Watchers stay, with their handles. *)
Definition keeps (w w' : world) : Prop :=
  initialized w' = initialized w /\
  forall a x, store w !! a = Some x -> exists x', store w' !! a = Some x' /\ w_handle x' = w_handle x.

Lemma keeps_refl w w' : initialized w' = initialized w -> store w' = store w -> keeps w w'.
Proof. intros E1 E2. split; [exact E1|]. rewrite E2. eauto. Qed.

Lemma keeps_trans w1 w2 w3 : keeps w1 w2 -> keeps w2 w3 -> keeps w1 w3.
Proof.
  intros [I1 K1] [I2 K2]. split; [congruence|]. intros a x Hx. destruct (K1 a x Hx) as (y & Hy & Ey).
  destruct (K2 a y Hy) as (z & Hz & Ez). exists z. split; congruence.
Qed.

Lemma keeps_insert w w' a x y :
  initialized w' = initialized w -> store w !! a = Some x -> w_handle y = w_handle x ->
  store w' = <[a := y]> (store w) -> keeps w w'.
Proof.
  intros E Hx Hy Es. split; [exact E|]. intros b z Hz. rewrite Es. destruct (decide (b = a)) as [->|Hne].
  - exists y. rewrite lookup_insert_eq. split; congruence.
  - exists z. by rewrite lookup_insert_ne.
Qed.

(** *** Trees *)

Lemma tree_map_set e e' t m w :
  repr Degree t m -> tree_map e' (set_tree e (Some t) w) = if decide (e' = e) then m else tree_map e' w.
Proof. intros (_ & _ & <-). by destruct e, e'. Qed.

Lemma tree_set e e' t w : tree e' (set_tree e t w) = if decide (e' = e) then t else tree e' w.
Proof. by destruct e, e'. Qed.

Lemma tree_delete_ok e fd w t :
  tree e w = Some t -> repr Degree t (tree_map e w) ->
  exists t', tree_delete e fd w = Some (set_tree e (Some t') w, tree_map e w !! fd)
    /\ repr Degree t' (base.delete fd (tree_map e w)).
Proof.
  intros Ht (H1 & H2 & H3). unfold tree_delete. rewrite Ht. cbn [mbind option_bind].
  destruct (BTree.delete_ok Degree fd t H1 H2) as (t' & -> & K1 & K2 & K3). cbn [mbind option_bind].
  rewrite H3 in *. exists t'. split; [reflexivity | by split].
Qed.

Lemma tree_insert_ok e fd a w t :
  tree e w = Some t -> repr Degree t (tree_map e w) -> tree_map e w !! fd = None ->
  exists t', BTree.insert Degree tree_alloc_ok fd a t = Some (t', true)
    /\ repr Degree t' (<[fd := a]> (tree_map e w)).
Proof.
  intros Ht (H1 & H2 & H3) Hn. rewrite <- H3 in Hn.
  destruct (BTree.insert_ok Degree tree_alloc_ok fd a t degree_11 H1 H2 Hn) as (t' & ok & -> & K1 & K2 & K3 & K4).
  rewrite (K4 tree_allocations_succeed) in *. rewrite H3 in *. exists t'. split; [reflexivity|]. split; [by apply K3 | by split].
Qed.

(** A watcher loses its descriptor. *)
Lemma inv_unregister cur own e fd a x t w o :
  inv cur own w -> tree_map e w !! fd = Some a -> store w !! a = Some x ->
  repr Degree t (base.delete fd (tree_map e w)) -> o = Gone e fd \/ o = Removed e fd true ->
  inv cur own (set_watcher a (with_fd (-1) x) (observe o (set_tree e (Some t) w))).
Proof.
  intros [H1 H2 H3 H4 H5 H6 H7] Ha Hx Ht Ho. set (w' := set_watcher _ _ _).
  assert (Etm : forall e', tree_map e' w' = tm_delete e fd (fun e => tree_map e w) e') by (intros e'; exact (tree_map_set e e' t _ w Ht)).
  split; try done.
  - intros e' t' Ht'. rewrite Etm. unfold tm_delete.
    assert (Ht2 : tree e' (set_tree e (Some t) w) = Some t') by exact Ht'. rewrite tree_set in Ht2.
    destruct (decide (e' = e)) as [->|Hne]; [by injection Ht2 as <- | auto].
  - intros Hi. destruct (H3 Hi) as [G1 G2]. split; [|exact G2]. intros e'.
    change (is_Some (tree e' (set_tree e (Some t) w))). rewrite tree_set. destruct (decide (e' = e)); eauto.
  - eapply trees_ext; [exact (trees_unregister e fd a x _ _ H4 Ha Hx) | exact Etm].
  - by apply (places_same _ _ _ _ a x).
  - by apply (handles_same _ _ _ _ _ a x).
  - destruct H7 as (m & G1 & G2). exists (base.delete (e, fd) m).
    assert (Em : m !! (e, fd) = Some (w_callback x)) by (rewrite G2; unfold registered; rewrite Ha; cbn; by rewrite Hx).
    split.
    + change (replay (log w ++ [o]) ∅ = Some (base.delete (e, fd) m)). rewrite (replay_app _ _ _ _ G1).
      destruct Ho as [->| ->]; cbn [replay1]; rewrite Em; reflexivity.
    + intros e' fd'. unfold registered. rewrite Etm.
      change (store w') with (<[a := with_fd (-1) x]> (store w)).
      pose proof (registered_unregister e fd a x _ _ e' fd' H4 Ha Hx) as G3. unfold registered in G3. rewrite G3.
      destruct (decide ((e', fd') = (e, fd))) as [[= -> ->]|Hne]; [apply lookup_delete_eq|].
      rewrite lookup_delete_ne by done. apply G2.
Qed.

(** *** Blocking tasks *)

Lemma cancel_io_ok cur own id w :
  inv cur own w -> exists w' b, cancel_io id w = Some (w', b) /\ inv cur own w' /\ keeps w w'
    /\ handles w' = handles w /\ forall e, tree e w' = tree e w.
Proof.
  intros Hi. unfold cancel_io. destruct (pool w) as [p|] eqn:Ep.
  - destruct (pool_cancel_ok id p (iv_pool _ _ _ Hi p Ep)) as (p' & b & -> & H1 & H2). cbn [mbind option_bind].
    eexists _, b. split; [reflexivity|]. split; [|by split; [apply keeps_refl | split; [done | intros []]]].
    apply (inv_same _ _ w); try done; [|apply (inv_trees_like _ _ _ Hi)].
    split; [by intros q [= <-]|]. split; [intros _; by eexists|]. intros j. rewrite Ep. cbn. apply H2.
  - exists w, false. split; [reflexivity|]. split; [exact Hi|]. by split; [apply keeps_refl|].
Qed.

(** What queueing an operation does to the pool. *)
Lemma queue_ok cur own c w :
  inv cur own w ->
  exists po r, queue c w = Some (w <| pool := po |>, r) /\ (forall p, po = Some p -> pool_ok p)
    /\ (is_Some (pool w) -> is_Some po)
    /\ match r with
       | Some id => flight (pool w) id = None
           /\ forall j, flight po j = if decide (j = id) then Some c else flight (pool w) j
       | None => forall j, flight po j = flight (pool w) j
       end.
Proof.
  intros Hi. unfold queue. destruct (pool w) as [p|] eqn:Ep.
  - destruct (pool_queue_ok c p (iv_pool _ _ _ Hi p Ep)) as (p' & r & -> & H1 & H2). cbn [mbind option_bind].
    exists (Some p'), r. split; [reflexivity|]. split; [by intros q [= <-]|]. split; [by eexists | exact H2].
  - exists None, None. split; [|by repeat split]. destruct w; cbn in Ep; by subst.
Qed.

(** *** The methods *)

Lemma open_tree cur own e w : inv cur own w -> initialized w = true -> exists t, tree e w = Some t /\ repr Degree t (tree_map e w).
Proof.
  intros Hi Ho. destruct (iv_open _ _ _ Hi Ho) as [H1 _]. destruct (H1 e) as [t Ht]. exists t.
  split; [exact Ht | exact (iv_tree _ _ _ Hi e t Ht)].
Qed.

Lemma drop_existing_ok cur own e fd w :
  inv cur own w -> initialized w = true ->
  exists w' b, drop_existing e fd w = Some (w', b) /\ inv cur own w' /\ keeps w w'
    /\ handles w' = handles w /\ tree_map e w' !! fd = None.
Proof.
  intros Hi Ho. destruct (open_tree _ _ e w Hi Ho) as (t & Ht & Hr). unfold drop_existing. rewrite Ht.
  cbn [mbind option_bind]. assert (Eg : get_value fd (root t) = tree_map e w !! fd).
  { destruct Hr as (R1 & R2 & <-). by apply (search_lookup Degree). }
  rewrite Eg. destruct (tree_map e w !! fd) as [a|] eqn:Ea.
  2:{ exists w, true. split; [reflexivity|]. split; [exact Hi|]. by split; [apply keeps_refl|]. }
  destruct (tree_delete_ok e fd w t Ht Hr) as (t' & -> & Hr'). cbn [mbind option_bind].
  destruct (to_entry _ _ (iv_watch _ _ _ Hi) e fd a Ea) as (x & Hx & _).
  change (store (observe (Gone e fd) (set_tree e (Some t') w))) with (store w). rewrite Hx. cbn [mbind option_bind].
  pose proof (inv_unregister cur own e fd a x t' w (Gone e fd) Hi Ea Hx Hr' (or_introl eq_refl)) as Hi'.
  set (w1 := set_watcher a (with_fd (-1) x) (observe (Gone e fd) (set_tree e (Some t') w))) in *.
  assert (K1 : keeps w w1) by (by apply (keeps_insert _ _ a x (with_fd (-1) x))).
  assert (Em : tree_map e w1 !! fd = None).
  { change (tree_map e (set_tree e (Some t') w) !! fd = None).
    rewrite (tree_map_set e e t' _ w Hr'), decide_True by done. apply lookup_delete_eq. }
  destruct (w_task x) as [id|].
  - destruct (cancel_io_ok cur own id w1 Hi') as (w2 & b & -> & G1 & G2 & G3 & G4).
    exists w2, b. split; [reflexivity|]. split; [exact G1|]. split; [by eapply keeps_trans|]. split; [by rewrite G3|].
    unfold tree_map in *. by rewrite G4.
  - exists w1, true. split; [reflexivity|]. by split.
Qed.

Lemma fresh_in_use {A} (m : gmap nat A) : m !! new_addr (in_use m) = None.
Proof.
  destruct (m !! new_addr (in_use m)) as [x|] eqn:E; [|done]. exfalso. apply (new_addr_fresh (in_use m)).
  apply list_elem_of_fmap. exists (new_addr (in_use m), x). split; [reflexivity|]. by apply elem_of_map_to_list.
Qed.

(** A world with the watcher made for a registration. *)
Lemma inv_registered cur e fd cb h a t po id w :
  inv cur (Some h) w -> initialized w = true -> store w !! a = None -> tree_map e w !! fd = None -> (0 <= fd)%Z ->
  repr Degree t (<[fd := a]> (tree_map e w)) ->
  (forall p, po = Some p -> pool_ok p) -> (is_Some (pool w) -> is_Some po) ->
  flight (pool w) id = None ->
  (forall j, flight po j = if decide (j = id) then Some (PollDone a) else flight (pool w) j) ->
  inv cur None (observe (Added e fd cb)
    (set_watcher a (with_task (Some id) (Watcher h cb None e fd))
       (set_tree e (Some t) (set_watcher a (Watcher h cb None e fd) w) <| pool := po |>))).
Proof.
  intros [H1 H2 H3 H4 H5 H6 H7] Ho Ha Hfd Hpos Ht P1 P2 P3 P4. set (x := Watcher h cb None e fd). set (w' := observe _ _).
  assert (Etm : forall e', tree_map e' w' = if decide (e' = e) then <[fd := a]> (tree_map e w) else tree_map e' w)
    by (intros e'; exact (tree_map_set e e' t _ w Ht)).
  assert (Est : store w' = <[a := with_task (Some id) x]> (store w)).
  { change (store w') with (<[a := with_task (Some id) x]> (<[a := x]> (store w))). apply insert_insert_eq. }
  assert (Hold : forall e' fd' b, tree_map e' w !! fd' = Some b -> b <> a /\ is_Some (store w !! b)).
  { intros e' fd' b Hb. destruct (to_entry _ _ H4 e' fd' b Hb) as (y & Hy & _). split; [congruence | eauto]. }
  split; try done.
  - intros e' t' Ht'. rewrite Etm. change (tree e' w') with (tree e' (set_tree e (Some t) w)) in Ht'.
    rewrite tree_set in Ht'. destruct (decide (e' = e)) as [->|Hne]; [by injection Ht' as <- | auto].
  - intros _. destruct (H3 Ho) as [G1 G2]. split; [|by apply P2]. intros e'.
    change (tree e' w') with (tree e' (set_tree e (Some t) w)). rewrite tree_set. destruct (decide (e' = e)); eauto.
  - rewrite Est. split.
    + intros e' fd' b. rewrite Etm. destruct (decide (e' = e)) as [->|Hne].
      * intros [[<- <-]|[Hne Hb]]%lookup_insert_Some; [exists (with_task (Some id) x); by rewrite lookup_insert_eq|].
        destruct (Hold _ _ _ Hb) as [Hba _]. rewrite lookup_insert_ne by done. by apply (to_entry _ _ H4).
      * intros Hb. destruct (Hold _ _ _ Hb) as [Hba _]. rewrite lookup_insert_ne by done. by apply (to_entry _ _ H4).
    + intros b y [[<- <-]|[Hne Hy]]%lookup_insert_Some Hy'.
      * cbn. rewrite Etm, decide_True by done. apply lookup_insert_eq.
      * pose proof (to_watched _ _ H4 b y Hy Hy') as G. rewrite Etm. destruct (decide (w_event y = e)) as [E|_]; [|exact G].
        rewrite E in G. rewrite lookup_insert_ne; [exact G | congruence].
  - rewrite Est. exact (places_new _ _ _ _ _ a x id H5 Ha P3 P4).
  - rewrite Est. apply (handles_taken (handles w) (ready w) cur (store w) h); try done.
    intros [Hin|Hc].
    + destruct (pl_ready _ _ _ _ H5 a) as [[y Hy] _]; [|congruence].
      apply list_elem_of_split in Hin as (l & k & Hl). unfold ready_watchers. rewrite Hl, omap_app. apply elem_of_app. right. left.
    + destruct (pl_run _ _ _ _ H5 a) as [y Hy]; [by exists true | congruence].
  - destruct H7 as (m & G1 & G2). exists (<[(e, fd) := cb]> m).
    assert (Em : m !! (e, fd) = None) by (rewrite G2; unfold registered; by rewrite Hfd).
    split.
    + change (replay (log w ++ [Added e fd cb]) ∅ = Some (<[(e, fd) := cb]> m)). rewrite (replay_app _ _ _ _ G1).
      cbn [replay1]. by rewrite Em.
    + intros e' fd'. unfold registered. rewrite Etm, Est.
      destruct (decide ((e', fd') = (e, fd))) as [[= -> ->]|Hne].
      * rewrite lookup_insert_eq, decide_True, lookup_insert_eq by done. cbn. by rewrite lookup_insert_eq.
      * rewrite lookup_insert_ne, G2 by congruence. unfold registered.
        assert (El : (if decide (e' = e) then <[fd := a]> (tree_map e w) else tree_map e' w) !! fd' = tree_map e' w !! fd').
        { destruct (decide (e' = e)) as [->|]; [|done]. apply lookup_insert_ne. congruence. }
        rewrite El. destruct (tree_map e' w !! fd') as [b|] eqn:Eb; [|done]. cbn [mbind option_bind].
        destruct (Hold _ _ _ Eb) as [Hba _]. by rewrite lookup_insert_ne.
Qed.

(** Undoing a registration whose poll could not be queued. *)
Lemma inv_undone cur own e fd a x t t' po w :
  inv cur own w -> initialized w = true -> store w !! a = None -> tree_map e w !! fd = None ->
  repr Degree t (<[fd := a]> (tree_map e w)) -> repr Degree t' (tree_map e w) ->
  (forall p, po = Some p -> pool_ok p) -> (is_Some (pool w) -> is_Some po) ->
  (forall j, flight po j = flight (pool w) j) ->
  let w' := set_tree e (Some t') (set_tree e (Some t) (set_watcher a x w) <| pool := po |>) in
  inv cur own (w' <| store := base.delete a (store w') |>).
Proof.
  intros Hi Ho Ha Hfd Ht Ht' P1 P2 P3 w'. set (w2 := w' <| store := base.delete a (store w') |>).
  assert (Etm : forall e', tree_map e' w2 = tree_map e' w).
  { intros e'. change (tree_map e' w2) with (tree_map e' (set_tree e (Some t') (set_tree e (Some t) w))).
    rewrite (tree_map_set e e' t' _ _ Ht'). destruct (decide (e' = e)) as [->|Hne]; [done|].
    rewrite (tree_map_set e e' t _ w Ht). by rewrite decide_False. }
  assert (Etr : forall e', tree e' w2 = if decide (e' = e) then Some t' else tree e' w).
  { intros e'. change (tree e' w2) with (tree e' (set_tree e (Some t') (set_tree e (Some t) w))).
    rewrite !tree_set. by destruct (decide (e' = e)). }
  apply (inv_same cur own w); try done.
  - split; [exact Etm|]. split.
    + intros e' t1. rewrite Etr, Etm. destruct (decide (e' = e)) as [->|Hne]; [by intros [= <-] | apply (iv_tree _ _ _ Hi)].
    + intros e' Hs. rewrite Etr. destruct (decide (e' = e)); eauto.
  - change (store w2) with (base.delete a (<[a := x]> (store w))). rewrite delete_insert_id; done.
Qed.

Lemma install_ok cur e fd cb h w :
  inv cur (Some h) w -> initialized w = true -> tree_map e w !! fd = None -> (0 <= fd)%Z ->
  exists w' b, install e fd cb h w = Some (w', b) /\ inv cur (if b : bool then None else Some h) w' /\ keeps w w'
    /\ (b = false -> handles w' = handles w).
Proof.
  intros Hi Ho Hfd Hpos. unfold install, alloc. set (w1 := w <| allocs := S (allocs w) |>).
  assert (Hi1 : inv cur (Some h) w1) by (apply (inv_same _ _ w); try done; [apply (inv_pool_like _ _ _ Hi) | apply (inv_trees_like _ _ _ Hi)]).
  assert (K1 : keeps w w1) by (by apply keeps_refl).
  destruct (alloc_ok (allocs w)); [|exists w1, false; by split; [|split; [|split]]].
  set (a := new_addr (in_use (store w1))). assert (Ha : store w1 !! a = None) by apply fresh_in_use.
  destruct (open_tree _ _ e w1 Hi1 Ho) as (t & Ht & Hr).
  cbn zeta. set (x := Watcher h cb None e fd). change (tree e (set_watcher a x w1)) with (tree e w1). rewrite Ht.
  cbn [mbind option_bind]. destruct (tree_insert_ok e fd a w1 t Ht Hr Hfd) as (t1 & -> & Hr1). cbn [mbind option_bind].
  set (w2 := set_tree e (Some t1) (set_watcher a x w1)).
  assert (Hq : exists po r, queue (PollDone a) w2 = Some (w2 <| pool := po |>, r) /\ (forall p, po = Some p -> pool_ok p)
    /\ (is_Some (pool w1) -> is_Some po)
    /\ match r with
       | Some id => flight (pool w1) id = None
           /\ forall j, flight po j = if decide (j = id) then Some (PollDone a) else flight (pool w1) j
       | None => forall j, flight po j = flight (pool w1) j
       end).
  { destruct (queue_ok _ _ (PollDone a) w1 Hi1) as (po & r & E & G). exists po, r. split; [|exact G].
    unfold queue in *. change (pool w2) with (pool w1). destruct (pool w1) as [p|].
    - destruct (pool_queue (PollDone a) p) as [[p' r']|]; [|discriminate]. cbn [mbind option_bind] in *. by simplify_eq/=.
    - injection E as E1 <-. subst po. reflexivity. }
  destruct Hq as (po & r & -> & P1 & P2 & P3). cbn [mbind option_bind]. destruct r as [id|].
  - destruct P3 as [P3 P4]. eexists _, true. split; [reflexivity|]. split.
    + exact (inv_registered cur e fd cb h a t1 po id w1 Hi1 Ho Ha Hfd Hpos Hr1 P1 P2 P3 P4).
    + split; [|done]. split; [reflexivity|]. intros b y Hy. exists y. split; [|reflexivity].
      cbn. assert (b <> a) by (intros ->; cbn in *; congruence). by rewrite !lookup_insert_ne.
  - assert (Ht2 : tree e (w2 <| pool := po |>) = Some t1) by (change (tree e w2 = Some t1); unfold w2; rewrite tree_set; by rewrite decide_True).
    assert (Hm2 : tree_map e (w2 <| pool := po |>) = <[fd := a]> (tree_map e w1)).
    { change (tree_map e (set_tree e (Some t1) (set_watcher a x w1)) = <[fd := a]> (tree_map e w1)).
      rewrite (tree_map_set e e t1 _ _ Hr1). by rewrite decide_True. }
    destruct (tree_delete_ok e fd (w2 <| pool := po |>) t1 Ht2) as (t2 & -> & Hr2); [by rewrite Hm2|].
    rewrite Hm2, delete_insert_id in Hr2 by exact Hfd. cbn [mbind option_bind].
    eexists _, false. split; [reflexivity|]. split.
    + exact (inv_undone cur (Some h) e fd a x t1 t2 po w1 Hi1 Ho Ha Hfd Hr1 Hr2 P1 P2 P3).
    + split; [|done]. apply keeps_refl; [done|]. change (base.delete a (<[a := x]> (store w1)) = store w). by rewrite delete_insert_id.
Qed.

Lemma decref_own cur h w :
  inv cur (Some h) w -> exists w', decref h w = Some w' /\ inv cur None w' /\ keeps w w'.
Proof.
  intros Hi. destruct (ho_own _ _ _ _ _ (iv_handles _ _ _ Hi) h eq_refl) as [Hh _]. unfold decref. rewrite Hh.
  cbn [mbind option_bind]. eexists. split; [reflexivity|]. split; [|by apply keeps_refl].
  pose proof (handles_dropped _ _ _ _ _ (iv_handles _ _ _ Hi)) as Hd. destruct Hi. by split.
Qed.

Lemma add_watcher_ok cur e fd cb w :
  inv cur None w -> exists w' b, add_watcher e fd cb w = Some (w', b) /\ inv cur None w' /\ keeps w w'.
Proof.
  intros Hi. unfold add_watcher, alloc. set (w1 := w <| allocs := S (allocs w) |>).
  destruct (valid_fd fd) eqn:Ev; [|exists w, false; by split; [|split; [|apply keeps_refl]]].
  assert (Hpos : (0 <= fd)%Z) by (unfold valid_fd in Ev; apply andb_true_iff in Ev as [Ev _]; by apply Z.leb_le).
  assert (Hi1 : inv cur None w1) by (apply (inv_same _ _ w); try done; [apply (inv_pool_like _ _ _ Hi) | apply (inv_trees_like _ _ _ Hi)]).
  destruct (alloc_ok (allocs w)); [|exists w1, false; by split; [|split; [|apply keeps_refl]]].
  cbn zeta. set (h := new_addr (in_use (handles w1))). set (w2 := w1 <| handles := <[h := 1]> (handles w1) |>).
  assert (Hi2 : inv cur (Some h) w2).
  { pose proof (handles_made _ _ _ _ h (iv_handles _ _ _ Hi1) (fresh_in_use (handles w1))) as Hm. destruct Hi1. by split. }
  assert (K2 : keeps w w2) by (by apply keeps_refl).
  assert (Hfail : forall w3, inv cur (Some h) w3 -> keeps w w3 ->
    exists w' b, (w4 ← decref h w3; Some (w4, false)) = Some (w', b) /\ inv cur None w' /\ keeps w w').
  { intros w3 Hi3 K3. destruct (decref_own cur h w3 Hi3) as (w4 & -> & Hi4 & K4). cbn [mbind option_bind].
    exists w4, false. split; [reflexivity|]. split; [exact Hi4 | by eapply keeps_trans]. }
  destruct (initialized w2) eqn:Ho; [|cbn [mbind option_bind]; by apply Hfail].
  destruct (drop_existing_ok cur (Some h) e fd w2 Hi2 Ho) as (w3 & b & -> & Hi3 & K3 & _ & Hfd). cbn [mbind option_bind].
  pose proof (keeps_trans _ _ _ K2 K3) as K3'.
  destruct b; [|cbn [mbind option_bind]; by apply Hfail].
  destruct (install_ok cur e fd cb h w3 Hi3 ltac:(rewrite (proj1 K3); exact Ho) Hfd Hpos) as (w4 & b & -> & Hi4 & K4 & _).
  cbn [mbind option_bind]. pose proof (keeps_trans _ _ _ K3' K4) as K4'.
  destruct b; [|cbn [mbind option_bind]; by apply Hfail]. exists w4, true. by split.
Qed.

Lemma remove_watcher_ok cur e fd w :
  inv cur None w -> exists w' b, remove_watcher e fd w = Some (w', b) /\ inv cur None w' /\ keeps w w'.
Proof.
  intros Hi. unfold remove_watcher. destruct (valid_fd fd && initialized w) eqn:Ev; [|exists w, None; by split; [|split; [|apply keeps_refl]]].
  apply andb_true_iff in Ev as [_ Ho]. destruct (open_tree _ _ e w Hi Ho) as (t & Ht & Hr).
  destruct (tree_delete_ok e fd w t Ht Hr) as (t' & -> & Hr'). cbn [mbind option_bind].
  destruct (tree_map e w !! fd) as [a|] eqn:Ea.
  - destruct (to_entry _ _ (iv_watch _ _ _ Hi) e fd a Ea) as (x & Hx & _).
    change (store (observe (Removed e fd true) (set_tree e (Some t') w))) with (store w). rewrite Hx. cbn [mbind option_bind].
    pose proof (inv_unregister cur None e fd a x t' w _ Hi Ea Hx Hr' (or_intror eq_refl)) as Hi'.
    set (w1 := set_watcher a (with_fd (-1) x) (observe (Removed e fd true) (set_tree e (Some t') w))) in *.
    assert (K1 : keeps w w1) by (by apply (keeps_insert _ _ a x (with_fd (-1) x))).
    destruct (w_task x) as [id|]; [|by exists w1, (Some true)].
    destruct (cancel_io_ok cur None id w1 Hi') as (w2 & b & -> & G1 & G2 & _). cbn [mbind option_bind].
    eexists w2, _. split; [reflexivity|]. split; [exact G1 | by eapply keeps_trans].
  - eexists _, _. split; [reflexivity|]. split; [|by apply keeps_refl].
    assert (Hr2 : repr Degree t' (tree_map e w)) by (by rewrite delete_id in Hr').
    assert (Etm : forall e', tree_map e' (set_tree e (Some t') w) = tree_map e' w).
    { intros e'. rewrite (tree_map_set e e' t' _ w Hr2). by destruct (decide (e' = e)) as [->|]. }
    assert (Hi' : inv cur None (set_tree e (Some t') w)).
    { apply (inv_same cur None w); try done; [apply (inv_pool_like _ _ _ Hi)|]. split; [exact Etm|]. split.
      - intros e' t1. rewrite tree_set, Etm. destruct (decide (e' = e)) as [->|Hne]; [by intros [= <-] | apply (iv_tree _ _ _ Hi)].
      - intros e' Hs. rewrite tree_set. destruct (decide (e' = e)); eauto. }
    destruct Hi' as [H1 H2 H3 H4 H5 H6 (m & G1 & G2)]. split; try done.
    exists m. assert (Em : m !! (e, fd) = None) by (rewrite G2; unfold registered; by rewrite Etm, Ea).
    split; [|exact G2]. change (replay (log w ++ [Removed e fd false]) ∅ = Some m). rewrite (replay_app _ _ _ m G1).
    cbn [replay1]. rewrite bool_decide_eq_false_2 by (rewrite Em; by intros []). cbn. by rewrite delete_id.
Qed.

Lemma user_call_ok cur c w :
  inv cur None w -> exists w', user_call c w = Some w' /\ inv cur None w' /\ keeps w w'.
Proof.
  intros Hi. destruct c as [e fd cb|e fd|n]; cbn [user_call].
  - destruct (add_watcher_ok cur e fd cb w Hi) as (w' & b & -> & G). by exists w'.
  - destruct (remove_watcher_ok cur e fd w Hi) as (w' & b & -> & G). by exists w'.
  - destruct (queue_ok _ _ (OtherTask n) w Hi) as (po & r & -> & P1 & P2 & P3). cbn. eexists. split; [reflexivity|].
    split; [|by apply keeps_refl]. destruct r as [id|].
    + destruct P3 as [P3 P4]. pose proof (places_other _ _ _ _ _ id n (iv_place _ _ _ Hi) P3 P4) as Hp.
      destruct Hi as [H1 H2 H3 H4 H5 H6 H7]. split; try done. intros Ho. destruct (H3 Ho). auto.
    + apply (inv_same _ _ w); try done. apply (inv_trees_like _ _ _ Hi).
Qed.

Lemma user_calls_ok cur cs : forall w,
  inv cur None w -> exists w', user_calls cs w = Some w' /\ inv cur None w' /\ keeps w w'.
Proof.
  induction cs as [|c cs IH]; intros w Hi; cbn [user_calls].
  - exists w. by split; [|split; [|apply keeps_refl]].
  - destruct (user_call_ok cur c w Hi) as (w1 & -> & Hi1 & K1). cbn [mbind option_bind].
    destruct (IH w1 Hi1) as (w2 & -> & Hi2 & K2). exists w2. split; [reflexivity|]. split; [exact Hi2 | by eapply keeps_trans].
Qed.

(** *** The callbacks *)

(** What the callbacks of a released queue leave alone. *)
Definition quiet (w w' : world) : Prop :=
  ready w' = ready w /\ pool w' = pool w /\ initialized w' = initialized w
  /\ forall e, is_Some (tree e w) -> is_Some (tree e w').

Lemma quiet_step w1 w2 w3 : quiet w1 w2 -> quiet w2 w3 -> quiet w1 w3.
Proof. intros (A1 & A2 & A3 & A4) (B1 & B2 & B3 & B4). split; [|split; [|split]]; [congruence.. | auto]. Qed.

Lemma quiet_set_tree e t w : quiet w (set_tree e (Some t) w).
Proof. do 3 (split; [reflexivity|]). intros e' Hs. rewrite tree_set. destruct (decide (e' = e)); eauto. Qed.

Lemma running_not_wrapped cur a w :
  inv cur None w -> at_run cur a -> Wrapper a ∉ ready w.
Proof.
  intros Hi Hr Hin. destruct (pl_ready _ _ _ _ (iv_place _ _ _ Hi) a) as [_ Hn]; [|done].
  apply list_elem_of_split in Hin as (l & k & ->). unfold ready_watchers. rewrite omap_app. apply elem_of_app. right. left.
Qed.

Lemma running_watcher a b w : inv (Some (a, b)) None w -> exists x, store w !! a = Some x.
Proof. intros Hi. apply (pl_run _ _ _ _ (iv_place _ _ _ Hi) a). by exists b. Qed.

Lemma running_refs a b w x :
  inv (Some (a, b)) None w -> store w !! a = Some x -> handles w !! w_handle x = Some (if b : bool then 2 else 1).
Proof.
  intros Hi Hx. pose proof (running_not_wrapped _ a w Hi (ex_intro _ b eq_refl)) as Hn.
  destruct (ho_refs _ _ _ _ _ (iv_handles _ _ _ Hi) a x Hx) as [[[Hw|Hw] ->]|[Hw ->]].
  - done.
  - by injection Hw as ->.
  - destruct b; [|done]. destruct Hw. by right.
Qed.

Lemma inv_destroyed a w x :
  inv (Some (a, false)) None w -> store w !! a = Some x -> (w_fd x < 0)%Z ->
  inv None None (w <| handles := base.delete (w_handle x) (handles w) |> <| store := base.delete a (store w) |>).
Proof.
  intros [H1 H2 H3 [T1 T2] H5 H6 (m & G1 & G2)] Hx Hfd.
  assert (Hne : forall e fd b, tree_map e w !! fd = Some b -> b <> a).
  { intros e fd b Hb ->. destruct (T1 e fd a Hb) as (y & Hy & _ & <- & Hpos). rewrite Hx in Hy. injection Hy as ->. lia. }
  split; try done.
  - split.
    + intros e fd b Hb. destruct (T1 e fd b Hb) as (y & Hy & K). exists y. split; [|exact K].
      cbn. rewrite lookup_delete_ne; [exact Hy|]. apply not_eq_sym. exact (Hne e fd b Hb).
    + intros b y Hy. cbn in Hy. apply lookup_delete_Some in Hy as [_ Hy]. exact (T2 b y Hy).
  - exact (places_destroyed _ _ _ _ _ H5).
  - exact (handles_destroyed _ _ _ _ _ _ _ H6 Hx).
  - exists m. split; [exact G1|]. intros e fd. rewrite G2. unfold registered.
    change (tree_map e (w <| handles := base.delete (w_handle x) (handles w) |> <| store := base.delete a (store w) |>))
      with (tree_map e w).
    destruct (tree_map e w !! fd) as [b|] eqn:Eb; [|done]. cbn [mbind option_bind]. cbn.
    rewrite lookup_delete_ne; [done|]. apply not_eq_sym. exact (Hne e fd b Eb).
Qed.

Lemma cleanup_ok a w :
  inv (Some (a, false)) None w -> exists w', cleanup a w = Some w' /\ inv None None w' /\ quiet w w'.
Proof.
  intros Hi. destruct (running_watcher _ _ _ Hi) as [x Hx]. pose proof (running_refs _ _ _ _ Hi Hx) as Hh.
  unfold cleanup. rewrite Hx. cbn [mbind option_bind]. destruct (Z.leb_spec 0 (w_fd x)) as [Hpos|Hneg].
  - pose proof (to_watched _ _ (iv_watch _ _ _ Hi) a x Hx Hpos) as Ha. cbn beta in Ha.
    destruct (tree (w_event x) w) as [t|] eqn:Et; [|unfold tree_map in Ha; rewrite Et in Ha; done].
    destruct (tree_delete_ok (w_event x) (w_fd x) w t Et (iv_tree _ _ _ Hi _ _ Et)) as (t' & -> & Hr'). cbn [mbind option_bind].
    pose proof (inv_unregister _ _ _ _ a x t' w _ Hi Ha Hx Hr' (or_introl eq_refl)) as Hi1.
    set (w1 := set_watcher a (with_fd (-1) x) (observe (Gone (w_event x) (w_fd x)) (set_tree (w_event x) (Some t') w))) in *.
    assert (Hx1 : store w1 !! a = Some (with_fd (-1) x)) by apply lookup_insert_eq.
    pose proof (inv_destroyed a w1 _ Hi1 Hx1 ltac:(cbn; lia)) as Hi2.
    unfold decref. change (handles (observe (Gone (w_event x) (w_fd x)) (set_tree (w_event x) (Some t') w))) with (handles w).
    rewrite Hh. cbn [mbind option_bind]. eexists. split; [reflexivity|]. split; [|exact (quiet_set_tree _ t' w)].
    match type of Hi2 with inv _ _ ?g => match goal with |- inv _ _ ?g' => assert (E : g = g') end end.
    { exact (f_equal (fun st => World st (base.delete (w_handle x) (handles w)) (readers w1) (writers w1) (pool w)
          (ready w) (initialized w) (allocs w) (log w1) (cancels w)) (delete_insert_eq (store w) a (with_fd (-1) x))). }
    by rewrite <- E.
  - cbn [mbind option_bind]. unfold decref. rewrite Hh. cbn [mbind option_bind]. eexists. split; [reflexivity|]. split; [|done].
    exact (inv_destroyed a w x Hi Hx Hneg).
Qed.

Lemma decref_running a x w :
  inv (Some (a, true)) None w -> store w !! a = Some x ->
  exists w', decref (w_handle x) w = Some w' /\ inv (Some (a, false)) None w' /\ keeps w w' /\ quiet w w'.
Proof.
  intros Hi Hx. pose proof (running_not_wrapped _ a w Hi (ex_intro _ true eq_refl)) as Hn.
  unfold decref. rewrite (running_refs _ _ _ _ Hi Hx). cbn [mbind option_bind]. eexists. split; [reflexivity|].
  split; [|by split; [apply keeps_refl|]]. destruct Hi as [H1 H2 H3 H4 H5 H6 H7]. split; try done.
  - destruct H5 as [P1 P2 P3 P4 P5]. assert (E : forall b, at_run (Some (a, false)) b <-> at_run (Some (a, true)) b).
    { intros b. split; intros [c Hc]; injection Hc as <-; eexists; reflexivity. }
    split; [exact P1 | intros id c Hc; rewrite E; exact (P2 id c Hc) | intros c Hc; rewrite E; exact (P3 c Hc)
           | intros c; rewrite E; apply P4 | intros c y Hy; rewrite E; exact (P5 c y Hy)].
  - apply (handles_recount _ _ _ _ _ _ _ a x 1 H6 Hx).
    + intros b Hb. unfold wrapped. split; intros [?|E]; [by left | done | by left | congruence].
    + right. split; [|done]. intros [?|?]; done.
Qed.

(** The task of the watcher that runs. *)
Lemma inv_run_task a b x t w :
  inv (Some (a, b)) None w -> store w !! a = Some x -> inv (Some (a, b)) None (set_watcher a (with_task t x) w).
Proof.
  intros [H1 H2 H3 H4 H5 H6 (m & G1 & G2)] Hx. split; try done.
  - by apply (trees_same _ _ a x).
  - by apply (places_run_task _ _ _ _ _ x).
  - by apply (handles_same _ _ _ _ _ a x).
  - exists m. split; [exact G1|]. intros e fd. rewrite G2. symmetry. by apply (registered_same _ _ a x).
Qed.

Lemma rearm_ok a w : inv (Some (a, false)) None w -> exists w', rearm a w = Some w' /\ inv None None w'.
Proof.
  intros Hi. destruct (running_watcher _ _ _ Hi) as [x Hx]. unfold rearm. rewrite Hx. cbn [mbind option_bind].
  destruct (negb (initialized w) || (w_fd x <? 0)%Z); [by destruct (cleanup_ok a w Hi) as (w' & -> & G & _); exists w'|].
  destruct (queue_ok _ _ (PollDone a) w Hi) as (po & r & -> & P1 & P2 & P3). cbn [mbind option_bind].
  destruct r as [id|].
  - destruct P3 as [P3 P4]. eexists. split; [reflexivity|].
    pose proof (running_not_wrapped _ a w Hi (ex_intro _ false eq_refl)) as Hn.
    destruct Hi as [H1 H2 H3 H4 H5 H6 (m & G1 & G2)]. split; try done.
    + intros Ho. destruct (H3 Ho). auto.
    + by apply (trees_same _ _ a x).
    + exact (places_armed _ _ _ _ _ _ _ _ H5 Hx P3 P4).
    + apply (handles_same _ _ _ _ _ a x); try done. apply (handles_wrapped _ _ _ _ _ _ _ H6).
      intros b. unfold wrapped. split; intros [?|E]; by left.
    + exists m. split; [exact G1|]. intros e fd. rewrite G2. symmetry. by apply (registered_same _ _ a x).
  - assert (Hi' : inv (Some (a, false)) None (w <| pool := po |>)).
    { apply (inv_same _ _ w); try done. apply (inv_trees_like _ _ _ Hi). }
    destruct (cleanup_ok a _ Hi') as (w' & -> & G & _). by exists w'.
Qed.

Lemma inv_called cur own e fd a x w :
  inv cur own w -> tree_map e w !! fd = Some a -> store w !! a = Some x ->
  inv cur own (observe (Called e fd (w_callback x)) w).
Proof.
  intros [H1 H2 H3 H4 H5 H6 (m & G1 & G2)] Ha Hx. split; try done. exists m. split; [|exact G2].
  change (replay (log w ++ [Called e fd (w_callback x)]) ∅ = Some m). rewrite (replay_app _ _ _ m G1). cbn [replay1].
  rewrite G2. unfold registered. rewrite Ha. cbn [mbind option_bind]. rewrite Hx. cbn. by rewrite Nat.eqb_refl.
Qed.

Lemma loop_watchers_callback_ok a success cancelled w :
  inv (Some (a, false)) None w ->
  exists w', loop_watchers_callback a success cancelled w = Some w' /\ inv None None w' /\ (cancelled = true -> quiet w w').
Proof.
  intros Hi. destruct (running_watcher _ _ _ Hi) as [x Hx]. unfold loop_watchers_callback. rewrite Hx. cbn [mbind option_bind].
  destruct (cleanup_ok a w Hi) as (wc & Ec & Hc & Qc).
  destruct (cancelled || (w_fd x <? 0)%Z) eqn:Eb; [by exists wc|]. apply orb_false_iff in Eb as [-> _].
  destruct success; [|by exists wc]. cbn zeta.
  pose proof (inv_run_task a false x None w Hi Hx) as Hi1. set (w1 := set_watcher a (with_task None x) w) in *.
  assert (Hx1 : store w1 !! a = Some (with_task None x)) by apply lookup_insert_eq.
  pose proof (running_refs _ _ _ _ Hi1 Hx1) as Hh. cbn [w_handle with_task] in Hh. unfold incref. rewrite Hh. cbn [mbind option_bind].
  set (w2 := w1 <| handles := <[w_handle x := 2]> (handles w1) |>). unfold alloc. change (allocs w2) with (allocs w).
  destruct (alloc_ok (allocs w)).
  - eexists. split; [reflexivity|]. split; [|done].
    pose proof (running_not_wrapped _ a w1 Hi1 (ex_intro _ false eq_refl)) as Hn.
    destruct Hi1 as [H1 H2 H3 H4 H5 H6 H7]. split; try done.
    + exact (places_dispatched _ _ _ _ _ H5).
    + apply (handles_recount _ _ _ _ _ _ _ a _ 2 H6 Hx1).
      * intros b Hb.
        change (Wrapper b ∈ ready w ++ [Wrapper a] \/ None = Some (b, true) <-> Wrapper b ∈ ready w \/ Some (a, false) = Some (b, true)).
        rewrite elem_of_app, list_elem_of_singleton. split; [|intros [?|[= ]]; left; by left].
        intros [[?|[= ?]]|?]; [by left | done | done].
      * left. split; [|done]. left. apply elem_of_app. right. left.
  - unfold decref. cbn [handles]. set (w3 := w2 <| allocs := S (allocs w) |>).
    assert (E3 : handles w3 !! w_handle x = Some 2) by apply lookup_insert_eq. rewrite E3. cbn [mbind option_bind].
    set (w4 := w3 <| handles := <[w_handle x := 1]> (handles w3) |>).
    assert (Hi4 : inv (Some (a, false)) None w4).
    { apply (inv_same _ _ w1); try done; [apply (inv_pool_like _ _ _ Hi1) | apply (inv_trees_like _ _ _ Hi1) |].
      change (<[w_handle x := 1]> (<[w_handle x := 2]> (handles w1)) = handles w1). rewrite insert_insert_eq. by apply insert_id. }
    destruct (cleanup_ok a w4 Hi4) as (w5 & -> & G & _). by exists w5.
Qed.

Lemma wrapper_callback_ok a cancelled user o w :
  inv (Some (a, true)) None w ->
  exists w', wrapper_callback a cancelled user o w = Some w' /\ inv None None w' /\ (cancelled = true -> quiet w w').
Proof.
  intros Hi. destruct (running_watcher _ _ _ Hi) as [x Hx]. unfold wrapper_callback. rewrite Hx. cbn [mbind option_bind].
  destruct (cancelled || (w_fd x <? 0)%Z) eqn:Eb.
  { destruct (decref_running a x w Hi Hx) as (w1 & -> & Hi1 & _ & Q1). cbn [mbind option_bind].
    destruct (cleanup_ok a w1 Hi1) as (w2 & -> & Hi2 & Q2). exists w2. split; [reflexivity|]. split; [exact Hi2|].
    intros _. exact (quiet_step _ _ _ Q1 Q2). }
  apply orb_false_iff in Eb as [-> Hfd]. apply Z.ltb_ge in Hfd. cbn zeta.
  pose proof (to_watched _ _ (iv_watch _ _ _ Hi) a x Hx Hfd) as Ha. cbn beta in Ha.
  pose proof (inv_run_task a true x None w Hi Hx) as Hi1. set (w1 := set_watcher a (with_task None x) w) in *.
  assert (Hx1 : store w1 !! a = Some (with_task None x)) by apply lookup_insert_eq.
  pose proof (inv_called _ _ _ _ a _ w1 Hi1 Ha Hx1) as Hi2. cbn [w_callback with_task] in Hi2.
  destruct (user_calls_ok _ user _ Hi2) as (w3 & -> & Hi3 & [_ K3]). cbn [mbind option_bind].
  destruct (K3 a _ Hx1) as (x3 & Hx3 & Eh). cbn [w_handle with_task] in Eh.
  destruct (decref_running a x3 w3 Hi3 Hx3) as (w4 & E4 & Hi4 & _). rewrite Eh in E4. rewrite !E4. cbn [mbind option_bind].
  destruct o as [|handler|].
  - destruct (rearm_ok a w4 Hi4) as (w5 & -> & Hi5). by exists w5.
  - destruct (user_calls_ok _ handler _ Hi4) as (w5 & -> & Hi5 & _). cbn [mbind option_bind].
    destruct (rearm_ok a w5 Hi5) as (w6 & -> & Hi6). by exists w6.
  - destruct (cleanup_ok a w4 Hi4) as (w5 & -> & Hi5 & _). by exists w5.
Qed.

Lemma run_ready_ok r cancelled user o w :
  inv (running_of r) None w ->
  exists w', run_ready r cancelled user o w = Some w' /\ inv None None w' /\ (cancelled = true -> quiet w w').
Proof.
  intros Hi. destruct r as [a s|a|n]; cbn [run_ready running_of] in *.
  - by apply loop_watchers_callback_ok.
  - by apply wrapper_callback_ok.
  - destruct cancelled; [by exists w|]. destruct (user_calls_ok _ user _ Hi) as (w' & -> & Hi' & _). by exists w'.
Qed.

(** A callback taken out of the ready queue. *)
Lemma inv_taken rs1 r rs2 w :
  inv None None w -> ready w = rs1 ++ r :: rs2 -> inv (running_of r) None (w <| ready := rs1 ++ rs2 |>).
Proof.
  intros [H1 H2 H3 H4 H5 H6 H7] E. rewrite E in H5, H6. split; try done.
  - exact (places_taken _ _ _ _ _ H5).
  - apply (handles_wrapped _ _ _ _ _ _ _ H6). intros a. cbn [ready set_field]. unfold wrapped.
    rewrite !elem_of_app, elem_of_cons. pose proof (pl_nodup _ _ _ _ H5) as Hnd.
    destruct r as [b s|b|n]; cbn [running_of]; (split; [|]).
    all: try (intros [[?|?]|[= ]]; tauto). all: try (intros [[?|[[= ]|?]]|[= ]]; tauto).
    + intros [[?|?]|[= ->]]; [tauto | tauto | left; right; by left].
    + intros [[?|[[= ->]|?]]|[= ]]; [tauto | by right | tauto].
Qed.

(** ** Any sequence of events *)

Lemma release_all_ok rs : forall w,
  inv None None w -> ready w = rs ->
  exists w', release_all rs w = Some w' /\ inv None None w' /\ ready w' = [] /\ pool w' = pool w /\ initialized w' = initialized w
    /\ forall e, is_Some (tree e w) -> is_Some (tree e w').
Proof.
  induction rs as [|r rs IH]; intros w Hi Er; cbn [release_all]; [by exists w|].
  pose proof (inv_taken [] r rs w Hi Er) as Hi1. cbn [app] in Hi1.
  destruct (run_ready_ok r true [] Returned _ Hi1) as (w1 & -> & Hi2 & Q). destruct (Q eq_refl) as (Q1 & Q2 & Q3 & Q4).
  cbn [mbind option_bind]. destruct (IH w1 Hi2 Q1) as (w2 & -> & Hi3 & G1 & G2 & G3 & G4). exists w2. split; [reflexivity|].
  split; [exact Hi3|]. split; [exact G1|]. split; [by rewrite G2, Q2|]. split; [by rewrite G3, Q3|]. auto.
Qed.

Lemma pop_watchers_ok n : forall e w t,
  inv None None w -> tree e w = Some t -> length (flat (root t)) < n ->
  exists w', pop_watchers n e w = Some w' /\ inv None None w' /\ tree_map e w' = ∅ /\ is_Some (tree e w')
    /\ (forall e', e' <> e -> tree e' w' = tree e' w)
    /\ ready w' = ready w /\ pool w' = pool w /\ initialized w' = initialized w.
Proof.
  induction n as [|n IH]; intros e w t Hi Ht Hn; [lia|]. cbn [pop_watchers]. rewrite Ht. cbn [mbind option_bind].
  pose proof (iv_tree _ _ _ Hi e t Ht) as Hr. destruct (pop_repr Degree t _ Hr) as (t' & r & -> & Hp). cbn [mbind option_bind].
  assert (Hother : forall e', e' <> e -> tree e' (set_tree e (Some t') w) = tree e' w) by (intros e' He; rewrite tree_set; by rewrite decide_False).
  destruct r as [[fd a]|].
  - destruct Hp as (Ha & Hr' & Hl). cbn [fst snd] in Ha, Hr'. destruct (to_entry _ _ (iv_watch _ _ _ Hi) e fd a Ha) as (x & Hx & _).
    change (store (set_tree e (Some t') w)) with (store w). rewrite Hx. cbn [mbind option_bind].
    pose proof (inv_unregister _ _ e fd a x t' w _ Hi Ha Hx Hr' (or_introl eq_refl)) as Hi1.
    set (w1 := set_watcher a (with_fd (-1) x) (observe (Gone e fd) (set_tree e (Some t') w))) in *.
    change (observe (Gone e fd) (set_watcher a (with_fd (-1) x) (set_tree e (Some t') w))) with w1.
    assert (Ht1 : tree e w1 = Some t') by (change (tree e (set_tree e (Some t') w) = Some t'); rewrite tree_set; by rewrite decide_True).
    destruct (IH e w1 t' Hi1 Ht1 ltac:(lia)) as (w2 & -> & Hi2 & G1 & G2 & G3 & G4). exists w2.
    split; [reflexivity|]. split; [exact Hi2|]. split; [exact G1|]. split; [exact G2|]. split; [|exact G4].
    intros e' He. rewrite G3 by exact He. exact (Hother e' He).
  - destruct Hp as [Hm Hr']. eexists. split; [reflexivity|].
    assert (Etm : forall e', tree_map e' (set_tree e (Some t') w) = tree_map e' w).
    { intros e'. rewrite (tree_map_set e e' t' _ w Hr'). by destruct (decide (e' = e)) as [->|]. }
    split; [|split; [by rewrite Etm|split; [rewrite tree_set, decide_True by done; by eexists | by split; [exact Hother|]]]].
    apply (inv_same None None w); try done; [apply (inv_pool_like _ _ _ Hi)|]. split; [exact Etm|]. split.
    + intros e' t1. rewrite tree_set, Etm. destruct (decide (e' = e)) as [->|Hne]; [by intros [= <-] | apply (iv_tree _ _ _ Hi)].
    + intros e' Hs. rewrite tree_set. destruct (decide (e' = e)); eauto.
Qed.

(** The polls in flight when the queue is closed become ready callbacks. *)
Lemma places_closed fl st ids cs :
  places_ok fl [] None st -> NoDup ids -> Forall2 (fun id c => fl id = Some c) ids cs ->
  (forall id, is_Some (fl id) -> id ∈ ids) -> places_ok (fun _ => None) (map (ready_of true) cs) None st.
Proof.
  intros [_ H2 _ _ H5] Hnd Hf Hall.
  assert (Hin : forall a ids cs, Forall2 (fun id c => fl id = Some c) ids cs -> a ∈ ready_watchers (map (ready_of true) cs) ->
    exists id, id ∈ ids /\ fl id = Some (PollDone a)).
  { clear. intros a ids cs Hf. unfold ready_watchers. induction Hf as [|id c ids cs Hc Hf IH]; cbn [map]; [by intros ?%elem_of_nil|].
    cbn [omap list_omap]. destruct c as [b|n]; cbn [ready_of whose].
    - intros [->|Ha]%elem_of_cons; [exists id; split; [left | exact Hc]|]. destruct (IH Ha) as (j & ? & ?). exists j. split; [by right | done].
    - intros Ha. destruct (IH Ha) as (j & ? & ?). exists j. split; [by right | done]. }
  assert (Hout : forall id a ids cs, Forall2 (fun id c => fl id = Some c) ids cs -> id ∈ ids -> fl id = Some (PollDone a) ->
    a ∈ ready_watchers (map (ready_of true) cs)).
  { clear. intros id a ids cs Hf Hid Ha. unfold ready_watchers. induction Hf as [|j d ids cs Hd Hf IH]; [by apply elem_of_nil in Hid|].
    cbn [map omap list_omap]. apply elem_of_cons in Hid as [->|Hid].
    - rewrite Ha in Hd. injection Hd as <-. left.
    - specialize (IH Hid). destruct (whose (ready_of true d)); [by right | exact IH]. }
  split.
  - clear Hall. induction Hf as [|id c ids cs Hc Hf IH]; [constructor|]. apply NoDup_cons in Hnd as [Hn Hnd].
    specialize (IH Hnd). unfold ready_watchers in *. cbn [map omap list_omap].
    destruct c as [a|n]; cbn [ready_of whose]; [|exact IH]. apply NoDup_cons. split; [|exact IH].
    intros Ha. destruct (Hin a ids cs Hf Ha) as (j & Hj & Ej). apply Hn.
    destruct (H2 id a Hc) as ((x & Hx & Ex) & _). destruct (H2 j a Ej) as ((y & Hy & Ey) & _). congruence.
  - discriminate.
  - intros a Ha. destruct (Hin a ids cs Hf Ha) as (id & _ & Hid). destruct (H2 id a Hid) as ((x & Hx & _) & _).
    split; [eauto | apply at_run_none].
  - by intros a Ha%at_run_none.
  - intros a x Hx. destruct (H5 a x Hx) as [(id & E & Hid)|[Ha|Ha%at_run_none]]; [|by apply elem_of_nil in Ha | done].
    right. left. exact (Hout id a ids cs Hf (Hall id (ex_intro _ _ Hid)) Hid).
Qed.

(** Closing frees every watcher and every handle. *)
Lemma release_claimed_ok w :
  inv None None w -> initialized w = true ->
  exists w', release_claimed w = Some w' /\ inv None None w' /\ initialized w' = false
    /\ store w' = ∅ /\ handles w' = ∅ /\ ready w' = [].
Proof.
  intros Hi Ho. unfold release_claimed. destruct (iv_open _ _ _ Hi Ho) as [Htrees [p Hp]].
  assert (Hi0 : inv None None (w <| initialized := false |>)) by (destruct Hi; by split).
  destruct (release_all_ok (ready w) _ Hi0 eq_refl) as (w1 & -> & Hi1 & R1 & P1 & I1 & T1). cbn [mbind option_bind].
  destruct (T1 POLLIN (Htrees POLLIN)) as [t1 Ht1]. unfold entries. rewrite Ht1.
  destruct (pop_watchers_ok _ POLLIN w1 t1 Hi1 Ht1 (Nat.lt_succ_diag_r _)) as (w2 & -> & Hi2 & M2 & _ & T2 & R2 & P2 & I2).
  cbn [mbind option_bind]. destruct (T1 POLLOUT (Htrees POLLOUT)) as [t2 Ht2]. rewrite <- (T2 POLLOUT) in Ht2 by done. rewrite Ht2.
  destruct (pop_watchers_ok _ POLLOUT w2 t2 Hi2 Ht2 (Nat.lt_succ_diag_r _)) as (w3 & -> & Hi3 & M3 & _ & T3 & R3 & P3 & I3).
  cbn [mbind option_bind]. assert (Ep : pool w3 = Some p) by (rewrite P3, P2, P1; exact Hp). rewrite Ep. cbn [mbind option_bind].
  assert (Em : forall e, tree_map e w3 = ∅).
  { intros []; [|exact M3]. rewrite <- M2. unfold tree_map. by rewrite T3. }
  assert (Er : ready w3 = []) by (rewrite R3, R2; exact R1).
  set (w4 := w3 <| readers := None |> <| writers := None |> <| pool := None |> <| ready := map (ready_of true) (pool_deinit p) |>).
  assert (Hi4 : inv None None w4).
  { destruct Hi3 as [H1 H2 H3 H4 H5 H6 (m & G1 & G2)]. rewrite Ep, Er in *.
    destruct (pool_deinit_ok p (H1 p eq_refl)) as (ids & D1 & D2 & D3).
    assert (Etm : forall e, tree_map e w4 = tree_map e w3) by (intros e; rewrite Em; by destruct e).
    split; try done.
    - intros e t Ht. by destruct e.
    - intros Hf. exfalso. change (initialized w3 = true) in Hf. rewrite I3, I2, I1 in Hf. done.
    - by eapply trees_ext.
    - exact (places_closed _ _ ids _ H5 D1 D2 D3).
    - apply (handles_wrapped _ _ _ _ _ _ _ H6). intros a. unfold wrapped. split; intros [Hin|?]; [|done| |done].
      + exfalso. apply list_elem_of_fmap in Hin as ([b|n] & E & _); done.
      + by apply elem_of_nil in Hin.
    - exists m. split; [exact G1|]. intros e fd. rewrite G2. unfold registered. by rewrite Etm. }
  destruct (release_all_ok (map (ready_of true) (pool_deinit p)) w4 Hi4 eq_refl) as (w5 & -> & Hi5 & R5 & P5 & I5 & _). exists w5.
  split; [reflexivity|]. split; [exact Hi5|]. split; [by rewrite I5; change (initialized w3 = false); rewrite I3, I2, I1|].
  assert (Es : store w5 = ∅).
  { apply map_eq. intros a. rewrite lookup_empty. destruct (store w5 !! a) as [x|] eqn:E; [exfalso|done].
    destruct (pl_place _ _ _ _ (iv_place _ _ _ Hi5) a x E) as [(id & _ & Hf)|[Hin|Hr%at_run_none]]; [| |done].
    - rewrite P5 in Hf. done.
    - rewrite R5 in Hin. by apply elem_of_nil in Hin. }
  split; [exact Es|]. split; [|exact R5]. apply map_eq. intros h. rewrite lookup_empty.
  destruct (handles w5 !! h) as [n|] eqn:E; [exfalso|done].
  destruct (ho_all _ _ _ _ _ (iv_handles _ _ _ Hi5) h (ex_intro _ _ E)) as [?|(a & x & Hx & _)]; [done|]. by rewrite Es in Hx.
Qed.

Lemma event_ok ev w : inv None None w -> exists w', step ev w = Some w' /\ inv None None w'.
Proof.
  intros Hi. destruct ev as [c|id success|i user o|]; cbn [step].
  - destruct (user_call_ok None c w Hi) as (w' & -> & Hi' & _). by exists w'.
  - change (p ← pool w; pool_lookup id p) with (flight (pool w) id).
    destruct (flight (pool w) id) as [c|] eqn:Ef; [|by exists w]. destruct (pool w) as [p|] eqn:Ep; [|done].
    cbn [flight mbind option_bind] in Ef. change (pool_lookup id p = Some c) in Ef. cbn [mbind option_bind].
    destruct (pool_complete_ok id c p (iv_pool _ _ _ Hi p Ep) Ef) as (p' & -> & H1 & H2). cbn [mbind option_bind].
    eexists. split; [reflexivity|]. destruct Hi as [K1 K2 K3 K4 K5 K6 K7]. rewrite Ep in *. split; try done.
    + by intros q [= <-].
    + intros Ho. destruct (K3 Ho) as [G _]. split; [exact G | by eexists].
    + exact (places_completed _ _ _ _ _ id c success K5 Ef H2).
    + apply (handles_wrapped _ _ _ _ _ _ _ K6). intros a.
      change (Wrapper a ∈ ready w ++ [ready_of success c] \/ None = Some (a, true) <-> Wrapper a ∈ ready w \/ None = Some (a, true)).
      rewrite elem_of_app, list_elem_of_singleton. split; [|intros [?|?]; [by left; left | by right]].
      intros [[?|E]|?]; [by left | by destruct c | by right].
  - destruct (ready w !! i) as [r|] eqn:Er; [|by exists w].
    pose proof (inv_taken (take i (ready w)) r (drop (S i) (ready w)) w Hi (eq_sym (take_drop_middle _ _ _ Er))) as Hi'.
    destruct (run_ready_ok r false user o _ Hi') as (w' & -> & Hw & _). by exists w'.
  - destruct (initialized w) eqn:Ho; [|by exists w].
    destruct (release_claimed_ok w Hi Ho) as (w' & -> & Hi' & _). by exists w'.
Qed.

Lemma events_ok evs : forall w, inv None None w -> exists w', run evs w = Some w' /\ inv None None w'.
Proof.
  induction evs as [|ev evs IH]; intros w Hi; cbn [run]; [by exists w|].
  destruct (event_ok ev w Hi) as (w1 & -> & Hi1). cbn [mbind option_bind]. by apply IH.
Qed.

(** The loop when it is made, with a pool that has no task of ours. *)
Definition new_world (p : P) : world :=
  World ∅ ∅ (BTree.init tree_alloc_ok) (BTree.init tree_alloc_ok) (Some p) [] true 0 [] [].

Lemma new_world_inv p :
  pool_ok p -> (forall id, pool_lookup id p = None) -> inv None None (new_world p).
Proof.
  intros Hp Hl. assert (Et : forall e, tree e (new_world p) = Some (BTree_ (Node [] Null) 1)).
  { intros e. unfold new_world, tree, BTree.init. rewrite tree_allocations_succeed. by destruct e. }
  assert (Em : forall e, tree_map e (new_world p) = ∅) by (intros e; unfold tree_map; by rewrite Et).
  split.
  - by intros q [= <-].
  - intros e t. rewrite Et, Em. intros [= <-]. split; [by left|]. split; [constructor | reflexivity].
  - intros _. split; [intros e; rewrite Et; by eexists | by eexists].
  - split; [intros e fd a; by rewrite Em | done].
  - split; try done; [constructor | intros id a; cbn; rewrite Hl; discriminate | by intros a ?%elem_of_nil | by intros a ?%at_run_none].
  - split; try done. intros h [n Hn]. done.
  - exists ∅. split; [reflexivity|]. intros e fd. unfold registered. by rewrite Em.
Qed.

(** C22: watching descriptors does not fault, provided the nodes of the two trees
    can be allocated ([tree_allocations_succeed]; see
    [failed_insertion_leaves_watcher] for what happens otherwise) and an operation
    that could not be queued leaves nothing in flight ([TaskPoolLaws]; a submission
    that fails late does, see [failed_submission_leaves_poll]); besides, an
    allocated block is fresh, and the loop starts on an empty pool.  Then whatever
    is added, removed, completed and run, in whatever order, with other allocations
    and the queueing of operations that fail, no freed watcher or handle is used
    and no reference is dropped twice; closing the loop then frees every watcher
    and every handle and leaves nothing to run. *)
Theorem watchers_never_fault (p : P) (evs : list event) :
  pool_ok p -> (forall id, pool_lookup id p = None) ->
  exists w, run evs (new_world p) = Some w
    /\ (initialized w = true ->
        exists w', step Close w = Some w' /\ store w' = ∅ /\ handles w' = ∅ /\ ready w' = []).
Proof.
  intros Hp Hl. destruct (events_ok evs _ (new_world_inv p Hp Hl)) as (w & E & Hi). exists w. split; [exact E|].
  intros Ho. cbn [step]. rewrite Ho. destruct (release_claimed_ok w Hi Ho) as (w' & G & _ & _ & G1 & G2 & G3). by exists w'.
Qed.

(** C23: provided the nodes of the two trees can be allocated
    ([tree_allocations_succeed]; an insertion that fails leaves an entry, see
    [failed_insertion_leaves_watcher]) and an operation that could not be queued
    leaves nothing in flight ([TaskPoolLaws]; see [failed_submission_leaves_poll]),
    and on an empty pool and with fresh allocated blocks: the methods, the callbacks
    and the closing of the loop act on the descriptors as on a map of
    registrations: a removal answers whether there was one, only the callback
    registered for a descriptor is called for it, a second registration takes the
    place of the first; and each registration has its poll in flight or its
    callback ready to run. *)
Theorem watchers_follow_registrations (p : P) (evs : list event) :
  pool_ok p -> (forall id, pool_lookup id p = None) ->
  exists w m, run evs (new_world p) = Some w /\ replay (log w) ∅ = Some m
    /\ forall e fd cb, m !! (e, fd) = Some cb ->
         exists a x, tree_map e w !! fd = Some a /\ store w !! a = Some x
           /\ w_event x = e /\ w_fd x = fd /\ w_callback x = cb
           /\ ((exists id, w_task x = Some id /\ flight (pool w) id = Some (PollDone a))
               \/ a ∈ ready_watchers (ready w)).
Proof.
  intros Hp Hl. destruct (events_ok evs _ (new_world_inv p Hp Hl)) as (w & E & Hi).
  destruct (iv_log _ _ _ Hi) as (m & G1 & G2). exists w, m. split; [exact E|]. split; [exact G1|].
  intros e fd cb Hm. rewrite G2 in Hm. unfold registered in Hm.
  destruct (tree_map e w !! fd) as [a|] eqn:Ea; [|done]. cbn [mbind option_bind] in Hm.
  destruct (to_entry _ _ (iv_watch _ _ _ Hi) e fd a Ea) as (x & Hx & H1 & H2 & _). rewrite Hx in Hm. injection Hm as <-.
  exists a, x. do 5 (split; [done|]).
  destruct (pl_place _ _ _ _ (iv_place _ _ _ Hi) a x Hx) as [K|[K|K%at_run_none]]; [by left | by right | done].
Qed.
End Watchers.

(** ** On the queue of blocking tasks *)

Definition all_ok (_ : nat) : bool := true.

(** A loop on a queue with sets of four slots; which submissions and which tree
    allocations succeed. *)
Definition sample_run (submit_ok tree_alloc_ok : nat -> bool) (evs : list event) : option (world (P := io)) :=
  run (P := io) (H := io_pool (C := task_callback) 4 all_ok submit_ok sample_addr) all_ok tree_alloc_ok sample_addr evs
    (new_world tree_alloc_ok (IoTasks.init sample_addr)).

Definition sample_events : list event :=
  [UserCall (AddWatcher POLLIN 5 100); UserCall (AddWatcher POLLOUT 5 101); UserCall (AddWatcher POLLIN 6 102);
   Completion (1, 0) true; Completion (1, 2) true;
   RunReady 0 [] Returned; RunReady 0 [] Returned;
   RunReady 0 [RemoveWatcher POLLIN 6; AddWatcher POLLIN 6 103] (Raised [RemoveWatcher POLLIN 5]);
   RunReady 0 [] Returned; UserCall (AddWatcher POLLIN 5 104); UserCall (RemoveWatcher POLLIN 9)].

Lemma io_lookup_init id : lookup_task id (IoTasks.init (C := task_callback) sample_addr) = None.
Proof. destruct id as [[|[|i]] j]; reflexivity. Qed.

Lemma watchers_never_fault_witness :
  let tp := io_pool (C := task_callback) 4 all_ok all_ok sample_addr in
  let p := IoTasks.init (C := task_callback) sample_addr in
  @pool_ok _ _ tp p /\ (forall id, @pool_lookup _ _ tp id p = None) /\
  exists w, run (P := io) (H := tp) all_ok all_ok sample_addr sample_events (new_world all_ok p) = Some w
    /\ (initialized w = true ->
        exists w', step (P := io) (H := tp) all_ok all_ok sample_addr Close w = Some w'
          /\ store w' = ∅ /\ handles w' = ∅ /\ ready w' = []).
Proof.
  intros tp p. assert (Hp : io_ok 4 p) by (apply io_init_ok; lia).
  split; [exact Hp|]. split; [exact io_lookup_init|].
  refine (@watchers_never_fault io tp all_ok all_ok sample_addr _ _ _ p sample_events Hp io_lookup_init).
  - apply io_pool_laws; [lia | reflexivity | exact sample_addr_fresh].
  - reflexivity.
  - exact sample_addr_fresh.
Defined.

Lemma watchers_follow_registrations_witness :
  let tp := io_pool (C := task_callback) 4 all_ok all_ok sample_addr in
  let p := IoTasks.init (C := task_callback) sample_addr in
  @pool_ok _ _ tp p /\ (forall id, @pool_lookup _ _ tp id p = None) /\
  exists w m, run (P := io) (H := tp) all_ok all_ok sample_addr sample_events (new_world all_ok p) = Some w
    /\ replay (log w) ∅ = Some m
    /\ forall e fd cb, m !! (e, fd) = Some cb ->
         exists a x, tree_map e w !! fd = Some a /\ store w !! a = Some x
           /\ w_event x = e /\ w_fd x = fd /\ w_callback x = cb
           /\ ((exists id, w_task x = Some id /\ flight (H := tp) (pool w) id = Some (PollDone a))
               \/ a ∈ ready_watchers (ready w)).
Proof.
  intros tp p. assert (Hp : io_ok 4 p) by (apply io_init_ok; lia).
  split; [exact Hp|]. split; [exact io_lookup_init|].
  refine (@watchers_follow_registrations io tp all_ok all_ok sample_addr _ _ _ p sample_events Hp io_lookup_init).
  - apply io_pool_laws; [lia | reflexivity | exact sample_addr_fresh].
  - reflexivity.
  - exact sample_addr_fresh.
Defined.

Lemma sample_log :
  log <$> sample_run all_ok all_ok sample_events
  = Some [Added POLLIN 5 100; Added POLLOUT 5 101; Added POLLIN 6 102;
          Called POLLIN 5 100; Removed POLLIN 6 true; Added POLLIN 6 103; Removed POLLIN 5 true;
          Added POLLIN 5 104; Removed POLLIN 9 false]%Z.
Proof. by vm_compute. Qed.

(** A watcher keeps the id of its poll from the harvest of the completion, which
    frees the slot, until its callback runs; an operation queued in between takes the
    slot, and removing the watcher cancels that operation. *)
Lemma removal_cancels_another_operation :
  (w ← sample_run all_ok all_ok
        [UserCall (AddWatcher POLLIN 5 100); Completion (1, 0) true;
         UserCall (OtherOperation 7); UserCall (RemoveWatcher POLLIN 5)];
   p ← pool w; Some (cancels w, lookup_task (1, 0) p))
  = Some ([(1, 0)], Some (OtherTask 7)).
Proof. by vm_compute. Qed.

(** When the tree cannot split a node, [insert] answers [false] with the watcher in the
    tree: [add_reader] raises and frees the watcher, and the next [remove_reader] of
    that descriptor uses it. *)
Lemma failed_insertion_leaves_watcher :
  let adds := map (fun n => UserCall (AddWatcher POLLIN (Z.of_nat n) n)) (seq 1 11) in
  let no_split n := n <? 1 in
  is_Some (sample_run all_ok no_split adds)
  /\ sample_run all_ok no_split (adds ++ [UserCall (RemoveWatcher POLLIN 11)]) = None.
Proof. split; [eexists; by vm_compute | by vm_compute]. Qed.

(** When the submission fails, the poll is queued and [add_reader] raises: the
    watcher is freed, and the completion of the poll uses it. *)
Lemma failed_submission_leaves_poll :
  let evs := [UserCall (AddWatcher POLLIN 5 100); UserCall (AddWatcher POLLIN 6 101)] in
  is_Some (sample_run (fun _ => false) all_ok evs)
  /\ sample_run (fun _ => false) all_ok (evs ++ [Completion (1, 1) true; RunReady 0 [] Returned]) = None.
Proof. split; [eexists; by vm_compute | by vm_compute]. Qed.
