(* ===== verification/UnixSignals.v ===== *)
(** * Signal handlers (src/src/loop/unix_signals.zig, loop/python/unix_signals.zig)

    [add_signal_handler] and [remove_signal_handler]: a signal with a handler is
    blocked, its action is a dummy one and it is read from a signalfd; the read is a
    blocking task whose callback finds the handler in a B-tree and makes it ready.
    The kernel is any [SignalOS]: the masks and actions of the process with the laws
    of sigprocmask(2), signal(3), signalfd(2).  The blocking tasks are any [TaskPool].
    A handle is a reference count; [None] is a fault: a use of freed memory, a count
    or a reservation that falls below zero.  [muted] and [failures] are not in the
    code: they record what happened. *)

From stdpp Require Import base numbers list gmap.
From Stdlib Require Import ZArith Lia.
From S2P Require Import Prelude BTree IoTasks.

Open Scope nat_scope.

(** [?SigHandler]; the null pointer is SIG_DFL.  [Foreign] is any other function. *)
Inductive handler : Type :=
| SIG_DFL
| SIG_IGN
| SIG_ERR
| Dummy
| Foreign (n : nat).

#[export] Instance handler_eq_dec : EqDecision handler.
Proof. solve_decision. Defined.

Definition to_optional (h : handler) : option handler := match h with SIG_DFL => None | _ => Some h end.

(** ** The kernel *)

Class SignalOS (K : Type) := {
  os_block : gset Z -> K -> K;
  os_unblock : gset Z -> K -> K;
  os_signal : Z -> handler -> K -> handler * K;
  os_siginterrupt : Z -> bool -> K -> K;
  os_signalfd : gset Z -> K -> option K;
  os_read : K -> option (Z * K);
  os_raise : Z -> K -> K;
  os_catchable : Z -> bool;
  os_blocked : K -> Z -> bool;
  os_handler : K -> Z -> handler;
  os_fd_mask : K -> gset Z;
  os_pending : K -> gset Z }.

(** What two states of the process have in common when only its pending signals
    changed. *)
Definition same_masks {K} `{SignalOS K} (k k' : K) : Prop :=
  (forall s, os_blocked k' s = os_blocked k s) /\ (forall s, os_handler k' s = os_handler k s)
  /\ os_fd_mask k' = os_fd_mask k.

(** The documented behaviour; SIGKILL and SIGSTOP cannot be caught or blocked. *)
Class SignalOSLaws (K : Type) `{SignalOS K} : Prop := {
  os_block_ok m k :
    (forall s, os_blocked (os_block m k) s = os_blocked k s || (bool_decide (s ∈ m) && os_catchable s))
    /\ (forall s, os_handler (os_block m k) s = os_handler k s) /\ os_fd_mask (os_block m k) = os_fd_mask k;
  os_unblock_ok m k :
    (forall s, os_blocked (os_unblock m k) s = os_blocked k s && negb (bool_decide (s ∈ m)))
    /\ (forall s, os_handler (os_unblock m k) s = os_handler k s) /\ os_fd_mask (os_unblock m k) = os_fd_mask k;
  os_signal_ok s h k : os_catchable s = true -> h <> SIG_ERR ->
    (os_signal s h k).1 = os_handler k s
    /\ (forall t, os_handler (os_signal s h k).2 t = if decide (t = s) then h else os_handler k t)
    /\ (forall t, os_blocked (os_signal s h k).2 t = os_blocked k t)
    /\ os_fd_mask (os_signal s h k).2 = os_fd_mask k;
  os_signal_fails s h k : os_catchable s = false -> os_signal s h k = (SIG_ERR, k);
  os_siginterrupt_ok s b k : same_masks k (os_siginterrupt s b k);
  os_signalfd_ok m k k' : os_signalfd m k = Some k' ->
    (forall s, s ∈ os_fd_mask k' <-> s ∈ m /\ os_catchable s = true)
    /\ (forall s, os_blocked k' s = os_blocked k s) /\ (forall s, os_handler k' s = os_handler k s);
  os_read_ok k s k' : os_read k = Some (s, k') -> s ∈ os_fd_mask k /\ s ∈ os_pending k /\ same_masks k k';
  os_read_some k s : s ∈ os_pending k -> s ∈ os_fd_mask k -> is_Some (os_read k);
  os_raise_ok s k : same_masks k (os_raise s k);
  os_raise_pending s k : os_blocked k s = true -> s ∈ os_pending (os_raise s k) }.

(** ** The masks and actions that the loop sets *)

Section Dispositions.
Context {K : Type} `{SignalOS K}.

(** [mask] and [prev_handlers] of [UnixSignals], the process and the states it went
    through; [muted] are the signals whose dummy action was recorded as the previous
    one. *)
Record signals : Type := Signals {
  kernel : K;
  mask : gset Z;
  prev_handlers : gmap Z handler;
  history : list K;
  muted : gset Z }.

#[export] Instance eta_signals : Eta signals := fun s =>
  Signals (kernel s) (mask s) (prev_handlers s) (history s) (muted s).

Open Scope py_scope.

Definition sys (k : K) (s : signals) : signals := s <| kernel := k |> <| history := history s ++ [k] |>.

Definition in_range (sig : Z) : bool := ((1 <=? sig) && (sig <=? 64))%Z.

(** [link] up to its [signalfd]; [false]: that call failed. *)
Definition arm (sig : Z) (s : signals) : signals * bool :=
  let s := s <| mask := {[sig]} ∪ mask s |> in
  let s := sys (os_block (mask s) (kernel s)) s in
  let r := os_signal sig Dummy (kernel s) in
  let s := sys r.2 s in
  let s :=
    if in_range sig then
      match prev_handlers s !! sig with
      | Some _ => s
      | None =>
          s <| prev_handlers := match to_optional r.1 with Some h => <[sig := h]> (prev_handlers s) | None => prev_handlers s end |>
            <| muted := if decide (r.1 = Dummy) then {[sig]} ∪ muted s else muted s |>
      end
    else s in
  let s := sys (os_siginterrupt sig false (kernel s)) s in
  match os_signalfd (mask s) (kernel s) with
  | Some k => (sys k s, true)
  | None => (s, false)
  end.

(** The previous action of a signal, taken out of [prev_handlers] and put back. *)
Definition restore (sig : Z) (s : signals) : signals :=
  let old := if in_range sig then default SIG_DFL (prev_handlers s !! sig) else SIG_DFL in
  let s := if in_range sig then s <| prev_handlers := base.delete sig (prev_handlers s) |> else s in
  sys (os_signal sig old (kernel s)).2 s.

(** [unlink] from its [sigdelset]. *)
Definition disarm (sig : Z) (s : signals) : signals * bool :=
  let s := s <| mask := mask s ∖ {[sig]} |> in
  match os_signalfd (mask s) (kernel s) with
  | None => (s, false)
  | Some k =>
      let s := restore sig (sys k s) in
      let s := sys (os_siginterrupt sig true (kernel s)) s in
      (sys (os_unblock {[sig]} (kernel s)) s, true)
  end.

(** The loop of [deinit] over what is left in [prev_handlers]. *)
Fixpoint restore_rest (sigs : list Z) (s : signals) : signals :=
  match sigs with
  | [] => s
  | sig :: sigs =>
      restore_rest sigs (match prev_handlers s !! sig with Some _ => restore sig s | None => s end)
  end.
End Dispositions.

Arguments signals K : clear implicits.

(** ** The loop *)

(** A callback of the tree: the native one that raises KeyboardInterrupt, or a
    handle with the function it calls. *)
Inductive callback : Type :=
| DefaultSigint
| PyHandle (h : nat) (fn : nat).

(** How the read of the signalfd completes. *)
Inductive read_result : Type := ReadOk | ReadShort | ReadError | ReadCancelled.

#[export] Instance read_result_eq_dec : EqDecision read_result.
Proof. solve_decision. Defined.

(** The callback of a blocking task: the read of the signalfd, or another
    component's. *)
Inductive task_callback : Type :=
| SignalDone
| OtherTask (n : nat).

(** A callback in the ready queues, the cancellation of its data first. *)
Inductive ready_callback : Type :=
| SignalRead (r : read_result)
| Handler (cancelled : bool) (c : callback)
| OtherReady (n : nat).

(** What can be seen of the handlers; a function is [None] for the default one. *)
Inductive observation : Type :=
| Added (sig : Z) (fn : option nat)
| Removed (sig : Z) (found : bool)
| Delivered (sig : Z) (fn : option nat)
| Called (fn : option nat).

(** [CallbacksBTree] is [BTree(u8, Callback, 3)]. *)
Definition Degree : nat := 3.

Definition SIGINT : Z := 2.

Definition fn_of (c : callback) : option nat := match c with DefaultSigint => None | PyHandle _ fn => Some fn end.
Definition handle_of (c : callback) : option nat := match c with DefaultSigint => None | PyHandle h _ => Some h end.

Section UnixSignals.
Context {K P : Type} `{SignalOS K} `{TaskPool P task_callback}.

Record world : Type := World {
  sigs : signals K;
  callbacks : option (btree (V := callback));
  fd_open : bool;
  task : option task_id;
  info : Z;
  handles : gmap nat nat;
  reserved : nat;
  pool : option P;
  cancelling : gset task_id;
  ready : list ready_callback;
  initialized : bool;
  stopping : bool;
  allocs : nat;
  failures : nat;
  log : list observation }.

#[export] Instance eta_world : Eta world := fun w =>
  World (sigs w) (callbacks w) (fd_open w) (task w) (info w) (handles w) (reserved w) (pool w)
    (cancelling w) (ready w) (initialized w) (stopping w) (allocs w) (failures w) (log w).

Open Scope py_scope.

(** The allocations that succeed, those of the tree, the address of a new handle
    given those in use, and the signals [std.os.linux.SIG] has. *)
Variables (alloc_ok tree_alloc_ok : nat -> bool) (new_addr : list nat -> nat) (sig_enum : Z -> bool).

Definition observe (o : observation) (w : world) : world := w <| log := log w ++ [o] |>.

Definition failed (w : world) : world := w <| failures := S (failures w) |>.

Definition alloc (w : world) : bool * world :=
  let w' := w <| allocs := S (allocs w) |> in
  if alloc_ok (allocs w) then (true, w') else (false, failed w').

Definition incref (c : callback) (w : world) : option world :=
  match handle_of c with
  | None => Some w
  | Some h => n ← handles w !! h; Some (w <| handles := <[h := S n]> (handles w) |>)
  end.

Definition decref (c : callback) (w : world) : option world :=
  match handle_of c with
  | None => Some w
  | Some h =>
      n ← handles w !! h;
      match n with
      | 0 => None
      | 1 => Some (w <| handles := base.delete h (handles w) |>)
      | S n => Some (w <| handles := <[h := n]> (handles w) |>)
      end
  end.

(** [io.queue]. *)
Definition queue (c : task_callback) (w : world) : option (world * option task_id) :=
  match pool w with
  | None => Some (failed w, None)
  | Some p =>
      '(p, r) ← pool_queue c p;
      let w := w <| pool := Some p |> in
      Some (match r with Some _ => w | None => failed w end, r)
  end.

Definition flight (po : option P) (id : task_id) : option task_callback := p ← po; pool_lookup id p.

(** A cancellation reaches the operation in flight under that id, if there is
    one. *)
Definition cancel_io (id : task_id) (w : world) : option (world * bool) :=
  match pool w with
  | None => Some (failed w, false)
  | Some p =>
      '(p', b) ← pool_cancel id p;
      let w := w <| pool := Some p' |>
                 <| cancelling := match pool_lookup id p with Some _ => {[id]} ∪ cancelling w | None => cancelling w end |> in
      Some (if b : bool then w else failed w, b)
  end.

(** [Soon.dispatch_nonthreadsafe] and [Soon.dispatch]. *)
Definition dispatch (r : ready_callback) (w : world) : world * bool :=
  let '(ok, w) := alloc w in
  if ok : bool then (w <| ready := ready w ++ [r] |>, true) else (w, false).

(** [Soon.dispatch_guaranteed_nonthreadsafe]. *)
Definition dispatch_guaranteed (r : ready_callback) (w : world) : option (world * bool) :=
  match reserved w with
  | 0 => None
  | S n => Some (dispatch r (w <| reserved := n |>))
  end.

(** The read of the signalfd with [signal_handler] as its callback. *)
Definition queue_read (w : world) : option (world * bool) :=
  '(w, r) ← queue SignalDone w;
  match r with
  | Some id => Some (w <| task := Some id |>, true)
  | None => Some (w, false)
  end.

Definition enqueue_signal_fd (cancel_old : bool) (w : world) : option (world * bool) :=
  '(w, ok) ← match cancel_old, task w with
             | true, Some id => cancel_io id w
             | _, _ => Some (w, true)
             end;
  if ok : bool then queue_read w else Some (w, false).

Definition link (sig : Z) (c : callback) (w : world) : option (world * bool) :=
  let r := arm sig (sigs w) in
  let w := w <| sigs := r.1 |> in
  if r.2 then
    '(w, ok) ← enqueue_signal_fd true w;
    if ok : bool then
      t ← callbacks w;
      '(t, prev) ← BTree.replace Degree tree_alloc_ok sig c t;
      let w := w <| callbacks := Some t |> in
      match prev with
      | Some v =>
          let '(w, ok) := dispatch (Handler true v) w in
          if ok : bool then Some (observe (Added sig (fn_of c)) w, true)
          else
            t ← callbacks w;
            '(t, _) ← BTree.replace Degree tree_alloc_ok sig v t;
            Some (w <| callbacks := Some t |>, false)
      | None => Some (observe (Added sig (fn_of c)) (w <| reserved := S (reserved w) |>), true)
      end
    else Some (w, false)
  else Some (failed w, false).

Inductive unlinked : Type := Unlinked | KeyNotFound | UnlinkFailed.

Definition unlink (sig : Z) (w : world) : option (world * unlinked) :=
  t ← callbacks w;
  '(t, r) ← BTree.delete sig t;
  let w := w <| callbacks := Some t |> in
  match r with
  | None => Some (observe (Removed sig false) w, KeyNotFound)
  | Some v =>
      '(w, ok) ← dispatch_guaranteed (Handler true v) (observe (Removed sig true) w);
      if ok : bool then
        let r := disarm sig (sigs w) in
        let w := w <| sigs := r.1 |> in
        Some (if r.2 then (w, Unlinked) else (failed w, UnlinkFailed))
      else Some (w, UnlinkFailed)
  end.

(** ** The methods of the loop *)

Definition in_use (m : gmap nat nat) : list nat := (map_to_list m).*1.

(** [z_loop_add_signal_handler]; [false]: it raised.  [fn] is not callable when it is
    [None]. *)
Definition add_signal_handler (sig : Z) (fn : option nat) (w : world) : option (world * bool) :=
  if in_range sig then
    match fn with
    | None => Some (w, false)
    | Some fn =>
        let '(ok, w) := alloc w in
        if ok : bool then
          let h := new_addr (in_use (handles w)) in
          let c := PyHandle h fn in
          let w := w <| handles := <[h := 1]> (handles w) |> in
          '(w, ok) ← (if initialized w && sig_enum sig then link sig c w else Some (w, false));
          if ok : bool then Some (w, true) else w ← decref c w; Some (w, false)
        else Some (w, false)
    end
  else Some (w, false).

(** [loop_remove_signal_handler]; no answer: it raised. *)
Definition remove_signal_handler (sig : Z) (w : world) : option (world * option bool) :=
  if in_range sig && sig_enum sig then
    '(w, r) ← unlink sig w;
    Some (w, match r with Unlinked => Some true | KeyNotFound => Some false | UnlinkFailed => None end)
  else Some (w, None).

(** What code called by the loop may do. *)
Inductive call : Type :=
| AddSignal (sig : Z) (fn : option nat)
| RemoveSignal (sig : Z)
| OtherOperation (n : nat).

Definition user_call (c : call) (w : world) : option world :=
  match c with
  | AddSignal sig fn => fst <$> add_signal_handler sig fn w
  | RemoveSignal sig => fst <$> remove_signal_handler sig w
  | OtherOperation n => fst <$> queue (OtherTask n) w
  end.

Fixpoint user_calls (cs : list call) (w : world) : option world :=
  match cs with [] => Some w | c :: cs => w ← user_call c w; user_calls cs w end.

(** ** The callbacks *)

(** How a Python callback ends; an exception goes to the exception handler, which
    makes the calls it likes. *)
Inductive outcome : Type :=
| Returned
| Raised (handler : list call).

(** [signal_handler], not cancelled; [false]: it raised. *)
Definition signal_handler (r : read_result) (w : world) : option (world * bool) :=
  match r with
  | ReadCancelled => Some (w, true)
  | ReadError => Some (failed (w <| task := None |> <| stopping := true |>), false)
  | ReadShort => Some (failed (w <| task := None |>), true)
  | ReadOk =>
      let w := w <| task := None |> in
      let sig := info w in
      if in_range sig then
        t ← callbacks w;
        match get_value sig (root t) with
        | None => queue_read w
        | Some c =>
            w ← incref c w;
            let '(w, ok) := dispatch (Handler false c) w in
            if ok : bool then queue_read (observe (Delivered sig (fn_of c)) w)
            else w ← decref c w; Some (w, false)
        end
      else Some (w, true)
  end.

(** [callback_for_python_generic_callbacks] and the release of its handle;
    KeyboardInterrupt leaves the loop. *)
Definition run_handler (cancelled : bool) (c : callback) (user : list call) (o : outcome) (w : world) : option world :=
  if cancelled then decref c w
  else
    let w := observe (Called (fn_of c)) w in
    match c with
    | DefaultSigint => Some w
    | PyHandle _ _ =>
        w ← user_calls user w;
        w ← decref c w;
        match o with Returned => Some w | Raised handler => user_calls handler w end
    end.

Definition run_ready (r : ready_callback) (cancelled : bool) (user : list call) (o : outcome) (w : world) : option world :=
  match r with
  | SignalRead r =>
      if cancelled then Some w
      else
        '(w, ok) ← signal_handler r w;
        if ok : bool then Some w
        else match o with Returned => Some w | Raised handler => user_calls handler w end
  | Handler c cb => run_handler (c || cancelled) cb user o w
  | OtherReady _ => if cancelled then Some w else user_calls user w
  end.

(** ** Making and closing the loop *)

(** The loop of [deinit] that empties the tree; there are as many rounds as
    entries.  [m] are the signals that will be unblocked. *)
Fixpoint pop_callbacks (n : nat) (m : gset Z) (w : world) : option (world * gset Z) :=
  match n with
  | 0 => Some (w, m)
  | S n =>
      t ← callbacks w;
      '(t, r) ← BTree.pop t;
      let w := w <| callbacks := Some t |> in
      match r with
      | None => Some (w, m)
      | Some (sig, v) =>
          let m := if in_range sig && sig_enum sig then {[sig]} ∪ m else m in
          let w := if in_range sig then w <| sigs := restore sig (sigs w) |> else w in
          '(w, _) ← dispatch_guaranteed (Handler true v) w;
          pop_callbacks n m w
      end
  end.

Definition entries (w : world) : nat :=
  match callbacks w with Some t => S (length (flat (root t))) | None => 0 end.

Definition all_signals : list Z := map Z.of_nat (seq 1 64).

(** [deinit]; the flag is [false] when the tree was not empty. *)
Definition deinit (w : world) : option (world * bool) :=
  w ← match task w with
      | Some id => '(w, _) ← cancel_io id w; Some (w <| task := None |>)
      | None => Some w
      end;
  let w := w <| fd_open := false |> in
  '(w, m) ← pop_callbacks (entries w) ∅ w;
  let s := restore_rest all_signals (sigs w) in
  let w := w <| sigs := sys (os_unblock m (kernel s)) s |> in
  t ← callbacks w;
  Some (w <| callbacks := None |>, BTree.deinit t).

(** [release_dynamic_ring_buffer]. *)
Fixpoint release_all (rs : list ready_callback) (w : world) : option world :=
  match rs with
  | [] => Some w
  | r :: rs =>
      w ← run_ready r true [] Returned (w <| ready := rs |>);
      release_all rs w
  end.

Definition ready_of (r : read_result) (c : task_callback) : ready_callback :=
  match c with SignalDone => SignalRead r | OtherTask n => OtherReady n end.

(** What [release_claimed] of the loop does to the signals. *)
Definition release_claimed (w : world) : option world :=
  '(w, _) ← deinit (w <| initialized := false |>);
  w ← release_all (ready w) w;
  p ← pool w;
  let rs := map (ready_of ReadCancelled) (pool_deinit p) in
  release_all rs (w <| pool := None |> <| ready := rs |>).

(** [UnixSignals.init] in a process and a pool; [None]: it failed before there was a tree. *)
Definition init (k : K) (p : P) : option (world * bool) :=
  k ← os_signalfd ∅ k;
  t ← BTree.init tree_alloc_ok;
  let w := World (Signals k ∅ ∅ [k] ∅) (Some t) true None 0 ∅ 0 (Some p) ∅ [] true false 0 0 [] in
  '(w, ok) ← link SIGINT DefaultSigint w;
  if ok : bool then Some (w, true) else '(w, _) ← deinit w; Some (w, false).

(** ** The events *)

Inductive event : Type :=
| UserCall (c : call)
| Raise (sig : Z)
| Completion (id : task_id) (r : read_result)
| RunReady (i : nat) (user : list call) (o : outcome)
| Close.

(** What the kernel writes when an operation completes; [None]: it cannot complete
    so. *)
Definition complete_read (c : task_callback) (r : read_result) (id : task_id) (w : world) : option world :=
  match c, r with
  | SignalDone, ReadOk =>
      '(s, k) ← os_read (kernel (sigs w));
      Some (w <| sigs := sys k (sigs w) |> <| info := s |>)
  | SignalDone, ReadCancelled => if decide (id ∈ cancelling w) then Some w else None
  | _, _ => Some w
  end.

(** A completion of a task that is not in flight or that the kernel cannot make, the
    run of a callback that is not ready and the closing of a closed loop are no
    events. *)
Definition step (ev : event) (w : world) : option world :=
  match ev with
  | UserCall c => user_call c w
  | Raise sig => Some (w <| sigs := sys (os_raise sig (kernel (sigs w))) (sigs w) |>)
  | Completion id r =>
      match c ← flight (pool w) id; w ← complete_read c r id w; Some w with
      | None => Some w
      | Some w =>
          p ← pool w;
          '(c, p) ← pool_complete id p;
          Some (w <| pool := Some p |> <| cancelling := cancelling w ∖ {[id]} |>
                  <| ready := ready w ++ [ready_of r c] |>)
      end
  | RunReady i user o =>
      match ready w !! i with
      | None => Some w
      | Some r => run_ready r false user o (w <| ready := take i (ready w) ++ drop (S i) (ready w) |>)
      end
  | Close => if initialized w then release_claimed w else Some w
  end.

Fixpoint run (evs : list event) (w : world) : option world :=
  match evs with [] => Some w | ev :: evs => w ← step ev w; run evs w end.
End UnixSignals.

(** ** The actions of the process *)

Section DispositionsProofs.
Context {K : Type} `{SignalOSLaws K}.

(** The process before the loop: the dummy action is this loop's own. *)
Variable k0 : K.
Hypothesis own_dummy : forall x, os_handler k0 x <> Dummy /\ os_handler k0 x <> SIG_ERR.

(** A signal that can be caught has its first action, or the dummy one with the first
    one recorded and is blocked; a muted one has lost it. *)
Inductive action_ok (k : K) (prev : gmap Z handler) (mu : gset Z) (x : Z) : Prop :=
| ao_uncatchable : os_catchable x = false -> os_handler k x = os_handler k0 x -> action_ok k prev mu x
| ao_clear : os_catchable x = true -> x ∉ mu -> os_handler k x = os_handler k0 x -> prev !! x = None ->
    action_ok k prev mu x
| ao_armed : os_catchable x = true -> x ∉ mu -> os_handler k x = Dummy -> os_blocked k x = true ->
    default SIG_DFL (prev !! x) = os_handler k0 x -> action_ok k prev mu x
| ao_muted : os_catchable x = true -> x ∈ mu -> os_handler k0 x = SIG_DFL ->
    os_handler k x = Dummy \/ os_handler k x = SIG_DFL -> prev !! x = None \/ prev !! x = Some Dummy ->
    action_ok k prev mu x.

(** No signal is thrown away: one whose action is the dummy is blocked. *)
Definition safe (mu : gset Z) (k : K) : Prop :=
  forall x, x ∉ mu -> os_handler k x = Dummy -> os_blocked k x = true.

(** What a registered signal has. *)
Definition watched (k : K) (m : gset Z) (x : Z) : Prop :=
  in_range x = true /\ (os_catchable x = true ->
    x ∈ m /\ x ∈ os_fd_mask k /\ os_blocked k x = true /\ os_handler k x = Dummy).

Record signals_ok (reg : Z -> Prop) (s : signals K) : Prop := {
  so_action x : action_ok (kernel s) (prev_handlers s) (muted s) x;
  so_watched x : reg x -> watched (kernel s) (mask s) x;
  so_mask x : x ∈ mask s -> in_range x = true;
  so_fd x : x ∈ os_fd_mask (kernel s) -> in_range x = true;
  so_prev x : is_Some (prev_handlers s !! x) -> in_range x = true;
  so_history : Forall (safe (muted s)) (history s) }.

Lemma actions_safe k prev mu : (forall x, action_ok k prev mu x) -> safe mu k.
Proof.
  intros Ha x Hx E. destruct (Ha x) as [_ E'|_ _ E' _|_ _ _ Hb _|_ Hm _ _ _]; try done; destruct (own_dummy x); congruence.
Qed.

Lemma action_grows k prev mu mu' x :
  action_ok k prev mu x -> mu ⊆ mu' -> (x ∈ mu' -> x ∈ mu) -> action_ok k prev mu' x.
Proof. intros [] Hs Hx; [by apply ao_uncatchable | apply ao_clear; auto | apply ao_armed; auto | apply ao_muted; auto]. Qed.

(** What keeps the actions: more signals blocked, the same handlers. *)
Lemma action_more_blocked k k' prev mu x :
  action_ok k prev mu x -> os_handler k' x = os_handler k x -> (os_blocked k x = true -> os_blocked k' x = true) ->
  action_ok k' prev mu x.
Proof.
  intros Ha Eh Hb. destruct Ha; rewrite <- Eh in *;
    [by apply ao_uncatchable | by apply ao_clear | apply ao_armed; auto | by apply ao_muted].
Qed.

Lemma safe_mono mu mu' k : mu ⊆ mu' -> safe mu k -> safe mu' k.
Proof. intros Hs Hk x Hx. apply Hk. set_solver. Qed.

Lemma action_prev k prev prev' mu x : prev' !! x = prev !! x -> action_ok k prev mu x -> action_ok k prev' mu x.
Proof.
  intros E []; [by apply ao_uncatchable | apply ao_clear; congruence | apply ao_armed; congruence | apply ao_muted; congruence].
Qed.

Lemma watched_same k k' m m' x :
  watched k m x -> (os_catchable x = true -> x ∈ m -> x ∈ m') ->
  (x ∈ m -> x ∈ os_fd_mask k -> x ∈ os_fd_mask k') -> (os_blocked k x = true -> os_blocked k' x = true) ->
  os_handler k' x = os_handler k x -> watched k' m' x.
Proof. intros [H1 H2] Hm Hf Hb Eh. split; [exact H1|]. intros Hc. destruct (H2 Hc) as (G1 & G2 & G3 & G4). rewrite Eh. auto. Qed.

(** A system call that leaves the masks and the handlers. *)
Lemma signals_sys reg s k : signals_ok reg s -> same_masks (kernel s) k -> signals_ok reg (sys k s).
Proof.
  intros [H1 H2 H3 H4 H5 H6] (E1 & E2 & E3).
  assert (Ha : forall x, action_ok k (prev_handlers s) (muted s) x).
  { intros x. eapply action_more_blocked; [exact (H1 x) | exact (E2 x) | by rewrite E1]. }
  split; try done.
  - intros x Hx. eapply watched_same; [exact (H2 x Hx) | done | intros _; cbn; by rewrite E3 | by rewrite E1 | exact (E2 x)].
  - intros x. cbn. rewrite E3. apply H4.
  - cbn. apply Forall_app. split; [exact H6|]. constructor; [by eapply actions_safe | constructor].
Qed.

Lemma signals_block reg s m :
  signals_ok reg s -> signals_ok reg (sys (os_block m (kernel s)) s).
Proof.
  intros [H1 H2 H3 H4 H5 H6]. destruct (os_block_ok m (kernel s)) as (E1 & E2 & E3).
  assert (Hb : forall x, os_blocked (kernel s) x = true -> os_blocked (os_block m (kernel s)) x = true) by (intros x E; by rewrite E1, E).
  assert (Ha : forall x, action_ok (os_block m (kernel s)) (prev_handlers s) (muted s) x).
  { intros x. eapply action_more_blocked; [exact (H1 x) | exact (E2 x) | apply Hb]. }
  split; try done.
  - intros x Hx. eapply watched_same; [exact (H2 x Hx) | done | intros _; cbn; by rewrite E3 | apply Hb | exact (E2 x)].
  - intros x. cbn. rewrite E3. apply H4.
  - cbn. apply Forall_app. split; [exact H6|]. constructor; [by eapply actions_safe | constructor].
Qed.

Lemma signals_signalfd reg s k :
  signals_ok reg s -> os_signalfd (mask s) (kernel s) = Some k ->
  signals_ok reg (sys k s) /\ forall x, x ∈ os_fd_mask k <-> x ∈ mask s /\ os_catchable x = true.
Proof.
  intros [H1 H2 H3 H4 H5 H6] E. destruct (os_signalfd_ok _ _ _ E) as (E3 & E1 & E2). split; [|exact E3].
  assert (Ha : forall x, action_ok k (prev_handlers s) (muted s) x).
  { intros x. eapply action_more_blocked; [exact (H1 x) | exact (E2 x) | by rewrite E1]. }
  split; try done.
  - intros x Hx. destruct (H2 x Hx) as [G1 G2]. split; [exact G1|]. intros Hc. destruct (G2 Hc) as (F1 & F2 & F3 & F4).
    cbn. rewrite E3, E1, E2. auto.
  - intros x [Hx _]%E3. by apply H3.
  - cbn. apply Forall_app. split; [exact H6|]. constructor; [by eapply actions_safe | constructor].
Qed.

Lemma signals_mono (reg reg' : Z -> Prop) s : signals_ok reg s -> (forall x, reg' x -> reg x) -> signals_ok reg' s.
Proof. intros [H1 H2 H3 H4 H5 H6] Hr. split; auto. Qed.

Lemma signals_mask_add reg s sig :
  signals_ok reg s -> in_range sig = true -> signals_ok reg (s <| mask := {[sig]} ∪ mask s |>).
Proof.
  intros [H1 H2 H3 H4 H5 H6] Hr. split; try done.
  - intros x Hx. eapply watched_same; [exact (H2 x Hx) | | done | done | done]. cbn. set_solver.
  - cbn. intros x [->%elem_of_singleton|Hx]%elem_of_union; auto.
Qed.

Lemma signals_mask_del reg s sig :
  signals_ok reg s -> ~ reg sig -> signals_ok reg (s <| mask := mask s ∖ {[sig]} |>).
Proof.
  intros [H1 H2 H3 H4 H5 H6] Hr. split; try done.
  - intros x Hx. eapply watched_same; [exact (H2 x Hx) | | done | done | done].
    intros _ Hm. cbn. apply elem_of_difference. split; [exact Hm|]. intros ->%elem_of_singleton. done.
  - cbn. intros x [Hx _]%elem_of_difference. auto.
Qed.

(** [prev_handlers] and [muted] after [signal] told the previous action. *)
Definition record_prev (sig : Z) (prev : handler) (s : signals K) : signals K :=
  match prev_handlers s !! sig with
  | Some _ => s
  | None =>
      s <| prev_handlers := match to_optional prev with Some h => <[sig := h]> (prev_handlers s) | None => prev_handlers s end |>
        <| muted := if decide (prev = Dummy) then {[sig]} ∪ muted s else muted s |>
  end.

Lemma record_prev_fields sig prev s :
  kernel (record_prev sig prev s) = kernel s /\ mask (record_prev sig prev s) = mask s
  /\ history (record_prev sig prev s) = history s /\ muted s ⊆ muted (record_prev sig prev s)
  /\ (forall x, x ∈ muted (record_prev sig prev s) -> x <> sig -> x ∈ muted s)
  /\ (forall x, x <> sig -> prev_handlers (record_prev sig prev s) !! x = prev_handlers s !! x).
Proof.
  unfold record_prev. destruct (prev_handlers s !! sig) as [h|]; [by repeat split|]. cbn.
  split; [done|]. split; [done|]. split; [done|]. split; [destruct (decide (prev = Dummy)); set_solver|].
  split; [intros x; destruct (decide (prev = Dummy)); set_solver|].
  intros x Hx. destruct (to_optional prev); [by rewrite lookup_insert_ne | done].
Qed.

(** A signal whose first action is back, if it was not lost. *)
Definition cleared (s : signals K) (x : Z) : Prop :=
  x ∉ muted s -> os_catchable x = true -> os_handler (kernel s) x = os_handler k0 x /\ prev_handlers s !! x = None.

Lemma cleared_sys s k x : os_handler k x = os_handler (kernel s) x -> cleared s x -> cleared (sys k s) x.
Proof. intros E Hc Hm Hq. destruct (Hc Hm Hq) as [G1 G2]. split; [cbn; by rewrite E | exact G2]. Qed.

(** The dummy action installed for a signal that is blocked. *)
Lemma signals_dummy reg s sig :
  signals_ok reg s -> in_range sig = true -> (os_catchable sig = true -> os_blocked (kernel s) sig = true) ->
  let r := os_signal sig Dummy (kernel s) in
  let s' := record_prev sig r.1 (sys r.2 s) in
  signals_ok reg s' /\ (os_catchable sig = true -> os_blocked (kernel s') sig = true /\ os_handler (kernel s') sig = Dummy)
  /\ mask s' = mask s /\ (forall x, x <> sig -> cleared s x -> cleared s' x).
Proof.
  intros Hs Hr Hb r s'. destruct Hs as [H1 H2 H3 H4 H5 H6].
  destruct (record_prev_fields sig r.1 (sys r.2 s)) as (F1 & F2 & F3 & F4 & F5 & F6).
  fold s' in F1, F2, F3, F4, F5, F6. cbn in F1, F2, F3, F4, F5, F6.
  assert (Hk : (forall x, os_blocked r.2 x = os_blocked (kernel s) x) /\ os_fd_mask r.2 = os_fd_mask (kernel s)
    /\ (forall x, x <> sig -> os_handler r.2 x = os_handler (kernel s) x)
    /\ (os_catchable sig = true -> r.1 = os_handler (kernel s) sig /\ os_handler r.2 sig = Dummy)
    /\ (os_catchable sig = false -> r.2 = kernel s)).
  { destruct (os_catchable sig) eqn:Ec.
    - destruct (os_signal_ok sig Dummy (kernel s) Ec ltac:(done)) as (G1 & G2 & G3 & G4). fold r in G1, G2, G3, G4.
      split; [exact G3|]. split; [exact G4|]. split; [intros x Hx; rewrite G2; by rewrite decide_False|].
      split; [|done]. intros _. split; [exact G1|]. rewrite G2. by rewrite decide_True.
    - pose proof (os_signal_fails sig Dummy (kernel s) Ec) as E. fold r in E. rewrite E. done. }
  destruct Hk as (K1 & K2 & K3 & K4 & K5).
  assert (Ha : forall x, action_ok r.2 (prev_handlers s') (muted s') x).
  { intros x. destruct (decide (x = sig)) as [->|Hne].
    2:{ eapply action_prev; [by apply F6|]. eapply action_grows; [|exact F4 | intros Hx; by apply F5].
        eapply action_more_blocked; [exact (H1 x) | by apply K3 | by rewrite K1]. }
    destruct (os_catchable sig) eqn:Ec.
    2:{ apply ao_uncatchable; [exact Ec|]. rewrite (K5 eq_refl). destruct (H1 sig); try congruence. }
    destruct (K4 eq_refl) as [K6 K7]. specialize (Hb eq_refl). unfold s', record_prev. cbn [prev_handlers sys].
    change (prev_handlers (sys r.2 s)) with (prev_handlers s). change (muted (sys r.2 s)) with (muted s).
    destruct (own_dummy sig) as [O1 O2].
    destruct (H1 sig) as [? ?|_ Hm Hh Hp|_ Hm Hh _ Hp|_ Hm Hd Hh Hp]; [congruence| | |].
    - rewrite Hp. cbn. rewrite K6, Hh. rewrite decide_False by done. apply ao_armed; try done; [by rewrite K1|].
      destruct (os_handler k0 sig) eqn:E; cbn; rewrite ?lookup_insert_eq; try done. by rewrite Hp.
    - destruct (prev_handlers s !! sig) as [h|] eqn:Ep.
      + apply ao_armed; try done; [by rewrite K1|]. cbn. by rewrite Ep.
      + cbn. rewrite K6, Hh. cbn. rewrite decide_True by done. cbn in Hp.
        apply ao_muted; [done | set_solver | done | by left | right; apply lookup_insert_eq].
    - destruct Hp as [Hp|Hp]; rewrite Hp; cbn; [|apply ao_muted; auto; by right].
      destruct Hh as [Hh|Hh]; rewrite K6, Hh; cbn.
      + rewrite decide_True by done. apply ao_muted; [done | set_solver | done | by left | right; apply lookup_insert_eq].
      + rewrite decide_False by done. apply ao_muted; auto. }
  split; [|split; [|split; [exact F2|]]].
  - split.
    + rewrite F1. exact Ha.
    + intros x Hx. rewrite F1, F2. destruct (H2 x Hx) as [G1 G2]. split; [exact G1|]. intros Hc. rewrite K1, K2.
      destruct (G2 Hc) as (? & ? & ? & ?). split; [done|]. split; [done|]. split; [done|].
      destruct (decide (x = sig)) as [->|Hne]; [by apply K4 | by rewrite K3].
    + intros x. rewrite F2. apply H3.
    + intros x. rewrite F1, K2. apply H4.
    + intros x Hx. destruct (decide (x = sig)) as [->|Hne]; [exact Hr|]. rewrite F6 in Hx by done. auto.
    + rewrite F3. apply Forall_app. split; [|constructor; [by eapply actions_safe | constructor]].
      eapply Forall_impl; [exact H6 | intros k; by apply safe_mono].
  - intros Hc. rewrite F1, K1. destruct (K4 Hc). auto.
  - intros x Hx Hc Hm Hq. destruct (Hc ltac:(set_solver) Hq) as [G1 G2]. rewrite F1, F6, K3 by done. done.
Qed.

(** [arm] with its record of the previous action named. *)
Lemma arm_eq sig s : in_range sig = true ->
  arm sig s =
  let s1 := s <| mask := {[sig]} ∪ mask s |> in
  let s2 := sys (os_block (mask s1) (kernel s1)) s1 in
  let r := os_signal sig Dummy (kernel s2) in
  let s3 := record_prev sig r.1 (sys r.2 s2) in
  let s4 := sys (os_siginterrupt sig false (kernel s3)) s3 in
  match os_signalfd (mask s4) (kernel s4) with Some k => (sys k s4, true) | None => (s4, false) end.
Proof.
  intros Hr. unfold arm, record_prev. rewrite Hr. cbn zeta.
  change (prev_handlers (sys ?k ?x)) with (prev_handlers x).
  by destruct (prev_handlers (s <| mask := {[sig]} ∪ mask s |>) !! sig).
Qed.

Lemma arm_ok reg sig s :
  signals_ok reg s -> in_range sig = true ->
  signals_ok (fun x => reg x \/ (arm sig s).2 = true /\ x = sig) (arm sig s).1
  /\ forall x, x <> sig -> cleared s x -> cleared (arm sig s).1 x.
Proof.
  intros Hs Hr. rewrite (arm_eq _ _ Hr). cbn zeta.
  pose proof (signals_mask_add reg s sig Hs Hr) as Hs1. set (s1 := s <| mask := {[sig]} ∪ mask s |>) in *.
  pose proof (signals_block reg s1 (mask s1) Hs1) as Hs2. destruct (os_block_ok (mask s1) (kernel s1)) as (B1 & B2 & _).
  set (s2 := sys (os_block (mask s1) (kernel s1)) s1) in *.
  assert (Hb : os_catchable sig = true -> os_blocked (kernel s2) sig = true).
  { intros Hc. change (os_blocked (os_block (mask s1) (kernel s1)) sig = true). rewrite B1, Hc, bool_decide_eq_true_2 by (cbn; set_solver).
    by rewrite orb_true_r. }
  destruct (signals_dummy reg s2 sig Hs2 Hr Hb) as (Hs3 & D1 & D2 & D3). cbn zeta in Hs3, D1, D2, D3.
  set (s3 := record_prev _ _ _) in *. pose proof (os_siginterrupt_ok sig false (kernel s3)) as M.
  pose proof (signals_sys reg s3 _ Hs3 M) as Hs4. set (s4 := sys (os_siginterrupt _ _ _) s3) in *.
  assert (C4 : forall x, x <> sig -> cleared s x -> cleared s4 x).
  { intros x Hx Hc. apply cleared_sys; [destruct M as (_ & M & _); apply M|]. apply D3; [exact Hx|].
    apply cleared_sys; [apply B2 | exact Hc]. }
  destruct (os_signalfd (mask s4) (kernel s4)) as [k|] eqn:E; cbn [fst snd].
  - split; [|intros x Hx Hc; apply cleared_sys; [by apply (os_signalfd_ok _ _ _ E) | auto]].
    destruct (signals_signalfd reg s4 k Hs4 E) as [[H1 H2 H3 H4 H5 H6] Hf]. split; try done.
    intros x [Hx|[_ ->]]; [by apply H2|]. split; [exact Hr|]. intros Hc. destruct (D1 Hc) as [D5 D6].
    destruct (os_signalfd_ok _ _ _ E) as (_ & S1 & S2). destruct M as (M1 & M2 & _). cbn.
    assert (Hm : sig ∈ mask s3) by (rewrite D2; cbn; set_solver).
    split; [exact Hm|]. split; [by apply Hf|]. rewrite S1, S2. cbn. by rewrite M1, M2.
  - split; [|exact C4]. eapply signals_mono; [exact Hs4 | intros x [?|[? _]]; done].
Qed.

Lemma restore_ok reg sig s :
  signals_ok reg s -> ~ reg sig ->
  in_range sig = true /\ (os_catchable sig = true -> os_handler (kernel s) sig = Dummy) \/ is_Some (prev_handlers s !! sig) ->
  let s' := restore sig s in
  signals_ok reg s' /\ cleared s' sig /\ (forall x, cleared s x -> cleared s' x)
  /\ muted s' = muted s /\ mask s' = mask s
  /\ (forall x, x <> sig -> prev_handlers s' !! x = prev_handlers s !! x) /\ prev_handlers s' !! sig = None
  /\ (forall x, os_blocked (kernel s') x = os_blocked (kernel s) x).
Proof.
  intros [H1 H2 H3 H4 H5 H6] Hn Hw.
  assert (Hr : in_range sig = true) by (destruct Hw as [[? _]|?]; auto).
  unfold restore. rewrite Hr. set (old := default SIG_DFL (prev_handlers s !! sig)).
  set (s1 := s <| prev_handlers := base.delete sig (prev_handlers s) |>). cbn zeta.
  assert (Hk : let k := (os_signal sig old (kernel s)).2 in
    (forall x, os_blocked k x = os_blocked (kernel s) x) /\ os_fd_mask k = os_fd_mask (kernel s)
    /\ (forall x, x <> sig -> os_handler k x = os_handler (kernel s) x)
    /\ action_ok k (base.delete sig (prev_handlers s)) (muted s) sig
    /\ (sig ∉ muted s -> os_catchable sig = true -> os_handler k sig = os_handler k0 sig)).
  { cbn zeta. destruct (own_dummy sig) as [O1 O2]. destruct (os_catchable sig) eqn:Ec.
    2:{ rewrite (os_signal_fails sig old (kernel s) Ec). cbn. do 3 (split; [done|]). split; [|done].
        apply ao_uncatchable; [exact Ec|]. destruct (H1 sig); congruence. }
    assert (Ho : sig ∉ muted s /\ old = os_handler k0 sig \/ sig ∈ muted s /\ os_handler k0 sig = SIG_DFL /\ (old = Dummy \/ old = SIG_DFL)).
    { destruct (H1 sig) as [? ?|_ Hm Hh Hp|_ Hm Hh _ Hp|_ Hm Hd Hh Hp]; [congruence| |by left|].
      - exfalso. destruct Hw as [[_ Hw]|[h Hh']]; [|congruence]. specialize (Hw eq_refl). congruence.
      - right. split; [done|]. split; [done|]. unfold old. destruct Hp as [-> | ->]; [by right | by left]. }
    assert (He : old <> SIG_ERR) by (destruct Ho as [[_ ->]|(_ & _ & [-> | ->])]; done).
    destruct (os_signal_ok sig old (kernel s) Ec He) as (_ & G2 & G3 & G4).
    split; [exact G3|]. split; [exact G4|]. split; [intros x Hx; rewrite G2; by rewrite decide_False|].
    destruct Ho as [[Hm ->]|(Hm & Hd & Ho)].
    - split; [|intros _ _; rewrite G2; by rewrite decide_True].
      apply ao_clear; try done; [rewrite G2; by rewrite decide_True | apply lookup_delete_eq].
    - split; [|done]. apply ao_muted; [done | done | done | rewrite G2; by rewrite decide_True | left; apply lookup_delete_eq]. }
  cbn zeta in Hk. destruct Hk as (K1 & K2 & K3 & K4 & K5). set (k := (os_signal sig old (kernel s)).2) in *.
  assert (Ha : forall x, action_ok k (base.delete sig (prev_handlers s)) (muted s) x).
  { intros x. destruct (decide (x = sig)) as [->|Hne]; [exact K4|]. eapply action_prev; [by apply lookup_delete_ne|].
    eapply action_more_blocked; [exact (H1 x) | by apply K3 | by rewrite K1]. }
  split; [|split; [|split; [|split; [done|split; [done|split; [|split; [|exact K1]]]]]]].
  - split; try done.
    + intros x Hx. eapply watched_same; [exact (H2 x Hx) | done | | | ]; cbn.
      * intros _. fold old. fold k. by rewrite K2.
      * fold old. fold k. by rewrite K1.
      * apply K3. congruence.
    + intros x. change (kernel _) with k. rewrite K2. apply H4.
    + cbn. intros x Hx. apply H5. destruct (decide (x = sig)) as [->|Hne].
      * rewrite lookup_delete_eq in Hx. by destruct Hx.
      * by rewrite lookup_delete_ne in Hx.
    + cbn. apply Forall_app. split; [exact H6|]. constructor; [by eapply actions_safe | constructor].
  - intros Hm Hc. split; [by apply K5 | apply lookup_delete_eq].
  - intros x Hx Hm Hc. destruct (decide (x = sig)) as [->|Hne]; [split; [by apply K5 | apply lookup_delete_eq]|].
    destruct (Hx Hm Hc) as [G1 G2]. cbn. split; [by rewrite K3 | by rewrite lookup_delete_ne].
  - intros x Hx. cbn. by apply lookup_delete_ne.
  - cbn. apply lookup_delete_eq.
Qed.

Lemma unblock_ok reg m s :
  signals_ok reg s -> (forall x, x ∈ m -> cleared s x /\ ~ reg x) ->
  let s' := sys (os_unblock m (kernel s)) s in
  signals_ok reg s' /\ (forall x, cleared s x -> cleared s' x) /\ forall x, x ∈ m -> os_blocked (kernel s') x = false.
Proof.
  intros [H1 H2 H3 H4 H5 H6] Hm s'. destruct (os_unblock_ok m (kernel s)) as (E1 & E2 & E3).
  assert (Hb : forall x, x ∉ m -> os_blocked (os_unblock m (kernel s)) x = os_blocked (kernel s) x).
  { intros x Hx. rewrite E1, bool_decide_eq_false_2 by done. by rewrite andb_true_r. }
  assert (Ha : forall x, action_ok (os_unblock m (kernel s)) (prev_handlers s) (muted s) x).
  { intros x. destruct (decide (x ∈ m)) as [Hx|Hx].
    - destruct (Hm x Hx) as [Hc _]. destruct (H1 x) as [? ?|Hq Hn Hh Hp|Hq Hn Hh _ Hp|Hq Hn Hd Hh Hp].
      + by apply ao_uncatchable; [|rewrite E2].
      + by apply ao_clear; [| |rewrite E2|].
      + destruct (Hc Hn Hq) as [G1 G2]. by apply ao_clear; [| |rewrite E2|].
      + by apply ao_muted; [| | |rewrite E2|].
    - eapply action_more_blocked; [exact (H1 x) | exact (E2 x) | by rewrite Hb]. }
  split; [|split].
  - split; try done.
    + intros x Hx. eapply watched_same; [exact (H2 x Hx) | done | intros _; cbn; by rewrite E3 | | exact (E2 x)].
      cbn. rewrite Hb; [done|]. intros Hxm. by destruct (Hm x Hxm).
    + cbn. rewrite E3. exact H4.
    + cbn. apply Forall_app. split; [exact H6|]. constructor; [by eapply actions_safe | constructor].
  - intros x Hc Hmu Hq. destruct (Hc Hmu Hq) as [G1 G2]. split; [|exact G2]. cbn. by rewrite E2.
  - intros x Hx. cbn. rewrite E1, bool_decide_eq_true_2 by done. by rewrite andb_false_r.
Qed.

Lemma disarm_ok reg sig s :
  signals_ok reg s -> watched (kernel s) (mask s) sig -> ~ reg sig ->
  signals_ok reg (disarm sig s).1 /\ (forall x, cleared s x -> cleared (disarm sig s).1 x)
  /\ ((disarm sig s).2 = true -> cleared (disarm sig s).1 sig).
Proof.
  intros Hs Hw Hn. unfold disarm. cbn zeta. pose proof (signals_mask_del reg s sig Hs Hn) as Hs1.
  set (s1 := s <| mask := mask s ∖ {[sig]} |>) in *. destruct (os_signalfd (mask s1) (kernel s1)) as [k|] eqn:E; [|by split].
  destruct (signals_signalfd reg s1 k Hs1 E) as [Hs2 _].
  destruct (os_signalfd_ok _ _ _ E) as (_ & _ & S). destruct Hw as [W1 W2].
  assert (Hw : in_range sig = true /\ (os_catchable sig = true -> os_handler (kernel (sys k s1)) sig = Dummy)).
  { split; [exact W1|]. intros Hc. cbn. rewrite S. by apply W2. }
  destruct (restore_ok reg sig _ Hs2 Hn (or_introl Hw)) as (Hs3 & Hc & C3 & _). set (s3 := restore sig (sys k s1)) in *.
  pose proof (os_siginterrupt_ok sig true (kernel s3)) as M. pose proof (signals_sys reg s3 _ Hs3 M) as Hs4.
  set (s4 := sys (os_siginterrupt _ _ _) s3) in *. cbn [fst].
  assert (C4 : forall x, cleared s3 x -> cleared s4 x) by (intros x; apply cleared_sys, M).
  destruct (unblock_ok reg {[sig]} s4 Hs4) as (Hs5 & C5 & _).
  { intros x ->%elem_of_singleton. auto. }
  split; [exact Hs5|]. split; [|auto]. intros x Hx. apply C5, C4, C3. apply cleared_sys; [apply S | exact Hx].
Qed.

(** Nothing recorded is left after the loop over the signals. *)
Lemma restore_rest_ok l reg : forall s,
  signals_ok reg s -> (forall x, reg x -> False) ->
  let s' := restore_rest l s in
  signals_ok reg s' /\ (forall x, cleared s x -> cleared s' x) /\ muted s' = muted s
  /\ (forall x, is_Some (prev_handlers s' !! x) -> is_Some (prev_handlers s !! x) /\ x ∉ l).
Proof.
  induction l as [|sig l IH]; intros s Hs Hn; cbn [restore_rest]; [split; [done|]; split; [done|]; split; [done|]; by intros x Hx; split; [|by intros ?%elem_of_nil]|].
  destruct (prev_handlers s !! sig) as [h|] eqn:E.
  - destruct (restore_ok reg sig s Hs ltac:(eauto) ltac:(right; eauto)) as (Hs1 & _ & C1 & M1 & _ & P1 & P2 & _).
    destruct (IH _ Hs1 Hn) as (Hs2 & C2 & M2 & P3). split; [exact Hs2|]. split; [eauto|]. split; [by rewrite M2|].
    intros x Hx. destruct (P3 x Hx) as [Q1 Q2]. destruct (decide (x = sig)) as [->|Hne]; [rewrite P2 in Q1; by destruct Q1|].
    rewrite P1 in Q1 by done. split; [exact Q1|]. rewrite not_elem_of_cons. done.
  - destruct (IH s Hs Hn) as (Hs2 & C2 & M2 & P3). split; [exact Hs2|]. split; [eauto|]. split; [exact M2|].
    intros x Hx. destruct (P3 x Hx) as [Q1 Q2]. split; [exact Q1|]. rewrite not_elem_of_cons. split; [|done].
    intros ->. rewrite E in Q1. by destruct Q1.
Qed.
End DispositionsProofs.

(** ** What a log tells of *)

(** The function of each signal, and the deliveries whose callback has not run. *)
Record spec : Type := Spec { s_reg : gmap Z (option nat); s_due : list (option nat) }.

Fixpoint remove_one (x : option nat) (l : list (option nat)) : option (list (option nat)) :=
  match l with
  | [] => None
  | y :: l => if decide (x = y) then Some l else cons y <$> remove_one x l
  end.

Lemma remove_one_ok x l : x ∈ l -> exists l', remove_one x l = Some l' /\ l ≡ₚ x :: l'.
Proof.
  induction l as [|y l IH]; [by intros ?%elem_of_nil|]. cbn [remove_one].
  destruct (decide (x = y)) as [->|Hne]; [intros _; by exists l|].
  intros [?|Hin]%elem_of_cons; [done|]. destruct (IH Hin) as (l' & -> & Hp). exists (y :: l'). split; [done|].
  rewrite Hp. apply perm_swap.
Qed.

(** What one observation does to them; [None] if it is not a possible one. *)
Definition replay1 (o : observation) (s : spec) : option spec :=
  match o with
  | Added sig fn => Some (Spec (<[sig := fn]> (s_reg s)) (s_due s))
  | Removed sig found =>
      if Bool.eqb found (bool_decide (is_Some (s_reg s !! sig)))
      then Some (Spec (base.delete sig (s_reg s)) (s_due s)) else None
  | Delivered sig fn =>
      if decide (s_reg s !! sig = Some fn) then Some (Spec (s_reg s) (s_due s ++ [fn])) else None
  | Called fn => due ← remove_one fn (s_due s); Some (Spec (s_reg s) due)
  end.

Fixpoint replay (os : list observation) (s : spec) : option spec :=
  match os with [] => Some s | o :: os => s ← replay1 o s; replay os s end.

Lemma sig_replay_app os o : forall s s1, replay os s = Some s1 -> replay (os ++ [o]) s = replay1 o s1.
Proof.
  induction os as [|o' os IH]; intros s s1 E; cbn [replay app] in *.
  - injection E as ->. by destruct (replay1 o s1).
  - destruct (replay1 o' s) as [s'|]; [|discriminate]. cbn [mbind option_bind] in *. eauto.
Qed.

(** ** Reference counts *)

(** Each handle is counted as often as it is held. *)
Definition counts (hs : gmap nat nat) (l : list nat) : Prop :=
  forall h, hs !! h = match count_occ Nat.eq_dec l h with 0 => None | n => Some n end.

Lemma counts_perm hs l k : counts hs l -> l ≡ₚ k -> counts hs k.
Proof. intros Hc Hp h. rewrite Hc. by rewrite (proj1 (Permutation_count_occ Nat.eq_dec l k) Hp h). Qed.

Lemma counts_add hs l h :
  counts hs l -> counts (<[h := S (default 0 (hs !! h))]> hs) (h :: l).
Proof.
  intros Hc h'. cbn [count_occ]. destruct (Nat.eq_dec h h') as [->|Hne].
  - rewrite lookup_insert_eq, Hc. by destruct (count_occ Nat.eq_dec l h').
  - rewrite lookup_insert_ne by done. apply Hc.
Qed.

Lemma counts_sub hs l h :
  counts hs (h :: l) -> exists n, hs !! h = Some (S n)
    /\ counts (match n with 0 => base.delete h hs | _ => <[h := n]> hs end) l.
Proof.
  intros Hc. pose proof (Hc h) as E. cbn [count_occ] in E. destruct (Nat.eq_dec h h) as [_|]; [|done].
  exists (count_occ Nat.eq_dec l h). split; [exact E|]. intros h'. specialize (Hc h'). cbn [count_occ] in Hc.
  destruct (Nat.eq_dec h h') as [->|Hne].
  - destruct (count_occ Nat.eq_dec l h') eqn:En; [apply lookup_delete_eq | apply lookup_insert_eq].
  - destruct (count_occ Nat.eq_dec l h); [rewrite lookup_delete_ne by done | rewrite lookup_insert_ne by done]; exact Hc.
Qed.

Lemma counts_in hs l h : counts hs l -> h ∈ l -> is_Some (hs !! h).
Proof.
  intros Hc Hin. rewrite Hc. apply list_elem_of_In in Hin.
  apply (count_occ_In Nat.eq_dec) in Hin. destruct (count_occ Nat.eq_dec l h); [lia | eauto].
Qed.

Lemma counts_nil hs : counts hs [] -> hs = ∅.
Proof. intros Hc. apply map_eq. intros h. rewrite lookup_empty. exact (Hc h). Qed.

(** The handles of the callbacks of a map. *)
Definition held (c : callback) : list nat := option_list (handle_of c).

Definition map_handles (m : gmap Z callback) : list nat := omap handle_of (map_to_list m).*2.

Lemma omap_cons_list {A B} (f : A -> option B) x l : omap f (x :: l) = option_list (f x) ++ omap f l.
Proof. cbn. by destruct (f x). Qed.

Lemma map_handles_insert m sig c : m !! sig = None -> map_handles (<[sig := c]> m) ≡ₚ held c ++ map_handles m.
Proof.
  intros Hm. unfold map_handles. rewrite (map_to_list_insert m sig c Hm). by rewrite fmap_cons, omap_cons_list.
Qed.

Lemma map_handles_delete m sig c : m !! sig = Some c -> map_handles m ≡ₚ held c ++ map_handles (base.delete sig m).
Proof.
  intros Hm. rewrite <- (map_handles_insert _ sig c) by apply lookup_delete_eq. by rewrite insert_delete_id.
Qed.

Lemma map_handles_replace m sig c v :
  m !! sig = Some v -> held v ++ map_handles (<[sig := c]> m) ≡ₚ held c ++ map_handles m.
Proof.
  intros Hm. rewrite (map_handles_delete m sig v Hm), <- insert_delete_eq.
  rewrite map_handles_insert by apply lookup_delete_eq. rewrite !app_assoc. by rewrite (Permutation_app_comm (held v)).
Qed.

Section UnixSignalsProofs.
Context {K P : Type} {SO : SignalOS K} {SOL : @SignalOSLaws K SO} {TP : TaskPool P task_callback} {TPL : @TaskPoolLaws P task_callback TP}.
Variables (alloc_ok tree_alloc_ok : nat -> bool) (new_addr : list nat -> nat) (sig_enum : Z -> bool).
Hypothesis tree_allocations_succeed : forall n, tree_alloc_ok n = true.
Hypothesis new_addr_fresh : forall l, new_addr l ∉ l.
Hypothesis sigint_named : sig_enum SIGINT = true.
Variable k0 : K.
Hypothesis own_dummy : forall x, os_handler k0 x <> Dummy /\ os_handler k0 x <> SIG_ERR.

Open Scope py_scope.

Local Notation world := (world (K := K) (P := P)).

(** ** The invariant *)

Definition cb_map (w : world) : gmap Z callback :=
  match callbacks w with Some t => to_map (flat (root t)) | None => ∅ end.

Definition registered (w : world) (x : Z) : Prop := is_Some (cb_map w !! x).

Definition ready_handle (r : ready_callback) : list nat := match r with Handler _ c => held c | _ => [] end.

Definition is_read (r : ready_callback) : bool :=
  match r with SignalRead ReadCancelled => false | SignalRead _ => true | _ => false end.

Definition due_of (r : ready_callback) : list (option nat) := match r with Handler false c => [fn_of c] | _ => [] end.

Definition holders (w : world) : list nat := map_handles (cb_map w) ++ concat (map ready_handle (ready w)).

(** A read that will see the next signal, or one that has seen it. *)
Definition armed (w : world) : Prop :=
  (exists id, task w = Some id /\ flight (pool w) id = Some SignalDone /\ id ∉ cancelling w)
  \/ (exists r, SignalRead r ∈ ready w /\ r <> ReadCancelled).

(** [rd]: the read is being queued again; [tr]: the signal whose action is being
    changed; [ex]: the references of the code that runs; [due]: its callback. *)
Record inv (rd : bool) (tr : option Z) (ex : list nat) (due : list (option nat)) (w : world) : Prop := {
  iv_pool p : pool w = Some p -> pool_ok p;
  iv_tree t : callbacks w = Some t -> repr Degree t (cb_map w);
  iv_open : initialized w = true -> is_Some (callbacks w) /\ is_Some (pool w);
  iv_sigs : signals_ok k0 (registered w) (sigs w);
  iv_enum x : registered w x -> sig_enum x = true;
  iv_clear : failures w = 0 -> forall x, tr = Some x \/ registered w x \/ cleared k0 (sigs w) x;
  iv_reserved : reserved w = size (cb_map w);
  iv_handles : exists leaked, counts (handles w) (holders w ++ ex ++ leaked) /\ (failures w = 0 -> leaked = []);
  iv_read : failures w = 0 -> initialized w = true -> rd = true \/ armed w;
  iv_cancel id : initialized w = true -> id ∈ cancelling w -> is_Some (flight (pool w) id);
  iv_info : SignalRead ReadOk ∈ ready w -> in_range (info w) = true;
  iv_log : exists s, replay (log w) (Spec ∅ []) = Some s
    /\ (initialized w = true -> forall x, s_reg s !! x = fn_of <$> cb_map w !! x)
    /\ due ++ concat (map due_of (ready w)) ⊆+ s_due s }.

(** What an operation that only counts leaves. *)
Lemma sig_inv_same rd rd' tr tr' ex due w w' :
  inv rd tr ex due w ->
  sigs w' = sigs w -> callbacks w' = callbacks w -> handles w' = handles w -> reserved w' = reserved w ->
  pool w' = pool w -> cancelling w' = cancelling w -> ready w' = ready w -> initialized w' = initialized w ->
  info w' = info w -> log w' = log w -> (failures w' = 0 -> failures w = 0) ->
  (failures w' = 0 -> task w' = task w \/ rd' = true) -> (failures w' = 0 -> rd = true -> rd' = true) ->
  (failures w' = 0 -> tr = tr') -> inv rd' tr' ex due w'.
Proof.
  intros [H1 H2 H3 H4 H5 H6 H7 H8 H9 H10 H11 H12] E1 E2 E3 E4 E5 E6 E7 E8 E9 E10 Hf Ht Hr Htr.
  assert (Em : cb_map w' = cb_map w) by (unfold cb_map; by rewrite E2).
  assert (Eg : forall x, registered w' x <-> registered w x) by (intros x; unfold registered; by rewrite Em).
  assert (Eh : holders w' = holders w) by (unfold holders; by rewrite Em, E7).
  split; rewrite ?E1, ?E3, ?E4, ?E5, ?E6, ?E7, ?E8, ?E9, ?E10, ?Em, ?Eh; try done.
  - intros t. rewrite E2. apply H2.
  - rewrite E2. exact H3.
  - eapply signals_mono; [exact H4 | intros x; apply Eg].
  - intros x Hx. by apply H5, Eg.
  - intros F x. rewrite <- (Htr F), Eg. auto.
  - destruct H8 as (l & Hl & G). exists l. auto.
  - intros F Hi. destruct (H9 (Hf F) Hi) as [-> |Ha]; [left; auto|]. destruct (Ht F) as [Et | ->]; [right | by left].
    unfold armed in *. by rewrite Et, E5, E6, E7.
Qed.

Ltac same := first [done | by intros; left | by intros; right].

Lemma alloc_spec (w : world) : alloc alloc_ok w
  = (alloc_ok (allocs w), w <| allocs := S (allocs w) |> <| failures := (if alloc_ok (allocs w) then failures w else S (failures w)) |>).
Proof. unfold alloc. by destruct (alloc_ok (allocs w)). Qed.

Lemma inv_alloc rd tr ex due w n f :
  inv rd tr ex due w -> (f = 0 -> failures w = 0) -> inv rd tr ex due (w <| allocs := n |> <| failures := f |>).
Proof. intros Hi Hf. by apply (sig_inv_same rd rd tr tr ex due w); [|..]; same. Qed.

(** Leaving a state in which something failed. *)
Lemma inv_failed rd rd' tr tr' ex due w : inv rd tr ex due w -> failures w <> 0 -> inv rd' tr' ex due w.
Proof. intros Hi Hf. by apply (sig_inv_same rd rd' tr tr' ex due w); [|..]; same. Qed.

Lemma inv_reading rd tr ex due w : inv rd tr ex due w -> inv true tr ex due w.
Proof. intros Hi. by apply (sig_inv_same rd true tr tr ex due w); [|..]; same. Qed.

(** A reference that nothing will give back. *)
Lemma inv_leak rd tr ex ex' due w : inv rd tr (ex' ++ ex) due w -> failures w <> 0 -> inv rd tr ex due w.
Proof.
  intros [H1 H2 H3 H4 H5 H6 H7 (l & Hl & _) H9 H10 H11 H12] Hf. split; try done.
  exists (ex' ++ l). split; [|done]. eapply counts_perm; [exact Hl|]. by rewrite <- app_assoc, (Permutation_app_swap_app ex' ex l).
Qed.

(** *** References *)

Lemma incref_ok rd tr ex due w sig c :
  inv rd tr ex due w -> cb_map w !! sig = Some c ->
  exists hs, incref c w = Some (w <| handles := hs |>) /\ inv rd tr (held c ++ ex) due (w <| handles := hs |>).
Proof.
  intros [H1 H2 H3 H4 H5 H6 H7 (l & Hl & Hz) H9 H10 H11 H12] Hm. unfold incref, held. destruct (handle_of c) as [h|] eqn:Ec.
  - assert (Hh : is_Some (handles w !! h)).
    { apply (counts_in _ _ _ Hl). unfold holders. apply elem_of_app. left. apply elem_of_app. left.
      rewrite (map_handles_delete _ _ _ Hm). unfold held. rewrite Ec. left. }
    destruct Hh as [n Hn]. rewrite Hn. cbn [mbind option_bind]. eexists. split; [reflexivity|].
    split; try done. exists l. split; [|exact Hz].
    apply (counts_perm _ (h :: holders w ++ ex ++ l)); [|cbn; apply Permutation_middle].
    pose proof (counts_add _ _ h Hl) as Ha. rewrite Hn in Ha. exact Ha.
  - exists (handles w). split; [by destruct w|]. split; try done. by exists l.
Qed.

Lemma decref_ok rd tr ex due w c :
  inv rd tr (held c ++ ex) due w ->
  exists hs, decref c w = Some (w <| handles := hs |>) /\ inv rd tr ex due (w <| handles := hs |>).
Proof.
  intros [H1 H2 H3 H4 H5 H6 H7 (l & Hl & Hz) H9 H10 H11 H12]. unfold decref, held in *. destruct (handle_of c) as [h|].
  - assert (Hl' : counts (handles w) (h :: holders w ++ ex ++ l)) by (apply (counts_perm _ _ _ Hl); symmetry; apply Permutation_middle).
    destruct (counts_sub _ _ _ Hl') as (n & En & Hc). rewrite En. cbn [mbind option_bind].
    destruct n as [|n]; (eexists; split; [reflexivity|]; split; try done; by exists l).
  - exists (handles w). split; [by destruct w|]. split; try done. by exists l.
Qed.

(** *** The ready queue *)

Lemma concat_snoc {A B} (f : A -> list B) l x : concat (map f (l ++ [x])) = concat (map f l) ++ f x.
Proof. rewrite map_app, concat_app. cbn. by rewrite app_nil_r. Qed.

Lemma inv_push rd tr ex due w r :
  inv rd tr (ready_handle r ++ ex) (due_of r ++ due) w -> r <> SignalRead ReadOk ->
  inv rd tr ex due (w <| ready := ready w ++ [r] |>).
Proof.
  intros [H1 H2 H3 H4 H5 H6 H7 (l & Hl & Hz) H9 H10 H11 (s & L1 & L2 & L3)] Hr. split; try done.
  - exists l. split; [|exact Hz]. eapply counts_perm; [exact Hl|]. unfold holders. cbn. rewrite concat_snoc, <- !app_assoc. done.
  - intros F Hi. destruct (H9 F Hi) as [?|[?|(q & Hin & Hq)]]; [by left | by right; left | right; right].
    exists q. cbn. split; [set_solver | done].
  - cbn. intros [Hin|Hin]%elem_of_app; [auto|]. by apply list_elem_of_singleton in Hin.
  - exists s. split; [exact L1|]. split; [exact L2|]. cbn. rewrite concat_snoc.
    etrans; [|exact L3]. apply Permutation_submseteq. by rewrite <- app_assoc, (Permutation_app_comm _ (due_of r)), Permutation_app_swap_app.
Qed.

(** Taking a callback out of the ready queue to run it. *)
Lemma sig_inv_taken a r b w :
  inv false None [] [] w -> ready w = a ++ r :: b ->
  inv (is_read r) None (ready_handle r) (due_of r) (w <| ready := a ++ b |>).
Proof.
  intros [H1 H2 H3 H4 H5 H6 H7 (l & Hl & Hz) H9 H10 H11 (s & L1 & L2 & L3)] Er. rewrite Er in *. split; try done.
  - exists l. split; [|exact Hz]. eapply counts_perm; [exact Hl|]. unfold holders. rewrite Er. cbn.
    rewrite !map_app, !concat_app, <- !app_assoc. cbn [concat map]. rewrite <- !app_assoc.
    apply Permutation_app_head, Permutation_app_head, Permutation_app_swap_app.
  - intros F Hi. destruct (H9 F Hi) as [?|[?|(q & Hin & Hq)]]; [done | by right; left|]. rewrite Er in Hin.
    apply elem_of_app in Hin as [?|[<-|?]%elem_of_cons]; [| left; by destruct q |]; right; right; exists q; cbn; (split; [set_solver | done]).
  - cbn. intros Hin. apply H11. set_solver.
  - exists s. split; [exact L1|]. split; [exact L2|]. cbn. etrans; [|exact L3]. apply Permutation_submseteq. cbn [app].
    rewrite !map_app, !concat_app. cbn [concat map]. by rewrite Permutation_app_swap_app.
Qed.

Lemma dispatch_ok rd tr ex due w r :
  inv rd tr (ready_handle r ++ ex) (due_of r ++ due) w -> r <> SignalRead ReadOk ->
  exists n f rs b, dispatch alloc_ok r w = (w <| allocs := n |> <| failures := f |> <| ready := rs |>, b)
    /\ (f = 0 -> failures w = 0)
    /\ if b : bool then rs = ready w ++ [r] /\ inv rd tr ex due (w <| allocs := n |> <| failures := f |> <| ready := rs |>)
       else rs = ready w /\ f <> 0 /\ inv rd tr (ready_handle r ++ ex) (due_of r ++ due) (w <| allocs := n |> <| failures := f |> <| ready := rs |>).
Proof.
  intros Hi Hr. unfold dispatch. rewrite alloc_spec. destruct (alloc_ok (allocs w)).
  - exists (S (allocs w)), (failures w), (ready w ++ [r]), true. split; [reflexivity|]. split; [done|]. split; [done|].
    exact (inv_push rd tr ex due _ r (inv_alloc rd tr _ _ w (S (allocs w)) (failures w) Hi ltac:(done)) Hr).
  - exists (S (allocs w)), (S (failures w)), (ready w), false. split; [reflexivity|]. split; [done|]. split; [done|]. split; [done|].
    exact (inv_alloc rd tr _ _ w (S (allocs w)) (S (failures w)) Hi ltac:(done)).
Qed.

(** *** Blocking tasks *)

Lemma inv_pool_set rd tr ex due w po f ca id c :
  inv rd tr ex due w -> initialized w = true -> (forall p, po = Some p -> pool_ok p) -> is_Some po ->
  flight (pool w) id = None -> (f = 0 -> failures w = 0) -> ca = cancelling w ->
  (forall j, flight po j = if decide (j = id) then Some c else flight (pool w) j) ->
  inv rd tr ex due (w <| pool := po |> <| failures := f |> <| cancelling := ca |>).
Proof.
  intros [H1 H2 H3 H4 H5 H6 H7 (l & Hl & Hz) H9 H10 H11 H12] Ho P1 P2 P3 Hf -> P4. split; try done.
  - intros _. by split; [apply H3|].
  - intros F. apply H6, Hf, F.
  - exists l. split; [exact Hl|]. intros F. apply Hz, Hf, F.
  - intros F _. destruct (H9 (Hf F) Ho) as [?|[(j & G1 & G2 & G3)|?]]; [by left | right; left | by right; right].
    exists j. split; [exact G1|]. split; [|exact G3]. change (flight po j = Some SignalDone). rewrite P4, decide_False; [exact G2 | congruence].
  - intros j _ Hj. change (is_Some (flight po j)). rewrite P4. destruct (decide (j = id)); [eauto|]. by apply H10.
Qed.

Lemma inv_pool_same rd tr ex due w po f :
  inv rd tr ex due w -> (forall p, po = Some p -> pool_ok p) -> is_Some po ->
  (f = 0 -> failures w = 0) -> (forall j, flight po j = flight (pool w) j) ->
  inv rd tr ex due (w <| pool := po |> <| failures := f |>).
Proof.
  intros [H1 H2 H3 H4 H5 H6 H7 (l & Hl & Hz) H9 H10 H11 H12] P1 P2 Hf P4. split; try done.
  - intros Ho. by split; [apply H3|].
  - intros F. apply H6, Hf, F.
  - exists l. split; [exact Hl|]. intros F. apply Hz, Hf, F.
  - intros F Ho. destruct (H9 (Hf F) Ho) as [?|[(j & G1 & G2 & G3)|?]]; [by left | right; left | by right; right].
    exists j. split; [exact G1|]. split; [|exact G3]. change (flight po j = Some SignalDone). by rewrite P4.
  - intros j Ho Hj. change (is_Some (flight po j)). rewrite P4. by apply H10.
Qed.

Lemma sig_queue_ok rd tr ex due c w :
  inv rd tr ex due w -> initialized w = true ->
  exists po f r, queue c w = Some (w <| pool := po |> <| failures := f |>, r)
    /\ inv rd tr ex due (w <| pool := po |> <| failures := f |>)
    /\ (f = 0 -> failures w = 0)
    /\ match r with Some id => flight po id = Some c /\ id ∉ cancelling w | None => f <> 0 end.
Proof.
  intros Hi Ho. destruct (iv_open _ _ _ _ _ Hi Ho) as [_ [p Ep]]. unfold queue. rewrite Ep.
  destruct (pool_queue_ok c p (iv_pool _ _ _ _ _ Hi p Ep)) as (p' & r & -> & G1 & G2). cbn [mbind option_bind].
  destruct r as [id|].
  - destruct G2 as [G2 G3]. exists (Some p'), (failures w), (Some id). split; [reflexivity|].
    assert (Hfl : flight (pool w) id = None) by (by rewrite Ep).
    split; [|split; [done|split; [cbn; rewrite G3; by rewrite decide_True|]]].
    + refine (inv_pool_set _ _ _ _ w (Some p') (failures w) (cancelling w) id c Hi Ho _ ltac:(eauto) Hfl ltac:(done) eq_refl _);
        [by intros q [= <-] | rewrite Ep; exact G3].
    + intros Hin. destruct (iv_cancel _ _ _ _ _ Hi id Ho Hin) as [? ?]. congruence.
  - exists (Some p'), (S (failures w)), None. split; [reflexivity|]. split; [|done].
    refine (inv_pool_same _ _ _ _ w (Some p') (S (failures w)) Hi _ ltac:(eauto) ltac:(done) _);
      [by intros q [= <-] | rewrite Ep; exact G2].
Qed.

(** The cancelled operation may be the read that would see the next signal. *)
Lemma sig_cancel_io_ok rd tr ex due id w :
  inv rd tr ex due w -> is_Some (pool w) ->
  exists po f ca b, cancel_io id w = Some (w <| pool := po |> <| cancelling := ca |> <| failures := f |>, b)
    /\ is_Some po
    /\ inv true tr ex due (w <| pool := po |> <| cancelling := ca |> <| failures := f |>)
    /\ (f = 0 -> failures w = 0) /\ (b = false -> f <> 0).
Proof.
  intros Hi [p Ep]. unfold cancel_io. rewrite Ep.
  destruct (pool_cancel_ok id p (iv_pool _ _ _ _ _ Hi p Ep)) as (p' & b & -> & G1 & G2). cbn [mbind option_bind].
  set (ca := match pool_lookup id p with Some _ => {[id]} ∪ cancelling w | None => cancelling w end).
  exists (Some p'), (if b then failures w else S (failures w)), ca, b.
  split; [by destruct b|]. split; [by eexists|]. split; [|split; destruct b; done].
  destruct (inv_pool_same _ _ _ _ w (Some p') (if b then failures w else S (failures w)) Hi) as [K1 K2 K3 K4 K5 K6 K7 K8 K9 K10 K11 K12];
    [by intros q [= <-] | eauto | by destruct b | rewrite Ep; exact G2 |].
  split; try done; [intros _ _; by left|].
  intros j Ho Hj. cbn in Hj |- *. specialize (K10 j Ho). cbn in K10. unfold ca in Hj. rewrite G2 in K10 |- *.
  destruct (pool_lookup id p) as [c|] eqn:El; [|by apply K10].
  apply elem_of_union in Hj as [->%elem_of_singleton|Hj]; [rewrite El; eauto | by apply K10].
Qed.

Lemma queue_read_ok rd tr ex due w :
  inv rd tr ex due w -> initialized w = true ->
  exists po f tk b, queue_read w = Some (w <| pool := po |> <| failures := f |> <| task := tk |>, b)
    /\ inv false tr ex due (w <| pool := po |> <| failures := f |> <| task := tk |>)
    /\ (f = 0 -> failures w = 0 /\ b = true).
Proof.
  intros Hi Ho. unfold queue_read. destruct (sig_queue_ok _ _ _ _ SignalDone w Hi Ho) as (po & f & r & -> & Hi' & Hf & Hr).
  cbn [mbind option_bind]. destruct r as [id|].
  - exists po, f, (Some id), true. split; [reflexivity|]. split; [|auto].
    destruct Hi' as [K1 K2 K3 K4 K5 K6 K7 K8 K9 K10 K11 K12]. split; try done.
    intros _ _. right. left. exists id. split; [done|]. exact Hr.
  - exists po, f, (task w), false. split; [reflexivity|]. split; [|done].
    apply (sig_inv_same rd false tr tr ex due (w <| pool := po |> <| failures := f |>)); same.
Qed.

Lemma enqueue_ok rd tr ex due w :
  inv rd tr ex due w -> initialized w = true ->
  exists po ca f tk b, enqueue_signal_fd true w
      = Some (w <| pool := po |> <| cancelling := ca |> <| failures := f |> <| task := tk |>, b)
    /\ inv false tr ex due (w <| pool := po |> <| cancelling := ca |> <| failures := f |> <| task := tk |>)
    /\ (f = 0 -> failures w = 0 /\ b = true).
Proof.
  intros Hi Ho. unfold enqueue_signal_fd. destruct (task w) as [id|] eqn:Et.
  - destruct (sig_cancel_io_ok _ _ _ _ id w Hi (proj2 (iv_open _ _ _ _ _ Hi Ho))) as (po & f & ca & b & -> & _ & Hi1 & Hf & Hb). cbn [mbind option_bind].
    destruct b.
    + destruct (queue_read_ok _ _ _ _ _ Hi1 Ho) as (po2 & f2 & tk & b & -> & Hi2 & Hf2).
      exists po2, ca, f2, tk, b. split; [reflexivity|]. split; [exact Hi2|]. intros F. destruct (Hf2 F) as [F1 F2]. auto.
    + exists po, ca, f, (task w), false. split; [reflexivity|]. specialize (Hb eq_refl). split; [|done].
      exact (inv_failed _ _ _ _ _ _ _ Hi1 Hb).
  - cbn [mbind option_bind]. destruct (queue_read_ok _ _ _ _ _ Hi Ho) as (po2 & f2 & tk & b & -> & Hi2 & Hf2).
    exists po2, (cancelling w), f2, tk, b. split; [reflexivity|]. by split.
Qed.

(** *** The tree *)

Lemma degree_3 : degree_ok Degree.
Proof. split; [unfold Degree; lia | reflexivity]. Qed.

Lemma replace_repr t (m : gmap Z callback) sig c :
  repr Degree t m ->
  exists t', BTree.replace Degree tree_alloc_ok sig c t = Some (t', m !! sig) /\ repr Degree t' (<[sig := c]> m).
Proof.
  intros Hr. destruct (BTree.perform_ok Degree tree_alloc_ok (Replace sig c) t m degree_3 tree_allocations_succeed Hr)
    as (t' & m' & a & E & Hs & Hr'). cbn [BTree.perform] in E.
  destruct (BTree.replace Degree tree_alloc_ok sig c t) as [[t1 r]|]; cbn [mbind option_bind] in E; [|done].
  injection E as -> <-. inversion Hs; subst. by exists t'.
Qed.

Lemma delete_repr t (m : gmap Z callback) sig :
  repr Degree t m -> exists t', BTree.delete sig t = Some (t', m !! sig) /\ repr Degree t' (base.delete sig m).
Proof.
  intros (H1 & H2 & <-). destruct (delete_ok Degree sig t H1 H2) as (t' & -> & K1 & K2 & K3). exists t'. by repeat split.
Qed.

Lemma cb_map_set t (m : gmap Z callback) (w : world) : repr Degree t m -> cb_map (w <| callbacks := Some t |>) = m.
Proof. intros (_ & _ & <-). reflexivity. Qed.

Lemma inv_callbacks rd tr ex due w t :
  inv rd tr ex due w -> repr Degree t (cb_map w) -> inv rd tr ex due (w <| callbacks := Some t |>).
Proof.
  intros [H1 H2 H3 H4 H5 H6 H7 (l & Hl & Hz) H9 H10 H11 H12] Hr. pose proof (cb_map_set t _ w Hr) as Em.
  split; unfold registered, holders; rewrite ?Em; try done.
  - intros t' [= <-]. exact Hr.
  - intros Ho. split; [by eexists | by apply H3].
  - by exists l.
Qed.

Lemma perm_hand (c m v m' q r : list nat) : c ++ m ≡ₚ v ++ m' -> m ++ q ++ c ++ r ≡ₚ m' ++ q ++ v ++ r.
Proof.
  intros Hp. rewrite (Permutation_app_swap_app q c), (app_assoc m c), (Permutation_app_comm m c), Hp, (Permutation_app_comm v m').
  rewrite <- app_assoc. apply Permutation_app_head, Permutation_app_swap_app.
Qed.

(** The handler of a signal is set; the replaced one is in the hands of the code. *)
Lemma inv_added ex due w t sig c :
  inv false (Some sig) (held c ++ ex) due w -> repr Degree t (<[sig := c]> (cb_map w)) ->
  signals_ok k0 (fun x => registered w x \/ x = sig) (sigs w) -> sig_enum sig = true ->
  inv false None (match cb_map w !! sig with Some v => held v | None => [] end ++ ex) due
    (observe (Added sig (fn_of c)) (w <| callbacks := Some t |>
       <| reserved := match cb_map w !! sig with Some _ => reserved w | None => S (reserved w) end |>)).
Proof.
  intros [H1 H2 H3 H4 H5 H6 H7 (l & Hl & Hz) H9 H10 H11 (s & L1 & L2 & L3)] Hr Hs He.
  set (w' := observe _ _). assert (Em : cb_map w' = <[sig := c]> (cb_map w)) by exact (cb_map_set t _ w Hr).
  assert (Eg : forall x, registered w' x <-> registered w x \/ x = sig).
  { intros x. unfold registered. rewrite Em. destruct (decide (x = sig)) as [->|Hne].
    - rewrite lookup_insert_eq. split; [by right | by eexists].
    - rewrite lookup_insert_ne by done. split; [by left | by intros [?|?]]. }
  split; rewrite ?Em; try done.
  - intros t' [= <-]. exact Hr.
  - intros Ho. split; [by eexists | by apply H3].
  - eapply signals_mono; [exact Hs | intros x; apply Eg].
  - intros x [Hx| ->]%Eg; auto.
  - intros F x. rewrite Eg. destruct (H6 F x) as [[= <-]|[?|?]]; auto.
  - change (reserved w') with (match cb_map w !! sig with Some _ => reserved w | None => S (reserved w) end).
    destruct (cb_map w !! sig) as [v|] eqn:E; [|by rewrite map_size_insert_None, H7].
    rewrite map_size_insert_Some; [exact H7 | by eexists].
  - exists l. split; [|exact Hz]. eapply counts_perm; [exact Hl|]. unfold holders. rewrite Em.
    change (ready w') with (ready w). set (q := concat (map ready_handle (ready w))).
    assert (Hp : held c ++ map_handles (cb_map w) ≡ₚ match cb_map w !! sig with Some v => held v | None => [] end ++ map_handles (<[sig := c]> (cb_map w))).
    { destruct (cb_map w !! sig) as [v|] eqn:E; [by rewrite map_handles_replace | by rewrite map_handles_insert]. }
    rewrite <- !app_assoc. by apply perm_hand.
  - destruct s as [m d]. exists (Spec (<[sig := fn_of c]> m) d). split; [|split; [|exact L3]].
    + change (replay (log w ++ [Added sig (fn_of c)]) (Spec ∅ []) = Some (Spec (<[sig := fn_of c]> m) d)).
      by rewrite (sig_replay_app _ _ _ _ L1).
    + intros Ho x. cbn. destruct (decide (x = sig)) as [->|Hne]; [by rewrite !lookup_insert_eq|].
      rewrite !lookup_insert_ne by done. exact (L2 Ho x).
Qed.

(** The log after a registration or a removal. *)
Definition log_ok (lg : list observation) (open : bool) (m : gmap Z callback) (ds : list (option nat)) : Prop :=
  exists s, replay lg (Spec ∅ []) = Some s
    /\ (open = true -> forall x, s_reg s !! x = fn_of <$> m !! x) /\ ds ⊆+ s_due s.

Lemma log_removed lg m ds sig :
  log_ok lg true m ds -> log_ok (lg ++ [Removed sig (bool_decide (is_Some (m !! sig)))]) true (base.delete sig m) ds.
Proof.
  intros ([r d] & L1 & L2 & L3). cbn in L2. exists (Spec (base.delete sig r) d). split; [|split; [|exact L3]].
  - rewrite (sig_replay_app _ _ _ _ L1). cbn. rewrite (L2 eq_refl sig).
    assert (E : bool_decide (is_Some (fn_of <$> m !! sig)) = bool_decide (is_Some (m !! sig))) by (apply bool_decide_ext, fmap_is_Some).
    by rewrite E, eqb_reflx.
  - intros _ x. cbn. destruct (decide (x = sig)) as [->|Hne]; [by rewrite !lookup_delete_eq|].
    rewrite !lookup_delete_ne by done. exact (L2 eq_refl x).
Qed.

(** The handler of a signal is taken out of the tree. *)
Lemma inv_removed ex due w t sig v n lg :
  inv false None ex due w -> cb_map w !! sig = Some v -> repr Degree t (base.delete sig (cb_map w)) -> reserved w = S n ->
  log_ok lg (initialized w) (base.delete sig (cb_map w)) (due ++ concat (map due_of (ready w))) ->
  inv false (Some sig) (held v ++ ex) due (w <| callbacks := Some t |> <| log := lg |> <| reserved := n |>).
Proof.
  intros [H1 H2 H3 H4 H5 H6 H7 (l & Hl & Hz) H9 H10 H11 _] Hm Hr Hn HL.
  set (w' := _ <| reserved := n |>). assert (Em : cb_map w' = base.delete sig (cb_map w)) by exact (cb_map_set t _ w Hr).
  assert (Eg : forall x, registered w' x <-> registered w x /\ x <> sig).
  { intros x. unfold registered. rewrite Em. destruct (decide (x = sig)) as [->|Hne].
    - rewrite lookup_delete_eq. split; [by intros [? ?] | by intros [_ ?]].
    - rewrite lookup_delete_ne by done. split; [by intros | by intros [? _]]. }
  split; rewrite ?Em; try done.
  - intros t' [= <-]. exact Hr.
  - intros Ho. split; [by eexists | by apply H3].
  - eapply signals_mono; [exact H4 | intros x; apply Eg].
  - intros x [Hx _]%Eg; auto.
  - intros F x. rewrite Eg. destruct (H6 F x) as [?|[?|?]]; [done| |by right; right].
    destruct (decide (x = sig)) as [->|]; [by left | by right; left].
  - change (n = size (base.delete sig (cb_map w))). rewrite map_size_delete_Some by eauto. lia.
  - exists l. split; [|exact Hz]. eapply counts_perm; [exact Hl|]. unfold holders. rewrite Em.
    change (ready w') with (ready w). rewrite (map_handles_delete _ _ _ Hm), <- !app_assoc.
    rewrite (Permutation_app_swap_app (held v)). apply Permutation_app_head. by rewrite Permutation_app_swap_app.
Qed.

(** Every handler in the tree has a slot reserved. *)
Lemma reserved_pos rd tr ex due w sig v : inv rd tr ex due w -> cb_map w !! sig = Some v -> exists n, reserved w = S n.
Proof.
  intros Hi Ev. rewrite (iv_reserved _ _ _ _ _ Hi). destruct (size (cb_map w)) eqn:E; [|by eexists].
  apply map_size_empty_inv in E. by rewrite E in Ev.
Qed.

(** *** Registering and removing *)

Lemma link_ok rd ex due sig c w :
  inv rd None (held c ++ ex) due w -> initialized w = true -> in_range sig = true -> sig_enum sig = true ->
  exists w' b, link alloc_ok tree_alloc_ok sig c w = Some (w', b)
    /\ inv false None (if b : bool then ex else held c ++ ex) due w' /\ initialized w' = true.
Proof.
  intros Hi Ho Hr He. unfold link. cbn zeta. destruct (arm_ok k0 own_dummy (registered w) sig (sigs w) (iv_sigs _ _ _ _ _ Hi) Hr) as [Ha Hc].
  destruct (arm sig (sigs w)) as [sg okr]. cbn [fst snd] in *.
  assert (Hi1 : inv rd (Some sig) (held c ++ ex) due (w <| sigs := sg |>)).
  { destruct Hi as [H1 H2 H3 H4 H5 H6 H7 H8 H9 H10 H11 H12]. split; try done.
    - eapply signals_mono; [exact Ha | by left].
    - intros F x. destruct (decide (x = sig)) as [->|Hne]; [by left|]. right.
      destruct (H6 F x) as [?|[?|?]]; [done | by left | right; by apply Hc]. }
  destruct okr.
  2:{ eexists _, _. split; [reflexivity|]. split; [|exact Ho].
      apply (sig_inv_same rd false (Some sig) None _ _ (w <| sigs := sg |>)); same. }
  destruct (enqueue_ok _ _ _ _ _ Hi1 Ho) as (po & ca & f & tk & b & -> & Hi2 & Hf). cbn [mbind option_bind].
  set (w2 := _ <| task := tk |>) in *. destruct b.
  2:{ eexists _, _. split; [reflexivity|]. split; [|exact Ho]. eapply inv_failed; [exact Hi2|].
      intros F. by destruct (Hf F). }
  destruct (iv_open _ _ _ _ _ Hi2 Ho) as [[t Et] _]. rewrite Et. cbn [mbind option_bind].
  pose proof (iv_tree _ _ _ _ _ Hi2 t Et) as Ht. destruct (replace_repr t _ sig c Ht) as (t' & -> & Ht').
  cbn [mbind option_bind]. assert (Hs2 : signals_ok k0 (fun x => registered w2 x \/ x = sig) (sigs w2)).
  { eapply signals_mono; [exact Ha|]. intros x [?| ->]; [by left | by right]. }
  pose proof (inv_added ex due w2 t' sig c Hi2 Ht' Hs2 He) as Hi3.
  destruct (cb_map w2 !! sig) as [v|] eqn:Ev.
  - unfold dispatch. rewrite alloc_spec. change (allocs (w2 <| callbacks := Some t' |>)) with (allocs w2).
    change (failures (w2 <| callbacks := Some t' |>)) with (failures w2).
    destruct (alloc_ok (allocs w2)).
    + eexists _, _. split; [reflexivity|]. split; [|exact Ho].
      pose proof (inv_alloc _ _ _ _ _ (S (allocs w2)) (failures w2) Hi3 ltac:(done)) as Hi4.
      exact (inv_push false None ex due _ (Handler true v) Hi4 ltac:(done)).
    + cbn [mbind option_bind]. destruct (replace_repr t' _ sig v Ht') as (t'' & E & Ht'').
      change (callbacks (w2 <| callbacks := Some t' |> <| allocs := S (allocs w2) |> <| failures := S (failures w2) |>))
        with (Some t'). cbn [mbind option_bind]. rewrite E. cbn [mbind option_bind].
      eexists _, _. split; [reflexivity|]. split; [|exact Ho].
      rewrite insert_insert_eq, insert_id in Ht'' by exact Ev.
      pose proof (inv_callbacks _ _ _ _ _ _ Hi2 Ht'') as Hi4.
      pose proof (inv_alloc _ _ _ _ _ (S (allocs w2)) (S (failures w2)) Hi4 ltac:(done)) as Hi5.
      exact (inv_failed _ false _ None _ _ _ Hi5 ltac:(done)).
  - eexists _, _. split; [reflexivity|]. split; [exact Hi3 | exact Ho].
Qed.

Lemma unlink_ok ex due sig w :
  inv false None ex due w -> initialized w = true ->
  exists w' r, unlink alloc_ok sig w = Some (w', r) /\ inv false None ex due w' /\ initialized w' = true.
Proof.
  intros Hi Ho. unfold unlink. destruct (iv_open _ _ _ _ _ Hi Ho) as [[t Et] _]. rewrite Et. cbn [mbind option_bind].
  pose proof (iv_tree _ _ _ _ _ Hi t Et) as Ht. destruct (delete_repr t _ sig Ht) as (t' & -> & Ht'). cbn [mbind option_bind].
  assert (HL : log_ok (log w) true (cb_map w) (due ++ concat (map due_of (ready w)))).
  { destruct (iv_log _ _ _ _ _ Hi) as (s & L1 & L2 & L3). exists s. auto. }
  apply (log_removed _ _ _ sig) in HL. destruct (cb_map w !! sig) as [v|] eqn:Ev.
  2:{ eexists _, _. split; [reflexivity|]. split; [|exact Ho]. rewrite delete_id in HL, Ht' by exact Ev.
      pose proof (inv_callbacks _ _ _ _ _ _ Hi Ht') as Hi1. pose proof (cb_map_set t' _ w Ht') as Em.
      destruct Hi1 as [H1 H2 H3 H4 H5 H6 H7 H8 H9 H10 H11 H12]. split; try done.
      destruct HL as (s & L1 & L2 & L3). exists s. split; [exact L1|]. split; [|exact L3].
      intros _. change (cb_map (observe _ _)) with (cb_map (w <| callbacks := Some t' |>)). rewrite Em. by apply L2. }
  destruct (reserved_pos _ _ _ _ _ _ _ Hi Ev) as [n Hn]. rewrite bool_decide_eq_true_2 in HL by eauto.
  assert (HL' : log_ok (log w ++ [Removed sig true]) (initialized w) (base.delete sig (cb_map w)) (due ++ concat (map due_of (ready w))))
    by (rewrite Ho; exact HL).
  pose proof (inv_removed ex due w t' sig v n _ Hi Ev Ht' Hn HL') as Hi1.
  unfold dispatch_guaranteed. change (reserved (observe _ _)) with (reserved w). rewrite Hn.
  destruct (so_watched _ _ _ (iv_sigs _ _ _ _ _ Hi) sig (ex_intro _ _ Ev)) as [W1 W2].
  change (observe (Removed sig true) (w <| callbacks := Some t' |>) <| reserved := n |>)
    with (w <| callbacks := Some t' |> <| log := log w ++ [Removed sig true] |> <| reserved := n |>).
  set (w1 := w <| callbacks := Some t' |> <| log := _ |> <| reserved := n |>) in *.
  unfold dispatch. rewrite alloc_spec. destruct (alloc_ok (allocs w1)); cbn [mbind option_bind].
  - pose proof (inv_alloc _ _ _ _ _ (S (allocs w1)) (failures w1) Hi1 ltac:(done)) as Hi2.
    pose proof (inv_push false (Some sig) ex due _ (Handler true v) Hi2 ltac:(done)) as Hi3.
    set (w3 := _ <| ready := _ |>) in *. change (sigs w3) with (sigs w).
    assert (Hn3 : ~ registered w3 sig).
    { unfold registered. intros [x Hx]. assert (Em : cb_map w3 = base.delete sig (cb_map w)) by exact (cb_map_set t' _ w Ht').
      by rewrite Em, lookup_delete_eq in Hx. }
    destruct (disarm_ok k0 own_dummy (registered w3) sig (sigs w)) as (D1 & D2 & D3);
      [exact (iv_sigs _ _ _ _ _ Hi3) | split; [exact W1 | exact W2] | exact Hn3 |].
    destruct (disarm sig (sigs w)) as [sg okr]. cbn [fst snd] in *.
    assert (Hi4 : inv false (if okr then None else Some sig) ex due (w3 <| sigs := sg |>)).
    { destruct Hi3 as [H1 H2 H3 H4 H5 H6 H7 H8 H9 H10 H11 H12]. split; try done.
      intros F x. destruct (H6 F x) as [[= <-]|[?|?]]; [|by right; left | right; right; by apply D2].
      destruct okr; [right; right; by apply D3 | by left]. }
    destruct okr; eexists _, _; (split; [reflexivity|]); (split; [|exact Ho]); [exact Hi4|].
    apply (sig_inv_same false false (Some sig) None _ _ (w3 <| sigs := sg |>)); same.
  - eexists _, _. split; [reflexivity|]. split; [|exact Ho].
    pose proof (inv_alloc _ _ _ _ _ (S (allocs w1)) (S (failures w1)) Hi1 ltac:(done)) as Hi2.
    pose proof (inv_failed _ false _ None _ _ _ Hi2 ltac:(done)) as Hi3. exact (inv_leak _ _ _ _ _ _ Hi3 ltac:(done)).
Qed.

(** *** The methods *)

Lemma sig_fresh_in_use (m : gmap nat nat) : m !! new_addr (in_use m) = None.
Proof.
  destruct (m !! new_addr (in_use m)) as [x|] eqn:E; [|done]. exfalso. apply (new_addr_fresh (in_use m)).
  apply list_elem_of_fmap. exists (new_addr (in_use m), x). split; [reflexivity|]. by apply elem_of_map_to_list.
Qed.

Lemma inv_new_handle rd tr ex due w h :
  inv rd tr ex due w -> handles w !! h = None -> inv rd tr (h :: ex) due (w <| handles := <[h := 1]> (handles w) |>).
Proof.
  intros [H1 H2 H3 H4 H5 H6 H7 (l & Hl & Hz) H9 H10 H11 H12] Hh. split; try done.
  exists l. split; [|exact Hz]. pose proof (counts_add _ _ h Hl) as Ha. rewrite Hh in Ha.
  apply (counts_perm _ _ _ Ha). cbn. apply Permutation_middle.
Qed.

Lemma sig_user_call_ok ex due c w :
  inv false None ex due w -> initialized w = true ->
  exists w', user_call alloc_ok tree_alloc_ok new_addr sig_enum c w = Some w' /\ inv false None ex due w' /\ initialized w' = true.
Proof.
  intros Hi Ho. destruct c as [sig fn|sig|n]; cbn [user_call].
  - unfold add_signal_handler. destruct (in_range sig) eqn:Hr; [|by exists w]. destruct fn as [fn|]; [|by exists w].
    rewrite alloc_spec. destruct (alloc_ok (allocs w)).
    2:{ eexists. split; [reflexivity|]. split; [|exact Ho]. by apply inv_alloc. }
    pose proof (inv_alloc _ _ _ _ _ (S (allocs w)) (failures w) Hi ltac:(done)) as Hi1. set (w1 := w <| allocs := _ |> <| failures := _ |>) in *.
    set (h := new_addr (in_use (handles w1))). pose proof (inv_new_handle _ _ _ _ _ h Hi1 (sig_fresh_in_use _)) as Hi2.
    cbn zeta. set (w2 := w1 <| handles := _ |>) in *. change (initialized w2) with (initialized w). rewrite Ho. cbn [andb].
    destruct (sig_enum sig) eqn:He.
    + destruct (link_ok _ ex due sig (PyHandle h fn) w2 Hi2 Ho Hr He) as (w3 & b & -> & Hi3 & Ho3). cbn [mbind option_bind].
      destruct b; [by exists w3|]. destruct (decref_ok _ _ ex _ _ (PyHandle h fn) Hi3) as (hs & -> & Hi4). by eexists.
    + cbn [mbind option_bind]. destruct (decref_ok _ _ ex _ _ (PyHandle h fn) Hi2) as (hs & -> & Hi4). by eexists.
  - unfold remove_signal_handler. destruct (in_range sig && sig_enum sig); [|by exists w].
    destruct (unlink_ok ex due sig w Hi Ho) as (w' & r & -> & Hi' & Ho'). by exists w'.
  - destruct (sig_queue_ok _ _ _ _ (OtherTask n) w Hi Ho) as (po & f & r & -> & Hi' & _). by eexists.
Qed.

Lemma sig_user_calls_ok ex due cs : forall w,
  inv false None ex due w -> initialized w = true ->
  exists w', user_calls alloc_ok tree_alloc_ok new_addr sig_enum cs w = Some w' /\ inv false None ex due w' /\ initialized w' = true.
Proof.
  induction cs as [|c cs IH]; intros w Hi Ho; cbn [user_calls]; [by exists w|].
  destruct (sig_user_call_ok _ _ c w Hi Ho) as (w1 & -> & Hi1 & Ho1). by apply IH.
Qed.

(** *** The callbacks *)

Lemma inv_undue rd tr ex due w : inv rd tr ex due w -> inv rd tr ex [] w.
Proof.
  intros [H1 H2 H3 H4 H5 H6 H7 H8 H9 H10 H11 (s & L1 & L2 & L3)]. split; try done. exists s. split; [exact L1|]. split; [exact L2|].
  etrans; [|exact L3]. apply (submseteq_inserts_l due). done.
Qed.

Lemma inv_delivered rd tr ex w sig c :
  inv rd tr ex [] w -> initialized w = true -> cb_map w !! sig = Some c ->
  inv rd tr ex [fn_of c] (observe (Delivered sig (fn_of c)) w).
Proof.
  intros [H1 H2 H3 H4 H5 H6 H7 H8 H9 H10 H11 (s & L1 & L2 & L3)] Ho Hc. split; try done.
  exists (Spec (s_reg s) (s_due s ++ [fn_of c])). split; [|split; [exact L2|]].
  - change (replay (log w ++ [Delivered sig (fn_of c)]) (Spec ∅ []) = Some (Spec (s_reg s) (s_due s ++ [fn_of c]))).
    rewrite (sig_replay_app _ _ _ _ L1). cbn. rewrite decide_True; [done|]. by rewrite (L2 Ho), Hc.
  - cbn [s_due]. rewrite (Permutation_app_comm (s_due s)). by apply submseteq_skips_l.
Qed.

Lemma sig_inv_called rd tr ex w fn : inv rd tr ex [fn] w -> inv rd tr ex [] (observe (Called fn) w).
Proof.
  intros [H1 H2 H3 H4 H5 H6 H7 H8 H9 H10 H11 (s & L1 & L2 & L3)]. split; try done. cbn [app] in L3.
  assert (Hin : fn ∈ s_due s) by (apply (elem_of_submseteq _ _ _ ltac:(left) L3)).
  destruct (remove_one_ok _ _ Hin) as (d & E & Hp). exists (Spec (s_reg s) d). split; [|split; [exact L2|]].
  - change (replay (log w ++ [Called fn]) (Spec ∅ []) = Some (Spec (s_reg s) d)). rewrite (sig_replay_app _ _ _ _ L1). cbn. by rewrite E.
  - rewrite Hp in L3. by apply (submseteq_app_inv_l _ _ [fn]) in L3.
Qed.

Lemma signal_handler_ok r w :
  inv (is_read (SignalRead r)) None [] [] w -> initialized w = true -> (r = ReadOk -> in_range (info w) = true) ->
  exists w' b, signal_handler alloc_ok r w = Some (w', b) /\ inv false None [] [] w' /\ initialized w' = true
    /\ (r = ReadOk -> failures w' = 0 -> forall c, cb_map w !! info w = Some c -> Handler false c ∈ ready w').
Proof.
  intros Hi Ho Hr. destruct r; cbn [signal_handler is_read] in *; cbn zeta.
  2,3: eexists _, _; (split; [reflexivity|]); (split; [|split; [exact Ho | done]]); apply (sig_inv_same true false None None _ _ w); same.
  2:{ by eexists w, true. }
  change (info (w <| task := None |>)) with (info w). rewrite (Hr eq_refl).
  assert (Hi1 : inv true None [] [] (w <| task := None |>)) by (apply (sig_inv_same true true None None _ _ w); same).
  set (w1 := w <| task := None |>) in *. destruct (iv_open _ _ _ _ _ Hi1 Ho) as [[t Et] _]. rewrite Et. cbn [mbind option_bind].
  assert (Eg : get_value (info w) (root t) = cb_map w1 !! info w).
  { destruct (iv_tree _ _ _ _ _ Hi1 t Et) as (R1 & R2 & <-). by apply (search_lookup Degree). }
  rewrite Eg. destruct (cb_map w1 !! info w) as [c|] eqn:Ec.
  2:{ destruct (queue_read_ok _ _ _ _ _ Hi1 Ho) as (po & f & tk & b & -> & Hi2 & _). eexists _, _. split; [reflexivity|].
      split; [exact Hi2|]. split; [exact Ho|]. intros _ _ c Hc. change (cb_map w1 !! info w = Some c) in Hc. congruence. }
  destruct (incref_ok _ _ _ _ _ _ _ Hi1 Ec) as (hs & -> & Hi2). cbn [mbind option_bind].
  set (w2 := w1 <| handles := hs |>) in *. unfold dispatch. rewrite alloc_spec. destruct (alloc_ok (allocs w2)).
  - pose proof (inv_delivered _ _ _ _ _ _ Hi2 Ho Ec) as Hi3.
    pose proof (inv_alloc _ _ _ _ _ (S (allocs w2)) (failures w2) Hi3 ltac:(done)) as Hi4.
    pose proof (inv_push true None [] [] _ (Handler false c) Hi4 ltac:(done)) as Hi5.
    match goal with |- context [queue_read ?x] => destruct (queue_read_ok true None [] [] x Hi5 Ho) as (po & f & tk & b & -> & Hi6 & _) end.
    eexists _, _. split; [reflexivity|]. split; [exact Hi6|]. split; [exact Ho|]. intros _ _ c' Hc'.
    change (cb_map w1 !! info w = Some c') in Hc'. assert (c' = c) as -> by congruence. cbn. set_solver.
  - pose proof (inv_alloc _ _ _ _ _ (S (allocs w2)) (S (failures w2)) Hi2 ltac:(done)) as Hi3.
    destruct (decref_ok _ _ _ _ _ c Hi3) as (hs2 & -> & Hi4). cbn [mbind option_bind].
    eexists _, _. split; [reflexivity|]. split; [by apply (inv_failed _ _ _ _ _ _ _ Hi4)|]. by split.
Qed.

Lemma run_handler_ok cancelled c user o due w :
  inv false None (held c) due w -> (cancelled = false -> due = [fn_of c]) -> initialized w = true ->
  exists w', run_handler alloc_ok tree_alloc_ok new_addr sig_enum cancelled c user o w = Some w'
    /\ inv false None [] [] w' /\ initialized w' = true.
Proof.
  intros Hi Hd Ho. rewrite <- (app_nil_r (held c)) in Hi. unfold run_handler. destruct cancelled.
  - destruct (decref_ok _ _ [] _ _ c (inv_undue _ _ _ _ _ Hi)) as (hs & -> & Hi1). by eexists.
  - rewrite (Hd eq_refl) in Hi. pose proof (sig_inv_called _ _ _ _ _ Hi) as Hi1. destruct c as [|h fn]; [by eexists|].
    destruct (sig_user_calls_ok _ _ user _ Hi1 Ho) as (w1 & -> & Hi2 & Ho2). cbn [mbind option_bind].
    destruct (decref_ok _ _ [] _ _ (PyHandle h fn) Hi2) as (hs & -> & Hi3). cbn [mbind option_bind].
    destruct o as [|handler]; [by eexists|]. by apply sig_user_calls_ok.
Qed.

Lemma sig_run_ready_ok a r b user o w :
  inv false None [] [] w -> ready w = a ++ r :: b -> initialized w = true ->
  exists w', run_ready alloc_ok tree_alloc_ok new_addr sig_enum r false user o (w <| ready := a ++ b |>) = Some w'
    /\ inv false None [] [] w' /\ initialized w' = true.
Proof.
  intros Hi Er Ho. pose proof (sig_inv_taken a r b w Hi Er) as Hi1. pose proof (iv_info _ _ _ _ _ Hi) as Hn. rewrite Er in Hn.
  set (w1 := w <| ready := a ++ b |>) in *. destruct r as [r|c cb|n]; cbn [run_ready].
  - destruct (signal_handler_ok r w1 Hi1 Ho) as (w2 & ok & -> & Hi2 & Ho2 & _); [intros ->; apply Hn; set_solver|].
    cbn [mbind option_bind]. destruct ok; [by exists w2|]. destruct o as [|handler]; [by exists w2|]. by apply sig_user_calls_ok.
  - rewrite orb_false_r. apply (run_handler_ok c cb user o _ w1 Hi1); [|exact Ho]. by intros ->.
  - by apply sig_user_calls_ok.
Qed.

(** *** Closing *)

Lemma inv_closed rd rd' ex due w : inv rd None ex due w -> initialized w = false -> inv rd' None ex due w.
Proof. intros [H1 H2 H3 H4 H5 H6 H7 H8 H9 H10 H11 H12] Hn. split; try done. intros _ Ho. congruence. Qed.

Lemma sig_release_all_ok rs : forall w,
  inv false None [] [] w -> ready w = rs -> initialized w = false ->
  exists hs, release_all alloc_ok tree_alloc_ok new_addr sig_enum rs w = Some (w <| ready := [] |> <| handles := hs |>)
    /\ inv false None [] [] (w <| ready := [] |> <| handles := hs |>).
Proof.
  induction rs as [|r rs IH]; intros w Hi Er Hn; cbn [release_all].
  - exists (handles w). assert (E : w <| ready := [] |> <| handles := handles w |> = w) by (destruct w; cbn in Er; by subst).
    by rewrite E.
  - pose proof (inv_closed _ false _ _ _ (sig_inv_taken [] r rs w Hi Er) Hn) as Hi1. cbn [app] in Hi1.
    assert (G : exists hs, run_ready alloc_ok tree_alloc_ok new_addr sig_enum r true [] Returned (w <| ready := rs |>) = Some (w <| ready := rs |> <| handles := hs |>)
      /\ inv false None [] [] (w <| ready := rs |> <| handles := hs |>)).
    { apply inv_undue in Hi1. destruct r as [r|c cb|n]; cbn [run_ready ready_handle] in *; [by exists (handles w)| |by exists (handles w)].
      unfold run_handler. rewrite orb_true_r. rewrite <- (app_nil_r (held cb)) in Hi1. by destruct (decref_ok _ _ [] _ _ cb Hi1) as (hs & -> & Hi2); exists hs. }
    destruct G as (hs & -> & Hi2). cbn [mbind option_bind].
    destruct (IH (w <| ready := rs |> <| handles := hs |>) Hi2 eq_refl Hn) as (hs2 & -> & Hi3). by exists hs2.
Qed.

Lemma pop_callbacks_ok n : forall m w t,
  inv false None [] [] w -> initialized w = false -> callbacks w = Some t -> length (flat (root t)) < n ->
  (forall x, x ∈ m -> cleared k0 (sigs w) x) ->
  exists w' m', pop_callbacks alloc_ok sig_enum n m w = Some (w', m') /\ inv false None [] [] w'
    /\ (exists t', callbacks w' = Some t' /\ cb_map w' = ∅) /\ initialized w' = false /\ pool w' = pool w
    /\ (failures w' = 0 -> failures w = 0) /\ muted (sigs w') = muted (sigs w)
    /\ (forall x, x ∈ m \/ registered w x -> x ∈ m') /\ (forall x, x ∈ m' -> cleared k0 (sigs w') x).
Proof.
  induction n as [|n IH]; intros m w t Hi Ho Et Hn Hm; [lia|]. cbn [pop_callbacks]. rewrite Et. cbn [mbind option_bind].
  destruct (pop_repr Degree t _ (iv_tree _ _ _ _ _ Hi t Et)) as (t' & r & -> & Hp). cbn [mbind option_bind].
  destruct r as [[sig v]|].
  2:{ destruct Hp as [He Ht']. eexists _, _. split; [reflexivity|]. split; [by apply inv_callbacks|].
      split; [exists t'; split; [done|]; rewrite <- He; by apply cb_map_set|].
      split; [exact Ho|]. do 3 (split; [done|]). split; [|exact Hm].
      intros x [?|[c Hc]]; [done|]. by rewrite He in Hc. }
  destruct Hp as (Ev & Ht' & Hl). cbn [fst snd] in *.
  destruct (reserved_pos _ _ _ _ _ _ _ Hi Ev) as [k Hk]. destruct (so_watched _ _ _ (iv_sigs _ _ _ _ _ Hi) sig (ex_intro _ _ Ev)) as [W1 W2].
  rewrite W1. pose proof (iv_enum _ _ _ _ _ Hi sig (ex_intro _ _ Ev)) as We. rewrite We. cbn beta iota zeta delta [andb].
  assert (HL : log_ok (log w) (initialized w) (base.delete sig (cb_map w)) (concat (map due_of (ready w)))).
  { destruct (iv_log _ _ _ _ _ Hi) as (s & L1 & _ & L3). exists s. split; [exact L1|]. split; [by rewrite Ho | exact L3]. }
  pose proof (inv_removed [] [] w t' sig v k _ Hi Ev Ht' Hk HL) as Hi1.
  change (w <| callbacks := Some t' |> <| log := log w |>) with (w <| callbacks := Some t' |>) in Hi1.
  set (w1 := w <| callbacks := Some t' |> <| reserved := k |>) in *.
  assert (Em : cb_map w1 = base.delete sig (cb_map w)) by exact (cb_map_set t' _ w Ht').
  assert (Hn1 : ~ registered w1 sig) by (unfold registered; rewrite Em, lookup_delete_eq; by intros [? ?]).
  destruct (restore_ok k0 own_dummy (registered w1) sig (sigs w)) as (R1 & R2 & R3 & R4 & _);
    [exact (iv_sigs _ _ _ _ _ Hi1) | exact Hn1 | left; split; [exact W1 | intros Hc; apply (W2 Hc)] |]. cbn zeta in R1, R2, R3, R4.
  set (sg := restore sig (sigs w)) in *.
  assert (Hi2 : inv false None (held v) [] (w1 <| sigs := sg |>)).
  { rewrite app_nil_r in Hi1. destruct Hi1 as [H1 H2 H3 H4 H5 H6 H7 H8 H9 H10 H11 H12]. split; try done.
    intros F x. right. destruct (H6 F x) as [[= <-]|[?|?]]; [by right | by left | right; by apply R3]. }
  unfold dispatch_guaranteed. change (sigs (w <| callbacks := Some t' |>)) with (sigs w). fold sg.
  change (reserved (w <| callbacks := Some t' |> <| sigs := sg |>)) with (reserved w). rewrite Hk.
  change (w <| callbacks := Some t' |> <| sigs := sg |> <| reserved := k |>) with (w1 <| sigs := sg |>).
  set (w2 := w1 <| sigs := sg |>) in *. unfold dispatch. rewrite alloc_spec.
  assert (Hnext : forall w3, inv false None [] [] w3 -> initialized w3 = false -> callbacks w3 = Some t' -> sigs w3 = sg -> pool w3 = pool w ->
    (failures w3 = 0 -> failures w = 0) ->
    exists w' m', pop_callbacks alloc_ok sig_enum n ({[sig]} ∪ m) w3 = Some (w', m') /\ inv false None [] [] w'
      /\ (exists t', callbacks w' = Some t' /\ cb_map w' = ∅) /\ initialized w' = false /\ pool w' = pool w
      /\ (failures w' = 0 -> failures w = 0) /\ muted (sigs w') = muted (sigs w)
      /\ (forall x, x ∈ m \/ registered w x -> x ∈ m') /\ (forall x, x ∈ m' -> cleared k0 (sigs w') x)).
  { intros w3 J1 J2 J3 J4 J5 J6. destruct (IH ({[sig]} ∪ m) w3 t' J1 J2 J3 ltac:(lia)) as (w' & m' & Q1 & Q2 & Q3 & Q4 & Q5 & Q6 & Q7 & Q8 & Q9).
    { rewrite J4. intros x [->%elem_of_singleton|Hx]%elem_of_union; auto. }
    exists w', m'. split; [exact Q1|]. split; [exact Q2|]. split; [exact Q3|]. split; [exact Q4|]. split; [by rewrite Q5|].
    split; [auto|]. split; [by rewrite Q7, J4|]. split; [|exact Q9].
    intros x Hx. apply Q8. destruct (decide (x = sig)) as [->|Hne]; [left; set_solver|].
    destruct Hx as [Hx|Hx]; [left; set_solver|]. right. unfold registered, cb_map. rewrite J3.
    destruct Ht' as (_ & _ & E). rewrite E, lookup_delete_ne by done. exact Hx. }
  destruct (alloc_ok (allocs w2)); cbn [mbind option_bind].
  - apply Hnext; try done. rewrite <- (app_nil_r (held v)) in Hi2.
    pose proof (inv_alloc _ _ _ _ _ (S (allocs w2)) (failures w2) Hi2 ltac:(done)) as Hi3.
    exact (inv_push false None [] [] _ (Handler true v) Hi3 ltac:(done)).
  - apply Hnext; try done. rewrite <- (app_nil_r (held v)) in Hi2.
    pose proof (inv_alloc _ _ _ _ _ (S (allocs w2)) (S (failures w2)) Hi2 ltac:(done)) as Hi3.
    exact (inv_leak _ _ _ _ _ _ Hi3 ltac:(done)).
Qed.

Lemma inv_sigs_set w s :
  inv false None [] [] w -> signals_ok k0 (registered w) s -> (forall x, cleared k0 (sigs w) x -> cleared k0 s x) ->
  inv false None [] [] (w <| sigs := s |>).
Proof.
  intros [H1 H2 H3 H4 H5 H6 H7 H8 H9 H10 H11 H12] Hs Hc. split; try done.
  intros F x. right. destruct (H6 F x) as [?|[?|?]]; [done | by left | right; by apply Hc].
Qed.

Lemma inv_no_tree w :
  inv false None [] [] w -> cb_map w = ∅ -> initialized w = false -> inv false None [] [] (w <| callbacks := None |>).
Proof.
  intros [H1 H2 H3 H4 H5 H6 H7 (l & Hl & Hz) H9 H10 H11 (s & L1 & L2 & L3)] Em Ho.
  unfold registered, holders in *. rewrite Em in *.
  split; try done; [intros E; change (initialized w = true) in E; congruence | by exists l|].
  exists s. split; [exact L1|]. split; [|exact L3]. intros E. change (initialized w = true) in E. congruence.
Qed.

Lemma in_all_signals x : in_range x = true -> x ∈ all_signals.
Proof.
  unfold in_range, all_signals. rewrite andb_true_iff, !Z.leb_le. intros Hx. apply list_elem_of_fmap. exists (Z.to_nat x).
  split; [lia|]. apply elem_of_seq. lia.
Qed.

Lemma sig_deinit_ok w :
  inv false None [] [] w -> initialized w = false -> is_Some (callbacks w) -> is_Some (pool w) ->
  exists w', deinit alloc_ok sig_enum w = Some (w', true) /\ inv false None [] [] w' /\ callbacks w' = None
    /\ initialized w' = false /\ is_Some (pool w') /\ (failures w' = 0 -> failures w = 0)
    /\ muted (sigs w') = muted (sigs w)
    /\ (forall x, prev_handlers (sigs w') !! x = None)
    /\ (forall x, registered w x -> os_blocked (kernel (sigs w')) x = false).
Proof.
  intros Hi Ho [t Et] Hpo. unfold deinit.
  assert (Hc : exists po f ca, (match task w with Some id => '(w, _) ← cancel_io id w; Some (w <| task := None |>) | None => Some w end)
      = Some (w <| pool := po |> <| cancelling := ca |> <| failures := f |> <| task := None |>)
    /\ is_Some po /\ (f = 0 -> failures w = 0) /\ inv false None [] [] (w <| pool := po |> <| cancelling := ca |> <| failures := f |> <| task := None |>)).
  { destruct (task w) as [id|] eqn:Ek.
    - destruct (sig_cancel_io_ok _ _ _ _ id w Hi Hpo) as (po & f & ca & b & -> & G & Hi1 & Hf & _). cbn [mbind option_bind].
      exists po, f, ca. split; [reflexivity|]. split; [exact G|]. split; [exact Hf|]. apply (inv_closed true); [|exact Ho].
      by apply (sig_inv_same true true None None _ _ (w <| pool := po |> <| cancelling := ca |> <| failures := f |>)); same.
    - exists (pool w), (failures w), (cancelling w). split; [|split; [exact Hpo|split; [done|]]].
      + f_equal. destruct w; cbn in Ek; by subst.
      + apply (inv_closed true); [|exact Ho]. by apply (sig_inv_same false true None None _ _ w); same. }
  destruct Hc as (po & f & ca & -> & Hpo1 & Hf & Hi1). cbn [mbind option_bind]. set (w1 := _ <| task := None |>) in *.
  assert (Hi2 : inv false None [] [] (w1 <| fd_open := false |>)) by (apply (sig_inv_same false false None None _ _ w1); same).
  set (w2 := w1 <| fd_open := false |>) in *.
  assert (Ee : entries w2 = S (length (flat (root t)))) by (unfold entries; change (callbacks w2) with (callbacks w); by rewrite Et).
  destruct (pop_callbacks_ok (entries w2) ∅ w2 t Hi2 Ho Et) as (w3 & m & -> & Hi3 & (t3 & Et3 & Em3) & Ho3 & P3 & F3 & M3 & R3 & C3);
    [rewrite Ee; lia | by intros x ?%elem_of_empty|]. cbn [mbind option_bind].
  assert (Hnr : forall x, registered w3 x -> False) by (intros x [c Hc]; by rewrite Em3 in Hc).
  destruct (restore_rest_ok k0 own_dummy all_signals (registered w3) (sigs w3) (iv_sigs _ _ _ _ _ Hi3) Hnr) as (S1 & S2 & S3 & S4).
  cbn zeta in S1, S2, S3, S4. set (s := restore_rest all_signals (sigs w3)) in *.
  destruct (unblock_ok k0 own_dummy (registered w3) m s S1) as (U1 & U2 & U3); [intros x Hx; split; [by apply S2, C3 | exact (Hnr x)]|].
  cbn zeta in U1, U2, U3. fold s.
  change (callbacks (w3 <| sigs := sys (os_unblock m (kernel s)) s |>)) with (callbacks w3). rewrite Et3. cbn [mbind option_bind].
  assert (Hi4 := inv_sigs_set w3 (sys (os_unblock m (kernel s)) s) Hi3 U1 (fun x Hx => U2 x (S2 x Hx))).
  pose proof (iv_tree _ _ _ _ _ Hi3 t3 Et3) as Ht3. rewrite Em3 in Ht3.
  assert (Ed : BTree.deinit t3 = true) by (by apply (deinit_repr Degree t3 ∅)). rewrite Ed.
  eexists. split; [reflexivity|]. split; [|split; [done|split; [exact Ho3|split; [|split; [auto|split; [|split]]]]]].
  - apply (inv_no_tree _ Hi4); [exact Em3 | exact Ho3].
  - change (is_Some (pool w3)). by rewrite P3.
  - change (muted s = muted (sigs w)). by rewrite S3, M3.
  - intros x. change (prev_handlers s !! x = None). destruct (prev_handlers s !! x) as [h|] eqn:E; [exfalso|done].
    destruct (S4 x) as [_ S5]; [by eexists|]. apply S5, in_all_signals, (so_prev _ _ _ S1). by eexists.
  - intros x Hx. apply U3, R3. by right.
Qed.

(** What is left when the loop is closed. *)
Record closed (w w' : world) : Prop := {
  cl_inv : inv false None [] [] w';
  cl_tree : callbacks w' = None;
  cl_ready : ready w' = [];
  cl_failures : failures w' = 0 -> failures w = 0;
  cl_muted : muted (sigs w') = muted (sigs w);
  cl_prev x : prev_handlers (sigs w') !! x = None;
  cl_unblocked x : registered w x -> os_blocked (kernel (sigs w')) x = false }.

Lemma sig_release_claimed_ok w :
  inv false None [] [] w -> initialized w = true ->
  exists w', release_claimed alloc_ok tree_alloc_ok new_addr sig_enum w = Some w' /\ closed w w'.
Proof.
  intros Hi Ho. destruct (iv_open _ _ _ _ _ Hi Ho) as [Ht Hp]. unfold release_claimed.
  assert (Hi0 : inv false None [] [] (w <| initialized := false |>)).
  { destruct Hi as [H1 H2 H3 H4 H5 H6 H7 H8 H9 H10 H11 (s & L1 & _ & L3)]. split; try done. by exists s. }
  destruct (sig_deinit_ok _ Hi0 eq_refl Ht Hp) as (w1 & -> & Hi1 & T1 & O1 & [p Ep] & F1 & M1 & V1 & B1). cbn [mbind option_bind].
  destruct (sig_release_all_ok (ready w1) w1 Hi1 eq_refl O1) as (hs & -> & Hi2). cbn [mbind option_bind].
  change (pool (w1 <| ready := [] |> <| handles := hs |>)) with (pool w1). rewrite Ep. cbn [mbind option_bind].
  set (rs := map (ready_of ReadCancelled) (pool_deinit p)).
  assert (Er : concat (map ready_handle rs) = [] /\ concat (map due_of rs) = [] /\ SignalRead ReadOk ∉ rs).
  { unfold rs. induction (pool_deinit p) as [|c l (I1 & I2 & I3)]; [by repeat split; try apply not_elem_of_nil|].
    destruct c; cbn; rewrite I1, I2; (split; [done|]; split; [done|]); by apply not_elem_of_cons. }
  destruct Er as (Er1 & Er2 & Er3). set (w2 := w1 <| ready := [] |> <| handles := hs |>) in *.
  assert (Hi3 : inv false None [] [] (w2 <| pool := None |> <| ready := rs |>)).
  { destruct Hi2 as [H1 H2 H3 H4 H5 H6 H7 (l & Hl & Hz) H9 H10 H11 (s & L1 & L2 & L3)]. split; try done.
    - intros E. change (initialized w1 = true) in E. congruence.
    - exists l. split; [|exact Hz]. unfold holders in *. cbn in *. by rewrite Er1.
    - intros _ E. change (initialized w1 = true) in E. congruence.
    - intros id E. change (initialized w1 = true) in E. congruence.
    - exists s. split; [exact L1|]. split; [exact L2|]. cbn. rewrite Er2. exact (submseteq_nil_l _). }
  destruct (sig_release_all_ok rs _ Hi3 eq_refl O1) as (hs2 & -> & Hi4). eexists. split; [reflexivity|]. by split.
Qed.

(** *** The events *)

Lemma completion_ok id r w :
  inv false None [] [] w -> initialized w = true ->
  exists w', step alloc_ok tree_alloc_ok new_addr sig_enum (Completion id r) w = Some w' /\ inv false None [] [] w' /\ initialized w' = true
    /\ (forall c, flight (pool w) id = Some c -> is_Some (complete_read c r id w) -> ready w' = ready w ++ [ready_of r c]).
Proof.
  intros Hi Ho. cbn [step]. destruct (flight (pool w) id) as [c|] eqn:Ef; cbn [mbind option_bind]; [|by exists w].
  assert (Hr : complete_read c r id w = None \/ exists s x, complete_read c r id w = Some (w <| sigs := s |> <| info := x |>)
    /\ inv false None [] [] (w <| sigs := s |> <| info := x |>)
    /\ (c = SignalDone -> r = ReadOk -> in_range x = true) /\ (c = SignalDone -> r = ReadCancelled -> id ∈ cancelling w)).
  { assert (Hsame : exists s x, Some w = Some (w <| sigs := s |> <| info := x |>) /\ inv false None [] [] (w <| sigs := s |> <| info := x |>)).
    { exists (sigs w), (info w). by destruct w. }
    unfold complete_read. destruct c as [|n], r; try (right; destruct Hsame as (s & x & E & G); by exists s, x).
    - destruct (os_read (kernel (sigs w))) as [[x k]|] eqn:E; [|by left]. right. cbn [mbind option_bind].
      destruct (os_read_ok _ _ _ E) as (Hx & _ & Hk). exists (sys k (sigs w)), x. split; [reflexivity|].
      pose proof (so_fd _ _ _ (iv_sigs _ _ _ _ _ Hi) x Hx) as Hxr. split; [|by split].
      pose proof (inv_sigs_set w (sys k (sigs w)) Hi (signals_sys k0 own_dummy _ _ k (iv_sigs _ _ _ _ _ Hi) Hk)) as Hi1.
      destruct Hi1 as [H1 H2 H3 H4 H5 H6 H7 H8 H9 H10 H11 H12]; [intros y; apply cleared_sys, Hk|]. split; try done.
    - destruct (decide (id ∈ cancelling w)); [|by left]. right. destruct Hsame as (s & x & E & G). by exists s, x. }
  destruct Hr as [E | (s & x & E & Hi1 & Hx & Hcan)]; rewrite E; cbn [mbind option_bind].
  { exists w. do 3 (split; [done|]). intros c' [= <-] [? ?]. congruence. }
  set (w1 := w <| sigs := s |> <| info := x |>) in *.
  destruct (iv_open _ _ _ _ _ Hi Ho) as [_ [p Ep]]. change (pool w1) with (pool w). rewrite Ep in *. cbn [mbind option_bind].
  change (pool_lookup id p = Some c) in Ef.
  destruct (pool_complete_ok id c p (iv_pool _ _ _ _ _ Hi p Ep) Ef) as (p' & -> & Hp' & Hl). cbn [mbind option_bind].
  eexists. split; [reflexivity|]. split; [|split; [exact Ho | by intros c' [= <-] _]].
  destruct Hi1 as [H1 H2 H3 H4 H5 H6 H7 (l & G1 & G2) H9 H10 H11 (sp & L1 & L2 & L3)].
  assert (Er : ready_handle (ready_of r c) = [] /\ due_of (ready_of r c) = []) by (by destruct c). destruct Er as [Er1 Er2].
  split; try done.
  - by intros q [= <-].
  - intros _. split; [by apply H3 | by eexists].
  - exists l. split; [|exact G2]. unfold holders in *. cbn in *. by rewrite concat_snoc, Er1, app_nil_r.
  - intros F _. right. destruct (H9 F Ho) as [?|[(j & J1 & J2 & J3)|(q & J1 & J2)]]; [done| |].
    2:{ right. exists q. cbn. split; [set_solver | done]. }
    destruct (decide (j = id)) as [->|Hne].
    + change (flight (pool w) id = Some SignalDone) in J2. rewrite Ep in J2.
      change (pool_lookup id p = Some SignalDone) in J2. assert (c = SignalDone) as -> by congruence.
      right. exists r. cbn. split; [set_solver|]. intros ->. by apply J3, Hcan.
    + left. exists j. split; [exact J1|]. change (flight (pool w) j = Some SignalDone) in J2. rewrite Ep in J2. split.
      * change (pool_lookup j p' = Some SignalDone). rewrite Hl, decide_False by done. exact J2.
      * cbn. set_solver.
  - intros j _ Hj. cbn in Hj. apply elem_of_difference in Hj as [Hj Hne]. specialize (H10 j Ho Hj).
    change (is_Some (flight (pool w) j)) in H10. rewrite Ep in H10. change (is_Some (pool_lookup j p')).
    rewrite Hl, decide_False by set_solver. exact H10.
  - intros Hin. cbn in Hin. apply elem_of_app in Hin as [Hin|Hin]; [by apply H11|].
    apply list_elem_of_singleton in Hin. destruct c; [|done]. cbn in Hin. injection Hin as <-. by apply Hx.
  - exists sp. split; [exact L1|]. split; [exact L2|]. cbn. by rewrite concat_snoc, Er2, app_nil_r.
Qed.

Lemma sig_event_ok ev w :
  ev <> Close -> inv false None [] [] w -> initialized w = true ->
  exists w', step alloc_ok tree_alloc_ok new_addr sig_enum ev w = Some w' /\ inv false None [] [] w' /\ initialized w' = true.
Proof.
  intros Hev Hi Ho. destruct ev as [c|sig|id r|i user o|]; [ | | destruct (completion_ok id r w Hi Ho) as (w' & E & Hi' & Ho' & _); by exists w' | |done]; cbn [step].
  - by apply sig_user_call_ok.
  - pose proof (os_raise_ok sig (kernel (sigs w))) as Hk. eexists. split; [reflexivity|]. split; [|exact Ho].
    apply inv_sigs_set; [exact Hi | by apply signals_sys, Hk; [|apply (iv_sigs _ _ _ _ _ Hi)] | intros x; apply cleared_sys, Hk].
  - destruct (ready w !! i) as [r|] eqn:Er; [|by exists w]. apply sig_run_ready_ok; [exact Hi | | exact Ho].
    symmetry. by apply take_drop_middle.
Qed.

Lemma sig_events_ok evs : forall w,
  Forall (fun ev => ev <> Close) evs -> inv false None [] [] w -> initialized w = true ->
  exists w', run alloc_ok tree_alloc_ok new_addr sig_enum evs w = Some w' /\ inv false None [] [] w' /\ initialized w' = true.
Proof.
  induction evs as [|ev evs IH]; intros w Hev Hi Ho; cbn [run]; [by exists w|].
  apply Forall_cons in Hev as [He Hev]. destruct (sig_event_ok ev w He Hi Ho) as (w1 & -> & Hi1 & Ho1). by apply IH.
Qed.

(** The loop when it is made. *)
Lemma sig_init_ok p w :
  pool_ok p -> (forall id, pool_lookup id p = None) -> init alloc_ok tree_alloc_ok sig_enum k0 p = Some (w, true) ->
  inv false None [] [] w /\ initialized w = true.
Proof.
  intros Hp Hl E. unfold init in E. destruct (os_signalfd ∅ k0) as [k|] eqn:Ek; cbn [mbind option_bind] in E; [|done].
  unfold BTree.init in E. rewrite tree_allocations_succeed in E. cbn [mbind option_bind] in E.
  destruct (os_signalfd_ok _ _ _ Ek) as (F1 & F2 & F3). set (w0 := World _ _ _ _ _ _ _ _ _ _ _ _ _ _ _) in E.
  assert (Ha : forall x, action_ok k0 k ∅ ∅ x).
  { intros x. destruct (os_catchable x) eqn:Ec; [by apply ao_clear | by apply ao_uncatchable]. }
  assert (Hi : inv true None (held DefaultSigint ++ []) [] w0).
  { split; try done.
    - by intros q [= <-].
    - intros t [= <-]. split; [by left|]. split; [constructor | reflexivity].
    - split; [exact Ha | | | | | by constructor; [eapply actions_safe|constructor]].
      + by intros x [c Hc].
      + by intros x ?%elem_of_empty.
      + intros x [Hx _]%F1. by apply elem_of_empty in Hx.
      + by intros x [? ?].
    - by intros x [c Hc].
    - intros _ x. right. right. intros _ _. by split; [apply F3|].
    - by exists [].
    - by left.
    - by intros ?%elem_of_nil.
    - exists (Spec ∅ []). done. }
  destruct (link_ok true [] [] SIGINT DefaultSigint w0 Hi eq_refl eq_refl sigint_named) as (w1 & b & El & Hi1 & Ho1).
  rewrite El in E. cbn [mbind option_bind] in E. destruct b; [by injection E as <-|].
  destruct (deinit alloc_ok sig_enum w1) as [[? ?]|]; cbn [mbind option_bind] in E; [by injection E | done].
Qed.

(** *** The buffer of the reads

    Only the kernel writes it, when a read completes. *)

Ltac info_step :=
  match goal with
  | H : Some _ = Some _ |- _ => apply Some_inj in H; try subst
  | H : None = Some _ |- _ => discriminate H
  | H : (_, _) = (_, _) |- _ => apply pair_equal_spec in H as [? ?]; try subst
  | H : mbind _ ?x = Some _ |- _ => destruct x eqn:?; cbn [mbind option_bind] in H
  | H : fmap _ ?x = Some _ |- _ => destruct x eqn:?; cbn [fmap option_fmap option_map fst] in H
  | H : (if ?b then _ else _) = _ |- _ => destruct b eqn:?
  | H : match ?x with _ => _ end = _ |- _ => destruct x eqn:?
  | |- context [match ?x with _ => _ end] => destruct x eqn:?
  end.

(** The lemma for a call tells what the call left in the buffer. *)
Ltac info_by lem := repeat match goal with H : _ = _ |- _ => apply lem in H end.

Lemma info_alloc (w : world) b w' : alloc alloc_ok w = (b, w') -> info w' = info w.
Proof. unfold alloc. intros E. by repeat info_step. Qed.

Lemma info_refs c (w w' : world) :
  (incref c w = Some w' -> info w' = info w) /\ (decref c w = Some w' -> info w' = info w).
Proof. unfold incref, decref. split; intros E; by repeat info_step. Qed.

Lemma info_queue c (w : world) w' r : queue c w = Some (w', r) -> info w' = info w.
Proof. unfold queue. intros E. by repeat info_step. Qed.

Lemma info_cancel id (w : world) w' b : cancel_io id w = Some (w', b) -> info w' = info w.
Proof. unfold cancel_io. intros E. by repeat info_step. Qed.

Lemma info_dispatch r (w : world) w' b : dispatch alloc_ok r w = (w', b) -> info w' = info w.
Proof. unfold dispatch. intros E. repeat info_step; by info_by info_alloc. Qed.

Lemma info_dispatch_guaranteed r (w : world) w' b :
  dispatch_guaranteed alloc_ok r w = Some (w', b) -> info w' = info w.
Proof. unfold dispatch_guaranteed. intros E. repeat info_step. by info_by info_dispatch. Qed.

Lemma info_queue_read (w : world) w' b : queue_read w = Some (w', b) -> info w' = info w.
Proof. unfold queue_read. intros E. repeat info_step; by info_by info_queue. Qed.

Lemma info_enqueue cancel_old (w : world) w' b :
  enqueue_signal_fd cancel_old w = Some (w', b) -> info w' = info w.
Proof.
  unfold enqueue_signal_fd. intros E. repeat info_step; info_by info_queue_read; info_by info_cancel; congruence.
Qed.

Lemma info_link sig c (w : world) w' b :
  link alloc_ok tree_alloc_ok sig c w = Some (w', b) -> info w' = info w.
Proof.
  unfold link. cbn zeta. intros E. repeat info_step; info_by info_dispatch; info_by info_enqueue; cbn in *; congruence.
Qed.

Lemma info_unlink sig (w : world) w' r : unlink alloc_ok sig w = Some (w', r) -> info w' = info w.
Proof.
  unfold unlink. cbn zeta. intros E. repeat info_step; info_by info_dispatch_guaranteed; cbn in *; congruence.
Qed.

Lemma info_add sig fn (w : world) w' b :
  add_signal_handler alloc_ok tree_alloc_ok new_addr sig_enum sig fn w = Some (w', b) -> info w' = info w.
Proof.
  unfold add_signal_handler. cbn zeta. intros E.
  repeat info_step; info_by info_link; info_by info_refs; info_by info_alloc; cbn in *; congruence.
Qed.

Lemma info_remove sig (w : world) w' r :
  remove_signal_handler alloc_ok sig_enum sig w = Some (w', r) -> info w' = info w.
Proof. unfold remove_signal_handler. intros E. repeat info_step; by info_by info_unlink. Qed.

Lemma info_calls cs : forall (w : world) w',
  user_calls alloc_ok tree_alloc_ok new_addr sig_enum cs w = Some w' -> info w' = info w.
Proof.
  induction cs as [|c cs IH]; intros w w' E; cbn [user_calls] in E; [by injection E as ->|].
  destruct (user_call alloc_ok tree_alloc_ok new_addr sig_enum c w) as [w1|] eqn:E1; [|discriminate].
  rewrite (IH w1 w' E). destruct c; cbn [user_call] in E1.
  - destruct (add_signal_handler _ _ _ _ _ _ w) as [[w2 b]|] eqn:E2; [|discriminate]. injection E1 as ->. by apply info_add in E2.
  - destruct (remove_signal_handler _ _ _ w) as [[w2 b]|] eqn:E2; [|discriminate]. injection E1 as ->. by apply info_remove in E2.
  - destruct (queue _ w) as [[w2 b]|] eqn:E2; [|discriminate]. injection E1 as ->. by apply info_queue in E2.
Qed.

Lemma info_handler r (w : world) w' b : signal_handler alloc_ok r w = Some (w', b) -> info w' = info w.
Proof.
  unfold signal_handler. cbn zeta. intros E.
  repeat info_step; info_by info_queue_read; info_by info_dispatch; info_by info_refs; cbn in *; congruence.
Qed.

Lemma info_run_handler b c user o (w : world) w' :
  run_handler alloc_ok tree_alloc_ok new_addr sig_enum b c user o w = Some w' -> info w' = info w.
Proof.
  unfold run_handler. cbn zeta. intros E.
  repeat info_step; info_by info_calls; info_by info_refs; cbn in *; congruence.
Qed.

Lemma info_run_ready r b user o (w : world) w' :
  run_ready alloc_ok tree_alloc_ok new_addr sig_enum r b user o w = Some w' -> info w' = info w.
Proof.
  unfold run_ready. intros E.
  repeat info_step; info_by info_calls; info_by info_handler; info_by info_run_handler; congruence.
Qed.

(** An event that is no completed read and does not close the loop. *)
Definition silent (ev : event) : Prop :=
  match ev with Completion _ ReadOk | Close => False | _ => True end.

Lemma info_silent evs : forall (w : world) w',
  Forall silent evs -> run alloc_ok tree_alloc_ok new_addr sig_enum evs w = Some w' -> info w' = info w.
Proof.
  induction evs as [|ev evs IH]; intros w w' Hs E; cbn [run] in E; [by injection E as ->|].
  apply Forall_cons in Hs as [He Hs].
  destruct (step alloc_ok tree_alloc_ok new_addr sig_enum ev w) as [w1|] eqn:E1; [|discriminate].
  rewrite (IH w1 w' Hs E). clear IH E. destruct ev as [c|sig|id r|i user o|]; cbn [step] in E1; [| | | |destruct He].
  - apply (info_calls [c] w w1). cbn [user_calls]. by rewrite E1.
  - by injection E1 as <-.
  - unfold complete_read in E1. destruct r; [destruct He| | |]; repeat info_step; done.
  - destruct (ready w !! i); [by apply info_run_ready in E1 | by injection E1 as <-].
Qed.

(** Running the callback of a completed read. *)
Lemma read_callback_ok w i c :
  inv false None [] [] w -> initialized w = true ->
  ready w !! i = Some (SignalRead ReadOk) -> cb_map w !! info w = Some c ->
  exists w1, step alloc_ok tree_alloc_ok new_addr sig_enum (RunReady i [] Returned) w = Some w1
    /\ (failures w1 = 0 -> Handler false c ∈ ready w1 /\ armed w1).
Proof.
  intros Hi Ho Hr Hc. destruct (sig_event_ok (RunReady i [] Returned) w ltac:(done) Hi Ho) as (w1 & E1 & Hi1 & Ho1).
  exists w1. split; [exact E1|]. intros F1. destruct (iv_read _ _ _ _ _ Hi1 F1 Ho1) as [?|Ha]; [done|]. split; [|exact Ha].
  cbn [step] in E1. rewrite Hr in E1. cbn [run_ready] in E1.
  pose proof (eq_sym (take_drop_middle _ _ _ Hr)) as Hmid. pose proof (sig_inv_taken _ _ _ w Hi Hmid) as Hi2.
  destruct (signal_handler_ok ReadOk _ Hi2 Ho) as (w2 & b & E2 & _ & _ & Hd).
  { intros _. apply (iv_info _ _ _ _ _ Hi). by apply list_elem_of_lookup_2 in Hr. }
  rewrite E2 in E1. cbn [mbind option_bind] in E1. destruct b; injection E1 as <-; by apply Hd.
Qed.

(** A signal with a handler is sent to the process. *)
Lemma raised_signal_ok w x c :
  inv false None [] [] w -> initialized w = true -> failures w = 0 ->
  cb_map w !! x = Some c -> os_catchable x = true ->
  exists w1, step alloc_ok tree_alloc_ok new_addr sig_enum (Raise x) w = Some w1
    /\ x ∈ os_pending (kernel (sigs w1)) /\ x ∈ os_fd_mask (kernel (sigs w1))
    /\ ((exists id w2, flight (pool w1) id = Some SignalDone
            /\ step alloc_ok tree_alloc_ok new_addr sig_enum (Completion id ReadOk) w1 = Some w2
            /\ SignalRead ReadOk ∈ ready w2)
        \/ exists r, SignalRead r ∈ ready w1 /\ r <> ReadCancelled).
Proof.
  intros Hi Ho F Hx Hc.
  destruct (so_watched _ _ _ (iv_sigs _ _ _ _ _ Hi) x (ex_intro _ _ Hx)) as [_ W].
  destruct (W Hc) as (_ & W1 & W2 & _). destruct (os_raise_ok x (kernel (sigs w))) as (_ & _ & R).
  pose proof (os_raise_pending x _ W2) as Hq. destruct (sig_event_ok (Raise x) w ltac:(done) Hi Ho) as (w1 & E1 & Hi1 & Ho1).
  exists w1. split; [exact E1|]. cbn [step] in E1. injection E1 as <-. set (k := os_raise x (kernel (sigs w))) in *.
  split; [exact Hq|]. split; [cbn; by rewrite R|].
  destruct (iv_read _ _ _ _ _ Hi F Ho) as [?|[(id & G1 & G2 & G3)|G]]; [done | left | by right].
  destruct (os_read_some k x Hq) as [[s k2] Er]; [by rewrite R|].
  match type of Hi1 with inv _ _ _ _ ?v => destruct (completion_ok id ReadOk v Hi1 Ho1) as (w2 & E2 & _ & _ & E3) end.
  exists id, w2. split; [exact G2|]. split; [exact E2|]. rewrite (E3 SignalDone G2); [set_solver|].
  cbn. change (is_Some ('(s', k') ← os_read k; Some (w <| sigs := sys k' (sys k (sigs w)) |> <| info := s' |>))).
  rewrite Er. by eexists.
Qed.

(** The signal a read was given is the one its callback looks for, as long as no
    other read completes. *)
Lemma completed_read_ok w id x k :
  inv false None [] [] w -> initialized w = true ->
  flight (pool w) id = Some SignalDone -> os_read (kernel (sigs w)) = Some (x, k) ->
  x ∈ os_pending (kernel (sigs w)) /\ x ∈ os_fd_mask (kernel (sigs w))
  /\ exists w1, step alloc_ok tree_alloc_ok new_addr sig_enum (Completion id ReadOk) w = Some w1
     /\ SignalRead ReadOk ∈ ready w1
     /\ forall evs' w2 i c, Forall silent evs' ->
          run alloc_ok tree_alloc_ok new_addr sig_enum evs' w1 = Some w2 ->
          ready w2 !! i = Some (SignalRead ReadOk) -> cb_map w2 !! x = Some c ->
          exists w3, step alloc_ok tree_alloc_ok new_addr sig_enum (RunReady i [] Returned) w2 = Some w3
            /\ (failures w3 = 0 -> Handler false c ∈ ready w3 /\ armed w3).
Proof.
  intros Hi Ho Hid Hk. destruct (os_read_ok _ _ _ Hk) as (H1 & H2 & _).
  split; [exact H2|]. split; [exact H1|].
  destruct (completion_ok id ReadOk w Hi Ho) as (w1 & E1 & Hi1 & Ho1 & E3). exists w1. split; [exact E1|].
  assert (Hcr : complete_read SignalDone ReadOk id w = Some (w <| sigs := sys k (sigs w) |> <| info := x |>)).
  { unfold complete_read. by rewrite Hk. }
  split; [rewrite (E3 SignalDone Hid) by (rewrite Hcr; by eexists); set_solver|].
  assert (Hx : info w1 = x).
  { cbn [step] in E1. rewrite Hid in E1. cbn [mbind option_bind] in E1. rewrite Hcr in E1. cbn [mbind option_bind] in E1.
    by repeat info_step. }
  intros evs' w2 i c Hs E2 Hr Hc.
  assert (Hcl : Forall (fun ev => ev <> Close) evs') by (eapply Forall_impl; [exact Hs|]; intros [] ? ?; by simplify_eq).
  destruct (sig_events_ok evs' w1 Hcl Hi1 Ho1) as (w2' & E2' & Hi2 & Ho2).
  rewrite E2 in E2'. injection E2' as <-. apply read_callback_ok; try done.
  by rewrite (info_silent evs' w1 w2 Hs E2), Hx.
Qed.

Section Runs.
Variables (p : P) (w0 : world) (evs : list event).
Hypothesis pool_fresh : pool_ok p /\ forall id, pool_lookup id p = None.
Hypothesis made : init alloc_ok tree_alloc_ok sig_enum k0 p = Some (w0, true).
Hypothesis still_open : Forall (fun ev => ev <> Close) evs.

Lemma run_ok :
  exists w, run alloc_ok tree_alloc_ok new_addr sig_enum evs w0 = Some w /\ inv false None [] [] w /\ initialized w = true.
Proof. destruct pool_fresh as [Hp Hl]. destruct (sig_init_ok p w0 Hp Hl made). by apply sig_events_ok. Qed.

Lemma close_ok :
  exists w w', run alloc_ok tree_alloc_ok new_addr sig_enum evs w0 = Some w
    /\ step alloc_ok tree_alloc_ok new_addr sig_enum Close w = Some w' /\ closed w w'.
Proof.
  destruct run_ok as (w & E & Hi & Ho). destruct (sig_release_claimed_ok w Hi Ho) as (w' & E' & Hc).
  exists w, w'. split; [exact E|]. split; [|exact Hc]. cbn [step]. by rewrite Ho.
Qed.

(** C17: signal handling does not fault, provided the nodes of the tree can be
    allocated ([tree_allocations_succeed]; see [BTree.insertion_after_failure]), an
    operation that could not be queued leaves nothing in flight ([TaskPoolLaws]; a
    submission that fails late does, see [IoTasks.failed_submission_stays_queued])
    and the process does not use the dummy action itself ([own_dummy]).  (Besides,
    an allocated block is fresh, [SIG] names SIGINT, and the loop was made on an
    empty pool.)  Then under every sequence of registrations, removals, signals, completions and runs of
    callbacks, up to the closing of the loop, with other allocations, the queueing
    of operations and system calls that fail, no freed handle is used and no
    reference or reserved slot is given back twice; closing the loop then empties
    the tree and the ready queue, and if nothing failed every handle is freed. *)
Theorem signals_never_fault :
  exists w w', run alloc_ok tree_alloc_ok new_addr sig_enum evs w0 = Some w
    /\ step alloc_ok tree_alloc_ok new_addr sig_enum Close w = Some w'
    /\ callbacks w' = None /\ ready w' = [] /\ reserved w' = 0 /\ (failures w' = 0 -> handles w' = ∅).
Proof.
  destruct close_ok as (w & w' & E & E' & [Hi Ht Hr _ _ _ _]). exists w, w'. do 2 (split; [done|]). split; [exact Ht|]. split; [exact Hr|].
  assert (Em : cb_map w' = ∅) by (unfold cb_map; by rewrite Ht).
  split; [rewrite (iv_reserved _ _ _ _ _ Hi), Em; by apply map_size_empty|].
  intros F. destruct (iv_handles _ _ _ _ _ Hi) as (l & Hl & Hz). unfold holders in Hl. rewrite Em, Hr, (Hz F) in Hl.
  by apply counts_nil.
Qed.

(** C18: in every state the process goes through, a signal whose action is the dummy one
    is blocked, so none is thrown away; closing the loop unblocks the signals that
    have a handler and puts back the first action of every signal, if nothing
    failed or if that action was not the default one.  This holds for the signals that are not
    muted, and only signals whose first action was the default one are.  The
    provisos: the nodes of the tree can be allocated ([tree_allocations_succeed]),
    an operation that could not be queued leaves nothing in flight
    ([TaskPoolLaws]), and the dummy action is the loop's own: no signal has it
    before ([own_dummy]); besides, an allocated block is fresh, [SIG] names SIGINT,
    and the loop was made on an empty pool and is open until it is closed here. *)
Theorem actions_restored :
  exists w w', run alloc_ok tree_alloc_ok new_addr sig_enum evs w0 = Some w
    /\ step alloc_ok tree_alloc_ok new_addr sig_enum Close w = Some w'
    /\ Forall (safe (muted (sigs w'))) (history (sigs w'))
    /\ (forall x, registered w x -> os_blocked (kernel (sigs w')) x = false)
    /\ (forall x, os_catchable x = true -> x ∈ muted (sigs w') -> os_handler k0 x = SIG_DFL)
    /\ (forall x, x ∉ muted (sigs w') -> failures w' = 0 \/ os_handler k0 x <> SIG_DFL ->
         os_handler (kernel (sigs w')) x = os_handler k0 x).
Proof.
  destruct close_ok as (w & w' & E & E' & [Hi Ht _ _ _ Hp Hu]). exists w, w'. do 2 (split; [done|]).
  pose proof (iv_sigs _ _ _ _ _ Hi) as Hs. split; [exact (so_history _ _ _ Hs)|]. split; [exact Hu|].
  assert (Hn : forall x, ~ registered w' x) by (intros x [c Hc]; unfold cb_map in Hc; by rewrite Ht in Hc).
  split; intros x; destruct (so_action _ _ _ Hs x) as [? ?|? ? ? ?|? ? Hd ? Hh|? ? ? ? ?]; try done; try congruence.
  intros _ [F|Hne].
  - destruct (iv_clear _ _ _ _ _ Hi F x) as [?|[?|Hc]]; [done | by destruct (Hn x) | by apply Hc].
  - rewrite Hp in Hh. cbn in Hh. congruence.
Qed.

(** What the methods, the signal reader and the callbacks do is what the log of a
    map of registrations allows: a removal answers whether there was a handler, a
    signal that was read is delivered to the handler registered for it at that
    time, each delivery is called at most once, and nothing else is called; the
    tree holds that map. *)
Theorem signals_follow_registrations :
  exists w s, run alloc_ok tree_alloc_ok new_addr sig_enum evs w0 = Some w /\ replay (log w) (Spec ∅ []) = Some s
    /\ (forall x, s_reg s !! x = fn_of <$> cb_map w !! x)
    /\ concat (map due_of (ready w)) ⊆+ s_due s.
Proof.
  destruct run_ok as (w & E & Hi & Ho). destruct (iv_log _ _ _ _ _ Hi) as (s & L1 & L2 & L3). exists w, s. auto.
Qed.

(** C19: a signal with a handler arrives, as long as nothing failed, and provided
    the nodes of the tree can be allocated ([tree_allocations_succeed]), an
    operation that could not be queued leaves nothing in flight ([TaskPoolLaws])
    and the process does not use the dummy action itself ([own_dummy]); besides, an
    allocated block is fresh, [SIG] names SIGINT, and the loop was made on an empty
    pool and is open.
    - A signal that can be caught ([os_catchable]) and has a handler becomes, when
      it is sent to the process, pending for the descriptor, and a read of it is in
      flight, which can then complete, or has completed.
    - The kernel gives a read that completes a signal that was pending for the
      descriptor; and until another read completes, running the callback of a
      completed read makes the handler that this signal has then ready and arms a
      read again.
    - In any case the callback makes ready the handler of the signal that the one
      buffer of all reads holds when it runs: of two reads that complete together
      the first one's signal is lost (see [two_reads_lose_a_signal]). *)
Theorem registered_signals_arrive :
  exists w, run alloc_ok tree_alloc_ok new_addr sig_enum evs w0 = Some w /\ (failures w = 0 ->
    (forall x c, cb_map w !! x = Some c -> os_catchable x = true ->
       exists w1, step alloc_ok tree_alloc_ok new_addr sig_enum (Raise x) w = Some w1
       /\ x ∈ os_pending (kernel (sigs w1)) /\ x ∈ os_fd_mask (kernel (sigs w1))
       /\ ((exists id w2, flight (pool w1) id = Some SignalDone
               /\ step alloc_ok tree_alloc_ok new_addr sig_enum (Completion id ReadOk) w1 = Some w2
               /\ SignalRead ReadOk ∈ ready w2)
           \/ exists r, SignalRead r ∈ ready w1 /\ r <> ReadCancelled))
    /\ (forall id x k, flight (pool w) id = Some SignalDone -> os_read (kernel (sigs w)) = Some (x, k) ->
       x ∈ os_pending (kernel (sigs w)) /\ x ∈ os_fd_mask (kernel (sigs w))
       /\ exists w1, step alloc_ok tree_alloc_ok new_addr sig_enum (Completion id ReadOk) w = Some w1
          /\ SignalRead ReadOk ∈ ready w1
          /\ forall evs' w2 i c, Forall silent evs' ->
               run alloc_ok tree_alloc_ok new_addr sig_enum evs' w1 = Some w2 ->
               ready w2 !! i = Some (SignalRead ReadOk) -> cb_map w2 !! x = Some c ->
               exists w3, step alloc_ok tree_alloc_ok new_addr sig_enum (RunReady i [] Returned) w2 = Some w3
                 /\ (failures w3 = 0 -> Handler false c ∈ ready w3 /\ armed w3))
    /\ (forall i c, ready w !! i = Some (SignalRead ReadOk) -> cb_map w !! info w = Some c ->
       exists w1, step alloc_ok tree_alloc_ok new_addr sig_enum (RunReady i [] Returned) w = Some w1
       /\ (failures w1 = 0 -> Handler false c ∈ ready w1 /\ armed w1))).
Proof.
  destruct run_ok as (w & E & Hi & Ho). exists w. split; [exact E|]. intros F. split; [|split].
  - intros x c Hx Hc. by apply (raised_signal_ok w x c).
  - intros id x k Hid Hk. by apply (completed_read_ok w id x k).
  - intros i c Hr Hc. by apply read_callback_ok.
Qed.
End Runs.
End UnixSignalsProofs.

(** ** A process *)

(** [p_ran] are the signals whose action was run, or that did what they do by
    default. *)
Record process : Type := Process {
  p_blocked : gset Z;
  p_handlers : gmap Z handler;
  p_pending : gset Z;
  p_fd : gset Z;
  p_ran : list (Z * handler) }.

Definition catchable (s : Z) : bool := negb (s =? 9)%Z && negb (s =? 19)%Z.

Definition action (k : process) (s : Z) : handler := default SIG_DFL (p_handlers k !! s).

Definition caught (m : gset Z) : gset Z := m ∖ {[9%Z; 19%Z]}.

Lemma elem_of_caught s m : s ∈ caught m <-> s ∈ m /\ catchable s = true.
Proof.
  unfold caught, catchable. rewrite andb_true_iff, !negb_true_iff, !Z.eqb_neq. set_solver.
Qed.

#[export] Instance process_os : SignalOS process := {
  os_block m k := Process (p_blocked k ∪ caught m) (p_handlers k) (p_pending k) (p_fd k) (p_ran k);
  os_unblock m k := Process (p_blocked k ∖ m) (p_handlers k) (p_pending k) (p_fd k) (p_ran k);
  os_signal s h k :=
    if catchable s
    then (action k s, Process (p_blocked k) (<[s := h]> (p_handlers k))
                        (if decide (h = SIG_IGN) then p_pending k ∖ {[s]} else p_pending k) (p_fd k) (p_ran k))
    else (SIG_ERR, k);
  os_siginterrupt _ _ k := k;
  os_signalfd m k := Some (Process (p_blocked k) (p_handlers k) (p_pending k) (caught m) (p_ran k));
  os_read k :=
    match elements (p_pending k ∩ p_fd k) with
    | [] => None
    | s :: _ => Some (s, Process (p_blocked k) (p_handlers k) (p_pending k ∖ {[s]}) (p_fd k) (p_ran k))
    end;
  os_raise s k :=
    if bool_decide (s ∈ p_blocked k)
    then Process (p_blocked k) (p_handlers k) ({[s]} ∪ p_pending k) (p_fd k) (p_ran k)
    else Process (p_blocked k) (p_handlers k) (p_pending k) (p_fd k) (p_ran k ++ [(s, action k s)]);
  os_catchable := catchable;
  os_blocked k s := bool_decide (s ∈ p_blocked k);
  os_handler := action;
  os_fd_mask := p_fd;
  os_pending := p_pending }.

Lemma process_os_laws : SignalOSLaws process.
Proof.
  split.
  - intros m k. split; [|done]. intros s. cbn. apply eq_bool_prop_intro.
    rewrite orb_True, andb_True, !bool_decide_spec, elem_of_union, elem_of_caught, Is_true_true. tauto.
  - intros m k. split; [|done]. intros s. cbn. apply eq_bool_prop_intro.
    rewrite andb_True, negb_True, !bool_decide_spec, elem_of_difference. tauto.
  - intros s h k Hc Hh. change (catchable s = true) in Hc. cbn. rewrite Hc. cbn. split; [done|]. split; [|done].
    intros t. unfold action. cbn. destruct (decide (t = s)) as [->|Hne]; [by rewrite lookup_insert_eq | by rewrite lookup_insert_ne].
  - intros s h k Hc. change (catchable s = false) in Hc. cbn. by rewrite Hc.
  - done.
  - intros m k k' [= <-]. split; [|done]. intros s. apply elem_of_caught.
  - intros k s k'. cbn. destruct (elements (p_pending k ∩ p_fd k)) as [|s' l] eqn:E; [done|]. intros [= <- <-].
    assert (Hin : s' ∈ p_pending k ∩ p_fd k) by (apply elem_of_elements; rewrite E; left).
    apply elem_of_intersection in Hin as [H1 H2]. split; [exact H2|]. split; [exact H1|]. done.
  - intros k s Hp Hf. cbn. destruct (elements (p_pending k ∩ p_fd k)) as [|s' l] eqn:E; [|eauto].
    exfalso. assert (Hin : s ∈ elements (p_pending k ∩ p_fd k)) by (apply elem_of_elements; set_solver).
    rewrite E in Hin. by apply elem_of_nil in Hin.
  - intros s k. cbn. destruct (bool_decide (s ∈ p_blocked k)); done.
  - intros s k E. cbn in *. rewrite E. cbn. set_solver.
Qed.

Definition all_ok (_ : nat) : bool := true.

(** Python's process: SIGINT has a handler, SIGPIPE is ignored. *)
Definition python_process : process :=
  Process ∅ {[2%Z := Foreign 0; 13%Z := SIG_IGN]} ∅ ∅ [].

Definition sample_pool (io_alloc : nat -> bool) : TaskPool (io (C := task_callback)) task_callback :=
  io_pool (C := task_callback) 4 io_alloc all_ok sample_addr.

Definition sample_init (io_alloc : nat -> bool) : option (world (K := process) (P := io (C := task_callback)) * bool) :=
  init (H0 := sample_pool io_alloc) all_ok all_ok (fun _ => true) python_process (IoTasks.init sample_addr).

(** A loop on a queue with sets of four slots. *)
Definition sample_run (io_alloc : nat -> bool) (evs : list event) : option (world (K := process) (P := io (C := task_callback))) :=
  '(w, _) ← sample_init io_alloc;
  run (H0 := sample_pool io_alloc) all_ok all_ok sample_addr (fun _ => true) evs w.

Lemma python_process_own x :
  os_handler python_process x <> Dummy /\ os_handler python_process x <> SIG_ERR.
Proof.
  cbn. unfold action. cbn. destruct (decide (x = 2%Z)) as [->|H2]; [by vm_compute|].
  rewrite lookup_insert_ne by done. destruct (decide (x = 13%Z)) as [->|H13]; [by vm_compute|].
  by rewrite lookup_singleton_ne.
Qed.

(** Two handlers, a signal for one of them that is called, a replacement, a removal
    and a signal whose handler raises and makes calls. *)
Definition sample_events : list event :=
  [UserCall (AddSignal 10 (Some 100)); UserCall (AddSignal 12 (Some 101));
   Completion (1, 0) ReadCancelled; Completion (1, 1) ReadCancelled; RunReady 0 [] Returned; RunReady 0 [] Returned;
   Raise 10; Completion (1, 2) ReadOk; RunReady 0 [] Returned; RunReady 0 [AddSignal 12 (Some 102)] Returned;
   UserCall (RemoveSignal 10); UserCall (RemoveSignal 40); UserCall (AddSignal 65 (Some 103));
   Raise 12; Completion (1, 0) ReadOk; RunReady 2 [] Returned; RunReady 2 [RemoveSignal 12] (Raised [RemoveSignal 12])].

Lemma sig_sample_log :
  log <$> sample_run all_ok sample_events
  = Some [Added 2 None; Added 10 (Some 100); Added 12 (Some 101); Delivered 10 (Some 100); Called (Some 100);
          Added 12 (Some 102); Removed 10 true; Removed 40 false; Delivered 12 (Some 102); Called (Some 102);
          Removed 12 true; Removed 12 false].
Proof. by vm_compute. Qed.

Definition sample_io : io (C := task_callback) := IoTasks.init sample_addr.

Local Notation sample_loop := (init (H0 := sample_pool all_ok) all_ok all_ok (fun _ => true) python_process sample_io).

Lemma sample_made : exists w0, sample_loop = Some (w0, true).
Proof.
  destruct sample_loop as [[w0 [|]]|] eqn:E; [by exists w0 | exfalso; by vm_compute in E | exfalso; by vm_compute in E].
Qed.

Lemma sample_open : Forall (fun ev => ev <> Close) sample_events.
Proof. repeat constructor; discriminate. Qed.

Lemma sample_fresh :
  let tp := sample_pool all_ok in
  @pool_ok _ _ tp sample_io /\ forall id, @pool_lookup _ _ tp id sample_io = None.
Proof. split; [apply io_init_ok; lia | by intros [[|[|i]] j]]. Qed.

Lemma sample_pool_laws : @TaskPoolLaws (io (C := task_callback)) task_callback (sample_pool all_ok).
Proof. apply io_pool_laws; [lia | reflexivity | exact sample_addr_fresh]. Qed.

Local Notation sample_step := (step (H0 := sample_pool all_ok) all_ok all_ok sample_addr (fun _ => true)).
Local Notation sample_events_run := (run (H0 := sample_pool all_ok) all_ok all_ok sample_addr (fun _ => true) sample_events).

Lemma signals_never_fault_witness :
  exists w0, sample_loop = Some (w0, true) /\ exists w w', sample_events_run w0 = Some w /\ sample_step Close w = Some w'
    /\ callbacks w' = None /\ ready w' = [] /\ reserved w' = 0 /\ (failures w' = 0 -> handles w' = ∅).
Proof.
  destruct sample_made as [w0 E]. exists w0. split; [exact E|].
  exact (@signals_never_fault process io process_os process_os_laws (sample_pool all_ok) sample_pool_laws all_ok all_ok sample_addr (fun _ => true)
    (fun _ => eq_refl) sample_addr_fresh eq_refl python_process python_process_own sample_io w0 sample_events sample_fresh E sample_open).
Defined.

Lemma actions_restored_witness :
  exists w0, sample_loop = Some (w0, true) /\ exists w w', sample_events_run w0 = Some w /\ sample_step Close w = Some w'
    /\ Forall (safe (muted (sigs w'))) (history (sigs w'))
    /\ (forall x, registered w x -> os_blocked (kernel (sigs w')) x = false)
    /\ (forall x, os_catchable x = true -> x ∈ muted (sigs w') -> os_handler python_process x = SIG_DFL)
    /\ (forall x, x ∉ muted (sigs w') -> failures w' = 0 \/ os_handler python_process x <> SIG_DFL ->
         os_handler (kernel (sigs w')) x = os_handler python_process x).
Proof.
  destruct sample_made as [w0 E]. exists w0. split; [exact E|].
  exact (@actions_restored process io process_os process_os_laws (sample_pool all_ok) sample_pool_laws all_ok all_ok sample_addr (fun _ => true)
    (fun _ => eq_refl) sample_addr_fresh eq_refl python_process python_process_own sample_io w0 sample_events sample_fresh E sample_open).
Defined.

Lemma signals_follow_registrations_witness :
  exists w0, sample_loop = Some (w0, true) /\ exists w s, sample_events_run w0 = Some w /\ replay (log w) (Spec ∅ []) = Some s
    /\ (forall x, s_reg s !! x = fn_of <$> cb_map w !! x)
    /\ concat (map due_of (ready w)) ⊆+ s_due s.
Proof.
  destruct sample_made as [w0 E]. exists w0. split; [exact E|].
  exact (@signals_follow_registrations process io process_os process_os_laws (sample_pool all_ok) sample_pool_laws all_ok all_ok sample_addr (fun _ => true)
    (fun _ => eq_refl) sample_addr_fresh eq_refl python_process python_process_own sample_io w0 sample_events sample_fresh E sample_open).
Defined.

Lemma registered_signals_arrive_witness :
  exists w0, sample_loop = Some (w0, true) /\ exists w, sample_events_run w0 = Some w /\ (failures w = 0 ->
    (forall x c, cb_map w !! x = Some c -> os_catchable x = true ->
       exists w1, sample_step (Raise x) w = Some w1
       /\ x ∈ os_pending (kernel (sigs w1)) /\ x ∈ os_fd_mask (kernel (sigs w1))
       /\ ((exists id w2, flight (H0 := sample_pool all_ok) (pool w1) id = Some SignalDone
               /\ sample_step (Completion id ReadOk) w1 = Some w2 /\ SignalRead ReadOk ∈ ready w2)
           \/ exists r, SignalRead r ∈ ready w1 /\ r <> ReadCancelled))
    /\ (forall id x k, flight (H0 := sample_pool all_ok) (pool w) id = Some SignalDone ->
       os_read (kernel (sigs w)) = Some (x, k) ->
       x ∈ os_pending (kernel (sigs w)) /\ x ∈ os_fd_mask (kernel (sigs w))
       /\ exists w1, sample_step (Completion id ReadOk) w = Some w1 /\ SignalRead ReadOk ∈ ready w1
          /\ forall evs' w2 i c, Forall silent evs' ->
               run (H0 := sample_pool all_ok) all_ok all_ok sample_addr (fun _ => true) evs' w1 = Some w2 ->
               ready w2 !! i = Some (SignalRead ReadOk) -> cb_map w2 !! x = Some c ->
               exists w3, sample_step (RunReady i [] Returned) w2 = Some w3
                 /\ (failures w3 = 0 -> Handler false c ∈ ready w3 /\ armed (TP := sample_pool all_ok) w3))
    /\ (forall i c, ready w !! i = Some (SignalRead ReadOk) -> cb_map w !! info w = Some c ->
       exists w1, sample_step (RunReady i [] Returned) w = Some w1
       /\ (failures w1 = 0 -> Handler false c ∈ ready w1 /\ armed (TP := sample_pool all_ok) w1))).
Proof.
  destruct sample_made as [w0 E]. exists w0. split; [exact E|].
  exact (@registered_signals_arrive process io process_os process_os_laws (sample_pool all_ok) sample_pool_laws all_ok all_ok sample_addr (fun _ => true)
    (fun _ => eq_refl) sample_addr_fresh eq_refl python_process python_process_own sample_io w0 sample_events sample_fresh E sample_open).
Defined.

(** *** What goes wrong *)

Definition ran_and_action (sig : Z) (w : world (K := process) (P := io (C := task_callback))) : list (Z * handler) * handler :=
  (p_ran (kernel (sigs w)), action (kernel (sigs w)) sig).

(** The default action is a null pointer, which [prev_handlers] takes for no record:
    a second handler for the same signal records the dummy action as the previous
    one, removing the handler puts it back, and the signal is thrown away from then
    on, also once the loop is closed. *)
Lemma readded_signal_is_muted :
  let evs := [UserCall (AddSignal 15 (Some 100)); UserCall (AddSignal 15 (Some 101)); UserCall (RemoveSignal 15)] in
  ran_and_action 15 <$> sample_run all_ok (evs ++ [Close; Raise 15]) = Some ([(15%Z, Dummy)], Dummy)
  /\ ran_and_action 15 <$> sample_run all_ok [UserCall (AddSignal 15 (Some 100)); UserCall (RemoveSignal 15); Close; Raise 15]
     = Some ([(15%Z, SIG_DFL)], SIG_DFL).
Proof. split; by vm_compute. Qed.

(** A read has completed and its callback has not run when a handler is added: the
    addition starts a second read, the callback a third one, and two reads into the
    one buffer go on for ever.  When they complete together, one signal is lost and
    the other delivered twice. *)
Lemma two_reads_lose_a_signal :
  log <$> sample_run all_ok
    [UserCall (AddSignal 10 (Some 100)); Completion (1, 0) ReadCancelled; RunReady 0 [] Returned;
     Raise 10; Completion (1, 1) ReadOk; UserCall (AddSignal 12 (Some 101));
     RunReady 0 [] Returned; RunReady 0 [] Returned;
     Raise 10; Raise 12; Completion (1, 1) ReadOk; Completion (1, 0) ReadOk;
     RunReady 0 [] Returned; RunReady 0 [] Returned]
  = Some [Added 2 None; Added 10 (Some 100); Added 12 (Some 101); Delivered 10 (Some 100); Called (Some 100);
          Delivered 12 (Some 101); Delivered 12 (Some 101)].
Proof. by vm_compute. Qed.

(** [remove_signal_handler] does not look whether the loop is closed: it searches the
    tree that closing freed.  [add_signal_handler] does look. *)
Lemma closed_removal_faults :
  sample_run all_ok [Close; UserCall (RemoveSignal 15)] = None
  /\ is_Some (sample_run all_ok [Close; UserCall (AddSignal 15 (Some 100))]).
Proof. split; [by vm_compute | eexists; by vm_compute]. Qed.

(** When the read cannot be queued [add_signal_handler] raises and leaves the signal
    blocked, its action the dummy one: it is read and dropped, and closing the loop
    does not put its action back. *)
Lemma failed_addition_swallows :
  let evs := [UserCall (OtherOperation 1); UserCall (OtherOperation 2); UserCall (OtherOperation 3); UserCall (AddSignal 15 (Some 100));
              Raise 15; Completion (1, 0) ReadOk; RunReady 0 [] Returned] in
  log <$> sample_run (fun _ => false) evs = Some [Added 2 None]
  /\ (w ← sample_run (fun _ => false) (evs ++ [Close]); Some (ran_and_action 15 w, elements (p_blocked (kernel (sigs w)))))
     = Some (([], Dummy), [15%Z]).
Proof. split; by vm_compute. Qed.

(** Between the harvest of a completed read, which frees its slot, and the run of its
    callback, the loop keeps the id of the read: an operation that took the slot is
    cancelled when a handler is added. *)
Lemma addition_cancels_another_operation :
  (w ← sample_run all_ok [Raise 2; Completion (1, 0) ReadOk; UserCall (OtherOperation 7); UserCall (AddSignal 15 (Some 100))];
   p ← pool w; Some (elements (cancelling w), lookup_task (1, 0) p))
  = Some ([(1, 0)], Some (OtherTask 7)).
Proof. by vm_compute. Qed.

(** The failure of [signal] is not looked at: a handler for SIGKILL is accepted. *)
Lemma uncatchable_signal_accepted :
  (w ← sample_run all_ok [UserCall (AddSignal 9 (Some 100)); Raise 9]; Some (log w, ran_and_action 9 w))
  = Some ([Added 2 None; Added 9 (Some 100)], ([(9%Z, SIG_DFL)], SIG_DFL)).
Proof. by vm_compute. Qed.
