(* ===== verification/Datagram.v ===== *)
(** * Datagram transports (src/src/transports/datagram)

    [DatagramTransportObject]: one [recvmsg] in flight that queues itself again, a
    [sendmsg] per datagram, the watermarks and [connection_lost].  The kernel
    completes the operations; the loop runs their callbacks later, and in between
    any other code may run.  [None] is a fault: a use of memory that was freed or a
    reference count below zero.  Allocations are named by their number, so a stale
    pointer is never mistaken for a new one.  The blocking tasks are any [TaskPool].
    [failures] and [log] are not in the code: they record what happened. *)

From stdpp Require Import base numbers list gmap.
From Stdlib Require Import Lia Strings.Byte.
From S2P Require Import Prelude IpAddress IoTasks.

Open Scope nat_scope.

(** ** Data *)

(** The callback of a blocking task: [read_completed] and [sendto_completed] with the
    allocation of their [ReadData] or [SendToData], or another component's. *)
Inductive task_callback : Type :=
| ReadCompleted (rd : nat)
| SendCompleted (sd : nat)
| OtherTask (n : nat).

(** What an allocation holds: [rd.addr] as the kernel wrote it, or [sd.buf] and
    [sd.address]. *)
Inductive allocation : Type :=
| ReadData (addr : option Address)
| SendToData (buf : bytes) (address : option Address).

(** How an operation completes; a datagram counts for a read only. *)
Inductive io_result : Type :=
| Success (d : bytes) (addr : option Address)
| Failure (errno : nat).

(** A callback in the ready queues with what [CallbackData] tells it: the number of
    bytes, or the error.  [LostHandle] is the handle of [call_soon]. *)
Inductive ready_callback : Type :=
| ReadReady (rd : nat) (res : nat + nat)
| SendReady (sd : nat) (res : nat + nat)
| LostHandle
| OtherReady (n : nat).

(** What can be seen from outside. *)
Inductive observation : Type :=
| Queued (d : bytes) (address : option Address)
| Arrived (d : bytes) (addr : option Address)
| DatagramReceived (d : bytes) (addr : option Address)
| ErrorReceived (errno : nat)
| PauseWriting
| ResumeWriting
| ConnectionMade
| ConnectionLost
| Cancelled (c : option task_callback)
| FdClosed.

(** The address argument of [sendto]: none, one that [fromPyAddr] converts, or one it
    refuses. *)
Inductive addr_arg : Type := NoAddr | Addr (a : Address) | BadAddr.

(** What Python code may do: the methods of the transport, taking and dropping a
    reference to it, and operations of other components. *)
Inductive call : Type :=
| SendTo (d : bytes) (a : addr_arg)
| Close
| SetWriteBufferLimits (high : N) (low : option N)
| Keep
| Drop
| OtherOperation (n : nat).

(** How Python code that was called behaves: the calls it makes, each with the
    behaviour of the protocol method it causes to be called, and whether it raises. *)
Inductive response : Type :=
| Response (calls : list (call * response)) (raised : bool).

(** [maxInt(usize) / 2]. *)
Definition max_mark : N := (2 ^ 63 - 1)%N.

Definition size_of (d : bytes) : N := N.of_nat (length d).

Section Datagram.
Context {P : Type} `{TaskPool P task_callback}.

(** [DatagramTransportObject] with [fd >= 0] as [fd_open], what it points to and its
    surroundings: [held] are the references of Python code, [pool] the tasks of the
    loop until it is closed. *)
Record world : Type := World {
  fd_open : bool;
  buffer_size : N;
  writing_high_water_mark : N;
  writing_low_water_mark : N;
  is_writing : bool;
  closed : bool;
  read_task_id : option task_id;
  fixed_file : bool;
  buffer : bytes;
  refs : nat;
  held : nat;
  live : gmap nat allocation;
  allocs : nat;
  pool : option P;
  ready : list ready_callback;
  failures : nat;
  log : list observation }.

#[export] Instance eta_dgram : Eta world := fun w =>
  World (fd_open w) (buffer_size w) (writing_high_water_mark w) (writing_low_water_mark w)
    (is_writing w) (closed w) (read_task_id w) (fixed_file w) (buffer w) (refs w) (held w) (live w)
    (allocs w) (pool w) (ready w) (failures w) (log w).

Open Scope py_scope.

(** The allocations that succeed, and those of the fixed file table. *)
Variables (alloc_ok fixed_ok : nat -> bool).

Definition observe (o : observation) (w : world) : world := w <| log := log w ++ [o] |>.

Definition failed (w : world) : world := w <| failures := S (failures w) |>.

Definition alloc (w : world) : world * bool :=
  let w' := w <| allocs := S (allocs w) |> in
  if alloc_ok (allocs w) then (w', true) else (failed w', false).

(** [datagram_dealloc]. *)
Definition dealloc (w : world) : world :=
  let w := w <| fixed_file := false |> <| buffer := [] |> in
  let w := if fd_open w then observe FdClosed (w <| fd_open := false |>) else w in
  w <| closed := true |>.

Definition incref (w : world) : option world :=
  match refs w with 0 => None | n => Some (w <| refs := S n |>) end.

Definition decref (w : world) : option world :=
  match refs w with
  | 0 => None
  | 1 => Some (dealloc (w <| refs := 0 |>))
  | S n => Some (w <| refs := n |>)
  end.

(** [io.queue]. *)
Definition queue (c : task_callback) (w : world) : option (world * option task_id) :=
  match pool w with
  | None => Some (failed w, None)
  | Some p =>
      '(p, r) ← pool_queue c p;
      let w := w <| pool := Some p |> in
      Some (match r with Some _ => w | None => failed w end, r)
  end.

(** A protocol method; building its arguments may fail. *)
Definition upcall (o : observation) (k : world -> option (world * bool)) (w : world) : option (world * bool) :=
  let '(w, ok) := alloc w in
  if ok then
    '(w, ok) ← k (observe o w);
    Some (if ok : bool then w else failed w, ok)
  else Some (w, false).

(** ** Reading (read.zig) *)

Definition queue_read (w : world) : option (world * bool) :=
  if closed w || negb (fd_open w) then Some (w, true)
  else
    let rd := allocs w in
    let '(w, ok) := alloc w in
    if ok then
      '(w, r) ← queue (ReadCompleted rd) w;
      match r with
      | None => Some (w, false)
      | Some id =>
          w ← incref (w <| live := <[rd := ReadData None]> (live w) |> <| read_task_id := Some id |>);
          Some (w, true)
      end
    else Some (w, false).

Definition release_old_read (rd : nat) (w : world) : option world :=
  _ ← live w !! rd;
  w ← decref w;
  Some (w <| live := base.delete rd (live w) |>).

Definition cleanup_read (rd : nat) (w : world) : option world :=
  release_old_read rd (w <| read_task_id := None |>).

(** [k] is what the protocol does; [false]: it returned an error. *)
Definition read_completed (cancelled : bool) (rd : nat) (res : nat + nat)
    (k : world -> option (world * bool)) (w : world) : option (world * bool) :=
  d ← live w !! rd;
  if cancelled || closed w then w ← cleanup_read rd w; Some (w, true)
  else
    let w := w <| read_task_id := None |> in
    '(w, ok) ← match res, d with
               | inr e, _ => upcall (ErrorReceived e) k w
               | inl 0, _ => Some (w, true)
               | inl n, ReadData addr => upcall (DatagramReceived (take n (buffer w)) addr) k w
               | inl _, SendToData _ _ => None
               end;
    if ok : bool then
      '(w, ok) ← queue_read w;
      if ok : bool then w ← release_old_read rd w; Some (w, true)
      else Some (w, false)
    else Some (w, false).

(** ** Writing (write.zig) *)

Definition cleanup_sendto (sd : nat) (w : world) : option world :=
  _ ← live w !! sd;
  w ← decref w;
  Some (w <| live := base.delete sd (live w) |>).

(** The deferred release of the reserved bytes. *)
Definition release_bytes (n : N) (w : world) : world :=
  w <| buffer_size := (buffer_size w - N.min (buffer_size w) n)%N |>.

Definition sendto_completed (cancelled : bool) (sd : nat) (res : nat + nat)
    (k : world -> option (world * bool)) (w : world) : option (world * bool) :=
  d ← live w !! sd;
  match d with
  | ReadData _ => None
  | SendToData buf _ =>
      '(w, ok) ← if cancelled || closed w then Some (w, true)
                 else match res with
                      | inr e => upcall (ErrorReceived e) k w
                      | inl _ =>
                          if negb (is_writing w) && (buffer_size w <=? writing_low_water_mark w)%N
                          then upcall ResumeWriting k (w <| is_writing := true |>)
                          else Some (w, true)
                      end;
      let w := release_bytes (size_of buf) w in
      if ok : bool then w ← cleanup_sendto sd w; Some (w, true)
      else Some (w, false)
  end.

Definition buffer_watermark_check (len : N) (k : world -> option (world * bool)) (w : world) : option (world * bool) :=
  let w := w <| buffer_size := (buffer_size w + len)%N |> in
  if (writing_high_water_mark w <? buffer_size w)%N && is_writing w
  then upcall PauseWriting k (w <| is_writing := false |>)
  else Some (w, true).

(** [z_datagram_sendto]; [false]: it raised. *)
Definition sendto (d : bytes) (a : addr_arg) (k : world -> option (world * bool)) (w : world) : option (world * bool) :=
  if closed w then Some (w, false)
  else if length d =? 0 then Some (w, true)
  else
    let '(w, ok) := alloc w in
    if negb ok then Some (w, false)
    else
      let sd := allocs w in
      let '(w, ok) := alloc w in
      if negb ok then Some (w, false)
      else match a with
           | BadAddr => Some (w, false)
           | _ =>
               let address := match a with Addr x => Some x | _ => None end in
               '(w, r) ← queue (SendCompleted sd) w;
               match r with
               | None => Some (w, false)
               | Some _ =>
                   w ← incref (w <| live := <[sd := SendToData d address]> (live w) |>);
                   buffer_watermark_check (size_of d) k (observe (Queued d address) w)
               end
           end.

(** [z_datagram_set_write_buffer_limits]. *)
Definition set_write_buffer_limits (high : N) (low : option N) (w : world) : world :=
  w <| writing_high_water_mark := high |>
    <| writing_low_water_mark := N.min (match low with Some l => l | None => high / 4 end)%N high |>.

(** ** Closing (main.zig) *)

Definition flight (po : option P) (id : task_id) : option task_callback := p ← po; pool_lookup id p.

(** [CancelIO]; an error is only logged.  [CancelByFd] changes nothing but how the
    operations on the socket complete. *)
Definition cancel_io (id : task_id) (w : world) : option world :=
  match pool w with
  | None => Some w
  | Some p =>
      '(p', _) ← pool_cancel id p;
      Some (observe (Cancelled (pool_lookup id p)) (w <| pool := Some p' |>))
  end.

(** At a closed loop [connection_lost] is called at once; [k] is what it and, if it
    raises, the exception handler do. *)
Definition schedule_datagram_connection_lost (k : world -> option (world * bool)) (w : world) : option world :=
  match pool w with
  | None => '(w, _) ← k (observe ConnectionLost w); Some w
  | Some _ =>
      let '(w, ok) := alloc w in
      Some (if ok then w <| ready := ready w ++ [LostHandle] |> else w)
  end.

Definition datagram_close (k : world -> option (world * bool)) (w : world) : option world :=
  if closed w then Some w
  else
    let w := w <| closed := true |> in
    w ← match pool w with
        | None => Some w
        | Some _ =>
            w ← match read_task_id w with Some id => cancel_io id w | None => Some w end;
            Some (w <| fixed_file := false |>)
        end;
    let w := if fd_open w then observe FdClosed (w <| fd_open := false |>) else w in
    schedule_datagram_connection_lost k w.

(** ** Python code *)

(** A call; nobody has a transport that was freed. *)
Definition user_call (c : call) (k : world -> option (world * bool)) (w : world) : option world :=
  match refs w with
  | 0 => match c with OtherOperation n => fst <$> queue (OtherTask n) w | _ => Some w end
  | _ =>
      match c with
      | SendTo d a => fst <$> sendto d a k w
      | Close => datagram_close k w
      | SetWriteBufferLimits high low => Some (set_write_buffer_limits high low w)
      | Keep => w ← incref w; Some (w <| held := S (held w) |>)
      | Drop => match held w with 0 => Some w | S n => decref (w <| held := n |>) end
      | OtherOperation n => fst <$> queue (OtherTask n) w
      end
  end.

Fixpoint respond (r : response) (w : world) : option (world * bool) :=
  match r with
  | Response calls raised =>
      (fix respond_calls (cs : list (call * response)) (w : world) : option (world * bool) :=
         match cs with
         | [] => Some (w, negb raised)
         | (c, r) :: cs => w ← user_call c (respond r) w; respond_calls cs w
         end) calls w
  end.

(** ** Making an endpoint *)

(** [new_datagram_transport] on a new socket, for a protocol of the right type, with
    the reference of its creator. *)
Definition new_transport (p : P) : world :=
  World true 0%N max_mark max_mark true false None (fixed_ok 0) [] 1 0 ∅ 0 (Some p) [] 0 [].

(** The end of [z_create_endpoint]; the tuple of the result holds a reference. *)
Definition create_endpoint (r : response) (p : P) : option (world * bool) :=
  '(w, ok) ← upcall ConnectionMade (respond r) (new_transport p);
  '(w, ok) ← if ok : bool then queue_read w else Some (w, false);
  w ← if ok : bool then w ← incref w; Some (w <| held := S (held w) |>) else Some w;
  w ← decref w;
  Some (w, ok).

(** ** The loop *)

(** A callback and, when it returns an error, the exception handler and the cleanup. *)
Definition run_ready (cancelled : bool) (c : ready_callback) (r handler : response) (w : world) : option world :=
  match c with
  | ReadReady rd res =>
      '(w, ok) ← read_completed cancelled rd res (respond r) w;
      if ok : bool then Some w else '(w, _) ← respond handler w; cleanup_read rd w
  | SendReady sd res =>
      '(w, ok) ← sendto_completed cancelled sd res (respond r) w;
      if ok : bool then Some w else '(w, _) ← respond handler w; cleanup_sendto sd w
  | LostHandle =>
      if cancelled then Some w
      else
        '(w, ok) ← respond r (observe ConnectionLost w);
        if ok : bool then Some w else '(w, _) ← respond handler w; Some w
  | OtherReady _ => if cancelled then Some w else '(w, _) ← respond r w; Some w
  end.

Definition ready_of (res : nat + nat) (c : task_callback) : ready_callback :=
  match c with
  | ReadCompleted rd => ReadReady rd res
  | SendCompleted sd => SendReady sd res
  | OtherTask n => OtherReady n
  end.

(** [release_dynamic_ring_buffer]: all that is ready runs with its cancellation set. *)
Fixpoint release_all (cs : list ready_callback) (w : world) : option world :=
  match cs with
  | [] => Some w
  | c :: cs => w ← run_ready true c (Response [] false) (Response [] false) (w <| ready := cs |>); release_all cs w
  end.

Definition close_loop (w : world) : option world :=
  match pool w with
  | None => Some w
  | Some p =>
      w ← release_all (ready w) w;
      let cs := map (ready_of (inl 0)) (pool_deinit p) in
      release_all cs (w <| pool := None |> <| ready := cs |>)
  end.

Definition max_dgram : nat := 65536.

(** The kernel writes into [rd.addr] and the buffer of the transport, both of which
    must still be there. *)
Definition complete_op (c : task_callback) (res : io_result) (w : world) : option (world * (nat + nat)) :=
  match c, res with
  | ReadCompleted rd, Success d addr =>
      match live w !! rd, refs w with
      | Some (ReadData _), S _ =>
          Some (observe (Arrived d addr)
                  (w <| live := <[rd := ReadData addr]> (live w) |> <| buffer := d ++ drop (length d) (buffer w) |>), inl (length d))
      | _, _ => None
      end
  | SendCompleted sd, Success d _ =>
      match live w !! sd with Some (SendToData buf _) => Some (w, inl (length buf)) | _ => None end
  | _, Success _ _ => Some (w, inl 0)
  | _, Failure e => Some (w, inr e)
  end.

Inductive event : Type :=
| UserCall (c : call) (r : response)
| Completion (id : task_id) (res : io_result)
| RunReady (i : nat) (r handler : response)
| CloseLoop.

(** The completion of an operation that is not in flight or with more bytes than the
    buffer has, and the run of a callback that is not ready, are no events. *)
Definition step (ev : event) (w : world) : option world :=
  match ev with
  | UserCall c r => user_call c (respond r) w
  | Completion id res =>
      match flight (pool w) id with
      | None => Some w
      | Some c =>
          if match res with Success d _ => max_dgram <? length d | Failure _ => false end then Some w
          else
            '(w, n) ← complete_op c res w;
            p ← pool w;
            '(_, p) ← pool_complete id p;
            Some (w <| pool := Some p |> <| ready := ready w ++ [ready_of n c] |>)
      end
  | RunReady i r handler =>
      match ready w !! i with
      | None => Some w
      | Some c => run_ready false c r handler (w <| ready := take i (ready w) ++ drop (S i) (ready w) |>)
      end
  | CloseLoop => close_loop w
  end.

Fixpoint run (evs : list event) (w : world) : option world :=
  match evs with [] => Some w | ev :: evs => w ← step ev w; run evs w end.

End Datagram.

(** ** What the log tells *)

(** The datagrams that are not empty. *)
Definition arrived (os : list observation) : list (bytes * option Address) :=
  omap (fun o => match o with Arrived (b :: d) a => Some (b :: d, a) | _ => None end) os.

Definition delivered (os : list observation) : list (bytes * option Address) :=
  omap (fun o => match o with DatagramReceived d a => Some (d, a) | _ => None end) os.

Definition is_lost (o : observation) : bool := match o with ConnectionLost => true | _ => false end.

Definition lost (os : list observation) : nat := length (filter (fun o => is_lost o = true) os).

Definition is_handle (c : ready_callback) : bool := match c with LostHandle => true | _ => false end.

Definition losing (cs : list ready_callback) : nat := length (filter (fun c => is_handle c = true) cs).

(** Whether the protocol may write after these calls, which alternate. *)
Fixpoint flow (os : list observation) (writing : bool) : option bool :=
  match os with
  | [] => Some writing
  | PauseWriting :: os => if writing then flow os false else None
  | ResumeWriting :: os => if writing then None else flow os true
  | _ :: os => flow os writing
  end.

#[local] Arguments arrived : simpl never.
#[local] Arguments delivered : simpl never.
#[local] Arguments lost : simpl never.
#[local] Arguments losing : simpl never.
#[local] Arguments flow : simpl never.

Lemma arrived_app a b : arrived (a ++ b) = arrived a ++ arrived b.
Proof. apply omap_app. Qed.

Lemma delivered_app a b : delivered (a ++ b) = delivered a ++ delivered b.
Proof. apply omap_app. Qed.

Lemma lost_app a b : lost (a ++ b) = lost a + lost b.
Proof. unfold lost. by rewrite filter_app, length_app. Qed.

Lemma losing_app a b : losing (a ++ b) = losing a + losing b.
Proof. unfold losing. by rewrite filter_app, length_app. Qed.

Lemma flow_app a b x : flow (a ++ b) x = y ← flow a x; flow b y.
Proof.
  revert x. induction a as [|o a IH]; intros x; [done|].
  change ((o :: a) ++ b) with (o :: (a ++ b)). unfold flow; fold flow. destruct o, x; auto.
Qed.

(** ** The invariant *)

Definition name_of (c : task_callback) : option nat :=
  match c with ReadCompleted n | SendCompleted n => Some n | OtherTask _ => None end.

Definition ready_name (c : ready_callback) : option nat :=
  match c with ReadReady n _ | SendReady n _ => Some n | _ => None end.

(** A callback and the allocation it is for. *)
Definition kind_ok (c : task_callback) (a : allocation) : Prop :=
  match c, a with ReadCompleted _, ReadData _ | SendCompleted _, SendToData (_ :: _) _ => True | _, _ => False end.

Definition ready_kind_ok (c : ready_callback) (a : allocation) : Prop :=
  match c, a with ReadReady _ _, ReadData _ | SendReady _ _, SendToData (_ :: _) _ => True | _, _ => False end.

Definition is_read (a : allocation) : bool := match a with ReadData _ => true | _ => false end.

Definition held_bytes (a : allocation) : N := match a with SendToData b _ => size_of b | ReadData _ => 0%N end.

Definition bytes_of (m : gmap nat allocation) : N := map_fold (fun _ a n => (held_bytes a + n)%N) 0%N m.

Lemma bytes_of_insert m n a : m !! n = None -> bytes_of (<[n := a]> m) = (held_bytes a + bytes_of m)%N.
Proof. intros Hn. unfold bytes_of. apply (map_fold_insert_L (fun _ a n => (held_bytes a + n)%N) 0%N n a m); [intros; lia | exact Hn]. Qed.

Lemma bytes_of_delete m n a : m !! n = Some a -> bytes_of m = (held_bytes a + bytes_of (base.delete n m))%N.
Proof. intros Hn. rewrite <- (insert_delete_id m n a Hn) at 1. apply bytes_of_insert, lookup_delete_eq. Qed.

(** The life of an endpoint: before its first read, on a loop, and on one that is
    being closed or is closed. *)
Inductive phase : Type := Creating | Running | Releasing.

Section DatagramProofs.
Context {P : Type} `{TL : TaskPoolLaws P task_callback}.
Variables (alloc_ok fixed_ok : nat -> bool).

Notation world := (world (P := P)).

Definition reading (w : world) (n : nat) : Prop := exists addr, live w !! n = Some (ReadData addr).

(** The allocations whose callbacks are ready or being run. *)
Definition waiting (hand : list nat) (w : world) : list nat := omap ready_name (ready w) ++ hand.

(** Every allocation has one operation in flight or one callback. *)
Definition placed (hand : list nat) (w : world) (fl : gmap nat task_id) : Prop :=
  (forall n id, fl !! n = Some id <-> exists c, flight (pool w) id = Some c /\ name_of c = Some n)
  /\ NoDup (waiting hand w)
  /\ forall n, is_Some (live w !! n) /\ fl !! n = None <-> n ∈ waiting hand w.

(** What arrived and was not delivered: nothing, the datagram of a callback that is
    ready, or one that was given up with the read. *)
Definition rest_ok (hand : list nat) (w : world) (rest : list (bytes * option Address)) : Prop :=
  (rest = [] /\ forall rd n, ReadReady rd (inl (S n)) ∉ ready w)
  \/ (exists b d a rd, rest = [(b :: d, a)] /\ ReadReady rd (inl (S (length d))) ∈ ready w
        /\ take (S (length d)) (buffer w) = b :: d /\ live w !! rd = Some (ReadData a))
  \/ (exists x, rest = [x] /\ forall rd, reading w rd -> rd ∈ hand).

(** [ex] references, the allocations [hand] and [out] bytes are in the hands of the
    code. *)
Record inv (ph : phase) (ex : nat) (hand : list nat) (out : N) (rest : list (bytes * option Address)) (w : world) : Prop := {
  iv_refs : refs w = held w + ex + size (live w);
  iv_closed : closed w = negb (fd_open w);
  iv_freed : refs w = 0 -> closed w = true;
  iv_names n : is_Some (live w !! n) -> n < allocs w;
  iv_pool p : pool w = Some p -> pool_ok p;
  iv_placed : exists fl, placed hand w fl /\ forall n, is_Some (fl !! n) -> is_Some (live w !! n);
  iv_task id c n a : flight (pool w) id = Some c -> name_of c = Some n -> live w !! n = Some a -> kind_ok c a;
  iv_ready c n a : c ∈ ready w -> ready_name c = Some n -> live w !! n = Some a -> ready_kind_ok c a;
  iv_read n m : reading w n -> reading w m -> n = m;
  iv_bytes : (buffer_size w + out)%N = bytes_of (live w);
  iv_data : arrived (log w) = delivered (log w) ++ rest;
  iv_rest : rest_ok hand w rest;
  iv_armed : ph = Running -> failures w = 0 -> closed w = false -> exists n, reading w n;
  iv_lost : lost (log w) + losing (ready w) <= if closed w then 1 else 0;
  iv_told : ph <> Releasing -> failures w = 0 -> closed w = true ->
    lost (log w) + losing (ready w) = 1;
  iv_flow : failures w = 0 -> flow (log w) true = Some (is_writing w);
  iv_phase : pool w = None -> ph = Releasing;
  iv_creating : ph = Creating -> ex <> 0 }.

(** Outside the allocations in hand, what Python code leaves alone. *)
Definition frame (hand : list nat) (w w' : world) : Prop :=
  (forall n, n ∈ hand -> live w' !! n = live w !! n) /\ (pool w = None -> pool w' = None /\ ready w' = ready w)
  /\ failures w <= failures w' /\ (closed w = true -> closed w' = true)
  /\ forall n, reading w' n -> reading w n.

#[local] Instance frame_preorder hand : PreOrder (frame hand).
Proof.
  split.
  - intros w. by repeat split.
  - intros w1 w2 w3 (A1 & A2 & A3 & A4 & A5) (B1 & B2 & B3 & B4 & B5). split; [|split; [|split; [lia | auto]]].
    + intros n Hn. by rewrite B1, A1.
    + intros Hp. destruct (A2 Hp) as [Hp' E]. destruct (B2 Hp') as [? E']. split; [done | by rewrite E', E].
Qed.

Lemma frame_same hand w w' :
  live w' = live w -> (pool w = None -> pool w' = None /\ ready w' = ready w) -> failures w <= failures w' ->
  closed w' = closed w -> frame hand w w'.
Proof. intros E1 E2 E3 E4. split; [intros n _; by rewrite E1|]. split; [exact E2|]. split; [exact E3|]. split; [by rewrite E4|]. intros n [a Ha]. rewrite E1 in Ha. by exists a. Qed.

(** What is asked of code that is called back. *)
Definition good (k : world -> option (world * bool)) : Prop :=
  forall ph ex hand out rest w, inv ph ex hand out rest w ->
    exists w' b, k w = Some (w', b) /\ inv ph ex hand out rest w' /\ frame hand w w'.

Lemma inv_alloc_to ph ex hand out rest w a f :
  inv ph ex hand out rest w -> allocs w <= a -> failures w <= f ->
  inv ph ex hand out rest (w <| allocs := a |> <| failures := f |>).
Proof.
  intros [H1 H2 H3 H4 H5 H6 H7 H8 H9 H10 H11 H12 H13 H14 H15 H16 H17 H18] Ha Hf. split; try done.
  - intros n Hn. specialize (H4 n Hn). cbn. lia.
  - intros Hp Hz. apply H13; [exact Hp|]. cbn in Hz. lia.
  - intros Hp Hz. apply H15; [exact Hp|]. cbn in Hz. lia.
  - intros Hz. apply H16. cbn in Hz. lia.
Qed.

Lemma alloc_fields (w : world) :
  (alloc alloc_ok w).1 = w <| allocs := S (allocs w) |> <| failures := if alloc_ok (allocs w) then failures w else S (failures w) |>
  /\ (alloc alloc_ok w).2 = alloc_ok (allocs w).
Proof. unfold alloc. destruct w; cbn. by destruct (alloc_ok _). Qed.

Lemma alloc_inv ph ex hand out rest w :
  inv ph ex hand out rest w ->
  exists w' b, alloc alloc_ok w = (w', b) /\ inv ph ex hand out rest w' /\ frame hand w w'
    /\ (b = false -> failures w' <> 0) /\ live w' = live w /\ allocs w' = S (allocs w) /\ (forall n, n < allocs w -> n < allocs w')
    /\ w' = w <| allocs := allocs w' |> <| failures := failures w' |>.
Proof.
  intros Hi. destruct (alloc_fields w) as [E1 E2]. destruct (alloc alloc_ok w) as [w' b]. cbn in E1, E2. exists w', b.
  split; [done|]. rewrite E1, E2. clear E1 E2 w' b.
  split; [apply inv_alloc_to; [exact Hi | lia | destruct (alloc_ok _); lia]|].
  split; [repeat split; try done; cbn; destruct (alloc_ok _); lia|].
  split; [intros E; cbn; by rewrite E|]. split; [done|]. split; [done|]. split; [cbn; lia | done].
Qed.

Lemma failed_inv ph ex hand out rest w : inv ph ex hand out rest w -> inv ph ex hand out rest (failed w).
Proof. intros Hi. pose proof (inv_alloc_to _ _ _ _ _ _ (allocs w) (S (failures w)) Hi ltac:(lia) ltac:(lia)). by destruct w. Qed.

(** Observations that the invariant does not look at. *)
Definition silent (o : observation) : bool :=
  match o with Arrived _ _ | DatagramReceived _ _ | PauseWriting | ResumeWriting | ConnectionLost => false | _ => true end.

Lemma observe_inv ph ex hand out rest o w :
  inv ph ex hand out rest w -> silent o = true -> inv ph ex hand out rest (observe o w).
Proof.
  intros [H1 H2 H3 H4 H5 H6 H7 H8 H9 H10 H11 H12 H13 H14 H15 H16 H17 H18] Ho.
  assert (El : lost (log w ++ [o]) = lost (log w)) by (rewrite lost_app; destruct o; cbn; try done; lia).
  split; try done; cbn [log observe]; unfold observe; cbn.
  - rewrite arrived_app, delivered_app. destruct o; try done; by rewrite !app_nil_r.
  - by rewrite El.
  - by rewrite El.
  - intros Hz. rewrite flow_app, (H16 Hz). by destruct o.
Qed.

Lemma inv_phase ph ph' ex hand out rest w :
  inv ph ex hand out rest w -> (ph' = Running -> failures w = 0 -> closed w = false -> exists n, reading w n) ->
  (ph' <> Releasing -> ph <> Releasing) -> (pool w = None -> ph' = Releasing) -> (ph' = Creating -> ex <> 0) ->
  inv ph' ex hand out rest w.
Proof. intros [H1 H2 H3 H4 H5 H6 H7 H8 H9 H10 H11 H12 H13 H14 H15 H16 H17 H18] Ha Hb Hc Hd. split; auto. Qed.

(** Nothing of the transport changes in the pool. *)
Lemma inv_pool_to ph ex hand out rest w p' :
  inv ph ex hand out rest w -> pool_ok p' -> is_Some (pool w) ->
  (forall n id, (exists c, flight (Some p') id = Some c /\ name_of c = Some n) <-> (exists c, flight (pool w) id = Some c /\ name_of c = Some n)) ->
  (forall id c n, flight (Some p') id = Some c -> name_of c = Some n -> flight (pool w) id = Some c) ->
  inv ph ex hand out rest (w <| pool := Some p' |>).
Proof.
  intros [H1 H2 H3 H4 H5 (fl & (F1 & F2 & F3) & F4) H7 H8 H9 H10 H11 H12 H13 H14 H15 H16 H17 H18] Hp [p Ep] Hf Hc.
  split; try done.
  - by intros q [= <-].
  - exists fl. split; [|exact F4]. split; [|by split]. intros n id. rewrite F1. symmetry. apply Hf.
  - intros id c n a G1 G2. cbn in G1. eapply H7; [eapply Hc|]; eauto.
Qed.

Lemma queue_other ph ex hand out rest n w :
  inv ph ex hand out rest w ->
  exists w' r, queue (OtherTask n) w = Some (w', r) /\ inv ph ex hand out rest w' /\ frame hand w w'.
Proof.
  intros Hi. unfold queue. destruct (pool w) as [p|] eqn:Ep.
  2:{ eexists _, _. split; [done|]. split; [by apply failed_inv|]. apply frame_same; cbn; rewrite ?Ep; done || lia. }
  destruct (pool_queue_ok (OtherTask n) p (iv_pool _ _ _ _ _ _ Hi p Ep)) as (p' & r & -> & Hp & Hr). cbn [mbind option_bind].
  assert (Hi' : inv ph ex hand out rest (w <| pool := Some p' |>)).
  { assert (Hf : forall id c m, name_of c = Some m -> flight (Some p') id = Some c <-> flight (Some p) id = Some c).
    { intros id c m Hm. cbn. destruct r as [j|]; [|by rewrite Hr]. destruct Hr as [E1 E2]. rewrite E2.
      destruct (decide (id = j)) as [->|]; [|done]. rewrite E1. split; [intros [= <-]; done | done]. }
    apply inv_pool_to; rewrite ?Ep; try done.
    - intros m id. split; intros (c & G1 & G2); exists c; (split; [|exact G2]); by apply (Hf id c m G2).
    - intros id c m G1 G2. by apply (Hf id c m G2). }
  eexists _, _. split; [done|]. destruct r as [j|].
  - split; [exact Hi'|]. apply frame_same; cbn; rewrite ?Ep; done || lia.
  - split; [by apply failed_inv|]. apply frame_same; cbn; rewrite ?Ep; done || lia.
Qed.

Lemma cancel_io_inv ph ex hand out rest id w :
  inv ph ex hand out rest w -> exists w', cancel_io id w = Some w' /\ inv ph ex hand out rest w'
    /\ exists po lg, w' = w <| pool := po |> <| log := lg |> /\ (po = None <-> pool w = None)
         /\ lost lg = lost (log w).
Proof.
  intros Hi. unfold cancel_io. destruct (pool w) as [p|] eqn:Ep.
  2:{ exists w. split; [done|]. split; [done|]. exists (pool w), (log w). split; [by destruct w|]. by rewrite Ep. }
  destruct (pool_cancel_ok id p (iv_pool _ _ _ _ _ _ Hi p Ep)) as (p' & b & -> & Hp & Hr). cbn [mbind option_bind].
  eexists. split; [done|]. split.
  - apply observe_inv; [|done]. apply inv_pool_to; rewrite ?Ep; try done.
    + intros n j. by cbn; rewrite Hr.
    + intros j c n. by cbn; rewrite Hr.
  - exists (Some p'), (log w ++ [Cancelled (pool_lookup id p)]). split; [by destruct w|]. split; [done|].
    rewrite lost_app. change (lost [Cancelled (pool_lookup id p)]) with 0. cbn. lia.
Qed.

(** An operation was queued. *)
Definition queued (c : task_callback) (id : task_id) (w : world) (p' : P) : Prop :=
  exists p, pool w = Some p /\ pool_ok p' /\ pool_lookup id p = None
    /\ forall j, pool_lookup j p' = if decide (j = id) then Some c else pool_lookup j p.

Lemma queue_cases ph ex hand out rest c w :
  inv ph ex hand out rest w ->
  (exists w', queue c w = Some (w', None) /\ inv ph ex hand out rest w' /\ frame hand w w' /\ failures w' <> 0 /\ live w' = live w)
  \/ exists p' id, queue c w = Some (w <| pool := Some p' |>, Some id) /\ queued c id w p'.
Proof.
  intros Hi. unfold queue. destruct (pool w) as [p|] eqn:Ep.
  2:{ left. eexists. split; [done|]. split; [by apply failed_inv|]. split; [|done]. apply frame_same; cbn; rewrite ?Ep; done || lia. }
  destruct (pool_queue_ok c p (iv_pool _ _ _ _ _ _ Hi p Ep)) as (p' & r & -> & Hp & Hq). cbn [mbind option_bind].
  destruct r as [id|].
  - right. exists p', id. split; [done|]. destruct Hq as [Q1 Q2]. by exists p.
  - left. eexists. split; [done|]. split.
    + apply failed_inv, inv_pool_to; rewrite ?Ep; try done; [intros m j; by cbn; rewrite Hq | intros j c' m; by cbn; rewrite Hq].
    + split; [|done]. apply frame_same; cbn; rewrite ?Ep; done || lia.
Qed.

(** The operation of an allocation is in flight. *)
Lemma placed_launch hand w fl n a c id p' :
  placed hand w fl -> (forall m, is_Some (fl !! m) -> is_Some (live w !! m)) -> queued c id w p' ->
  live w !! n = None -> name_of c = Some n ->
  let w' := w <| pool := Some p' |> <| live := <[n := a]> (live w) |> in
  placed hand w' (<[n := id]> fl) /\ forall m, is_Some (<[n := id]> fl !! m) -> is_Some (live w' !! m).
Proof.
  intros (F1 & F2 & F3) F4 (p & Ep & _ & Q1 & Q2) Hn Hc w'.
  assert (Hno : forall j c', flight (pool w) j = Some c' -> name_of c' <> Some n).
  { intros j c' G1 G2. assert (E : fl !! n = Some j) by (apply F1; by exists c'). destruct (F4 n (ex_intro _ _ E)) as [b Hb]. congruence. }
  rewrite Ep in F1, Hno. split.
  2:{ intros m. cbn. destruct (decide (m = n)) as [->|Hm]; [rewrite !lookup_insert_eq; intros _; by eexists|]. rewrite !lookup_insert_ne by done. apply F4. }
  split; [|split; [exact F2|]].
  - intros m j. cbn. rewrite Q2. destruct (decide (m = n)) as [->|Hm].
    + rewrite lookup_insert_eq. destruct (decide (j = id)) as [->|Hj]; [split; [intros _; by exists c | done]|].
      split; [intros [= ->]; done|]. intros (c' & G1 & G2). by destruct (Hno j c').
    + rewrite lookup_insert_ne, F1 by done. cbn. destruct (decide (j = id)) as [->|Hj]; [|done].
      rewrite Q1. split; [by intros (? & ? & _)|]. intros (c' & [= <-] & G2). congruence.
  - intros m. change (is_Some (<[n := a]> (live w) !! m) /\ <[n := id]> fl !! m = None <-> m ∈ waiting hand w).
    destruct (decide (m = n)) as [->|Hm].
    + rewrite !lookup_insert_eq. split; [by intros [_ ?] | intros [[b Hb] _]%F3; congruence].
    + rewrite !lookup_insert_ne by done. apply F3.
Qed.

(** An operation of the transport is queued with its allocation. *)
Lemma launch ph ex hand out rest w n a c id p' :
  inv ph ex hand out rest w -> queued c id w p' -> live w !! n = None -> n < allocs w -> name_of c = Some n -> kind_ok c a ->
  (is_read a = true -> rest = [] /\ forall m, ~ reading w m) -> refs w <> 0 ->
  inv ph ex hand (out + held_bytes a)%N rest (w <| pool := Some p' |> <| live := <[n := a]> (live w) |> <| refs := S (refs w) |>).
Proof.
  intros Hi Hqd Hn Ha Hc Hk Hr Hz. pose proof Hqd as (p & Ep & Hp & Q1 & Q2).
  destruct Hi as [H1 H2 H3 H4 H5 (fl & F & F4) H7 H8 H9 H10 H11 H12 H13 H14 H15 H16 H17 H18].
  pose proof (placed_launch hand w fl n a c id p' F F4 Hqd Hn Hc) as HF. destruct F as (F1 & F2 & F3).
  assert (Hlk : forall m b, <[n := a]> (live w) !! m = Some b -> m = n /\ b = a \/ m <> n /\ live w !! m = Some b).
  { intros m b Hm. apply lookup_insert_Some in Hm. naive_solver. }
  assert (Hrd : forall m, reading (w <| live := <[n := a]> (live w) |>) m -> m = n /\ is_read a = true \/ m <> n /\ reading w m).
  { intros m [ad G]. apply Hlk in G as [[-> <-]|[G1 G2]]; [by left|]. right. split; [done | by exists ad]. }
  split; try done; cbn.
  - rewrite map_size_insert_None by done. lia.
  - intros m [b Hb]. apply Hlk in Hb as [[-> _]|[_ Hb]]; [done | apply H4; by exists b].
  - by intros q [= <-].
  - by exists (<[n := id]> fl).
  - intros j c' m b G1 G2 G3. rewrite Q2 in G1. destruct (decide (j = id)) as [->|Hj].
    + injection G1 as <-. rewrite Hc in G2. injection G2 as <-. by apply Hlk in G3 as [[_ ->]|[? _]].
    + assert (Hfj : flight (pool w) j = Some c') by by rewrite Ep.
      apply Hlk in G3 as [[-> _]|[_ G3]]; [|by eapply H7].
      assert (E : fl !! n = Some j) by (apply F1; by exists c'). destruct (F4 n (ex_intro _ _ E)) as [b' Hb]. congruence.
  - intros c' m b G1 G2 G3. apply Hlk in G3 as [[-> _]|[_ G3]]; [|by eapply H8].
    assert (Hw : n ∈ waiting hand w) by (unfold waiting; apply elem_of_app; left; apply list_elem_of_omap; by exists c').
    apply F3 in Hw as [[b' Hb] _]. congruence.
  - intros m1 m2 G1 G2. apply Hrd in G1 as [[-> E1]|[_ G1]], G2 as [[-> E2]|[_ G2]]; [done| | |by apply H9].
    + by destruct (proj2 (Hr E1) m2).
    + by destruct (proj2 (Hr E2) m1).
  - rewrite bytes_of_insert by done. lia.
  - destruct H12 as [C1|[(b & d & ad & rd & C1 & C2 & C3 & C4)|(x & C1 & C2)]]; [by left| |].
    + right. left. exists b, d, ad, rd. split; [exact C1|]. split; [exact C2|]. split; [exact C3|]. cbn.
      rewrite lookup_insert_ne; [exact C4 | intros ->; congruence].
    + right. right. exists x. split; [exact C1|]. intros rd G. apply Hrd in G as [[_ E]|[_ G]]; [|auto].
      destruct (Hr E) as [Hno _]. congruence.
  - intros Q3 Q4 Q5. destruct (H13 Q3 Q4 Q5) as [m [ad G]]. exists m, ad. cbn. rewrite lookup_insert_ne; [exact G | intros ->; congruence].
Qed.

(** A reference in hand is given up. *)
Lemma dg_decref_ok ph ex hand out rest w :
  inv ph (S ex) hand out rest w -> (ph = Creating -> ex <> 0) ->
  exists w', decref w = Some w' /\ inv ph ex hand out rest w' /\ frame hand w w' /\ live w' = live w.
Proof.
  intros Hi Hc. unfold decref. pose proof (iv_refs _ _ _ _ _ _ Hi) as Er.
  destruct Hi as [H1 H2 H3 H4 H5 H6 H7 H8 H9 H10 H11 H12 H13 H14 H15 H16 H17 H18].
  destruct (refs w) as [|[|n]] eqn:E; [lia| |].
  2:{ eexists. split; [done|]. split; [|split; [by apply frame_same; cbn | done]]. split; try done; cbn; lia. }
  assert (El : live w = ∅) by (apply map_size_empty_inv; lia).
  eexists. split; [done|]. unfold dealloc. cbn.
  assert (Hn : forall n, ~ reading w n) by (intros n [a G]; by rewrite El in G).
  set (w1 := w <| refs := 0 |> <| fixed_file := false |> <| buffer := [] |>).
  assert (Hi1 : forall lg, arrived lg = arrived (log w) -> delivered lg = delivered (log w) -> lost lg = lost (log w) ->
    flow lg true = flow (log w) true ->
    inv ph ex hand out rest (w1 <| fd_open := false |> <| log := lg |> <| closed := true |>)).
  { intros lg L1 L2 L3 L4. split; try done; cbn; rewrite ?L1, ?L2, ?L3, ?L4; try done.
    - lia.
    - destruct H12 as [C1|[(b & d & a & rd & _ & _ & _ & C4)|(x & C1 & C2)]]; [by left| |by right; right; exists x].
      by rewrite El in C4.
    - destruct (closed w); lia.
    - intros Q1 Q2 _. destruct (closed w) eqn:Ec; [by apply H15|]. destruct ph; [destruct (Hc eq_refl); lia | | done].
      destruct (H13 eq_refl Q2 eq_refl) as [m Hm]. by destruct (Hn m). }
  assert (Hf : forall lg, frame hand w (w1 <| fd_open := false |> <| log := lg |> <| closed := true |>)) by (intros lg; repeat split; cbn; auto; lia).
  destruct (fd_open w) eqn:Ef.
  - split; [|split; [exact (Hf (log w ++ [FdClosed])) | done]]. apply (Hi1 (log w ++ [FdClosed])).
    + by rewrite arrived_app, app_nil_r.
    + by rewrite delivered_app, app_nil_r.
    + rewrite lost_app. change (lost [FdClosed]) with 0. lia.
    + rewrite flow_app. by destruct (flow (log w) true).
  - pose proof (Hi1 (log w) eq_refl eq_refl eq_refl eq_refl) as Hi2. pose proof (Hf (log w)) as Hf2.
    replace (w1 <| fd_open := false |> <| log := log w |> <| closed := true |>) with (w1 <| closed := true |>) in Hi2, Hf2
      by (unfold w1; clear -Ef; destruct w; cbn in *; by rewrite Ef).
    by split.
Qed.

(** The allocation of a callback that was run is destroyed. *)
Lemma inv_forget ph ph' ex rd hand out rest w a :
  inv ph ex (rd :: hand) (held_bytes a + out)%N rest w -> live w !! rd = Some a ->
  ph' = ph \/ ph = Running /\ ph' = Creating ->
  (ph' = Running -> failures w = 0 -> closed w = false -> exists n, n <> rd /\ reading w n) ->
  inv ph' (S ex) hand out rest (w <| live := base.delete rd (live w) |>).
Proof.
  intros [H1 H2 H3 H4 H5 (fl & (F1 & F2 & F3) & F4) H7 H8 H9 H10 H11 H12 H13 H14 H15 H16 H17 H18] El Hph Ha.
  assert (Hperm : waiting (rd :: hand) w ≡ₚ rd :: waiting hand w) by (unfold waiting; by rewrite Permutation_middle).
  rewrite Hperm in F2. apply NoDup_cons in F2 as [Hrd F2].
  assert (Hlk : forall m b, base.delete rd (live w) !! m = Some b -> m <> rd /\ live w !! m = Some b).
  { intros m b Hm. apply lookup_delete_Some in Hm as [? ?]. auto. }
  split; try done; cbn.
  - rewrite map_size_delete_Some by eauto. assert (size (live w) <> 0) by (intros E%map_size_empty_inv; by rewrite E in El). lia.
  - intros m [b Hm]. apply H4. exists b. by apply Hlk.
  - assert (Hfl : fl !! rd = None) by (apply F3; rewrite Hperm; by left).
    exists fl. split.
    2:{ intros m Hm. rewrite lookup_delete_ne; [by apply F4|]. intros ->. rewrite Hfl in Hm. by destruct Hm. }
    split; [exact F1|]. split; [exact F2|]. intros m.
    change (is_Some (base.delete rd (live w) !! m) /\ fl !! m = None <-> m ∈ waiting hand w).
    destruct (decide (m = rd)) as [->|Hne].
    + rewrite lookup_delete_eq. split; [by intros [[? ?] _] | done].
    + rewrite lookup_delete_ne, F3, Hperm, elem_of_cons by done. tauto.
  - intros id c n b G1 G2 G3. eapply H7; [exact G1 | exact G2 | by apply Hlk].
  - intros c n b G1 G2 G3. eapply H8; [exact G1 | exact G2 | by apply Hlk].
  - intros n m [b G1] [b' G2]. apply Hlk in G1, G2. apply H9; [exists b | exists b']; tauto.
  - rewrite (bytes_of_delete _ _ _ El) in H10. lia.
  - destruct H12 as [C1|[(b & d & ad & n & C1 & C2 & C3 & C4)|(x & C1 & C2)]]; [by left| |].
    + right. left. exists b, d, ad, n. split; [exact C1|]. split; [exact C2|]. split; [exact C3|]. cbn.
      rewrite lookup_delete_ne; [exact C4|]. intros ->. apply Hrd. unfold waiting. apply elem_of_app. left.
      apply list_elem_of_omap. by exists (ReadReady n (inl (S (length d)))).
    + right. right. exists x. split; [exact C1|]. intros m [b Hm]. apply Hlk in Hm. destruct Hm as [Hne Hm].
      specialize (C2 m (ex_intro _ b Hm)). apply elem_of_cons in C2 as [?|?]; done.
  - intros Q1 Q2 Q3. destruct (Ha Q1 Q2 Q3) as (n & Hne & [b Hn]). exists n, b. cbn. by rewrite lookup_delete_ne.
  - intros Q1. apply H15. naive_solver.
  - intros Q1. specialize (H17 Q1). naive_solver.
Qed.

Lemma decref_live (w : world) m : decref (w <| live := m |>) = (fun w => w <| live := m |>) <$> decref w.
Proof.
  unfold decref. change (refs (w <| live := m |>)) with (refs w). destruct (refs w) as [|[|n]]; [done| |done].
  cbn. unfold dealloc. cbn. by destruct (fd_open w).
Qed.

Lemma release_ok ph ex rd hand out rest w a :
  inv ph ex (rd :: hand) (held_bytes a + out)%N rest w -> live w !! rd = Some a ->
  (ph = Running -> failures w = 0 -> closed w = false -> exists n, n <> rd /\ reading w n) ->
  exists w', (w ← decref w; Some (w <| live := base.delete rd (live w) |>)) = Some w'
    /\ inv ph ex hand out rest w' /\ frame hand w w'.
Proof.
  intros Hi El Ha. pose proof (inv_forget _ _ _ _ _ _ _ _ _ Hi El (or_introl eq_refl) Ha) as Hi'.
  destruct (dg_decref_ok _ _ _ _ _ _ Hi' (iv_creating _ _ _ _ _ _ Hi)) as (w' & E & Hi2 & Hf & L).
  rewrite decref_live in E. destruct (decref w) as [w2|] eqn:E2; cbn in E; [|done]. injection E as <-. cbn in L.
  assert (L2 : live w2 = live w).
  { unfold decref in E2. destruct (refs w) as [|[|n]]; [done| |]; injection E2 as <-; [unfold dealloc; cbn; by destruct (fd_open w) | done]. }
  exists (w2 <| live := base.delete rd (live w) |>). cbn [mbind option_bind]. rewrite L2. split; [done|]. split; [exact Hi2|].
  destruct Hf as (G1 & G2 & G3 & G4 & _). split; [|split; [done|]; split; [done|]; split; [done|]].
  2:{ intros n [b Hb]. cbn in Hb. apply lookup_delete_Some in Hb as [_ Hb]. by exists b. }
  intros n Hn. cbn. rewrite lookup_delete_ne; [done|].
  intros ->. destruct (iv_placed _ _ _ _ _ _ Hi) as (fl & (_ & F2 & _) & _). unfold waiting in F2.
  apply NoDup_app in F2 as (_ & _ & F2). apply NoDup_cons in F2 as [F2 _]. done.
Qed.

Lemma hand_live ph ex hand out rest w n : inv ph ex hand out rest w -> n ∈ hand -> is_Some (live w !! n).
Proof.
  intros Hi Hn. destruct (iv_placed _ _ _ _ _ _ Hi) as (fl & (_ & _ & F3) & _). apply F3.
  unfold waiting. apply elem_of_app. by right.
Qed.

(** A protocol method is called: before the call an allocation may fail, and the call
    is observed. *)
Lemma upcall_ok ph ex hand out rest rest' o k w :
  good k ->
  (forall a f, allocs w <= a -> failures w <= f -> f <> 0 -> inv ph ex hand out rest (w <| allocs := a |> <| failures := f |>)) ->
  (forall a, allocs w <= a -> inv ph ex hand out rest' (observe o (w <| allocs := a |>))) ->
  exists w' b, upcall alloc_ok o k w = Some (w', b) /\ frame hand w w'
    /\ if b : bool then inv ph ex hand out rest' w'
       else failures w' <> 0 /\ exists rest'', inv ph ex hand out rest'' w' /\ (rest'' = rest \/ rest'' = rest').
Proof.
  intros Hk HA HB. unfold upcall. destruct (alloc_fields w) as [E1 E2]. destruct (alloc alloc_ok w) as [w1 b]. cbn in E1, E2.
  rewrite E1, E2. clear E1 E2 w1 b. destruct (alloc_ok (allocs w)).
  - specialize (HB (S (allocs w)) ltac:(lia)).
    replace (w <| allocs := S (allocs w) |> <| failures := failures w |>) with (w <| allocs := S (allocs w) |>) by by destruct w.
    destruct (Hk _ _ _ _ _ _ HB) as (w' & b & -> & Hi & Hf). cbn [mbind option_bind].
    eexists _, _. split; [done|]. assert (Hf' : frame hand w w').
    { etrans; [|exact Hf]. apply frame_same; done || cbn; lia. }
    destruct b; [by split|]. split.
    + etrans; [exact Hf'|]. apply frame_same; done || cbn; lia.
    + split; [done|]. exists rest'. split; [by apply failed_inv | by right].
  - eexists _, _. split; [done|]. split; [apply frame_same; done || cbn; lia|]. split; [done|].
    exists rest. split; [by apply HA; lia | by left].
Qed.

Lemma upcall_silent ph ex hand out rest o k w :
  good k -> silent o = true -> inv ph ex hand out rest w ->
  exists w' b, upcall alloc_ok o k w = Some (w', b) /\ frame hand w w' /\ inv ph ex hand out rest w'
    /\ (b = false -> failures w' <> 0).
Proof.
  intros Hk Ho Hi. destruct (upcall_ok ph ex hand out rest rest o k w Hk) as (w' & b & E & Hf & Hb).
  - intros a f Ha Hff _. by apply inv_alloc_to.
  - intros a Ha. apply observe_inv; [|exact Ho]. pose proof (inv_alloc_to _ _ _ _ _ _ a (failures w) Hi Ha ltac:(lia)). by destruct w.
  - exists w', b. split; [exact E|]. split; [exact Hf|]. destruct b; [by split|]. destruct Hb as (Hz & r & Hr & [-> | ->]); by split.
Qed.

(** The protocol is told that it may not write, or that it may. *)
Lemma upcall_flow ph ex hand out rest (b : bool) k w :
  good k -> inv ph ex hand out rest w -> is_writing w = negb b ->
  exists w' c, upcall alloc_ok (if b then ResumeWriting else PauseWriting) k (w <| is_writing := b |>) = Some (w', c)
    /\ frame hand w w' /\ inv ph ex hand out rest w' /\ (c = false -> failures w' <> 0).
Proof.
  intros Hk Hi Hw. set (o := if b then ResumeWriting else PauseWriting).
  destruct (upcall_ok ph ex hand out rest rest o k (w <| is_writing := b |>) Hk) as (w' & c & E & Hf & Hb).
  - intros a f Ha Hff Hz. pose proof (inv_alloc_to _ _ _ _ _ _ a f Hi Ha Hff) as Hi'.
    destruct Hi' as [H1 H2 H3 H4 H5 H6 H7 H8 H9 H10 H11 H12 H13 H14 H15 H16 H17 H18]. by split.
  - intros a Ha. pose proof (inv_alloc_to _ _ _ _ _ _ a (failures w) Hi Ha ltac:(lia)) as Hi'.
    destruct Hi' as [H1 H2 H3 H4 H5 H6 H7 H8 H9 H10 H11 H12 H13 H14 H15 H16 H17 H18]. unfold observe.
    assert (El : lost (log w ++ [o]) = lost (log w)) by (rewrite lost_app; replace (lost [o]) with 0 by (unfold o; by destruct b); lia).
    split; try done; cbn; rewrite ?El; try done.
    + rewrite arrived_app, delivered_app. destruct b; by rewrite !app_nil_r.
    + intros Hz. specialize (H16 Hz). cbn in H16. rewrite flow_app, H16, Hw. by destruct b.
  - exists w', c. split; [exact E|]. split; [exact Hf|]. destruct c; [by split|]. destruct Hb as (Hz & r & Hr & [-> | ->]); by split.
Qed.

Lemma watermark_ok ph ex hand out rest n k w :
  good k -> inv ph ex hand (out + n)%N rest w ->
  exists w' b, buffer_watermark_check alloc_ok n k w = Some (w', b) /\ inv ph ex hand out rest w' /\ frame hand w w'.
Proof.
  intros Hk Hi. unfold buffer_watermark_check. cbn zeta.
  assert (Hi' : inv ph ex hand out rest (w <| buffer_size := (buffer_size w + n)%N |>)).
  { destruct Hi as [H1 H2 H3 H4 H5 H6 H7 H8 H9 H10 H11 H12 H13 H14 H15 H16 H17 H18]. split; try done. cbn. lia. }
  assert (Hf' : frame hand w (w <| buffer_size := (buffer_size w + n)%N |>)) by by apply frame_same.
  destruct (_ && _) eqn:E; [|by eexists _, _].
  apply andb_prop in E as [_ Ew]. destruct (upcall_flow _ _ _ _ _ false k _ Hk Hi' Ew) as (w' & b & E & Hf & Hi2 & _).
  exists w', b. split; [exact E|]. split; [exact Hi2|]. by etrans.
Qed.

Lemma sendto_ok ph ex hand out rest d a k w :
  good k -> inv ph ex hand out rest w -> refs w <> 0 ->
  exists w' b, sendto alloc_ok d a k w = Some (w', b) /\ inv ph ex hand out rest w' /\ frame hand w w'.
Proof.
  intros Hk Hi Hz. unfold sendto. destruct (closed w); [by eexists _, _|].
  destruct d as [|x d]; [by eexists _, _|]. cbn [length Nat.eqb]. set (D := x :: d).
  destruct (alloc_inv _ _ _ _ _ _ Hi) as (w1 & b1 & -> & Hi1 & Hf1 & _ & L1 & _ & _ & Ew1).
  destruct b1; cbn [negb]; [|by eexists _, _].
  destruct (alloc_inv _ _ _ _ _ _ Hi1) as (w2 & b2 & -> & Hi2 & Hf2 & _ & L2 & A2 & _ & Ew2).
  assert (Hf : frame hand w w2) by by etrans. destruct b2; cbn [negb]; [|by eexists _, _].
  assert (Hfresh : live w2 !! allocs w1 = None).
  { rewrite L2. destruct (live w1 !! allocs w1) eqn:E; [|done]. pose proof (iv_names _ _ _ _ _ _ Hi1 _ (ex_intro _ _ E)). lia. }
  assert (Hz2 : refs w2 <> 0) by (rewrite Ew2, Ew1; exact Hz).
  enough (Hq : forall address, exists w' b,
    ('(w, r) ← queue (SendCompleted (allocs w1)) w2;
     match r with
     | None => Some (w, false)
     | Some _ => w ← incref (w <| live := <[allocs w1 := SendToData D address]> (live w) |>);
                 buffer_watermark_check alloc_ok (size_of D) k (observe (Queued D address) w)
     end) = Some (w', b) /\ inv ph ex hand out rest w' /\ frame hand w w').
  { destruct a; [apply Hq | apply Hq | by eexists _, _]. }
  intros address.
  destruct (queue_cases _ _ _ _ _ (SendCompleted (allocs w1)) _ Hi2) as [(w' & -> & Hi' & Hf' & _)|(p' & id & -> & Hqd)].
  - cbn [mbind option_bind]. eexists _, _. split; [done|]. split; [exact Hi' | by etrans].
  - pose proof (launch ph ex hand out rest w2 _ (SendToData D address) _ _ _ Hi2 Hqd Hfresh ltac:(lia) eq_refl I ltac:(done) Hz2) as Hi'.
    cbn [mbind option_bind]. unfold incref. cbn [refs]. set (w3 := _ <| live := _ |>).
    change (refs w3) with (refs w2). destruct (refs w2) as [|n] eqn:En; [done|]. cbn [mbind option_bind].
    destruct (watermark_ok ph ex hand out rest (size_of D) k (observe (Queued D address) (w3 <| refs := S (S n) |>)) Hk) as (w' & b & E & Hi3 & Hf3).
    + apply observe_inv; [exact Hi' | done].
    + eexists _, _. split; [exact E|]. split; [exact Hi3|]. etrans; [exact Hf|]. etrans; [|exact Hf3].
      split; [|split; [|split; [done | split; [done|]]]].
      3:{ intros m [ad Hb]. cbn in Hb. apply lookup_insert_Some in Hb as [[_ ?]|[_ Hb]]; [done | by exists ad]. }
      * intros m Hm. cbn. rewrite lookup_insert_ne; [done|]. intros E0. rewrite <- E0 in Hm. destruct (hand_live _ _ _ _ _ _ _ Hi2 Hm). congruence.
      * intros E0. destruct Hqd as (p & Ep & _). congruence.
Qed.

(** The transport is closed, and [connection_lost] was called or will be. *)
Lemma inv_shut ph ex hand out rest w ff a f rs lg :
  inv ph ex hand out rest w -> closed w = false -> allocs w <= a -> failures w <= f ->
  rs = ready w \/ rs = ready w ++ [LostHandle] ->
  arrived lg = arrived (log w) -> delivered lg = delivered (log w) -> flow lg true = flow (log w) true ->
  lost lg + losing rs <= 1 -> (ph <> Releasing -> f = 0 -> lost lg + losing rs = 1) ->
  inv ph ex hand out rest (w <| fd_open := false |> <| closed := true |> <| fixed_file := ff |> <| allocs := a |>
    <| failures := f |> <| ready := rs |> <| log := lg |>).
Proof.
  intros [H1 H2 H3 H4 H5 (fl & (F1 & F2 & F3) & F4) H7 H8 H9 H10 H11 H12 H13 H14 H15 H16 H17 H18] Ec Ha Hf Hrs L1 L2 L3 L4 L5.
  assert (Hin : forall c, c <> LostHandle -> c ∈ rs <-> c ∈ ready w).
  { intros c Hc. destruct Hrs as [-> | ->]; [done|]. rewrite elem_of_app, list_elem_of_singleton. tauto. }
  assert (Hw : omap ready_name rs = omap ready_name (ready w)).
  { destruct Hrs as [-> | ->]; [done|]. by rewrite omap_app, app_nil_r. }
  split; try done; cbn; rewrite ?L1, ?L2, ?L3; try done.
  - intros n Hn. specialize (H4 n Hn). lia.
  - exists fl. split; [|exact F4]. unfold placed, waiting in *. cbn. by rewrite Hw.
  - intros c n b G1 G2 G3. eapply H8; [|exact G2 | exact G3]. apply Hin; [by intros -> | exact G1].
  - destruct H12 as [[C1 C2]|[(b & d & ad & rd & C1 & C2 & C3 & C4)|(x & C1 & C2)]].
    + left. split; [exact C1|]. intros rd n G. exact (C2 rd n (proj1 (Hin (ReadReady rd (inl (S n))) ltac:(done)) G)).
    + right. left. exists b, d, ad, rd. split; [exact C1|]. split; [|done]. cbn. by apply Hin.
    + right. right. by exists x.
  - auto.
  - intros Hz. apply H16. lia.
Qed.

Lemma cancel_io_closed id (w : world) : cancel_io id (w <| closed := true |>) = (fun w => w <| closed := true |>) <$> cancel_io id w.
Proof.
  unfold cancel_io. change (pool (w <| closed := true |>)) with (pool w). destruct (pool w) as [p|]; [|done].
  by destruct (pool_cancel id p) as [[p' b]|].
Qed.

(** [datagram_close] up to the call of [connection_lost]. *)
Lemma close_cancels ph ex hand out rest w :
  inv ph ex hand out rest w -> closed w = false ->
  exists w1, (match pool w with
              | None => Some (w <| closed := true |>)
              | Some _ => w ← match read_task_id w with Some id => cancel_io id (w <| closed := true |>) | None => Some (w <| closed := true |>) end;
                          Some (w <| fixed_file := false |>)
              end) = Some (w1 <| closed := true |> <| fixed_file := fixed_file w1 |>)
    /\ inv ph ex hand out rest w1 /\ frame hand w w1 /\ (pool w1 = None <-> pool w = None) /\ closed w1 = false.
Proof.
  intros Hi Ec. destruct (pool w) as [p|] eqn:Ep.
  2:{ exists w. split; [by destruct w|]. split; [exact Hi|]. split; [done|]. by rewrite Ep. }
  assert (Hff : forall w1 ff, inv ph ex hand out rest w1 -> inv ph ex hand out rest (w1 <| fixed_file := ff |>)).
  { intros w1 ff [H1 H2 H3 H4 H5 H6 H7 H8 H9 H10 H11 H12 H13 H14 H15 H16 H17 H18]. by split. }
  destruct (read_task_id w) as [id|].
  - rewrite cancel_io_closed. destruct (cancel_io_inv _ _ _ _ _ id _ Hi) as (w1 & -> & Hi1 & po & lg & -> & Hp & _).
    exists (w <| pool := po |> <| log := lg |> <| fixed_file := false |>). split; [done|]. split; [by apply (Hff (w <| pool := po |> <| log := lg |>))|].
    split; [|by rewrite <- Ep]. apply frame_same; cbn; try done. by rewrite Ep.
  - exists (w <| fixed_file := false |>). split; [done|]. split; [by apply Hff|]. split; [|by cbn; rewrite Ep]. by apply frame_same.
Qed.

Lemma dg_close_ok ph ex hand out rest k w :
  good k -> inv ph ex hand out rest w ->
  exists w', datagram_close alloc_ok k w = Some w' /\ inv ph ex hand out rest w' /\ frame hand w w'.
Proof.
  intros Hk Hi. unfold datagram_close. destruct (closed w) eqn:Ec; [by eexists|]. cbn zeta.
  change (pool (w <| closed := true |>)) with (pool w). change (read_task_id (w <| closed := true |>)) with (read_task_id w).
  destruct (close_cancels _ _ _ _ _ _ Hi Ec) as (w1 & -> & Hi1 & Hf1 & Hp & Ec1). cbn [mbind option_bind].
  pose proof (iv_closed _ _ _ _ _ _ Hi1) as Efd. rewrite Ec1 in Efd. symmetry in Efd. apply negb_false_iff in Efd.
  change (fd_open (w1 <| closed := true |> <| fixed_file := fixed_file w1 |>)) with (fd_open w1). rewrite Efd.
  pose proof (iv_lost _ _ _ _ _ _ Hi1) as Hl. rewrite Ec1 in Hl. set (w2 := observe _ _).
  assert (Hsh : forall a f rs o, allocs w1 <= a -> failures w1 <= f ->
    (rs = ready w1 /\ o = [ConnectionLost] \/ rs = ready w1 ++ [LostHandle] /\ o = [] \/ rs = ready w1 /\ o = [] /\ f <> 0) ->
    inv ph ex hand out rest (w2 <| allocs := a |> <| failures := f |> <| ready := rs |> <| log := log w2 ++ o |>)).
  { intros a f rs o Ha Hf Hrs. pose proof (inv_shut ph ex hand out rest w1 (fixed_file w1) a f rs (log w1 ++ FdClosed :: o) Hi1 Ec1 Ha Hf) as G.
    assert (EL : lost (log w1 ++ FdClosed :: o) = lost (log w1) + lost o) by (by rewrite lost_app).
    assert (EA : lost [ConnectionLost] = 1) by done. assert (EB : lost [] = 0) by done. assert (EC : losing [LostHandle] = 1) by done.
    change (log w2) with (log w1 ++ [FdClosed]). rewrite <- app_assoc. apply G.
    - destruct Hrs as [[-> _]|[[-> _]|[-> _]]]; auto.
    - rewrite arrived_app. by destruct Hrs as [[_ ->]|[[_ ->]|(_ & -> & _)]]; rewrite app_nil_r.
    - rewrite delivered_app. by destruct Hrs as [[_ ->]|[[_ ->]|(_ & -> & _)]]; rewrite app_nil_r.
    - rewrite flow_app. destruct Hrs as [[_ ->]|[[_ ->]|(_ & -> & _)]]; by destruct (flow (log w1) true).
    - rewrite EL. destruct Hrs as [[-> ->]|[[-> ->]|(-> & -> & _)]]; rewrite ?losing_app, ?EA, ?EB, ?EC; lia.
    - intros _ Hz. rewrite EL. destruct Hrs as [[-> ->]|[[-> ->]|(-> & -> & Hnz)]]; [| |done]; rewrite ?losing_app, ?EA, ?EB, ?EC; lia. }
  unfold schedule_datagram_connection_lost. change (pool w2) with (pool w1). destruct (pool w1) as [p|] eqn:Ep.
  - destruct (alloc_fields w2) as [E1 E2]. destruct (alloc alloc_ok w2) as [w3 b]. cbn in E1, E2. rewrite E1, E2. clear E1 E2 w3 b.
    assert (Hp' : pool w <> None) by (intros E0; apply Hp in E0; congruence).
    assert (Hfr : forall w', live w' = live w1 -> failures w1 <= failures w' -> closed w' = true -> frame hand w w').
    { intros w' G1 G2 G3. destruct Hf1 as (A1 & _ & A3 & _ & A5). split; [intros n Hn; rewrite G1; auto|]. split; [done|]. split; [lia|].
      split; [done|]. intros n [a Ha]. rewrite G1 in Ha. apply A5. by exists a. }
    change (allocs w2) with (allocs w1). change (failures w2) with (failures w1).
    destruct (alloc_ok (allocs w1)); eexists; (split; [done|]); split.
    + pose proof (Hsh (S (allocs w1)) (failures w1) (ready w1 ++ [LostHandle]) [] ltac:(lia) ltac:(lia) ltac:(auto)) as G.
      rewrite app_nil_r in G. exact G.
    + by apply Hfr.
    + pose proof (Hsh (S (allocs w1)) (S (failures w1)) (ready w1) [] ltac:(lia) ltac:(lia) ltac:(auto)) as G.
      rewrite app_nil_r in G. exact G.
    + apply Hfr; done || cbn; lia.
  - pose proof (Hsh (allocs w1) (failures w1) (ready w1) [ConnectionLost] ltac:(lia) ltac:(lia) ltac:(auto)) as G.
    replace (w2 <| allocs := allocs w1 |> <| failures := failures w1 |> <| ready := ready w1 |> <| log := log w2 ++ [ConnectionLost] |>)
      with (observe ConnectionLost w2) in G by done.
    destruct (Hk _ _ _ _ _ _ G) as (w' & b & -> & Hi' & Hf'). cbn [mbind option_bind]. exists w'. split; [done|]. split; [exact Hi'|].
    etrans; [exact Hf1|]. etrans; [|exact Hf']. split; [done|]. split; [done|]. split; [done | done].
Qed.

Lemma dg_incref_ok ph ex hand out rest w :
  inv ph ex hand out rest w -> refs w <> 0 ->
  incref w = Some (w <| refs := S (refs w) |>) /\ inv ph (S ex) hand out rest (w <| refs := S (refs w) |>).
Proof.
  intros [H1 H2 H3 H4 H5 H6 H7 H8 H9 H10 H11 H12 H13 H14 H15 H16 H17 H18] Hz. unfold incref.
  split; [by destruct (refs w)|]. split; try done; cbn; lia.
Qed.

Lemma inv_held ph ex hand out rest w n :
  inv ph (S ex) hand out rest w -> (ph = Creating -> ex <> 0) -> n = S (held w) -> inv ph ex hand out rest (w <| held := n |>).
Proof.
  intros [H1 H2 H3 H4 H5 H6 H7 H8 H9 H10 H11 H12 H13 H14 H15 H16 H17 H18] Hc ->. split; try done; cbn; lia.
Qed.

Lemma dg_user_call_ok ph ex hand out rest c k w :
  good k -> inv ph ex hand out rest w ->
  exists w', user_call alloc_ok c k w = Some w' /\ inv ph ex hand out rest w' /\ frame hand w w'.
Proof.
  intros Hk Hi. assert (Ho : forall n, exists w', fst <$> queue (OtherTask n) w = Some w' /\ inv ph ex hand out rest w' /\ frame hand w w').
  { intros n. destruct (queue_other _ _ _ _ _ n _ Hi) as (w' & r & -> & Hi' & Hf). by exists w'. }
  unfold user_call. destruct (refs w) as [|m] eqn:Er; [destruct c; auto; by exists w|].
  assert (Hz : refs w <> 0) by lia. destruct c as [d a| |high low| | |n]; auto.
  - destruct (sendto_ok ph ex hand out rest d a k w Hk Hi Hz) as (w' & b & -> & Hi' & Hf). by exists w'.
  - by apply dg_close_ok.
  - eexists. split; [done|]. split; [|by apply frame_same].
    destruct Hi as [H1 H2 H3 H4 H5 H6 H7 H8 H9 H10 H11 H12 H13 H14 H15 H16 H17 H18]. by split.
  - destruct (dg_incref_ok _ _ _ _ _ _ Hi Hz) as [-> Hi']. cbn [mbind option_bind]. eexists. split; [done|].
    split; [apply inv_held; [exact Hi' | exact (iv_creating _ _ _ _ _ _ Hi) | done] | by apply frame_same].
  - destruct (held w) as [|n] eqn:Eh; [by exists w|].
    assert (Hi' : inv ph (S ex) hand out rest (w <| held := n |>)).
    { destruct Hi as [H1 H2 H3 H4 H5 H6 H7 H8 H9 H10 H11 H12 H13 H14 H15 H16 H17 H18]. split; try done; cbn; lia. }
    destruct (dg_decref_ok _ _ _ _ _ _ Hi' (iv_creating _ _ _ _ _ _ Hi)) as (w' & -> & Hi2 & Hf & _).
    exists w'. split; [done|]. split; [exact Hi2|]. etrans; [|exact Hf]. by apply frame_same.
Qed.

Lemma respond_ok : forall r, good (respond alloc_ok r).
Proof.
  fix IH 1. intros [calls raised]. cbn [respond].
  induction calls as [|[c r] calls IHc]; intros ph ex hand out rest w Hi; [by eexists _, _|].
  destruct (dg_user_call_ok ph ex hand out rest c (respond alloc_ok r) w (IH r) Hi) as (w1 & -> & Hi1 & Hf1).
  cbn [mbind option_bind]. destruct (IHc ph ex hand out rest w1 Hi1) as (w2 & b & E & Hi2 & Hf2).
  exists w2, b. split; [exact E|]. split; [exact Hi2 | by etrans].
Qed.

(** ** The callbacks *)

Lemma inv_task ph ex hand out rest t w : inv ph ex hand out rest w -> inv ph ex hand out rest (w <| read_task_id := t |>).
Proof. intros [H1 H2 H3 H4 H5 H6 H7 H8 H9 H10 H11 H12 H13 H14 H15 H16 H17 H18]. by split. Qed.

(** The read is queued again. *)
Lemma dg_rearm_ok rd w :
  inv Running 0 [rd] 0%N [] w -> reading w rd ->
  exists w' b, ('(w, ok) ← queue_read alloc_ok w;
                if ok : bool then w ← release_old_read rd w; Some (w, true) else Some (w, false)) = Some (w', b)
    /\ if b : bool then inv Running 0 [] 0%N [] w' else inv Running 0 [rd] 0%N [] w' /\ live w' = live w /\ failures w' <> 0.
Proof.
  intros Hi [addr El]. unfold queue_read. destruct (closed w || negb (fd_open w)) eqn:Ecl.
  - cbn [mbind option_bind]. assert (Ec : closed w = true) by (rewrite <- (iv_closed _ _ _ _ _ _ Hi) in Ecl; by destruct (closed w)).
    unfold release_old_read. rewrite El. cbn [mbind option_bind].
    destruct (release_ok Running 0 rd [] 0%N [] w (ReadData addr) Hi El) as (w2 & -> & Hi2 & _); [by rewrite Ec|].
    cbn [mbind option_bind]. by exists w2, true.
  - cbn zeta. destruct (alloc_inv _ _ _ _ _ _ Hi) as (w1 & b & -> & Hi1 & _ & Hb1 & L1 & A1 & _ & Ew1).
    assert (El1 : live w1 !! rd = Some (ReadData addr)) by by rewrite L1.
    destruct b; [|eexists _, _; split; [done|]; cbn; split; [exact Hi1|]; split; [exact L1 | auto]].
    destruct (queue_cases _ _ _ _ _ (ReadCompleted (allocs w)) _ Hi1) as [(w' & -> & Hi' & _ & Hz & L')|(p' & id & -> & Hqd)]; cbn [mbind option_bind].
    { eexists _, _. split; [done|]. cbn. split; [exact Hi'|]. split; [by rewrite L' | exact Hz]. }
    pose proof (inv_forget Running Creating 0 rd [] 0%N [] w1 (ReadData addr) Hi1 El1 ltac:(auto) ltac:(done)) as Hi2.
    assert (Hfr : live w1 !! allocs w = None).
    { destruct (live w1 !! allocs w) eqn:E; [|done]. rewrite L1 in E. pose proof (iv_names _ _ _ _ _ _ Hi _ (ex_intro _ _ E)). lia. }
    assert (Hne : allocs w <> rd) by (intros E; rewrite E in Hfr; congruence).
    assert (Hz : refs w1 <> 0) by (pose proof (iv_refs _ _ _ _ _ _ Hi2) as Er; cbn in Er; lia).
    pose proof (launch Creating 1 [] 0%N [] (w1 <| live := base.delete rd (live w1) |>) (allocs w) (ReadData None) (ReadCompleted (allocs w)) id p' Hi2 Hqd) as Hi3.
    cbn in Hi3. specialize (Hi3 ltac:(by rewrite lookup_delete_ne) ltac:(lia) eq_refl I).
    assert (Hnr : forall m, ~ reading (w1 <| live := base.delete rd (live w1) |>) m).
    { intros m [b G]. cbn in G. apply lookup_delete_Some in G as [G1 G2]. apply G1.
      apply (iv_read _ _ _ _ _ _ Hi1); [by exists addr | by exists b]. }
    specialize (Hi3 ltac:(auto) Hz). apply (inv_phase Creating Running) in Hi3; try done.
    2:{ intros _ _ _. exists (allocs w), None. cbn. apply lookup_insert_eq. }
    destruct (dg_decref_ok _ _ _ _ _ _ (inv_task _ _ _ _ _ (Some id) _ Hi3) ltac:(done)) as (w' & E & Hi4 & _).
    unfold incref. change (refs (_ <| read_task_id := Some id |>)) with (refs w1). unfold decref in E. cbn [refs] in E.
    change (refs (_ <| read_task_id := Some id |>)) with (S (refs w1)) in E.
    destruct (refs w1) as [|n] eqn:En; [done|]. injection E as E. cbn [mbind option_bind].
    unfold release_old_read. cbn. rewrite lookup_insert_ne, El1 by done. cbn [mbind option_bind]. unfold decref. cbn.
    eexists _, true. split; [done|]. rewrite delete_insert_ne by done. rewrite <- E in Hi4. exact Hi4.
Qed.

Lemma waiting_take w l1 c l2 hand :
  ready w = l1 ++ c :: l2 ->
  waiting hand w ≡ₚ waiting (option_list (ready_name c) ++ hand) (w <| ready := l1 ++ l2 |>).
Proof.
  intros E. unfold waiting. rewrite E. cbn. rewrite !omap_app. cbn. destruct (ready_name c) as [n|]; cbn.
  - rewrite <- !app_assoc. apply Permutation_app_head. cbn. by rewrite Permutation_middle.
  - done.
Qed.

Lemma losing_take l1 c l2 : losing (l1 ++ c :: l2) = (if is_handle c then 1 else 0) + losing (l1 ++ l2).
Proof.
  rewrite !losing_app. assert (Ec : losing (c :: l2) = (if is_handle c then 1 else 0) + losing l2) by (unfold losing; rewrite filter_cons; by destruct c).
  rewrite Ec. lia.
Qed.

(** A callback leaves the ready queue. *)
Lemma take_ready ph ex rest w l1 c l2 lg :
  inv ph ex [] 0%N rest w -> ready w = l1 ++ c :: l2 ->
  lg = log w /\ (c = LostHandle -> ph = Releasing) \/ c = LostHandle /\ lg = log w ++ [ConnectionLost] ->
  inv ph ex (option_list (ready_name c)) 0%N rest (w <| ready := l1 ++ l2 |> <| log := lg |>).
Proof.
  intros [H1 H2 H3 H4 H5 (fl & (F1 & F2 & F3) & F4) H7 H8 H9 H10 H11 H12 H13 H14 H15 H16 H17 H18] E Hl.
  pose proof (waiting_take w l1 c l2 [] E) as Hw. rewrite app_nil_r in Hw. rewrite E in H8, H14, H15. rewrite losing_take in H14, H15.
  assert (EA : lost [ConnectionLost] = 1) by done.
  assert (Hsub : forall x, x ∈ l1 ++ l2 -> x ∈ l1 ++ c :: l2) by set_solver.
  split; try done; cbn.
  - exists fl. split; [|exact F4]. split; [exact F1|]. split; [by rewrite <- Hw|]. intros n. etrans; [apply F3 | by rewrite Hw].
  - intros x n a Hx. apply H8. by apply Hsub.
  - destruct Hl as [[-> _]|[_ ->]]; [done|]. by rewrite arrived_app, delivered_app, !app_nil_r.
  - unfold rest_ok in *. cbn. rewrite E in H12. destruct H12 as [[C1 C2]|[(b & d & ad & rd & C1 & C2 & C3 & C4)|(x & C1 & C2)]].
    + left. split; [exact C1|]. intros rd n G. by apply (C2 rd n), Hsub.
    + apply elem_of_app in C2. destruct C2 as [C2|C2]; [|apply elem_of_cons in C2 as [C2|C2]].
      * right. left. exists b, d, ad, rd. split; [exact C1|]. split; [|done]. apply elem_of_app. by left.
      * right. right. eexists. split; [exact C1|]. intros m Hm. subst c. cbn.
        apply list_elem_of_singleton. apply H9; [exact Hm | by exists ad].
      * right. left. exists b, d, ad, rd. split; [exact C1|]. split; [|done]. apply elem_of_app. by right.
    + right. right. exists x. split; [exact C1|]. intros m Hm. specialize (C2 m Hm). by apply elem_of_nil in C2.
  - destruct Hl as [[-> Hph]|[-> ->]]; [|rewrite lost_app]; cbn in *; destruct (closed w); lia.
  - intros Q1 Q2 Q3. specialize (H15 Q1 Q2 Q3). destruct Hl as [[-> Hph]|[-> ->]]; [|rewrite lost_app; cbn in *; lia].
    destruct c; cbn in *; try lia. by destruct (Q1 (Hph eq_refl)).
  - intros Hz. specialize (H16 Hz). destruct Hl as [[-> _]|[_ ->]]; [done|]. by rewrite flow_app, H16.
Qed.

(** A read that is ready, and what it brings. *)
Lemma ready_read ph ex rest w l1 rd res l2 :
  inv ph ex [] 0%N rest w -> ready w = l1 ++ ReadReady rd res :: l2 ->
  exists addr, live w !! rd = Some (ReadData addr) /\
    match res with
    | inl (S n) => exists b d, rest = [(b :: d, addr)] /\ length d = n /\ take (S n) (buffer w) = b :: d
    | _ => rest = []
    end.
Proof.
  intros Hi E. assert (Hin : ReadReady rd res ∈ ready w) by (rewrite E; set_solver).
  destruct (iv_placed _ _ _ _ _ _ Hi) as (fl & (_ & F2 & F3) & _).
  assert (Hrd : rd ∈ waiting [] w) by (unfold waiting; rewrite app_nil_r; apply list_elem_of_omap; eexists; split; [exact Hin | done]).
  destruct (proj2 (F3 rd) Hrd) as [[a Ha] _].
  assert (exists addr, a = ReadData addr) as [addr ->].
  { pose proof (iv_ready _ _ _ _ _ _ Hi _ _ _ Hin eq_refl Ha) as G. destruct a; [by eexists | done]. }
  exists addr. split; [exact Ha|]. unfold waiting in F2. rewrite app_nil_r, E, omap_app in F2.
  apply NoDup_app in F2 as (_ & N1 & N2). cbn in N1, N2. apply NoDup_cons in N2 as [N2 _].
  destruct (iv_rest _ _ _ _ _ _ Hi) as [[C1 C2]|[(b & d & ad & rd' & C1 & C2 & C3 & C4)|(x & C1 & C2)]].
  - destruct res as [[|n]|]; [done | by destruct (C2 rd n) | done].
  - assert (rd' = rd) as -> by (apply (iv_read _ _ _ _ _ _ Hi); by eexists). rewrite Ha in C4. injection C4 as ->.
    rewrite E in C2. apply elem_of_app in C2. destruct C2 as [C2|C2]; [|apply elem_of_cons in C2 as [C2|C2]].
    + exfalso. apply (N1 rd); [|by left]. apply list_elem_of_omap. eexists. split; [exact C2 | done].
    + injection C2 as <-. by exists b, d.
    + exfalso. apply N2. apply list_elem_of_omap. eexists. split; [exact C2 | done].
  - exfalso. specialize (C2 rd (ex_intro _ _ Ha)). by apply elem_of_nil in C2.
Qed.

Lemma ready_none ph ex rd out rest w :
  inv ph ex [rd] out rest w -> reading w rd -> forall m r, ReadReady m r ∉ ready w.
Proof.
  intros Hi Hrd m r Hin. destruct (iv_placed _ _ _ _ _ _ Hi) as (fl & (_ & F2 & F3) & _).
  assert (Hm : m ∈ omap ready_name (ready w)) by (apply list_elem_of_omap; eexists; split; [exact Hin | done]).
  destruct (proj2 (F3 m)) as [[a Ha] _]; [unfold waiting; apply elem_of_app; by left|].
  pose proof (iv_ready _ _ _ _ _ _ Hi _ _ _ Hin eq_refl Ha) as G. destruct a as [ad|]; [|done].
  assert (m = rd) as -> by (apply (iv_read _ _ _ _ _ _ Hi); [by exists ad | exact Hrd]).
  unfold waiting in F2. apply NoDup_app in F2 as (_ & F2 & _). apply (F2 rd Hm). by left.
Qed.

Lemma observe_received ph ex hand out d a w :
  inv ph ex hand out [(d, a)] w -> (forall m n, ReadReady m (inl (S n)) ∉ ready w) ->
  inv ph ex hand out [] (observe (DatagramReceived d a) w).
Proof.
  intros [H1 H2 H3 H4 H5 H6 H7 H8 H9 H10 H11 H12 H13 H14 H15 H16 H17 H18] Hno. unfold observe.
  assert (El : lost (log w ++ [DatagramReceived d a]) = lost (log w)) by (rewrite lost_app; change (lost [DatagramReceived d a]) with 0; lia).
  split; try done; cbn; rewrite ?El; try done.
  - by rewrite arrived_app, delivered_app, !app_nil_r.
  - by left.
  - intros Hz. by rewrite flow_app, (H16 Hz).
Qed.

Definition read_answer (res : nat + nat) (addr : option Address) (w : world) (rest : list (bytes * option Address)) : Prop :=
  match res with
  | inl (S n) => exists b d, rest = [(b :: d, addr)] /\ length d = n /\ take (S n) (buffer w) = b :: d
  | _ => rest = []
  end.

Lemma read_completed_ok res k rd w addr rest :
  good k -> inv Running 0 [rd] 0%N rest w -> live w !! rd = Some (ReadData addr) -> read_answer res addr w rest ->
  exists w' b rest', read_completed alloc_ok false rd res k w = Some (w', b)
    /\ if b : bool then inv Running 0 [] 0%N rest' w'
       else inv Running 0 [rd] 0%N rest' w' /\ live w' !! rd = Some (ReadData addr) /\ failures w' <> 0.
Proof.
  intros Hk Hi El Hr. unfold read_completed, cleanup_read. rewrite El. cbn [mbind option_bind orb].
  pose proof (inv_task _ _ _ _ _ None _ Hi) as Hi0. set (w0 := w <| read_task_id := None |>) in *.
  destruct (closed w) eqn:Ec.
  { unfold release_old_read. change (live w0) with (live w). rewrite El. cbn [mbind option_bind].
    destruct (release_ok Running 0 rd [] 0%N _ w0 (ReadData addr) Hi0 El) as (w' & -> & Hi' & _).
    - change (closed w0) with (closed w). by rewrite Ec.
    - cbn [mbind option_bind]. by exists w', true, rest. }
  cbn zeta. assert (Hno := ready_none _ _ _ _ _ _ Hi0 (ex_intro _ _ El)).
  assert (Hup : exists w1 b, match res with
      | inl 0 => Some (w0, true)
      | inl (S _ as n) => upcall alloc_ok (DatagramReceived (take n (buffer w0)) addr) k w0
      | inr e => upcall alloc_ok (ErrorReceived e) k w0
      end = Some (w1, b) /\ live w1 !! rd = Some (ReadData addr)
      /\ if b : bool then inv Running 0 [rd] 0%N [] w1 else failures w1 <> 0 /\ exists rest', inv Running 0 [rd] 0%N rest' w1).
  { destruct res as [[|n]|e]; cbn in Hr.
    - subst rest. by exists w0, true.
    - destruct Hr as (b & d & -> & Hn & Ht). change (buffer w0) with (buffer w). rewrite Ht.
      destruct (upcall_ok Running 0 [rd] 0%N [(b :: d, addr)] [] (DatagramReceived (b :: d) addr) k w0 Hk) as (w1 & c & E & (Hf & _) & Hc).
      + intros a f Ha Hff _. by apply inv_alloc_to.
      + intros a Ha. pose proof (inv_alloc_to _ _ _ _ _ _ a (failures w0) Hi0 Ha ltac:(lia)) as Hi1.
        exact (observe_received _ _ _ _ _ _ _ Hi1 (fun m n => Hno m (inl (S n)))).
      + exists w1, c. split; [exact E|]. split; [rewrite Hf; [exact El | by left]|].
        destruct c; [exact Hc|]. destruct Hc as (Hz & r & Hi1 & _). by split; [|exists r].
    - subst rest. destruct (upcall_silent Running 0 [rd] 0%N [] (ErrorReceived e) k w0 Hk eq_refl Hi0) as (w1 & c & E & (Hf & _) & Hi1 & Hc).
      exists w1, c. split; [exact E|]. split; [rewrite Hf; [exact El | by left]|]. destruct c; [exact Hi1|]. split; [auto | by exists []]. }
  destruct Hup as (w1 & b & E & El1 & Hb).
  assert (E' : match res, ReadData addr with
               | inr e, _ => upcall alloc_ok (ErrorReceived e) k w0
               | inl 0, _ => Some (w0, true)
               | inl (S _ as n), ReadData addr => upcall alloc_ok (DatagramReceived (take n (buffer w0)) addr) k w0
               | inl (S _), SendToData _ _ => None
               end = Some (w1, b)) by (destruct res as [[|n]|e]; exact E).
  rewrite E'. cbn [mbind option_bind]. destruct b.
  2:{ destruct Hb as (Hz & rest' & Hi1). by exists w1, false, rest'. }
  destruct (dg_rearm_ok rd w1 Hb (ex_intro _ _ El1)) as (w2 & b & E2 & Hb2). rewrite E2. exists w2, b, []. split; [done|].
  destruct b; [exact Hb2|]. destruct Hb2 as (Hi2 & G & Hz). split; [exact Hi2|]. split; [by rewrite G | exact Hz].
Qed.

Lemma release_bytes_inv ph ex hand rest n w :
  inv ph ex hand 0%N rest w -> (n <= buffer_size w)%N -> inv ph ex hand n rest (release_bytes n w).
Proof.
  intros [H1 H2 H3 H4 H5 H6 H7 H8 H9 H10 H11 H12 H13 H14 H15 H16 H17 H18] Hn. split; try done. cbn. lia.
Qed.

(** A send that is ready has its allocation, and its bytes are counted. *)
Lemma ready_send ph ex rest w l1 sd res l2 :
  inv ph ex [] 0%N rest w -> ready w = l1 ++ SendReady sd res :: l2 ->
  exists buf address, live w !! sd = Some (SendToData buf address) /\ buf <> [] /\ (size_of buf <= buffer_size w)%N.
Proof.
  intros Hi E. assert (Hin : SendReady sd res ∈ ready w) by (rewrite E; set_solver).
  destruct (iv_placed _ _ _ _ _ _ Hi) as (fl & (_ & F2 & F3) & _).
  destruct (proj2 (F3 sd)) as [[a Ha] _].
  { unfold waiting. rewrite app_nil_r. apply list_elem_of_omap. eexists. split; [exact Hin | done]. }
  pose proof (iv_ready _ _ _ _ _ _ Hi _ _ _ Hin eq_refl Ha) as G. destruct a as [|[|b buf] address]; try done.
  exists (b :: buf), address. split; [exact Ha|]. split; [done|]. pose proof (iv_bytes _ _ _ _ _ _ Hi) as Hb.
  rewrite (bytes_of_delete _ _ _ Ha) in Hb. cbn [held_bytes] in Hb. lia.
Qed.

Lemma sendto_completed_ok res k sd w buf address rest :
  good k -> inv Running 0 [sd] 0%N rest w -> live w !! sd = Some (SendToData buf address) -> (size_of buf <= buffer_size w)%N ->
  exists w' b, sendto_completed alloc_ok false sd res k w = Some (w', b)
    /\ if b : bool then inv Running 0 [] 0%N rest w'
       else inv Running 0 [sd] (size_of buf) rest w' /\ live w' !! sd = Some (SendToData buf address) /\ failures w' <> 0.
Proof.
  intros Hk Hi El Hb. unfold sendto_completed. rewrite El. cbn [mbind option_bind orb].
  set (first := if closed w then _ else _).
  assert (Hup : exists w1 b, first = Some (w1, b) /\ frame [sd] w w1 /\ inv Running 0 [sd] 0%N rest w1
    /\ (b = false -> failures w1 <> 0)).
  { unfold first. destruct (closed w); [by eexists _, _|]. destruct res as [n|e]; [|exact (upcall_silent _ _ _ _ _ _ _ _ Hk eq_refl Hi)
      || (destruct (upcall_silent Running 0 [sd] 0%N rest (ErrorReceived e) k w Hk eq_refl Hi) as (w1 & c & G1 & G2 & G3 & G4); by exists w1, c)].
    destruct (negb (is_writing w) && _) eqn:Ew; [|by eexists _, _]. apply andb_prop in Ew as [Ew _].
    apply negb_true_iff in Ew. destruct (upcall_flow _ _ _ _ _ true k _ Hk Hi Ew) as (w1 & c & G1 & G2 & G3 & G4). by exists w1, c. }
  destruct Hup as (w1 & b & -> & Hf & Hi1 & Hz). cbn [mbind option_bind].
  assert (El1 : live w1 !! sd = Some (SendToData buf address)) by (destruct Hf as (G & _); rewrite G; [exact El | by left]).
  assert (Hb1 : (size_of buf <= buffer_size w1)%N).
  { pose proof (iv_bytes _ _ _ _ _ _ Hi1) as G. rewrite (bytes_of_delete _ _ _ El1) in G. cbn [held_bytes] in G. lia. }
  pose proof (release_bytes_inv _ _ _ _ _ _ Hi1 Hb1) as Hi2. destruct b.
  2:{ exists (release_bytes (size_of buf) w1), false. split; [done|]. split; [exact Hi2|]. by split; [|apply Hz]. }
  unfold cleanup_sendto. change (live (release_bytes (size_of buf) w1)) with (live w1). rewrite El1. cbn [mbind option_bind].
  destruct (release_ok Running 0 sd [] 0%N rest (release_bytes (size_of buf) w1) (SendToData buf address)) as (w' & -> & Hi' & _).
  - cbn [held_bytes]. by rewrite N.add_0_r.
  - exact El1.
  - intros Q1 Q2 Q3. destruct (iv_armed _ _ _ _ _ _ Hi1 Q1 Q2 Q3) as [m [ad G]]. exists m. split; [|by exists ad]. intros ->. congruence.
  - cbn [mbind option_bind]. by exists w', true.
Qed.

(** The cleanups, of a callback that failed or on a loop that is being closed. *)
Lemma cleanup_read_ok ph rd addr rest w :
  inv ph 0 [rd] 0%N rest w -> live w !! rd = Some (ReadData addr) -> (ph = Running -> failures w <> 0) ->
  exists w', cleanup_read rd w = Some w' /\ inv ph 0 [] 0%N rest w' /\ frame [] w w'.
Proof.
  intros Hi El Hz. unfold cleanup_read, release_old_read. pose proof (inv_task _ _ _ _ _ None _ Hi) as Hi0.
  change (live (w <| read_task_id := None |>)) with (live w). rewrite El. cbn [mbind option_bind].
  destruct (release_ok ph 0 rd [] 0%N rest (w <| read_task_id := None |>) (ReadData addr) Hi0 El) as (w' & E & Hi' & Hf).
  - intros Q1 Q2. by destruct (Hz Q1).
  - exists w'. split; [exact E|]. split; [exact Hi'|]. etrans; [|exact Hf]. by apply frame_same.
Qed.

Lemma cleanup_sendto_ok ph sd buf address rest w :
  inv ph 0 [sd] (size_of buf) rest w -> live w !! sd = Some (SendToData buf address) -> (ph = Running -> failures w <> 0) ->
  exists w', cleanup_sendto sd w = Some w' /\ inv ph 0 [] 0%N rest w' /\ frame [] w w'.
Proof.
  intros Hi El Hz. unfold cleanup_sendto. rewrite El. cbn [mbind option_bind].
  apply (release_ok ph 0 sd [] 0%N rest w (SendToData buf address)); [cbn; by rewrite N.add_0_r | exact El|].
  intros Q1 Q2. by destruct (Hz Q1).
Qed.

Lemma handled_ok ph ex n out rest handler w :
  inv ph ex [n] out rest w -> failures w <> 0 ->
  exists w' b, respond alloc_ok handler w = Some (w', b) /\ inv ph ex [n] out rest w' /\ live w' !! n = live w !! n /\ failures w' <> 0.
Proof.
  intros Hi Hz. destruct (respond_ok handler _ _ _ _ _ _ Hi) as (w' & b & E & Hi' & Hf & _ & Hl & _).
  exists w', b. split; [exact E|]. split; [exact Hi'|]. split; [apply Hf; by left | lia].
Qed.

(** A callback of a loop that runs. *)
Lemma dg_run_ready_ok l1 c l2 r handler rest w :
  inv Running 0 [] 0%N rest w -> ready w = l1 ++ c :: l2 ->
  exists w' rest', run_ready alloc_ok false c r handler (w <| ready := l1 ++ l2 |>) = Some w' /\ inv Running 0 [] 0%N rest' w'.
Proof.
  intros Hi E. assert (Ht : c <> LostHandle -> inv Running 0 (option_list (ready_name c)) 0%N rest (w <| ready := l1 ++ l2 |>)).
  { intros Hc. exact (take_ready _ _ _ _ _ _ _ _ Hi E (or_introl (conj eq_refl (fun G => False_ind _ (Hc G))))). }
  destruct c as [rd res|sd res| |n]; cbn [run_ready].
  - destruct (ready_read _ _ _ _ _ _ _ _ Hi E) as (addr & El & Hr). specialize (Ht ltac:(done)).
    destruct (read_completed_ok res (respond alloc_ok r) rd (w <| ready := l1 ++ l2 |>) addr rest (respond_ok r) Ht El Hr) as (w1 & b & rest' & -> & Hb).
    cbn [mbind option_bind]. destruct b; [by exists w1, rest'|]. destruct Hb as (Hi2 & El2 & Hz).
    destruct (handled_ok _ _ _ _ _ handler _ Hi2 Hz) as (w2 & b & -> & Hi3 & El3 & Hz3). cbn [mbind option_bind].
    rewrite El2 in El3. destruct (cleanup_read_ok _ _ _ _ _ Hi3 El3 (fun _ => Hz3)) as (w3 & -> & Hi4 & _). by exists w3, rest'.
  - destruct (ready_send _ _ _ _ _ _ _ _ Hi E) as (buf & address & El & _ & Hb). specialize (Ht ltac:(done)).
    destruct (sendto_completed_ok res (respond alloc_ok r) sd (w <| ready := l1 ++ l2 |>) buf address rest (respond_ok r) Ht El Hb) as (w1 & b & -> & Hb1).
    cbn [mbind option_bind]. destruct b; [by exists w1, rest|]. destruct Hb1 as (Hi2 & El2 & Hz).
    destruct (handled_ok _ _ _ _ _ handler _ Hi2 Hz) as (w2 & b & -> & Hi3 & El3 & Hz3). cbn [mbind option_bind].
    rewrite El2 in El3. destruct (cleanup_sendto_ok _ _ _ _ _ _ Hi3 El3 (fun _ => Hz3)) as (w3 & -> & Hi4 & _). by exists w3, rest.
  - pose proof (take_ready _ _ _ _ _ _ _ _ Hi E (or_intror (conj eq_refl eq_refl))) as Hi1.
    destruct (respond_ok r _ _ _ _ _ _ Hi1) as (w1 & b & E1 & Hi2 & _).
    change (observe ConnectionLost (w <| ready := l1 ++ l2 |>)) with (w <| ready := l1 ++ l2 |> <| log := log w ++ [ConnectionLost] |>).
    rewrite E1. cbn [mbind option_bind]. destruct b; [by exists w1, rest|].
    destruct (respond_ok handler _ _ _ _ _ _ Hi2) as (w2 & b & -> & Hi3 & _). by exists w2, rest.
  - specialize (Ht ltac:(done)). destruct (respond_ok r _ _ _ _ _ _ Ht) as (w1 & b & -> & Hi2 & _). by exists w1, rest.
Qed.

(** ** Closing the loop *)

Lemma decref_queues (w w' : world) : decref w = Some w' -> ready w' = ready w /\ pool w' = pool w.
Proof.
  unfold decref. destruct (refs w) as [|[|n]]; [done| |]; intros [= <-]; [|done].
  unfold dealloc. cbn. by destruct (fd_open w).
Qed.

Lemma cleanup_queues n (w w' : world) :
  cleanup_sendto n w = Some w' \/ cleanup_read n w = Some w' -> ready w' = ready w /\ pool w' = pool w.
Proof.
  unfold cleanup_sendto, cleanup_read, release_old_read. intros [E|E].
  - destruct (live w !! n); cbn [mbind option_bind] in E; [|done]. destruct (decref w) as [w1|] eqn:E1; [|done].
    injection E as <-. exact (decref_queues _ _ E1).
  - change (live (w <| read_task_id := None |>)) with (live w) in E. destruct (live w !! n); cbn [mbind option_bind] in E; [|done].
    destruct (decref (w <| read_task_id := None |>)) as [w1|] eqn:E1; [|done]. injection E as <-. exact (decref_queues _ _ E1).
Qed.

Lemma cancel_ready_ok l1 c l2 r handler rest w :
  inv Releasing 0 [] 0%N rest w -> ready w = l1 ++ c :: l2 ->
  exists w', run_ready alloc_ok true c r handler (w <| ready := l1 ++ l2 |>) = Some w' /\ inv Releasing 0 [] 0%N rest w'
    /\ ready w' = l1 ++ l2 /\ pool w' = pool w.
Proof.
  intros Hi E. pose proof (take_ready _ _ _ _ _ _ _ (log w) Hi E (or_introl (conj eq_refl (fun _ => eq_refl)))) as Ht.
  change (w <| ready := l1 ++ l2 |> <| log := log w |>) with (w <| ready := l1 ++ l2 |>) in Ht.
  destruct c as [rd res|sd res| |n]; cbn [run_ready]; [| |by eexists|by eexists].
  - destruct (ready_read _ _ _ _ _ _ _ _ Hi E) as (addr & El & _). unfold read_completed.
    change (live (w <| ready := l1 ++ l2 |>)) with (live w). rewrite El. cbn [mbind option_bind orb].
    destruct (cleanup_read_ok Releasing rd addr rest (w <| ready := l1 ++ l2 |>) Ht El ltac:(done)) as (w' & E' & Hi' & _).
    rewrite E'. cbn [mbind option_bind]. exists w'. split; [done|]. split; [exact Hi'|]. exact (cleanup_queues _ _ _ (or_intror E')).
  - destruct (ready_send _ _ _ _ _ _ _ _ Hi E) as (buf & address & El & _ & Hb). unfold sendto_completed.
    change (live (w <| ready := l1 ++ l2 |>)) with (live w). rewrite El. cbn [mbind option_bind orb].
    destruct (cleanup_sendto_ok Releasing sd buf address rest (release_bytes (size_of buf) (w <| ready := l1 ++ l2 |>))) as (w' & E' & Hi' & _);
      [by apply release_bytes_inv | exact El | done|].
    rewrite E'. cbn [mbind option_bind]. exists w'. split; [done|]. split; [exact Hi'|]. exact (cleanup_queues _ _ _ (or_introl E')).
Qed.

Lemma dg_release_all_ok cs : forall rest w,
  inv Releasing 0 [] 0%N rest w -> ready w = cs ->
  exists w', release_all alloc_ok cs w = Some w' /\ inv Releasing 0 [] 0%N rest w' /\ ready w' = [] /\ pool w' = pool w.
Proof.
  induction cs as [|c cs IH]; intros rest w Hi E; cbn [release_all]; [by exists w|].
  destruct (cancel_ready_ok [] c cs (Response [] false) (Response [] false) rest w Hi E) as (w1 & E1 & Hi1 & R1 & P1).
  cbn [app] in E1, R1. rewrite E1. cbn [mbind option_bind]. destruct (IH rest w1 Hi1 R1) as (w2 & E2 & Hi2 & R2 & P2).
  exists w2. split; [exact E2|]. split; [exact Hi2|]. split; [exact R2 | by rewrite P2].
Qed.

Lemma deinit_names (fl : gmap nat task_id) (p : P) ids cs :
  (forall n id, fl !! n = Some id <-> exists c, pool_lookup id p = Some c /\ name_of c = Some n) ->
  NoDup ids -> Forall2 (fun id c => pool_lookup id p = Some c) ids cs -> NoDup (omap name_of cs).
Proof.
  intros Hfl Hnd H2. induction H2 as [|id c ids cs Hc H2 IH]; [constructor|]. apply NoDup_cons in Hnd as [Hid Hnd].
  specialize (IH Hnd). cbn. destruct (name_of c) as [n|] eqn:En; [|exact IH]. apply NoDup_cons. split; [|exact IH].
  intros Hin. apply list_elem_of_omap in Hin as (c' & Hc' & En'). apply Hid.
  apply list_elem_of_lookup_1 in Hc' as [i Hi']. destruct (Forall2_lookup_r _ _ _ _ _ H2 Hi') as (id' & Hid' & Hl).
  assert (E1 : fl !! n = Some id) by (apply Hfl; by exists c). assert (E2 : fl !! n = Some id') by (apply Hfl; by exists c').
  assert (id = id') as -> by congruence. by eapply list_elem_of_lookup_2.
Qed.

(** What is in flight becomes ready, and nothing else is left. *)
Lemma dg_inv_deinit rest w p :
  inv Releasing 0 [] 0%N rest w -> pool w = Some p -> ready w = [] ->
  inv Releasing 0 [] 0%N rest (w <| pool := None |> <| ready := map (ready_of (inl 0)) (pool_deinit p) |>).
Proof.
  intros [H1 H2 H3 H4 H5 (fl & (F1 & F2 & F3) & F4) H7 H8 H9 H10 H11 H12 H13 H14 H15 H16 H17 H18] Ep Er.
  destruct (pool_deinit_ok p (H5 p Ep)) as (ids & D1 & D2 & D3). set (cs := pool_deinit p) in *. rewrite Ep in F1, H7. cbn in F1, H7.
  assert (En : omap ready_name (map (ready_of (inl 0)) cs) = omap name_of cs).
  { clear. induction cs as [|c cs IH]; [done|]. cbn. destruct c; cbn; by rewrite ?IH. }
  assert (Hlk : forall c, c ∈ cs -> exists id, pool_lookup id p = Some c).
  { intros c Hc. apply list_elem_of_lookup_1 in Hc as [i Hi]. destruct (Forall2_lookup_r _ _ _ _ _ D2 Hi) as (id & _ & Hl). by exists id. }
  assert (El : losing (map (ready_of (inl 0)) cs) = 0).
  { clear. induction cs as [|c cs IH]; [done|]. change (map (ready_of (inl 0)) (c :: cs)) with ([] ++ ready_of (inl 0) c :: map (ready_of (inl 0)) cs).
    rewrite losing_take. cbn [app]. rewrite IH. by destruct c. }
  rewrite Er in H14, H15. change (losing []) with 0 in H14.
  split; try done; cbn; rewrite ?El; try done.
  - exists ∅. split; [|intros n [? Hn]; by rewrite lookup_empty in Hn]. split; [|split].
    + intros n id. rewrite lookup_empty. split; [done | by intros (? & ? & _)].
    + unfold waiting. cbn. rewrite En, app_nil_r. exact (deinit_names fl p ids cs F1 D1 D2).
    + intros n. unfold waiting. cbn. rewrite En, app_nil_r, lookup_empty. rewrite list_elem_of_omap. split.
      * intros [Hn _]. destruct (fl !! n) as [id|] eqn:E.
        { apply F1 in E as (c & G1 & G2). exists c. split; [|exact G2]. pose proof (D3 id (ex_intro _ _ G1)) as Hid.
          apply list_elem_of_lookup_1 in Hid as [i Hi]. destruct (Forall2_lookup_l _ _ _ _ _ D2 Hi) as (c' & Hc' & G3).
          assert (c' = c) as -> by congruence. by eapply list_elem_of_lookup_2. }
        exfalso. assert (G : n ∈ waiting [] w) by (apply F3; by split). unfold waiting in G. rewrite Er in G. by apply elem_of_nil in G.
      * intros (c & Hc & En'). split; [|done]. destruct (Hlk c Hc) as [id Hid]. apply (F4 n). exists id. apply F1. by exists c.
  - intros c n a Hc En' Ha. apply list_elem_of_fmap in Hc as (c' & -> & Hc). destruct (Hlk c' Hc) as [id Hid].
    assert (name_of c' = Some n) as Hn by (by destruct c'). pose proof (H7 id c' n a Hid Hn Ha) as G. by destruct c', a as [|[|]].
  - destruct H12 as [[C1 _]|[(b & d & ad & rd & _ & C2 & _)|(x & C1 & C2)]].
    + left. split; [exact C1|]. intros rd n G. apply list_elem_of_fmap in G as (c & G & _). by destruct c.
    + rewrite Er in C2. by apply elem_of_nil in C2.
    + right. right. by exists x.
Qed.

(** A loop that is closed has nothing of the transport. *)
Lemma closed_empty rest w : inv Releasing 0 [] 0%N rest w -> pool w = None -> ready w = [] -> live w = ∅.
Proof.
  intros Hi Ep Er. apply map_eq. intros n. rewrite lookup_empty. destruct (live w !! n) as [a|] eqn:E; [|done]. exfalso.
  destruct (iv_placed _ _ _ _ _ _ Hi) as (fl & (F1 & _ & F3) & _). destruct (fl !! n) as [id|] eqn:En.
  - apply F1 in En as (c & G & _). by rewrite Ep in G.
  - assert (G : n ∈ waiting [] w) by (apply F3; by rewrite E). unfold waiting in G. rewrite Er in G. by apply elem_of_nil in G.
Qed.

Lemma close_loop_ok rest w :
  inv Running 0 [] 0%N rest w ->
  exists w', close_loop alloc_ok w = Some w' /\ inv Releasing 0 [] 0%N rest w' /\ pool w' = None /\ ready w' = [].
Proof.
  intros Hi. unfold close_loop. destruct (pool w) as [p|] eqn:Ep; [|discriminate (iv_phase _ _ _ _ _ _ Hi Ep)].
  pose proof (inv_phase _ Releasing _ _ _ _ _ Hi ltac:(done) ltac:(done) ltac:(done) ltac:(done)) as Hi1.
  destruct (dg_release_all_ok (ready w) rest w Hi1 eq_refl) as (w1 & -> & Hi2 & R2 & P2). cbn [mbind option_bind].
  rewrite Ep in P2. pose proof (dg_inv_deinit rest w1 p Hi2 P2 R2) as Hi3.
  destruct (dg_release_all_ok (map (ready_of (inl 0)) (pool_deinit p)) rest _ Hi3 eq_refl) as (w3 & E3 & Hi4 & R4 & P4). exists w3. split; [exact E3|]. split; [exact Hi4|]. split; [exact P4 | exact R4].
Qed.

(** ** Completions *)

(** Allocations of the same kinds under the same names. *)
Definition same_kinds (m m' : gmap nat allocation) : Prop :=
  size m' = size m /\ bytes_of m' = bytes_of m
  /\ forall n, is_read <$> m' !! n = is_read <$> m !! n /\ forall b a, m' !! n = Some (SendToData b a) <-> m !! n = Some (SendToData b a).

Lemma same_kinds_read m rd a a' : m !! rd = Some (ReadData a) -> same_kinds m (<[rd := ReadData a']> m).
Proof.
  intros E. split; [|split].
  - apply map_size_insert_Some. by rewrite E.
  - rewrite <- (insert_delete_id m rd _ E) at 2. rewrite <- insert_delete_eq.
    by rewrite !bytes_of_insert by apply lookup_delete_eq.
  - intros n. destruct (decide (n = rd)) as [->|Hne].
    + rewrite lookup_insert_eq, E. done.
    + by rewrite lookup_insert_ne.
Qed.

Lemma same_kinds_some m m' n : same_kinds m m' -> is_Some (m' !! n) <-> is_Some (m !! n).
Proof. intros (_ & _ & Hk). destruct (Hk n) as [E _]. rewrite <- !(fmap_is_Some is_read). by rewrite E. Qed.

Lemma same_kinds_reading m m' n : same_kinds m m' ->
  (exists a, m' !! n = Some (ReadData a)) -> exists a, m !! n = Some (ReadData a).
Proof.
  intros (_ & _ & Hk) [a Ha]. destruct (Hk n) as [E _]. rewrite Ha in E. cbn in E.
  destruct (m !! n) as [[ad|]|]; cbn in E; [by exists ad | done | done].
Qed.

Lemma same_kinds_sym m m' : same_kinds m m' -> same_kinds m' m.
Proof. intros (E1 & E2 & E3). split; [done|]. split; [done|]. intros n. destruct (E3 n) as [G1 G2]. by split. Qed.

(** The operation of a callback completes. *)
Lemma placed_harvest w fl p id c v p' m :
  placed [] w fl -> (forall n, is_Some (fl !! n) -> is_Some (live w !! n)) -> pool w = Some p -> pool_lookup id p = Some c ->
  (forall j, pool_lookup j p' = if decide (j = id) then None else pool_lookup j p) -> same_kinds (live w) m ->
  let w' := w <| live := m |> <| pool := Some p' |> <| ready := ready w ++ [ready_of v c] |> in
  let fl' := match name_of c with Some n => base.delete n fl | None => fl end in
  placed [] w' fl' /\ forall n, is_Some (fl' !! n) -> is_Some (m !! n).
Proof.
  intros (F1 & F2 & F3) F4 Ep Hc Hp' Hm w' fl'. rewrite Ep in F1. cbn in F1.
  assert (Hwt : waiting [] w' = waiting [] w ++ option_list (name_of c)).
  { unfold waiting, w'. cbn. rewrite omap_app, !app_nil_r. by destruct c. }
  assert (Hno : forall j c' n, j <> id -> pool_lookup j p = Some c' -> name_of c' = Some n -> name_of c <> Some n).
  { intros j c' n Hj G1 G2 G3. assert (E1 : fl !! n = Some j) by (apply F1; by exists c'). assert (E2 : fl !! n = Some id) by (apply F1; by exists c). congruence. }
  assert (Hfl : forall n j, fl' !! n = Some j <-> exists c', pool_lookup j p' = Some c' /\ name_of c' = Some n).
  { intros n j. rewrite Hp'. unfold fl'. destruct (decide (j = id)) as [->|Hj].
    - split; [|by intros (? & ? & _)]. intros E. exfalso. destruct (name_of c) as [k|] eqn:En.
      + apply lookup_delete_Some in E as [Hne E]. apply F1 in E as (c' & G1 & G2). congruence.
      + apply F1 in E as (c' & G1 & G2). congruence.
    - rewrite <- F1. destruct (name_of c) as [k|] eqn:En; [|done]. destruct (decide (n = k)) as [->|Hne]; [|by rewrite lookup_delete_ne].
      rewrite lookup_delete_eq. split; [done|]. intros E. apply F1 in E as (c' & G1 & G2). by destruct (Hno j c' k Hj G1 G2). }
  assert (Hsub : forall n, is_Some (fl' !! n) -> is_Some (fl !! n)).
  { intros n. unfold fl'. destruct (name_of c) as [k|]; [|done]. intros [j Hj]. apply lookup_delete_Some in Hj as [_ Hj]. by exists j. }
  split; [|intros n Hn; rewrite (same_kinds_some _ _ n Hm); by apply F4, Hsub]. split; [exact Hfl|].
  rewrite Hwt. split.
  - apply NoDup_app. split; [exact F2|]. split; [|destruct (name_of c); [apply NoDup_singleton | constructor]].
    intros n Hn Hin. destruct (name_of c) as [k|] eqn:En; cbn in Hin; [|by apply elem_of_nil in Hin].
    apply list_elem_of_singleton in Hin as ->. apply F3 in Hn as [_ Hn]. assert (fl !! k = Some id) by (apply F1; by exists c). congruence.
  - intros n. change (live w') with m. rewrite (same_kinds_some _ _ n Hm), elem_of_app, <- F3. unfold fl'.
    destruct (name_of c) as [k|] eqn:En; cbn; [|rewrite elem_of_nil; tauto]. rewrite list_elem_of_singleton.
    assert (Ek : fl !! k = Some id) by (apply F1; by exists c). destruct (decide (n = k)) as [->|Hne].
    + rewrite lookup_delete_eq. split; [by right|]. intros _. split; [|done]. apply F4. by exists id.
    + rewrite lookup_delete_ne by done. tauto.
Qed.

Lemma harvest_ok rest w p id c v p' m bf lg rest' :
  inv Running 0 [] 0%N rest w -> pool w = Some p -> pool_lookup id p = Some c -> pool_ok p' ->
  (forall j, pool_lookup j p' = if decide (j = id) then None else pool_lookup j p) -> same_kinds (live w) m ->
  arrived lg = delivered lg ++ rest' -> lost lg = lost (log w) -> flow lg true = flow (log w) true ->
  let w' := w <| live := m |> <| buffer := bf |> <| log := lg |> <| pool := Some p' |> <| ready := ready w ++ [ready_of v c] |> in
  rest_ok [] w' rest' -> inv Running 0 [] 0%N rest' w'.
Proof.
  intros [H1 H2 H3 H4 H5 (fl & F & F4) H7 H8 H9 H10 H11 H12 H13 H14 H15 H16 H17 H18] Ep Hc Hp Hp' Hm L1 L2 L3 w' Hr.
  pose proof (placed_harvest w fl p id c v p' m F F4 Ep Hc Hp' Hm) as [HF HF4].
  assert (Hrd : forall n, reading w' n <-> reading w n).
  { intros n. split; [exact (same_kinds_reading _ _ n Hm) | exact (same_kinds_reading _ _ n (same_kinds_sym _ _ Hm))]. }
  assert (Hkind : forall n a, m !! n = Some a -> exists a', live w !! n = Some a' /\ (forall c, kind_ok c a' -> kind_ok c a) /\ forall c, ready_kind_ok c a' -> ready_kind_ok c a).
  { intros n [ad|b ad] Ha.
    - destruct (same_kinds_reading _ _ n Hm) as [ad' Ha']; [by exists ad|]. exists (ReadData ad'). by split.
    - destruct Hm as (_ & _ & Hm). exists (SendToData b ad). split; [by apply Hm | done]. }
  assert (El : losing (ready w ++ [ready_of v c]) = losing (ready w)).
  { rewrite losing_app. assert (losing [ready_of v c] = 0) by by destruct c. lia. }
  destruct Hm as (M1 & M2 & _). split; try done; cbn; rewrite ?El, ?L2, ?L3, ?M1, ?M2; try done.
  - intros n [a Ha]. destruct (Hkind n a Ha) as (a' & Ha' & _). apply H4. by exists a'.
  - by intros q [= <-].
  - by eexists.
  - intros j c' n a G1 G2 G3. rewrite Hp' in G1. destruct (decide (j = id)); [done|]. destruct (Hkind n a G3) as (a' & Ha' & K & _).
    apply K. eapply H7; [by rewrite Ep | exact G2 | exact Ha'].
  - intros c' n a G1 G2 G3. destruct (Hkind n a G3) as (a' & Ha' & K1 & K2). apply K2. apply elem_of_app in G1 as [G1|G1]; [by eapply H8|].
    apply list_elem_of_singleton in G1 as ->. assert (En : name_of c = Some n) by by destruct c.
    assert (G : kind_ok c a') by (eapply H7; [by rewrite Ep | exact En | exact Ha']). by destruct c, a' as [|[|]].
  - intros n k G1 G2. apply H9; by apply Hrd.
  - intros Q1 Q2 Q3. destruct (H13 Q1 Q2 Q3) as [n Hn]. exists n. by apply Hrd.
Qed.

Lemma flight_live ph ex hand out rest w p id c n :
  inv ph ex hand out rest w -> pool w = Some p -> pool_lookup id p = Some c -> name_of c = Some n ->
  exists a, live w !! n = Some a /\ kind_ok c a /\ n ∉ waiting hand w.
Proof.
  intros Hi Ep Hc En. assert (Hf : flight (pool w) id = Some c) by by rewrite Ep.
  destruct (iv_placed _ _ _ _ _ _ Hi) as (fl & (F1 & _ & F3) & F4).
  assert (E : fl !! n = Some id) by (apply F1; by exists c). destruct (F4 n (ex_intro _ _ E)) as [a Ha]. exists a.
  split; [exact Ha|]. split; [exact (iv_task _ _ _ _ _ _ Hi _ _ _ _ Hf En Ha)|]. intros Hn. apply F3 in Hn as [_ Hn]. congruence.
Qed.

Lemma flight_read ph ex rest w p id rd :
  inv ph ex [] 0%N rest w -> pool w = Some p -> pool_lookup id p = Some (ReadCompleted rd) -> rest = [].
Proof.
  intros Hi Ep Hc. destruct (flight_live _ _ _ _ _ _ _ _ _ _ Hi Ep Hc eq_refl) as (a & Ha & Hk & Hw). destruct a as [addr|]; [|done].
  destruct (iv_rest _ _ _ _ _ _ Hi) as [[C1 _]|[(b & d & ad & rd' & _ & C2 & _ & C4)|(x & _ & C2)]]; [done| |].
  - exfalso. apply Hw. assert (rd' = rd) as -> by (apply (iv_read _ _ _ _ _ _ Hi); by eexists).
    unfold waiting. rewrite app_nil_r. apply list_elem_of_omap. eexists. split; [exact C2 | done].
  - exfalso. specialize (C2 rd (ex_intro _ _ Ha)). by apply elem_of_nil in C2.
Qed.

(** A completion that brings no datagram leaves what is still to be delivered. *)
Lemma rest_harvest w p' v c rest :
  rest_ok [] w rest -> (forall rd n, ready_of v c <> ReadReady rd (inl (S n))) ->
  rest_ok [] (w <| pool := Some p' |> <| ready := ready w ++ [ready_of v c] |>) rest.
Proof.
  intros [[C1 C2]|[(b & d & ad & rd & C1 & C2 & C3 & C4)|(x & C1 & C2)]] Hv.
  - left. split; [exact C1|]. intros rd n G. apply elem_of_app in G as [G|G]; [by apply (C2 rd n)|].
    apply list_elem_of_singleton in G. by apply (Hv rd n).
  - right. left. exists b, d, ad, rd. split; [exact C1|]. split; [|by split]. apply elem_of_app. by left.
  - right. right. by exists x.
Qed.

Lemma dg_completion_ok rest w p id c res :
  inv Running 0 [] 0%N rest w -> pool w = Some p -> pool_lookup id p = Some c ->
  exists w' rest', ('(w, n) ← complete_op c res w; p ← pool w; '(_, p) ← pool_complete id p;
     Some (w <| pool := Some p |> <| ready := ready w ++ [ready_of n c] |>)) = Some w' /\ inv Running 0 [] 0%N rest' w'.
Proof.
  intros Hi Ep Hc. destruct (pool_complete_ok id c p (iv_pool _ _ _ _ _ _ Hi p Ep) Hc) as (p' & Hp & Hp' & Hl).
  assert (Hplain : forall v, (forall rd n, ready_of v c <> ReadReady rd (inl (S n))) ->
    inv Running 0 [] 0%N rest (w <| pool := Some p' |> <| ready := ready w ++ [ready_of v c] |>)).
  { intros v Hv. apply (harvest_ok rest w p id c v p' (live w) (buffer w) (log w) rest Hi Ep Hc Hp' Hl); [done | apply (iv_data _ _ _ _ _ _ Hi) | done | done|].
    exact (rest_harvest w p' v c rest (iv_rest _ _ _ _ _ _ Hi) Hv). }
  assert (Hdone : forall v, complete_op c res w = Some (w, v) -> (forall rd n, ready_of v c <> ReadReady rd (inl (S n))) ->
    exists w' rest', ('(w, n) ← complete_op c res w; p ← pool w; '(_, p) ← pool_complete id p;
     Some (w <| pool := Some p |> <| ready := ready w ++ [ready_of n c] |>)) = Some w' /\ inv Running 0 [] 0%N rest' w').
  { intros v E Hv. rewrite E. cbn [mbind option_bind]. rewrite Ep. cbn [mbind option_bind]. rewrite Hp. cbn [mbind option_bind].
    eexists _, rest. split; [done | by apply Hplain]. }
  destruct c as [rd|sd|n], res as [d addr|e]; try (eapply Hdone; [reflexivity | by intros ? ?]).
  - destruct (flight_live _ _ _ _ _ _ _ _ _ _ Hi Ep Hc eq_refl) as ([ad|] & Ha & Hk & Hw); [|done]. cbn [complete_op]. rewrite Ha.
    pose proof (flight_read _ _ _ _ _ _ _ Hi Ep Hc) as Er. pose proof (iv_refs _ _ _ _ _ _ Hi) as Erefs.
    destruct (refs w) as [|k] eqn:Ek; [exfalso; assert (El : live w = ∅) by (apply map_size_empty_inv; lia); by rewrite El in Ha|].
    cbn [mbind option_bind]. change (pool (observe _ _)) with (pool w). rewrite Ep. cbn [mbind option_bind]. rewrite Hp. cbn [mbind option_bind].
    eexists _, (match d with [] => [] | _ => [(d, addr)] end). split; [done|].
    assert (Eb : forall l, take (length d) (d ++ l) = d) by (intros l; rewrite take_app_le, take_ge; done || lia).
    apply (harvest_ok rest w p id _ (inl (length d)) p' (<[rd := ReadData addr]> (live w)) (d ++ drop (length d) (buffer w)) (log w ++ [Arrived d addr]) _ Hi Ep Hc Hp' Hl).
    + by apply (same_kinds_read _ _ ad).
    + rewrite arrived_app, delivered_app, (iv_data _ _ _ _ _ _ Hi), Er, app_nil_r. destruct d; cbn; by rewrite ?app_nil_r.
    + rewrite lost_app. change (lost [Arrived d addr]) with 0. lia.
    + rewrite flow_app. by destruct (flow (log w) true).
    + destruct d as [|b d].
      * left. split; [done|]. intros m n G. cbn in G. apply elem_of_app in G as [G|G]; [|by apply list_elem_of_singleton in G].
        assert (Hm : m ∈ waiting [] w) by (unfold waiting; rewrite app_nil_r; apply list_elem_of_omap; eexists; split; [exact G | done]).
        destruct (iv_placed _ _ _ _ _ _ Hi) as (fl & (_ & _ & F3) & _). destruct (proj2 (F3 m) Hm) as [[a Hma] _].
        pose proof (iv_ready _ _ _ _ _ _ Hi _ _ _ G eq_refl Hma) as Km. destruct a; [|done]. apply Hw.
        assert (rd = m) as -> by (apply (iv_read _ _ _ _ _ _ Hi); by eexists). exact Hm.
      * right. left. exists b, d, addr, rd. split; [done|]. split; [cbn; apply elem_of_app; right; by left|].
        split; [exact (Eb _) | apply lookup_insert_eq].
  - destruct (flight_live _ _ _ _ _ _ _ _ _ _ Hi Ep Hc eq_refl) as (a & Ha & Hk & _). destruct a as [|buf ad]; [done|].
    eapply Hdone; [cbn [complete_op]; by rewrite Ha | by intros ? ?].
Qed.

(** ** Runs *)

(** What holds between events. *)
Definition at_rest (w : world) : Prop :=
  exists rest, inv Running 0 [] 0%N rest w \/ inv Releasing 0 [] 0%N rest w /\ pool w = None /\ ready w = [].

Lemma dg_step_ok ev w : at_rest w -> exists w', step alloc_ok ev w = Some w' /\ at_rest w'.
Proof.
  intros (rest & [Hi|(Hi & Ep & Er)]).
  - destruct ev as [c r|id res|i r handler|]; cbn [step].
    + destruct (dg_user_call_ok _ _ _ _ _ c _ _ (respond_ok r) Hi) as (w' & E & Hi' & _). exists w'. split; [exact E|]. exists rest. by left.
    + destruct (flight (pool w) id) as [c|] eqn:Ef; [|exists w; split; [done|]; exists rest; by left].
      destruct (match res with Success d _ => _ | Failure _ => false end); [exists w; split; [done|]; exists rest; by left|].
      destruct (pool w) as [p|] eqn:Ep; [|done]. destruct (dg_completion_ok rest w p id c res Hi Ep Ef) as (w' & rest' & E & Hi').
      exists w'. split; [exact E|]. exists rest'. by left.
    + destruct (ready w !! i) as [c|] eqn:Ei; [|exists w; split; [done|]; exists rest; by left].
      destruct (dg_run_ready_ok (take i (ready w)) c (drop (S i) (ready w)) r handler rest w Hi) as (w' & rest' & E & Hi').
      { by rewrite take_drop_middle. }
      exists w'. split; [exact E|]. exists rest'. by left.
    + destruct (close_loop_ok rest w Hi) as (w' & E & Hi' & Ep & Er). exists w'. split; [exact E|]. exists rest. by right.
  - assert (Hsame : at_rest w) by (exists rest; by right).
    destruct ev as [c r|id res|i r handler|]; cbn [step].
    + destruct (dg_user_call_ok _ _ _ _ _ c _ _ (respond_ok r) Hi) as (w' & E & Hi' & _ & G & _). exists w'. split; [exact E|].
      exists rest. right. destruct (G Ep) as [G1 G2]. split; [exact Hi'|]. split; [exact G1 | by rewrite G2].
    + rewrite Ep. by exists w.
    + rewrite Er, lookup_nil. by exists w.
    + unfold close_loop. rewrite Ep. by exists w.
Qed.

Lemma dg_run_ok evs : forall w, at_rest w -> exists w', run alloc_ok evs w = Some w' /\ at_rest w'.
Proof.
  induction evs as [|ev evs IH]; intros w Hw; cbn [run]; [by exists w|].
  destruct (dg_step_ok ev w Hw) as (w1 & -> & Hw1). cbn [mbind option_bind]. by apply IH.
Qed.

Lemma new_transport_inv p :
  pool_ok p -> (forall id c, pool_lookup id p = Some c -> name_of c = None) -> inv Creating 1 [] 0%N [] (new_transport fixed_ok p).
Proof.
  intros Hp Hno. split; cbn; try done.
  - intros n [a Ha]. by rewrite lookup_empty in Ha.
  - by intros q [= <-].
  - exists ∅. split; [|intros n [? Hn]; by rewrite lookup_empty in Hn]. split; [|split; [constructor|]].
    + intros n id. cbn. rewrite lookup_empty. split; [done|]. intros (c & G1 & G2). rewrite (Hno id c G1) in G2. done.
    + intros n. cbn. rewrite lookup_empty, elem_of_nil. split; [by intros [[? ?] _] | done].
  - intros n m [a Ha]. cbn in Ha. by rewrite lookup_empty in Ha.
  - left. split; [done|]. intros rd n. apply not_elem_of_nil.
Qed.

(** The first read of an endpoint. *)
Lemma first_read w :
  inv Creating 1 [] 0%N [] w -> (forall n, ~ reading w n) ->
  exists w' b, queue_read alloc_ok w = Some (w', b) /\ inv Running 1 [] 0%N [] w' /\ (b = false -> failures w' <> 0).
Proof.
  intros Hi Hno. assert (Hp : pool w <> None) by (intros E; discriminate (iv_phase _ _ _ _ _ _ Hi E)).
  assert (Hrun : forall w', inv Creating 1 [] 0%N [] w' -> pool w' <> None -> (failures w' <> 0 \/ closed w' = true \/ exists n, reading w' n) -> inv Running 1 [] 0%N [] w').
  { intros w' Hi' Hp' Hc. apply (inv_phase Creating); try done. intros _ Q2 Q3. destruct Hc as [?|[?|?]]; congruence || done. }
  assert (Hz : refs w <> 0) by (rewrite (iv_refs _ _ _ _ _ _ Hi); lia).
  unfold queue_read. destruct (closed w || negb (fd_open w)) eqn:Ecl.
  - assert (Ec : closed w = true) by (rewrite <- (iv_closed _ _ _ _ _ _ Hi) in Ecl; by destruct (closed w)).
    exists w, true. split; [done|]. split; [by apply Hrun; auto | done].
  - cbn zeta. destruct (alloc_inv _ _ _ _ _ _ Hi) as (w1 & b & -> & Hi1 & _ & Hb1 & L1 & A1 & _ & Ew1).
    assert (Hp1 : pool w1 <> None) by (rewrite Ew1; exact Hp).
    destruct b; [|exists w1, false; split; [done|]; split; [apply Hrun; auto | auto]].
    destruct (queue_cases _ _ _ _ _ (ReadCompleted (allocs w)) _ Hi1) as [(w' & -> & Hi' & _ & Hz' & _)|(p' & id & -> & Hqd)]; cbn [mbind option_bind].
    { exists w', false. split; [done|]. split; [|done]. apply Hrun; auto. intros E. discriminate (iv_phase _ _ _ _ _ _ Hi' E). }
    assert (Hfr : live w1 !! allocs w = None).
    { destruct (live w1 !! allocs w) eqn:E; [|done]. rewrite L1 in E. pose proof (iv_names _ _ _ _ _ _ Hi _ (ex_intro _ _ E)). lia. }
    assert (Hno1 : forall n, ~ reading w1 n) by (intros n [a Ha]; rewrite L1 in Ha; apply (Hno n); by exists a).
    assert (Hz1 : refs w1 <> 0) by (rewrite Ew1; exact Hz).
    pose proof (launch Creating 1 [] 0%N [] w1 (allocs w) (ReadData None) (ReadCompleted (allocs w)) id p' Hi1 Hqd Hfr ltac:(lia) eq_refl I ltac:(done) Hz1) as Hi3.
    unfold incref. change (refs (_ <| read_task_id := Some id |>)) with (refs w1). destruct (refs w1) as [|n] eqn:En; [done|]. cbn [mbind option_bind].
    eexists _, true. split; [done|]. split; [|done]. apply (Hrun _ (inv_task _ _ _ _ _ (Some id) _ Hi3)); [done|].
    right. right. exists (allocs w), None. cbn. apply lookup_insert_eq.
Qed.

Lemma dg_create_ok r p :
  pool_ok p -> (forall id c, pool_lookup id p = Some c -> name_of c = None) ->
  exists w ok, create_endpoint alloc_ok fixed_ok r p = Some (w, ok) /\ inv Running 0 [] 0%N [] w /\ (ok = false -> failures w <> 0).
Proof.
  intros Hp Hno. pose proof (new_transport_inv p Hp Hno) as Hi0. unfold create_endpoint.
  destruct (upcall_silent _ _ _ _ _ ConnectionMade _ _ (respond_ok r) eq_refl Hi0) as (w1 & b & -> & Hf & Hi1 & Hb). cbn [mbind option_bind].
  assert (Hn1 : forall n, ~ reading w1 n).
  { intros n Hn. destruct Hf as (_ & _ & _ & _ & Hf). destruct (Hf n Hn) as [a Ha]. cbn in Ha. by rewrite lookup_empty in Ha. }
  assert (Hp1 : pool w1 <> None) by (intros E; discriminate (iv_phase _ _ _ _ _ _ Hi1 E)).
  assert (Hsec : exists w2 b2, (if b then queue_read alloc_ok w1 else Some (w1, false)) = Some (w2, b2)
    /\ inv Running 1 [] 0%N [] w2 /\ (b2 = false -> failures w2 <> 0)).
  { destruct b; [by apply first_read|]. exists w1, false. split; [done|]. split; [|auto]. apply (inv_phase Creating); try done.
    intros _ Q. by destruct (Hb eq_refl). }
  destruct Hsec as (w2 & b2 & -> & Hi2 & Hb2). cbn [mbind option_bind]. destruct b2; cbn [mbind option_bind].
  - destruct (dg_incref_ok _ _ _ _ _ _ Hi2) as [-> Hi3]; [rewrite (iv_refs _ _ _ _ _ _ Hi2); lia|]. cbn [mbind option_bind].
    pose proof (inv_held _ _ _ _ _ _ _ Hi3 ltac:(done) eq_refl) as Hi4.
    destruct (dg_decref_ok _ _ _ _ _ _ Hi4 ltac:(done)) as (w3 & E3 & Hi5 & _). rewrite E3. cbn [mbind option_bind]. by exists w3, true.
  - destruct (dg_decref_ok _ _ _ _ _ _ Hi2 ltac:(done)) as (w3 & -> & Hi5 & Hf3 & _). cbn [mbind option_bind].
    exists w3, false. split; [done|]. split; [exact Hi5|]. intros _ Q. specialize (Hb2 eq_refl). destruct Hf3 as (_ & _ & Hl & _). lia.
Qed.

(** An endpoint, and what happens to it. *)
Definition reachable (r : response) (evs : list event) (p : P) (w : world) : Prop :=
  exists w0 ok, create_endpoint alloc_ok fixed_ok r p = Some (w0, ok) /\ run alloc_ok evs w0 = Some w.

Lemma dg_reachable_inv r evs p w :
  pool_ok p -> (forall id c, pool_lookup id p = Some c -> name_of c = None) -> reachable r evs p w -> at_rest w.
Proof.
  intros Hp Hno (w0 & ok & E & Er). destruct (dg_create_ok r p Hp Hno) as (w1 & ok1 & E1 & Hi & _).
  rewrite E in E1. injection E1 as <- <-. destruct (dg_run_ok evs w0) as (w2 & E2 & H2); [exists []; by left|]. congruence.
Qed.

(** ** Properties *)

(** C20: No run of a datagram endpoint uses memory that was freed or drops a reference
    it does not have, provided an operation that could not be queued leaves nothing
    in flight ([TaskPoolLaws]; a submission that fails late stays in the ring while
    its data is freed, see [IoTasks.failed_submission_stays_queued]) and no operation
    of the pool has the name of one of the endpoint.  Then whatever the protocol does
    when it is called, whichever allocations, conversions, reads, sends and queueings
    fail and however the operations complete: afterwards every reference is one of Python code
    or of an operation in flight, at most one of which is a read, the bytes counted as
    unsent are those of the sends in flight, and a closed loop has left none behind. *)
Theorem datagram_never_faults r evs p :
  pool_ok p -> (forall id c, pool_lookup id p = Some c -> name_of c = None) ->
  exists w, reachable r evs p w /\ refs w = held w + size (live w) /\ buffer_size w = bytes_of (live w)
    /\ (forall n m, reading w n -> reading w m -> n = m) /\ (refs w = 0 -> closed w = true /\ fd_open w = false)
    /\ (pool w = None -> live w = ∅).
Proof.
  intros Hp Hno. destruct (dg_create_ok r p Hp Hno) as (w0 & ok & E & Hi & _).
  destruct (dg_run_ok evs w0) as (w & Er & rest & Hw); [exists []; by left|]. exists w. split; [by exists w0, ok|].
  assert (Hi' : exists ph, inv ph 0 [] 0%N rest w) by (destruct Hw as [Hw|[Hw _]]; by eexists). destruct Hi' as [ph Hi'].
  split; [rewrite (iv_refs _ _ _ _ _ _ Hi'); lia|]. split; [pose proof (iv_bytes _ _ _ _ _ _ Hi'); lia|].
  split; [exact (iv_read _ _ _ _ _ _ Hi')|]. split.
  - intros Hz. pose proof (iv_freed _ _ _ _ _ _ Hi' Hz) as Ec. split; [exact Ec|].
    pose proof (iv_closed _ _ _ _ _ _ Hi') as G. rewrite Ec in G. by destruct (fd_open w).
  - intros Ep. destruct Hw as [Hw|(Hw & _ & Er')]; [discriminate (iv_phase _ _ _ _ _ _ Hw Ep) | by apply (closed_empty rest)].
Qed.

(** C21: Where an operation that could not be queued leaves nothing in flight
    ([TaskPoolLaws]), the datagrams that are not empty reach the protocol unchanged and
    in the order in which they arrive, all but at most one; as long as nothing failed and the
    transport and its loop are open a read is armed, and the one missing datagram is
    that of a callback that is ready. *)
Theorem datagrams_in_order r evs p w :
  pool_ok p -> (forall id c, pool_lookup id p = Some c -> name_of c = None) -> reachable r evs p w ->
  exists rest, arrived (log w) = delivered (log w) ++ rest /\ length rest <= 1
    /\ (failures w = 0 -> closed w = false -> is_Some (pool w) -> (exists n, reading w n)
        /\ forall d a, rest = [(d, a)] -> exists rd, ReadReady rd (inl (length d)) ∈ ready w
             /\ take (length d) (buffer w) = d /\ live w !! rd = Some (ReadData a)).
Proof.
  intros Hp Hno Hr. destruct (dg_reachable_inv r evs p w Hp Hno Hr) as (rest & Hw). exists rest.
  assert (Hi' : exists ph, inv ph 0 [] 0%N rest w) by (destruct Hw as [Hw|[Hw _]]; by eexists). destruct Hi' as [ph Hi'].
  split; [exact (iv_data _ _ _ _ _ _ Hi')|]. pose proof (iv_rest _ _ _ _ _ _ Hi') as Hrest. split.
  - destruct Hrest as [[-> _]|[(b & d & a & rd & -> & _)|(x & -> & _)]]; cbn; lia.
  - intros Q1 Q2 [q Q3]. destruct Hw as [Hw|(_ & Ep & _)]; [|congruence].
    destruct (iv_armed _ _ _ _ _ _ Hw eq_refl Q1 Q2) as [n Hn]. split; [by exists n|]. intros d a ->.
    destruct Hrest as [[? _]|[(b & d' & a' & rd & E & C2 & C3 & C4)|(x & _ & C2)]]; [done| |].
    + injection E as -> ->. by exists rd.
    + exfalso. specialize (C2 n Hn). by apply elem_of_nil in C2.
Qed.

(** The protocol hears of the loss of the connection once, only when the transport was
    closed and always then, and of the pause and resumption of writing in turn, if
    nothing fails. *)
Theorem datagram_protocol_calls r evs p w :
  pool_ok p -> (forall id c, pool_lookup id p = Some c -> name_of c = None) -> reachable r evs p w ->
  lost (log w) <= (if closed w then 1 else 0)
  /\ (failures w = 0 -> flow (log w) true = Some (is_writing w))
  /\ (failures w = 0 -> closed w = true -> is_Some (pool w) -> lost (log w) = 1 \/ LostHandle ∈ ready w).
Proof.
  intros Hp Hno Hr. destruct (dg_reachable_inv r evs p w Hp Hno Hr) as (rest & Hw).
  assert (Hi' : exists ph, inv ph 0 [] 0%N rest w) by (destruct Hw as [Hw|[Hw _]]; by eexists). destruct Hi' as [ph Hi'].
  split; [pose proof (iv_lost _ _ _ _ _ _ Hi'); lia|]. split; [exact (iv_flow _ _ _ _ _ _ Hi')|].
  intros Q1 Q2 [q Q3]. destruct Hw as [Hw|(_ & Ep & _)]; [|congruence]. pose proof (iv_told _ _ _ _ _ _ Hw ltac:(done) Q1 Q2) as G.
  destruct (losing (ready w)) eqn:El; [left; lia|]. right. unfold losing in El.
  assert (Hin : exists c, c ∈ filter (fun c => is_handle c = true) (ready w)) by (destruct (filter _ _) as [|c l]; [done | exists c; by left]).
  destruct Hin as [c Hc]. apply list_elem_of_filter in Hc as [Hc1 Hc2]. by destruct c.
Qed.
End DatagramProofs.

(** ** Examples *)

Definition all_ok (n : nat) : bool := true.

Definition sample_dgrams : TaskPool (io (C := task_callback)) task_callback :=
  io_pool (C := task_callback) 4 all_ok all_ok sample_addr.

Definition empty_io : io (C := task_callback) := IoTasks.init sample_addr.

Definition quiet : response := Response [] false.

Lemma dgram_fresh :
  let tp := sample_dgrams in
  @pool_ok _ _ tp empty_io /\ forall id c, @pool_lookup _ _ tp id empty_io = Some c -> name_of c = None.
Proof. split; [apply io_init_ok; lia | by intros [[|[|i]] j] c]. Qed.

Lemma sample_dgrams_laws : @TaskPoolLaws (io (C := task_callback)) task_callback sample_dgrams.
Proof. apply io_pool_laws; [lia | reflexivity | exact sample_addr_fresh]. Qed.

Definition hello : bytes := [x68; x69].

(** A datagram arrives and is answered from its callback, another one is sent, and the
    transport and the loop are closed. *)
Definition dgram_events : list event :=
  [Completion (1, 0) (Success hello (Some (Ip4 [x7f; x00; x00; x01] 9)));
   RunReady 0 (Response [(SendTo hello NoAddr, quiet)] false) quiet;
   Completion (1, 0) (Success [] None); RunReady 0 quiet quiet;
   UserCall (SendTo hello (Addr (Ip4 [x7f; x00; x00; x01] 9))) quiet; UserCall Close quiet; RunReady 0 quiet quiet; CloseLoop].

Definition sample_dgram_run (r : response) (evs : list event) : option world :=
  '(w, _) ← create_endpoint (H := sample_dgrams) all_ok all_ok r empty_io; run (H := sample_dgrams) all_ok evs w.

Lemma dgram_sample_log :
  (fun w => (log w, refs w, pool w)) <$> sample_dgram_run quiet dgram_events
  = Some ([ConnectionMade; Arrived hello (Some (Ip4 [x7f; x00; x00; x01] 9)); DatagramReceived hello (Some (Ip4 [x7f; x00; x00; x01] 9));
           Queued hello None; Queued hello (Some (Ip4 [x7f; x00; x00; x01] 9)); Cancelled (Some (ReadCompleted 5)); FdClosed; ConnectionLost], 1, None).
Proof. by vm_compute. Qed.

Lemma datagram_never_faults_witness :
  let TP := sample_dgrams in
  @pool_ok _ _ TP empty_io /\ exists w, reachable (H := TP) all_ok all_ok quiet dgram_events empty_io w
    /\ refs w = held w + size (live w) /\ buffer_size w = bytes_of (live w)
    /\ (forall n m, reading w n -> reading w m -> n = m)
    /\ (refs w = 0 -> closed w = true /\ fd_open w = false) /\ (pool w = None -> live w = ∅).
Proof.
  split; [exact (proj1 dgram_fresh)|].
  exact (@datagram_never_faults _ sample_dgrams sample_dgrams_laws all_ok all_ok quiet dgram_events empty_io (proj1 dgram_fresh) (proj2 dgram_fresh)).
Defined.

Lemma sample_reachable r evs w :
  sample_dgram_run r evs = Some w -> reachable (H := sample_dgrams) all_ok all_ok r evs empty_io w.
Proof.
  unfold sample_dgram_run. intros E. destruct (create_endpoint (H := sample_dgrams) all_ok all_ok r empty_io) as [[w0 ok]|] eqn:E0; [|done].
  by exists w0, ok.
Qed.

Lemma datagrams_in_order_witness :
  exists w, sample_dgram_run quiet (take 2 dgram_events) = Some w /\ delivered (log w) = [(hello, Some (Ip4 [x7f; x00; x00; x01] 9))]
    /\ exists rest, arrived (log w) = delivered (log w) ++ rest /\ length rest <= 1
    /\ (failures w = 0 -> closed w = false -> is_Some (pool w) -> (exists n, reading w n)
        /\ forall d a, rest = [(d, a)] -> exists rd, ReadReady rd (inl (length d)) ∈ ready w
             /\ take (length d) (buffer w) = d /\ live w !! rd = Some (ReadData a)).
Proof.
  destruct (sample_dgram_run quiet (take 2 dgram_events)) as [w|] eqn:E; [|exfalso; by vm_compute in E].
  exists w. split; [reflexivity|]. split; [vm_compute in E; injection E as <-; reflexivity|].
  exact (@datagrams_in_order _ sample_dgrams sample_dgrams_laws all_ok all_ok quiet (take 2 dgram_events) empty_io w
    (proj1 dgram_fresh) (proj2 dgram_fresh) (sample_reachable _ _ _ E)).
Defined.

(** The bytes of a datagram are taken off the count after the low mark was looked at: a
    transport that was paused has nothing left to send and stays paused. *)
Lemma paused_with_nothing_to_send :
  (fun w => (is_writing w, buffer_size w, writing_low_water_mark w, ready w, failures w, log w)) <$>
    sample_dgram_run quiet [UserCall (SetWriteBufferLimits 1 (Some 1%N)) quiet; UserCall (SendTo hello NoAddr) quiet;
      Completion (1, 1) (Success [] None); RunReady 0 quiet quiet]
  = Some (false, 0%N, 1%N, [], 0, [ConnectionMade; Queued hello None; PauseWriting]).
Proof. by vm_compute. Qed.

(** An exception in [datagram_received] leaves the transport open with no read. *)
Lemma deaf_after_exception :
  (fun w => (closed w, fd_open w, read_task_id w, live w, ready w)) <$>
    sample_dgram_run quiet [Completion (1, 0) (Success hello None); RunReady 0 (Response [] true) quiet]
  = Some (false, true, None, ∅, []).
Proof. by vm_compute. Qed.

(** An empty datagram is not delivered. *)
Lemma empty_datagram_dropped :
  (fun w => (log w, failures w)) <$> sample_dgram_run quiet [Completion (1, 0) (Success [] None); RunReady 0 quiet quiet]
  = Some ([ConnectionMade; Arrived [] None], 0).
Proof. by vm_compute. Qed.

(** The id of a read that completed is cleared by its callback only: code that runs
    before it and closes the transport cancels the operation that has the slot now. *)
Lemma late_close_cancels_another :
  log <$> sample_dgram_run quiet [Completion (1, 0) (Success hello None); UserCall (OtherOperation 7) quiet; UserCall Close quiet]
  = Some [ConnectionMade; Arrived hello None; Cancelled (Some (OtherTask 7)); FdClosed].
Proof. by vm_compute. Qed.
