(* ===== verification/RingBuffer.v ===== *)
(** * The ready queue

    [DynamicRingBuffer] of src/src/callback_manager.zig: the growable ring the
    event loop keeps its ready callbacks in.  [callbacks] and [executed] are the
    two slices of [capacity] slots, the indices count pushes and pops and are
    masked when a slot is addressed.  A slot that was never written is [None].

    Indices and capacities are [N]; the bounds the code tests ([maxInt(usize)])
    are written out.  The indices themselves are not wrapped: [reset] takes them
    back to zero every time an iteration finds the queue empty.  The atomic
    loads and stores order the two threads that can touch the queue under the
    loop's mutex; the operations are modelled one after the other. *)

From S2P Require Import Prelude.
From Stdlib Require Import NArith Lia.
From stdpp Require Import base numbers list.

Open Scope N_scope.

Definition usize_bits : N := 64.
Definition maxInt_usize : N := 2 ^ usize_bits - 1.

(** [ceilPowerOfTwo]; [None] is [error.OutOfMemory]. *)
Definition ceilPowerOfTwo (val : N) : option N :=
  if val <=? 1 then Some 1
  else if N.shiftl 1 (usize_bits - 1) <? val then None
  else
    let x := val - 1 in
    let x := N.lor x (N.shiftr x 1) in
    let x := N.lor x (N.shiftr x 2) in
    let x := N.lor x (N.shiftr x 4) in
    let x := N.lor x (N.shiftr x 8) in
    let x := N.lor x (N.shiftr x 16) in
    let x := N.lor x (N.shiftr x 32) in
    Some (x + 1).

Section Ring.
Context {A : Type}.

Record DynamicRingBuffer := Ring {
  callbacks : list (option A);
  executed : list bool;
  capacity : N;
  read_idx : N;
  write_idx : N }.

Implicit Types (r : DynamicRingBuffer) (q : list A).

Definition init (cap : N) : option DynamicRingBuffer :=
  actual_capacity ← ceilPowerOfTwo cap;
  Some (Ring (replicate (N.to_nat actual_capacity) None)
             (replicate (N.to_nat actual_capacity) false)
             actual_capacity 0 0).

(** [idx & (self.capacity - 1)]. *)
Definition slot r (idx : N) : nat := N.to_nat (N.land idx (capacity r - 1)).

Definition count r : N := write_idx r - read_idx r.
Definition is_full r : bool := count r =? capacity r.
Definition is_empty r : bool := read_idx r =? write_idx r.

Definition try_push r (callback : A) : bool * DynamicRingBuffer :=
  if write_idx r - read_idx r =? capacity r then (false, r)
  else
    let idx := slot r (write_idx r) in
    (true, Ring (<[idx := Some callback]> (callbacks r))
                (<[idx := false]> (executed r))
                (capacity r) (read_idx r) (write_idx r + 1)).

(** The slots [grow] copies, from the oldest to the newest. *)
Definition live_slots {B} r (d : B) (slots : list B) : list B :=
  map (fun i => default d (slots !! slot r (read_idx r + N.of_nat i)))
      (seq 0 (N.to_nat (count r))).

(** [alloc_ok] says whether the two allocations succeed; [None] is
    [error.OutOfMemory], and the old slices are untouched. *)
Definition grow (alloc_ok : bool) r : option DynamicRingBuffer :=
  let old_cap := capacity r in
  if maxInt_usize / 2 <? old_cap then None
  else
    let new_cap := old_cap * 2 in
    let n := count r in
    if negb alloc_ok then None
    else Some (Ring (live_slots r None (callbacks r)
                       ++ replicate (N.to_nat (new_cap - n)) None)
                    (live_slots r false (executed r)
                       ++ replicate (N.to_nat (new_cap - n)) false)
                    new_cap 0 n).

(** [false] is [error.RingBufferOverflow]. *)
Definition push r (callback : A) : bool * DynamicRingBuffer := try_push r callback.

(** [false] is an error: [OutOfMemory] from [grow] or [RingBufferOverflow]. *)
Definition push_or_grow (alloc_ok : bool) r (callback : A) : bool * DynamicRingBuffer :=
  match try_push r callback with
  | (true, r') => (true, r')
  | (false, _) =>
      match grow alloc_ok r with
      | None => (false, r)
      | Some r' => try_push r' callback
      end
  end.

(** A pointer to the oldest callback; the inner [None] is a slot that was never
    written. *)
Definition next r : option (option A) :=
  if read_idx r =? write_idx r then None
  else Some (default None (callbacks r !! slot r (read_idx r))).

Definition consume r : DynamicRingBuffer :=
  let idx := slot r (read_idx r) in
  Ring (callbacks r) (<[idx := true]> (executed r)) (capacity r)
       (read_idx r + 1) (write_idx r).

Definition reset r : DynamicRingBuffer :=
  Ring (callbacks r) (map (fun _ => false) (executed r)) (capacity r) 0 0.

(** The callbacks [traverse] shows the garbage collector: the slots between the
    indices that are not marked executed. *)
Definition traverse r : list (option A) :=
  omap (fun i =>
          let idx := slot r (read_idx r + N.of_nat i) in
          if default false (executed r !! idx) then None
          else Some (default None (callbacks r !! idx)))
       (seq 0 (N.to_nat (count r))).

(** ** The abstract queue *)

(** [repr r q]: the ring holds exactly the queue [q], oldest first. *)
Record repr r q : Prop := {
  repr_pow2 : exists k, capacity r = 2 ^ k;
  repr_callbacks : length (callbacks r) = N.to_nat (capacity r);
  repr_executed : length (executed r) = N.to_nat (capacity r);
  repr_count : write_idx r = read_idx r + N.of_nat (length q);
  repr_room : N.of_nat (length q) <= capacity r;
  repr_slots : forall i x, q !! i = Some x ->
    callbacks r !! slot r (read_idx r + N.of_nat i) = Some (Some x)
    /\ executed r !! slot r (read_idx r + N.of_nat i) = Some false }.

Lemma slot_mod r idx : (exists k, capacity r = 2 ^ k) -> slot r idx = N.to_nat (idx mod capacity r).
Proof.
  intros [k Hk]. unfold slot. rewrite Hk. f_equal.
  rewrite <- N.land_ones. f_equal. rewrite N.ones_equiv. lia.
Qed.

Lemma slot_lt r idx : (exists k, capacity r = 2 ^ k) -> (slot r idx < N.to_nat (capacity r))%nat.
Proof.
  intros H. rewrite slot_mod by exact H. destruct H as [k ->].
  pose proof (N.mod_lt idx (2 ^ k) (N.pow_nonzero 2 k ltac:(lia))). lia.
Qed.

(** Two live positions use different slots. *)
Lemma slot_inj r i j :
  (exists k, capacity r = 2 ^ k) -> i < j -> j < i + capacity r -> slot r i <> slot r j.
Proof.
  intros H Hij Hlt E. rewrite !slot_mod in E by exact H. apply N2Nat.inj in E.
  assert (Hc : capacity r <> 0) by (destruct H as [k ->]; apply N.pow_nonzero; lia).
  pose proof (N.div_mod i (capacity r) Hc) as Hi.
  pose proof (N.div_mod j (capacity r) Hc) as Hj.
  rewrite E in Hi. set (c := capacity r) in *. set (m := j mod c) in *.
  assert (c * (j / c) = c * (i / c) + (j - i)) by lia.
  assert (i / c < j / c) by nia.
  assert (c * (i / c) + c <= c * (j / c)) by nia. lia.
Qed.
Lemma repr_full r q x :
  repr r q -> N.of_nat (length q) = capacity r -> try_push r x = (false, r).
Proof.
  intros [] H. unfold try_push. rewrite (proj2 (N.eqb_eq _ _)); [reflexivity | lia].
Qed.

Lemma repr_try_push r q x :
  repr r q -> N.of_nat (length q) < capacity r ->
  exists r', try_push r x = (true, r') /\ repr r' (q ++ [x]) /\ capacity r' = capacity r.
Proof.
  intros [Hp Hc He Hn Hr Hs] H. unfold try_push.
  rewrite (proj2 (N.eqb_neq _ _)) by lia. eexists. split; [reflexivity|].
  split; [|reflexivity].
  pose proof (slot_lt r (write_idx r) Hp) as Hw.
  constructor; cbn [callbacks executed capacity read_idx write_idx]; rewrite ?length_insert;
    try assumption; rewrite ?length_app; cbn [length]; try lia.
  intros i y. unfold slot in *. cbn [capacity] in *. intros Hi.
  apply lookup_app_Some in Hi as [Hi|[Hl Hi]].
  - pose proof (lookup_lt_Some _ _ _ Hi) as Hlt.
    assert (Hne : slot r (read_idx r + N.of_nat i) <> slot r (write_idx r))
      by (apply slot_inj; [exact Hp | lia | lia]).
    unfold slot in Hne. rewrite !list_lookup_insert_ne by congruence. now apply Hs.
  - apply list_lookup_singleton_Some in Hi as [Hi <-].
    replace (read_idx r + N.of_nat i) with (write_idx r) by lia.
    rewrite !list_lookup_insert_eq by lia. auto.
Qed.

Lemma live_slots_length {B} r (d : B) slots :
  length (live_slots r d slots) = N.to_nat (count r).
Proof. unfold live_slots. now rewrite length_map, length_seq. Qed.

Lemma live_slots_lookup {B} r (d : B) slots i x :
  (i < N.to_nat (count r))%nat ->
  slots !! slot r (read_idx r + N.of_nat i) = Some x ->
  live_slots r d slots !! i = Some x.
Proof.
  intros Hi Hx. unfold live_slots. rewrite list_lookup_fmap, lookup_seq_lt by exact Hi.
  cbn. now rewrite Hx.
Qed.

Lemma repr_grow r q :
  repr r q -> capacity r <= maxInt_usize / 2 ->
  exists r', grow true r = Some r' /\ repr r' q /\ capacity r' = 2 * capacity r.
Proof.
  intros [Hp Hc He Hn Hr Hs] H. unfold grow.
  rewrite (proj2 (N.ltb_ge _ _)) by exact H. eexists. split; [reflexivity|].
  cbn [capacity]. split; [|lia].
  assert (Hcount : count r = N.of_nat (length q)) by (unfold count; lia).
  constructor; cbn [callbacks executed capacity read_idx write_idx];
    rewrite ?length_app, ?live_slots_length, ?length_replicate; try lia.
  - destruct Hp as [k ->]. exists (N.succ k). rewrite N.pow_succ_r'. lia.
  - intros i x Hi. pose proof (lookup_lt_Some _ _ _ Hi) as Hlt.
    assert (Hsl : slot (Ring (callbacks r) (executed r) (capacity r * 2) 0 0) (0 + N.of_nat i) = i).
    { rewrite slot_mod; cbn [capacity].
      - rewrite N.mod_small by lia. lia.
      - destruct Hp as [k ->]. exists (N.succ k). rewrite N.pow_succ_r'. lia. }
    unfold slot in Hsl |- *. cbn [capacity] in *. rewrite Hsl.
    destruct (Hs i x Hi) as [H1 H2].
    rewrite !lookup_app_l by (rewrite live_slots_length; lia).
    split; apply live_slots_lookup; (lia || assumption).
Qed.

Lemma repr_grow_fails alloc_ok r :
  alloc_ok = false \/ maxInt_usize / 2 < capacity r -> grow alloc_ok r = None.
Proof.
  unfold grow. intros [->|H]; [now destruct (_ <? _)|].
  now rewrite (proj2 (N.ltb_lt _ _)).
Qed.

(** Pushing: the queue grows at its end, or the push fails and nothing
    changes. *)
Lemma repr_push_or_grow alloc_ok r q x :
  repr r q ->
  match push_or_grow alloc_ok r x with
  | (true, r') => repr r' (q ++ [x])
  | (false, r') =>
      r' = r /\ (alloc_ok = false \/ maxInt_usize / 2 < N.of_nat (length q))
  end.
Proof.
  intros H. unfold push_or_grow.
  destruct (decide (N.of_nat (length q) < capacity r)) as [Hlt|Hge].
  - destruct (repr_try_push r q x H Hlt) as (r' & -> & Hr & _). exact Hr.
  - pose proof (repr_room _ _ H) as Hroom.
    rewrite (repr_full r q x H) by lia.
    destruct (decide (capacity r <= maxInt_usize / 2)) as [Hc|Hc].
    + destruct alloc_ok.
      * destruct (repr_grow r q H Hc) as (r' & -> & Hr & Hcap).
        assert (Hpos : 0 < capacity r).
        { destruct (repr_pow2 _ _ H) as [k ->].
          pose proof (N.pow_nonzero 2 k ltac:(lia)). lia. }
        destruct (repr_try_push r' q x Hr) as (r'' & -> & Hr' & _); [lia | exact Hr'].
      * rewrite repr_grow_fails by auto. auto.
    + rewrite repr_grow_fails by (right; lia). split; [reflexivity | right; lia].
Qed.

Lemma repr_next r q : repr r q -> next r = Some <$> head q.
Proof.
  intros [Hp Hc He Hn Hr Hs]. unfold next. destruct q as [|x q].
  - rewrite (proj2 (N.eqb_eq _ _)); [reflexivity | cbn in Hn; lia].
  - rewrite (proj2 (N.eqb_neq _ _)) by (cbn in Hn; lia).
    destruct (Hs 0%nat x eq_refl) as [H _]. cbn [N.of_nat] in H. rewrite N.add_0_r in H.
    now rewrite H.
Qed.

Lemma repr_consume r x q : repr r (x :: q) -> repr (consume r) q.
Proof.
  intros [Hp Hc He Hn Hr Hs]. cbn [length] in *.
  constructor; cbn [consume callbacks executed capacity read_idx write_idx];
    rewrite ?length_insert; try assumption; try lia.
  intros i y Hi. pose proof (lookup_lt_Some _ _ _ Hi) as Hlt.
  destruct (Hs (S i) y Hi) as [H1 H2].
  replace (read_idx r + N.of_nat (S i)) with (read_idx r + 1 + N.of_nat i) in * by lia.
  unfold slot in *. cbn [consume capacity].
  split; [exact H1|]. rewrite list_lookup_insert_ne; [exact H2|].
  apply (slot_inj r); [exact Hp | lia | lia].
Qed.

Lemma repr_reset r q : repr r q -> repr (reset r) [].
Proof.
  intros [Hp Hc He Hn Hr Hs].
  constructor; cbn [reset callbacks executed capacity read_idx write_idx];
    rewrite ?length_map; try assumption; [reflexivity | cbn; lia |].
  intros i x Hi. discriminate.
Qed.

(** The garbage collector sees every queued callback once. *)
Lemma repr_traverse r q : repr r q -> traverse r = Some <$> q.
Proof.
  intros [Hp Hc He Hn Hr Hs]. unfold traverse.
  replace (N.to_nat (count r)) with (length q) by (unfold count; lia).
  assert (Hgen : forall n m, (n + m = length q)%nat ->
            omap (fun i =>
              let idx := slot r (read_idx r + N.of_nat i) in
              if default false (executed r !! idx) then None
              else Some (default None (callbacks r !! idx))) (seq n m)
            = Some <$> drop n q).
  { intros n m. revert n. induction m as [|m IH]; intros n Hnm.
    - cbn. rewrite drop_ge by lia. reflexivity.
    - destruct (lookup_lt_is_Some_2 q n ltac:(lia)) as [x Hx].
      rewrite (drop_S q x n Hx). cbn [seq omap list_omap fmap list_fmap].
      destruct (Hs n x Hx) as [-> ->]. cbn. f_equal. apply IH. lia. }
  etransitivity; [exact (Hgen 0%nat (length q) eq_refl)|]. now rewrite drop_0.
Qed.
End Ring.
Arguments DynamicRingBuffer A : clear implicits.

(** ** The capacity *)

(** Some bit of [x] among the [w] bits from [i] up. *)
Definition window (x : N) (w : nat) (i : N) : bool :=
  existsb (fun d => N.testbit x (i + N.of_nat d)) (seq 0 w).

Lemma existsb_ext {B} (f g : B -> bool) l :
  (forall x, f x = g x) -> existsb f l = existsb g l.
Proof. intros H. induction l as [|x l IH]; cbn; [reflexivity | now rewrite H, IH]. Qed.

Lemma existsb_seq_shift (f : nat -> bool) s w :
  existsb f (seq s w) = existsb (fun d => f (s + d)%nat) (seq 0 w).
Proof.
  revert f s. induction w as [|w IH]; intros f s; [reflexivity|].
  cbn [seq existsb]. rewrite Nat.add_0_r. f_equal.
  rewrite (IH f (S s)), (IH (fun d => f (s + d)%nat) 1%nat).
  apply existsb_ext. intros d. f_equal. lia.
Qed.

Lemma window_double x w i :
  window x (w + w) i = window x w i || window x w (i + N.of_nat w).
Proof.
  unfold window. rewrite seq_app, existsb_app. f_equal. cbn [Nat.add].
  rewrite existsb_seq_shift. apply existsb_ext. intros d. f_equal. lia.
Qed.

(** [x |= x >> w] doubles the window. *)
Lemma smear x y w :
  (forall i, N.testbit y i = window x w i) ->
  forall i, N.testbit (N.lor y (N.shiftr y (N.of_nat w))) i = window x (w + w) i.
Proof.
  intros H i. rewrite N.lor_spec, N.shiftr_spec', !H, window_double. reflexivity.
Qed.

Lemma window_ones x w i :
  0 < x -> x < 2 ^ N.of_nat w -> window x w i = (i <=? N.log2 x).
Proof.
  intros Hx Hlt. unfold window.
  assert (Hlog : N.log2 x < N.of_nat w) by (apply N.log2_lt_pow2; lia).
  destruct (i <=? N.log2 x) eqn:E.
  - apply N.leb_le in E. apply existsb_exists.
    exists (N.to_nat (N.log2 x - i)). split; [apply in_seq; lia|].
    replace (i + N.of_nat (N.to_nat (N.log2 x - i))) with (N.log2 x) by lia.
    apply N.bit_log2. lia.
  - apply N.leb_gt in E. apply not_true_is_false. intros H.
    apply existsb_exists in H as (d & _ & H).
    rewrite N.bits_above_log2 in H by lia. discriminate.
Qed.

Lemma ceilPowerOfTwo_spec val :
  1 < val -> val <= 2 ^ 63 -> ceilPowerOfTwo val = Some (2 ^ N.log2_up val).
Proof.
  intros H1 H2. unfold ceilPowerOfTwo.
  rewrite (proj2 (N.leb_gt _ _)) by exact H1.
  rewrite N.shiftl_1_l. rewrite (proj2 (N.ltb_ge _ _)) by exact H2. cbn zeta. f_equal.
  set (x := val - 1).
  assert (W1 : forall i, N.testbit x i = window x 1 i)
    by (intros i; unfold window; cbn; now rewrite N.add_0_r, orb_false_r).
  pose proof (smear x _ 1 W1) as W2. pose proof (smear x _ 2 W2) as W4.
  pose proof (smear x _ 4 W4) as W8. pose proof (smear x _ 8 W8) as W16.
  pose proof (smear x _ 16 W16) as W32. pose proof (smear x _ 32 W32) as W64.
  clear W1 W2 W4 W8 W16 W32.
  match type of W64 with forall i, N.testbit ?t i = _ => set (y := t) in * end.
  change (y + 1 = 2 ^ N.log2_up val).
  assert (Hy : y = N.ones (N.succ (N.log2 x))).
  { apply N.bits_inj. intros i. rewrite (W64 i : _ = window x 64 i).
    assert (x < 2 ^ 64) by (unfold x; lia).
    rewrite window_ones by (unfold x in *; lia).
    destruct (N.leb_spec i (N.log2 x)).
    - now rewrite N.ones_spec_low by lia.
    - now rewrite N.ones_spec_high by lia. }
  rewrite Hy, N.ones_equiv, N.add_1_r, N.succ_pred by (apply N.pow_nonzero; lia).
  f_equal. unfold x. rewrite <- N.pred_sub. symmetry. apply N.log2_up_eqn. exact H1.
Qed.

Lemma ceilPowerOfTwo_least (val : N) :
  match ceilPowerOfTwo val with
  | Some c => val <= c /\ c <= 2 ^ 63 /\ (exists k, c = 2 ^ k)
              /\ forall k, val <= 2 ^ k -> c <= 2 ^ k
  | None => 2 ^ 63 < val
  end.
Proof.
  destruct (N.le_gt_cases val 1) as [H1|H1].
  - unfold ceilPowerOfTwo. rewrite (proj2 (N.leb_le _ _)) by exact H1.
    split; [exact H1|]. split; [lia|]. split; [now exists 0|].
    intros k _. pose proof (N.pow_nonzero 2 k ltac:(lia)). lia.
  - destruct (N.le_gt_cases val (2 ^ 63)) as [H2|H2].
    + rewrite ceilPowerOfTwo_spec by assumption.
      pose proof (N.log2_log2_up_spec val ltac:(lia)) as [_ Hup].
      split; [exact Hup|]. split; [|split; [eauto|]].
      * apply N.pow_le_mono_r; [lia|]. apply N.log2_up_le_pow2; [lia | exact H2].
      * intros k Hk. apply N.pow_le_mono_r; [lia|]. apply N.log2_up_le_pow2; [lia | exact Hk].
    + unfold ceilPowerOfTwo. rewrite (proj2 (N.leb_gt _ _)) by exact H1.
      rewrite N.shiftl_1_l, (proj2 (N.ltb_lt _ _)) by exact H2. exact H2.
Qed.

(** The capacity of a ready queue is the least power of two that is at least
    the requested one, for every request up to [2^63]; anything larger is
    refused with [OutOfMemory] instead of wrapping to zero. *)
Theorem ceilPowerOfTwo_bounds (val : N) :
  match ceilPowerOfTwo val with
  | Some c => val <= c /\ c <= 2 ^ 63 /\ (exists k, c = 2 ^ k)
              /\ forall k, val <= 2 ^ k -> c <= 2 ^ k
  | None => 2 ^ 63 < val
  end.
Proof. exact (ceilPowerOfTwo_least val). Qed.

(** ** The ring implements a queue *)

Section Fifo.
Context {A : Type}.

(** What the event loop does with a ring: push a callback, take the oldest
    one ([next] and [consume]), and reset it. *)
Inductive ring_op : Type :=
| OpPush (alloc_ok : bool) (x : A)
| OpTake
| OpReset.

Inductive ring_out : Type :=
| Pushed (ok : bool)
| Taken (x : option (option A))
| WasReset.

Definition run_op (op : ring_op) (r : DynamicRingBuffer A)
    : ring_out * DynamicRingBuffer A :=
  match op with
  | OpPush alloc_ok x =>
      match push_or_grow alloc_ok r x with (ok, r') => (Pushed ok, r') end
  | OpTake =>
      match next r with
      | None => (Taken None, r)
      | Some x => (Taken (Some x), consume r)
      end
  | OpReset => (WasReset, reset r)
  end.

Fixpoint run_ops (ops : list ring_op) (r : DynamicRingBuffer A)
    : list ring_out * DynamicRingBuffer A :=
  match ops with
  | [] => ([], r)
  | op :: ops' =>
      match run_op op r with
      | (out, r1) => match run_ops ops' r1 with (outs, r2) => (out :: outs, r2) end
      end
  end.

(** The specification: an unbounded queue whose push may be refused and whose
    reset forgets what is queued. *)
Inductive fifo_step : list A -> ring_op -> ring_out -> list A -> Prop :=
| fifo_push q a x : fifo_step q (OpPush a x) (Pushed true) (q ++ [x])
| fifo_refused q x : fifo_step q (OpPush false x) (Pushed false) q
| fifo_oversize q x : maxInt_usize / 2 < N.of_nat (length q) ->
    fifo_step q (OpPush true x) (Pushed false) q
| fifo_take x q : fifo_step (x :: q) OpTake (Taken (Some (Some x))) q
| fifo_take_empty : fifo_step [] OpTake (Taken None) []
| fifo_reset q : fifo_step q OpReset WasReset [].

Inductive fifo_steps : list A -> list ring_op -> list ring_out -> list A -> Prop :=
| fifo_nil q : fifo_steps q [] [] q
| fifo_cons q op out q1 ops outs q2 :
    fifo_step q op out q1 -> fifo_steps q1 ops outs q2 ->
    fifo_steps q (op :: ops) (out :: outs) q2.

Lemma repr_init cap r : init cap = Some r -> repr r ([] : list A).
Proof.
  unfold init. pose proof (ceilPowerOfTwo_least cap) as H.
  destruct (ceilPowerOfTwo cap) as [c|]; [|discriminate]. intros [= <-].
  destruct H as (_ & _ & Hp & _).
  constructor; cbn [callbacks executed capacity read_idx write_idx length];
    rewrite ?length_replicate; try lia; [exact Hp | discriminate].
Qed.

Lemma run_op_refines op r q :
  repr r q ->
  match run_op op r with
  | (out, r') => exists q', fifo_step q op out q' /\ repr r' q'
  end.
Proof.
  intros H. destruct op as [a x| |]; cbn [run_op].
  - pose proof (repr_push_or_grow a r q x H) as Hp.
    destruct (push_or_grow a r x) as [[] r'].
    + eexists. split; [constructor | exact Hp].
    + destruct Hp as [-> Hp]. exists q. split; [|exact H].
      destruct a; [|constructor]. destruct Hp as [|Hp]; [discriminate|].
      now constructor.
  - rewrite (repr_next r q H). destruct q as [|x q]; cbn.
    + eexists. split; [constructor | exact H].
    + exists q. split; [constructor | now apply repr_consume in H].
  - exists []. split; [constructor | now apply (repr_reset r q)].
Qed.

Lemma run_ops_refines ops r q :
  repr r q ->
  match run_ops ops r with
  | (outs, r') => exists q', fifo_steps q ops outs q' /\ repr r' q'
  end.
Proof.
  revert r q. induction ops as [|op ops IH]; intros r q H; cbn [run_ops].
  - exists q. split; [constructor | exact H].
  - pose proof (run_op_refines op r q H) as H1.
    destruct (run_op op r) as [out r1]. destruct H1 as (q1 & Hs & H1).
    specialize (IH r1 q1 H1). destruct (run_ops ops r1) as [outs r2].
    destruct IH as (q2 & Hss & H2). exists q2. split; [econstructor; eassumption | exact H2].
Qed.

(** C13: the ready queue refines an unbounded first-in first-out queue: whatever
    sequence of pushes, takes and resets is run on a fresh ring of any
    capacity [init] accepts, every answer is the one the abstract queue gives, across index
    wrap-around and reallocation.  A push is refused, leaving the queue as it
    was, only when memory cannot be allocated or more than [maxInt / 2]
    callbacks are queued; a reset empties the queue, whatever is in it. *)
Theorem ring_refines_fifo (cap : N) (r0 : DynamicRingBuffer A)
    (ops : list ring_op) (Hinit : init cap = Some r0) :
  match run_ops ops r0 with
  | (outs, r) => exists q, fifo_steps [] ops outs q /\ repr r q
  end.
Proof. apply run_ops_refines. exact (repr_init cap r0 Hinit). Qed.
End Fifo.
Arguments ring_op A : clear implicits.
Arguments ring_out A : clear implicits.

Definition ring_demo : option (DynamicRingBuffer nat) := init 2.

Lemma ring_refines_fifo_witness :
  exists r0, ring_demo = Some r0 /\
  match run_ops [OpPush true 1%nat; OpPush true 2%nat; OpTake; OpPush true 3%nat;
                 OpPush true 4%nat; OpTake; OpTake; OpReset; OpTake] r0 with
  | (outs, r) =>
      (exists q, fifo_steps [] [OpPush true 1%nat; OpPush true 2%nat; OpTake;
                                OpPush true 3%nat; OpPush true 4%nat; OpTake;
                                OpTake; OpReset; OpTake] outs q /\ repr r q)
      /\ outs = [Pushed true; Pushed true; Taken (Some (Some 1%nat)); Pushed true;
                 Pushed true; Taken (Some (Some 2%nat)); Taken (Some (Some 3%nat));
                 WasReset; Taken None]
  end.
Proof.
  eexists. split; [vm_compute; reflexivity|].
  match goal with |- match run_ops ?ops ?r with _ => _ end =>
    pose proof (ring_refines_fifo 2 r ops ltac:(vm_compute; reflexivity)) as H;
    vm_compute in H |- *; split; [exact H | reflexivity]
  end.
Defined.
