(* ===== verification/EventLoop.v ===== *)
(** * The native event loop

    The iteration of src/src/loop/runner.zig ([start], [poll_blocking_events],
    [fetch_completed_tasks], [dispatch_completion_batch], [execute_hooks],
    [call_once]), the queue runner of src/src/callback_manager.zig
    ([execute_dynamic_ring_buffer]) and the scheduler of
    src/src/loop/scheduling/soon.zig.

    The loop keeps two ready queues: callbacks are scheduled on
    [ready_tasks_queues[ready_tasks_queue_index]] while the other one is being
    run.  What a callback does is a parameter, [world]: the callbacks it
    schedules in order, whether it stops the loop, and its effect on the rest of
    the process, [env].  [lp_scheduled] and [lp_executed] record the callbacks
    accepted by a queue and the callbacks taken from one; the code has no such
    fields, they only serve to state its properties.

    The completion queue of io_uring is a list.  [copy_cqes] moves up to one
    buffer of completions out of it, into the array [blocking_ready_tasks] that
    the loop owns and reuses.  Errors of the ring itself, the watchdog timer and
    the release of the GIL around the wait are not modelled; locking is not
    either, since every queue operation runs under the loop's mutex. *)

From S2P Require Import Prelude RingBuffer.
From Stdlib Require Import NArith Lia.
From stdpp Require Import base numbers list.

Section Loop.
Context {A env : Type}.

(** How a callback ended: [CallExc] is an error that goes to the exception
    handler, [CallFatal] is [KeyboardInterrupt] or [SystemExit]. *)
Inductive call : Type := CallOk | CallExc | CallFatal.

Record effect := Effect {
  eff_schedule : list A;
  eff_stop : bool;
  eff_env : env }.

Inductive CompletionOp : Type :=
| DataReceived | EofReceived | BufferUpdated | ConnectionMade | ConnectionLost
| ResumeWriting | DatagramReceived | ErrorReceived.

Record CompletionRecord := MkCompletionRecord {
  rec_op : CompletionOp;
  rec_transport : nat;
  rec_nbytes : Z;
  rec_generation : N }.

(** An entry of the completion queue: an operation nobody waits for (a timeout,
    a cancellation or the watchdog), a task without callback, or a task with
    its callback and, for a successful read of a stream transport, the record
    that goes to the batch. *)
Inductive cqe : Type :=
| CqeInternal
| CqeNone
| CqeTask (callback : A) (record : option CompletionRecord).

Inductive hook : Type := check_hooks | idle_hooks | prepare_hooks.

(** The code the loop calls into. *)
Record world := World {
  run_callback : A -> env -> effect * call;
  run_cleanup : A -> env -> effect;
  exception_handler : env -> effect * bool;
  run_record : CompletionRecord -> env -> effect * call;
  live_generation : env -> nat -> N;
  batch_dispatched : A -> A;
  hook_list : hook -> env -> list A;
  alloc_ok : env -> bool }.

Record loop_state := LoopState {
  lp_queue0 : DynamicRingBuffer A;
  lp_queue1 : DynamicRingBuffer A;
  lp_index : bool;
  lp_batch : list CompletionRecord;
  lp_reserved : Z;
  lp_stopping : bool;
  lp_env : env;
  lp_scheduled : list A;
  lp_executed : list A }.

Implicit Types (l : loop_state) (w : world).

Definition queue (i : bool) l : DynamicRingBuffer A :=
  if i then lp_queue1 l else lp_queue0 l.

Definition set_queue (i : bool) (r : DynamicRingBuffer A) l : loop_state :=
  LoopState (if i then lp_queue0 l else r) (if i then r else lp_queue1 l)
    (lp_index l) (lp_batch l) (lp_reserved l) (lp_stopping l) (lp_env l)
    (lp_scheduled l) (lp_executed l).

Definition flip_index l : loop_state :=
  LoopState (lp_queue0 l) (lp_queue1 l) (negb (lp_index l)) (lp_batch l)
    (lp_reserved l) (lp_stopping l) (lp_env l) (lp_scheduled l) (lp_executed l).

Definition set_batch (b : list CompletionRecord) l : loop_state :=
  LoopState (lp_queue0 l) (lp_queue1 l) (lp_index l) b (lp_reserved l)
    (lp_stopping l) (lp_env l) (lp_scheduled l) (lp_executed l).

Definition set_reserved (n : Z) l : loop_state :=
  LoopState (lp_queue0 l) (lp_queue1 l) (lp_index l) (lp_batch l) n
    (lp_stopping l) (lp_env l) (lp_scheduled l) (lp_executed l).

Definition set_stopping (b : bool) l : loop_state :=
  LoopState (lp_queue0 l) (lp_queue1 l) (lp_index l) (lp_batch l) (lp_reserved l)
    b (lp_env l) (lp_scheduled l) (lp_executed l).

Definition set_env (e : env) l : loop_state :=
  LoopState (lp_queue0 l) (lp_queue1 l) (lp_index l) (lp_batch l) (lp_reserved l)
    (lp_stopping l) e (lp_scheduled l) (lp_executed l).

Definition note_scheduled (x : A) l : loop_state :=
  LoopState (lp_queue0 l) (lp_queue1 l) (lp_index l) (lp_batch l) (lp_reserved l)
    (lp_stopping l) (lp_env l) (lp_scheduled l ++ [x]) (lp_executed l).

Definition note_executed (x : A) l : loop_state :=
  LoopState (lp_queue0 l) (lp_queue1 l) (lp_index l) (lp_batch l) (lp_reserved l)
    (lp_stopping l) (lp_env l) (lp_scheduled l) (lp_executed l ++ [x]).

Section World.
Variable w : world.

(** [push_or_grow] on one of the two queues. *)
Definition push_on (i : bool) (x : A) l : bool * loop_state :=
  match push_or_grow (alloc_ok w (lp_env l)) (queue i l) x with
  | (true, r) => (true, note_scheduled x (set_queue i r l))
  | (false, _) => (false, l)
  end.

(** [Soon.dispatch]; the caller of a refused push gets the error. *)
Definition dispatch (x : A) l : loop_state := (push_on (lp_index l) x l).2.

Definition apply_effect (e : effect) l : loop_state :=
  set_env (eff_env e)
    (set_stopping (lp_stopping l || eff_stop e)
      (fold_left (fun l x => dispatch x l) (eff_schedule e) l)).

Definition exec_cleanup (x : A) l : loop_state :=
  apply_effect (run_cleanup w x (lp_env l)) l.

(** What [execute_dynamic_ring_buffer] returns: the number of callbacks run,
    or the error that stops the loop. *)
Inductive exec_result : Type :=
| Executed (n : nat)
| ExecError
| ExecDiverges.

(** One callback: its function, and on an error the exception handler and then
    the deferred cleanup.  [false] is an error that leaves the loop. *)
Definition exec_callback (x : A) l : bool * loop_state :=
  match run_callback w x (lp_env l) with
  | (e, CallOk) => (true, apply_effect e l)
  | (e, CallFatal) => (false, exec_cleanup x (apply_effect e l))
  | (e, CallExc) =>
      let l := apply_effect e l in
      match exception_handler w (lp_env l) with
      | (e', handled) => (handled, exec_cleanup x (apply_effect e' l))
      end
  end.

Fixpoint execute_dynamic_ring_buffer (fuel : nat) (i : bool) (n : nat) l
    : exec_result * loop_state :=
  match fuel with
  | 0 => (ExecDiverges, l)
  | S fuel' =>
      match next (queue i l) with
      | None => (Executed n, l)
      | Some None => (ExecDiverges, l)
      | Some (Some x) =>
          let l := note_executed x (set_queue i (consume (queue i l)) l) in
          match exec_callback x l with
          | (true, l) => execute_dynamic_ring_buffer fuel' i (S n) l
          | (false, l) => (ExecError, l)
          end
      end
  end.

Definition call_once (i : bool) l : exec_result * loop_state :=
  match execute_dynamic_ring_buffer (S (N.to_nat (count (queue i l)))) i 0 l with
  | (Executed 0, l') => (Executed 0, set_queue i (reset (queue i l')) l')
  | r => r
  end.

(** A hook's error is ignored. *)
Definition execute_hooks (h : hook) l : loop_state :=
  fold_left (fun l x => apply_effect (run_callback w x (lp_env l)).1 l)
    (hook_list w h (lp_env l)) l.

(** ** Completions *)

Definition MaxRecords : nat := 4096.

(** The protocol call of one record; [false] is a [KeyboardInterrupt] or
    [SystemExit], raised by it or by the exception handler. *)
Definition dispatch_record (r : CompletionRecord) l : bool * loop_state :=
  if negb (live_generation w (lp_env l) (rec_transport r) =? rec_generation r)%N
  then (true, l)
  else match rec_op r with
  | DataReceived | BufferUpdated =>
      match run_record w r (lp_env l) with
      | (e, CallOk) => (true, apply_effect e l)
      | (e, CallFatal) => (false, apply_effect e l)
      | (e, CallExc) =>
          let l := apply_effect e l in
          match exception_handler w (lp_env l) with
          | (e', handled) => (handled, apply_effect e' l)
          end
      end
  | _ => (true, l)
  end.

Fixpoint dispatch_records (rs : list CompletionRecord) l : bool * loop_state :=
  match rs with
  | [] => (true, l)
  | r :: rs' =>
      match dispatch_record r l with
      | (true, l) => dispatch_records rs' l
      | (false, l) => (false, l)
      end
  end.

Definition dispatch_completion_batch l : bool * loop_state :=
  match lp_batch l with
  | [] => (true, l)
  | rs => match dispatch_records rs l with (ok, l) => (ok, set_batch [] l) end
  end.

(** [fetch_completed_tasks]: a read whose record fits the batch is marked as
    already dispatched; [false] is a failed allocation, which drops the
    completions that were not reached. *)
Fixpoint fetch_completed_tasks (i : bool) (cqes : list cqe) l : bool * loop_state :=
  match cqes with
  | [] => (true, l)
  | CqeInternal :: cqes' => fetch_completed_tasks i cqes' l
  | CqeNone :: cqes' =>
      fetch_completed_tasks i cqes' (set_reserved (lp_reserved l - 1) l)
  | CqeTask x record :: cqes' =>
      let '(x, l) :=
        match record with
        | Some r => if length (lp_batch l) =? MaxRecords then (x, l)
                    else (batch_dispatched w x, set_batch (lp_batch l ++ [r]) l)
        | None => (x, l)
        end in
      match push_on i x l with
      | (true, l) => fetch_completed_tasks i cqes' (set_reserved (lp_reserved l - 1) l)
      | (false, l) => (false, set_reserved (lp_reserved l - 1) l)
      end
  end.

(** The completion queue of the kernel and the buffer it is copied into. *)
Record uring := Uring {
  cq : list cqe;
  blocking_ready_tasks : list cqe }.

Definition buffer_len (u : uring) : nat := length (blocking_ready_tasks u).

(** [ring.copy_cqes]: the oldest completions, over the front of the buffer. *)
Definition copy_cqes (u : uring) : nat * uring :=
  let got := take (buffer_len u) (cq u) in
  (length got,
   Uring (drop (buffer_len u) (cq u))
         (got ++ drop (length got) (blocking_ready_tasks u))).

(** The drain before parking: as long as the buffer was filled it is copied
    over again. *)
Fixpoint drain_full (fuel : nat) (nevents : nat) (u : uring) : nat * uring :=
  match fuel with
  | 0 => (nevents, u)
  | S fuel' =>
      if (0 <? nevents) && (nevents =? buffer_len u) then
        match copy_cqes u with
        | (0, u) => (nevents, u)
        | (n, u) => drain_full fuel' n u
        end
      else (nevents, u)
  end.

(** The wait; [arrivals] are the completions that arrive while the loop is
    parked. *)
Definition wait_events (arrivals : list cqe) (u : uring) : nat * uring :=
  let '(nevents, u) := copy_cqes u in
  let '(nevents, u) := drain_full (length (cq u) + 1) nevents u in
  if nevents =? 0
  then copy_cqes (Uring (cq u ++ arrivals) (blocking_ready_tasks u))
  else (nevents, u).

(** The final [while (nevents > 0)]. *)
Fixpoint harvest (fuel : nat) (i : bool) (nevents : nat) (u : uring) l
    : bool * uring * loop_state :=
  match fuel with
  | 0 => (false, u, l)
  | S fuel' =>
      if 0 <? nevents then
        match fetch_completed_tasks i (take nevents (blocking_ready_tasks u)) l with
        | (false, l) => (false, u, l)
        | (true, l) =>
            if nevents =? buffer_len u then
              match copy_cqes u with (n, u) => harvest fuel' i n u l end
            else (true, u, l)
        end
      else (true, u, l)
  end.

Definition poll_blocking_events (wait : bool) (i : bool) (arrivals : list cqe)
    (u : uring) l : bool * uring * loop_state :=
  let '(nevents, u) :=
    if wait && is_empty (queue i l) then wait_events arrivals u else copy_cqes u in
  harvest (length (cq u) + 2) i nevents u l.

(** ** The loop *)

Inductive loop_result : Type :=
| LoopGoesOn (wait_for_blocking_events : bool)
| LoopError.

(** One turn of [while (!self.stopping)]. *)
Definition iteration (wait : bool) (arrivals : list cqe) (u : uring) l
    : loop_result * uring * loop_state :=
  let old_index := lp_index l in
  match poll_blocking_events wait old_index arrivals u l with
  | (false, u, l) => (LoopError, u, l)
  | (true, u, l) =>
      let l := flip_index l in
      match dispatch_completion_batch l with
      | (false, l) => (LoopError, u, l)
      | (true, l) =>
          let l := execute_hooks check_hooks l in
          match call_once old_index l with
          | (Executed n, l) =>
              let l := execute_hooks idle_hooks l in
              let l := execute_hooks prepare_hooks l in
              (LoopGoesOn ((n =? 0) && (length (hook_list w idle_hooks (lp_env l)) =? 0)),
               u, l)
          | (_, l) => (LoopError, u, l)
          end
      end
  end.

(** [start], after its guards: one iteration per element of [arrivals], until
    the loop is stopped or an error leaves it. *)
Fixpoint run_loop (arrivals : list (list cqe)) (wait : bool) (u : uring) l
    : option loop_result * uring * loop_state :=
  if lp_stopping l then (Some (LoopGoesOn wait), u, set_stopping false l)
  else match arrivals with
  | [] => (None, u, l)
  | a :: arrivals' =>
      match iteration wait a u l with
      | (LoopGoesOn wait', u, l) => run_loop arrivals' wait' u l
      | (LoopError, u, l) => (Some LoopError, u, set_stopping false l)
      end
  end.
(** ** Order of execution *)

(** While the queue of the other index is run: it holds [qo], the current one
    holds [qc], and together they are what was scheduled and not yet run. *)
Record running (qo qc : list A) l : Prop := {
  running_old : repr (queue (negb (lp_index l)) l) qo;
  running_cur : repr (queue (lp_index l) l) qc;
  running_log : lp_scheduled l = lp_executed l ++ qo ++ qc }.

(** [l'] differs from [l] by callbacks scheduled on the current queue. *)
Definition schedules l l' : Prop :=
  lp_index l' = lp_index l /\ lp_executed l' = lp_executed l
  /\ forall qo qc, running qo qc l -> exists s, running qo (qc ++ s) l'.

Lemma schedules_refl l : schedules l l.
Proof. split; [reflexivity|]. split; [reflexivity|]. intros qo qc H. exists []. now rewrite app_nil_r. Qed.

Lemma schedules_trans l1 l2 l3 : schedules l1 l2 -> schedules l2 l3 -> schedules l1 l3.
Proof.
  intros (I1 & E1 & S1) (I2 & E2 & S2). split; [congruence|]. split; [congruence|].
  intros qo qc H. destruct (S1 _ _ H) as [s1 H1]. destruct (S2 _ _ H1) as [s2 H2].
  exists (s1 ++ s2). now rewrite app_assoc.
Qed.

#[local] Instance schedules_preorder : PreOrder schedules.
Proof. split; [exact schedules_refl | exact schedules_trans]. Qed.

(** A change of fields that no queue and no log is read from. *)
Lemma schedules_same l l' :
  lp_queue0 l' = lp_queue0 l -> lp_queue1 l' = lp_queue1 l ->
  lp_index l' = lp_index l -> lp_scheduled l' = lp_scheduled l ->
  lp_executed l' = lp_executed l -> schedules l l'.
Proof.
  intros H0 H1 Hi Hs He. split; [exact Hi|]. split; [exact He|].
  intros qo qc [Ho Hc Hl]. exists []. rewrite app_nil_r. unfold queue in *.
  split; unfold queue; rewrite ?H0, ?H1, ?Hi, ?Hs, ?He; assumption.
Qed.

Lemma queue_set_same i r l : queue i (set_queue i r l) = r.
Proof. now destruct i. Qed.

Lemma queue_set_other i r l : queue (negb i) (set_queue i r l) = queue (negb i) l.
Proof. now destruct i. Qed.

Lemma push_on_schedules x l : schedules l (push_on (lp_index l) x l).2.
Proof.
  unfold push_on. split; [|split].
  1, 2: now destruct (push_or_grow _ _ x) as [[] r].
  intros qo qc [Ho Hc Hl].
  pose proof (repr_push_or_grow (alloc_ok w (lp_env l)) _ _ x Hc) as Hp.
  destruct (push_or_grow _ _ x) as [[] r].
  - exists [x]. split; cbn [snd note_scheduled lp_index lp_scheduled lp_executed set_queue].
    + change (repr (queue (negb (lp_index l)) (set_queue (lp_index l) r l)) qo).
      now rewrite queue_set_other.
    + change (repr (queue (lp_index l) (set_queue (lp_index l) r l)) (qc ++ [x])).
      now rewrite queue_set_same.
    + rewrite Hl, !app_assoc. reflexivity.
  - exists []. rewrite app_nil_r. now split.
Qed.

Lemma dispatch_schedules x l : schedules l (dispatch x l).
Proof. apply push_on_schedules. Qed.

Lemma fold_schedules {B} (f : loop_state -> B -> loop_state) xs l :
  (forall l x, schedules l (f l x)) -> schedules l (fold_left f xs l).
Proof.
  intros H. revert l. induction xs as [|x xs IH]; intros l; cbn; [reflexivity|].
  etransitivity; [apply H | apply IH].
Qed.

Lemma apply_effect_schedules e l : schedules l (apply_effect e l).
Proof.
  unfold apply_effect.
  etransitivity; [apply (fold_schedules (fun l x => dispatch x l) (eff_schedule e));
                  intros; apply dispatch_schedules|].
  now apply schedules_same.
Qed.

Lemma exec_cleanup_schedules x l : schedules l (exec_cleanup x l).
Proof. apply apply_effect_schedules. Qed.

#[local] Hint Resolve schedules_refl apply_effect_schedules exec_cleanup_schedules : loop.

Lemma exec_callback_schedules x l : schedules l (exec_callback x l).2.
Proof.
  unfold exec_callback. destruct (run_callback w x (lp_env l)) as [e []]; cbn [snd].
  - auto with loop.
  - cbn zeta. destruct (exception_handler w _) as [e' h]. cbn [snd].
    etransitivity; [apply (apply_effect_schedules e)|].
    etransitivity; [apply (apply_effect_schedules e')|]. auto with loop.
  - etransitivity; [apply (apply_effect_schedules e)|]. auto with loop.
Qed.

Lemma execute_hooks_schedules h l : schedules l (execute_hooks h l).
Proof. apply fold_schedules. intros. auto with loop. Qed.

Lemma dispatch_record_schedules r l : schedules l (dispatch_record r l).2.
Proof.
  unfold dispatch_record. destruct (negb _); [auto with loop|].
  assert (H : schedules l (match run_record w r (lp_env l) with
      | (e, CallOk) => (true, apply_effect e l)
      | (e, CallFatal) => (false, apply_effect e l)
      | (e, CallExc) =>
          let l := apply_effect e l in
          match exception_handler w (lp_env l) with
          | (e', handled) => (handled, apply_effect e' l)
          end
      end).2).
  { destruct (run_record w r (lp_env l)) as [e []]; cbn zeta; cbn [snd]; auto with loop.
    destruct (exception_handler w _) as [e' h]. cbn [snd].
    etransitivity; apply apply_effect_schedules. }
  destruct (rec_op r); first [exact H | reflexivity].
Qed.

Lemma dispatch_records_schedules rs l : schedules l (dispatch_records rs l).2.
Proof.
  revert l. induction rs as [|r rs IH]; intros l; cbn; [reflexivity|].
  pose proof (dispatch_record_schedules r l) as H.
  destruct (dispatch_record r l) as [[] l']; cbn [snd] in *; [|exact H].
  etransitivity; [exact H | apply IH].
Qed.

Lemma dispatch_completion_batch_schedules l : schedules l (dispatch_completion_batch l).2.
Proof.
  unfold dispatch_completion_batch. destruct (lp_batch l) as [|r rs]; [reflexivity|].
  pose proof (dispatch_records_schedules (r :: rs) l) as H.
  destruct (dispatch_records (r :: rs) l) as [ok l']. cbn [snd] in *.
  etransitivity; [exact H|]. now apply schedules_same.
Qed.

Lemma fetch_schedules cqes l :
  schedules l (fetch_completed_tasks (lp_index l) cqes l).2.
Proof.
  revert l. induction cqes as [|c cqes IH]; intros l; cbn [fetch_completed_tasks];
    [reflexivity|].
  destruct c as [| |x record].
  - apply IH.
  - etransitivity; [|exact (IH (set_reserved (lp_reserved l - 1) l))].
    now apply schedules_same.
  - match goal with |- context [let '(x, l) := ?m in _] => set (m0 := m) end.
    assert (Hm : schedules l m0.2).
    { unfold m0. destruct record as [r|]; [|reflexivity].
      destruct (_ =? _); [reflexivity | now apply schedules_same]. }
    destruct m0 as [x' l1]. cbn [snd] in Hm. etransitivity; [exact Hm|].
    replace (lp_index l) with (lp_index l1) by apply Hm. clear Hm.
    pose proof (push_on_schedules x' l1) as Hp.
    destruct (push_on (lp_index l1) x' l1) as [[] l2]; cbn [snd] in *;
      (etransitivity; [exact Hp|]).
    + replace (lp_index l1) with (lp_index l2) by apply Hp.
      etransitivity; [|exact (IH (set_reserved (lp_reserved l2 - 1) l2))].
      now apply schedules_same.
    + now apply schedules_same.
Qed.

Lemma harvest_schedules fuel nevents u l :
  schedules l (harvest fuel (lp_index l) nevents u l).2.
Proof.
  revert nevents u l. induction fuel as [|fuel IH]; intros nevents u l; cbn [harvest];
    [reflexivity|].
  destruct (0 <? nevents); [|reflexivity].
  pose proof (fetch_schedules (take nevents (blocking_ready_tasks u)) l) as H.
  destruct (fetch_completed_tasks _ _ l) as [[] l']; cbn [snd] in *; [|exact H].
  destruct (_ =? _); [|exact H]. destruct (copy_cqes u) as [n u'].
  etransitivity; [exact H|]. replace (lp_index l) with (lp_index l') by apply H. apply IH.
Qed.
(** Taking the oldest callback of the queue that is run. *)
Lemma running_take x qo qc l :
  running (x :: qo) qc l ->
  next (queue (negb (lp_index l)) l) = Some (Some x)
  /\ running qo qc
       (note_executed x
          (set_queue (negb (lp_index l)) (consume (queue (negb (lp_index l)) l)) l)).
Proof.
  intros [Ho Hc Hl]. split; [now rewrite (repr_next _ _ Ho)|].
  apply repr_consume in Ho.
  split; destruct l as [q0 q1 [] b re st e sc ex]; cbn in *; try assumption;
    rewrite Hl, <- app_assoc; reflexivity.
Qed.

Lemma execute_spec fuel n qo qc l :
  running qo qc l -> length qo < fuel ->
  match execute_dynamic_ring_buffer fuel (negb (lp_index l)) n l with
  | (Executed m, l') =>
      m = n + length qo /\ lp_index l' = lp_index l
      /\ lp_executed l' = lp_executed l ++ qo /\ exists s, running [] (qc ++ s) l'
  | (ExecError, l') =>
      exists done rest s, qo = done ++ rest /\ lp_index l' = lp_index l
        /\ lp_executed l' = lp_executed l ++ done /\ running rest (qc ++ s) l'
  | (ExecDiverges, _) => False
  end.
Proof.
  revert n qo qc l. induction fuel as [|fuel IH]; intros n qo qc l H Hf; [lia|].
  cbn [execute_dynamic_ring_buffer]. destruct qo as [|x qo].
  - rewrite (repr_next _ _ (running_old _ _ _ H)). cbn.
    rewrite app_nil_r. split; [lia|]. split; [reflexivity|]. split; [reflexivity|].
    exists []. now rewrite app_nil_r.
  - destruct (running_take x qo qc l H) as [-> H1].
    set (l1 := note_executed x _) in *.
    assert (Hi1 : lp_index l1 = lp_index l) by reflexivity.
    assert (He1 : lp_executed l1 = lp_executed l ++ [x]) by reflexivity.
    clearbody l1. pose proof (exec_callback_schedules x l1) as (Hi & He & Hs).
    destruct (Hs _ _ H1) as [s H2].
    destruct (exec_callback x l1) as [[] l2]; cbn [snd] in *.
    + replace (negb (lp_index l)) with (negb (lp_index l2)) by congruence.
      cbn [length] in Hf. specialize (IH (S n) qo (qc ++ s) l2 H2 ltac:(lia)).
      destruct (execute_dynamic_ring_buffer fuel _ (S n) l2) as [[m| |] l'];
        [| |exact IH].
      * destruct IH as (-> & Hi' & He' & s' & H3). split; [cbn; lia|].
        split; [congruence|]. split; [rewrite He', He, He1, <- app_assoc; reflexivity|].
        exists (s ++ s'). now rewrite app_assoc.
      * destruct IH as (done & rest & s' & -> & Hi' & He' & H3).
        exists (x :: done), rest, (s ++ s'). split; [reflexivity|].
        split; [congruence|]. split; [rewrite He', He, He1, <- app_assoc; reflexivity|].
        now rewrite app_assoc.
    + exists [x], qo, s. split; [reflexivity|]. split; [congruence|].
      split; [congruence | exact H2].
Qed.

Lemma repr_to_count r (q : list A) : repr r q -> N.to_nat (count r) = length q.
Proof. intros []. unfold count. lia. Qed.

Lemma call_once_spec qo qc l :
  running qo qc l ->
  match call_once (negb (lp_index l)) l with
  | (Executed m, l') =>
      m = length qo /\ lp_index l' = lp_index l
      /\ lp_executed l' = lp_executed l ++ qo /\ exists s, running [] (qc ++ s) l'
  | (ExecError, l') =>
      exists done rest s, qo = done ++ rest /\ lp_index l' = lp_index l
        /\ lp_executed l' = lp_executed l ++ done /\ running rest (qc ++ s) l'
  | (ExecDiverges, _) => False
  end.
Proof.
  intros H. unfold call_once.
  rewrite (repr_to_count _ _ (running_old _ _ _ H)).
  pose proof (execute_spec (S (length qo)) 0 qo qc l H ltac:(lia)) as HE.
  destruct (execute_dynamic_ring_buffer _ _ 0 l) as [[[|m]| |] l']; try exact HE.
  destruct HE as (Hm & Hi & He & s & HR). split; [exact Hm|]. rewrite <- Hi.
  split; [reflexivity|]. split; [exact He|]. exists s. destruct HR as [Ho Hc Hl].
  apply repr_reset in Ho.
  split; destruct l' as [q0 q1 [] b re st e sc ex]; cbn in *; assumption.
Qed.

Lemma flip_running q l : running [] q l -> running q [] (flip_index l).
Proof.
  intros [Ho Hc Hl]. cbn in Hl. split; cbn; rewrite ?negb_involutive, ?app_nil_r; assumption.
Qed.

Lemma poll_schedules wait arrivals u l :
  schedules l (poll_blocking_events wait (lp_index l) arrivals u l).2.
Proof.
  unfold poll_blocking_events.
  destruct (wait && _); [destruct (wait_events arrivals u) | destruct (copy_cqes u)];
    apply harvest_schedules.
Qed.

(** What one iteration does to the queues, from a state where everything that
    waits is on the current one. *)
Lemma iteration_spec wait arrivals u q l :
  running [] q l ->
  match iteration wait arrivals u l with
  | (LoopGoesOn _, _, l') =>
      exists c s, lp_executed l' = lp_executed l ++ q ++ c /\ running [] s l'
  | (LoopError, _, l') =>
      exists done rest s, lp_executed l' = lp_executed l ++ done
        /\ (running rest s l' \/ running s rest l')
  end.
Proof.
  intros H. unfold iteration.
  pose proof (poll_schedules wait arrivals u l) as (Hi1 & He1 & Hs1).
  destruct (Hs1 _ _ H) as [c H1]. clear Hs1.
  destruct (poll_blocking_events _ _ _ u l) as [[[] u1] l1]; cbn [snd] in *.
  2: { exists [], [], (q ++ c). rewrite app_nil_r. auto. }
  apply flip_running in H1.
  pose proof (dispatch_completion_batch_schedules (flip_index l1)) as (Hi2 & He2 & Hs2).
  destruct (Hs2 _ _ H1) as [s2 H2]. cbn [app] in H2. clear Hs2.
  destruct (dispatch_completion_batch (flip_index l1)) as [[] l2]; cbn [snd] in *.
  2: { exists [], (q ++ c), s2. rewrite app_nil_r. cbn in He2.
       split; [congruence | auto]. }
  pose proof (execute_hooks_schedules check_hooks l2) as (Hi3 & He3 & Hs3).
  destruct (Hs3 _ _ H2) as [s3 H3]. clear Hs3.
  set (l3 := execute_hooks check_hooks l2) in *.
  replace (lp_index l) with (negb (lp_index l3)).
  2: { rewrite Hi3, Hi2, <- Hi1. cbn. apply negb_involutive. }
  pose proof (call_once_spec _ _ l3 H3) as H4. cbn in He2.
  destruct (call_once _ l3) as [[m| |] l4]; [| |destruct H4].
  - destruct H4 as (_ & Hi4 & He4 & s4 & H4).
    pose proof (execute_hooks_schedules idle_hooks l4) as (_ & He5 & Hs5).
    destruct (Hs5 _ _ H4) as [s5 H5].
    pose proof (execute_hooks_schedules prepare_hooks (execute_hooks idle_hooks l4))
      as (_ & He6 & Hs6).
    destruct (Hs6 _ _ H5) as [s6 H6].
    exists c. eexists. split; [congruence | exact H6].
  - destruct H4 as (done & rest & s4 & Hq & Hi4 & He4 & H4).
    exists done, rest. eexists. split; [congruence | left; exact H4].
Qed.
Lemma running_set_stopping b qo qc l : running qo qc l -> running qo qc (set_stopping b l).
Proof. intros [Ho Hc Hl]. exact (Build_running qo qc (set_stopping b l) Ho Hc Hl). Qed.

Lemma run_loop_spec arrivals wait u q l :
  running [] q l ->
  match run_loop arrivals wait u l with
  | (_, _, l') => exists more qo qc, lp_executed l' = lp_executed l ++ more /\ running qo qc l'
  end.
Proof.
  revert wait u q l. induction arrivals as [|a arrivals IH]; intros wait u q l H;
    cbn [run_loop].
  - destruct (lp_stopping l).
    + exists [], [], q. rewrite app_nil_r. auto using running_set_stopping.
    + exists [], [], q. rewrite app_nil_r. auto.
  - destruct (lp_stopping l).
    + exists [], [], q. rewrite app_nil_r. auto using running_set_stopping.
    + pose proof (iteration_spec wait a u q l H) as HI.
      destruct (iteration wait a u l) as [[[w'|] u1] l1].
      * destruct HI as (c & s & He & H1). specialize (IH w' u1 s l1 H1).
        destruct (run_loop arrivals w' u1 l1) as [[r u2] l2].
        destruct IH as (more & qo & qc & He' & H2).
        exists ((q ++ c) ++ more), qo, qc. split; [|exact H2].
        rewrite He', He, <- !app_assoc. reflexivity.
      * destruct HI as (done & rest & s & He & [H1|H1]); exists done; do 2 eexists;
          (split; [exact He | apply running_set_stopping; exact H1]).
Qed.

(** ** Completions are not lost *)

Lemma fetch_app i c1 c2 l :
  fetch_completed_tasks i (c1 ++ c2) l =
  match fetch_completed_tasks i c1 l with
  | (true, l') => fetch_completed_tasks i c2 l'
  | (false, l') => (false, l')
  end.
Proof.
  revert l. induction c1 as [|c c1 IH]; intros l; [reflexivity|].
  cbn [app fetch_completed_tasks]. destruct c as [| |x record]; [apply IH | apply IH |].
  match goal with |- context [let '(x, l) := ?m in _] => destruct m as [x' l1] end.
  destruct (push_on i x' l1) as [[] l2]; [apply IH | reflexivity].
Qed.

Lemma copy_cqes_spec u :
  match copy_cqes u with
  | (n, u') =>
      n = length (take (buffer_len u) (cq u))
      /\ take n (blocking_ready_tasks u') = take (buffer_len u) (cq u)
      /\ cq u' = drop (buffer_len u) (cq u) /\ buffer_len u' = buffer_len u
  end.
Proof.
  unfold copy_cqes. set (got := take (buffer_len u) (cq u)).
  assert (Hg : length got <= buffer_len u) by (unfold got; rewrite length_take; lia).
  split; [reflexivity|]. cbn [cq blocking_ready_tasks].
  split; [apply take_app_length|]. split; [reflexivity|].
  unfold buffer_len in *. cbn [blocking_ready_tasks]. rewrite length_app, length_drop. lia.
Qed.

(** The final loop delivers the harvested completions and then the rest of the
    completion queue, as if they had come in one piece. *)
Lemma harvest_all fuel i u l :
  0 < buffer_len u -> length (cq u) + 1 < fuel ->
  forall got, length got <= buffer_len u ->
    take (length got) (blocking_ready_tasks u) = got ->
    (length got < buffer_len u -> cq u = []) ->
    match harvest fuel i (length got) u l with
    | (ok, u', l') =>
        fetch_completed_tasks i (got ++ cq u) l = (ok, l') /\ (ok = true -> cq u' = [])
    end.
Proof.
  revert u l. induction fuel as [|fuel IH]; intros u l Hb Hf got Hl Ht Hn; [lia|].
  cbn [harvest]. rewrite Ht. destruct (Nat.ltb_spec 0 (length got)) as [Hpos|Hz].
  2: { destruct got; [|cbn in Hz; lia].
       assert (E : cq u = []) by (apply Hn; cbn; lia). rewrite E. auto. }
  rewrite fetch_app. destruct (fetch_completed_tasks i got l) as [[] l'].
  2: { split; [reflexivity | discriminate]. }
  destruct (Nat.eqb_spec (length got) (buffer_len u)) as [Hfull|Hnf].
  - pose proof (copy_cqes_spec u) as HC. destruct (copy_cqes u) as [n u'].
    destruct HC as (-> & Ht' & Hcq & Hbl).
    specialize (IH u' l'). rewrite Hbl in IH.
    assert (Hlen : length (cq u') = length (cq u) - buffer_len u)
      by (rewrite Hcq, length_drop; reflexivity).
    destruct (decide (cq u = [])) as [E|E].
    + rewrite E in *. rewrite take_nil in *. cbn [length] in *.
      destruct fuel as [|fuel]; [lia|]. cbn [harvest Nat.ltb Nat.leb].
      split; [reflexivity|]. intros _. rewrite Hcq. apply drop_nil.
    + assert (0 < length (cq u)) by (destruct (cq u); [congruence | cbn; lia]).
      specialize (IH Hb ltac:(lia) (take (buffer_len u) (cq u))
                    ltac:(rewrite length_take; lia) Ht').
      rewrite Hcq, take_drop in IH. apply IH.
      rewrite length_take. intros Hlt. apply drop_ge. lia.
  - assert (E : cq u = []) by (apply Hn; lia). rewrite E. auto.
Qed.

Lemma drain_full_stable fuel n u :
  cq u = [] -> drain_full fuel n u = (n, u).
Proof.
  intros E. destruct fuel as [|fuel]; cbn [drain_full]; [reflexivity|].
  destruct (_ && _); [|reflexivity]. unfold copy_cqes. rewrite E, take_nil, drop_nil.
  cbn [length app drop]. destruct u as [c b]. cbn in *. now rewrite E.
Qed.

(** Polling hands over every completion the kernel has queued, in order:
    without waiting, for a completion queue of any length; and when the loop may
    park, for up to one buffer of them, then those that arrive while it is
    parked.  The loop is left with an empty completion queue. *)
Theorem poll_delivers (wait i : bool) (arrivals : list cqe) (u : uring) (l : loop_state)
    (Hb : 0 < buffer_len u)
    (Hn : wait = true -> length (cq u) <= buffer_len u) :
  match poll_blocking_events wait i arrivals u l with
  | (ok, u', l') =>
      fetch_completed_tasks i
        (cq u ++ if wait && is_empty (queue i l) && (length (cq u) =? 0)
                 then arrivals else []) l = (ok, l')
      /\ (ok = true -> cq u' = [])
  end.
Proof.
  assert (Hcopy : forall u, 0 < buffer_len u ->
    match (let '(n, u') := copy_cqes u in harvest (length (cq u') + 2) i n u' l) with
    | (ok, u', l') => fetch_completed_tasks i (cq u) l = (ok, l') /\ (ok = true -> cq u' = [])
    end).
  { clear. intros u Hb. pose proof (copy_cqes_spec u) as HC.
    destruct (copy_cqes u) as [n u']. destruct HC as (-> & Ht & Hcq & Hbl).
    assert (E : take (buffer_len u) (cq u) ++ cq u' = cq u) by (rewrite Hcq; apply take_drop).
    pose proof (harvest_all (length (cq u') + 2) i u' l ltac:(lia) ltac:(lia)
                  (take (buffer_len u) (cq u))) as H.
    rewrite E in H. apply H; rewrite ?Hbl; [rewrite length_take; lia | exact Ht |].
    rewrite Hcq, length_take. intros Hlt. apply drop_ge. lia. }
  unfold poll_blocking_events.
  destruct (wait && is_empty (queue i l)) eqn:Ew; cbn [andb].
  2: { rewrite app_nil_r. now apply Hcopy. }
  apply andb_true_iff in Ew as [-> _]. specialize (Hn eq_refl).
  unfold wait_events. pose proof (copy_cqes_spec u) as HC.
  pose proof (Hcopy u Hb) as Hcp.
  destruct (copy_cqes u) as [n u1]. destruct HC as (Hnn & Ht & Hcq & Hbl).
  rewrite drop_ge in Hcq by lia. rewrite take_ge in Hnn by lia.
  rewrite drain_full_stable by exact Hcq. subst n.
  destruct (Nat.eqb_spec (length (cq u)) 0) as [E0|E0].
  - destruct (cq u); [|discriminate]. rewrite Hcq. cbn [app].
    apply (Hcopy (Uring arrivals (blocking_ready_tasks u1))).
    unfold buffer_len in *. cbn. lia.
  - rewrite app_nil_r. exact Hcp.
Qed.

(** With more than one buffer of completions waiting when the loop is about to
    park, the second copy overwrites the first before it is handed over: those
    completions never reach their callbacks. *)
Lemma poll_wait_loses i arrivals first second buf l :
  length first = length buf -> 0 < length second <= length buf ->
  is_empty (queue i l) = true ->
  match poll_blocking_events true i arrivals (Uring (first ++ second) buf) l with
  | (ok, _, l') => fetch_completed_tasks i second l = (ok, l')
  end.
Proof.
  intros Hf Hs He. unfold poll_blocking_events. rewrite He. cbn [andb].
  assert (E1 : copy_cqes (Uring (first ++ second) buf) = (length buf, Uring second first)).
  { unfold copy_cqes, buffer_len. cbn [cq blocking_ready_tasks].
    rewrite <- Hf, take_app_length, drop_app_length, Hf, drop_all, app_nil_r. reflexivity. }
  set (u2 := Uring [] (second ++ drop (length second) first)).
  assert (E2 : copy_cqes (Uring second first) = (length second, u2)).
  { unfold copy_cqes, buffer_len, u2. cbn [cq blocking_ready_tasks].
    rewrite take_ge, drop_ge by lia. reflexivity. }
  assert (Hb2 : buffer_len u2 = length buf).
  { unfold buffer_len, u2. cbn. rewrite length_app, length_drop. lia. }
  assert (E3 : wait_events arrivals (Uring (first ++ second) buf) = (length second, u2)).
  { unfold wait_events. rewrite E1. cbn [cq Nat.add]. rewrite Nat.add_1_r.
    cbn [drain_full]. unfold buffer_len at 1. cbn [blocking_ready_tasks].
    rewrite (proj2 (Nat.ltb_lt _ _)) by lia. rewrite Hf, Nat.eqb_refl. cbn [andb].
    rewrite E2. destruct (length second) as [|n] eqn:El; [lia|].
    rewrite drain_full_stable by reflexivity. reflexivity. }
  rewrite E3.
  pose proof (harvest_all (length (cq u2) + 2) i u2 l ltac:(lia) ltac:(cbn; lia)
                second ltac:(lia)) as HH.
  cbn [u2 cq] in HH. rewrite app_nil_r in HH.
  specialize (HH ltac:(unfold u2; cbn; apply take_app_length) ltac:(reflexivity)).
  destruct (harvest _ i (length second) u2 l) as [[ok u'] l']. apply HH.
Qed.
(** C12: ready callbacks run in the order they were scheduled, each at most once,
    whatever they do: after any number of iterations, with callbacks that
    schedule more callbacks, fail or stop the loop, and completions arriving in
    any pattern, the callbacks scheduled so far are exactly those that were run,
    in that order, followed by those still waiting in the two queues. *)
Theorem loop_runs_fifo (q : list A) (l : loop_state) (arrivals : list (list cqe))
    (wait : bool) (u : uring) (H : running [] q l) :
  match run_loop arrivals wait u l with
  | (_, _, l') => exists qo qc,
      lp_scheduled l' = lp_executed l' ++ qo ++ qc
      /\ repr (queue (negb (lp_index l')) l') qo
      /\ repr (queue (lp_index l') l') qc
      /\ exists more, lp_executed l' = lp_executed l ++ more
  end.
Proof.
  pose proof (run_loop_spec arrivals wait u q l H) as HR.
  destruct (run_loop arrivals wait u l) as [[r u'] l'].
  destruct HR as (more & qo & qc & He & [Ho Hc Hl]). exists qo, qc. eauto.
Qed.

(** An iteration that does not end the loop runs every callback that was
    ready when it began, then the completions it polled, and nothing else: what
    these callbacks schedule waits for the next iteration, so no callback can
    starve the others, and an iteration always ends. *)
Theorem iteration_runs_ready (q : list A) (l : loop_state) (wait : bool)
    (arrivals : list cqe) (u : uring) (H : running [] q l) :
  match iteration wait arrivals u l with
  | (LoopGoesOn _, _, l') => exists polled later,
      lp_executed l' = lp_executed l ++ q ++ polled
      /\ lp_scheduled l' = lp_executed l' ++ later
      /\ repr (queue (lp_index l') l') later
      /\ repr (queue (negb (lp_index l')) l') []
  | (LoopError, _, l') => exists done waiting,
      lp_executed l' = lp_executed l ++ done
      /\ lp_scheduled l' = lp_executed l' ++ waiting
  end.
Proof.
  pose proof (iteration_spec wait arrivals u q l H) as HI.
  destruct (iteration wait arrivals u l) as [[[w'|] u'] l'].
  - destruct HI as (c & s & He & [Ho Hc Hl]). exists c, s. auto.
  - destruct HI as (done & rest & s & He & [[_ _ Hl]|[_ _ Hl]]); exists done; eauto.
Qed.
End World.
End Loop.

(** ** A small loop *)

(** Callbacks are numbers: a positive one below ten schedules its tenfold, the
    callback [7] fails, [9] is interrupted by [KeyboardInterrupt]. *)
Definition demo_world : world (A := nat) (env := unit) :=
  World
    (fun x _ => (Effect (if (0 <? x) && (x <? 10) then [x * 10] else []) false tt,
                 if x =? 7 then CallExc else if x =? 9 then CallFatal else CallOk))
    (fun _ _ => Effect [] false tt)
    (fun _ => (Effect [] false tt, true))
    (fun _ _ => (Effect [] false tt, CallOk))
    (fun _ _ => 0%N) (fun x => x) (fun _ _ => []) (fun _ => true).

Definition demo_loop (ready : list nat) : loop_state (A := nat) (env := unit) :=
  let empty := default (Ring [] [] 0%N 0%N 0%N) (init 2%N) in
  fold_left (fun l x => dispatch demo_world x l) ready
    (LoopState empty empty false [] 0%Z false tt [] []).

Lemma demo_running ready : exists q, running [] q (demo_loop ready).
Proof.
  unfold demo_loop. set (e := default _ _).
  set (l0 := LoopState e e false [] 0%Z false tt [] []).
  assert (He : repr e ([] : list nat)) by (apply (repr_init 2%N); reflexivity).
  assert (H0 : running [] [] l0) by (split; [exact He | exact He | reflexivity]).
  destruct (fold_schedules (fun l x => dispatch demo_world x l) ready l0)
    as (_ & _ & Hs); [intros; apply dispatch_schedules|].
  destruct (Hs _ _ H0) as [s H]. now exists s.
Qed.

Lemma demo_running_127 : running [] [1; 2; 7] (demo_loop [1; 2; 7]).
Proof.
  destruct (demo_running [1; 2; 7]) as [q H].
  assert (E : lp_scheduled (demo_loop [1; 2; 7]) = lp_executed (demo_loop [1; 2; 7]) ++ [] ++ q)
    by apply H.
  vm_compute in E. subst q. exact H.
Qed.

Definition demo_uring : uring := Uring [CqeTask 3 None; CqeInternal] (replicate 2 CqeInternal).

Lemma loop_runs_fifo_witness :
  match run_loop demo_world [[]; []; []] false demo_uring (demo_loop [1; 2; 7]) with
  | (_, _, l') =>
      (exists qo qc,
        lp_scheduled l' = lp_executed l' ++ qo ++ qc
        /\ repr (queue (negb (lp_index l')) l') qo
        /\ repr (queue (lp_index l') l') qc
        /\ exists more, lp_executed l' = lp_executed (demo_loop [1; 2; 7]) ++ more)
      /\ lp_executed l' = [1; 2; 7; 3; 10; 20; 70; 30]
  end.
Proof.
  pose proof (loop_runs_fifo demo_world [1; 2; 7] (demo_loop [1; 2; 7]) [[]; []; []] false
                demo_uring demo_running_127) as H.
  destruct (run_loop demo_world [[]; []; []] false demo_uring (demo_loop [1; 2; 7]))
    as [[r u'] l'] eqn:E.
  split; [exact H|]. vm_compute in E. injection E as _ _ <-. reflexivity.
Defined.

Lemma iteration_runs_ready_witness :
  match iteration demo_world false [] demo_uring (demo_loop [1; 2; 7]) with
  | (LoopGoesOn _, _, l') => exists polled later,
      lp_executed l' = lp_executed (demo_loop [1; 2; 7]) ++ [1; 2; 7] ++ polled
      /\ lp_scheduled l' = lp_executed l' ++ later
      /\ repr (queue (lp_index l') l') later
      /\ repr (queue (negb (lp_index l')) l') []
  | (LoopError, _, l') => exists done waiting,
      lp_executed l' = lp_executed (demo_loop [1; 2; 7]) ++ done
      /\ lp_scheduled l' = lp_executed l' ++ waiting
  end.
Proof.
  exact (iteration_runs_ready demo_world [1; 2; 7] (demo_loop [1; 2; 7]) false []
           demo_uring demo_running_127).
Defined.

Lemma poll_delivers_witness :
  match poll_blocking_events demo_world true false [CqeTask 4 None] demo_uring (demo_loop []) with
  | (ok, u', l') =>
      fetch_completed_tasks demo_world false
        (cq demo_uring ++ if true && is_empty (queue false (demo_loop []))
                             && (length (cq demo_uring) =? 0)
                          then [CqeTask 4 None] else []) (demo_loop []) = (ok, l')
      /\ (ok = true -> cq u' = [])
  end.
Proof.
  apply (poll_delivers demo_world true false [CqeTask 4 None] demo_uring (demo_loop []));
    [unfold buffer_len; cbn; lia | intros _; unfold buffer_len; cbn; lia].
Defined.

(** An interrupted iteration leaves its callbacks on the old queue, and the next
    [start] begins with the other one: newer callbacks overtake older ones. *)
Lemma restart_reorders :
  match run_loop demo_world [[]] false (Uring [] (replicate 2 CqeInternal))
          (demo_loop [9; 0; 11]) with
  | (r, u, l) =>
      r = Some LoopError
      /\ match run_loop demo_world [[]; []] false u l with
         | (_, _, l') =>
             lp_scheduled l' = [9; 0; 11; 90] /\ lp_executed l' = [9; 90; 0; 11]
         end
  end.
Proof. vm_compute. repeat split. Qed.

(** The loss of [poll_wait_loses] with a two-entry buffer and three
    completions: the callbacks [4] and [5] are gone. *)
Lemma poll_wait_loses_demo :
  match iteration demo_world true []
          (Uring [CqeTask 4 None; CqeTask 5 None; CqeTask 6 None] (replicate 2 CqeInternal))
          (demo_loop []) with
  | (_, u', l') => cq u' = [] /\ lp_executed l' = [6]
  end.
Proof. vm_compute. split; reflexivity. Qed.
