(* ===== verification/Future.v ===== *)
(** * Futures

    The future of src/src/future/ ([main.zig], [callback.zig], [python/]) and
    the Python classes that construct it and tasks (src/talyn/future.py,
    src/talyn/task.py): the small-buffer callback queue, the state machine that
    settles a future once, and the single dispatch that runs its callbacks.

    Objects are numbers.  What a done-callback does is summarised by whether it
    raises; it cannot change the queue it is run from, since adding and removing
    are refused or rerouted once the future is settled.  [fl_ready] is what the
    future has handed to the loop, [fl_ran] the callbacks that were called. *)

From S2P Require Import Prelude.
From stdpp Require Import base numbers relations list strings.

(** ** The small-buffer queue *)

Module InlineQueue.
Section Queue.
Context {T : Type} (N : nat).

(** [inline_buf[0 .. inline_len]] and the heap list that takes over beyond [N]
    elements. *)
Record queue := Queue {
  inline_items : list T;
  heap : list T }.

Definition empty : queue := Queue [] [].

Definition items (q : queue) : list T :=
  if 0 <? length (heap q) then heap q else inline_items q.

(** [None] is a failed allocation. *)
Definition append (alloc_ok : bool) (q : queue) (value : T) : option queue :=
  if 0 <? length (heap q) then
    if alloc_ok then Some (Queue (inline_items q) (heap q ++ [value])) else None
  else if length (inline_items q) <? N then
    Some (Queue (inline_items q ++ [value]) (heap q))
  else if alloc_ok then
    Some (Queue (inline_items q) (inline_items q ++ [value]))
  else None.

(** The queue must not be empty. *)
Definition pop (q : queue) : option (T * queue) :=
  value ← last (items q);
  Some (value,
        if 0 <? length (heap q) then Queue (inline_items q) (removelast (heap q))
        else Queue (removelast (inline_items q)) (heap q)).

(** A write through [itemsMut()]. *)
Definition map_items (f : T -> T) (q : queue) : queue :=
  if 0 <? length (heap q) then Queue (inline_items q) (f <$> heap q)
  else Queue (f <$> inline_items q) (heap q).

(** [while (queue.itemsMut().len > 0) _ = queue.pop();] *)
Fixpoint drain (fuel : nat) (q : queue) : queue :=
  match fuel with
  | 0 => q
  | S n => match pop q with Some (_, q') => drain n q' | None => q end
  end.

Lemma items_append alloc_ok q v q' :
  append alloc_ok q v = Some q' -> items q' = items q ++ [v].
Proof.
  unfold append, items. destruct (Nat.ltb_spec 0 (length (heap q))) as [Hh|Hh].
  - destruct alloc_ok; [|discriminate]. intros [= <-]. cbn [heap].
    rewrite (proj2 (Nat.ltb_lt _ _)); [reflexivity | rewrite length_app; cbn; lia].
  - destruct (heap q) eqn:Eh; [|cbn in Hh; lia].
    destruct (length (inline_items q) <? N); [intros [= <-]; reflexivity|].
    destruct alloc_ok; [|discriminate]. intros [= <-]. cbn [heap].
    rewrite (proj2 (Nat.ltb_lt _ _)); [reflexivity | rewrite length_app; cbn; lia].
Qed.

Lemma append_never_fails q v : exists q', append true q v = Some q'.
Proof. unfold append. repeat case_match; eauto. Qed.

Lemma items_map f q : items (map_items f q) = f <$> items q.
Proof.
  unfold items, map_items. destruct (0 <? length (heap q)) eqn:E; cbn [heap inline_items].
  - now rewrite length_fmap, E.
  - now rewrite E.
Qed.

(** A queue that was only appended to and rewritten in place shows its
    elements in order. *)
Fixpoint append_all (q : queue) (vs : list T) : option queue :=
  match vs with
  | [] => Some q
  | v :: vs' => q' ← append true q v; append_all q' vs'
  end.

Lemma items_append_all q vs : exists q', append_all q vs = Some q' /\ items q' = items q ++ vs.
Proof.
  revert q. induction vs as [|v vs IH]; intros q; cbn.
  - exists q. now rewrite app_nil_r.
  - destruct (append_never_fails q v) as [q1 E]. rewrite E. cbn.
    destruct (IH q1) as (q' & E' & Hi). exists q'. split; [exact E'|].
    rewrite Hi, (items_append _ _ _ _ E). now rewrite <- app_assoc.
Qed.
End Queue.
Arguments queue T : clear implicits.

(** Promotion to the heap does not empty the inline part: when the heap has been
    popped down, the old inline elements are the items again. *)
Lemma promotion_keeps_inline :
  exists q q' : queue nat,
    append_all 1 empty [1; 2] = Some q /\ items q = [1; 2]
    /\ (pop q ≫= fun r => pop r.2) = Some (1, q') /\ items q' = [1].
Proof. do 2 eexists. split; [reflexivity|]. repeat split. Qed.
End InlineQueue.
Import InlineQueue.

(** ** The future *)

Inductive FutureStatus : Type := pending | finished | canceled.

#[export] Instance FutureStatus_eq_dec : EqDecision FutureStatus.
Proof. solve_decision. Defined.

(** [PythonGeneric] with its callback, [None] once it was detached by
    [remove_done_callback]; [ZigGeneric] is the wake-up of a task. *)
Inductive Data : Type :=
| PythonGeneric (callback : option nat)
| ZigGeneric (ptr : nat).

Record Callback := MkCallback {
  cb_data : Data;
  cb_cancelled : bool;
  cb_executed : bool }.

Definition new_callback (d : Data) : Callback := MkCallback d false false.

(** What the future hands to the loop. *)
Inductive ready : Type :=
| RunSetCallbacks
| RunHandle (callback : nat).

(** What was called: a callback with the future, or a task's wake-up with or
    without it ([callback(null, ptr)] releases the task). *)
Inductive ran : Type :=
| RanPython (callback : nat)
| RanZig (ptr : nat)
| ReleasedZig (ptr : nat).

Record future := MkFuture {
  fut_status : FutureStatus;
  fut_result : option nat;
  fut_exception : option nat;
  fut_cancel_msg : option nat;
  fut_callbacks : queue Callback;
  fut_released : bool;
  fl_initialized : bool;
  fl_reserved : Z;
  fl_ready : list ready;
  fl_ran : list ran }.

Implicit Types (f : future).

Definition set_status (s : FutureStatus) f : future :=
  MkFuture s (fut_result f) (fut_exception f) (fut_cancel_msg f) (fut_callbacks f)
    (fut_released f) (fl_initialized f) (fl_reserved f) (fl_ready f) (fl_ran f).
Definition set_payload (r e m : option nat) f : future :=
  MkFuture (fut_status f) r e m (fut_callbacks f) (fut_released f)
    (fl_initialized f) (fl_reserved f) (fl_ready f) (fl_ran f).
Definition set_callbacks (q : queue Callback) f : future :=
  MkFuture (fut_status f) (fut_result f) (fut_exception f) (fut_cancel_msg f) q
    (fut_released f) (fl_initialized f) (fl_reserved f) (fl_ready f) (fl_ran f).
Definition set_released f : future :=
  MkFuture (fut_status f) (fut_result f) (fut_exception f) (fut_cancel_msg f)
    (fut_callbacks f) true (fl_initialized f) (fl_reserved f) (fl_ready f) (fl_ran f).
Definition set_reserved (n : Z) f : future :=
  MkFuture (fut_status f) (fut_result f) (fut_exception f) (fut_cancel_msg f)
    (fut_callbacks f) (fut_released f) (fl_initialized f) n (fl_ready f) (fl_ran f).
Definition set_ready (l : list ready) f : future :=
  MkFuture (fut_status f) (fut_result f) (fut_exception f) (fut_cancel_msg f)
    (fut_callbacks f) (fut_released f) (fl_initialized f) (fl_reserved f) l (fl_ran f).
Definition set_ran (l : list ran) f : future :=
  MkFuture (fut_status f) (fut_result f) (fut_exception f) (fut_cancel_msg f)
    (fut_callbacks f) (fut_released f) (fl_initialized f) (fl_reserved f) (fl_ready f) l.
Definition set_initialized (b : bool) f : future :=
  MkFuture (fut_status f) (fut_result f) (fut_exception f) (fut_cancel_msg f)
    (fut_callbacks f) (fut_released f) b (fl_reserved f) (fl_ready f) (fl_ran f).

(** The inline capacity of [CallbacksSetData]. *)
Definition callbacks_inline : nat := 2.

Definition init (initialized : bool) (reserved : Z) : future :=
  MkFuture pending None None None empty false initialized (reserved + 1) [] [].

(** [add_done_callback] of callback.zig, for Python callbacks and for the
    wake-up of a task. *)
Definition add_callback (d : Data) f : future :=
  if bool_decide (fut_status f <> pending) || fut_released f then f
  else match append callbacks_inline true (fut_callbacks f) (new_callback d) with
       | Some q => set_callbacks q f
       | None => f
       end.

(** What [release_callbacks_queue] does to one entry. *)
Definition release_entry (c : Callback) : Callback * list ran :=
  if cb_executed c then (c, [])
  else (MkCallback (cb_data c) (cb_cancelled c) true,
        match cb_data c with
        | PythonGeneric _ => []
        | ZigGeneric p => [ReleasedZig p]
        end).

Definition release_callbacks_queue f : future :=
  set_ran (fl_ran f ++ flat_map (fun c => (release_entry c).2) (items (fut_callbacks f)))
    (set_callbacks (map_items (fun c => (release_entry c).1) (fut_callbacks f)) f).

Inductive fut_error : Type :=
| InvalidState
| LoopClosed
| InvalidCallback
| CallbackErrors (exceptions : list nat)
| ComparisonError.

(** [call_done_callbacks]. *)
Definition call_done_callbacks (new_status : FutureStatus) f : option fut_error * future :=
  if bool_decide (fut_status f <> pending) then (None, f)
  else
    let f := set_status new_status f in
    if length (items (fut_callbacks f)) =? 0 then
      (None, set_reserved (fl_reserved f - 1) f)
    else if negb (fl_initialized f) then
      (Some LoopClosed,
       release_callbacks_queue (set_reserved (fl_reserved f - 1) f))
    else
      (None, set_ready (fl_ready f ++ [RunSetCallbacks])
               (set_reserved (fl_reserved f - 1) f)).

(** ** The Python methods *)

(** [add_done_callback]; [callable] is [PyCallable_Check]. *)
Definition future_add_done_callback (cb : nat) (callable : bool) f
    : option fut_error * future :=
  if negb callable then (Some InvalidCallback, f)
  else match fut_status f with
  | pending => (None, add_callback (PythonGeneric (Some cb)) f)
  | _ =>
      if negb (fl_initialized f) then (Some LoopClosed, f)
      else (None, set_ready (fl_ready f ++ [RunHandle cb]) f)
  end.

Section Equality.
(** [PyObject_RichCompareBool(candidate, callback, Py_EQ)]; [None] is an
    exception of [__eq__]. *)
Variable py_eq : nat -> nat -> option bool.

(** The loop of [remove_done_callback] over the entries: how many were removed,
    and whether a comparison failed. *)
Fixpoint remove_entries (cb : nat) (l : list Callback) : list Callback * nat * bool :=
  match l with
  | [] => ([], 0, false)
  | c :: l' =>
      let skip := match remove_entries cb l' with (l'', n, e) => (c :: l'', n, e) end in
      if cb_cancelled c || cb_executed c then skip
      else match cb_data c with
      | ZigGeneric _ | PythonGeneric None => skip
      | PythonGeneric (Some candidate) =>
          match py_eq candidate cb with
          | None => (c :: l', 0, true)
          | Some true =>
              match remove_entries cb l' with
              | (l'', n, e) =>
                  (MkCallback (PythonGeneric None) true (cb_executed c) :: l'', S n, e)
              end
          | Some false => skip
          end
      end
  end.

(** Writing the items back, in place. *)
Definition put_items (l : list Callback) (q : queue Callback) : queue Callback :=
  if 0 <? length (heap q) then Queue (inline_items q) l else Queue l (heap q).

Definition future_remove_done_callback (cb : nat) f : option fut_error * nat * future :=
  if bool_decide (fut_status f <> pending) || fut_released f then (None, 0, f)
  else match remove_entries cb (items (fut_callbacks f)) with
       | (l, n, e) =>
           (if e then Some ComparisonError else None, n,
            set_callbacks (put_items l (fut_callbacks f)) f)
       end.
End Equality.

Definition future_set_result (v : nat) f : option fut_error * future :=
  if fut_released f then (Some InvalidState, f)
  else match fut_status f with
  | pending =>
      call_done_callbacks finished
        (set_payload (Some v) (fut_exception f) (fut_cancel_msg f) f)
  | _ => (Some InvalidState, f)
  end.

Definition future_set_exception (e : nat) f : option fut_error * future :=
  if fut_released f then (Some InvalidState, f)
  else match fut_status f with
  | pending =>
      call_done_callbacks finished
        (set_payload (fut_result f) (Some e) (fut_cancel_msg f) f)
  | _ => (Some InvalidState, f)
  end.

(** [cancel(msg)]; the answer is the Boolean it returns. *)
Definition future_cancel (msg : option nat) f : option fut_error * bool * future :=
  if fut_released f then (None, false, f)
  else match fut_status f with
  | pending =>
      let f := match msg with
               | Some m => set_payload (fut_result f) (fut_exception f) (Some m) f
               | None => f
               end in
      match call_done_callbacks canceled f with
      | (Some e, f) => (Some e, false, f)
      | (None, f) => (None, true, f)
      end
  | _ => (None, false, f)
  end.

Inductive answer : Type :=
| Value (v : nat)
| RaisedException (e : nat)
| RaisedInvalidState
| RaisedCancelled (msg : option nat).

Definition future_result f : answer :=
  match fut_status f with
  | pending => RaisedInvalidState
  | finished =>
      match fut_exception f, fut_result f with
      | Some e, _ => RaisedException e
      | None, Some v => Value v
      | None, None => RaisedInvalidState
      end
  | canceled => RaisedCancelled (fut_cancel_msg f)
  end.

Definition future_exception f : option nat + answer :=
  match fut_status f with
  | pending => inr RaisedInvalidState
  | finished => inl (fut_exception f)
  | canceled => inr (RaisedCancelled (fut_cancel_msg f))
  end.

Definition future_done f : bool := bool_decide (fut_status f <> pending).
Definition future_cancelled f : bool := bool_decide (fut_status f = canceled).

(** ** Running the callbacks *)

Section Run.
(** The exception a callback raises when it is called, if any. *)
Variable raises : ran -> option nat.

Definition runnable (c : Callback) : option ran :=
  if cb_cancelled c || cb_executed c then None
  else match cb_data c with
  | PythonGeneric (Some cb) => Some (RanPython cb)
  | PythonGeneric None => None
  | ZigGeneric p => Some (RanZig p)
  end.

Definition mark_executed (c : Callback) : Callback :=
  if cb_cancelled c || cb_executed c then c
  else MkCallback (cb_data c) (cb_cancelled c) true.

(** [run_python_future_set_callbacks]: every callback that was not removed is
    called, and the exceptions are raised together. *)
Definition run_set_callbacks (cancelled : bool) f : option fut_error * future :=
  if cancelled then (None, release_callbacks_queue f)
  else
    let calls := omap runnable (items (fut_callbacks f)) in
    let excs := omap raises calls in
    let f := set_ran (fl_ran f ++ calls)
               (set_callbacks (map_items mark_executed (fut_callbacks f)) f) in
    (match excs with [] => None | _ => Some (CallbackErrors excs) end, f).

(** The loop takes the oldest thing the future handed to it. *)
Definition run_ready (cancelled : bool) f : option fut_error * future :=
  match fl_ready f with
  | [] => (None, f)
  | RunSetCallbacks :: l => run_set_callbacks cancelled (set_ready l f)
  | RunHandle cb :: l =>
      if cancelled then (None, set_ready l f)
      else (match raises (RanPython cb) with
            | Some e => Some (CallbackErrors [e])
            | None => None
            end, set_ran (fl_ran f ++ [RanPython cb]) (set_ready l f))
  end.
End Run.

(** [Future.release], at deallocation. *)
Definition release f : future :=
  if fut_released f then f
  else
    let f := set_released f in
    let f := if bool_decide (fut_status f = pending)
             then set_reserved (fl_reserved f - 1) f else f in
    set_callbacks empty (release_callbacks_queue f).

(** ** The Python constructors *)

(** [Future.__init__]: [running] is [asyncio.get_running_loop()]. *)
Definition Future_init {L} (loop : option L) (running : outcome L) : outcome L :=
  match loop with
  | None => running
  | Some l => Ret l
  end.

(** [Task.__init__], up to the loop the native constructor gets. *)
Definition Task_init {L} (eager_start : bool) (loop : option L) (running : outcome L)
    : outcome L :=
  if eager_start then Raise (RuntimeError "eager_start is not supported")
  else match loop with
       | None => running
       | Some l => Ret l
       end.

(** ** The life of a future *)

Section Life.
Variable py_eq : nat -> nat -> option bool.
Variable raises : ran -> option nat.

(** What can happen to a future while its loop is open and it is referenced. *)
Inductive fop : Type :=
| OAdd (cb : nat)
| OAddZig (p : nat)
| ORemove (cb : nat)
| OSetResult (v : nat)
| OSetException (e : nat)
| OCancel (msg : option nat)
| ORun.

Definition apply_op (op : fop) f : future :=
  match op with
  | OAdd cb => (future_add_done_callback cb true f).2
  | OAddZig p => add_callback (ZigGeneric p) f
  | ORemove cb => (future_remove_done_callback py_eq cb f).2
  | OSetResult v => (future_set_result v f).2
  | OSetException e => (future_set_exception e f).2
  | OCancel msg => (future_cancel msg f).2
  | ORun => (run_ready raises false f).2
  end.

Definition settles (op : fop) : bool :=
  match op with OSetResult _ | OSetException _ | OCancel _ => true | _ => false end.

(** The callbacks that were added and not removed, in order. *)
Definition registered f : list ran := omap runnable (items (fut_callbacks f)).

(** The reference: [add_done_callback] appends, [remove_done_callback] takes out
    every callback equal to the given one, up to a comparison that fails. *)
Fixpoint without (cb : nat) (l : list ran) : list ran :=
  match l with
  | [] => []
  | RanPython c :: l' =>
      match py_eq c cb with
      | None => l
      | Some true => without cb l'
      | Some false => RanPython c :: without cb l'
      end
  | x :: l' => x :: without cb l'
  end.

Definition wanted_after (l : list ran) (op : fop) : list ran :=
  match op with
  | OAdd cb => l ++ [RanPython cb]
  | OAddZig p => l ++ [RanZig p]
  | ORemove cb => without cb l
  | _ => l
  end.

Definition wanted (before : list fop) : list ran := fold_left wanted_after before [].

(** The callbacks of a settled future: those added to it. *)
Definition added_late (after : list fop) : list ran :=
  omap (fun op => match op with OAdd cb => Some (RanPython cb) | _ => None end) after.

(** The outcome of the future. *)
Definition payload f : FutureStatus * option nat * option nat * option nat :=
  (fut_status f, fut_result f, fut_exception f, fut_cancel_msg f).

Record waiting (r : Z) f : Prop := {
  wt_pending : fut_status f = pending;
  wt_open : fl_initialized f = true /\ fut_released f = false;
  wt_quiet : fl_ready f = [] /\ fl_ran f = [];
  wt_slot : fl_reserved f = (r + 1)%Z;
  wt_fresh : Forall (fun c => cb_executed c = false) (items (fut_callbacks f)) }.

(** What an entry of the ready list will call, for a future settled with the
    callbacks [R]. *)
Definition expand (R : list ran) (x : ready) : list ran :=
  match x with RunSetCallbacks => R | RunHandle cb => [RanPython cb] end.

Record done (r : Z) (R late : list ran) (p : FutureStatus * option nat * option nat * option nat) f
    : Prop := {
  dn_payload : payload f = p;
  dn_done : fut_status f <> pending;
  dn_open : fl_initialized f = true /\ fut_released f = false;
  dn_slot : fl_reserved f = r;
  dn_order : fl_ran f ++ flat_map (expand R) (fl_ready f) = R ++ late;
  dn_queued : RunSetCallbacks ∈ fl_ready f ->
    registered f = R /\ exists l, fl_ready f = RunSetCallbacks :: l /\ RunSetCallbacks ∉ l }.

Lemma add_callback_waiting r d f :
  waiting r f -> waiting r (add_callback d f)
  /\ registered (add_callback d f)
     = registered f ++ match d with
                       | PythonGeneric (Some cb) => [RanPython cb]
                       | PythonGeneric None => []
                       | ZigGeneric p => [RanZig p]
                       end.
Proof.
  intros [Hp [Hi Hr] Hq Hs Hf]. unfold add_callback.
  rewrite (bool_decide_eq_false_2 _ (fun H => H Hp)), Hr. cbn [orb].
  destruct (append_never_fails callbacks_inline (fut_callbacks f) (new_callback d)) as [q E].
  rewrite E. pose proof (items_append _ _ _ _ _ E) as Hit. split.
  - split; auto. cbn [fut_callbacks set_callbacks]. rewrite Hit.
    apply Forall_app. split; [exact Hf | now repeat constructor].
  - unfold registered. cbn [fut_callbacks set_callbacks]. rewrite Hit, omap_app. f_equal.
    destruct d as [[cb|]|p]; reflexivity.
Qed.

Lemma remove_entries_fresh cb l :
  Forall (fun c => cb_executed c = false) l ->
  Forall (fun c => cb_executed c = false) (remove_entries py_eq cb l).1.1.
Proof.
  induction 1 as [|c l Hc Hl IH]; cbn [remove_entries]; [constructor|].
  destruct (remove_entries py_eq cb l) as [[l' n] e]. cbn [fst] in IH.
  repeat case_match; cbn [fst]; repeat constructor; assumption.
Qed.

Lemma remove_entries_length cb l : length (remove_entries py_eq cb l).1.1 = length l.
Proof.
  induction l as [|c l IH]; cbn [remove_entries]; [reflexivity|].
  destruct (remove_entries py_eq cb l) as [[l' n] e]. cbn [fst] in IH.
  repeat case_match; cbn [fst length]; lia.
Qed.

Lemma items_put_items l (q : queue Callback) : length l = length (items q) -> items (put_items l q) = l.
Proof.
  unfold items, put_items. destruct (0 <? length (heap q)) eqn:E; cbn [heap inline_items].
  - intros ->. now rewrite E.
  - now rewrite E.
Qed.

Lemma remove_waiting r cb f : waiting r f -> waiting r (future_remove_done_callback py_eq cb f).2.
Proof.
  intros [Hp [Hi Hr] Hq Hs Hf]. unfold future_remove_done_callback.
  rewrite (bool_decide_eq_false_2 _ (fun H => H Hp)), Hr. cbn [orb].
  pose proof (remove_entries_fresh cb _ Hf) as H1.
  pose proof (remove_entries_length cb (items (fut_callbacks f))) as H2.
  destruct (remove_entries py_eq cb (items (fut_callbacks f))) as [[l n] e]. cbn [fst snd] in *.
  split; auto. cbn [fut_callbacks set_callbacks]. now rewrite items_put_items.
Qed.

(** Settling: one dispatch for all the callbacks, and the reserved slot is
    given back. *)
Lemma call_done_callbacks_done r s f r' e m :
  waiting r f -> s <> pending ->
  match call_done_callbacks s (set_payload r' e m f) with
  | (err, f') => err = None /\ done r (registered f) [] (s, r', e, m) f' /\ fl_ran f' = []
  end.
Proof.
  intros [Hp [Hi Hr] [Hq1 Hq2] Hs Hf] Hsn. unfold call_done_callbacks.
  rewrite (bool_decide_eq_false_2 _ (fun H => H Hp)). cbn zeta.
  cbn [fut_callbacks set_status set_payload fl_initialized fl_reserved fl_ready].
  destruct (Nat.eqb_spec (length (items (fut_callbacks f))) 0) as [E|E].
  - split; [reflexivity|]. split; [|exact Hq2].
    assert (ER : registered f = []) by (unfold registered; now destruct (items (fut_callbacks f))).
    split; cbn; auto; [lia | | ].
    + now rewrite Hq1, Hq2, ER.
    + rewrite Hq1. intros H. now apply not_elem_of_nil in H.
  - rewrite Hi. cbn [negb]. split; [reflexivity|]. split; [|exact Hq2].
    split; cbn; auto; [lia | | ].
    + rewrite Hq1, Hq2. reflexivity.
    + intros _. split; [reflexivity|]. exists []. rewrite Hq1. split; [reflexivity|].
      apply not_elem_of_nil.
Qed.

Lemma settle_done r op f :
  waiting r f -> settles op = true ->
  done r (registered f) [] (payload (apply_op op f)) (apply_op op f)
  /\ fl_ran (apply_op op f) = [].
Proof.
  intros HW Hop. pose proof (wt_pending _ _ HW) as Hp.
  pose proof (proj2 (wt_open _ _ HW)) as Hr.
  destruct op as [cb|p|cb|v|e|msg|]; try discriminate; cbn [apply_op].
  - unfold future_set_result. rewrite Hr, Hp.
    pose proof (call_done_callbacks_done r finished f (Some v) (fut_exception f) (fut_cancel_msg f)
                  HW ltac:(discriminate)) as H.
    destruct (call_done_callbacks _ _) as [err f']. destruct H as (_ & H & Hran).
    split; [|exact Hran]. cbn [snd]. now rewrite (dn_payload _ _ _ _ _ H).
  - unfold future_set_exception. rewrite Hr, Hp.
    pose proof (call_done_callbacks_done r finished f (fut_result f) (Some e) (fut_cancel_msg f)
                  HW ltac:(discriminate)) as H.
    destruct (call_done_callbacks _ _) as [err f']. destruct H as (_ & H & Hran).
    split; [|exact Hran]. cbn [snd]. now rewrite (dn_payload _ _ _ _ _ H).
  - unfold future_cancel. rewrite Hr, Hp. cbn zeta.
    set (m := match msg with Some m => Some m | None => fut_cancel_msg f end).
    pose proof (call_done_callbacks_done r canceled f (fut_result f) (fut_exception f) m
                  HW ltac:(discriminate)) as H.
    assert (E : match msg with
                | Some m => set_payload (fut_result f) (fut_exception f) (Some m) f
                | None => f
                end = set_payload (fut_result f) (fut_exception f) m f)
      by (unfold m; destruct msg; [reflexivity | now destruct f]).
    rewrite E. destruct (call_done_callbacks _ _) as [err f']. destruct H as (-> & H & Hran).
    split; [|exact Hran]. cbn [snd]. now rewrite (dn_payload _ _ _ _ _ H).
Qed.

Lemma waiting_step r op f :
  waiting r f -> settles op = false -> waiting r (apply_op op f).
Proof.
  intros HW Hop. destruct op as [cb|p|cb|v|e|msg|]; try discriminate; cbn [apply_op].
  - unfold future_add_done_callback. cbn [negb]. rewrite (wt_pending _ _ HW). cbn [snd].
    now apply add_callback_waiting.
  - now apply add_callback_waiting.
  - now apply remove_waiting.
  - unfold run_ready. destruct (wt_quiet _ _ HW) as [-> _]. exact HW.
Qed.

(** The entries that are still to be called after a removal. *)
Lemma remove_entries_without cb l :
  Forall (fun c => cb_executed c = false) l ->
  omap runnable (remove_entries py_eq cb l).1.1 = without cb (omap runnable l).
Proof.
  induction 1 as [|c l Hc Hl IH]; cbn [remove_entries]; [reflexivity|].
  destruct (remove_entries py_eq cb l) as [[l' n] e]. cbn [fst] in IH. rewrite Hc, orb_false_r.
  destruct c as [d [] x]; cbn [cb_cancelled cb_executed cb_data] in *; subst x; [exact IH|].
  destruct d as [[c|]|p]; cbn; [|exact IH | now rewrite IH].
  destruct (py_eq c cb) as [[]|]; cbn; [exact IH | now rewrite IH | reflexivity].
Qed.

Lemma waiting_wanted r op f :
  waiting r f -> settles op = false -> registered (apply_op op f) = wanted_after (registered f) op.
Proof.
  intros HW Hop. destruct op as [cb|p|cb|v|e|msg|]; try discriminate; cbn [apply_op wanted_after].
  - unfold future_add_done_callback. cbn [negb]. rewrite (wt_pending _ _ HW). cbn [snd].
    now apply (add_callback_waiting r (PythonGeneric (Some cb))).
  - now apply (add_callback_waiting r (ZigGeneric p)).
  - pose proof HW as [Hp [Hi Hr] _ _ Hf]. unfold future_remove_done_callback.
    rewrite (bool_decide_eq_false_2 _ (fun H => H Hp)), Hr. cbn [orb].
    pose proof (remove_entries_without cb _ Hf) as H1.
    pose proof (remove_entries_length cb (items (fut_callbacks f))) as H2.
    destruct (remove_entries py_eq cb (items (fut_callbacks f))) as [[l n] e]. cbn [fst snd] in *.
    unfold registered at 1. cbn [fut_callbacks set_callbacks]. now rewrite items_put_items.
  - unfold run_ready. destruct (wt_quiet _ _ HW) as [-> _]. reflexivity.
Qed.

(** A settled future only runs what it promised, and takes new callbacks
    straight to the loop. *)
Lemma done_step r R late p op f :
  done r R late p f -> done r R (late ++ added_late [op]) p (apply_op op f).
Proof.
  intros HD. pose proof HD as [Hpay Hd [Hi Hr] Hs Ho Hq].
  assert (Hpend : bool_decide (fut_status f <> pending) = true) by now apply bool_decide_eq_true_2.
  destruct op as [cb|q|cb|v|e|msg|]; cbn [apply_op]; unfold added_late; cbn [omap list_omap];
    rewrite ?app_nil_r.
  - unfold future_add_done_callback. cbn [negb]. rewrite Hi. cbn [negb].
    destruct (fut_status f) eqn:Es; [congruence| |];
      (split; cbn [payload fut_status fut_result fut_exception fut_cancel_msg set_ready snd
                   fl_initialized fut_released fl_reserved fl_ran fl_ready fut_callbacks];
       [exact Hpay | congruence | auto | exact Hs | |]).
    1, 3: rewrite flat_map_app; cbn; rewrite app_assoc, Ho, <- app_assoc; reflexivity.
    all: intros Hin; apply elem_of_app in Hin as [Hin|Hin]; [|set_solver];
      destruct (Hq Hin) as (HR & l & El & Hl); split; [exact HR|];
      exists (l ++ [RunHandle cb]); rewrite El; split; [reflexivity | set_solver].
  - unfold add_callback. now rewrite Hpend.
  - unfold future_remove_done_callback. now rewrite Hpend.
  - unfold future_set_result. rewrite Hr. now destruct (fut_status f).
  - unfold future_set_exception. rewrite Hr. now destruct (fut_status f).
  - unfold future_cancel. rewrite Hr. now destruct (fut_status f).
  - unfold run_ready. destruct (fl_ready f) as [|x l] eqn:El; [exact HD|].
    destruct x as [|cb].
    + destruct (Hq ltac:(set_solver)) as (HR & l' & [= <-] & Hl).
      unfold run_set_callbacks. cbn [snd].
      split; cbn [payload fut_status fut_result fut_exception fut_cancel_msg set_ready set_ran
                  set_callbacks fl_initialized fut_released fl_reserved fl_ran fl_ready fut_callbacks];
        [exact Hpay | exact Hd | auto | exact Hs | |].
      * rewrite <- Ho. cbn [flat_map expand]. unfold registered in HR.
        rewrite HR, <- app_assoc. reflexivity.
      * intros Hin. contradiction.
    + cbn [snd]. split; cbn [payload fut_status fut_result fut_exception fut_cancel_msg set_ready set_ran
                  set_callbacks fl_initialized fut_released fl_reserved fl_ran fl_ready fut_callbacks];
        [exact Hpay | exact Hd | auto | exact Hs | |].
      * rewrite <- Ho. cbn [flat_map expand]. rewrite <- app_assoc. reflexivity.
      * intros Hin. destruct (Hq ltac:(set_solver)) as (_ & l' & E & _). discriminate.
Qed.

Definition run_fops (ops : list fop) f : future := fold_left (fun f op => apply_op op f) ops f.

Lemma waiting_run r ops f :
  waiting r f -> forallb (fun op => negb (settles op)) ops = true ->
  waiting r (run_fops ops f)
  /\ registered (run_fops ops f) = fold_left wanted_after ops (registered f).
Proof.
  revert f. induction ops as [|op ops IH]; intros f HW; cbn; [auto|].
  intros [H1%negb_true_iff H2]%andb_true_iff. rewrite <- (waiting_wanted r op f HW H1).
  apply IH; [|exact H2]. now apply waiting_step.
Qed.

Lemma done_run r R late p ops f :
  done r R late p f -> done r R (late ++ added_late ops) p (run_fops ops f).
Proof.
  revert late f. induction ops as [|op ops IH]; intros late f HD; cbn [run_fops fold_left].
  - unfold added_late. cbn. now rewrite app_nil_r.
  - replace (late ++ added_late (op :: ops)) with ((late ++ added_late [op]) ++ added_late ops).
    + now apply IH, done_step.
    + rewrite <- app_assoc. f_equal. unfold added_late. now rewrite <- omap_app.
Qed.

Lemma init_waiting r : waiting r (init true r).
Proof. split; cbn; auto. Qed.

(** C14: a future of an open loop is settled once and its callbacks run once:
    whatever is added and removed before, the first [set_result],
    [set_exception] or [cancel] fixes the outcome for good, gives back the
    reserved slot, and from then on the callbacks called and still to be called
    are exactly those registered and not removed at that moment, in the order
    they were added, each as often as it was registered, followed by those added
    later, in their order; none is called before, and none is lost. *)
Theorem future_settles_once (r : Z) (before : list fop) (op : fop) (after : list fop)
    (Hbefore : forallb (fun op => negb (settles op)) before = true)
    (Hop : settles op = true) :
  let f0 := run_fops before (init true r) in
  let f1 := apply_op op f0 in
  let f2 := run_fops after f1 in
  fl_ran f1 = [] /\ fut_status f1 <> pending
  /\ payload f2 = payload f1 /\ fl_reserved f2 = r
  /\ fl_ran f2 ++ flat_map (expand (wanted before)) (fl_ready f2)
     = wanted before ++ added_late after.
Proof.
  cbn zeta. destruct (waiting_run r before _ (init_waiting r) Hbefore) as [HW HR].
  change (registered (init true r)) with (@nil ran) in HR. fold (wanted before) in HR.
  destruct (settle_done r op _ HW Hop) as [HD Hran]. rewrite HR in HD.
  pose proof (done_run _ _ _ _ after _ HD) as HD2.
  split; [exact Hran|]. split; [exact (dn_done _ _ _ _ _ HD)|].
  split; [exact (dn_payload _ _ _ _ _ HD2)|]. split; [exact (dn_slot _ _ _ _ _ HD2)|].
  exact (dn_order _ _ _ _ _ HD2).
Qed.
End Life.

Definition demo_eq (a b : nat) : option bool := Some (a =? b).
Definition demo_raises (x : ran) : option nat :=
  match x with RanPython 2 => Some 9 | _ => None end.

Lemma future_settles_once_witness :
  let f0 := run_fops demo_eq demo_raises [OAdd 1; OAdd 2; OAddZig 5; OAdd 3; ORemove 1] (init true 4) in
  let f1 := apply_op demo_eq demo_raises (OSetResult 8) f0 in
  let f2 := run_fops demo_eq demo_raises [OAdd 6; OCancel None; OSetException 1; ORun; ORun; ORun] f1 in
  (fl_ran f1 = [] /\ fut_status f1 <> pending
   /\ payload f2 = payload f1 /\ fl_reserved f2 = 4%Z
   /\ fl_ran f2 ++ flat_map (expand (wanted demo_eq [OAdd 1; OAdd 2; OAddZig 5; OAdd 3; ORemove 1]))
                   (fl_ready f2)
      = wanted demo_eq [OAdd 1; OAdd 2; OAddZig 5; OAdd 3; ORemove 1]
        ++ added_late [OAdd 6; OCancel None; OSetException 1; ORun; ORun; ORun])
  /\ fl_ran f2 = [RanPython 2; RanZig 5; RanPython 3; RanPython 6]
  /\ future_result f2 = Value 8.
Proof.
  cbn zeta. split; [|vm_compute; auto].
  exact (future_settles_once demo_eq demo_raises 4 [OAdd 1; OAdd 2; OAddZig 5; OAdd 3; ORemove 1]
           (OSetResult 8) [OAdd 6; OCancel None; OSetException 1; ORun; ORun; ORun]
           eq_refl eq_refl).
Defined.

(** A settled future refuses to be settled again. *)
Lemma settled_refuses f v e msg :
  fut_status f <> pending ->
  (future_set_result v f = (Some InvalidState, f))
  /\ (future_set_exception e f = (Some InvalidState, f))
  /\ (future_cancel msg f = (None, false, f)).
Proof.
  intros H. unfold future_set_result, future_set_exception, future_cancel.
  destruct (fut_released f), (fut_status f); try congruence; auto.
Qed.

(** All the exceptions of the callbacks are reported together; the callbacks
    after a failing one still run. *)
Lemma run_set_callbacks_reports raises f :
  match run_set_callbacks raises false f with
  | (err, f') =>
      fl_ran f' = fl_ran f ++ registered f
      /\ match omap raises (registered f) with
         | [] => err = None
         | excs => err = Some (CallbackErrors excs)
         end
  end.
Proof. unfold run_set_callbacks, registered. cbn. split; [reflexivity|]. now destruct (omap raises _). Qed.

(** [release] gives the slot back exactly when the future was never settled,
    and only once. *)
Lemma release_slot f :
  fut_released f = false ->
  fl_reserved (release f)
  = (fl_reserved f - (if bool_decide (fut_status f = pending) then 1 else 0))%Z
  /\ release (release f) = release f.
Proof.
  intros H. assert (Hr : fut_released (release f) = true).
  { unfold release. rewrite H. cbn. now destruct (bool_decide _). }
  split; [|unfold release at 1; now rewrite Hr].
  unfold release. rewrite H. cbn. destruct (bool_decide _); cbn; lia.
Qed.
