(* ===== verification/Task.v ===== *)
(** * Tasks

    src/src/task/callbacks.zig and task/cancel.zig: the step machine that drives
    a coroutine, on a heap of futures (the model of [Future]) and tasks, and the
    handles they put on the ready queue of the loop.

    A coroutine is a program of small steps in a type of continuations: it does
    something to the heap, awaits, yields, returns or raises.  An exception is
    an object number; its class is a parameter, and so is the number of an
    exception the native code makes.  The loop is open and there is one of it;
    contexts, the registries of current tasks, reference counts and futures that
    are not talyn's are left out. *)

From S2P Require Import Prelude Future.
From Stdlib Require Import NArith.
From stdpp Require Import base numbers relations list gmap strings.

(** ** Exceptions *)

Inductive exc_class : Type := EcCancelled | EcFatal | EcOther.

Inductive builtin_exc : Type :=
| BCancelled (msg : option nat)
| BRuntimeError (message : string)
| BGroup (exceptions : list nat)
| BInvalidState | BAttributeError | BNotImplemented.

#[export] Instance exc_class_eq_dec : EqDecision exc_class.
Proof. solve_decision. Defined.

Section Task.
Context {C : Type}.

Variable class_of : nat -> exc_class.
Variable new_exc : builtin_exc -> nat.

(** ** Coroutines *)

(** What a coroutine can do to the heap in one step. *)
Inductive op : Type :=
| ONewFuture
| ONewTask (c : C)
| OCancel (id : nat) (msg : option nat)
| OUncancel (id : nat)
| OSetResult (id v : nat)
| OSetException (id e : nat)
| OAddCallback (id cb : nat).

(** What it gets back, and what it is resumed with. *)
Inductive value : Type :=
| VNone
| VObj (n : nat)
| VBool (b : bool)
| VExc (e : nat).

Inductive co_action : Type :=
| Do (o : op) (k : C)
| Await (id : nat) (k : C)               (* await fut: next(iter(fut)) until it is done *)
| YieldFuture (id : nat) (k : C)         (* a bare yield of a future *)
| YieldNone (k : C)
| YieldBad (k : C)                       (* a yield of an object that is no future *)
| Return (v : nat)
| RaiseExc (e : nat).

Variable co_step : C -> value -> co_action.

(** The operations a Python callback runs when the future calls it, and the
    exception it ends with. *)
Variable callback_ops : nat -> nat -> list op.
Variable callback_exc : nat -> nat -> option nat.

(** ** The heap *)

(** [PythonTaskObject]: the suspended coroutine - inside an [await] of a future
    or not -, and the fields of the task. *)
Record tdata := MkTask {
  coro : option nat * C;
  fut_waiter : option nat;
  exception : option nat;
  cancel_requests : N;
  must_cancel : bool }.

Record obj := MkObj {
  ob_fut : future;
  ob_blocking : bool;
  ob_task : option tdata }.

Inductive handle : Type :=
| HSend (t : nat)
| HThrow (t : nat)
| HCallbacks (id : nat)
| HPython (cb id : nat).

Record world := World {
  w_heap : gmap nat obj;
  w_next : nat;
  w_ready : list handle;
  w_reported : list nat;                 (* to the loop's exception handler *)
  w_steps : list (nat * value) }.        (* the coroutines entered, with what *)

Implicit Types (w : world) (t id : nat).

Definition set_heap (h : gmap nat obj) w : world :=
  World h (w_next w) (w_ready w) (w_reported w) (w_steps w).
Definition push_handle (h : handle) w : world :=
  World (w_heap w) (w_next w) (w_ready w ++ [h]) (w_reported w) (w_steps w).
Definition set_queue (q : list handle) w : world :=
  World (w_heap w) (w_next w) q (w_reported w) (w_steps w).
Definition report (e : nat) w : world :=
  World (w_heap w) (w_next w) (w_ready w) (w_reported w ++ [e]) (w_steps w).
Definition note_step t (v : value) w : world :=
  World (w_heap w) (w_next w) (w_ready w) (w_reported w) (w_steps w ++ [(t, v)]).

Definition set_fut (f : future) (o : obj) : obj := MkObj f (ob_blocking o) (ob_task o).
Definition set_blocking (b : bool) (o : obj) : obj := MkObj (ob_fut o) b (ob_task o).
Definition set_task (d : tdata) (o : obj) : obj := MkObj (ob_fut o) (ob_blocking o) (Some d).

Definition set_coro (c : option nat * C) (d : tdata) : tdata :=
  MkTask c (fut_waiter d) (exception d) (cancel_requests d) (must_cancel d).
Definition set_waiter (x : option nat) (d : tdata) : tdata :=
  MkTask (coro d) x (exception d) (cancel_requests d) (must_cancel d).
Definition set_exc (x : option nat) (d : tdata) : tdata :=
  MkTask (coro d) (fut_waiter d) x (cancel_requests d) (must_cancel d).
Definition set_cancel (n : N) (b : bool) (d : tdata) : tdata :=
  MkTask (coro d) (fut_waiter d) (exception d) n b.

Definition get_task t w : option (obj * tdata) :=
  match w_heap w !! t with
  | Some o => match ob_task o with Some d => Some (o, d) | None => None end
  | None => None
  end.

Definition put id (o : obj) w : world := set_heap (<[id := o]> (w_heap w)) w.

Definition with_task t (g : tdata -> tdata) w : world :=
  match get_task t w with Some (o, d) => put t (set_task (g d) o) w | None => w end.

(** The handles of what a future hands to the loop. *)
Definition handle_of id (r : ready) : handle :=
  match r with RunSetCallbacks => HCallbacks id | RunHandle cb => HPython cb id end.

(** Back into the heap with [f], and onto the ready queue with what it
    scheduled. *)
Definition commit id (o : obj) (f : future) w : world :=
  set_queue (w_ready w ++ map (handle_of id) (fl_ready f))
    (put id (set_fut (set_ready [] f) o) w).

(** ** Cancelling *)

Definition maxInt_usize : N := 2 ^ 64 - 1.

(** [future_fast_cancel] on the future part of an object. *)
Definition future_fast_cancel id (o : obj) (msg : option nat) w : bool * world :=
  match future_cancel msg (ob_fut o) with
  | (_, b, f) => (b, commit id o f w)
  end.

(** The request is noted in the task. *)
Definition note_request t (msg : option nat) (o : obj) (d : tdata) w : world :=
  let f := ob_fut o in
  let f := match msg with
           | Some m => set_payload (fut_result f) (fut_exception f) (Some m) f
           | None => f
           end in
  let d := set_cancel (N.min (cancel_requests d + 1) maxInt_usize) (must_cancel d) d in
  put t (set_task d (set_fut f o)) w.

Definition arm_cancel t w : world := with_task t (fun d => set_cancel (cancel_requests d) true d) w.

(** [cancel_future_waiter]; [cancel] is [fast_task_cancel]. *)
Definition cancel_future_waiter (cancel : nat -> option nat -> world -> option (bool * world))
    id (msg : option nat) w : option (bool * world) :=
  match w_heap w !! id with
  | None => Some (false, w)
  | Some o =>
      match ob_task o with
      | Some _ => cancel id msg w
      | None => Some (future_fast_cancel id o msg w)
      end
  end.

(** [fast_task_cancel]; [None] is a chain of waiters that never ends. *)
Fixpoint fast_task_cancel (fuel : nat) t (msg : option nat) w : option (bool * world) :=
  match fuel with
  | 0 => None
  | S fuel' =>
      match get_task t w with
      | None => Some (false, w)
      | Some (o, d) =>
          if negb (bool_decide (fut_status (ob_fut o) = pending)) then Some (false, w)
          else
            let w := note_request t msg o d w in
            match fut_waiter d with
            | None => Some (true, arm_cancel t w)
            | Some x =>
                match cancel_future_waiter (fast_task_cancel fuel') x msg w with
                | None => None
                | Some (true, w) => Some (true, w)
                | Some (false, w) => Some (true, arm_cancel t w)
                end
            end
      end
  end.

Definition task_cancel t (msg : option nat) w : option (bool * world) :=
  fast_task_cancel (S (size (w_heap w))) t msg w.

Definition task_uncancel t w : world :=
  with_task t (fun d =>
    let n := (cancel_requests d - 1)%N in
    set_cancel n (if (n =? 0)%N then false else must_cancel d) d) w.

(** ** Operations *)

Definition new_object (task : option tdata) w : nat * world :=
  let id := w_next w in
  (id, World (<[id := MkObj (init true 0) false task]> (w_heap w)) (S id)
         (w_ready w) (w_reported w) (w_steps w)).

Definition error_value (e : builtin_exc) : value := VExc (new_exc e).

Definition do_op (o : op) w : option (value * world) :=
  match o with
  | ONewFuture => let '(id, w) := new_object None w in Some (VObj id, w)
  | ONewTask c =>
      let '(id, w) := new_object (Some (MkTask (None, c) None None 0 false)) w in
      Some (VObj id, push_handle (HSend id) w)
  | OCancel id msg =>
      match w_heap w !! id with
      | None => Some (VNone, w)
      | Some ob =>
          match ob_task ob with
          | Some _ => match task_cancel id msg w with
                      | Some (b, w) => Some (VBool b, w)
                      | None => None
                      end
          | None => let '(b, w) := future_fast_cancel id ob msg w in Some (VBool b, w)
          end
      end
  | OUncancel id => Some (VNone, task_uncancel id w)
  | OSetResult id v =>
      match w_heap w !! id with
      | None => Some (VNone, w)
      | Some ob =>
          match ob_task ob with
          | Some _ => Some (error_value BNotImplemented, w)
          | None =>
              match future_set_result v (ob_fut ob) with
              | (None, f) => Some (VNone, commit id ob f w)
              | (Some _, f) => Some (error_value BInvalidState, commit id ob f w)
              end
          end
      end
  | OSetException id e =>
      match w_heap w !! id with
      | None => Some (VNone, w)
      | Some ob =>
          match ob_task ob with
          | Some _ => Some (error_value BNotImplemented, w)
          | None =>
              match future_set_exception e (ob_fut ob) with
              | (None, f) => Some (VNone, commit id ob f w)
              | (Some _, f) => Some (error_value BInvalidState, commit id ob f w)
              end
          end
      end
  | OAddCallback id cb =>
      match w_heap w !! id with
      | None => Some (VNone, w)
      | Some ob =>
          let '(_, f) := future_add_done_callback cb true (ob_fut ob) in
          Some (VNone, commit id ob f w)
      end
  end.

(** ** One step of a coroutine *)

Inductive yielded : Type := YFuture (id : nat) | YNone | YBad.

Inductive co_result : Type :=
| CReturn (v : nat)
| CRaise (e : nat)
| CYield (y : yielded) (k : option nat * C).

(** [future.result()] at the end of an [await]. *)
Definition result_of (f : future) : value :=
  match future_result f with
  | Value v => VObj v
  | RaisedException e => VExc e
  | RaisedInvalidState => error_value BInvalidState
  | RaisedCancelled m => error_value (BCancelled m)
  end.

(** The coroutine up to its next suspension; [None] is a coroutine that does
    not get there within [fuel] steps. *)
Fixpoint co_run (fuel : nat) (a : co_action) w : option (co_result * world) :=
  match fuel with
  | 0 => None
  | S fuel' =>
      match a with
      | Do o k =>
          match do_op o w with
          | Some (v, w) => co_run fuel' (co_step k v) w
          | None => None
          end
      | Await id k =>
          match w_heap w !! id with
          | None => co_run fuel' (co_step k (error_value BAttributeError)) w
          | Some ob =>
              if bool_decide (fut_status (ob_fut ob) = pending)
              then Some (CYield (YFuture id) (Some id, k), put id (set_blocking true ob) w)
              else co_run fuel' (co_step k (result_of (ob_fut ob))) w
          end
      | YieldFuture id k => Some (CYield (YFuture id) (None, k), w)
      | YieldNone k => Some (CYield YNone (None, k), w)
      | YieldBad k => Some (CYield YBad (None, k), w)
      | Return v => Some (CReturn v, w)
      | RaiseExc e => Some (CRaise e, w)
      end
  end.

(** Where a suspended coroutine goes on when it is sent [None]: an [await] looks
    at its future again. *)
Definition send_action (c : option nat * C) : co_action :=
  match c with (Some id, k) => Await id k | (None, k) => co_step k VNone end.
Definition throw_action (c : option nat * C) (e : nat) : co_action := co_step c.2 (VExc e).

(** ** After the step *)

(** [create_new_py_exception_and_add_event]. *)
Definition throw_later t (message : string) w : world :=
  push_handle (HThrow t)
    (with_task t (set_exc (Some (new_exc (BRuntimeError message)))) w).

(** [future_fast_set_exception] on a task; [Some] is its exception. *)
Definition task_set_exception t (e : nat) w : world * option nat :=
  match w_heap w !! t with
  | None => (w, None)
  | Some o =>
      match future_set_exception e (ob_fut o) with
      | (None, f) => (commit t o f w, None)
      | (Some _, f) => (commit t o f w, Some (new_exc BInvalidState))
      end
  end.

Definition clear_waiter t w : world := with_task t (set_waiter None) w.

Definition set_result t (v : nat) w : world :=
  match get_task t w with
  | None => w
  | Some (o, d) =>
      let w :=
        if must_cancel d
        then (future_fast_cancel t o (fut_cancel_msg (ob_fut o)) w).2
        else commit t o (future_set_result v (ob_fut o)).2 w in
      clear_waiter t w
  end.

Definition failed_execution t (e : nat) w : world * option nat :=
  match class_of e with
  | EcCancelled =>
      match w_heap w !! t with
      | None => (w, None)
      | Some o => (clear_waiter t (future_fast_cancel t o None w).2, None)
      end
  | c =>
      match task_set_exception t e w with
      | (w, Some err) => (w, Some err)
      | (w, None) =>
          (clear_waiter t w, match c with EcFatal => Some e | _ => None end)
      end
  end.

(** [handle_talyn_future_object]; the object is a future or a task, and
    [cancel_future_object] cancels its future part. *)
Definition handle_talyn_future_object t id w : world * option nat :=
  match w_heap w !! id with
  | None => (w, Some (new_exc BAttributeError))
  | Some o =>
      if ob_blocking o then
        if bool_decide (id = t)
        then (throw_later t "Task cannot await on itself" w, None)
        else
          let w := commit id o (add_callback (ZigGeneric t) (ob_fut o)) w in
          match get_task t w with
          | None => (w, None)
          | Some (ot, d) =>
              match fut_waiter d with
              | Some _ => (w, Some (new_exc (BRuntimeError "Task is already awaiting another future")))
              | None =>
                  let w := with_task t (set_waiter (Some id)) w in
                  match w_heap w !! id with
                  | None => (w, None)
                  | Some o =>
                      let o := set_blocking false o in
                      let w := put id o w in
                      if must_cancel d
                      then ((future_fast_cancel id o (fut_cancel_msg (ob_fut ot)) w).2, None)
                      else (w, None)
                  end
              end
          end
      else (throw_later t "Yield was used instead of yield from" w, None)
  end.

Definition successfully_execution t (y : yielded) w : world * option nat :=
  match y with
  | YFuture id => handle_talyn_future_object t id w
  | YNone => (push_handle (HSend t) w, None)
  | YBad => (w, Some (new_exc BAttributeError))
  end.

Definition check_gen_ret t (r : co_result) w : world * option nat :=
  match r with
  | CReturn v => (set_result t v w, None)
  | CRaise e => failed_execution t e w
  | CYield y k => successfully_execution t y (with_task t (set_coro k) w)
  end.

(** The coroutine of [t] is entered with [v], at the action [a]. *)
Definition enter fuel t (v : value) (a : co_action) w : option (world * option nat) :=
  match co_run fuel a (note_step t v w) with
  | Some (r, w) => Some (check_gen_ret t r w)
  | None => None
  end.

Definition already_finished t w : world * option nat :=
  failed_execution t (new_exc (BRuntimeError "Task already finished")) w.

(** [_execute_task_throw]; without an exception it is called only to cancel. *)
Definition execute_throw fuel t (e : option nat) w : option (world * option nat) :=
  match get_task t w with
  | None => Some (w, None)
  | Some (o, d) =>
      let cancelled := new_exc (BCancelled (fut_cancel_msg (ob_fut o))) in
      let '(e, w) :=
        if must_cancel d then
          (match e with
           | Some x => if bool_decide (class_of x = EcCancelled) then x else cancelled
           | None => cancelled
           end, with_task t (set_cancel (cancel_requests d) false) w)
        else (default cancelled e, w) in
      if bool_decide (fut_status (ob_fut o) = pending)
      then enter fuel t (VExc e) (throw_action (coro d) e) w
      else Some (already_finished t w)
  end.

(** [_execute_task_send]. *)
Definition execute_send fuel t w : option (world * option nat) :=
  match get_task t w with
  | None => Some (w, None)
  | Some (o, d) =>
      if must_cancel d then execute_throw fuel t None w
      else if bool_decide (fut_status (ob_fut o) = pending)
      then enter fuel t VNone (send_action (coro d)) w
      else Some (already_finished t w)
  end.

(** The handler around each of them: a fatal signal passes, any other exception
    goes to the task. *)
Definition catch_into t (r : option (world * option nat)) : option (world * option nat) :=
  match r with
  | Some (w, Some e) =>
      if bool_decide (class_of e = EcFatal) then Some (w, Some e)
      else Some (task_set_exception t e w)
  | r => r
  end.

Definition execute_task_send fuel t w : option (world * option nat) :=
  catch_into t (execute_send fuel t w).

Definition execute_task_throw fuel t w : option (world * option nat) :=
  match get_task t w with
  | None => Some (w, None)
  | Some (o, d) => catch_into t (execute_throw fuel t (exception d) w)
  end.

(** [wakeup_task], called with the future [id] that is done. *)
Definition wakeup_task fuel id t w : option (world * option nat) :=
  let w := clear_waiter t w in
  match w_heap w !! id with
  | None => Some (w, None)
  | Some o =>
      catch_into t
        (match fut_exception (ob_fut o) with
         | Some e => execute_throw fuel t (Some e) w
         | None => execute_send fuel t w
         end)
  end.

(** ** Handles *)

Definition mark_entry (i : nat) (f : future) : future :=
  set_callbacks (put_items (alter mark_executed i (InlineQueue.items (fut_callbacks f))) (fut_callbacks f)) f.

Fixpoint do_ops (l : list op) w : option world :=
  match l with
  | [] => Some w
  | o :: l' => match do_op o w with Some (_, w) => do_ops l' w | None => None end
  end.

(** One callback, called with the future [id]. *)
Definition call_back fuel id (r : ran) w : option (world * option nat) :=
  match r with
  | RanPython cb =>
      match do_ops (callback_ops cb id) w with
      | Some w => Some (w, callback_exc cb id)
      | None => None
      end
  | RanZig t => wakeup_task fuel id t w
  | ReleasedZig _ => Some (w, None)
  end.

(** The loop of [run_python_future_set_callbacks] over [n] entries from the
    [i]th on, and the exceptions it collects. *)
Fixpoint run_entries fuel (n i : nat) id w : option (world * list nat) :=
  match n with
  | 0 => Some (w, [])
  | S n' =>
      match w_heap w !! id with
      | None => Some (w, [])
      | Some o =>
          match InlineQueue.items (fut_callbacks (ob_fut o)) !! i ≫= runnable with
          | None => run_entries fuel n' (S i) id w
          | Some r =>
              match call_back fuel id r (put id (set_fut (mark_entry i (ob_fut o)) o) w) with
              | None => None
              | Some (w, e) =>
                  match run_entries fuel n' (S i) id w with
                  | None => None
                  | Some (w, l) => Some (w, match e with Some x => x :: l | None => l end)
                  end
              end
          end
      end
  end.

(** The exceptions of the callbacks are raised as one group. *)
Definition run_callbacks fuel id w : option (world * option nat) :=
  match w_heap w !! id with
  | None => Some (w, None)
  | Some o =>
      match run_entries fuel (length (InlineQueue.items (fut_callbacks (ob_fut o)))) 0 id w with
      | None => None
      | Some (w, l) =>
          Some (w, match l with [] => None | _ => Some (new_exc (BGroup l)) end)
      end
  end.

Definition run_handle fuel (h : handle) w : option (world * option nat) :=
  match h with
  | HSend t => execute_task_send fuel t w
  | HThrow t => execute_task_throw fuel t w
  | HCallbacks id => run_callbacks fuel id w
  | HPython cb id => call_back fuel id (RanPython cb) w
  end.

(** The oldest handle of the queue; [true] is an exception that leaves the
    loop, any other goes to its exception handler. *)
Definition run_one fuel w : option (world * bool) :=
  match w_ready w with
  | [] => Some (w, false)
  | h :: q =>
      match run_handle fuel h (set_queue q w) with
      | None => None
      | Some (w, None) => Some (w, false)
      | Some (w, Some e) =>
          if bool_decide (class_of e = EcFatal) then Some (w, true)
          else Some (report e w, false)
      end
  end.

Definition empty_world : world := World ∅ 0 [] [] [].

(** What can happen: the loop runs its oldest handle, or code outside the
    coroutines - the program around the loop, a completion - does something. *)
Inductive tstep : world -> world -> Prop :=
| ts_run fuel w w' stop : run_one fuel w = Some (w', stop) -> tstep w w'
| ts_op o w v w' : do_op o w = Some (v, w') -> tstep w w'.

Definition reachable w : Prop := rtc tstep empty_world w.

(** ** Wake-ups

    What makes a task run again: a handle on the ready queue, or its entry among
    the callbacks of a future. *)

#[local] Instance ran_eq_dec : EqDecision ran.
Proof. solve_decision. Defined.
#[local] Instance handle_eq_dec : EqDecision handle.
Proof. solve_decision. Defined.

#[local] Instance Data_eq_dec : EqDecision Data.
Proof. solve_decision. Defined.
#[local] Instance ready_eq_dec : EqDecision ready.
Proof. solve_decision. Defined.

Definition pending_fut (f : future) : Prop := fut_status f = pending.

(** The handles of [t] on the queue. *)
Definition handles t w : nat :=
  length (filter (fun h => h = HSend t \/ h = HThrow t) (w_ready w)).

(** The runs of the callbacks of [id] on the queue. *)
Definition callback_runs id w : nat :=
  length (filter (fun h => h = HCallbacks id) (w_ready w)).

Definition zigs t (f : future) : nat := length (filter (fun r => r = RanZig t) (registered f)).

(** The entries of [t] among the callbacks of [id]. *)
Definition wakes t id w : nat :=
  match w_heap w !! id with Some o => zigs t (ob_fut o) | None => 0 end.

Definition fresh_entry (c : Callback) : Prop :=
  cb_cancelled c = false /\ cb_executed c = false /\ cb_data c <> PythonGeneric None.

(** The future at [id]; [rf] is the future whose callbacks are being run, with
    its queue. *)
Record fut_ok (rf : option (nat * InlineQueue.queue Callback)) id (f : future) w : Prop := {
  fo_live : fut_released f = false /\ fl_initialized f = true /\ fl_ready f = [];
  fo_pending : pending_fut f ->
    Forall fresh_entry (InlineQueue.items (fut_callbacks f)) /\ callback_runs id w = 0;
  fo_done : ~ pending_fut f -> (forall q, rf <> Some (id, q)) ->
    callback_runs id w = if decide (registered f = []) then 0 else 1;
  fo_running : forall q, rf = Some (id, q) ->
    ~ pending_fut f /\ callback_runs id w = 0 /\ fut_callbacks f = q }.

Record futs_ok (rf : option (nat * InlineQueue.queue Callback)) w : Prop := {
  fs_next : forall id, w_next w <= id -> w_heap w !! id = None;
  fs_fut : forall id o, w_heap w !! id = Some o -> fut_ok rf id (ob_fut o) w;
  fs_none : forall id, w_heap w !! id = None -> callback_runs id w = 0;
  fs_running : forall id q, rf = Some (id, q) -> is_Some (w_heap w !! id) }.

(** The task [t]; [rt] is the task that is running. *)
Definition task_ok (rt : option nat) t (o : obj) (d : tdata) w : Prop :=
  match fut_waiter d with
  | Some x =>
      rt <> Some t /\ handles t w = 0
      /\ wakes t x w = 1 /\ (forall y, y <> x -> wakes t y w = 0)
  | None =>
      (forall y, wakes t y w = 0)
      /\ (rt = Some t -> handles t w = 0)
      /\ (rt <> Some t -> handles t w <= 1 /\ (pending_fut (ob_fut o) -> handles t w = 1))
  end.

Record tasks_ok (rt : option nat) w : Prop := {
  ts_task : forall t o d, get_task t w = Some (o, d) -> task_ok rt t o d w;
  ts_none : forall t, get_task t w = None ->
    handles t w = 0 /\ forall y, wakes t y w = 0;
  ts_running : forall t, rt = Some t -> is_Some (get_task t w) }.

Definition inv rt rf w : Prop := futs_ok rf w /\ tasks_ok rt w.

(** *** Changes that move no wake-up *)

Record quiet w w' : Prop := {
  qt_handles : forall t, handles t w' = handles t w;
  qt_wakes : forall t y, wakes t y w' = wakes t y w;
  qt_task : forall t,
    match get_task t w, get_task t w' with
    | Some (o, d), Some (o', d') =>
        fut_waiter d' = fut_waiter d /\ (pending_fut (ob_fut o') -> pending_fut (ob_fut o))
    | None, None => True
    | _, _ => False
    end }.

Lemma tasks_ok_quiet rt w w' : quiet w w' -> tasks_ok rt w -> tasks_ok rt w'.
Proof.
  intros [Hh Hw Ht] [T N R]. split.
  - intros t o' d' E'. specialize (Ht t). rewrite E' in Ht.
    destruct (get_task t w) as [[o d]|] eqn:E; [|destruct Ht].
    destruct Ht as [Hx Hp]. specialize (T t o d E). unfold task_ok in *. rewrite Hx, Hh.
    destruct (fut_waiter d) as [x|].
    + destruct T as (H1 & H2 & H3 & H4). split; [exact H1|]. split; [exact H2|].
      split; [now rewrite Hw|]. intros y Hy. rewrite Hw. auto.
    + destruct T as (H1 & H2 & H3). split; [intros y; now rewrite Hw|].
      split; [exact H2|]. intros Hr. destruct (H3 Hr) as [H4 H5]. auto.
  - intros t E'. specialize (Ht t). rewrite E' in Ht.
    destruct (get_task t w) as [[o d]|] eqn:E; [destruct Ht|].
    destruct (N t E) as [H1 H2]. split; [now rewrite Hh|]. intros y. now rewrite Hw.
  - intros t Hr. specialize (Ht t). destruct (R t Hr) as [[o d] E]. rewrite E in Ht.
    destruct (get_task t w'); [eauto | destruct Ht].
Qed.

Lemma quiet_refl w : quiet w w.
Proof. split; auto. intros t. destruct (get_task t w) as [[o d]|]; auto. Qed.

Lemma quiet_trans w1 w2 w3 : quiet w1 w2 -> quiet w2 w3 -> quiet w1 w3.
Proof.
  intros [A1 A2 A3] [B1 B2 B3]. split.
  - intros t. now rewrite B1.
  - intros t y. now rewrite B2.
  - intros t. specialize (A3 t). specialize (B3 t).
    destruct (get_task t w1) as [[o1 d1]|], (get_task t w2) as [[o2 d2]|],
      (get_task t w3) as [[o3 d3]|]; try tauto.
    destruct A3 as [A3 A4], B3 as [B3 B4]. split; [congruence | auto].
Qed.

Lemma lookup_put id o w y :
  w_heap (put id o w) !! y = if decide (y = id) then Some o else w_heap w !! y.
Proof.
  unfold put, set_heap. cbn [w_heap]. destruct (decide (y = id)) as [->|Hne].
  - apply lookup_insert_eq.
  - now apply lookup_insert_ne.
Qed.

Lemma wakes_put t id o w y :
  wakes t y (put id o w) = if decide (y = id) then zigs t (ob_fut o) else wakes t y w.
Proof. unfold wakes. rewrite lookup_put. now destruct (decide (y = id)). Qed.

Lemma get_task_put t id o w :
  get_task t (put id o w)
  = if decide (t = id) then match ob_task o with Some d => Some (o, d) | None => None end
    else get_task t w.
Proof. unfold get_task. rewrite lookup_put. now destruct (decide (t = id)). Qed.

(** What does not move a wake-up when [o] is replaced by [o'] at [id]. *)
Record same_tokens (o o' : obj) : Prop := {
  sm_zigs : forall t, zigs t (ob_fut o') = zigs t (ob_fut o);
  sm_status : pending_fut (ob_fut o') -> pending_fut (ob_fut o);
  sm_task : match ob_task o, ob_task o' with
            | Some d, Some d' => fut_waiter d' = fut_waiter d
            | None, None => True
            | _, _ => False
            end }.

Lemma quiet_put id o o' w :
  w_heap w !! id = Some o -> same_tokens o o' -> quiet w (put id o' w).
Proof.
  intros Ho [Hz Hs Ht]. split.
  - reflexivity.
  - intros t y. rewrite wakes_put. destruct (decide (y = id)) as [->|]; [|reflexivity].
    rewrite Hz. unfold wakes. now rewrite Ho.
  - intros t. rewrite get_task_put. destruct (decide (t = id)) as [->|].
    + unfold get_task. rewrite Ho. destruct (ob_task o), (ob_task o'); tauto.
    + destruct (get_task t w) as [[]|]; auto.
Qed.

Definition not_step (h : handle) : Prop :=
  match h with HSend _ | HThrow _ => False | _ => True end.

Lemma filter_none {A} (P : A -> Prop) `{forall x, Decision (P x)} (l : list A) :
  Forall (fun x => ~ P x) l -> filter P l = [].
Proof.
  induction 1 as [|x l Hx _ IH]; [reflexivity|]. rewrite filter_cons.
  now destruct (decide (P x)).
Qed.

Lemma handles_push t l w :
  Forall not_step l -> handles t (set_queue (w_ready w ++ l) w) = handles t w.
Proof.
  intros Hl. unfold handles. cbn [set_queue w_ready]. rewrite filter_app, length_app.
  rewrite (filter_none _ l); [cbn; lia|].
  eapply Forall_impl; [exact Hl|]. intros h Hh [-> | ->]; exact Hh.
Qed.

Lemma quiet_queue l w : Forall not_step l -> quiet w (set_queue (w_ready w ++ l) w).
Proof.
  intros Hl. split.
  - intros t. now apply handles_push.
  - reflexivity.
  - intros t. change (get_task t (set_queue (w_ready w ++ l) w)) with (get_task t w).
    destruct (get_task t w) as [[]|]; auto.
Qed.

Lemma handle_of_not_step id l : Forall not_step (map (handle_of id) l).
Proof. apply Forall_map, Forall_true. now intros []. Qed.

Lemma quiet_commit id o f w :
  w_heap w !! id = Some o -> (forall t, zigs t f = zigs t (ob_fut o)) ->
  (pending_fut f -> pending_fut (ob_fut o)) -> quiet w (commit id o f w).
Proof.
  intros Ho Hz Hs. unfold commit.
  set (w' := put id (set_fut (set_ready [] f) o) w).
  assert (quiet w w') as H1.
  { apply (quiet_put _ o); [exact Ho|]. split; [exact Hz | exact Hs |].
    cbn. now destruct (ob_task o). }
  eapply quiet_trans; [exact H1|]. exact (quiet_queue _ w' (handle_of_not_step id (fl_ready f))).
Qed.

(** *** What an operation does to a future *)

Inductive evolves (f f' : future) : Prop :=
| ev_same :
    fut_status f' = fut_status f -> fut_callbacks f' = fut_callbacks f ->
    Forall (fun r => r <> RunSetCallbacks) (fl_ready f') -> evolves f f'
| ev_add c :
    pending_fut f -> pending_fut f' -> fresh_entry c ->
    InlineQueue.items (fut_callbacks f') = InlineQueue.items (fut_callbacks f) ++ [c] ->
    fl_ready f' = [] -> evolves f f'
| ev_settle :
    pending_fut f -> ~ pending_fut f' -> fut_callbacks f' = fut_callbacks f ->
    fl_ready f' = (if decide (InlineQueue.items (fut_callbacks f) = []) then [] else [RunSetCallbacks]) ->
    evolves f f'.

(** [f'] is a live future that came out of [f]. *)
Definition moves (f f' : future) : Prop :=
  evolves f f' /\ fut_released f' = false /\ fl_initialized f' = true.

Lemma callback_runs_push id y l w :
  callback_runs y (set_queue (w_ready w ++ map (handle_of id) l) w)
  = callback_runs y w + (if decide (y = id) then length (filter (fun r => r = RunSetCallbacks) l) else 0).
Proof.
  unfold callback_runs. cbn [set_queue w_ready]. rewrite filter_app, length_app. f_equal.
  induction l as [|r l IH]; [now destruct (decide (y = id))|].
  cbn [map]. rewrite !filter_cons.
  destruct r as [|cb]; cbn [handle_of].
  - destruct (decide (y = id)) as [->|Hne].
    + rewrite !decide_True by reflexivity. cbn. now rewrite IH.
    + rewrite (decide_False (P := HCallbacks id = HCallbacks y)) by congruence. exact IH.
  - rewrite (decide_False (P := HPython cb id = HCallbacks y)) by discriminate.
    destruct (decide (y = id)); [|exact IH].
    rewrite (decide_False (P := RunHandle cb = RunSetCallbacks)) by discriminate. exact IH.
Qed.

Lemma registered_nil f :
  Forall fresh_entry (InlineQueue.items (fut_callbacks f)) ->
  (registered f = [] <-> InlineQueue.items (fut_callbacks f) = []).
Proof.
  unfold registered. intros Hf. destruct Hf as [|c l (H1 & H2 & H3) _]; [tauto|].
  split; [|discriminate]. cbn [omap list_omap]. unfold runnable at 1. rewrite H1, H2. cbn [orb].
  destruct (cb_data c) as [[|]|]; [discriminate | congruence | discriminate].
Qed.

Lemma runs_of_evolves f f' :
  evolves f f' ->
  length (filter (fun r => r = RunSetCallbacks) (fl_ready f'))
  = if decide (fut_status f = pending /\ fut_status f' <> pending
               /\ InlineQueue.items (fut_callbacks f) <> []) then 1 else 0.
Proof.
  intros [Hs Hc Hr|c Hp Hp' _ _ Hr|Hp Hp' Hc Hr].
  - rewrite filter_none by exact Hr. rewrite decide_False; [reflexivity|].
    intros (H1 & H2 & _). congruence.
  - rewrite Hr. rewrite decide_False; [reflexivity|]. intros (_ & H2 & _). exact (H2 Hp').
  - rewrite Hr. destruct (decide (InlineQueue.items _ = [])) as [E|E].
    + rewrite decide_False; [reflexivity|]. intros (_ & _ & H). exact (H E).
    + rewrite decide_True by auto. cbn. now rewrite decide_True.
Qed.

Lemma commit_lookup id o f w y :
  w_heap (commit id o f w) !! y
  = if decide (y = id) then Some (set_fut (set_ready [] f) o) else w_heap w !! y.
Proof. unfold commit. cbn [set_queue w_heap]. apply lookup_put. Qed.

Lemma callback_runs_commit id o f w y :
  callback_runs y (commit id o f w)
  = callback_runs y w
    + (if decide (y = id) then length (filter (fun r => r = RunSetCallbacks) (fl_ready f)) else 0).
Proof. unfold commit. exact (callback_runs_push id y (fl_ready f) (put id _ w)). Qed.

(** A future that moves, and the runs of its callbacks it asked for. *)
Lemma fut_ok_moves rf id f f' w w' :
  fut_ok rf id f w -> moves f f' ->
  callback_runs id w' = callback_runs id w + length (filter (fun r => r = RunSetCallbacks) (fl_ready f')) ->
  fut_ok rf id (set_ready [] f') w'.
Proof.
  intros [Fl Fp Fd Fr] [He [Hrel Hini]] Hcb. rewrite (runs_of_evolves _ _ He) in Hcb.
  split; [auto| | |]; unfold pending_fut in *; cbn [set_ready fut_status fut_callbacks] in *;
    change (registered (set_ready [] f')) with (registered f').
  - intros Hp. destruct He as [Hs Hc _|c Hp0 _ Hf Hc _|Hp0 Hn _ _]; [| |contradiction].
    + rewrite Hs in Hp. destruct (Fp Hp) as [F1 F2]. rewrite Hc, Hcb, F2.
      split; [exact F1|]. rewrite decide_False; [reflexivity|]. intros (_ & H & _). congruence.
    + destruct (Fp Hp0) as [F1 F2]. rewrite Hc, Hcb, F2. split; [apply Forall_app; auto|].
      rewrite decide_False; [reflexivity|]. intros (_ & H & _). contradiction.
  - intros Hn Hq. rewrite Hcb. destruct He as [Hs Hc _|c _ Hp' _ _ _|Hp0 _ Hc _]; [|contradiction|].
    + rewrite decide_False by (intros (H & _ & _); rewrite Hs in Hn; contradiction).
      rewrite Nat.add_0_r, Fd by (try exact Hq; now rewrite <- Hs). unfold registered. now rewrite Hc.
    + destruct (Fp Hp0) as [F1 F2]. rewrite F2, Nat.add_0_l.
      assert (Hreg : registered f' = registered f) by (unfold registered; now rewrite Hc).
      rewrite Hreg. destruct (decide (registered f = [])) as [E|E].
      * apply registered_nil in E; [|exact F1]. rewrite decide_False; [reflexivity|].
        intros (_ & _ & H). contradiction.
      * rewrite decide_True; [reflexivity|]. split; [exact Hp0|]. split; [exact Hn|].
        intros E'. apply E, registered_nil; assumption.
  - intros q Hq. destruct (Fr q Hq) as (R1 & R2 & R3).
    destruct He as [Hs Hc _|c Hp0 _ _ _ _|Hp0 _ _ _]; [|contradiction|contradiction].
    rewrite Hcb, R2, decide_False by (intros (H & _ & _); contradiction). rewrite Hs, Hc. auto.
Qed.

Lemma futs_ok_commit rf id o o' f w :
  futs_ok rf w -> w_heap w !! id = Some o -> moves (ob_fut o) f ->
  futs_ok rf (commit id o' f w).
Proof.
  intros [Nx Fs No Rn] Ho Hm. split.
  - intros y Hy. rewrite commit_lookup. destruct (decide (y = id)) as [->|].
    + rewrite (Nx id Hy) in Ho. discriminate.
    + apply Nx. exact Hy.
  - intros y oy. rewrite commit_lookup. destruct (decide (y = id)) as [->|Hne].
    + intros [= <-]. apply (fut_ok_moves rf id (ob_fut o) f w); [exact (Fs id o Ho) | exact Hm |].
      rewrite callback_runs_commit. now rewrite decide_True.
    + intros Hy. destruct (Fs y oy Hy) as [Fl Fp Fd Fr].
      assert (Hcb : callback_runs y (commit id o' f w) = callback_runs y w).
      { rewrite callback_runs_commit, decide_False by exact Hne. apply Nat.add_0_r. }
      split; rewrite ?Hcb; auto.
  - intros y. rewrite commit_lookup, callback_runs_commit.
    destruct (decide (y = id)); [discriminate|]. intros Hy. rewrite No by exact Hy. reflexivity.
  - intros y q Hq. rewrite commit_lookup. destruct (decide (y = id)); [eauto|]. exact (Rn y q Hq).
Qed.

Lemma put_commit id o w : fl_ready (ob_fut o) = [] -> put id o w = commit id o (ob_fut o) w.
Proof.
  intros Hr. unfold commit. rewrite Hr. cbn [map]. rewrite app_nil_r.
  destruct o as [[s r e m q rel ini res rd ran] b d]. cbn in Hr. subst rd. reflexivity.
Qed.

Lemma futs_ok_put rf id o o' w :
  futs_ok rf w -> w_heap w !! id = Some o ->
  fut_status (ob_fut o') = fut_status (ob_fut o) ->
  fut_callbacks (ob_fut o') = fut_callbacks (ob_fut o) ->
  fut_released (ob_fut o') = false -> fl_initialized (ob_fut o') = true ->
  fl_ready (ob_fut o') = [] ->
  futs_ok rf (put id o' w).
Proof.
  intros H Ho Hs Hc Hr Hi Hd. rewrite put_commit by exact Hd.
  apply (futs_ok_commit rf id o); [exact H | exact Ho |].
  split; [|auto]. apply ev_same; auto. rewrite Hd. constructor.
Qed.

(** *** The operations of [Future] *)

Definition live (f : future) : Prop :=
  fut_released f = false /\ fl_initialized f = true /\ fl_ready f = [].

(** What an operation on a future needs: it moves and keeps its wake-ups. *)
Definition step_of (f f' : future) : Prop :=
  moves f f' /\ (forall t, zigs t f' = zigs t f) /\ (pending_fut f' -> pending_fut f).

Lemma step_of_refl f : live f -> step_of f f.
Proof.
  intros (H1 & H2 & H3). split; [|auto]. split; [|auto]. apply ev_same; auto. rewrite H3. constructor.
Qed.

Lemma call_done_callbacks_step s f r e m :
  live f -> pending_fut f -> s <> pending ->
  step_of f (call_done_callbacks s (set_payload r e m f)).2
  /\ (call_done_callbacks s (set_payload r e m f)).1 = None
  /\ ~ pending_fut (call_done_callbacks s (set_payload r e m f)).2.
Proof.
  intros (H1 & H2 & H3) Hp Hs. unfold call_done_callbacks. cbn [set_payload fut_status].
  rewrite bool_decide_eq_false_2 by (intros H; exact (H Hp)).
  cbn [set_status fut_callbacks set_payload fl_initialized]. rewrite H2. cbn [negb].
  destruct (length (InlineQueue.items (fut_callbacks f)) =? 0) eqn:E.
  - apply Nat.eqb_eq, length_zero_iff_nil in E. cbn [fst snd].
    split; [|split; [reflexivity | exact Hs]].
    split; [|split; [reflexivity | intros; exact Hp]]. split; [|auto].
    apply ev_settle; [exact Hp | exact Hs | reflexivity |]. now rewrite decide_True.
  - apply Nat.eqb_neq in E. cbn [fst snd].
    split; [|split; [reflexivity | exact Hs]].
    split; [|split; [reflexivity | intros; exact Hp]]. split; [|auto].
    apply ev_settle; [exact Hp | exact Hs | reflexivity |].
    rewrite decide_False by (intros H; rewrite H in E; exact (E eq_refl)).
    cbn. now rewrite H3.
Qed.

Lemma set_result_step v f : live f -> step_of f (future_set_result v f).2.
Proof.
  intros Hl. pose proof Hl as (H1 & H2 & H3). unfold future_set_result. rewrite H1.
  destruct (fut_status f) eqn:E; try now apply step_of_refl.
  now apply call_done_callbacks_step.
Qed.

Lemma set_exception_step e f :
  live f -> step_of f (future_set_exception e f).2
  /\ ~ pending_fut (future_set_exception e f).2.
Proof.
  intros Hl. pose proof Hl as (H1 & H2 & H3). unfold future_set_exception. rewrite H1.
  destruct (fut_status f) eqn:E.
  - destruct (call_done_callbacks_step finished f (fut_result f) (Some e) (fut_cancel_msg f) Hl E)
      as (? & _ & ?); [discriminate | auto].
  - split; [now apply step_of_refl|]. unfold pending_fut. cbn. congruence.
  - split; [now apply step_of_refl|]. unfold pending_fut. cbn. congruence.
Qed.

Lemma cancel_step msg f :
  live f -> step_of f (future_cancel msg f).2 /\ ~ pending_fut (future_cancel msg f).2.
Proof.
  intros Hl. pose proof Hl as (H1 & H2 & H3). unfold future_cancel. rewrite H1.
  destruct (fut_status f) eqn:E.
  - assert (Hpay : (match msg with
                    | Some m => set_payload (fut_result f) (fut_exception f) (Some m) f
                    | None => f end)
                   = set_payload (fut_result f) (fut_exception f)
                       (match msg with Some m => Some m | None => fut_cancel_msg f end) f)
      by (destruct msg; [reflexivity | now destruct f]).
    rewrite Hpay.
    destruct (call_done_callbacks_step canceled f (fut_result f) (fut_exception f)
      (match msg with Some m => Some m | None => fut_cancel_msg f end) Hl E) as (Ha & Hb & Hc);
      [discriminate|].
    destruct (call_done_callbacks _ _) as [[x|] f']; [discriminate | auto].
  - split; [now apply step_of_refl|]. unfold pending_fut. cbn. congruence.
  - split; [now apply step_of_refl|]. unfold pending_fut. cbn. congruence.
Qed.

Lemma queue_append c (q : InlineQueue.queue Callback) :
  exists q', InlineQueue.append callbacks_inline true q c = Some q'
    /\ InlineQueue.items q' = InlineQueue.items q ++ [c].
Proof.
  destruct (InlineQueue.append callbacks_inline true q c) as [q'|] eqn:E.
  - exists q'. split; [reflexivity|]. eapply InlineQueue.items_append. exact E.
  - exfalso. unfold InlineQueue.append in E. repeat destruct (_ <? _); discriminate.
Qed.

Lemma add_callback_step d f :
  live f -> pending_fut f -> d <> PythonGeneric None ->
  moves f (add_callback d f) /\ pending_fut (add_callback d f)
  /\ forall t, zigs t (add_callback d f) = zigs t f + (if decide (d = ZigGeneric t) then 1 else 0).
Proof.
  intros (H1 & H2 & H3) Hp Hd. unfold add_callback.
  rewrite bool_decide_eq_false_2 by (intros H; exact (H Hp)). rewrite H1. cbn [orb].
  destruct (queue_append (new_callback d) (fut_callbacks f)) as (q & -> & Hq).
  split; [|split; [exact Hp|]].
  - split; [|auto]. eapply ev_add; [exact Hp | exact Hp | | exact Hq | exact H3]. repeat split. exact Hd.
  - intros t. unfold zigs, registered. cbn [set_callbacks fut_callbacks]. rewrite Hq, omap_app.
    rewrite filter_app, length_app. f_equal.
    destruct d as [[cb|]|p]; cbn; [| congruence |].
    + rewrite decide_False by discriminate. rewrite decide_False by discriminate. reflexivity.
    + destruct (decide (p = t)) as [->|Hne].
      * now rewrite !decide_True.
      * rewrite !decide_False by congruence. reflexivity.
Qed.

Lemma add_done_callback_step cb f :
  live f -> step_of f (future_add_done_callback cb true f).2.
Proof.
  intros Hl. pose proof Hl as (H1 & H2 & H3). unfold future_add_done_callback. cbn [negb].
  destruct (fut_status f) eqn:E.
  - cbn [snd]. destruct (add_callback_step (PythonGeneric (Some cb)) f Hl E) as (Hm & Hp & Hz);
      [discriminate|].
    split; [exact Hm|]. split; [|intros; exact E].
    intros t. rewrite Hz, decide_False by discriminate. apply Nat.add_0_r.
  - rewrite H2. cbn [negb snd]. rewrite H3. split; [|auto].
    split; [|auto]. apply ev_same; [reflexivity | reflexivity |]. cbn. constructor; [discriminate | constructor].
  - rewrite H2. cbn [negb snd]. rewrite H3. split; [|auto].
    split; [|auto]. apply ev_same; [reflexivity | reflexivity |]. cbn. constructor; [discriminate | constructor].
Qed.

(** *** Operations keep the invariant *)

Section Keeps.
Variables (rt : option nat) (rf : option (nat * InlineQueue.queue Callback)).

Lemma inv_live w id o : inv rt rf w -> w_heap w !! id = Some o -> live (ob_fut o).
Proof. intros [[_ F _ _] _] Ho. exact (fo_live _ _ _ _ (F id o Ho)). Qed.

Lemma inv_quiet w w' : inv rt rf w -> futs_ok rf w' -> quiet w w' -> inv rt rf w'.
Proof. intros [_ T] F Q. split; [exact F | exact (tasks_ok_quiet _ _ _ Q T)]. Qed.

Lemma inv_commit w id o f :
  inv rt rf w -> w_heap w !! id = Some o -> step_of (ob_fut o) f -> inv rt rf (commit id o f w).
Proof.
  intros H Ho (Hm & Hz & Hs). apply (inv_quiet w); [exact H | |].
  - exact (futs_ok_commit _ _ _ _ _ _ (proj1 H) Ho Hm).
  - now apply quiet_commit.
Qed.

(** Writing fields that are not about wake-ups. *)
Lemma inv_put w id o o' :
  inv rt rf w -> w_heap w !! id = Some o ->
  fut_status (ob_fut o') = fut_status (ob_fut o) ->
  fut_callbacks (ob_fut o') = fut_callbacks (ob_fut o) ->
  live (ob_fut o') ->
  match ob_task o, ob_task o' with
  | Some d, Some d' => fut_waiter d' = fut_waiter d
  | None, None => True
  | _, _ => False
  end -> inv rt rf (put id o' w).
Proof.
  intros H Ho Hs Hc (Hl1 & Hl2 & Hl3) Ht. apply (inv_quiet w); [exact H | |].
  - exact (futs_ok_put _ _ _ _ _ (proj1 H) Ho Hs Hc Hl1 Hl2 Hl3).
  - apply (quiet_put _ o); [exact Ho|]. split; [|unfold pending_fut; congruence | exact Ht].
    intros t. unfold zigs, registered. now rewrite Hc.
Qed.

Lemma get_task_lookup t w o d :
  get_task t w = Some (o, d) -> w_heap w !! t = Some o /\ ob_task o = Some d.
Proof.
  unfold get_task. destruct (w_heap w !! t) as [o'|]; [|discriminate].
  destruct (ob_task o') as [d'|] eqn:E; [|discriminate]. intros [= <- <-]. auto.
Qed.

Lemma inv_with_task w t g :
  inv rt rf w -> (forall d, fut_waiter (g d) = fut_waiter d) -> inv rt rf (with_task t g w).
Proof.
  intros H Hg. unfold with_task. destruct (get_task t w) as [[o d]|] eqn:E; [|exact H].
  apply get_task_lookup in E as [Ho Hd]. apply (inv_put w t o); auto.
  - exact (inv_live _ _ _ H Ho).
  - rewrite Hd. cbn. apply Hg.
Qed.

Lemma inv_fast_cancel w id o msg :
  inv rt rf w -> w_heap w !! id = Some o -> inv rt rf (future_fast_cancel id o msg w).2.
Proof.
  intros H Ho. unfold future_fast_cancel.
  pose proof (proj1 (cancel_step msg (ob_fut o) (inv_live _ _ _ H Ho))) as Hs.
  destruct (future_cancel msg (ob_fut o)) as [[err b] f]. now apply inv_commit.
Qed.

Lemma inv_note_request t msg o d w :
  get_task t w = Some (o, d) -> inv rt rf w -> inv rt rf (note_request t msg o d w).
Proof.
  intros E H. apply get_task_lookup in E as [Ho Hd]. pose proof (inv_live _ _ _ H Ho) as Hl.
  unfold note_request. apply (inv_put w t o); auto; [now destruct msg | now destruct msg | | now rewrite Hd].
  cbn. destruct msg; exact Hl.
Qed.

Lemma inv_fast_task_cancel fuel : forall t msg w b w',
  inv rt rf w -> fast_task_cancel fuel t msg w = Some (b, w') -> inv rt rf w'.
Proof.
  induction fuel as [|fuel IH]; intros t msg w b w' H; cbn [fast_task_cancel]; [discriminate|].
  destruct (get_task t w) as [[o d]|] eqn:E; [|now intros [= _ <-]].
  destruct (negb _); [now intros [= _ <-]|]. cbn zeta.
  pose proof (inv_note_request t msg o d w E H) as H1. clear H.
  revert H1. generalize (note_request t msg o d w) as w1. intros w1 H1.
  destruct (fut_waiter d) as [x|]; [|intros [= _ <-]; now apply inv_with_task].
  assert (Hx : forall b2 w2, cancel_future_waiter (fast_task_cancel fuel) x msg w1 = Some (b2, w2) -> inv rt rf w2).
  { intros b2 w2. unfold cancel_future_waiter.
    destruct (w_heap w1 !! x) as [ox|] eqn:Ex; [|now intros [= _ <-]].
    destruct (ob_task ox); [now apply IH|].
    pose proof (inv_fast_cancel w1 x ox msg H1 Ex) as H2. intros [= Hf]. now rewrite Hf in H2. }
  destruct (cancel_future_waiter _ x msg w1) as [[[|] w2]|]; [| |discriminate]; intros [= _ <-].
  - exact (Hx _ _ eq_refl).
  - apply inv_with_task; [exact (Hx _ _ eq_refl) | reflexivity].
Qed.

Lemma futs_ok_new w task :
  futs_ok rf w -> futs_ok rf (new_object task w).2.
Proof.
  intros [Nx Fs No Rn]. unfold new_object. cbn [snd].
  assert (Hnone : w_heap w !! w_next w = None) by (apply Nx; reflexivity).
  split; cbn [w_heap w_next w_ready].
  - intros y Hy. rewrite lookup_insert_ne by lia. apply Nx. lia.
  - intros y o. destruct (decide (y = w_next w)) as [->|Hne].
    + rewrite lookup_insert_eq. intros [= <-]. cbn [ob_fut].
      split; [repeat split| | |].
      * intros _. split; [constructor | exact (No _ Hnone)].
      * intros Hn. destruct Hn. reflexivity.
      * intros q Hq. destruct (Rn _ _ Hq) as [o Ho]. congruence.
    + rewrite lookup_insert_ne by congruence. intros Ho. destruct (Fs y o Ho) as [A B D E].
      split; assumption.
  - intros y. destruct (decide (y = w_next w)) as [->|Hne]; [now rewrite lookup_insert_eq|].
    rewrite lookup_insert_ne by congruence. exact (No y).
  - intros y q Hq. destruct (Rn y q Hq) as [o Ho]. exists o.
    rewrite lookup_insert_ne; [exact Ho|]. intros <-. congruence.
Qed.

Lemma new_wakes w task t y : futs_ok rf w -> wakes t y (new_object task w).2 = wakes t y w.
Proof.
  intros [Nx _ _ _]. unfold wakes, new_object. cbn [snd w_heap].
  destruct (decide (y = w_next w)) as [->|Hne].
  - now rewrite lookup_insert_eq, (Nx (w_next w)).
  - now rewrite lookup_insert_ne by congruence.
Qed.

Lemma new_get_task w task t :
  get_task t (new_object task w).2
  = if decide (t = w_next w)
    then match task with Some d => Some (MkObj (init true 0) false task, d) | None => None end
    else get_task t w.
Proof.
  unfold get_task, new_object. cbn [snd w_heap]. destruct (decide (t = w_next w)) as [->|Hne].
  - rewrite lookup_insert_eq. cbn. now destruct task.
  - now rewrite lookup_insert_ne by congruence.
Qed.

Lemma fresh_task w : futs_ok rf w -> get_task (w_next w) w = None.
Proof. intros [Nx _ _ _]. unfold get_task. now rewrite (Nx (w_next w)). Qed.

Lemma inv_new_future w : inv rt rf w -> inv rt rf (new_object None w).2.
Proof.
  intros H. apply (inv_quiet w); [exact H | apply futs_ok_new, H |]. split.
  - reflexivity.
  - intros t y. apply new_wakes, H.
  - intros t. rewrite new_get_task. destruct (decide (t = w_next w)) as [->|].
    + rewrite fresh_task; [exact I | apply H].
    + destruct (get_task t w) as [[]|]; auto.
Qed.

Lemma push_step_runs h y w : ~ not_step h -> callback_runs y (push_handle h w) = callback_runs y w.
Proof.
  intros Hh. unfold callback_runs. cbn [push_handle w_ready]. rewrite filter_app, length_app.
  rewrite (filter_none _ [h]); [apply Nat.add_0_r|]. constructor; [|constructor].
  intros ->. apply Hh. exact I.
Qed.

Lemma futs_ok_push h w : ~ not_step h -> futs_ok rf w -> futs_ok rf (push_handle h w).
Proof.
  intros Hh [Nx Fs No Rn]. split; [exact Nx| | |exact Rn].
  - intros id o Ho. destruct (Fs id o Ho) as [A B D E].
    split; rewrite ?(push_step_runs _ _ _ Hh); assumption.
  - intros id Hi. rewrite (push_step_runs _ _ _ Hh). exact (No id Hi).
Qed.

Definition steps_of (h : handle) : option nat :=
  match h with HSend t | HThrow t => Some t | _ => None end.

Lemma handles_push_handle t h w :
  handles t (push_handle h w) = handles t w + (if decide (steps_of h = Some t) then 1 else 0).
Proof.
  unfold handles. cbn [push_handle w_ready]. rewrite filter_app, length_app. f_equal.
  rewrite filter_cons, filter_nil. destruct h as [u|u|u|cb u]; cbn [steps_of].
  3, 4: rewrite !decide_False; [reflexivity | discriminate | intros [|]; discriminate].
  all: destruct (decide (u = t)) as [->|Hne].
  1, 3: rewrite !decide_True by auto; reflexivity.
  all: rewrite !decide_False; [reflexivity | congruence | intros [|]; congruence].
Qed.

Lemma inv_new_task w c :
  inv rt rf w ->
  inv rt rf (push_handle (HSend (w_next w))
               (new_object (Some (MkTask (None, c) None None 0 false)) w).2).
Proof.
  intros [F [T N R]]. split; [apply futs_ok_push; [intros []|]; now apply futs_ok_new|].
  destruct (N _ (fresh_task w F)) as [Hh0 Hw0].
  assert (Hh : forall t, handles t (push_handle (HSend (w_next w))
      (new_object (Some (MkTask (None, c) None None 0 false)) w).2)
    = handles t w + if decide (w_next w = t) then 1 else 0).
  { intros t. rewrite handles_push_handle. cbn [steps_of].
    change (handles t (new_object _ w).2) with (handles t w). f_equal.
    destruct (decide (w_next w = t)) as [->|]; [now rewrite decide_True|].
    now rewrite decide_False by congruence. }
  set (w' := push_handle _ _) in *.
  assert (Hw : forall t y, wakes t y w' = wakes t y w) by (intros; now apply new_wakes).
  assert (Hg : forall t, get_task t w' = if decide (t = w_next w)
      then Some (MkObj (init true 0) false (Some (MkTask (None, c) None None 0 false)),
                 MkTask (None, c) None None 0 false) else get_task t w)
    by (intros; apply new_get_task).
  clearbody w'. split.
  - intros t o d. rewrite Hg. destruct (decide (t = w_next w)) as [->|Hne].
    + intros [= <- <-]. unfold task_ok. cbn [fut_waiter].
      rewrite Hh, decide_True by reflexivity. rewrite Hh0.
      split; [intros y; rewrite Hw; apply Hw0|]. split; [|intros _; split; [lia|reflexivity]].
      intros Hr. destruct (R _ Hr) as [p Hp]. rewrite fresh_task in Hp by exact F. discriminate.
    + intros E. specialize (T t o d E). unfold task_ok in *.
      rewrite Hh, decide_False, Nat.add_0_r by congruence.
      destruct (fut_waiter d).
      * destruct T as (A & B & D & G). split; [exact A|]. split; [exact B|].
        split; [now rewrite Hw|]. intros y Hy. rewrite Hw. auto.
      * destruct T as (A & B & D). split; [intros y; now rewrite Hw|]. auto.
  - intros t. rewrite Hg. destruct (decide (t = w_next w)) as [->|Hne]; [discriminate|].
    intros E. destruct (N t E) as [A B]. rewrite Hh, decide_False, Nat.add_0_r by congruence.
    split; [exact A|]. intros y. rewrite Hw. auto.
  - intros t Hr. rewrite Hg. destruct (decide (t = w_next w)); [eauto|]. exact (R t Hr).
Qed.

Lemma inv_do_op w o v w' : inv rt rf w -> do_op o w = Some (v, w') -> inv rt rf w'.
Proof.
  intros H. destruct o as [|c|id msg|id|id x|id e|id cb]; unfold do_op.
  - intros [= _ <-]. now apply inv_new_future.
  - intros [= _ <-]. now apply inv_new_task.
  - destruct (w_heap w !! id) as [ob|] eqn:E; [|now intros [= _ <-]].
    destruct (ob_task ob).
    + unfold task_cancel. destruct (fast_task_cancel _ id msg w) as [[b w2]|] eqn:Ec; [|discriminate].
      intros [= _ <-]. exact (inv_fast_task_cancel _ _ _ _ _ _ H Ec).
    + pose proof (inv_fast_cancel w id ob msg H E) as H2.
      destruct (future_fast_cancel id ob msg w) as [b w2]. now intros [= _ <-].
  - intros [= _ <-]. apply inv_with_task; [exact H | reflexivity].
  - destruct (w_heap w !! id) as [ob|] eqn:E; [|now intros [= _ <-]].
    destruct (ob_task ob); [now intros [= _ <-]|].
    pose proof (set_result_step x (ob_fut ob) (inv_live _ _ _ H E)) as Hs.
    destruct (future_set_result x (ob_fut ob)) as [[err|] f]; intros [= _ <-]; now apply inv_commit.
  - destruct (w_heap w !! id) as [ob|] eqn:E; [|now intros [= _ <-]].
    destruct (ob_task ob); [now intros [= _ <-]|].
    pose proof (proj1 (set_exception_step e (ob_fut ob) (inv_live _ _ _ H E))) as Hs.
    destruct (future_set_exception e (ob_fut ob)) as [[err|] f]; intros [= _ <-]; now apply inv_commit.
  - destruct (w_heap w !! id) as [ob|] eqn:E; [|now intros [= _ <-]].
    pose proof (add_done_callback_step cb (ob_fut ob) (inv_live _ _ _ H E)) as Hs.
    destruct (future_add_done_callback cb true (ob_fut ob)) as [err f]. intros [= _ <-].
    now apply inv_commit.
Qed.

Lemma inv_do_ops l : forall w w', inv rt rf w -> do_ops l w = Some w' -> inv rt rf w'.
Proof.
  induction l as [|o l IH]; intros w w' H; cbn [do_ops]; [now intros [= <-]|].
  destruct (do_op o w) as [[v w2]|] eqn:E; [|discriminate]. apply IH. eapply inv_do_op; eassumption.
Qed.
End Keeps.

(** *** Fields of a task *)

Lemma lookup_with_task t g w y :
  w_heap (with_task t g w) !! y
  = match get_task t w with
    | Some (o, d) => if decide (y = t) then Some (set_task (g d) o) else w_heap w !! y
    | None => w_heap w !! y
    end.
Proof. unfold with_task. destruct (get_task t w) as [[o d]|]; [apply lookup_put | reflexivity]. Qed.

Lemma get_task_with t g w u :
  get_task u (with_task t g w)
  = match get_task t w with
    | Some (o, d) => if decide (u = t) then Some (set_task (g d) o, g d) else get_task u w
    | None => get_task u w
    end.
Proof. unfold with_task. destruct (get_task t w) as [[o d]|]; [apply get_task_put | reflexivity]. Qed.

Lemma handles_with t g w u : handles u (with_task t g w) = handles u w.
Proof. unfold with_task. now destruct (get_task t w) as [[o d]|]. Qed.

Lemma wakes_with t g w u y : wakes u y (with_task t g w) = wakes u y w.
Proof.
  unfold wakes. rewrite lookup_with_task. destruct (get_task t w) as [[o d]|] eqn:E; [|reflexivity].
  destruct (decide (y = t)) as [->|]; [|reflexivity].
  apply get_task_lookup in E as [-> _]. reflexivity.
Qed.

Lemma futs_ok_with rf t g w : futs_ok rf w -> futs_ok rf (with_task t g w).
Proof.
  intros F. unfold with_task. destruct (get_task t w) as [[o d]|] eqn:E; [|exact F].
  apply get_task_lookup in E as [Ho _].
  destruct (fo_live _ _ _ _ (fs_fut _ _ F t o Ho)) as (L1 & L2 & L3).
  now apply (futs_ok_put rf t o).
Qed.

(** The tasks and what they wait for stay; none is pending again. *)
Definition same_tasks w w' : Prop :=
  forall u, match get_task u w, get_task u w' with
            | Some (o, d), Some (o', d') => d' = d /\ (pending_fut (ob_fut o') -> pending_fut (ob_fut o))
            | None, None => True
            | _, _ => False
            end.

(** *** Running a coroutine *)

Section Running.
(** Coroutines await their futures; the exceptions of the native code have
    their classes. *)
Hypothesis awaits_only : forall c v id k, co_step c v <> YieldFuture id k.
Hypothesis class_builtin : forall b,
  class_of (new_exc b) = match b with BCancelled _ => EcCancelled | _ => EcOther end.

Variable rf : option (nat * InlineQueue.queue Callback).

Definition no_bare (a : co_action) : Prop := forall id k, a <> YieldFuture id k.

Lemma inv_co_run rt fuel : forall a w r w',
  no_bare a -> inv rt rf w -> co_run fuel a w = Some (r, w') ->
  inv rt rf w'
  /\ forall id k, r = CYield (YFuture id) k ->
       exists o, w_heap w' !! id = Some o /\ pending_fut (ob_fut o).
Proof.
  induction fuel as [|fuel IH]; intros a w r w' Ha H; cbn [co_run]; [discriminate|].
  assert (Hco : forall k v, no_bare (co_step k v)) by (intros k v id k'; apply awaits_only).
  destruct a as [o k|id k|id k|k|k|v|e]; try (intros [= <- <-]; split; [exact H | discriminate]).
  - destruct (do_op o w) as [[v w2]|] eqn:E; [|discriminate].
    apply IH; [apply Hco | eapply inv_do_op; eassumption].
  - destruct (w_heap w !! id) as [ob|] eqn:E; [|apply IH; [apply Hco | exact H]].
    destruct (bool_decide _) eqn:Ep; [|apply IH; [apply Hco | exact H]].
    apply bool_decide_eq_true in Ep. intros [= <- <-]. split.
    + apply (inv_put rt rf w id ob); auto; [exact (inv_live _ _ _ _ _ H E)|].
      cbn. now destruct (ob_task ob).
    + intros id' k' [= <- _]. exists (set_blocking true ob). split; [|exact Ep].
      rewrite lookup_put. now rewrite decide_True.
  - destruct (Ha id k eq_refl).
Qed.

(** The running task stops: it is done, or it has a handle, or it waits. *)
Lemma inv_release t w :
  inv (Some t) rf w ->
  (forall o d, get_task t w = Some (o, d) -> ~ pending_fut (ob_fut o)) -> inv None rf w.
Proof.
  intros [F [T N R]] Hd. split; [exact F|]. split; [|exact N | discriminate].
  intros u o d E. specialize (T u o d E). unfold task_ok in *. destruct (fut_waiter d).
  - destruct T as (_ & A). split; [discriminate | exact A].
  - destruct T as (A & B & D). split; [exact A|]. split; [discriminate|]. intros _.
    destruct (decide (u = t)) as [->|Hne]; [|apply D; congruence].
    rewrite (B eq_refl). split; [lia|]. intros Hp. destruct (Hd o d E Hp).
Qed.

Lemma running_free t w :
  inv (Some t) rf w -> exists o d, get_task t w = Some (o, d) /\ fut_waiter d = None
    /\ handles t w = 0 /\ forall y, wakes t y w = 0.
Proof.
  intros [_ [T _ R]]. destruct (R t eq_refl) as [[o d] E]. exists o, d. split; [exact E|].
  specialize (T t o d E). unfold task_ok in T. destruct (fut_waiter d).
  - destruct T as (A & _). now destruct A.
  - destruct T as (A & B & _). auto.
Qed.

Lemma inv_push_own t h w : inv (Some t) rf w -> steps_of h = Some t -> inv None rf (push_handle h w).
Proof.
  intros H Hs. pose proof H as [F [T N R]].
  assert (Hn : ~ not_step h) by (destruct h; [auto|auto|discriminate|discriminate]).
  destruct (running_free t w H) as (ot & dt & Et & Hwt & Hht & _).
  split; [now apply futs_ok_push|].
  split; [| |discriminate].
  - intros u o d E. specialize (T u o d E). unfold task_ok in *.
    rewrite handles_push_handle, Hs.
    destruct (decide (u = t)) as [->|Hne].
    + change (get_task t (push_handle h w)) with (get_task t w) in E.
      rewrite Et in E. injection E as <- <-. rewrite Hwt in *.
      rewrite decide_True by reflexivity. rewrite Hht.
      destruct T as (A & _). split; [exact A|]. split; [discriminate|]. intros _. split; [lia | reflexivity].
    + rewrite decide_False by congruence. rewrite Nat.add_0_r.
      destruct (fut_waiter d).
      * destruct T as (_ & A). split; [discriminate | exact A].
      * destruct T as (A & _ & D). split; [exact A|]. split; [discriminate|]. intros _. apply D. congruence.
  - intros u E. change (get_task u (push_handle h w)) with (get_task u w) in E.
    destruct (N u E) as [A B]. rewrite handles_push_handle, Hs, decide_False, Nat.add_0_r by congruence.
    auto.
Qed.

Lemma inv_throw_later t m w : inv (Some t) rf w -> inv None rf (throw_later t m w).
Proof. intros H. apply (inv_push_own t); [|reflexivity]. apply inv_with_task; auto. Qed.

(** The running task [t] gets an entry at [id] and waits for it. *)
Lemma tasks_ok_wait t id w w1 :
  tasks_ok (Some t) w -> (forall u, handles u w1 = handles u w) ->
  (forall u y, wakes u y w1 = wakes u y w + if decide (u = t /\ y = id) then 1 else 0) ->
  same_tasks w w1 -> tasks_ok None (with_task t (set_waiter (Some id)) w1).
Proof.
  intros [T N R] Hh Hw Hg.
  destruct (R t eq_refl) as [[o d] E]. pose proof (T t o d E) as Ht. unfold task_ok in Ht.
  destruct (fut_waiter d); [destruct Ht as (A & _); now destruct A|]. destruct Ht as (Hwk & Hht & _).
  pose proof (Hg t) as Hgt. rewrite E in Hgt.
  destruct (get_task t w1) as [[o1 d1]|] eqn:E1; [|destruct Hgt]. split; [| |discriminate].
  - intros u a b. rewrite get_task_with, E1. unfold task_ok. rewrite handles_with, Hh.
    destruct (decide (u = t)) as [->|Hu].
    + intros [= <- <-]. cbn [set_waiter fut_waiter]. split; [discriminate|]. split; [auto|].
      rewrite wakes_with, Hw, decide_True, Hwk by auto. split; [reflexivity|].
      intros y Hy. rewrite wakes_with, Hw, decide_False, Hwk by tauto. reflexivity.
    + intros Eu. specialize (Hg u). rewrite Eu in Hg.
      destruct (get_task u w) as [[a0 b0]|] eqn:E0; [|destruct Hg]. destruct Hg as [-> Hpp].
      specialize (T u a0 b0 E0). unfold task_ok in T.
      assert (Hwu : forall y, wakes u y (with_task t (set_waiter (Some id)) w1) = wakes u y w).
      { intros y. rewrite wakes_with, Hw, decide_False by tauto. apply Nat.add_0_r. }
      destruct (fut_waiter b0).
      * destruct T as (_ & A & B & D). split; [discriminate|]. split; [exact A|].
        split; [now rewrite Hwu|]. intros y Hy. rewrite Hwu. auto.
      * destruct T as (A & _ & D). split; [intros y; now rewrite Hwu|]. split; [discriminate|].
        intros _. destruct (D ltac:(congruence)). auto.
  - intros u. rewrite get_task_with, E1. destruct (decide (u = t)) as [->|Hu]; [discriminate|].
    intros Eu. specialize (Hg u). rewrite Eu in Hg. destruct (get_task u w) as [[]|] eqn:E0; [destruct Hg|].
    destruct (N u E0) as [A B]. rewrite handles_with, Hh. split; [exact A|].
    intros y. rewrite wakes_with, Hw, decide_False, Nat.add_0_r by tauto. auto.
Qed.

Lemma inv_wait t id o w :
  inv (Some t) rf w -> w_heap w !! id = Some o -> pending_fut (ob_fut o) ->
  inv None rf (with_task t (set_waiter (Some id)) (commit id o (add_callback (ZigGeneric t) (ob_fut o)) w)).
Proof.
  intros H Ho Hp. pose proof H as [F T].
  destruct (add_callback_step (ZigGeneric t) (ob_fut o) (inv_live _ _ _ _ _ H Ho) Hp)
    as (Hm & Hp' & Hz); [discriminate|].
  set (f := add_callback (ZigGeneric t) (ob_fut o)) in *.
  split; [now apply futs_ok_with, (futs_ok_commit rf id o o f)|].
  apply (tasks_ok_wait t id w); [exact T | | |].
  - intros u. exact (handles_push u _ (put id _ w) (handle_of_not_step id (fl_ready f))).
  - intros u y. unfold wakes. rewrite commit_lookup. destruct (decide (y = id)) as [->|Hy].
    + rewrite Ho. cbn [set_fut ob_fut]. change (zigs u (set_ready [] f)) with (zigs u f). rewrite Hz.
      f_equal. destruct (decide (u = t)) as [->|Hu].
      * now rewrite !decide_True.
      * rewrite !decide_False; [reflexivity | tauto | congruence].
    + rewrite decide_False by tauto. symmetry. apply Nat.add_0_r.
  - intros u. unfold get_task. rewrite commit_lookup. destruct (decide (u = id)) as [->|Hu].
    + rewrite Ho. cbn [set_fut ob_task]. destruct (ob_task o); auto.
    + destruct (w_heap w !! u) as [a|]; [|exact I]. destruct (ob_task a); auto.
Qed.

(** *** After the step *)

Definition task_done t w : Prop :=
  forall o d, get_task t w = Some (o, d) -> ~ pending_fut (ob_fut o).

Lemma task_done_with t g u w : task_done t w -> task_done t (with_task u g w).
Proof.
  intros H o d. unfold with_task. destruct (get_task u w) as [[ou du]|] eqn:E; [|apply H].
  rewrite get_task_put. destruct (decide (t = u)) as [->|]; [|apply H].
  cbn [set_task ob_task]. intros [= <- <-]. exact (H ou du E).
Qed.

Lemma task_done_commit t o f w : ~ pending_fut f -> task_done t (commit t o f w).
Proof.
  intros Hf a b E. apply get_task_lookup in E as [E _]. rewrite commit_lookup, decide_True in E by reflexivity.
  injection E as <-. exact Hf.
Qed.

Lemma inv_clear t w : inv (Some t) rf w -> inv (Some t) rf (clear_waiter t w).
Proof.
  intros H. destruct (running_free t w H) as (o & d & E & Hw & _).
  unfold clear_waiter, with_task. rewrite E.
  apply get_task_lookup in E as [Ho Hd]. apply (inv_put _ _ w t o); auto.
  - exact (inv_live _ _ _ _ _ H Ho).
  - rewrite Hd. cbn. congruence.
Qed.

Lemma running_lookup t w :
  inv (Some t) rf w -> exists o d, get_task t w = Some (o, d) /\ w_heap w !! t = Some o /\ live (ob_fut o).
Proof.
  intros H. destruct (running_free t w H) as (o & d & E & _). exists o, d.
  pose proof (get_task_lookup _ _ _ _ E) as [Ho _]. split; [exact E|]. split; [exact Ho|].
  exact (inv_live _ _ _ _ _ H Ho).
Qed.

Lemma task_set_exception_ok t e w :
  inv (Some t) rf w ->
  let r := task_set_exception t e w in
  inv (Some t) rf r.1 /\ task_done t r.1 /\ (forall x, r.2 = Some x -> class_of x = EcOther).
Proof.
  intros H. destruct (running_lookup t w H) as (o & d & _ & Ho & Hl).
  unfold task_set_exception. rewrite Ho.
  destruct (set_exception_step e (ob_fut o) Hl) as [Hs Hn].
  destruct (future_set_exception e (ob_fut o)) as [[err|] f]; cbn [fst snd] in *;
    (split; [now apply inv_commit|]; split; [now apply task_done_commit|]).
  - intros x [= <-]. apply class_builtin.
  - discriminate.
Qed.

Lemma fast_cancel_done t o msg w :
  live (ob_fut o) -> task_done t (future_fast_cancel t o msg w).2.
Proof.
  intros Hl. unfold future_fast_cancel. pose proof (proj2 (cancel_step msg (ob_fut o) Hl)) as Hn.
  destruct (future_cancel msg (ob_fut o)) as [[err b] f]. now apply task_done_commit.
Qed.

Lemma inv_finish t w : inv (Some t) rf w -> task_done t w -> inv None rf (clear_waiter t w).
Proof.
  intros H Hd. apply (inv_release t); [now apply inv_clear|]. now apply task_done_with.
Qed.

Lemma set_result_not_pending v f : live f -> ~ pending_fut (future_set_result v f).2.
Proof.
  intros Hl. pose proof Hl as (H1 & H2 & H3). unfold future_set_result. rewrite H1.
  destruct (fut_status f) eqn:E; try (unfold pending_fut; cbn; congruence).
  now apply call_done_callbacks_step.
Qed.

Lemma inv_set_result t v w : inv (Some t) rf w -> inv None rf (set_result t v w).
Proof.
  intros H. destruct (running_lookup t w H) as (o & d & E & Ho & Hl).
  unfold set_result. rewrite E. apply inv_finish; destruct (must_cancel d).
  - now apply inv_fast_cancel.
  - apply inv_commit; [exact H | exact Ho | now apply set_result_step].
  - now apply fast_cancel_done.
  - apply task_done_commit. now apply set_result_not_pending.
Qed.

(** What a step of [t] leaves: the task has stopped, or an exception is on its
    way, which is fatal only when the task is done. *)
Definition after t (r : world * option nat) : Prop :=
  match r.2 with
  | None => inv None rf r.1
  | Some e => inv (Some t) rf r.1 /\ (class_of e = EcFatal -> task_done t r.1)
  end.

Lemma after_other t w e : inv (Some t) rf w -> class_of e = EcOther -> after t (w, Some e).
Proof. intros H He. split; [exact H|]. cbn. congruence. Qed.

Lemma failed_execution_ok t e w : inv (Some t) rf w -> after t (failed_execution t e w).
Proof.
  intros H. destruct (running_lookup t w H) as (o & d & E & Ho & Hl).
  pose proof (task_set_exception_ok t e w H) as Hs. unfold failed_execution.
  assert (Hexc : forall c,
    after t (match task_set_exception t e w with
             | (w, Some err) => (w, Some err)
             | (w, None) => (clear_waiter t w, match c with EcFatal => Some e | _ => None end)
             end)).
  { intros c. destruct (task_set_exception t e w) as [w1 [err|]]; destruct Hs as (H1 & H2 & H3).
    - apply after_other; [exact H1 | now apply H3].
    - unfold after. cbn [fst snd] in *. destruct c; [now apply inv_finish| |now apply inv_finish].
      split; [now apply inv_clear|]. intros _. now apply task_done_with. }
  destruct (class_of e) eqn:Ec; [|exact (Hexc EcFatal)|exact (Hexc EcOther)].
  rewrite Ho. unfold after. cbn [fst snd].
  apply inv_finish; [now apply inv_fast_cancel | now apply fast_cancel_done].
Qed.

Lemma handle_future_ok t id o w :
  inv (Some t) rf w -> w_heap w !! id = Some o -> pending_fut (ob_fut o) ->
  after t (handle_talyn_future_object t id w).
Proof.
  intros H Ho Hp. unfold handle_talyn_future_object. rewrite Ho.
  destruct (ob_blocking o); [|now apply inv_throw_later].
  destruct (bool_decide (id = t)) eqn:Eid; [now apply inv_throw_later|].
  apply bool_decide_eq_false in Eid.
  pose proof (inv_wait t id o w H Ho Hp) as Hw.
  destruct (running_free t w H) as (ot & dt & Et & Hwt & _).
  set (w1 := commit id o (add_callback (ZigGeneric t) (ob_fut o)) w) in *.
  assert (Et1 : get_task t w1 = Some (ot, dt)).
  { unfold get_task, w1. rewrite commit_lookup, decide_False by congruence. exact Et. }
  rewrite Et1, Hwt.
  set (w2 := with_task t (set_waiter (Some id)) w1) in *.
  assert (Ho2 : exists o2, w_heap w2 !! id = Some o2).
  { unfold w2, with_task. rewrite Et1, lookup_put, decide_False by exact Eid.
    unfold w1. rewrite commit_lookup, decide_True by reflexivity. eauto. }
  destruct Ho2 as [o2 Ho2]. rewrite Ho2.
  assert (H3 : inv None rf (put id (set_blocking false o2) w2)).
  { apply (inv_put _ _ w2 id o2); auto; [exact (inv_live _ _ _ _ _ Hw Ho2)|]. cbn. now destruct (ob_task o2). }
  destruct (must_cancel dt); [|exact H3].
  unfold after. cbn [fst snd]. apply inv_fast_cancel; [exact H3|]. rewrite lookup_put. now rewrite decide_True.
Qed.

Lemma check_gen_ret_ok t r w :
  inv (Some t) rf w ->
  (forall id k, r = CYield (YFuture id) k -> exists o, w_heap w !! id = Some o /\ pending_fut (ob_fut o)) ->
  after t (check_gen_ret t r w).
Proof.
  intros H Hy. destruct r as [v|e|y k]; cbn [check_gen_ret].
  - now apply inv_set_result.
  - now apply failed_execution_ok.
  - pose proof (inv_with_task _ _ w t (set_coro k) H (fun d => eq_refl)) as H1.
    destruct y as [id| |]; cbn [successfully_execution].
    + destruct (Hy id k eq_refl) as (o & Ho & Hp).
      assert (Ho' : exists o', w_heap (with_task t (set_coro k) w) !! id = Some o' /\ pending_fut (ob_fut o')).
      { unfold with_task. destruct (get_task t w) as [[ot dt]|] eqn:E; [|eauto].
        rewrite lookup_put. destruct (decide (id = t)) as [->|]; [|eauto].
        apply get_task_lookup in E as [E _]. eexists. split; [reflexivity|]. cbn. congruence. }
      destruct Ho' as (o' & Ho' & Hp'). now apply (handle_future_ok t id o').
    + now apply (inv_push_own t).
    + apply after_other; [exact H1 | apply class_builtin].
Qed.

Lemma inv_note t v w : inv (Some t) rf w -> inv (Some t) rf (note_step t v w).
Proof.
  intros [[A B D E] [T N R]]. split; split; auto. intros id o Ho. destruct (B id o Ho). now split.
Qed.

Lemma enter_ok fuel t v a w r :
  no_bare a -> inv (Some t) rf w -> enter fuel t v a w = Some r -> after t r.
Proof.
  intros Ha H. unfold enter.
  destruct (co_run fuel a (note_step t v w)) as [[c w1]|] eqn:E; [|discriminate].
  intros [= <-]. destruct (inv_co_run _ _ _ _ _ _ Ha (inv_note t v w H) E) as [H1 Hy].
  now apply check_gen_ret_ok.
Qed.

Lemma send_action_bare c : no_bare (send_action c).
Proof. destruct c as [[id|] k]; intros id' k'; cbn; [discriminate | apply awaits_only]. Qed.

Lemma execute_throw_ok fuel t e w r :
  inv (Some t) rf w -> execute_throw fuel t e w = Some r -> after t r.
Proof.
  intros H. destruct (running_lookup t w H) as (o & d & E & Ho & Hl).
  unfold execute_throw. rewrite E.
  match goal with |- context [if must_cancel d then (?x, ?y) else (?z, ?u)] =>
    assert (Hp : exists e1 w1, (if must_cancel d then (x, y) else (z, u)) = (e1, w1) /\ inv (Some t) rf w1)
  end.
  { destruct (must_cancel d); do 2 eexists; (split; [reflexivity|]); [now apply inv_with_task | exact H]. }
  destruct Hp as (e1 & w1 & -> & H1).
  destruct (bool_decide _).
  - apply enter_ok; [|exact H1]. intros id k. apply awaits_only.
  - intros [= <-]. now apply failed_execution_ok.
Qed.

Lemma execute_send_ok fuel t w r :
  inv (Some t) rf w -> execute_send fuel t w = Some r -> after t r.
Proof.
  intros H. destruct (running_lookup t w H) as (o & d & E & Ho & Hl).
  unfold execute_send. rewrite E. destruct (must_cancel d); [now apply execute_throw_ok|].
  destruct (bool_decide _).
  - apply enter_ok; [apply send_action_bare | exact H].
  - intros [= <-]. now apply failed_execution_ok.
Qed.

Lemma catch_into_ok t r w e :
  (forall x, r = Some x -> after t x) -> catch_into t r = Some (w, e) -> inv None rf w.
Proof.
  intros Hr. unfold catch_into. destruct r as [[w1 [x|]]|]; [| |discriminate].
  - destruct (Hr _ eq_refl) as [H1 Hd]. destruct (bool_decide _) eqn:Ec.
    + apply bool_decide_eq_true in Ec. intros [= <- _]. apply (inv_release t); [exact H1 | exact (Hd Ec)].
    + intros [= Hw]. destruct (task_set_exception_ok t x w1 H1) as (H2 & H3 & _). rewrite Hw in *.
      now apply (inv_release t).
  - intros [= <- _]. exact (Hr _ eq_refl).
Qed.
End Running.

(** *** The handles of the queue *)

Lemma handles_pop t h q w :
  w_ready w = h :: q ->
  handles t w = (if decide (steps_of h = Some t) then 1 else 0) + handles t (set_queue q w).
Proof.
  intros Hq. unfold handles. rewrite Hq. cbn [set_queue w_ready]. rewrite filter_cons.
  destruct h as [u|u|u|cb u]; cbn [steps_of].
  3, 4: rewrite !decide_False; [reflexivity | discriminate | intros [|]; discriminate].
  all: destruct (decide (u = t)) as [->|Hne].
  1, 3: rewrite !decide_True by auto; reflexivity.
  all: rewrite !decide_False; [reflexivity | congruence | intros [|]; congruence].
Qed.

Lemma callback_runs_pop y h q w :
  w_ready w = h :: q ->
  callback_runs y w = (if decide (h = HCallbacks y) then 1 else 0) + callback_runs y (set_queue q w).
Proof.
  intros Hq. unfold callback_runs. rewrite Hq. cbn [set_queue w_ready]. rewrite filter_cons.
  now destruct (decide (h = HCallbacks y)).
Qed.

(** Popping a handle that runs no callbacks. *)
Lemma futs_ok_pop h q w :
  w_ready w = h :: q -> (forall y, h <> HCallbacks y) -> futs_ok None w -> futs_ok None (set_queue q w).
Proof.
  intros Hq Hh [A B D E].
  assert (Hr : forall y, callback_runs y (set_queue q w) = callback_runs y w).
  { intros y. rewrite (callback_runs_pop y h q w Hq), decide_False by apply Hh. reflexivity. }
  split; [exact A| | |exact E].
  - intros id o Ho. destruct (B id o Ho). split; rewrite ?Hr; assumption.
  - intros id Ho. rewrite Hr. exact (D id Ho).
Qed.

Lemma inv_pop_step t h q w :
  w_ready w = h :: q -> steps_of h = Some t -> inv None None w -> inv (Some t) None (set_queue q w).
Proof.
  intros Hq Hs [F [T N R]].
  split; [apply (futs_ok_pop h); [exact Hq | intros y ->; discriminate | exact F]|].
  assert (Hh : forall u, handles u w = (if decide (u = t) then 1 else 0) + handles u (set_queue q w)).
  { intros u. rewrite (handles_pop u h q w Hq), Hs. f_equal.
    destruct (decide (u = t)) as [->|]; [now rewrite decide_True | now rewrite decide_False by congruence]. }
  assert (Hg : forall u, get_task u (set_queue q w) = get_task u w) by reflexivity.
  assert (Hw : forall u y, wakes u y (set_queue q w) = wakes u y w) by reflexivity.
  revert Hh Hg Hw. generalize (set_queue q w) as w'. intros w' Hh Hg Hw. split.
  - intros u o d E. rewrite Hg in E. specialize (T u o d E). specialize (Hh u). unfold task_ok in *.
    destruct (fut_waiter d).
    + destruct T as (_ & A & B & D). destruct (decide (u = t)) as [->|Hne]; [lia|].
      split; [congruence|]. split; [lia|]. split; [now rewrite Hw|]. intros y Hy. rewrite Hw. auto.
    + destruct T as (A & _ & D). split; [intros y; now rewrite Hw|].
      destruct (D ltac:(discriminate)) as [D1 D2].
      destruct (decide (u = t)) as [->|Hne]; split.
      * intros _. lia.
      * congruence.
      * congruence.
      * intros _. rewrite Nat.add_0_l in Hh. rewrite <- Hh. auto.
  - intros u E. rewrite Hg in E. destruct (N u E) as [A B]. specialize (Hh u).
    split; [lia|]. intros y. rewrite Hw. auto.
  - intros u [= <-]. rewrite Hg. destruct (get_task t w) as [p|] eqn:E; [eauto|].
    destruct (N t E) as [A _]. specialize (Hh t). rewrite decide_True in Hh by reflexivity. lia.
Qed.

Lemma quiet_pop h q w : w_ready w = h :: q -> steps_of h = None -> quiet w (set_queue q w).
Proof.
  intros Hq Hs. split.
  - intros t. rewrite (handles_pop t h q w Hq), Hs, decide_False by discriminate. reflexivity.
  - reflexivity.
  - intros t. change (get_task t (set_queue q w)) with (get_task t w).
    destruct (get_task t w) as [[]|]; auto.
Qed.

Lemma inv_pop_callbacks id q w :
  w_ready w = HCallbacks id :: q -> inv None None w ->
  exists o, w_heap w !! id = Some o
    /\ inv None (Some (id, fut_callbacks (ob_fut o))) (set_queue q w).
Proof.
  intros Hq [F T]. pose proof F as [A B D E].
  pose proof (callback_runs_pop id _ q w Hq) as Hr. rewrite decide_True in Hr by reflexivity.
  destruct (w_heap w !! id) as [o|] eqn:Ho; [|rewrite (D id Ho) in Hr; lia].
  exists o. split; [reflexivity|]. split; [|exact (tasks_ok_quiet _ _ _ (quiet_pop _ _ _ Hq eq_refl) T)].
  destruct (B id o Ho) as [Bl Bp Bd _].
  assert (Hn : ~ pending_fut (ob_fut o)) by (intros Hp; destruct (Bp Hp) as [_ Hz]; lia).
  assert (Hz : callback_runs id (set_queue q w) = 0).
  { rewrite (Bd Hn ltac:(discriminate)) in Hr. destruct (decide _); lia. }
  assert (Hy : forall y, y <> id -> callback_runs y (set_queue q w) = callback_runs y w).
  { intros y Hne. rewrite (callback_runs_pop y _ q w Hq), decide_False by congruence. reflexivity. }
  split.
  - exact A.
  - intros y oy Hoy. change (w_heap (set_queue q w)) with (w_heap w) in Hoy.
    destruct (decide (y = id)) as [->|Hne].
    + rewrite Ho in Hoy. injection Hoy as <-. split; [exact Bl | intros Hp; destruct (Hn Hp) | |].
      * intros _ Hrf. destruct (Hrf _ eq_refl).
      * intros q' [= <-]. auto.
    + destruct (B y oy Hoy) as [Yl Yp Yd _]. split; rewrite ?Hy by exact Hne; [exact Yl | exact Yp | |].
      * intros Hny _. apply Yd; [exact Hny | discriminate].
      * intros q' [= <- _]. now destruct Hne.
  - intros y Hoy. change (w_heap (set_queue q w)) with (w_heap w) in Hoy.
    destruct (decide (y = id)) as [->|Hne]; [congruence|]. rewrite Hy by exact Hne. exact (D y Hoy).
  - intros y q' [= <- _]. change (w_heap (set_queue q w)) with (w_heap w). eauto.
Qed.

(** When every entry has run, the run is over. *)
Lemma inv_run_over id q w :
  inv None (Some (id, q)) w -> registered (set_callbacks q (init true 0)) = [] -> inv None None w.
Proof.
  intros [[A B D E] T] Hq. split; [|exact T]. split; [exact A| |exact D|discriminate].
  intros y o Ho. destruct (B y o Ho) as [Yl Yp Yd Yr]. split; [exact Yl | exact Yp | | discriminate].
  intros Hn _. destruct (decide (y = id)) as [->|Hne].
  - destruct (Yr q eq_refl) as (_ & -> & Hc). rewrite decide_True; [reflexivity|].
    unfold registered in *. now rewrite Hc.
  - apply Yd; [exact Hn|]. intros q' [= <- _]. now destruct Hne.
Qed.

(** *** Marking an entry *)

Lemma omap_mark i : forall (l : list Callback) r,
  l !! i ≫= runnable = Some r ->
  exists a b, omap runnable l = a ++ r :: b /\ omap runnable (alter mark_executed i l) = a ++ b.
Proof.
  induction i as [|i IH]; intros [|c l] r; cbn; try discriminate.
  - intros Hr. exists [], (omap runnable l). rewrite Hr. split; [reflexivity|].
    assert (runnable (mark_executed c) = None) as ->; [|reflexivity].
    destruct c as [d [|] [|]]; first [discriminate | reflexivity].
  - intros Hr. destruct (IH l r Hr) as (a & b & -> & H2).
    change (list_alter mark_executed i l) with (alter mark_executed i l).
    change (list_omap _ _ runnable) with (omap (M := list) runnable). rewrite H2.
    destruct (runnable c) as [x|]; [exists (x :: a) | exists a]; exists b; auto.
Qed.

Definition mark_queue (i : nat) (q : InlineQueue.queue Callback) : InlineQueue.queue Callback :=
  put_items (alter mark_executed i (InlineQueue.items q)) q.

Lemma items_mark i q : InlineQueue.items (mark_queue i q) = alter mark_executed i (InlineQueue.items q).
Proof. apply items_put_items. apply length_alter. Qed.

Lemma zigs_mark i f r t :
  InlineQueue.items (fut_callbacks f) !! i ≫= runnable = Some r ->
  zigs t f = zigs t (mark_entry i f) + (if decide (r = RanZig t) then 1 else 0).
Proof.
  intros Hr. unfold zigs, registered.
  change (fut_callbacks (mark_entry i f)) with (mark_queue i (fut_callbacks f)). rewrite items_mark.
  destruct (omap_mark i _ r Hr) as (a & b & -> & ->).
  rewrite !filter_app, filter_cons, !length_app. destruct (decide (r = RanZig t)); cbn; lia.
Qed.

Lemma futs_ok_mark id q i o w :
  futs_ok (Some (id, q)) w -> w_heap w !! id = Some o ->
  futs_ok (Some (id, mark_queue i q)) (put id (set_fut (mark_entry i (ob_fut o)) o) w).
Proof.
  intros [A B D E] Ho. destruct (B id o Ho) as [Fl _ _ Fr]. destruct (Fr q eq_refl) as (R1 & R2 & R3).
  split.
  - intros y Hy. rewrite lookup_put. destruct (decide (y = id)) as [->|]; [|exact (A y Hy)].
    rewrite (A id Hy) in Ho. discriminate.
  - intros y oy. rewrite lookup_put. destruct (decide (y = id)) as [->|Hne].
    + intros [= <-]. split; [exact Fl | contradiction | |].
      * intros _ Hq. destruct (Hq _ eq_refl).
      * intros q' [= <-]. split; [exact R1|]. split; [exact R2|]. cbn. now rewrite R3.
    + intros Hy. destruct (B y oy Hy) as [Yl Yp Yd _]. split; [exact Yl | exact Yp | |].
      * intros Hn _. apply Yd; [exact Hn|]. intros q' [= <- _]. now destruct Hne.
      * intros q' [= <- _]. now destruct Hne.
  - intros y. rewrite lookup_put. destruct (decide (y = id)); [discriminate | exact (D y)].
  - intros y q' [= <- _]. rewrite lookup_put, decide_True by reflexivity. eauto.
Qed.

(** The entry of a Python callback moves no wake-up. *)
Lemma inv_mark_other id q i o r w :
  inv None (Some (id, q)) w -> w_heap w !! id = Some o ->
  InlineQueue.items q !! i ≫= runnable = Some r -> (forall t, r <> RanZig t) ->
  inv None (Some (id, mark_queue i q)) (put id (set_fut (mark_entry i (ob_fut o)) o) w).
Proof.
  intros [F T] Ho Hr Hz. split; [now apply futs_ok_mark|].
  apply (tasks_ok_quiet None w); [|exact T]. apply (quiet_put id o); [exact Ho|].
  pose proof (fo_running _ _ _ _ (fs_fut _ _ F id o Ho) q eq_refl) as (_ & _ & Hq).
  split; [|auto|cbn; now destruct (ob_task o)]. intros t. cbn [set_fut ob_fut].
  rewrite (zigs_mark i (ob_fut o) r t) by now rewrite Hq.
  rewrite decide_False by apply Hz. symmetry. apply Nat.add_0_r.
Qed.

(** *** Waking a task *)

(** The entry of [t] at [id] is taken, and [t] is what runs. *)
Lemma tasks_ok_wake t id w w1 :
  tasks_ok None w -> (forall u, handles u w1 = handles u w) ->
  (forall u y, wakes u y w = wakes u y w1 + if decide (u = t /\ y = id) then 1 else 0) ->
  same_tasks w w1 -> tasks_ok (Some t) (clear_waiter t w1).
Proof.
  intros [T N _] Hh Hw Hg. unfold clear_waiter.
  pose proof (Hw t id) as Hid. rewrite decide_True in Hid by auto.
  destruct (get_task t w) as [[o d]|] eqn:E; [|destruct (N t E) as [_ H]; rewrite H in Hid; lia].
  pose proof (Hg t) as Ht. rewrite E in Ht. destruct (get_task t w1) as [[o1 d1]|] eqn:E1; [|destruct Ht].
  assert (Hw1 : handles t w = 0 /\ forall y, wakes t y w1 = 0).
  { specialize (T t o d E). unfold task_ok in T. destruct (fut_waiter d) as [x|].
    - destruct T as (_ & A & B & D). split; [exact A|]. intros y.
      destruct (decide (x = id)) as [->|Hx]; [|rewrite D in Hid by congruence; lia].
      destruct (decide (y = id)) as [->|Hy]; [lia|].
      specialize (Hw t y). rewrite D in Hw by exact Hy. lia.
    - destruct T as (A & _). rewrite A in Hid. lia. }
  destruct Hw1 as [Hh0 Hw0]. split.
  - intros u ou du. rewrite get_task_with, E1. unfold task_ok. rewrite handles_with, Hh.
    destruct (decide (u = t)) as [->|Hu].
    + intros [= <- <-]. cbn [set_waiter fut_waiter].
      split; [intros y; now rewrite wakes_with|]. split; [auto | congruence].
    + intros Eu. specialize (Hg u). rewrite Eu in Hg. destruct (get_task u w) as [[o0 d0]|] eqn:E0; [|destruct Hg].
      destruct Hg as [-> Hp]. specialize (T u o0 d0 E0). unfold task_ok in T.
      assert (Hwu : forall y, wakes u y (with_task t (set_waiter None) w1) = wakes u y w).
      { intros y. rewrite wakes_with, (Hw u y), decide_False by tauto. lia. }
      destruct (fut_waiter d0).
      * destruct T as (_ & A & B & D). split; [congruence|]. split; [exact A|].
        split; [now rewrite Hwu|]. intros y Hy. rewrite Hwu. auto.
      * destruct T as (A & _ & D). split; [intros y; now rewrite Hwu|]. split; [congruence|].
        intros _. destruct (D ltac:(discriminate)). auto.
  - intros u. rewrite get_task_with, E1. destruct (decide (u = t)) as [->|Hu]; [discriminate|].
    intros Eu. specialize (Hg u). rewrite Eu in Hg. destruct (get_task u w) as [[]|] eqn:E0; [destruct Hg|].
    destruct (N u E0) as [A B]. rewrite handles_with, Hh. split; [exact A|].
    intros y. rewrite wakes_with. specialize (Hw u y). rewrite B in Hw. lia.
  - intros u [= <-]. rewrite get_task_with, E1, decide_True by reflexivity. eauto.
Qed.

Lemma inv_mark_zig id q i o t w :
  inv None (Some (id, q)) w -> w_heap w !! id = Some o ->
  InlineQueue.items q !! i ≫= runnable = Some (RanZig t) ->
  inv (Some t) (Some (id, mark_queue i q))
    (clear_waiter t (put id (set_fut (mark_entry i (ob_fut o)) o) w)).
Proof.
  intros [F T] Ho Hr. split; [now apply futs_ok_with, futs_ok_mark|].
  pose proof (fo_running _ _ _ _ (fs_fut _ _ F id o Ho) q eq_refl) as (_ & _ & Hq).
  apply (tasks_ok_wake t id w); [exact T | reflexivity | |].
  - intros u y. rewrite wakes_put. destruct (decide (y = id)) as [->|Hy].
    + unfold wakes. rewrite Ho. cbn [set_fut ob_fut].
      rewrite (zigs_mark i (ob_fut o) (RanZig t) u) by now rewrite Hq. f_equal.
      destruct (decide (u = t)) as [->|Hu].
      * now rewrite !decide_True.
      * rewrite !decide_False; [reflexivity | tauto | congruence].
    + rewrite decide_False by tauto. symmetry. apply Nat.add_0_r.
  - intros u. rewrite get_task_put. destruct (decide (u = id)) as [->|].
    + unfold get_task. rewrite Ho. cbn [set_fut ob_task]. destruct (ob_task o); auto.
    + destruct (get_task u w) as [[]|]; auto.
Qed.

Section Handles.
Hypothesis awaits_only : forall c v id k, co_step c v <> YieldFuture id k.
Hypothesis class_builtin : forall b,
  class_of (new_exc b) = match b with BCancelled _ => EcCancelled | _ => EcOther end.

Lemma wakeup_ok fuel id q t w w' e :
  inv (Some t) (Some (id, q)) (clear_waiter t w) -> wakeup_task fuel id t w = Some (w', e) ->
  inv None (Some (id, q)) w'.
Proof.
  intros H. unfold wakeup_task.
  destruct (fs_running _ _ (proj1 H) id q eq_refl) as [o Ho]. rewrite Ho.
  apply (catch_into_ok class_builtin). intros r.
  destruct (Future.fut_exception (ob_fut o)).
  - now apply execute_throw_ok.
  - now apply execute_send_ok.
Qed.

Lemma call_back_ok fuel id q i o r w w' e :
  inv None (Some (id, q)) w -> w_heap w !! id = Some o ->
  InlineQueue.items q !! i ≫= runnable = Some r ->
  call_back fuel id r (put id (set_fut (mark_entry i (ob_fut o)) o) w) = Some (w', e) ->
  inv None (Some (id, mark_queue i q)) w'.
Proof.
  intros H Ho Hr. pose proof (fun Hz => inv_mark_other id q i o r w H Ho Hr Hz) as Hm.
  destruct r as [cb|t|p]; cbn [call_back].
  - destruct (do_ops (callback_ops cb id) _) as [w2|] eqn:E; [|discriminate]. intros [= <- _].
    eapply inv_do_ops; [|exact E]. now apply Hm.
  - apply wakeup_ok. now apply inv_mark_zig.
  - intros [= <- _]. now apply Hm.
Qed.

(** The entries from the [i]th on have run; none becomes runnable again. *)
Lemma run_entries_ok fuel n : forall i id q w w' l,
  inv None (Some (id, q)) w -> run_entries fuel n i id w = Some (w', l) ->
  exists q', inv None (Some (id, q')) w'
    /\ length (InlineQueue.items q') = length (InlineQueue.items q)
    /\ (forall j, InlineQueue.items q !! j ≫= runnable = None -> InlineQueue.items q' !! j ≫= runnable = None)
    /\ forall j, i <= j < i + n -> InlineQueue.items q' !! j ≫= runnable = None.
Proof.
  induction n as [|n IH]; intros i id q w w' l H; cbn [run_entries].
  - intros [= <- _]. exists q. split; [exact H|]. split; [reflexivity|]. split; [auto|]. intros j Hj. lia.
  - destruct (fs_running _ _ (proj1 H) id q eq_refl) as [o Ho]. rewrite Ho.
    pose proof (fo_running _ _ _ _ (fs_fut _ _ (proj1 H) id o Ho) q eq_refl) as (_ & _ & ->).
    destruct (InlineQueue.items q !! i ≫= runnable) as [r|] eqn:Er.
    + destruct (call_back fuel id r _) as [[w2 e]|] eqn:Ec; [|discriminate].
      apply (call_back_ok _ _ q) in Ec; [|assumption..].
      destruct (run_entries fuel n (S i) id w2) as [[w3 l3]|] eqn:E3; [|discriminate].
      intros [= <- _]. destruct (IH _ _ _ _ _ _ Ec E3) as (q' & A & B & D & E). exists q'.
      assert (Hmark : forall j, j = i \/ InlineQueue.items q !! j ≫= runnable = None ->
        InlineQueue.items (mark_queue i q) !! j ≫= runnable = None).
      { intros j Hj. rewrite items_mark. destruct (decide (j = i)) as [->|Hne].
        - rewrite list_lookup_alter, decide_True by reflexivity.
          destruct (InlineQueue.items q !! i) as [c|]; [|reflexivity].
          cbn. destruct c as [d [|] [|]]; reflexivity.
        - rewrite list_lookup_alter_ne by congruence. tauto. }
      split; [exact A|]. split; [rewrite B, items_mark; apply length_alter|].
      split; [auto|]. intros j Hj. destruct (decide (j = i)) as [->|]; [auto | apply E; lia].
    + intros Hw. destruct (IH _ _ _ _ _ _ H Hw) as (q' & A & B & D & E). exists q'.
      split; [exact A|]. split; [exact B|]. split; [exact D|].
      intros j Hj. destruct (decide (j = i)) as [->|]; [auto | apply E; lia].
Qed.

Lemma all_run q :
  (forall j, InlineQueue.items q !! j ≫= runnable = None) ->
  registered (set_callbacks q (init true 0)) = [].
Proof.
  unfold registered. cbn [set_callbacks fut_callbacks]. generalize (InlineQueue.items q) as l.
  induction l as [|c l IH]; intros Hl; [reflexivity|]. cbn [omap list_omap].
  pose proof (Hl 0) as H0. cbn in H0. rewrite H0. apply IH. intros j. exact (Hl (S j)).
Qed.

Lemma run_callbacks_ok fuel id q w w' e :
  inv None (Some (id, q)) w -> run_callbacks fuel id w = Some (w', e) -> inv None None w'.
Proof.
  intros H. unfold run_callbacks.
  destruct (fs_running _ _ (proj1 H) id q eq_refl) as [o Ho]. rewrite Ho.
  pose proof (fo_running _ _ _ _ (fs_fut _ _ (proj1 H) id o Ho) q eq_refl) as (_ & _ & ->).
  destruct (run_entries _ _ 0 id w) as [[w2 l]|] eqn:E; [|discriminate]. intros [= <- _].
  destruct (run_entries_ok _ _ _ _ _ _ _ _ H E) as (q' & A & B & _ & D).
  apply (inv_run_over id q'); [exact A|]. apply all_run. intros j.
  destruct (decide (j < length (InlineQueue.items q'))) as [Hj|Hj]; [apply D; lia|].
  now rewrite lookup_ge_None_2 by lia.
Qed.

Lemma inv_report e w : inv None None w -> inv None None (report e w).
Proof.
  intros [[A B D E] [T N R]]. split; split; auto. intros id o Ho. destruct (B id o Ho). now split.
Qed.

Lemma run_handle_ok fuel h q w w' e :
  w_ready w = h :: q -> inv None None w -> run_handle fuel h (set_queue q w) = Some (w', e) ->
  inv None None w'.
Proof.
  intros Hq H. destruct h as [t|t|id|cb id]; cbn [run_handle].
  - pose proof (inv_pop_step t _ q w Hq eq_refl H) as H1.
    apply (catch_into_ok class_builtin). intros r. now apply execute_send_ok.
  - pose proof (inv_pop_step t _ q w Hq eq_refl H) as H1. unfold execute_task_throw.
    destruct (running_lookup _ _ _ H1) as (o & d & -> & _).
    apply (catch_into_ok class_builtin). intros r. now apply execute_throw_ok.
  - destruct (inv_pop_callbacks id q w Hq H) as (o & _ & H1). now apply (run_callbacks_ok _ _ (fut_callbacks (ob_fut o))).
  - cbn [call_back]. destruct (do_ops _ _) as [w2|] eqn:E; [|discriminate]. intros [= <- _].
    eapply inv_do_ops; [|exact E]. destruct H as [F T].
    split; [apply (futs_ok_pop (HPython cb id)); auto; discriminate|].
    exact (tasks_ok_quiet _ _ _ (quiet_pop _ _ _ Hq eq_refl) T).
Qed.

Lemma run_one_ok fuel w w' stop : inv None None w -> run_one fuel w = Some (w', stop) -> inv None None w'.
Proof.
  intros H. unfold run_one. destruct (w_ready w) as [|h q] eqn:Hq; [now intros [= <- _]|].
  destruct (run_handle fuel h (set_queue q w)) as [[w2 e]|] eqn:E; [|discriminate].
  apply (run_handle_ok _ h q w) in E; [|assumption..].
  destruct e as [x|]; [|now intros [= <- _]].
  destruct (bool_decide _); intros [= <- _]; [exact E | now apply inv_report].
Qed.

Lemma inv_empty : inv None None empty_world.
Proof.
  split; split; try discriminate; [reflexivity | reflexivity |].
  intros t _. split; reflexivity.
Qed.

Lemma reachable_inv w : reachable w -> inv None None w.
Proof.
  apply (rtc_ind_r (R := tstep) (fun w => inv None None w) empty_world); [exact inv_empty|].
  intros w1 w2 _ [fuel u u' stop E|o u v u' E] H1.
  - now apply (run_one_ok fuel u u' stop).
  - now apply (inv_do_op _ _ u o v).
Qed.

(** C15: A task that is not done is woken exactly once, in programs whose
    coroutines [await] their futures and bare-yield none ([awaits_only]; a bare
    yield of a future that is done can lose the wake-up: see
    [bare_yield_never_wakes]), and with the exceptions the native code makes of
    their own classes ([class_builtin]).  Whatever such coroutines, the callbacks
    and the code outside do - awaiting, yielding nothing, settling, cancelling,
    in any order -, a pending task that waits for nothing has exactly one handle
    on the ready queue, and one that waits for a future has no handle and exactly
    one entry among the callbacks of that future and of no other, which is
    pending or whose callbacks are about to run.  So there no wake-up is lost and
    no coroutine is entered twice for one suspension. *)
Theorem task_woken_once w t o d :
  reachable w -> get_task t w = Some (o, d) -> fut_status (ob_fut o) = pending ->
  match fut_waiter d with
  | None => handles t w = 1 /\ forall y, wakes t y w = 0
  | Some x =>
      handles t w = 0 /\ wakes t x w = 1 /\ (forall y, y <> x -> wakes t y w = 0)
      /\ exists ox, w_heap w !! x = Some ox
           /\ (fut_status (ob_fut ox) = pending \/ HCallbacks x ∈ w_ready w)
  end.
Proof.
  intros H E Hp. destruct (reachable_inv w H) as [F [T _ _]].
  specialize (T t o d E). unfold task_ok in T. destruct (fut_waiter d) as [x|].
  - destruct T as (_ & A & B & D). split; [exact A|]. split; [exact B|]. split; [exact D|].
    unfold wakes in B. destruct (w_heap w !! x) as [ox|] eqn:Ex; [|discriminate].
    exists ox. split; [reflexivity|].
    destruct (decide (fut_status (ob_fut ox) = pending)) as [|Hn]; [now left|]. right.
    pose proof (fo_done _ _ _ _ (fs_fut _ _ F x ox Ex) Hn ltac:(discriminate)) as Hr.
    destruct (decide (registered (ob_fut ox) = [])) as [Eq|_];
      [unfold zigs in B; rewrite Eq in B; discriminate|].
    unfold callback_runs in Hr.
    destruct (filter (fun h => h = HCallbacks x) (w_ready w)) as [|h l] eqn:El; [discriminate|].
    assert (Hin : h ∈ filter (fun h => h = HCallbacks x) (w_ready w)) by (rewrite El; left).
    apply list_elem_of_filter in Hin as [-> Hin]. exact Hin.
  - destruct T as (A & _ & D). destruct (D ltac:(discriminate)). auto.
Qed.
End Handles.

(** ** Cancelling

    A cancelled task passes the request on to what it waits for, when that is a
    task to what that waits for, and so on. *)

(** The task that [t] waits for. *)
Definition waiter_task t w : option nat :=
  match get_task t w with
  | Some (o, d) =>
      if bool_decide (fut_status (ob_fut o) = pending)
      then match fut_waiter d with
           | Some x => match get_task x w with Some _ => Some x | None => None end
           | None => None
           end
      else None
  | None => None
  end.

(** The tasks [t] waits for end after at most [n] of them. *)
Fixpoint chain (n t : nat) w : bool :=
  match waiter_task t w with
  | None => true
  | Some x => match n with 0 => false | S n' => chain n' x w end
  end.

(** Where the request arrived: the task is entered with a [CancelledError], or
    the future at the end of the chain is cancelled. *)
Inductive cancel_arrived w : nat -> Prop :=
| ca_armed t o d : get_task t w = Some (o, d) -> must_cancel d = true -> cancel_arrived w t
| ca_future t o d x ox :
    get_task t w = Some (o, d) -> fut_waiter d = Some x ->
    w_heap w !! x = Some ox -> fut_status (ob_fut ox) = canceled -> cancel_arrived w t
| ca_task t o d x :
    get_task t w = Some (o, d) -> fut_waiter d = Some x -> cancel_arrived w x -> cancel_arrived w t.

(** What the tasks wait for stays. *)
Definition same_waiters w w' : Prop :=
  forall u, match get_task u w, get_task u w' with
            | Some (_, d), Some (_, d') => fut_waiter d' = fut_waiter d
            | None, None => True
            | _, _ => False
            end.

Lemma same_waiters_refl w : same_waiters w w.
Proof. intros u. now destruct (get_task u w) as [[]|]. Qed.

Lemma same_waiters_trans w1 w2 w3 : same_waiters w1 w2 -> same_waiters w2 w3 -> same_waiters w1 w3.
Proof.
  intros A B u. specialize (A u). specialize (B u).
  destruct (get_task u w1) as [[]|], (get_task u w2) as [[]|], (get_task u w3) as [[]|];
    first [contradiction | exact I | congruence].
Qed.

Lemma same_waiters_put id o o' w :
  w_heap w !! id = Some o ->
  match ob_task o, ob_task o' with
  | Some d, Some d' => fut_waiter d' = fut_waiter d | None, None => True | _, _ => False
  end -> same_waiters w (put id o' w).
Proof.
  intros Ho Ht u. rewrite get_task_put. destruct (decide (u = id)) as [->|]; [|apply same_waiters_refl].
  unfold get_task. rewrite Ho. destruct (ob_task o), (ob_task o'); auto.
Qed.

Lemma same_waiters_commit id o f w : w_heap w !! id = Some o -> same_waiters w (commit id o f w).
Proof.
  intros Ho. apply (same_waiters_put id o (set_fut (set_ready [] f) o) w Ho). cbn. now destruct (ob_task o).
Qed.

Lemma same_waiters_with t g w :
  (forall d, fut_waiter (g d) = fut_waiter d) -> same_waiters w (with_task t g w).
Proof.
  intros Hg u. rewrite get_task_with. destruct (get_task t w) as [[o d]|] eqn:E; [|apply same_waiters_refl].
  destruct (decide (u = t)) as [->|]; [rewrite E; apply Hg | apply same_waiters_refl].
Qed.

Lemma same_waiters_task u o d w w' :
  same_waiters w w' -> get_task u w = Some (o, d) ->
  exists o' d', get_task u w' = Some (o', d') /\ fut_waiter d' = fut_waiter d.
Proof.
  intros H E. specialize (H u). rewrite E in H. destruct (get_task u w') as [[o' d']|]; [eauto | destruct H].
Qed.

Lemma future_cancel_done msg f :
  (future_cancel msg f).1.2 = true -> fut_status (future_cancel msg f).2 = canceled.
Proof.
  unfold future_cancel. destruct (fut_released f); [discriminate|].
  destruct (fut_status f) eqn:E; try discriminate.
  set (g := match msg with Some m => _ | None => f end).
  assert (Hg : fut_status g = pending) by (destruct msg; exact E). clearbody g.
  unfold call_done_callbacks. rewrite bool_decide_eq_false_2 by (intros H; exact (H Hg)). cbn zeta.
  destruct (_ =? 0); [reflexivity|]. destruct (negb _); [discriminate | reflexivity].
Qed.

Lemma arm_arrived t o d w :
  get_task t w = Some (o, d) -> same_waiters w (arm_cancel t w) /\ cancel_arrived (arm_cancel t w) t.
Proof.
  intros E. unfold arm_cancel. split; [now apply same_waiters_with|].
  eapply ca_armed; [rewrite get_task_with, E, decide_True by reflexivity; reflexivity | reflexivity].
Qed.

(** The chain does not depend on what a request writes. *)
Lemma chain_put n : forall u t o o' w,
  w_heap w !! t = Some o -> fut_status (ob_fut o') = fut_status (ob_fut o) ->
  match ob_task o, ob_task o' with
  | Some d, Some d' => fut_waiter d' = fut_waiter d | None, None => True | _, _ => False
  end -> chain n u (put t o' w) = chain n u w.
Proof using C.
  assert (Hw : forall u t o o' w, w_heap w !! t = Some o -> fut_status (ob_fut o') = fut_status (ob_fut o) ->
    match ob_task o, ob_task o' with
    | Some d, Some d' => fut_waiter d' = fut_waiter d | None, None => True | _, _ => False
    end -> waiter_task u (put t o' w) = waiter_task u w).
  { intros u t o o' w Ho Hs Ht.
    assert (Hg : forall y, match get_task y w, get_task y (put t o' w) with
      | Some (a, d), Some (a', d') => fut_status (ob_fut a') = fut_status (ob_fut a) /\ fut_waiter d' = fut_waiter d
      | None, None => True | _, _ => False end).
    { intros y. rewrite get_task_put. destruct (decide (y = t)) as [->|].
      - unfold get_task. rewrite Ho. destruct (ob_task o), (ob_task o'); auto.
      - destruct (get_task y w) as [[]|]; auto. }
    unfold waiter_task. pose proof (Hg u) as Hu.
    destruct (get_task u w) as [[a d]|], (get_task u (put t o' w)) as [[a' d']|];
      [|destruct Hu | destruct Hu | reflexivity].
    destruct Hu as [-> ->]. destruct (bool_decide _); [|reflexivity].
    destruct (fut_waiter d) as [x|]; [|reflexivity]. specialize (Hg x).
    destruct (get_task x w) as [[]|], (get_task x (put t o' w)) as [[]|]; first [reflexivity | destruct Hg]. }
  induction n as [|n IH]; intros u t o o' w Ho Hs Ht; cbn [chain]; rewrite (Hw u t o o' w Ho Hs Ht);
    [reflexivity|]. destruct (waiter_task u w); [now apply (IH _ _ o) | reflexivity].
Qed.

(** The request moves no waiter. *)
Lemma note_request_spec t msg o d w :
  get_task t w = Some (o, d) ->
  let w1 := note_request t msg o d w in
  same_waiters w w1 /\ (forall n u, chain n u w1 = chain n u w).
Proof.
  intros E. apply get_task_lookup in E as [Ho Hd]. unfold note_request. cbn zeta. split.
  - apply (same_waiters_put t o _ w Ho). now rewrite Hd.
  - intros n u. apply (chain_put n u t o); [exact Ho | now destruct msg | now rewrite Hd].
Qed.

Lemma chain_waiter n t x o d w ox dx w1 :
  get_task t w = Some (o, d) -> fut_status (ob_fut o) = pending -> fut_waiter d = Some x ->
  same_waiters w w1 -> get_task x w1 = Some (ox, dx) ->
  chain n t w = match n with 0 => false | S m => chain m x w end.
Proof.
  intros E Hp Hx Hs Ex. destruct (get_task x w) as [p|] eqn:Ex0;
    [|specialize (Hs x); rewrite Ex0, Ex in Hs; destruct Hs].
  assert (Hw : waiter_task t w = Some x).
  { unfold waiter_task. rewrite E, bool_decide_eq_true_2 by exact Hp. now rewrite Hx, Ex0. }
  destruct n; cbn [chain]; now rewrite Hw.
Qed.

(** What a request to cancel [t] gives. *)
Definition arrives t w (r : option (bool * world)) : Prop :=
  exists b w', r = Some (b, w') /\ same_waiters w w' /\ (b = true -> cancel_arrived w' t).

Lemma future_arrives t o d x ox msg w :
  get_task t w = Some (o, d) -> fut_waiter d = Some x -> w_heap w !! x = Some ox ->
  arrives t w (Some (future_fast_cancel x ox msg w)).
Proof.
  intros E Hx Ex. unfold future_fast_cancel. pose proof (future_cancel_done msg (ob_fut ox)) as Hdone.
  destruct (future_cancel msg (ob_fut ox)) as [[err b] f]. cbn [fst snd] in Hdone.
  pose proof (same_waiters_commit x ox f w Ex) as H2.
  do 2 eexists. split; [reflexivity|]. split; [exact H2|]. intros ->.
  destruct (same_waiters_task t o d w _ H2 E) as (o2 & d2 & E2 & Hd2).
  apply (ca_future _ t o2 d2 x (set_fut (set_ready [] f) ox) E2); [congruence | | exact (Hdone eq_refl)].
  rewrite commit_lookup. now rewrite decide_True.
Qed.

Lemma fast_task_cancel_arrives msg fuel : forall n t o d w,
  chain n t w = true -> n < fuel -> get_task t w = Some (o, d) ->
  exists w', fast_task_cancel fuel t msg w = Some (bool_decide (fut_status (ob_fut o) = pending), w')
    /\ same_waiters w w' /\ (fut_status (ob_fut o) = pending -> cancel_arrived w' t).
Proof.
  induction fuel as [|fuel IH]; intros n t o d w Hc Hn E; [lia|]. cbn [fast_task_cancel]. rewrite E.
  destruct (decide (fut_status (ob_fut o) = pending)) as [Hp|Hp];
    [rewrite bool_decide_eq_true_2 by exact Hp | rewrite bool_decide_eq_false_2 by exact Hp]; cbn [negb];
    [|exists w; split; [reflexivity | split; [apply same_waiters_refl | contradiction]]].
  destruct (note_request_spec t msg o d w E) as [Hw1 Hc1]. cbn zeta in *.
  destruct (same_waiters_task t o d w _ Hw1 E) as (o1 & d1 & E1 & Hd1).
  revert Hw1 Hc1 E1. generalize (note_request t msg o d w) as w1. intros w1 Hw1 Hc1 E1.
  assert (Harm : forall w2, same_waiters w1 w2 -> exists w', Some (true, arm_cancel t w2) = Some (true, w')
    /\ same_waiters w w' /\ (fut_status (ob_fut o) = pending -> cancel_arrived w' t)).
  { intros w2 H2. destruct (same_waiters_task t o1 d1 w1 w2 H2 E1) as (o2 & d2 & E2 & _).
    destruct (arm_arrived t o2 d2 w2 E2) as [A B]. eexists. split; [reflexivity|].
    split; [|auto]. eapply same_waiters_trans; [exact Hw1|]. eapply same_waiters_trans; eassumption. }
  destruct (fut_waiter d) as [x|] eqn:Ex; [|apply Harm, same_waiters_refl].
  assert (Hx : arrives t w1 (cancel_future_waiter (fast_task_cancel fuel) x msg w1)).
  { unfold cancel_future_waiter. destruct (w_heap w1 !! x) as [ox|] eqn:Eox;
      [|exists false, w1; split; [reflexivity | split; [apply same_waiters_refl | discriminate]]].
    destruct (ob_task ox) as [dx|] eqn:Etx; [|exact (future_arrives t o1 d1 x ox msg w1 E1 Hd1 Eox)].
    assert (Egx : get_task x w1 = Some (ox, dx)) by (unfold get_task; now rewrite Eox, Etx).
    rewrite (chain_waiter n t x o d w ox dx w1 E Hp Ex Hw1 Egx) in Hc. destruct n as [|m]; [discriminate|].
    rewrite <- Hc1 in Hc. destruct (IH m x ox dx w1 Hc ltac:(lia) Egx) as (w2 & -> & H2 & Hl).
    do 2 eexists. split; [reflexivity|]. split; [exact H2|]. intros Hb.
    destruct (same_waiters_task t o1 d1 w1 w2 H2 E1) as (o2 & d2 & E2 & Hd2).
    apply (ca_task _ t o2 d2 x E2); [congruence|]. apply Hl. now apply bool_decide_eq_true in Hb. }
  destruct Hx as (b & w2 & -> & H2 & Hb). destruct b; [|now apply Harm].
  exists w2. split; [reflexivity|]. split; [eapply same_waiters_trans; eassumption | auto].
Qed.

(** A chain that does not end: neither does the request. *)
Lemma endless_cancel msg fuel : forall t w,
  (forall n, chain n t w = false) -> fast_task_cancel fuel t msg w = None.
Proof.
  induction fuel as [|fuel IH]; intros t w Hc; [reflexivity|]. cbn [fast_task_cancel].
  assert (Hw : exists x, waiter_task t w = Some x).
  { specialize (Hc 0). cbn [chain] in Hc. destruct (waiter_task t w); [eauto | discriminate]. }
  destruct Hw as [x Hw]. assert (Hcx : forall n, chain n x w = false).
  { intros n. specialize (Hc (S n)). cbn [chain] in Hc. now rewrite Hw in Hc. }
  clear Hc. unfold waiter_task in Hw. destruct (get_task t w) as [[o d]|] eqn:E; [|discriminate].
  destruct (bool_decide _) eqn:Hp; [|discriminate]. cbn [negb]. cbn zeta.
  destruct (fut_waiter d) as [y|] eqn:Ex; [|discriminate].
  destruct (get_task y w) as [[oy dy]|] eqn:Ey; [|discriminate]. injection Hw as ->.
  destruct (note_request_spec t msg o d w E) as [Hw1 Hc1]. cbn zeta in *.
  destruct (same_waiters_task x oy dy w _ Hw1 Ey) as (o1 & d1 & E1 & _).
  unfold cancel_future_waiter. apply get_task_lookup in E1 as [-> ->].
  rewrite IH; [reflexivity|]. intros n. rewrite Hc1. apply Hcx.
Qed.

(** The chain of [t] has exactly [n] tasks after it. *)
Definition chain_length n t w : Prop := chain n t w = true /\ forall m, m < n -> chain m t w = false.

Lemma chain_mono w n : forall m t, n <= m -> chain n t w = true -> chain m t w = true.
Proof.
  induction n as [|n IH]; intros m t Hm; destruct m as [|m]; cbn [chain]; try lia; auto;
    destruct (waiter_task t w); try discriminate; auto. apply IH. lia.
Qed.

Lemma chain_length_exists n t w : chain n t w = true -> exists m, m <= n /\ chain_length m t w.
Proof.
  induction n as [|n IH]; intros Hc.
  - exists 0. split; [reflexivity|]. split; [exact Hc | intros m Hm; lia].
  - destruct (chain n t w) eqn:E.
    + destruct (IH eq_refl) as (m & Hm & Hl). exists m. split; [lia | exact Hl].
    + exists (S n). split; [reflexivity|]. split; [exact Hc|]. intros m Hm.
      destruct (chain m t w) eqn:Em; [|reflexivity].
      rewrite (chain_mono w m n t ltac:(lia) Em) in E. discriminate.
Qed.

Lemma chain_length_next n t x w :
  waiter_task t w = Some x -> chain_length (S n) t w -> chain_length n x w.
Proof.
  intros Hw [A B]. cbn [chain] in A. rewrite Hw in A. split; [exact A|]. intros m Hm.
  specialize (B (S m) ltac:(lia)). cbn [chain] in B. now rewrite Hw in B.
Qed.

Lemma chain_length_inj n m t w : chain_length n t w -> chain_length m t w -> n = m.
Proof.
  intros [A B] [D E]. destruct (lt_eq_lt_dec n m) as [[H|H]|H]; [|exact H|].
  - rewrite (E n H) in A. discriminate.
  - rewrite (B m H) in D. discriminate.
Qed.

(** The tasks of a chain are different, so there are at most as many as objects. *)
Lemma chain_tasks w n : forall t, chain_length n t w -> is_Some (w_heap w !! t) ->
  exists l, length l = S n /\ NoDup l
    /\ forall u, u ∈ l -> is_Some (w_heap w !! u) /\ exists m, m <= n /\ chain_length m u w.
Proof.
  induction n as [|n IH]; intros t Hl Ht.
  - exists [t]. split; [reflexivity|]. split; [apply NoDup_singleton|].
    intros u Hu. apply list_elem_of_singleton in Hu as ->. eauto.
  - destruct (waiter_task t w) as [x|] eqn:Ex.
    + assert (Hx : is_Some (w_heap w !! x)).
      { unfold waiter_task in Ex. destruct (get_task t w) as [[o d]|]; [|discriminate].
        destruct (bool_decide _); [|discriminate]. destruct (fut_waiter d) as [y|]; [|discriminate].
        destruct (get_task y w) as [[oy dy]|] eqn:Ey; [|discriminate]. injection Ex as ->.
        apply get_task_lookup in Ey as [Ey _]. eauto. }
      destruct (IH x (chain_length_next _ _ _ _ Ex Hl) Hx) as (l & Hlen & Hnd & Hall).
      exists (t :: l). split; [cbn; congruence|]. split.
      * apply NoDup_cons. split; [|exact Hnd]. intros Hin. destruct (Hall t Hin) as [_ (m & Hm & Hlm)].
        pose proof (chain_length_inj _ _ _ _ Hl Hlm). lia.
      * intros u Hu. apply elem_of_cons in Hu as [->|Hu]; [eauto|].
        destruct (Hall u Hu) as [A (m & Hm & B)]. split; [exact A|]. exists m. split; [lia | exact B].
    + destruct Hl as [_ B]. specialize (B 0 ltac:(lia)). cbn [chain] in B. rewrite Ex in B. discriminate.
Qed.

Lemma chain_fits n t w : chain_length n t w -> is_Some (w_heap w !! t) -> n < size (w_heap w).
Proof.
  intros Hl Ht. destruct (chain_tasks w n t Hl Ht) as (l & Hlen & Hnd & Hall).
  assert (Hs : (list_to_set l : gset nat) ⊆ dom (w_heap w)).
  { intros u Hu. apply elem_of_list_to_set in Hu. apply elem_of_dom. exact (proj1 (Hall u Hu)). }
  apply subseteq_size in Hs. rewrite size_list_to_set, size_dom in Hs by exact Hnd. lia.
Qed.

(** C30: [cancel()] on a task that is not done returns [True] and the request is
    not lost: it goes down the chain of tasks that wait for each other, and
    arrives at one that will be entered with a [CancelledError] - because it
    waits for nothing, or for something that is done already (the note BUG-371
    of the code) - or it cancels the future at the end of the chain, which wakes
    the last of them.  It returns as soon as that chain ends. *)
Theorem task_cancel_arrives t msg o d n w :
  get_task t w = Some (o, d) -> fut_status (ob_fut o) = pending -> chain n t w = true ->
  exists w', task_cancel t msg w = Some (true, w') /\ cancel_arrived w' t.
Proof.
  intros E Hp Hc. destruct (chain_length_exists n t w Hc) as (m & _ & Hl).
  pose proof (get_task_lookup _ _ _ _ E) as [Ho _].
  pose proof (chain_fits m t w Hl (ex_intro _ o Ho)) as Hm.
  destruct (fast_task_cancel_arrives msg (S (size (w_heap w))) m t o d w (proj1 Hl) ltac:(lia) E)
    as (w' & Hw' & _ & Ha).
  rewrite bool_decide_eq_true_2 in Hw' by exact Hp. exists w'. split; [exact Hw' | exact (Ha Hp)].
Qed.

(** A task whose cancellation is armed is entered with a [CancelledError], not
    with the result it waited for. *)
Lemma armed_send_throws fuel t o d w :
  get_task t w = Some (o, d) -> fut_status (ob_fut o) = pending -> must_cancel d = true ->
  let e := new_exc (BCancelled (fut_cancel_msg (ob_fut o))) in
  execute_send fuel t w
  = enter fuel t (VExc e) (throw_action (coro d) e)
      (with_task t (set_cancel (cancel_requests d) false) w).
Proof.
  intros E Hp Hm. unfold execute_send, execute_throw. rewrite E, Hm.
  now rewrite (bool_decide_eq_true_2 (fut_status (ob_fut o) = pending) Hp).
Qed.
End Task.

(** ** Examples

    Coroutines are numbered; exception 0 is a [SystemExit]. *)

Definition demo_class (e : nat) : exc_class :=
  match e with 0 => EcFatal | 1 => EcCancelled | _ => EcOther end.
Definition demo_exc (b : builtin_exc) : nat :=
  match b with BCancelled _ => 1 | BRuntimeError _ => 2 | BGroup _ => 3 | _ => 4 end.

(** 10 waits for object 0, 20 cancels itself (object 2) and waits for object 1,
    30 waits for object 0 and raises [SystemExit], 31 raises it at once, 40 and
    50 wait for each other. *)
Definition demo_step (c : nat) (v : value) : co_action (C := nat) :=
  match c with
  | 10 => Await 0 1
  | 20 => Do (OCancel 2 None) 21
  | 21 => Await 1 1
  | 30 => Await 0 31
  | 31 => RaiseExc 0
  | 40 => Await 1 1
  | 50 => Await 0 1
  | _ => match v with VExc e => RaiseExc e | _ => Return 7 end
  end.

Definition demo_op (o : op) (w : world (C := nat)) : world :=
  match do_op demo_exc o w with Some (_, w) => w | None => w end.
Definition demo_run (w : world (C := nat)) : world :=
  match run_one demo_class demo_exc demo_step (fun _ _ => []) (fun _ _ => None) 20 w with
  | Some (w, _) => w
  | None => w
  end.

Definition demo_reachable : world (C := nat) -> Prop :=
  reachable demo_class demo_exc demo_step (fun _ _ => []) (fun _ _ => None).

Lemma demo_reach_op o w : demo_reachable w -> demo_reachable (demo_op o w).
Proof.
  intros H. unfold demo_op. destruct (do_op demo_exc o w) as [[v w']|] eqn:E; [|exact H].
  eapply rtc_r; [exact H|]. now apply (ts_op _ _ _ _ _ o w v).
Qed.

Lemma demo_reach_run w : demo_reachable w -> demo_reachable (demo_run w).
Proof.
  intros H. unfold demo_run. destruct (run_one _ _ _ _ _ 20 w) as [[w' b]|] eqn:E; [|exact H].
  eapply rtc_r; [exact H|]. now apply (ts_run _ _ _ _ _ 20 w w' b).
Qed.

(** A task that waits for a future, before and after it is resolved. *)
Definition demo_waiting : world := demo_run (demo_op (ONewTask 10) (demo_op ONewFuture empty_world)).

Lemma task_woken_once_witness :
  demo_reachable demo_waiting
  /\ exists o d, get_task 1 demo_waiting = Some (o, d) /\ fut_waiter d = Some 0
       /\ wakes 1 0 demo_waiting = 1.
Proof.
  assert (H : demo_reachable demo_waiting)
    by (apply demo_reach_run, demo_reach_op, demo_reach_op; apply rtc_refl).
  split; [exact H|].
  destruct (get_task 1 demo_waiting) as [[o d]|] eqn:E; [|vm_compute in E; discriminate].
  exists o, d. split; [reflexivity|].
  assert (Hp : fut_status (ob_fut o) = pending /\ fut_waiter d = Some 0)
    by (vm_compute in E; injection E as <- <-; split; reflexivity).
  destruct Hp as [Hp Hd].
  pose proof (task_woken_once demo_class demo_exc demo_step (fun _ _ => []) (fun _ _ => None)
    ltac:(intros c v id k; do 51 (try destruct c as [|c]); destruct v; discriminate)
    ltac:(intros []; reflexivity) demo_waiting 1 o d H E Hp) as Hk.
  rewrite Hd in Hk. destruct Hk as (_ & Hk & _). split; [exact Hd | exact Hk].
Defined.

(** Cancelling it cancels the future it waits for. *)
Lemma task_cancel_arrives_witness :
  chain 0 1 demo_waiting = true
  /\ exists w', task_cancel 1 (Some 9) demo_waiting = Some (true, w') /\ cancel_arrived w' 1.
Proof.
  split; [vm_compute; reflexivity|].
  destruct (get_task 1 demo_waiting) as [[o d]|] eqn:E; [|vm_compute in E; discriminate].
  apply (task_cancel_arrives 1 (Some 9) o d 0 demo_waiting E);
    [vm_compute in E; injection E as <- <-; reflexivity | vm_compute; reflexivity].
Defined.

(** The observable part of an object: its status, the fields about cancelling
    of a task. *)
Definition demo_view id (w : world (C := nat)) : option (FutureStatus * option (N * bool)) :=
  match w_heap w !! id with
  | Some o => Some (fut_status (ob_fut o),
                    match ob_task o with Some d => Some (cancel_requests d, must_cancel d) | None => None end)
  | None => None
  end.

(** A task that cancels itself and then awaits another task cancels only the
    future part of that one: object 1 is [canceled], but nobody asked its
    coroutine, which still waits for object 0 - pending -, and which was entered
    once, before. *)
Definition demo_self_cancel : world :=
  Nat.iter 2 demo_run
    (demo_op (ONewTask 20) (demo_op (ONewTask 10) (demo_op ONewFuture empty_world))).

Lemma self_cancel_skips_awaited_task :
  demo_view 1 demo_self_cancel = Some (canceled, Some (0%N, false))
  /\ demo_view 0 demo_self_cancel = Some (pending, None)
  /\ w_steps demo_self_cancel = [(1, VNone); (2, VNone)]
  /\ w_steps (Nat.iter 5 demo_run demo_self_cancel) = [(1, VNone); (2, VNone); (2, VExc 1)].
Proof. vm_compute. repeat split; reflexivity. Qed.

(** [cancel()] of that task, in contrast, counts as a request, cancels object 0
    and enters the coroutine again. *)
Definition demo_cancelled : world := demo_op (OCancel 1 None) demo_waiting.

Lemma cancel_enters_awaited_task :
  demo_view 1 demo_cancelled = Some (pending, Some (1%N, false))
  /\ demo_view 0 demo_cancelled = Some (canceled, None)
  /\ w_steps (demo_run demo_cancelled) = [(1, VNone); (1, VNone)]
  /\ demo_view 1 (demo_run demo_cancelled) = Some (canceled, Some (1%N, false)).
Proof. vm_compute. repeat split; reflexivity. Qed.

(** [SystemExit] in the first step of a task leaves the loop; after an [await]
    it is one of a group of exceptions, which the loop only reports. *)
Definition demo_stops (w : world (C := nat)) : option bool :=
  match run_one demo_class demo_exc demo_step (fun _ _ => []) (fun _ _ => None) 20 w with
  | Some (_, stop) => Some stop
  | None => None
  end.

Definition demo_exit_later : world :=
  demo_op (OSetResult 0 5) (demo_run (demo_op (ONewTask 30) (demo_op ONewFuture empty_world))).

Lemma fatal_after_await_is_reported :
  demo_stops (demo_op (ONewTask 31) empty_world) = Some true
  /\ demo_stops demo_exit_later = Some false
  /\ w_reported (demo_run demo_exit_later) = [demo_exc (BGroup [0])].
Proof. vm_compute. repeat split; reflexivity. Qed.

(** Two tasks that wait for each other: [cancel()] never comes back. *)
Definition demo_cycle : world :=
  Nat.iter 2 demo_run (demo_op (ONewTask 50) (demo_op (ONewTask 40) empty_world)).

Lemma cycle_cancel_never_ends : demo_reachable demo_cycle
  /\ forall fuel msg, fast_task_cancel fuel 0 msg demo_cycle = None.
Proof.
  split; [apply demo_reach_run, demo_reach_run, demo_reach_op, demo_reach_op; apply rtc_refl|].
  intros fuel msg. apply endless_cancel.
  assert (H : waiter_task 0 demo_cycle = Some 1 /\ waiter_task 1 demo_cycle = Some 0)
    by (vm_compute; split; reflexivity).
  destruct H as [H0 H1]. revert H0 H1. generalize demo_cycle as w. intros w H0 H1 n.
  enough (chain n 0 w = false /\ chain n 1 w = false) by tauto.
  induction n as [|n [IH0 IH1]]; cbn [chain]; rewrite H0, H1; auto.
Qed.

(** Coroutine 60 awaits its own task, which is refused but leaves the blocking
    flag of the task set; 61 then yields that task, now done, without awaiting
    it.  No entry is added to a future that is done, and the flag hides the wrong
    yield: the second task waits for ever, with no handle and no entry. *)
Definition bare_step (c : nat) (v : value) : co_action (C := nat) :=
  match c with
  | 60 => Await 0 1
  | 61 => YieldFuture 0 1
  | _ => match v with VExc e => RaiseExc e | _ => Return 7 end
  end.

Definition bare_run (w : world (C := nat)) : world :=
  match run_one demo_class demo_exc bare_step (fun _ _ => []) (fun _ _ => None) 20 w with
  | Some (w, _) => w
  | None => w
  end.

Definition bare_world : world :=
  bare_run (demo_op (ONewTask 61)
    (Nat.iter 3 bare_run (demo_op (ONewTask 60) empty_world))).

Lemma bare_yield_never_wakes :
  demo_view 0 bare_world = Some (finished, Some (0%N, false))
  /\ demo_view 1 bare_world = Some (pending, Some (0%N, false))
  /\ (match get_task 1 bare_world with Some (_, d) => fut_waiter d | None => None end) = Some 0
  /\ w_ready bare_world = [] /\ handles 1 bare_world = 0 /\ wakes 1 0 bare_world = 0.
Proof. vm_compute. repeat split; reflexivity. Qed.
