(* ===== verification/PyStrings.v ===== *)
(** * Python string operations

    The methods of [str] the Python tools of the repository use, on ASCII
    strings: [startswith], [endswith], [lower], [strip], [split], [replace] with
    a count of one, [join], and the search for a whole word that the pattern
    [\bword\b] of [re] performs. *)

From S2P Require Import Prelude.
From Stdlib Require Import Ascii.
From stdpp Require Import base numbers list strings pretty.

Definition newline : ascii := "010"%char.
Definition escape : ascii := "027"%char.

Definition startswith (s p : string) : bool := String.prefix p s.

Fixpoint endswith (s suffix : string) : bool :=
  bool_decide (s = suffix)
  || match s with
     | EmptyString => false
     | String _ s' => endswith s' suffix
     end.

Definition in_range (lo c hi : ascii) : bool :=
  (N_of_ascii lo <=? N_of_ascii c)%N && (N_of_ascii c <=? N_of_ascii hi)%N.

Definition lower_ascii (c : ascii) : ascii :=
  if in_range "A" c "Z" then ascii_of_N (N_of_ascii c + 32) else c.

Fixpoint lower (s : string) : string :=
  match s with
  | EmptyString => EmptyString
  | String c s' => String (lower_ascii c) (lower s')
  end.

(** [str.isspace] on ASCII. *)
Definition is_space (c : ascii) : bool :=
  bool_decide (c = " "%char) || in_range "009" c "013" || in_range "028" c "031".

Fixpoint lstrip (s : string) : string :=
  match s with
  | String c s' => if is_space c then lstrip s' else s
  | EmptyString => EmptyString
  end.

Fixpoint all_space (s : string) : bool :=
  match s with
  | EmptyString => true
  | String c s' => is_space c && all_space s'
  end.

Fixpoint rstrip (s : string) : string :=
  match s with
  | EmptyString => EmptyString
  | String c s' => if all_space s then EmptyString else String c (rstrip s')
  end.

Definition strip (s : string) : string := rstrip (lstrip s).

(** [s.split(sep)] for a separator of one character. *)
Fixpoint split (sep : ascii) (s : string) : list string :=
  match s with
  | EmptyString => [EmptyString]
  | String c s' =>
      if bool_decide (c = sep) then EmptyString :: split sep s'
      else match split sep s' with
           | [] => [String c EmptyString]
           | l :: ls => String c l :: ls
           end
  end.

(** [s[n:]] and [s[:n]]. *)
Fixpoint str_drop (n : nat) (s : string) : string :=
  match n, s with
  | 0, _ => s
  | S n', String _ s' => str_drop n' s'
  | S _, EmptyString => EmptyString
  end.

Fixpoint str_take (n : nat) (s : string) : string :=
  match n, s with
  | S n', String c s' => String c (str_take n' s')
  | _, _ => EmptyString
  end.

(** [s.replace(old, new, 1)], for an [old] that is not empty. *)
Fixpoint replace_first (old new s : string) : string :=
  if String.prefix old s then new +:+ str_drop (String.length old) s
  else match s with
       | EmptyString => EmptyString
       | String c s' => String c (replace_first old new s')
       end.

(** [s.replace(a, b)] for single characters. *)
Fixpoint replace_char (a b : ascii) (s : string) : string :=
  match s with
  | EmptyString => EmptyString
  | String c s' => String (if bool_decide (c = a) then b else c) (replace_char a b s')
  end.

(** [sep.join(l)]. *)
Fixpoint join (sep : string) (l : list string) : string :=
  match l with
  | [] => EmptyString
  | [s] => s
  | s :: l' => s +:+ sep +:+ join sep l'
  end.

(** [\w] on ASCII. *)
Definition word_char (c : ascii) : bool :=
  in_range "a" c "z" || in_range "A" c "Z" || in_range "0" c "9"
  || bool_decide (c = "_"%char).

Definition starts_word (s : string) : bool :=
  match s with String c _ => word_char c | EmptyString => false end.

(** [re.search(r"\b" + word + r"\b", s)], for a word of word characters; [prev]
    says whether the character before [s] is one. *)
Fixpoint search_word (word s : string) (prev : bool) : bool :=
  (negb prev && String.prefix word s
   && negb (starts_word (str_drop (String.length word) s)))
  || match s with
     | EmptyString => false
     | String c s' => search_word word s' (word_char c)
     end.

(** ** Lemmas *)

Fixpoint ends_word (prev : bool) (s : string) : bool :=
  match s with
  | EmptyString => prev
  | String c s' => ends_word (word_char c) s'
  end.

Lemma prefix_split p s : String.prefix p s = true <-> exists t, s = p +:+ t.
Proof.
  revert s. induction p as [|c p IH]; intros s; cbn.
  - split; [intros _; now exists s | now destruct s].
  - destruct s as [|d s]; cbn; [split; [discriminate | intros [t Ht]; discriminate]|].
    destruct (ascii_dec c d) as [->|Hne].
    + rewrite IH. split.
      * intros [t ->]. exists t. reflexivity.
      * intros [t [= ->]]. exists t. reflexivity.
    + split; [discriminate | intros [t [= -> _]]; congruence].
Qed.

Lemma str_drop_app p t : str_drop (String.length p) (p +:+ t) = t.
Proof. induction p as [|c p IH]; [reflexivity | exact IH]. Qed.

(** The search finds the word exactly where it stands alone. *)
Lemma search_word_spec word s prev :
  search_word word s prev = true <->
  exists pre post, s = pre +:+ word +:+ post
    /\ ends_word prev pre = false /\ starts_word post = false.
Proof.
  revert prev. induction s as [|c s IH]; intros prev; cbn [search_word].
  - rewrite orb_false_r, !andb_true_iff, !negb_true_iff, prefix_split. split.
    + intros [[Hp [t Ht]] Hd]. exists EmptyString, t. rewrite Ht, str_drop_app in Hd. auto.
    + intros (pre & post & E & Hp & Hd). destruct pre; [|discriminate].
      change (EmptyString = word +:+ post) in E. rewrite E, str_drop_app. eauto.
  - rewrite orb_true_iff, !andb_true_iff, !negb_true_iff, prefix_split, IH. split.
    + intros [[[Hp [t Ht]] Hd]|(pre & post & -> & Hp & Hd)].
      * exists EmptyString, t. rewrite Ht, str_drop_app in Hd. auto.
      * exists (String c pre), post. auto.
    + intros (pre & post & E & Hp & Hd). destruct pre as [|d pre].
      * left. change (String c s = word +:+ post) in E. rewrite E, str_drop_app. eauto.
      * right. injection E as -> E. exists pre, post. auto.
Qed.

Lemma str_take_length n s : String.length (str_take n s) <= n.
Proof.
  revert s. induction n as [|n IH]; intros s; [reflexivity|].
  destruct s as [|c s]; cbn; [lia | specialize (IH s); lia].
Qed.

Lemma replace_first_absent old new s :
  str_in old s = false -> replace_first old new s = s.
Proof.
  induction s as [|c s IH]; cbn [str_in replace_first]; intros [-> H]%orb_false_iff;
    [reflexivity | now rewrite IH].
Qed.

Lemma replace_first_present old new s :
  str_in old s = true ->
  exists pre post, s = pre +:+ old +:+ post /\ replace_first old new s = pre +:+ new +:+ post.
Proof.
  induction s as [|c s IH]; cbn [str_in replace_first]; intros H.
  - destruct (String.prefix old EmptyString) eqn:E; [|discriminate].
    apply prefix_split in E as [t E]. exists EmptyString, t. split; [exact E|].
    change (new +:+ str_drop (String.length old) EmptyString = new +:+ t).
    f_equal. rewrite E. apply str_drop_app.
  - destruct (String.prefix old (String c s)) eqn:E.
    + apply prefix_split in E as [t E]. exists EmptyString, t.
      split; [exact E|]. rewrite E, str_drop_app. reflexivity.
    + destruct (IH H) as (pre & post & -> & ->). exists (String c pre), post. auto.
Qed.
