(* ===== verification/Linter.v ===== *)
(** * The source linter

    The AST checker of src/tools/linter/rules/python_rules.py.  A syntax tree
    keeps what the visitor reads: the two node classes it has methods for, the
    names and [pass] statements its test looks at, and the children of every
    other node in the order of [ast.iter_child_nodes].  Reading and parsing a
    file, and walking the directory, are parameters. *)

From S2P Require Import Prelude PyStrings.
From Stdlib Require Import Ascii.
From stdpp Require Import base numbers list strings pretty.

Open Scope string_scope.
Open Scope list_scope.

Inductive ast : Type :=
| Lambda (lineno col_offset : Z) (children : list ast)
| ExceptHandler (lineno col_offset : Z) (type : option ast) (body : list ast)
| Name (id : string)
| Pass
| Other (children : list ast).

Record Issue := MkIssue {
  file_path : string;
  line : Z;
  col : Z;
  rule_id : string;
  bug_ref : string;
  msg : string;
  risk : string;
  fix_text : string }.

(** A terminal attribute sequence, and a line end. *)
Definition esc (code : string) : string := String escape ("[" +:+ code +:+ "m").
Definition nl : string := String newline EmptyString.

(** [Issue.format]. *)
Definition format (i : Issue) : string :=
  nl +:+ esc "1;31" +:+ "[ERROR]" +:+ esc "0" +:+ " " +:+ esc "1" +:+ rule_id i +:+ esc "0"
     +:+ " (" +:+ bug_ref i +:+ ")" +:+ nl
  +:+ "  " +:+ esc "36" +:+ "-->" +:+ esc "0" +:+ " " +:+ file_path i +:+ ":"
     +:+ pretty (line i) +:+ ":" +:+ pretty (col i) +:+ nl
  +:+ "  " +:+ esc "1" +:+ "Issue:" +:+ esc "0" +:+ " " +:+ msg i +:+ nl
  +:+ "  " +:+ esc "31" +:+ "Risk:" +:+ esc "0" +:+ "  " +:+ risk i +:+ nl
  +:+ "  " +:+ esc "32" +:+ "Fix:" +:+ esc "0" +:+ "   " +:+ fix_text i +:+ nl.

Section Visitor.
Variable path : string.

Definition lambda_issue (lineno col_offset : Z) : Issue :=
  MkIssue path lineno (col_offset + 1) "TALYN-PY01/NO_LAMBDA"
    "BUG-161, Global Style Mandate"
    "Use of prohibited 'lambda' function expression."
    "Obscures stack traces and violates project readability mandate."
    "Replace lambda with an explicitly named function ('def').".

Definition except_issue (lineno col_offset : Z) : Issue :=
  MkIssue path lineno (col_offset + 1) "TALYN-PY02/NO_SILENT_EXCEPT"
    "BUG-099, BUG-102"
    "Silent 'except ...: pass' block swallows exceptions."
    "Hides critical runtime errors, socket disconnects, and corrupts debugging."
    "Log the exception with 'logger.warning/debug' or re-raise.".

Definition is_broad (type : option ast) : bool :=
  match type with
  | None => true
  | Some (Name id) => bool_decide (id = "Exception") || bool_decide (id = "BaseException")
  | Some _ => false
  end.

Definition is_silent (body : list ast) : bool :=
  match body with [Pass] => true | _ => false end.

(** [visit]: the method of the node's class, [generic_visit] otherwise; the
    issues found so far are threaded through, as [self.issues] is. *)
Fixpoint visit (node : ast) (issues : list Issue) : list Issue :=
  let fix visit_all (nodes : list ast) (issues : list Issue) : list Issue :=
    match nodes with
    | [] => issues
    | n :: nodes' => visit_all nodes' (visit n issues)
    end in
  match node with
  | Lambda lineno col_offset children =>
      visit_all children (issues ++ [lambda_issue lineno col_offset])
  | ExceptHandler lineno col_offset type body =>
      let issues :=
        if is_broad type && is_silent body then
          if negb (startswith path "tests/")
          then issues ++ [except_issue lineno col_offset] else issues
        else issues in
      let issues := match type with Some t => visit t issues | None => issues end in
      visit_all body issues
  | Name _ | Pass => issues
  | Other children => visit_all children issues
  end.

(** ** What it should report *)

Fixpoint subnodes (node : ast) : list ast :=
  let fix all (nodes : list ast) : list ast :=
    match nodes with
    | [] => []
    | n :: nodes' => subnodes n ++ all nodes'
    end in
  node :: match node with
  | Lambda _ _ children | Other children => all children
  | ExceptHandler _ _ type body =>
      match type with Some t => subnodes t | None => [] end ++ all body
  | Name _ | Pass => []
  end.

Definition node_issue (node : ast) : list Issue :=
  match node with
  | Lambda l c _ => [lambda_issue l c]
  | ExceptHandler l c type body =>
      if is_broad type && is_silent body && negb (startswith path "tests/")
      then [except_issue l c] else []
  | _ => []
  end.
End Visitor.

(** ** Files *)

Section Files.
(** Reading and parsing a file, with the exception it raises, and [str] of an
    exception. *)
Variable parse : string -> outcome ast.
Variable str_of : exn -> string.

Definition syntax_issue (path : string) (e : exn) : Issue :=
  MkIssue path 1 1 "TALYN-PY00/SYNTAX_ERROR" "Python Parser"
    ("Failed to parse Python AST: " +:+ str_of e)
    "Code cannot be executed by Python runtime." "Fix syntax error.".

Definition check_file (path : string) : outcome (list Issue) :=
  match parse path with
  | Raise e => if is_Exception e then Ret [syntax_issue path e] else Raise e
  | Ret tree => Ret (visit path tree [])
  end.

(** [os.path.join(root, file)]. *)
Definition path_join (root file : string) : string :=
  if startswith file "/" then file
  else if bool_decide (root = EmptyString) || endswith root "/" then root +:+ file
  else root +:+ "/" +:+ file.

(** The inner two loops of [main]: the file count and the issues so far. *)
Fixpoint check_files (root : string) (files : list string) (total : nat)
    (all_issues : list Issue) : outcome (nat * list Issue) :=
  match files with
  | [] => Ret (total, all_issues)
  | file :: files' =>
      if endswith file ".py" then
        match check_file (path_join root file) with
        | Ret issues => check_files root files' (S total) (all_issues ++ issues)
        | Raise e => Raise e
        end
      else check_files root files' total all_issues
  end.

Fixpoint check_walk (walk : list (string * list string)) (total : nat)
    (all_issues : list Issue) : outcome (nat * list Issue) :=
  match walk with
  | [] => Ret (total, all_issues)
  | (root, files) :: walk' =>
      match check_files root files total all_issues with
      | Ret (total, all_issues) => check_walk walk' total all_issues
      | Raise e => Raise e
      end
  end.

Definition targets : list string := ["talyn"].

(** [main]: the lines printed and the exit status.  [walk] is [os.walk] of a
    target, [None] when it does not exist. *)
Fixpoint check_targets (walk : string -> option (list (string * list string)))
    (ts : list string) (total : nat) (all_issues : list Issue)
    : outcome (nat * list Issue) :=
  match ts with
  | [] => Ret (total, all_issues)
  | t :: ts' =>
      match walk t with
      | None => check_targets walk ts' total all_issues
      | Some w =>
          match check_walk w total all_issues with
          | Ret (total, all_issues) => check_targets walk ts' total all_issues
          | Raise e => Raise e
          end
      end
  end.

Definition main (walk : string -> option (list (string * list string)))
    : outcome (list string * Z) :=
  match check_targets walk targets 0 [] with
  | Raise e => Raise e
  | Ret (total, all_issues) =>
      let printed := format <$> all_issues in
      match all_issues with
      | _ :: _ =>
          Ret (printed ++ [esc "1;31" +:+ "Found " +:+ pretty (length all_issues)
                             +:+ " Python rule violations across " +:+ pretty total
                             +:+ " files." +:+ esc "0"], 1%Z)
      | [] =>
          Ret (printed ++ [esc "1;32" +:+ "[OK] Scanned " +:+ pretty total
                             +:+ " Python source files: 0 violations found." +:+ esc "0"], 0%Z)
      end
  end.
End Files.

(** ** The visitor is exact *)

Section AstInd.
Variable P : ast -> Prop.
Hypothesis HLambda : forall l c children, Forall P children -> P (Lambda l c children).
Hypothesis HExcept : forall l c type body,
  from_option P True type -> Forall P body -> P (ExceptHandler l c type body).
Hypothesis HName : forall id, P (Name id).
Hypothesis HPass : P Pass.
Hypothesis HOther : forall children, Forall P children -> P (Other children).

Fixpoint ast_nested_ind (node : ast) : P node :=
  let fix all (nodes : list ast) : Forall P nodes :=
    match nodes with
    | [] => Forall_nil_2 P
    | n :: nodes' => Forall_cons_2 P n nodes' (ast_nested_ind n) (all nodes')
    end in
  match node with
  | Lambda l c children => HLambda l c children (all children)
  | ExceptHandler l c type body =>
      HExcept l c type body
        (match type return from_option P True type with
         | Some t => ast_nested_ind t
         | None => I
         end) (all body)
  | Name id => HName id
  | Pass => HPass
  | Other children => HOther children (all children)
  end.
End AstInd.

Lemma visit_subnodes path node issues :
  visit path node issues = issues ++ flat_map (node_issue path) (subnodes node).
Proof.
  revert issues.
  assert (Hall : forall nodes, Forall (fun n => forall issues,
            visit path n issues = issues ++ flat_map (node_issue path) (subnodes n)) nodes ->
          forall issues,
            (fix visit_all (nodes : list ast) (issues : list Issue) : list Issue :=
               match nodes with
               | [] => issues
               | n :: nodes' => visit_all nodes' (visit path n issues)
               end) nodes issues
            = issues ++ flat_map (node_issue path)
                          ((fix all (nodes : list ast) : list ast :=
                              match nodes with
                              | [] => []
                              | n :: nodes' => subnodes n ++ all nodes'
                              end) nodes)).
  { induction 1 as [|n nodes Hn _ IH]; intros issues; [now rewrite app_nil_r|].
    rewrite IH, Hn, flat_map_app, <- app_assoc. reflexivity. }
  induction node as [l c children H|l c type body Ht Hb|id| |children H] using ast_nested_ind;
    intros issues; cbn [visit subnodes flat_map node_issue].
  - rewrite (Hall _ H), <- app_assoc. reflexivity.
  - rewrite (Hall _ Hb), flat_map_app.
    destruct type as [t|]; [cbn in Ht; rewrite Ht|]; cbn [flat_map];
      destruct (is_broad _ && is_silent body), (startswith path "tests/");
      cbn [negb andb app]; rewrite <- ?app_assoc; reflexivity.
  - now rewrite app_nil_r.
  - now rewrite app_nil_r.
  - now rewrite (Hall _ H).
Qed.

(** ** The run as a whole *)

(** What a scan of [walk] should find: file by file, in order. *)
Definition file_issues (parse : string -> outcome ast) (str_of : exn -> string)
    (path : string) : list Issue :=
  match parse path with
  | Ret tree => flat_map (node_issue path) (subnodes tree)
  | Raise e => [syntax_issue str_of path e]
  end.

Definition python_files (walk : list (string * list string)) : list string :=
  flat_map (fun d => path_join d.1 <$> filter (fun f => endswith f ".py" = true) d.2) walk.

(** No file makes the reader raise something [except Exception] lets pass. *)
Definition reads (parse : string -> outcome ast) : Prop :=
  forall path e, parse path = Raise e -> is_Exception e = true.

Lemma check_file_spec parse str_of path :
  reads parse -> check_file parse str_of path = Ret (file_issues parse str_of path).
Proof.
  intros H. unfold check_file, file_issues. destruct (parse path) as [tree|e] eqn:E.
  - now rewrite visit_subnodes.
  - now rewrite (H path e E).
Qed.

Lemma check_files_spec parse str_of root files total issues :
  reads parse ->
  check_files parse str_of root files total issues
  = let paths := path_join root <$> filter (fun f => endswith f ".py" = true) files in
    Ret (total + length paths, issues ++ flat_map (file_issues parse str_of) paths).
Proof.
  intros H. revert total issues. induction files as [|f files IH]; intros total issues.
  - cbn. now rewrite app_nil_r, Nat.add_0_r.
  - cbn [check_files]. destruct (endswith f ".py") eqn:Ef.
    + rewrite check_file_spec by exact H. rewrite IH. cbn zeta.
      rewrite filter_cons_True by exact Ef. cbn [fmap list_fmap length flat_map].
      rewrite <- app_assoc. f_equal. f_equal. unfold fmap. lia.
    + rewrite IH. cbn zeta. rewrite filter_cons_False by congruence. reflexivity.
Qed.

Lemma check_walk_spec parse str_of walk total issues :
  reads parse ->
  check_walk parse str_of walk total issues
  = Ret (total + length (python_files walk),
         issues ++ flat_map (file_issues parse str_of) (python_files walk)).
Proof.
  intros H. revert total issues. induction walk as [|[root files] walk IH]; intros total issues.
  - cbn. now rewrite app_nil_r, Nat.add_0_r.
  - cbn [check_walk]. rewrite check_files_spec by exact H. cbn beta iota zeta. rewrite IH.
    unfold python_files. cbn [flat_map fst snd].
    rewrite length_app, flat_map_app, <- app_assoc. f_equal. f_equal. lia.
Qed.

(** C38: the linter does exactly what its two rules say, as long as reading and
    parsing a file raise no more than an [Exception] ([reads]): over the Python
    files below [talyn] it reports, in order, one issue for every lambda and for
    every broad handler whose body is only [pass] (none under [tests/]), one for
    each file that cannot be read or parsed, and nothing else; the exit status is 1
    exactly when there is something to report.  These are the rules the code has:
    the header of the file announces more (other silent handlers, a check of the
    syntax of Python 3.8 to 3.11, the files below [tests]), which no code does; see
    [silent_handlers_missed]. *)
Theorem linter_exact (parse : string -> outcome ast) (str_of : exn -> string)
    (walk : string -> option (list (string * list string))) (Hreads : reads parse) :
  let paths := python_files (default [] (walk "talyn")) in
  let found := flat_map (file_issues parse str_of) paths in
  exists summary,
    main parse str_of walk
    = Ret ((format <$> found) ++ [summary], if bool_decide (found = []) then 0%Z else 1%Z).
Proof.
  cbn zeta. unfold main, targets. cbn [check_targets].
  destruct (walk "talyn") as [w|]; cbn [default from_option]; unfold id.
  - rewrite check_walk_spec by exact Hreads. cbn [app].
    destruct (flat_map _ (python_files w)) as [|i rest]; eexists.
    + rewrite bool_decide_eq_true_2 by reflexivity. reflexivity.
    + rewrite bool_decide_eq_false_2 by discriminate. reflexivity.
  - eexists. reflexivity.
Qed.

Definition demo_tree : ast :=
  Other [Lambda 3 4 [Name "x"];
         ExceptHandler 7 0 (Some (Name "Exception")) [Pass];
         ExceptHandler 9 0 (Some (Name "ValueError")) [Pass];
         ExceptHandler 11 0 None [Other [Lambda 12 8 []]]].

Definition demo_parse (path : string) : outcome ast :=
  if bool_decide (path = "talyn/bad.py") then Raise (OtherException 0) else Ret demo_tree.

Definition demo_walk (t : string) : option (list (string * list string)) :=
  Some [(t, ["a.py"; "bad.py"; "notes.txt"])].

Lemma linter_exact_witness :
  exists summary,
    main demo_parse (fun _ => "oops") demo_walk
    = Ret ((format <$>
              [lambda_issue "talyn/a.py" 3 4; except_issue "talyn/a.py" 7 0;
               lambda_issue "talyn/a.py" 12 8;
               syntax_issue (fun _ => "oops") "talyn/bad.py" (OtherException 0)])
             ++ [summary], 1%Z).
Proof.
  apply (linter_exact demo_parse (fun _ => "oops") demo_walk).
  intros path e. unfold demo_parse. destruct (bool_decide _); [intros [= <-]; reflexivity | discriminate].
Defined.

(** A handler for a narrower class, or a broad one that swallows the exception
    with anything but [pass], is not reported. *)
Lemma silent_handlers_missed path l c id body :
  id <> "Exception" -> id <> "BaseException" ->
  node_issue path (ExceptHandler l c (Some (Name id)) [Pass]) = []
  /\ (body <> [Pass] -> node_issue path (ExceptHandler l c None body) = []).
Proof.
  intros H1 H2. split.
  - cbn. now rewrite !bool_decide_eq_false_2 by assumption.
  - intros Hb. cbn [node_issue is_broad andb].
    destruct (is_silent body) eqn:E; [|reflexivity]. exfalso. apply Hb.
    unfold is_silent in E. repeat case_match; congruence.
Qed.
