(* ===== verification/CveMonitor.v ===== *)
(** * The kernel CVE monitor

    src/scripts/monitor_io_uring_cves.py: the classification of a vulnerability
    by the words of its description, and the table it prints.  The answer of
    the vulnerability database is a parameter, as the decoded JSON: a key that
    may be missing is an option.  Descriptions are ASCII here; the two status
    labels are kept as the Boolean they print. *)

From Stdlib Require Import Ascii.
From stdpp Require Import base numbers list sets strings pretty.
From S2P Require Import Prelude PyStrings.

Open Scope string_scope.
Open Scope list_scope.

(** ** Classification *)

(** [EXCLUSIONS], in order: the whole words a pattern matches and the feature
    it stands for. *)
Definition EXCLUSIONS : list (list string * string) :=
  [(["zcrx"; "zc_rx"], "zcrx (zero-copy RX)");
   (["napi"], "NAPI busy polling");
   (["futex"], "FUTEX operations");
   (["waitid"], "WAITID operations");
   (["msg_ring"], "MSG_RING operations");
   (["pbuf_ring"], "PBUF_RING incremental buffers");
   (["ublk"], "ublk driver");
   (["sqe128"], "128-byte SQE (SQE128/SQE_MIXED)");
   (["fuse"], "libfuse / FUSE daemon integration")].

Definition applicable_keywords : list string :=
  ["read"; "write"; "poll"; "connect"; "accept"; "recv"; "send"; "timeout";
   "cancel"; "teardown"; "setup"].

(** [re.search(pattern, s)]: one of the alternatives, as a whole word. *)
Definition pattern_matches (words : list string) (s : string) : bool :=
  existsb (fun w => search_word w s false) words.

(** The [for pattern, feature in EXCLUSIONS.items()] loop. *)
Fixpoint first_exclusion (es : list (list string * string)) (desc_lower : string)
    : option string :=
  match es with
  | [] => None
  | (words, feature) :: es' =>
      if pattern_matches words desc_lower then Some feature
      else first_exclusion es' desc_lower
  end.

Definition analyze_cve (description : string) : bool * string :=
  let desc_lower := lower description in
  match first_exclusion EXCLUSIONS desc_lower with
  | Some feature => (false, "Not applicable (uses " +:+ feature +:+ ")")
  | None =>
      let matched := filter (fun kw => str_in kw desc_lower = true) applicable_keywords in
      match matched with
      | _ :: _ =>
          (true, "Potentially applicable (mentions: " +:+ join ", " matched +:+ ")")
      | [] => (true, "Potentially applicable (general io_uring context)")
      end
  end.

(** ** The table *)

Record cve_item := MkItem {
  cve_id : option string;
  descriptions : list (option string * option string) }.

(** The first English description, [""] when there is none or it has no text. *)
Fixpoint english (ds : list (option string * option string)) : string :=
  match ds with
  | [] => EmptyString
  | (lang, value) :: ds' =>
      if bool_decide (lang = Some "en") then default EmptyString value else english ds'
  end.

Definition summarize (desc_text : string) : string :=
  let summary := strip (replace_char newline " "%char desc_text) in
  if Nat.ltb 100 (String.length summary) then str_take 97 summary +:+ "..." else summary.

Record row := MkRow {
  row_id : string;
  row_applicable : bool;
  row_reason : string;
  row_summary : string }.

(** The body of the loop of [main]; [None] is [continue]. *)
Definition item_row (item : cve_item) : option row :=
  let desc_text := english (descriptions item) in
  if bool_decide (desc_text = EmptyString) then None
  else
    let '(applicable, reason) := analyze_cve desc_text in
    Some (MkRow (default "Unknown" (cve_id item)) applicable reason (summarize desc_text)).

(** [main]: [None] is [fetch_cves]'s failure or an answer without
    ["vulnerabilities"], for which the exit status is 1; otherwise the number of
    vulnerabilities announced and the rows printed. *)
Definition main (data : option (list cve_item)) : Z + (nat * list row) :=
  match data with
  | None => inl 1%Z
  | Some vulnerabilities => inr (length vulnerabilities, omap item_row vulnerabilities)
  end.

(** ** What a verdict means *)

(** [word] stands in [s] between characters that are not part of a word. *)
Definition mentions (word s : string) : Prop :=
  exists pre post, s = pre +:+ word +:+ post
    /\ ends_word false pre = false /\ starts_word post = false.

Lemma pattern_matches_spec words s :
  pattern_matches words s = true <-> exists w, w ∈ words /\ mentions w s.
Proof.
  unfold pattern_matches. rewrite existsb_exists. split.
  - intros (w & Hin & H). apply list_elem_of_In in Hin. apply search_word_spec in H. eauto.
  - intros (w & Hin & H). exists w. split; [now apply list_elem_of_In|].
    now apply search_word_spec.
Qed.

Lemma first_exclusion_spec es s :
  match first_exclusion es s with
  | Some feature => exists before words after,
      es = before ++ (words, feature) :: after
      /\ (exists w, w ∈ words /\ mentions w s)
      /\ (forall ws f w, (ws, f) ∈ before -> w ∈ ws -> ~ mentions w s)
  | None => forall ws f w, (ws, f) ∈ es -> w ∈ ws -> ~ mentions w s
  end.
Proof.
  induction es as [|[words feature] es IH]; cbn [first_exclusion]; [set_solver|].
  destruct (pattern_matches words s) eqn:E.
  - exists [], words, es. split; [reflexivity|]. split; [now apply pattern_matches_spec|]. set_solver.
  - assert (Hno : forall w, w ∈ words -> ~ mentions w s).
    { intros w Hw Hm. assert (pattern_matches words s = true) as H
        by (apply pattern_matches_spec; eauto). congruence. }
    destruct (first_exclusion es s) as [f|].
    + destruct IH as (before & ws & after & -> & Hw & Hb).
      exists ((words, feature) :: before), ws, after. split; [reflexivity|]. split; [exact Hw|].
      intros ws' f' w Hin. apply elem_of_cons in Hin as [[= -> ->]|Hin]; eauto.
    + intros ws f w Hin. apply elem_of_cons in Hin as [[= -> ->]|Hin]; eauto.
Qed.

(** A vulnerability is called not applicable exactly when its description
    mentions, as a whole word in any letter case, one of the excluded features
    - a description that matches nothing is never dismissed - and the reason
    names the first such feature of the table. *)
Theorem analyze_cve_exact (description : string) :
  ((analyze_cve description).1 = false <->
   exists words feature w,
     (words, feature) ∈ EXCLUSIONS /\ w ∈ words /\ mentions w (lower description))
  /\ ((analyze_cve description).1 = false ->
      exists before words feature after,
        EXCLUSIONS = before ++ (words, feature) :: after
        /\ (analyze_cve description).2 = "Not applicable (uses " +:+ feature +:+ ")"
        /\ (exists w, w ∈ words /\ mentions w (lower description))
        /\ (forall ws f w, (ws, f) ∈ before -> w ∈ ws -> ~ mentions w (lower description))).
Proof.
  pose proof (first_exclusion_spec EXCLUSIONS (lower description)) as H.
  assert (Hin : forall before words (feature : string) after,
    EXCLUSIONS = before ++ (words, feature) :: after -> (words, feature) ∈ EXCLUSIONS).
  { intros before words feature after ->. set_solver. }
  unfold analyze_cve.
  destruct (first_exclusion EXCLUSIONS (lower description)) as [feature|].
  - destruct H as (before & words & after & Heq & (w & Hw & Hm) & Hb). split.
    + split; [intros _ | reflexivity]. exists words, feature, w. eauto.
    + intros _. exists before, words, feature, after. cbn [snd]. eauto 8.
  - split.
    + split; [now destruct (filter _ applicable_keywords)|].
      intros (words & feature & w & Hin' & Hw & Hm). destruct (H _ _ _ Hin' Hw Hm).
    + now destruct (filter _ applicable_keywords).
Qed.

Lemma string_length_app s t : String.length (s +:+ t) = String.length s + String.length t.
Proof. induction s as [|c s IH]; [reflexivity | exact (f_equal S IH)]. Qed.

(** Every row has a text and a summary that fits the column; vulnerabilities
    without an English description have no row. *)
Lemma rows_bounded data n rows :
  main data = inr (n, rows) ->
  length rows <= n /\ Forall (fun r => String.length (row_summary r) <= 100) rows.
Proof.
  unfold main. destruct data as [vs|]; [|discriminate]. intros [= <- <-]. split.
  - induction vs as [|v vs IH]; cbn; [lia|]. destruct (item_row v); cbn; lia.
  - apply Forall_forall. intros r Hr. apply list_elem_of_omap in Hr as (v & _ & Hv).
    unfold item_row in Hv. destruct (bool_decide _); [discriminate|].
    destruct (analyze_cve _) as [a reason]. injection Hv as <-. cbn [row_summary].
    unfold summarize. destruct (Nat.ltb 100 _) eqn:E; [|now apply Nat.ltb_ge in E].
    rewrite string_length_app.
    pose proof (str_take_length 97 (strip (replace_char newline " "%char (english (descriptions v))))).
    cbn [String.length]. lia.
Qed.

Definition example_description : string :=
  "A use-after-free in the io_uring FUTEX code lets a local user send a signal".

Lemma analyze_cve_exact_witness :
  (analyze_cve example_description).1 = false
  /\ analyze_cve "A race in napier poll cancellation"
     = (true, "Potentially applicable (mentions: poll, cancel)").
Proof.
  split; [|vm_compute; reflexivity].
  apply (analyze_cve_exact example_description).
  exists ["futex"], "FUTEX operations", "futex". split; [|split; [now constructor|]].
  - right. right. left.
  - exists "a use-after-free in the io_uring ", " code lets a local user send a signal".
    vm_compute. auto.
Defined.
