(* ===== verification/Build.v ===== *)
(** * The build script

    src/setup.py: the options the Zig build gets, the detection of a cross
    build and the name of the native module, and the commands as sequences of
    actions.

    The environment, the interpreter's configuration and the outcome of every
    external action (a process, a file operation, another command) are
    parameters; an action is recorded when it is attempted. *)

From Stdlib Require Import Ascii.
From stdpp Require Import base numbers list strings pretty.
From S2P Require Import Prelude PyStrings.

Open Scope string_scope.
Open Scope list_scope.

(** ** Options *)

(** What the module reads when it is loaded: environment variables,
    [platform.machine()], [sysconfig] and the GIL flag. *)
Record build_env := BuildEnv {
  TALYN_OPTIMIZE : option string;
  TALYN_TARGET : option string;
  TALYN_CPU : option string;
  TALYN_ASAN : option string;
  TALYN_DEBUG_ALLOC : option string;
  machine : string;
  INCLUDEPY : string;
  LIBDIR : string;
  INSTSONAME : string;
  EXT_SUFFIX : string;
  gil_enabled : bool }.

(** Python's truth of [os.environ.get(...)]. *)
Definition truthy (v : option string) : option string :=
  match v with
  | Some s => if bool_decide (s = EmptyString) then None else Some s
  | None => None
  end.

Definition is_set (v : option string) : bool := bool_decide (truthy v <> None).

(** [target.split("-")[0]]. *)
Definition first_part (target : string) : string := default EmptyString (head (split "-" target)).

Definition zig_mode (e : build_env) : string := default "Debug" (TALYN_OPTIMIZE e).

Definition is_cross_build (e : build_env) : bool :=
  match truthy (TALYN_TARGET e) with
  | None => false
  | Some target =>
      let guest_arch := first_part target in
      let guest_arch :=
        if bool_decide (guest_arch = "arm64") || bool_decide (guest_arch = "aarch64")
        then "aarch64" else guest_arch in
      let host_arch := if bool_decide (machine e = "arm64") then "aarch64" else machine e in
      negb (bool_decide (host_arch = guest_arch))
  end.

Definition zig_compiler_options (e : build_env) : list string :=
  match truthy (TALYN_TARGET e) with Some t => ["-Dtarget=" +:+ t] | None => [] end
  ++ match truthy (TALYN_CPU e) with Some c => ["-Dcpu=" +:+ c] | None => [] end
  ++ ["-Dpython-include-dir=" +:+ INCLUDEPY e]
  ++ (if is_cross_build e then []
      else ["-Dpython-lib-dir=" +:+ LIBDIR e;
            "-Dpython-lib=" +:+ LIBDIR e +:+ "/" +:+ INSTSONAME e])
  ++ (if gil_enabled e then [] else ["-Dpython-gil-disabled"])
  ++ (if is_set (TALYN_ASAN e) then ["-Dasan"] else [])
  ++ (if is_set (TALYN_DEBUG_ALLOC e) then ["-Ddebug-alloc"] else []).

Definition normalize_machine (m : string) : string :=
  if bool_decide (m = "arm64") || bool_decide (m = "aarch64") then "aarch64" else m.

(** [None] is the failed assertion [zig_target is not None]. *)
Definition cross_ext_suffix (e : build_env) (ext_suffix : string) : option string :=
  match TALYN_TARGET e with
  | None => None
  | Some zig_target =>
      let host_machine := normalize_machine (machine e) in
      let guest_machine := normalize_machine (first_part zig_target) in
      Some (if bool_decide (host_machine = guest_machine) then ext_suffix
            else replace_first host_machine guest_machine ext_suffix)
  end.

(** ** Commands *)

Inductive action : Type :=
| ZigBuildTest (options : list string)
| ZigBuildInstall (options : list string)
| RunCommand (name : string)
| SuperRun
| CopyTree (src dst : string)
| CopyFile (src dst : string)
| MakeDirs (path : string)
| Chmod (path : string) (mode : N)
| Call (args : list string) (cwd : string)
| RemoveTree (path : string)
| RemoveFile (path : string).

(** The actions attempted so far, the value of the global [zig_mode], and what
    the [SystemExit] of a command carries. *)
Record build_state := BuildState {
  done_actions : list action;
  mode : string;
  exit_status : option Z }.

Definition B (A : Type) : Type := PyM build_state A.

Definition record (l : list action) (s : build_state) : build_state :=
  BuildState (done_actions s ++ l) (mode s) (exit_status s).

(** [SystemExit] is a [BaseException]; the other is [AssertionError]. *)
Definition SystemExit : exn := OtherBaseException 0.
Definition AssertionError : exn := OtherException 0.

Section Commands.
Variable e : build_env.
(** The exception an action ends with, if any, and the exit status of a
    [subprocess.call]. *)
Variable fails : action -> option exn.
Variable status : list string -> Z.
(** [os.stat(path).st_mode]. *)
Variable st_mode : string -> N.
(** [sys.executable], and the [build_lib] option of the build commands. *)
Variable executable : string.
Variable build_lib : string.

Definition act (a : action) : B unit :=
  fun s => match fails a with
           | Some ex => (Raise ex, record [a] s)
           | None => (Ret tt, record [a] s)
           end.

Definition system_exit (errno : Z) : B unit :=
  modify (fun s => BuildState (done_actions s) (mode s) (Some errno)) ;;;
  raise SystemExit.

Definition src_path : string := "./zig-out/lib/libtalyn.so".

(** The suffix [copy_zig_files] uses; [None] is the failed assertion. *)
Definition module_suffix : option string :=
  if is_cross_build e then cross_ext_suffix e (EXT_SUFFIX e) else Some (EXT_SUFFIX e).

Definition module_dir : string := build_lib +:+ "/talyn".
Definition module_path (suffix : string) : string :=
  module_dir +:+ "/talyn_zig" +:+ suffix.

(** [S_IXUSR | S_IXGRP | S_IXOTH]. *)
Definition executable_bits : N := N.lor (N.lor 64 8) 1.

Definition copy_zig_files : B unit :=
  match module_suffix with
  | None => raise AssertionError
  | Some ext_suffix =>
      let dest_path := module_path ext_suffix in
      act (MakeDirs module_dir) ;;;
      act (CopyFile src_path dest_path) ;;;
      act (Chmod dest_path (N.lor (st_mode dest_path) executable_bits))
  end.

Definition ZigBuildExtCommand_run : B unit :=
  zig_mode <- gets mode ;;
  act (ZigBuildInstall (("-Doptimize=" +:+ zig_mode) :: zig_compiler_options e)) ;;;
  copy_zig_files.

Definition tests_path : string := build_lib +:+ "/tests".

(** [ZigBuildCommand.run]; [build_ext] is this file's own, [build_py] is
    setuptools'. *)
Definition ZigBuildCommand_run : B unit :=
  act (RunCommand "build_py") ;;;
  act (CopyTree "./tests" tests_path) ;;;
  ZigBuildExtCommand_run.

Definition ZigDevelopCommand_run : B unit :=
  ZigBuildCommand_run ;;;
  act SuperRun.

Definition build_lib_path : string := "build/lib".
Definition benchmarks_path : string := "build/lib/benchmarks".
Definition benchmark_py_path : string := "build/lib/benchmark.py".
Definition bench_args : list string := [executable; "benchmark.py"].

Definition TalynBench_run : B unit :=
  modify (fun s => BuildState (done_actions s) "ReleaseFast" (exit_status s)) ;;;
  ZigBuildCommand_run ;;;
  act (CopyTree "./benchmarks" benchmarks_path) ;;;
  act (CopyFile "./benchmark.py" benchmark_py_path) ;;;
  act (Call bench_args build_lib_path) ;;;
  act (RemoveTree benchmarks_path) ;;;
  act (RemoveFile benchmark_py_path) ;;;
  system_exit (status bench_args).

Definition pytest_args : list string :=
  [executable; "-m"; "pytest"; "-s"; "-x"; "--verbose"; "--full-trace"; "--cov=talyn";
   "--cov-report=term"; "--cov-report=html"; "--cov-config=.coveragerc"].

Definition TalynTest_run : B unit :=
  act (ZigBuildTest (zig_compiler_options e)) ;;;
  ZigBuildCommand_run ;;;
  act (Call pytest_args build_lib_path) ;;;
  system_exit (status pytest_args).

(** ** Plans

    A command is a straight list of actions: the ones it attempts are those up
    to and including the first that fails, whose exception is its outcome. *)

Fixpoint attempt (l : list action) : list action * option exn :=
  match l with
  | [] => ([], None)
  | a :: l' =>
      match fails a with
      | Some ex => ([a], Some ex)
      | None => let '(d, r) := attempt l' in (a :: d, r)
      end
  end.

Definition outcome_of (r : option exn) : outcome unit :=
  match r with Some ex => Raise ex | None => Ret tt end.

(** [m], with the global [zig_mode] at [md], carries out the plan [l]. *)
Definition carries_out (md : string) (m : B unit) (l : list action) : Prop :=
  forall s, mode s = md -> m s = (outcome_of (attempt l).2, record (attempt l).1 s).

Lemma record_app l1 l2 s : record l2 (record l1 s) = record (l1 ++ l2) s.
Proof. unfold record. cbn. now rewrite app_assoc. Qed.

Lemma attempt_app l1 l2 :
  attempt (l1 ++ l2) =
  match (attempt l1).2 with
  | Some _ => attempt l1
  | None => ((attempt l1).1 ++ (attempt l2).1, (attempt l2).2)
  end.
Proof.
  induction l1 as [|a l1 IH]; cbn [attempt app]; [now destruct (attempt l2)|].
  destruct (fails a); [reflexivity|]. rewrite IH.
  now destruct (attempt l1) as [d1 [x|]].
Qed.

Lemma act_carries_out md a : carries_out md (act a) [a].
Proof. intros s _. unfold act. cbn. now destruct (fails a). Qed.

Lemma seq_carries_out md m1 m2 l1 l2 :
  carries_out md m1 l1 -> carries_out md m2 l2 ->
  carries_out md (m1 ;;; m2) (l1 ++ l2).
Proof.
  intros H1 H2 s Hs. unfold bind. rewrite (H1 s Hs), attempt_app.
  destruct (attempt l1) as [d1 [x|]]; cbn [fst snd outcome_of]; [reflexivity|].
  rewrite (H2 (record d1 s) Hs). now rewrite record_app.
Qed.

Definition ext_plan (md suffix : string) : list action :=
  [ZigBuildInstall (("-Doptimize=" +:+ md) :: zig_compiler_options e);
   MakeDirs module_dir;
   CopyFile src_path (module_path suffix);
   Chmod (module_path suffix) (N.lor (st_mode (module_path suffix)) executable_bits)].

Definition build_plan (md suffix : string) : list action :=
  [RunCommand "build_py"; CopyTree "./tests" tests_path] ++ ext_plan md suffix.

Lemma ext_carries_out md suffix :
  module_suffix = Some suffix ->
  carries_out md ZigBuildExtCommand_run (ext_plan md suffix).
Proof.
  intros Hs s Hmd. unfold ZigBuildExtCommand_run, gets, bind at 1.
  revert s Hmd. enough (carries_out md
    (act (ZigBuildInstall (("-Doptimize=" +:+ md) :: zig_compiler_options e)) ;;;
     copy_zig_files) (ext_plan md suffix)) as H.
  { intros s Hmd. rewrite Hmd. now apply H. }
  unfold copy_zig_files, ext_plan. rewrite Hs.
  apply (seq_carries_out _ _ _ [_] [_; _; _]), (seq_carries_out _ _ _ [_] [_; _]),
    (seq_carries_out _ _ _ [_] [_]); apply act_carries_out.
Qed.

Lemma build_carries_out md suffix :
  module_suffix = Some suffix ->
  carries_out md ZigBuildCommand_run (build_plan md suffix).
Proof.
  intros Hs. unfold ZigBuildCommand_run, build_plan.
  apply (seq_carries_out _ _ _ [_] (_ :: ext_plan md suffix)), (seq_carries_out _ _ _ [_] _);
    auto using act_carries_out, ext_carries_out.
Qed.

(** [develop] builds, then does what setuptools' own command does. *)
Lemma develop_carries_out md suffix :
  module_suffix = Some suffix ->
  carries_out md ZigDevelopCommand_run (build_plan md suffix ++ [SuperRun]).
Proof. intros Hs. apply seq_carries_out; auto using build_carries_out, act_carries_out. Qed.

Definition bench_plan (suffix : string) : list action :=
  build_plan "ReleaseFast" suffix ++
  [CopyTree "./benchmarks" benchmarks_path; CopyFile "./benchmark.py" benchmark_py_path;
   Call bench_args build_lib_path; RemoveTree benchmarks_path; RemoveFile benchmark_py_path].

Definition test_plan (md suffix : string) : list action :=
  ZigBuildTest (zig_compiler_options e) :: build_plan md suffix ++ [Call pytest_args build_lib_path].

(** A plan followed by [SystemExit]. *)
Definition exits (m : B unit) (l : list action) (code : Z) (s : build_state) : Prop :=
  (m s).1 = Raise (default SystemExit (attempt l).2)
  /\ done_actions (m s).2 = done_actions s ++ (attempt l).1
  /\ exit_status (m s).2 = match (attempt l).2 with None => Some code | _ => exit_status s end.

Lemma system_exit_exits code s : exits (system_exit code) [] code s.
Proof. unfold exits. cbn. now rewrite app_nil_r. Qed.

Lemma seq_exits md m1 m2 l1 l2 code s :
  mode s = md -> carries_out md m1 l1 ->
  (forall s', mode s' = md -> exits m2 l2 code s') ->
  exits (m1 ;;; m2) (l1 ++ l2) code s.
Proof.
  intros Hmd H1 H2. unfold exits, bind. rewrite (H1 s Hmd), attempt_app.
  destruct (attempt l1) as [d1 [x|]]; cbn [fst snd outcome_of]; [cbn; auto|].
  destruct (H2 (record d1 s) Hmd) as (Ho & Hd & He). rewrite Ho, Hd, He.
  cbn [record done_actions exit_status]. now rewrite app_assoc.
Qed.

Lemma act_exits md a m l code s :
  mode s = md -> (forall s', mode s' = md -> exits m l code s') ->
  exits (act a ;;; m) (a :: l) code s.
Proof. intros Hmd. exact (seq_exits md _ _ [a] l code s Hmd (act_carries_out md a)). Qed.

(** [setup.py test]: the Zig tests, the build, then pytest's status. *)
Lemma test_exits md suffix s :
  module_suffix = Some suffix -> mode s = md ->
  exits TalynTest_run (test_plan md suffix) (status pytest_args) s.
Proof.
  intros Hs Hmd. apply (act_exits md); [exact Hmd | intros s1 Hs1].
  apply (seq_exits md); [exact Hs1 | now apply build_carries_out | intros s2 Hs2].
  apply (act_exits md); [exact Hs2 | intros s3 _]. apply system_exit_exits.
Qed.

(** What [TalynBench.run] does once it has set [zig_mode]. *)
Lemma bench_rest_exits suffix s :
  module_suffix = Some suffix -> mode s = "ReleaseFast" ->
  exits (ZigBuildCommand_run ;;;
         act (CopyTree "./benchmarks" benchmarks_path) ;;;
         act (CopyFile "./benchmark.py" benchmark_py_path) ;;;
         act (Call bench_args build_lib_path) ;;;
         act (RemoveTree benchmarks_path) ;;;
         act (RemoveFile benchmark_py_path) ;;;
         system_exit (status bench_args)) (bench_plan suffix) (status bench_args) s.
Proof.
  intros Hs Hmd.
  apply (seq_exits "ReleaseFast"); [exact Hmd | now apply build_carries_out | intros s1 Hs1].
  revert s1 Hs1. do 5 (intros; apply (act_exits "ReleaseFast"); [assumption|]).
  intros. apply system_exit_exits.
Qed.

Lemma bench_exits suffix s :
  module_suffix = Some suffix ->
  exits TalynBench_run (bench_plan suffix) (status bench_args) s.
Proof.
  intros Hs.
  exact (bench_rest_exits suffix
    (BuildState (done_actions s) "ReleaseFast" (exit_status s)) Hs eq_refl).
Qed.
End Commands.

(** [BinaryDistribution.has_ext_modules]. *)
Definition has_ext_modules : bool := true.

(** ** Results *)

Lemma is_cross_build_alt e :
  is_cross_build e =
  match truthy (TALYN_TARGET e) with
  | None => false
  | Some t => negb (bool_decide (normalize_machine (machine e) = normalize_machine (first_part t)))
  end.
Proof.
  unfold is_cross_build, normalize_machine. destruct (truthy _) as [t|]; [|reflexivity].
  f_equal. apply bool_decide_ext.
  destruct (decide (machine e = "arm64")) as [->|Hne]; [reflexivity|].
  rewrite (bool_decide_eq_false_2 _ Hne). cbn [orb].
  destruct (decide (machine e = "aarch64")) as [Ha|Ha].
  - now rewrite (bool_decide_eq_true_2 _ Ha), Ha.
  - now rewrite (bool_decide_eq_false_2 _ Ha).
Qed.

Lemma truthy_Some v s : truthy v = Some s -> v = Some s.
Proof. unfold truthy. destruct v as [t|]; [|discriminate]. now case_bool_decide. Qed.

(** The assertion of [cross_ext_suffix] never fails. *)
Lemma module_suffix_defined e : exists suffix, module_suffix e = Some suffix.
Proof.
  unfold module_suffix. rewrite is_cross_build_alt.
  destruct (truthy (TALYN_TARGET e)) as [t|] eqn:E; [|eauto].
  destruct (negb _); [|eauto]. unfold cross_ext_suffix. rewrite (truthy_Some _ _ E). eauto.
Qed.

(** A build for the interpreter's own machine keeps the interpreter's
    suffix for the module and links the interpreter's library; a build for
    another machine passes no library option, and puts the target's machine
    name where the suffix has the host's, so the module never carries the
    host's name at that place. *)
Theorem cross_build_suffix (e : build_env) :
  (is_cross_build e = false ->
     module_suffix e = Some (EXT_SUFFIX e)
     /\ ("-Dpython-lib-dir=" +:+ LIBDIR e) ∈ zig_compiler_options e
     /\ ("-Dpython-lib=" +:+ LIBDIR e +:+ "/" +:+ INSTSONAME e) ∈ zig_compiler_options e)
  /\ (is_cross_build e = true ->
     (forall o, o ∈ zig_compiler_options e -> startswith o "-Dpython-lib" = false)
     /\ exists target host guest,
          TALYN_TARGET e = Some target
          /\ host = normalize_machine (machine e)
          /\ guest = normalize_machine (first_part target)
          /\ host <> guest
          /\ (str_in host (EXT_SUFFIX e) = true -> exists pre post,
                EXT_SUFFIX e = pre +:+ host +:+ post
                /\ module_suffix e = Some (pre +:+ guest +:+ post))
          /\ (str_in host (EXT_SUFFIX e) = false -> module_suffix e = Some (EXT_SUFFIX e))).
Proof.
  split; intros Hc.
  - unfold module_suffix, zig_compiler_options. rewrite Hc. split; [reflexivity|].
    split; repeat (apply elem_of_app; first [left; repeat constructor; fail | right]);
      apply elem_of_app; left; apply list_elem_of_In; cbn; auto.
  - split.
    + unfold zig_compiler_options. rewrite Hc. intros o Ho.
      destruct (truthy (TALYN_TARGET e)), (truthy (TALYN_CPU e)), (gil_enabled e),
        (is_set (TALYN_ASAN e)), (is_set (TALYN_DEBUG_ALLOC e)); cbn [app] in Ho;
        repeat (apply elem_of_cons in Ho as [->|Ho]; [reflexivity|]);
        now apply not_elem_of_nil in Ho.
    + unfold module_suffix. rewrite Hc. pose proof Hc as Hd. rewrite is_cross_build_alt in Hd.
      destruct (truthy (TALYN_TARGET e)) as [t|] eqn:E; [|discriminate].
      apply negb_true_iff, bool_decide_eq_false in Hd.
      exists t, (normalize_machine (machine e)), (normalize_machine (first_part t)).
      apply truthy_Some in E. unfold cross_ext_suffix. rewrite E, (bool_decide_eq_false_2 _ Hd).
      repeat split; try reflexivity; [exact Hd| |]; intros Hin.
      * destruct (replace_first_present _ (normalize_machine (first_part t)) _ Hin)
          as (pre & post & Heq & ->). eauto.
      * now rewrite replace_first_absent.
Qed.

(** A free-threaded x86-64 interpreter, building for [target]. *)
Definition example_env (target : option string) : build_env :=
  BuildEnv None target None None None "x86_64" "/usr/include" "/usr/lib" "libpython3.14t.so"
    ".cpython-314t-x86_64-linux-gnu.so" false.

Lemma cross_build_suffix_witness :
  module_suffix (example_env (Some "arm64-linux-gnu")) = Some ".cpython-314t-aarch64-linux-gnu.so"
  /\ module_suffix (example_env None) = Some ".cpython-314t-x86_64-linux-gnu.so"
  /\ "-Dpython-lib-dir=/usr/lib" ∈ zig_compiler_options (example_env None)
  /\ exists pre post, EXT_SUFFIX (example_env (Some "arm64-linux-gnu")) = pre +:+ "x86_64" +:+ post
       /\ module_suffix (example_env (Some "arm64-linux-gnu")) = Some (pre +:+ "aarch64" +:+ post).
Proof.
  split; [vm_compute; reflexivity|]. split; [vm_compute; reflexivity|]. split.
  - exact (proj1 (proj2 (proj1 (cross_build_suffix (example_env None)) eq_refl))).
  - destruct (proj2 (proj2 (cross_build_suffix (example_env (Some "arm64-linux-gnu"))) eq_refl))
      as (t & h & g & Ht & Hh & Hg & _ & H & _).
    injection Ht as <-. subst h g. apply H. vm_compute. reflexivity.
Defined.

(** The target [native] names no machine: it is taken for a foreign one, and
    the module gets a suffix no interpreter looks for. *)
Lemma native_target_is_cross :
  is_cross_build (example_env (Some "native")) = true
  /\ module_suffix (example_env (Some "native")) = Some ".cpython-314t-native-linux-gnu.so".
Proof. split; vm_compute; reflexivity. Qed.

(** [setup.py bench] builds with [-Doptimize=ReleaseFast] whatever
    [TALYN_OPTIMIZE] says, runs the benchmark on the built tree, removes what it
    copied there and exits with the benchmark's status; it attempts the steps
    of that plan in order, stops at the first one that fails with its
    exception, and runs to the end when none fails. *)
Theorem bench_command_plan (e : build_env) fails status st_mode executable build_lib s :
  exists suffix, module_suffix e = Some suffix
    /\ exits fails (TalynBench_run e fails status st_mode executable build_lib)
         (bench_plan e st_mode executable build_lib suffix)
         (status (bench_args executable)) s
    /\ ZigBuildInstall ("-Doptimize=ReleaseFast" :: zig_compiler_options e)
         ∈ bench_plan e st_mode executable build_lib suffix
    /\ ((forall a, fails a = None) ->
        attempt fails (bench_plan e st_mode executable build_lib suffix)
        = (bench_plan e st_mode executable build_lib suffix, None)).
Proof.
  destruct (module_suffix_defined e) as [suffix Hs]. exists suffix. split; [exact Hs|].
  split; [now apply bench_exits|]. split; [apply list_elem_of_In; cbn; auto|].
  intros Hf. generalize (bench_plan e st_mode executable build_lib suffix) as l.
  induction l as [|a l IH]; cbn [attempt]; [reflexivity|]. now rewrite Hf, IH.
Qed.

(** The disk is full when the benchmarks are copied. *)
Definition example_copy_fails (a : action) : option exn :=
  match a with
  | CopyTree src _ => if String.eqb src "./benchmarks" then Some (OSError 28) else None
  | _ => None
  end.

Definition example_bench (fails : action -> option exn) : outcome unit * build_state :=
  TalynBench_run (example_env None) fails (fun _ => (-11)%Z) (fun _ => 420%N) "/usr/bin/python3"
    "build/lib" (BuildState [] "Debug" None).

Lemma bench_command_plan_witness :
  (example_bench (fun _ => None)).1 = Raise SystemExit
  /\ exit_status (example_bench (fun _ => None)).2 = Some (-11)%Z
  /\ (example_bench example_copy_fails).1 = Raise (OSError 28)
  /\ length (done_actions (example_bench example_copy_fails).2) = 7.
Proof.
  destruct (bench_command_plan (example_env None) (fun _ => None) (fun _ => (-11)%Z)
    (fun _ => 420%N) "/usr/bin/python3" "build/lib" (BuildState [] "Debug" None))
    as (suffix & Hs & (Ho & _ & He) & _ & Hall).
  rewrite (Hall (fun _ => eq_refl)) in Ho, He.
  destruct (bench_command_plan (example_env None) example_copy_fails (fun _ => (-11)%Z)
    (fun _ => 420%N) "/usr/bin/python3" "build/lib" (BuildState [] "Debug" None))
    as (suffix' & Hs' & (Ho' & Hd' & _) & _).
  injection Hs' as <-.
  split; [exact Ho|]. split; [exact He|]. split; [exact Ho'|].
  unfold example_bench. rewrite Hd'. vm_compute. reflexivity.
Defined.
