(* ===== verification/Bench.v ===== *)
(** * The benchmark driver

    src/benchmark.py: the script a measurement runs, the sizes measured for
    each event loop with the temporary file of every run, the comparison table,
    the plot and the selection of benchmarks on the command line.

    Times are floating-point numbers of the interpreter: their type, their
    arithmetic and the [statistics] functions are parameters, and so are
    [json.loads], the names [tempfile] makes and what a subprocess does.
    Drawing is the record of what is drawn; what is printed besides the tables
    is left out. *)

From Stdlib Require Import Ascii.
From stdpp Require Import base numbers list sets gmap strings pretty.
From S2P Require Import Prelude PyStrings.

Open Scope string_scope.
Open Scope list_scope.

(** ** Constants and loops *)

Definition N_SIZES : nat := 7.
Definition ITERATIONS : nat := 3.
Definition M_INITIAL : N := 1024.
Definition M_MULTIPLIER : N := 2.

(** A loop's name and the expression that makes it. *)
Definition loop_entry : Type := string * string.

Definition LOOPS (HAS_UVLOOP : bool) (argv : list string) : list loop_entry :=
  [("asyncio", "asyncio.new_event_loop()")]
  ++ (if HAS_UVLOOP && negb (bool_decide ("--without-uvloop" ∈ argv))
      then [("uvloop", "uvloop.new_event_loop()")] else [])
  ++ [("talyn", "talyn.Loop()")].

Definition line (s : string) : string := s +:+ String newline EmptyString.

(** A string literal in double quotes. *)
Definition quoted (s : string) : string := String "034" (s +:+ String "034" EmptyString).

Definition make_script (modname : string) (m : N) (loop_type : string) : string :=
  let imports := "import asyncio, sys, json, time, os" in
  let imports := if str_in "talyn" loop_type then imports +:+ ", talyn" else imports in
  let imports := if str_in "uvloop" loop_type then imports +:+ ", uvloop" else imports in
  line imports
  +:+ line "sys.path.insert(0, os.path.abspath('.'))"
  +:+ line "from importlib import import_module"
  +:+ line ("mod = import_module(" +:+ quoted modname +:+ ")")
  +:+ line ("loop = " +:+ loop_type)
  +:+ line "asyncio.set_event_loop(loop)"
  +:+ line "results = []"
  +:+ line ("m = " +:+ pretty m)
  +:+ line ("for _ in range(" +:+ pretty ITERATIONS +:+ "):")
  +:+ line "    start = time.perf_counter()"
  +:+ line "    mod.BENCHMARK.function(loop, m)"
  +:+ line "    end = time.perf_counter()"
  +:+ line "    results.append(end - start)"
  +:+ line "try:"
  +:+ line "    loop.run_until_complete(asyncio.wait_for(loop.shutdown_asyncgens(), timeout=5))"
  +:+ line "except Exception:"
  +:+ line "    pass"
  +:+ line "loop.close()"
  +:+ line "print(json.dumps(results), flush=True)".

(** [s.splitlines()[-1]] for a stripped [s]: [None] is the [IndexError] of an
    empty one. *)
Definition line_break (c : ascii) : bool :=
  let n := nat_of_ascii c in
  (Nat.leb 10 n && Nat.leb n 13) || (Nat.leb 28 n && Nat.leb n 30).

Fixpoint after_last_break (acc s : string) : string :=
  match s with
  | EmptyString => acc
  | String c s' =>
      if line_break c then after_last_break EmptyString s'
      else after_last_break (acc +:+ String c EmptyString) s'
  end.

Definition last_line (s : string) : option string :=
  if bool_decide (s = EmptyString) then None else Some (after_last_break EmptyString s).

(** ** Measuring *)

(** What [subprocess.run] does. *)
Inductive run_result : Type :=
| Completed (returncode : Z) (stdout : string)
| Expired
| RunRaises (ex : exn).

(** The temporary files present, and how many have been made. *)
Record bench_state := BenchState {
  files : gset string;
  made : nat }.

Definition Bench (A : Type) : Type := PyM bench_state A.

Definition IndexError : exn := OtherException 1.

Section Measure.
Context {T : Type}.
Variable run : nat -> string -> run_result.
Variable loads : string -> exn + list T.
Variable tmpname : nat -> string.

(** A loop's measurements by size; [None] when one failed. *)
Definition loop_results : Type := option (list (N * list T)).

Definition make_tmp : Bench nat :=
  fun s => (Ret (made s), BenchState ({[tmpname (made s)]} ∪ files s) (S (made s))).

Definition unlink (path : string) : Bench unit :=
  modify (fun s => BenchState (files s ∖ {[path]}) (made s)).

(** The [try] body: [None] is a [break] with [failed] set. *)
Definition measure (k : nat) (script : string) : Bench (option (list T)) :=
  match run k script with
  | RunRaises ex => raise ex
  | Expired => ret None
  | Completed returncode stdout =>
      if Z.eqb returncode 0 then
        match last_line (strip stdout) with
        | None => raise IndexError
        | Some l =>
            match loads l with
            | inl ex => raise ex
            | inr times => ret (Some times)
            end
        end
      else ret None
  end.

(** The [while] loop over the sizes; [None] is [failed]. *)
Fixpoint measure_sizes (fuel : nat) (modname loop_type : string) (m : N)
    (all_times : list (N * list T)) : Bench (loop_results) :=
  match fuel with
  | 0 => raise Diverges
  | S fuel' =>
      if N.leb m (M_INITIAL * 2 ^ N.of_nat (N_SIZES - 1)) then
        let script := make_script modname m loop_type in
        k <- make_tmp ;;
        r <- try_finally (measure k script) (unlink (tmpname k)) ;;
        match r with
        | None => ret None
        | Some times =>
            measure_sizes fuel' modname loop_type (m * M_MULTIPLIER)%N (all_times ++ [(m, times)])
        end
      else ret (Some all_times)
  end.

(** Enough iterations for the sizes of one loop. *)
Definition sizes_fuel : nat := S N_SIZES.

Definition results_map : Type := gmap string loop_results.

Fixpoint benchmark_loops (loops : list loop_entry) (modname : string) (results : results_map)
    : Bench results_map :=
  match loops with
  | [] => ret results
  | (loop_name, loop_type) :: loops' =>
      r <- measure_sizes sizes_fuel modname loop_type M_INITIAL [] ;;
      benchmark_loops loops' modname (<[loop_name := r]> results)
  end.

Definition benchmark_with_event_loops (loops : list loop_entry) (modname : string)
    : Bench results_map :=
  benchmark_loops loops modname ∅.

(** ** The table *)

Variable ltb : T -> T -> bool.
Variable sub div : T -> T -> T.
Variable zero inf : T.
Variable mean stdev : list T -> T.

Definition min_of (x : T) (l : list T) : T :=
  fold_left (fun a b => if ltb b a then b else a) l x.
Definition max_of (x : T) (l : list T) : T :=
  fold_left (fun a b => if ltb a b then b else a) l x.

(** A row after the loop's name and size: ["N/A"] six times, or the figures,
    with no difference to a baseline that has no such entry. *)
Inductive row_data : Type :=
| NotAvailable
| Figures (mn mx avg std : T) (against : option (T * T)).

Record table_row := TableRow {
  row_loop : string;
  row_m : N;
  row_figures : row_data }.

Definition StatisticsError : exn := OtherException 2.

(** The rows of one loop's results, from entry [i] on. *)
Fixpoint figure_rows (loop_name : string) (base_results : list (N * list T)) (i : nat)
    (entries : list (N * list T)) : exn + list table_row :=
  match entries with
  | [] => inr []
  | (m, []) :: entries' => figure_rows loop_name base_results (S i) entries'
  | (m, (x :: l) as times) :: entries' =>
      let avg := mean times in
      let std := if Nat.ltb 1 (length times) then stdev times else zero in
      let against :=
        match base_results !! i with
        | None => inr None
        | Some (_, []) => inl StatisticsError
        | Some (_, base_times) =>
            let base_avg := mean base_times in
            inr (Some (sub avg base_avg,
                       if ltb zero avg then div base_avg avg else inf))
        end in
      match against with
      | inl ex => inl ex
      | inr a =>
          match figure_rows loop_name base_results (S i) entries' with
          | inl ex => inl ex
          | inr rows =>
              inr (TableRow loop_name m (Figures (min_of x l) (max_of x l) avg std a) :: rows)
          end
      end
  end.

(** [results.get(name)]: [None] for a missing key as for a failed loop. *)
Definition get_results (results : results_map) (name : string) : loop_results :=
  mjoin (results !! name).

Fixpoint table_rows (loops : list loop_entry) (base_results : list (N * list T))
    (results : results_map) : exn + list table_row :=
  match loops with
  | [] => inr []
  | (loop_name, _) :: loops' =>
      let rows :=
        match get_results results loop_name with
        | None => inr (map (fun e => TableRow loop_name e.1 NotAvailable) base_results)
        | Some entries => figure_rows loop_name base_results 0 entries
        end in
      match rows with
      | inl ex => inl ex
      | inr l =>
          match table_rows loops' base_results results with
          | inl ex => inl ex
          | inr l' => inr (l ++ l')
          end
      end
  end.

Definition base_name (loops : list loop_entry) : string :=
  match loops with (n, _) :: _ => n | [] => EmptyString end.

(** [None] is the text [No results]. *)
Definition create_comparison_table (loops : list loop_entry) (results : results_map)
    : exn + option (list table_row) :=
  if bool_decide (results = ∅) then inr None
  else
    let base_results := default [] (get_results results (base_name loops)) in
    match table_rows loops base_results results with
    | inl ex => inl ex
    | inr rows => inr (Some rows)
    end.

(** ** The plot *)

Record series := Series {
  label : string;
  xs : list N;
  ys : list T;
  lows : list T;
  highs : list T }.

Definition time_min (times : list T) : T :=
  match times with x :: l => min_of x l | [] => zero end.
Definition time_max (times : list T) : T :=
  match times with x :: l => max_of x l | [] => zero end.

(** One loop's error bars; the mean of no times is an error. *)
Definition one_series (loop_name : string) (entries : list (N * list T)) : exn + series :=
  if existsb (fun e => bool_decide (length e.2 = 0)) entries then inl StatisticsError
  else inr (Series loop_name (map fst entries) (map (fun e => mean e.2) entries)
              (map (fun e => sub (mean e.2) (time_min e.2)) entries)
              (map (fun e => sub (time_max e.2) (mean e.2)) entries)).

Fixpoint plot_series (loops : list loop_entry) (results : results_map) : exn + list series :=
  match loops with
  | [] => inr []
  | (loop_name, _) :: loops' =>
      match get_results results loop_name with
      | None => plot_series loops' results
      | Some entries =>
          match one_series loop_name entries with
          | inl ex => inl ex
          | inr s =>
              match plot_series loops' results with
              | inl ex => inl ex
              | inr l => inr (s :: l)
              end
          end
      end
  end.

Definition safe_name (name : string) : string :=
  lower (replace_char "-"%char "_"%char (replace_char " "%char "_"%char name)).

(** The figure's title, its series and the file it is saved to; [None] when
    there is nothing to plot. *)
Definition plot_results (loops : list loop_entry) (results : results_map) (name : string)
    : exn + option (string * list series * string) :=
  match plot_series loops results with
  | inl ex => inl ex
  | inr [] => inr None
  | inr l =>
      inr (Some ("Benchmark: " +:+ name, l,
                 "benchmarks/output/benchmark_" +:+ safe_name name +:+ ".png"))
  end.

(** ** The command line *)

(** [arg.split("=", 1)[1]] of an argument that starts with [--bench=]. *)
Definition bench_value (arg : string) : string := str_drop 8 arg.

Fixpoint selected_names (argv : list string) : option (list string) :=
  match argv with
  | [] => None
  | arg :: argv' =>
      if startswith arg "--bench="
      then Some (map (fun name => lower (strip name)) (split ","%char (bench_value arg)))
      else selected_names argv'
  end.

(** A benchmark's name and the module its function is defined in. *)
Definition benchmark : Type := string * string.

Definition skipped (selected : option (list string)) (bname : string) : bool :=
  match selected with
  | Some names => negb (bool_decide (lower bname ∈ names))
  | None => false
  end.

Definition report : Type :=
  string * option (list table_row) * option (string * list series * string).

Definition lift {A} (r : exn + A) : Bench A :=
  match r with inl ex => raise ex | inr a => ret a end.

(** The loop of the main block: the reports of the benchmarks that ran. *)
Fixpoint run_benchmarks (loops : list loop_entry) (selected : option (list string))
    (benchmarks : list benchmark) : Bench (list report) :=
  match benchmarks with
  | [] => ret []
  | (bname, modname) :: benchmarks' =>
      if skipped selected bname then run_benchmarks loops selected benchmarks'
      else
        r <- benchmark_with_event_loops loops modname ;;
        table <- lift (create_comparison_table loops r) ;;
        plot <- lift (plot_results loops r bname) ;;
        rest <- run_benchmarks loops selected benchmarks' ;;
        ret ((bname, table, plot) :: rest)
  end.

Definition main (HAS_UVLOOP : bool) (argv : list string) (benchmarks : list benchmark)
    : Bench (list report) :=
  run_benchmarks (LOOPS HAS_UVLOOP argv) (selected_names argv) benchmarks.

(** ** What is measured *)

Fixpoint doubles (m : N) (n : nat) : list N :=
  match n with 0 => [] | S n' => m :: doubles (m * M_MULTIPLIER)%N n' end.

Definition sizes : list N := doubles M_INITIAL N_SIZES.

(** [times] is what a run of the script for [m] printed. *)
Definition measured (modname loop_type : string) (e : N * list T) : Prop :=
  exists k stdout l,
    run k (make_script modname e.1 loop_type) = Completed 0 stdout
    /\ last_line (strip stdout) = Some l /\ loads l = inr e.2.

(** A run for one of the sizes timed out or ended with an error status. *)
Definition failed_run (modname loop_type : string) : Prop :=
  exists k m, m ∈ sizes /\
    (run k (make_script modname m loop_type) = Expired
     \/ exists code stdout,
          run k (make_script modname m loop_type) = Completed code stdout /\ code <> 0%Z).

(** Where an exception that leaves the measurements comes from. *)
Definition external (ex : exn) : Prop :=
  ex = IndexError \/ (exists k script, run k script = RunRaises ex)
  \/ (exists l, loads l = inl ex).

Lemma measure_spec k script s :
  match measure k script s with
  | (Ret (Some times), s') =>
      s' = s /\ exists stdout l, run k script = Completed 0 stdout
        /\ last_line (strip stdout) = Some l /\ loads l = inr times
  | (Ret None, s') =>
      s' = s /\ (run k script = Expired
        \/ exists code stdout, run k script = Completed code stdout /\ code <> 0%Z)
  | (Raise ex, s') => s' = s /\ external ex
  end.
Proof using run loads.
  unfold measure, external. destruct (run k script) as [code stdout| |ex] eqn:Hr; cbn.
  - destruct (Z.eqb_spec code 0) as [->|Hne]; [|cbn; eauto 6].
    destruct (last_line (strip stdout)) as [l|] eqn:Hl; [|cbn; auto].
    destruct (loads l) as [ex|times] eqn:Hj; cbn; eauto 8.
  - auto.
  - eauto 8.
Qed.

Section Fresh.
Variable F : gset string.
Hypothesis tmpname_fresh : forall k, tmpname k ∉ F.

(** One turn of the loop's body: the temporary file is gone however it ends. *)
Lemma turn_files k script s :
  files s = F ->
  let '(o, s') := (try_finally (measure k script) (unlink (tmpname k)))
                    (BenchState ({[tmpname k]} ∪ files s) (made s)) in
  files s' = F /\ o = (measure k script s).1.
Proof using tmpname_fresh run loads.
  clear ltb sub div zero inf mean stdev.
  intros HF. unfold try_finally.
  pose proof (measure_spec k script (BenchState ({[tmpname k]} ∪ files s) (made s))) as H.
  pose proof (measure_spec k script s) as H'.
  assert (Heq : forall s1 s2, (measure k script s1).1 = (measure k script s2).1).
  { intros s1 s2. unfold measure. destruct (run k script); try reflexivity.
    destruct (Z.eqb _ _); [|reflexivity]. destruct (last_line _); [|reflexivity].
    now destruct (loads _). }
  specialize (Heq (BenchState ({[tmpname k]} ∪ files s) (made s)) s).
  destruct (measure k script (BenchState _ _)) as [o s'] eqn:E.
  assert (s' = BenchState ({[tmpname k]} ∪ files s) (made s)) as ->.
  { destruct o as [[?|]|?]; apply H. }
  cbn in *. split; [|exact Heq]. pose proof (tmpname_fresh k). rewrite HF. set_solver.
Qed.

Lemma doubles_bound m n k :
  (m * 2 ^ N.of_nat (S n) = M_INITIAL * 2 ^ N.of_nat k)%N ->
  (m <= M_INITIAL * 2 ^ N.of_nat (k - 1))%N.
Proof using Type.
  intros H. destruct k as [|k].
  - rewrite N.pow_0_r, N.mul_1_r in H. cbn [Nat.sub]. rewrite N.pow_0_r, N.mul_1_r.
    rewrite <- H. rewrite <- (N.mul_1_r m) at 1. apply N.mul_le_mono_l.
    pose proof (N.pow_nonzero 2 (N.of_nat (S n))). lia.
  - rewrite Nat.sub_succ, Nat.sub_0_r.
    rewrite !Nat2N.inj_succ, !N.pow_succ_r' in H.
    assert (m * 2 ^ N.of_nat n = M_INITIAL * 2 ^ N.of_nat k)%N as <- by lia.
    rewrite <- (N.mul_1_r m) at 1. apply N.mul_le_mono_l.
    pose proof (N.pow_nonzero 2 (N.of_nat n)). lia.
Qed.

(** The loop from size [m], with [n] sizes to go. *)
Lemma measure_sizes_spec modname loop_type n : forall fuel m acc s,
  n < fuel -> (m * 2 ^ N.of_nat n = M_INITIAL * 2 ^ N.of_nat N_SIZES)%N ->
  (forall x, x ∈ doubles m n -> x ∈ sizes) -> files s = F ->
  let '(o, s') := measure_sizes fuel modname loop_type m acc s in
  files s' = F
  /\ match o with
     | Ret (Some l) => exists rest, l = acc ++ rest /\ map fst rest = doubles m n
                         /\ Forall (measured modname loop_type) rest
     | Ret None => failed_run modname loop_type
     | Raise ex => external ex
     end.
Proof using tmpname_fresh run loads.
  clear ltb sub div zero inf mean stdev.
  induction n as [|n IH]; intros fuel m acc s Hf Hm Hs HF;
    (destruct fuel as [|fuel]; [lia|]); cbn [measure_sizes].
  - rewrite N.pow_0_r, N.mul_1_r in Hm. subst m. cbn. split; [exact HF|].
    exists []. now rewrite app_nil_r.
  - rewrite (proj2 (N.leb_le _ _) (doubles_bound _ _ _ Hm)).
    unfold bind at 1, make_tmp. unfold bind.
    pose proof (measure_spec (made s) (make_script modname m loop_type) s) as Hk.
    cbn [files made] in *.
    set (s1 := BenchState ({[tmpname (made s)]} ∪ files s) (S (made s))).
    pose proof (turn_files (made s) (make_script modname m loop_type)
      (BenchState (files s) (S (made s))) HF) as Ht'.
    cbn [files made] in Ht'. fold s1 in Ht'.
    destruct (try_finally _ _ s1) as [o s2]. destruct Ht' as [HF2 ->].
    assert ((measure (made s) (make_script modname m loop_type) (BenchState (files s) (S (made s)))).1
            = (measure (made s) (make_script modname m loop_type) s).1) as ->.
    { unfold measure. destruct (run _ _); try reflexivity. destruct (Z.eqb _ _); [|reflexivity].
      destruct (last_line _); [|reflexivity]. now destruct (loads _). }
    destruct (measure _ _ s) as [[[times|]|ex] s3]; cbn [fst]; destruct Hk as [_ Hk].
    + destruct Hk as (stdout & l & H1 & H2 & H3).
      specialize (IH fuel (m * M_MULTIPLIER)%N (acc ++ [(m, times)]) s2).
      destruct (measure_sizes _ _ _ _ _ s2) as [o s4].
      destruct IH as [HF4 IH]; [lia | | | exact HF2 |].
      * rewrite <- Hm, Nat2N.inj_succ, N.pow_succ_r'. unfold M_MULTIPLIER. lia.
      * intros x Hx. apply Hs. now constructor.
      * split; [exact HF4|]. destruct o as [[l'|]|]; [|exact IH|exact IH].
        destruct IH as (rest & -> & Hd & Hr). exists ((m, times) :: rest).
        rewrite <- app_assoc. cbn [app map fst doubles]. rewrite Hd.
        repeat split. constructor; [|exact Hr]. exists (made s), stdout, l. auto.
    + split; [exact HF2|]. exists (made s), m. split; [apply Hs; constructor | exact Hk].
    + auto.
Qed.

(** What the entry of one loop says. *)
Definition entry_ok (modname : string) (loop_type : string) (r : loop_results) : Prop :=
  match r with
  | Some l => map fst l = sizes /\ Forall (measured modname loop_type) l
  | None => failed_run modname loop_type
  end.

Lemma benchmark_loops_spec modname loops : forall results s,
  NoDup (map fst loops) -> files s = F ->
  let '(o, s') := benchmark_loops loops modname results s in
  files s' = F
  /\ match o with
     | Ret results' =>
         (forall name lt, (name, lt) ∈ loops ->
            exists r, results' !! name = Some r /\ entry_ok modname lt r)
         /\ (forall name, name ∉ map fst loops -> results' !! name = results !! name)
     | Raise ex => external ex
     end.
Proof using tmpname_fresh run loads.
  clear ltb sub div zero inf mean stdev.
  induction loops as [|[name lt] loops IH]; intros results s Hnd HF; cbn [benchmark_loops].
  - cbn. split; [exact HF|]. split; [|reflexivity]. intros ? ? H%not_elem_of_nil. destruct H.
  - unfold bind.
    pose proof (measure_sizes_spec modname lt N_SIZES sizes_fuel M_INITIAL [] s) as Hm.
    destruct (measure_sizes _ _ _ _ _ s) as [o s1].
    destruct Hm as [HF1 Hm]; [unfold sizes_fuel; lia | reflexivity | auto | exact HF |].
    destruct o as [r|ex]; [|auto].
    cbn [map fst] in Hnd. apply NoDup_cons in Hnd as [Hnin Hnd].
    specialize (IH (<[name := r]> results) s1 Hnd HF1).
    destruct (benchmark_loops _ _ _ s1) as [o s2]. destruct IH as [HF2 IH].
    split; [exact HF2|]. destruct o as [results'|ex]; [|exact IH].
    destruct IH as [Hin Hout]. split.
    + intros n t [[= -> ->]|H]%elem_of_cons; [|eauto].
      exists r. rewrite Hout by exact Hnin. split; [apply lookup_insert_eq|].
      destruct r as [l|]; [|exact Hm].
      destruct Hm as (rest & -> & Hd & Hr). split; [exact Hd | exact Hr].
    + intros n Hn. cbn [map fst] in Hn. apply not_elem_of_cons in Hn as [Hne Hn].
      rewrite Hout by exact Hn. apply lookup_insert_ne. congruence.
Qed.
End Fresh.

(** ** What the table compares *)

Definition stdev_of (times : list T) : T :=
  if Nat.ltb 1 (length times) then stdev times else zero.

(** [against] compares [times] with the baseline's measurement of the same size. *)
Definition compares (base : loop_results) (m : N) (times : list T) (against : option (T * T)) : Prop :=
  match base with
  | None => against = None
  | Some l => exists base_times, (m, base_times) ∈ l /\
      against = Some (sub (mean times) (mean base_times),
                      if ltb zero (mean times) then div (mean base_times) (mean times) else inf)
  end.

Definition row_ok (base : loop_results) (entries : list (N * list T)) (r : table_row) : Prop :=
  exists times against, (row_m r, times) ∈ entries
    /\ row_figures r =
         Figures (time_min times) (time_max times) (mean times) (stdev_of times) against
    /\ compares base (row_m r) times against.

Definition nonempty_times (l : list (N * list T)) : Prop := Forall (fun e => e.2 <> []) l.

(** Without a baseline every row stands alone. *)
Lemma figure_rows_alone name i entries :
  nonempty_times entries ->
  exists rows, figure_rows name [] i entries = inr rows
    /\ map row_loop rows = map (fun _ => name) entries
    /\ map row_m rows = map fst entries
    /\ Forall (row_ok None entries) rows.
Proof.
  revert i. induction entries as [|[m times] entries IH]; intros i Hne; [exists []; auto|].
  apply Forall_cons in Hne as [Ht Hne]. destruct (IH (S i) Hne) as (rows & He & Hl & Hm & Hr).
  cbn [figure_rows]. destruct times as [|x l]; [now destruct Ht|]. rewrite lookup_nil, He.
  eexists. split; [reflexivity|]. cbn [map row_loop row_m fst]. rewrite Hl, Hm.
  repeat split; try reflexivity. constructor.
  - exists (x :: l), None. repeat split; try reflexivity. constructor.
  - eapply Forall_impl; [exact Hr|]. intros r (ts & a & Hin & H).
    exists ts, a. split; [now constructor | exact H].
Qed.

(** With one, entry by entry: [base] is the baseline's remaining entries. *)
Lemma figure_rows_aligned name all base entries i :
  nonempty_times entries -> nonempty_times base ->
  map fst base = map fst entries -> (forall j, base !! j = all !! (i + j)) ->
  exists rows, figure_rows name all i entries = inr rows
    /\ map row_loop rows = map (fun _ => name) entries
    /\ map row_m rows = map fst entries
    /\ Forall (row_ok (Some all) entries) rows.
Proof.
  revert base i. induction entries as [|[m times] entries IH]; intros base i Hne Hnb Hfst Hall;
    [exists []; auto|].
  destruct base as [|[m' bt] base]; [discriminate|]. injection Hfst as -> Hfst.
  apply Forall_cons in Hne as [Ht Hne]. apply Forall_cons in Hnb as [Hb Hnb].
  destruct (IH base (S i) Hne Hnb Hfst) as (rows & He & Hl & Hm & Hr).
  { intros j. rewrite Nat.add_succ_comm. exact (Hall (S j)). }
  pose proof (Hall 0) as H0. rewrite Nat.add_0_r in H0. cbn in H0.
  cbn [figure_rows]. destruct times as [|x l]; [now destruct Ht|]. rewrite <- H0, He.
  destruct bt as [|b bl]; [now destruct Hb|].
  eexists. split; [reflexivity|]. cbn [map row_loop row_m fst]. rewrite Hl, Hm.
  repeat split; try reflexivity. constructor.
  - eexists (x :: l), _. repeat split; try reflexivity; [constructor|].
    exists (b :: bl). split; [|reflexivity]. eapply list_elem_of_lookup_2. now rewrite <- H0.
  - eapply Forall_impl; [exact Hr|]. intros r (ts & a & Hin & H).
    exists ts, a. split; [now constructor | exact H].
Qed.

(** Results in which every loop that did not fail has all the sizes. *)
Definition complete (results : results_map) : Prop :=
  forall name l, get_results results name = Some l ->
    map fst l = sizes /\ nonempty_times l.

(** The rows of the loop called [name]. *)
Definition loop_rows_ok (base : loop_results) (results : results_map) (name : string)
    (rows : list table_row) : Prop :=
  Forall (fun r => row_loop r = name) rows /\
  match get_results results name with
  | Some entries => map row_m rows = sizes /\ Forall (row_ok base entries) rows
  | None => map row_m rows = match base with Some _ => sizes | None => [] end
            /\ Forall (fun r => row_figures r = NotAvailable) rows
  end.

Lemma row_loops_const name (rows : list table_row) (entries : list (N * list T)) :
  map row_loop rows = map (fun _ => name) entries -> Forall (fun r => row_loop r = name) rows.
Proof.
  revert entries. induction rows as [|r rows IH]; intros [|e entries]; try discriminate; constructor.
  - now injection H.
  - injection H. eauto.
Qed.

Lemma loop_rows_spec base results name :
  complete results ->
  (forall l, base = Some l -> map fst l = sizes /\ nonempty_times l) ->
  exists rows,
    match get_results results name with
    | None => inr (map (fun e => TableRow name e.1 NotAvailable) (default [] base))
    | Some entries => figure_rows name (default [] base) 0 entries
    end = inr rows
    /\ loop_rows_ok base results name rows.
Proof.
  intros Hc Hb. unfold loop_rows_ok. destruct (get_results results name) as [entries|] eqn:E.
  - destruct (Hc _ _ E) as [Hs Hne].
    destruct base as [l|].
    + change (default [] (Some l)) with l. destruct (Hb l eq_refl) as [Hbs Hbn].
      destruct (figure_rows_aligned name l l entries 0) as (rows & -> & Hl & Hm & Hr);
        [assumption | assumption | congruence | reflexivity |].
      exists rows. split; [reflexivity|]. split; [eapply row_loops_const; exact Hl|].
      split; [congruence | exact Hr].
    + change (default [] (@None (list (N * list T)))) with (@nil (N * list T)).
      destruct (figure_rows_alone name 0 entries Hne) as (rows & -> & Hl & Hm & Hr).
      exists rows. split; [reflexivity|]. split; [eapply row_loops_const; exact Hl|].
      split; [congruence | exact Hr].
  - eexists. split; [reflexivity|].
    split; [apply Forall_map, Forall_true; reflexivity|].
    split; [|apply Forall_map, Forall_true; reflexivity].
    rewrite map_map. cbn [row_m]. destruct base as [l|]; [|reflexivity].
    exact (proj1 (Hb l eq_refl)).
Qed.

Lemma table_rows_spec loops base results :
  complete results ->
  (forall l, base = Some l -> map fst l = sizes /\ nonempty_times l) ->
  exists groups, table_rows loops (default [] base) results = inr (concat groups)
    /\ Forall2 (fun e rows => loop_rows_ok base results e.1 rows) loops groups.
Proof.
  intros Hc Hb. induction loops as [|[name lt] loops (groups & IH & HF)];
    cbn [table_rows]; [exists []; auto|].
  destruct (loop_rows_spec base results name Hc Hb) as (rows & -> & Hr).
  exists (rows :: groups). rewrite IH. split; [reflexivity|]. now constructor.
Qed.
End Measure.

(** ** Results *)

Lemma LOOPS_names_NoDup has_uvloop argv : NoDup (map fst (LOOPS has_uvloop argv)).
Proof.
  unfold LOOPS. destruct (has_uvloop && _); apply (bool_decide_unpack _); vm_compute; exact I.
Qed.

(** The measurements of a benchmark leave no temporary file behind,
    whatever ends them - success, a failing run, a timeout or an exception;
    when they return, every loop has an entry: either one measurement for
    each of the sizes 1024, 2048, ..., 65536, each what a successful run of
    that size's script printed, or none because some run of that loop failed;
    and the only exceptions are those of a subprocess that cannot be run and
    of output that cannot be read. *)
Theorem benchmark_measures_all {T} run (loads : string -> exn + list T) tmpname loops modname s
    (Hnames : NoDup (map fst loops)) (Hfresh : forall k, tmpname k ∉ files s) :
  let '(o, s') := benchmark_with_event_loops run loads tmpname loops modname s in
  files s' = files s
  /\ match o with
     | Ret results => forall name lt, (name, lt) ∈ loops ->
         exists r, results !! name = Some r /\ entry_ok run loads modname lt r
     | Raise ex => external run loads ex
     end.
Proof.
  pose proof (benchmark_loops_spec run loads tmpname (files s) Hfresh modname loops ∅ s
    Hnames eq_refl) as H.
  unfold benchmark_with_event_loops. destruct (benchmark_loops _ _ _ _ _ _ s) as [o s'].
  destruct H as [HF H]. split; [exact HF|]. destruct o; [apply H | exact H].
Qed.

Lemma measured_complete {T} run (loads : string -> exn + list T) tmpname loops modname s results s' :
  NoDup (map fst loops) -> (forall k, tmpname k ∉ files s) ->
  (forall l times, loads l = inr times -> times <> []) ->
  benchmark_with_event_loops run loads tmpname loops modname s = (Ret results, s') ->
  complete results.
Proof.
  intros Hn Hf Hl Hr name l E.
  pose proof (benchmark_loops_spec run loads tmpname (files s) Hf modname loops ∅ s
    Hn eq_refl) as H.
  unfold benchmark_with_event_loops in Hr. rewrite Hr in H. destruct H as (_ & Hin & Hout).
  destruct (decide (name ∈ map fst loops)) as [Hm|Hm].
  - apply list_elem_of_fmap in Hm as ([n lt] & -> & Hm). cbn [fst] in *.
    destruct (Hin n lt Hm) as (r & Hlk & Hok). assert (Hg : get_results results n = r) by exact (f_equal mjoin Hlk).
    rewrite Hg in E. subst r. destruct Hok as [Hs Hmeas]. split; [exact Hs|].
    eapply Forall_impl; [exact Hmeas|]. intros e (k & out & t & _ & _ & Ht). eauto.
  - assert (Hg : get_results results name = None).
    { exact (f_equal mjoin (eq_trans (Hout name Hm) (lookup_empty name))). }
    congruence.
Qed.

(** The table of a benchmark's own results has, loop by loop and size by
    size, the figures of that loop's measurements, and compares each of them
    with the first loop's measurement of the same size; a loop that failed has
    one row of ["N/A"] for each size of the first loop, and when it is the
    first loop that failed the others have their figures and no comparison.
    Building it raises nothing. *)
Theorem table_compares_same_size {T} run (loads : string -> exn + list T) tmpname ltb sub div
    zero inf mean stdev loops modname s results s'
    (Hnames : NoDup (map fst loops)) (Hfresh : forall k, tmpname k ∉ files s)
    (Htimes : forall l times, loads l = inr times -> times <> []) (Hloops : loops <> [])
    (Hrun : benchmark_with_event_loops run loads tmpname loops modname s = (Ret results, s')) :
  exists groups,
    create_comparison_table ltb sub div zero inf mean stdev loops results
      = inr (Some (concat groups))
    /\ Forall2 (fun e rows =>
         loop_rows_ok ltb sub div zero inf mean stdev
           (get_results results (base_name loops)) results e.1 rows) loops groups.
Proof.
  pose proof (measured_complete _ _ _ _ _ _ _ _ Hnames Hfresh Htimes Hrun) as Hc.
  pose proof (benchmark_loops_spec run loads tmpname (files s) Hfresh modname loops ∅ s
    Hnames eq_refl) as H.
  unfold benchmark_with_event_loops in Hrun. rewrite Hrun in H. destruct H as (_ & Hin & _).
  unfold create_comparison_table. rewrite bool_decide_eq_false_2.
  - destruct (table_rows_spec ltb sub div zero inf mean stdev loops
      (get_results results (base_name loops)) results Hc) as (groups & -> & Hg); [|eauto].
    intros l E. exact (Hc _ _ E).
  - destruct loops as [|[n lt] loops]; [now destruct Hloops|].
    destruct (Hin n lt) as (r & Hlk & _); [constructor|]. intros ->.
    discriminate (eq_trans (eq_sym Hlk) (lookup_empty n)).
Qed.

(** A benchmark runs when no [--bench=] is given or its name, in any letter
    case, is one of those given. *)
Lemma skipped_false selected bname :
  skipped selected bname = false <->
  match selected with None => True | Some names => lower bname ∈ names end.
Proof.
  destruct selected as [names|]; cbn; [|easy].
  rewrite negb_false_iff. apply bool_decide_eq_true.
Qed.

(** *** An example: whole numbers for times, and a loop that times out *)

Definition example_run (k : nat) (script : string) : run_result :=
  if str_in "uvloop" script then Expired else Completed 0 "[3, 4, 8]".
Definition example_loads (l : string) : exn + list Z :=
  if bool_decide (l = "[3, 4, 8]") then inr [3; 4; 8]%Z else inl IndexError.
Definition example_tmpname (k : nat) : string := "tmp" +:+ pretty k.
Definition example_mean (l : list Z) : Z := (fold_left Z.add l 0 / Z.of_nat (length l))%Z.

Lemma example_times l times : example_loads l = inr times -> times <> [].
Proof. unfold example_loads. case_bool_decide; [|discriminate]. now intros [= <-]. Qed.

Definition example_result : outcome results_map * bench_state :=
  benchmark_with_event_loops example_run example_loads example_tmpname (LOOPS true [])
    "benchmarks.chat" (BenchState ∅ 0).

Lemma benchmark_measures_all_witness :
  exists results s', example_result = (Ret results, s') /\ files s' = ∅
    /\ (exists r, results !! "talyn" = Some r
          /\ entry_ok example_run example_loads "benchmarks.chat" "talyn.Loop()" r)
    /\ results !! "uvloop" = Some None.
Proof.
  pose proof (benchmark_measures_all example_run example_loads example_tmpname (LOOPS true [])
    "benchmarks.chat" (BenchState ∅ 0) (LOOPS_names_NoDup true [])
    (fun k => not_elem_of_empty _)) as H.
  fold example_result in H. destruct example_result as [[results|ex] s'] eqn:E;
    [|vm_compute in E; discriminate].
  destruct H as [HF H]. exists results, s'. split; [reflexivity|]. split; [exact HF|].
  split; [apply H; right; right; left|].
  assert (fmap (M:=option) (fun r => match r with None => true | _ => false end)
    (match fst example_result with Ret m => m !! "uvloop" | _ => None end) = Some true) as Hu
    by (vm_compute; reflexivity).
  rewrite E in Hu. cbn [fst] in Hu. destruct (results !! "uvloop") as [[l|]|]; [discriminate|reflexivity|discriminate].
Defined.

Lemma table_compares_same_size_witness :
  exists results s' groups,
    example_result = (Ret results, s')
    /\ create_comparison_table Z.ltb Z.sub Z.div 0%Z (-1)%Z example_mean example_mean
         (LOOPS true []) results = inr (Some (concat groups))
    /\ length groups = 3.
Proof.
  destruct example_result as [[results|ex] s'] eqn:E; [|vm_compute in E; discriminate].
  destruct (table_compares_same_size example_run example_loads example_tmpname Z.ltb Z.sub Z.div
    0%Z (-1)%Z example_mean example_mean (LOOPS true []) "benchmarks.chat" (BenchState ∅ 0)
    results s' (LOOPS_names_NoDup true []) (fun k => not_elem_of_empty _) example_times
    ltac:(discriminate) E) as (groups & Hg & HF).
  exists results, s', groups. split; [reflexivity|]. split; [exact Hg|].
  apply Forall2_length in HF. symmetry. exact HF.
Defined.
